(* ===== verification/_CoqProject ===== *)
-Q . S2P
Prelude.v
AvlTree.v
AvlSpec.v
AvlRep.v
AvlInsert.v
AvlErase.v
AvlLaws.v
AvlSearch.v
AvlTheorems.v
Pmm.v
PageTable.v
PageTableLaws.v
PageMap.v
PageUnmap.v
PageTheorems.v
TreeHeap.v
HeapLaws.v
HeapOps.v
HeapOrder.v
HeapQueue.v
HeapTheorems.v
Text.v
Cstring.v
Bytes.v
Cpio.v
CpioTheorems.v
ElfTypes.v
Elf.v
ElfTheorems.v
Vmo.v
Vas.v
VasTheorems.v
Scheduler.v
SchedulerTheorems.v
Timer.v
TimerTheorems.v
Fifo.v
Ipc.v
IpcTheorems.v
Algorithm.v
Loader.v
LoaderTheorems.v
RuntimeInit.v
ThornLexer.v
ThornParser.v
ThornContext.v
ThornLayout.v
ThornRoundtrip.v
ThornTypes.v
ThornTheorems.v
ThornGenerator.v
ThornHandlers.v
ThornOutput.v
ThornMeta.v
Acpi.v
AcpiTheorems.v
Syscalls.v
UefiMemory.v
UefiMap.v
UefiConfig.v
UefiPaging.v
Mp.v
ChainedAllocator.v
RefCount.v
Lapic.v
Contexts.v
Stacks.v
HwTimers.v
CpuSetup.v
ApBoot.v
KernelMain.v
Bootinit.v
BootTheorems.v
LogService.v
Screen.v
BootLog.v
UefiLoader.v
GlobalScheduler.v
Locks.v
Format.v
