(* ===== verification/Prelude.v ===== *)
(** * ReaverOS: a verification development

    ReaverOS is a microkernel for amd64 with the loader that starts it, the
    libraries its loaders and first process use, and the compiler of its system
    calls.  This library models the part of it that computes: the kernel's
    containers, its memory management, its scheduler, timers and messages, what
    it reads from the firmware's tables, the libraries that read the formats the
    system boots from, the memory map, page tables and configuration of the
    loader, the interface compiler, and how the hardware of amd64 is driven, as the
    registers that are accessed.  Paths below are under src/.

    ** How the program is put together

    The UEFI loader reads its configuration, chooses a video mode, builds the
    first page tables and a map of physical memory, and starts the kernel.  The
    kernel gets that map, the root of the ACPI tables, in which it finds the
    processors, and an archive (the initial ramdisk).  [pmm::initialize] cuts the map into frames; page tables take their
    frames from it; virtual memory objects (ranges of physical memory, or sparse
    sequences of frames) are mapped into address spaces.  Threads of processes
    run under a scheduler per core, which sets a timer for preemption.  Processes
    hold kernel objects under tokens and send them to each other through
    mailboxes.  The first process reads the other programs from the archive and
    parses them as ELF images.  System calls are described in .thorn files, from
    which a compiler generates the stubs of the processes and the entries of the
    kernel that check the tokens.  The containers below all of this are intrusive:
    an AVL tree, a heap and a queue threaded through the objects they hold.

    ** Files

    - [Prelude] (this file): the error monad with the ways the kernel can fail
      ([Panic], [Fault], [Deadlock], [Uncaught] exceptions of the compiler, and
      [NoFuel] of the models), 64-bit words
      with their wrap-around, shared lemmas and tactics.
    - [AvlTree] models kernel/util/avl_tree.h on a store of tagged link words.
      [AvlSpec] has functional trees and one-hole contexts, [AvlRep] the relation
      between the two, [AvlInsert], [AvlErase], [AvlSearch] and [AvlLaws] the
      proofs, [AvlTheorems] the contract.
    - [Pmm] models kernel/memory/pmm.cpp: the stacks of free frames, their locks
      and the cutting of regions; it implements the interface [FrameAllocator].
    - [PageTable] models kernel/arch/amd64/memory/vm.cpp over any
      [FrameAllocator]; [PageTableLaws] has the invariant (who owns a table) and
      the function the hardware computes, [PageMap] and [PageUnmap] the walks,
      [PageTheorems] the contract.
    - [TreeHeap] models kernel/util/tree_heap.h.  [HeapLaws] sees it as an array,
      [HeapOps], [HeapOrder] and [HeapQueue] prove the operations,
      [HeapTheorems] the contract, which is the interface [PriorityQueue].
    - [Text], [Format], [Locks] and [Cstring] model parts of libraries/rosestd
      (string_view and charconv, format, mutex and shared_mutex, cstring.cpp).  [Bytes] is access to memory images; over it [Cpio]
      models libraries/archive and [ElfTypes] and [Elf] model libraries/elf, with
      [CpioTheorems] and [ElfTheorems].
    - [Vmo] models kernel/memory/vmo.cpp over [Pmm].  [Vas] models vas.cpp,
      vmo_mapping.h, vmo_mapping.cpp and vm.cpp of kernel/memory over the AVL
      tree, the page tables and the objects, with [VasTheorems].
    - [Scheduler] models kernel/scheduler/types.cpp and [Timer] kernel/time, both
      clients of the heap proved against [PriorityQueue] ([SchedulerTheorems],
      [TimerTheorems]).
    - [ChainedAllocator] models kernel/util/chained_allocator.h over any
      [FrameAllocator], [RefCount] kernel/util/intrusive_ptr.h, and [Mp]
      kernel/util/mp.cpp, the calls across cores, as a machine whose cores
      interleave.
    - [Fifo] models kernel/util/fifo.h; [Ipc] models kernel/scheduler/process.cpp
      and mailbox.cpp and kernel/util/handle.h, with [IpcTheorems].
    - [Algorithm] has [find] and [rotate] of libraries/rosestd; [Loader] models
      kernel/bootinit/process.cpp (the tree of loaded images, symbol search,
      relocation, initialisation order) and libraries/rosert/src/init.cpp, with
      [LoaderTheorems] and, for the two together, [RuntimeInit].
    - The compiler of toolchain/thorn: [ThornLexer] models lexer.h, [ThornParser]
      parser.cpp, [ThornContext] context.cpp, [ThornGenerator] generator.cpp and
      main.cpp; [ThornMeta] is the description of the system's own calls.
      [ThornLayout] lays declarations out as text, [ThornRoundtrip] reads them
      back, [ThornTypes] has the rules for declarations, [ThornTheorems] the
      theorems on reading and checking, [ThornHandlers] and [ThornOutput] those on
      the generated code.
    - [Acpi] models kernel/arch/common/acpi/acpi.cpp and the list of cores, with
      [AcpiTheorems].  [Syscalls] has the handlers of kernel/memory that give
      tokens for objects, over [Vas] and [Ipc] together.
    - loaders/uefi: [UefiMemory] models the memory map of efi/efi.cpp, with
      [UefiMap]; [UefiConfig] models config/config.cpp, efi/video_mode.cpp and the
      search for the ACPI root; [UefiPaging] models
      cpu/amd64/paging.cpp; [UefiLoader] models cpu/amd64/cpuid.cpp, efi/path.cpp,
      efi/filesystem.cpp, parts of efi/console.cpp and of main.cpp.
    - kernel/arch/amd64: [Lapic] models cpu/lapic.cpp; [Contexts] models
      cpu/irqs.cpp, cpu/syscalls.cpp, cpu/thread.cpp with the frames of the entry
      code, and the continuations of kernel/scheduler/thread.h; [Stacks] is the
      loop that makes kernel stacks; [HwTimers] models timers/hpet.cpp and
      timers/lapic.cpp, [CpuSetup] models cpu/gdt.cpp, cpu/idt.cpp, cpu/core.cpp and
      cpu/cpu.cpp, [ApBoot] models mp/mp.cpp.  [GlobalScheduler] models
      kernel/scheduler/scheduler.cpp.
    - The start of the first process: [KernelMain] models the end of kernel/main.cpp
      with the log acceptor, [Bootinit] models kernel/bootinit/main.cpp and print.cpp
      and has the kernel's side of the system calls, [BootTheorems] puts the two
      together, and [LogService] has the log handler of main.cpp with the printer.
    - Output: [Screen] models kernel/boot/screen.cpp, [BootLog] models
      kernel/util/log.cpp over it and [Pmm].

    An operation keeps the name of the function it models; a constructor, a
    destructor or an overload has a name of its own that its comment explains.
    State is passed explicitly: [M S A] is a function from a state to a value and
    a state, or an error.  Objects that the code shares through pointers are
    values of a finite map from addresses, so that aliasing is visible.

    ** Interfaces between components

    [FrameAllocator] (frames to page tables), [PriorityQueue] (heap to scheduler
    and timers), [ElementTree] (the tree operations the sparse objects use),
    [SchedulerOps] and [Permissions] (to processes and mailboxes), [KeyOrder] and
    [KeyBounds] (a comparator to the tree), [StrictWeak] and [StrictOrder_] (a
    comparator to heap and tree), [Enumeration] (the checked casts of ELF),
    [Syscalls] and its laws [RuntimeLaws] (the kernel to the first process; the
    instance [kernel_calls] is the kernel), [LogCalls] (the calls of the printer).

    ** What the theorems show

    - Containers: every operation of the AVL tree refines the operation on the
      sequence in order, keeping balance and order; the exceptions the code has
      (erasure at the root, [lower_bound], [operator--], the destructor) are
      stated exactly.  [push] and [pop] refine a priority queue; the queue of
      fifo.h refines lists.  Allocated objects never overlap, and counted
      references are exact as long as nothing is assigned to itself.
    - Memory: the frame stacks refine lists of frames and a region is cut without
      loss or overlap; [map_physical] and [unmap] change the translation of the
      addresses of the range and of no others, where the translation is the walk of
      the hardware, with the user bits of all levels (pages are always writable: the
      read-only flag has no effect); committing a sparse object gives a
      frame to every page and its life cycle returns them; mapping an object into
      an address space makes its pages translate to the frames of the object.
    - Running: switching and preemption choose the thread that has waited
      longest; timers fire the events that are due, in order, once, cancelled
      ones never, with callbacks that arm the timer again and cancel their own event,
      as that of preemption does.
    - Cores: while one call across cores is under way at a time, each core it is
      for runs the function once, in every interleaving; with calls that overlap
      a run is shown that follows a dangling pointer.  The locks exclude in every
      interleaving of their atomic operations.
    - Messages: a handle is never lost or doubled, messages arrive as they
      were sent and in order, tokens are fresh.
    - Formats: readers of archives and images end without access outside of the
      data (for images, when the tables lie where the header says, and with the bounds
      the parser does not check); what is
      written is found again; relocations write what the format demands; numbers
      convert to text and back, and formats write what they describe.
    - Starting programs: images are initialised after their dependencies when no
      image is shared, and the new process runs every initialiser once, in that
      order; symbols resolve to the nearest definition.  With a shared image the
      order is never found, since [std::rotate] does not end.
    - System calls: a description is accepted exactly when it follows the rules but
      one: that a call with a token that needs permissions returns the generated
      result is checked by code that never sees such a token, and the theorem says
      which descriptions are accepted against it.  What is laid out is read back, and a call made through a generated stub reaches
      its handler with its arguments after the declared checks; the call that
      maps an object commits it, maps it and gives a fresh token.
    - Boot: the processors of the ACPI tables are read as they are described; the
      map the loader hands over gives addresses the firmware's types, the mode it
      chooses is the largest allowed one, its page tables translate what was
      mapped.  Where the code falls short (an entry of the map that is lost, tables
      of too many processors, mappings that are not aligned alike) the theorems
      say so.
    - Hardware: the two modes of the interrupt controller tell it the same things; a
      thread that was taken off its core comes back with its registers, and with the
      result of its continuation when the call it made left one; the tables
      of a core describe what they are meant to; a timer is armed for its duration
      within one tick, with the smallest divisor that has room for it; of the cores that
      are started those that came up are kept and the later ones move down, as long as
      those that failed are the last of their round.  A
      thread that becomes runnable goes to the core where the fewest wait.
    - The first process: it receives what the kernel sends, its log is accepted, and
      what it prints is shown whole; what the kernel prints is kept in memory, and the
      screen is that of a terminal.

    ** Bounds and fuel

    Integers are [Z] kept at their width by [u64] and its kin.  A loop that is not
    structural takes fuel, and every theorem that an operation returns a result
    includes that the fuel is enough.  The tree uses one more than the number of
    objects of the store; the heap 66, more than the depth of a heap of 2^64
    objects; the page-table loops 514, two more than the entries of a table; the
    archive one more than its length (an entry is not empty); the ELF parser its
    length plus the largest number of headers; the cutting of regions what the
    number of frames asks for.  The loops of the loader over a file take one more
    than its length, those over a table of pages 513, those over the memory map
    one more than its size; the tables of the firmware their length, since an entry
    of the walk that counts has at least two bytes.  The search for a divisor takes 8
    steps, the powers of two up to 128; the loops over cores take one more than their
    number; the log acceptor takes one per message.  Where the source's loop depends on a random
    source (tokens), a clock (timers) or other cores (their flags) the fuel is a
    parameter, with a hypothesis that says which runs are meant.

    ** Not modelled

    The hardware itself: the models record which registers are written, and what is
    read back, the flags of other cores and the answers of the firmware are
    parameters.  Assembly, apart from the frames of the entry code, the serial port
    (its characters are kept), the text the kernel prints on its way, the waits
    between the steps of starting cores, and the parts of the main functions of the
    kernel and of the UEFI loader that only call other parts in turn.  Outside of
    [Mp] and [Locks] the operations are sequential: a lock that cannot be had by the
    call that waits for it is a [Deadlock]; two threads that wait for each other, in
    [LogService], run in turn.  Of address spaces the mutex is missing, and the
    release of a shared lock is where it is used, in [LogService]; of the loader of
    the first process the destructors of its temporary arrays. *)
From stdpp Require Export gmap list strings fin_maps.
From Stdlib Require Export ZArith Lia Sorted.

#[global] Open Scope Z_scope.

(** ** Outcomes of kernel code *)

(** How a call can fail to return: the kernel's [PANIC] macro, an access the
    language leaves undefined (null or dangling pointer, out of bounds array),
    a spin lock taken twice by the same owner, an exception that nobody catches
    (in the interface compiler), or an exhausted fuel. *)
Inductive error : Type :=
| Panic (msg : string)
| Fault
| Deadlock
| Uncaught (what : string)
| NoFuel.

Inductive res (A : Type) : Type :=
| Ok (a : A)
| Err (e : error).
Arguments Ok {A} _.
Arguments Err {A} _.

#[global] Instance error_eq_dec : EqDecision error.
Proof. solve_decision. Defined.
#[global] Instance res_eq_dec `{EqDecision A} : EqDecision (res A).
Proof. solve_decision. Defined.

(** Computations over a state [S]: what the code calls with a shared, mutable
    object becomes a function that threads that object. *)
Definition M (S A : Type) : Type := S -> res (A * S).

Definition ret {S A} (a : A) : M S A := fun s => Ok (a, s).
Definition bind {S A B} (m : M S A) (k : A -> M S B) : M S B := fun s =>
  match m s with
  | Ok (a, s') => k a s'
  | Err e => Err e
  end.

Definition get {S} : M S S := fun s => Ok (s, s).
Definition gets {S A} (f : S -> A) : M S A := fun s => Ok (f s, s).
Definition modify {S} (f : S -> S) : M S unit := fun s => Ok (tt, f s).
Definition fail {S A} (e : error) : M S A := fun _ => Err e.
Definition panic {S A} (msg : string) : M S A := fail (Panic msg).
Definition when {S} (b : bool) (m : M S unit) : M S unit := if b then m else ret tt.

Declare Scope reaver_scope.
Delimit Scope reaver_scope with reaver.

Notation "'let*' x := m 'in' k" := (bind m (fun x => k))
  (at level 10, x pattern, m at level 200, k at level 200,
   format "'[v' 'let*'  x  :=  '[' m ']'  'in' '/' k ']'") : reaver_scope.
Notation "m ;; k" := (bind m (fun _ => k))
  (at level 100, k at level 200, right associativity, format "'[v' m  ;; '/' k ']'") : reaver_scope.

#[global] Open Scope reaver_scope.

Section monad.
Context {S A B C : Type}.

Lemma bind_Ok (m : M S A) (k : A -> M S B) s a s' :
  m s = Ok (a, s') -> bind m k s = k a s'.
Proof. unfold bind. by intros ->. Qed.

Lemma bind_Err (m : M S A) (k : A -> M S B) s e :
  m s = Err e -> bind m k s = Err e.
Proof. unfold bind. by intros ->. Qed.

Lemma bind_Ok_inv (m : M S A) (k : A -> M S B) s b s2 :
  bind m k s = Ok (b, s2) -> exists a s1, m s = Ok (a, s1) /\ k a s1 = Ok (b, s2).
Proof. unfold bind. destruct (m s) as [[a s1]|]; naive_solver. Qed.

Lemma bind_assoc (m : M S A) (k : A -> M S B) (l : B -> M S C) s :
  bind (bind m k) l s = bind m (fun a => bind (k a) l) s.
Proof. unfold bind. by destruct (m s) as [[]|]. Qed.
End monad.

(** ** Machine integers *)

(** Unsigned wrap-around at width [w], and the two widths the code uses. *)
Definition wrapu (w z : Z) : Z := z mod 2 ^ w.
Definition u64 (z : Z) : Z := wrapu 64 z.
Definition u32 (z : Z) : Z := wrapu 32 z.
Definition u16 (z : Z) : Z := wrapu 16 z.
Definition u8 (z : Z) : Z := wrapu 8 z.
(** Two's complement reading of the low 8 bits, [std::int_least8_t]. *)
Definition s8 (z : Z) : Z := (z + 128) mod 256 - 128.
(** Two's complement reading of a 64-bit word, [std::ptrdiff_t]. *)
Definition s64 (z : Z) : Z := (z + 2 ^ 63) mod 2 ^ 64 - 2 ^ 63.
(** [~x] on a 64-bit word. *)
Definition not64 (z : Z) : Z := u64 (Z.lnot z).

Definition is_u64 (z : Z) : Prop := 0 <= z < 2 ^ 64.

Lemma u64_id z : is_u64 z -> u64 z = z.
Proof. unfold u64, wrapu, is_u64. intros. by apply Z.mod_small. Qed.

Lemma s8_small c : 0 <= c < 128 -> s8 c = c.
Proof. intros. unfold s8. rewrite Z.mod_small; lia. Qed.
Lemma u64_is_u64 z : is_u64 (u64 z).
Proof. unfold u64, wrapu, is_u64. apply Z.mod_pos_bound. lia. Qed.

Lemma u64_u64 z : u64 (u64 z) = u64 z.
Proof. apply u64_id, u64_is_u64. Qed.

(** Masking with [~(2^n - 1)] rounds down to a multiple of [2^n]. *)
Lemma not64_mask n : 0 <= n <= 64 -> not64 (2 ^ n - 1) = 2 ^ 64 - 2 ^ n.
Proof.
  intros Hn. unfold not64, u64, wrapu.
  replace (Z.lnot (2 ^ n - 1)) with (- 2 ^ n) by (unfold Z.lnot; lia).
  assert (2 ^ n <= 2 ^ 64) by (apply Z.pow_le_mono_r; lia).
  assert (0 < 2 ^ n) by (apply Z.pow_pos_nonneg; lia).
  rewrite <- (Z_mod_plus_full (- 2 ^ n) 1 (2 ^ 64)).
  rewrite Z.mod_small; lia.
Qed.

Lemma land_mask_down z n :
  is_u64 z -> 0 <= n <= 64 -> Z.land z (not64 (2 ^ n - 1)) = z - z mod 2 ^ n.
Proof.
  intros [Hz0 Hz1] Hn. rewrite not64_mask by done.
  replace (2 ^ 64 - 2 ^ n) with (Z.shiftl (Z.ones (64 - n)) n); cycle 1.
  { rewrite Z.shiftl_mul_pow2, Z.ones_equiv by lia.
    unfold Z.pred. rewrite Z.mul_add_distr_r, <- Z.pow_add_r by lia.
    replace (64 - n + n) with 64 by lia. lia. }
  replace (z - z mod 2 ^ n) with (Z.shiftl (Z.shiftr z n) n); cycle 1.
  { rewrite Z.shiftl_mul_pow2, Z.shiftr_div_pow2 by lia.
    pose proof (Z.div_mod z (2 ^ n)). lia. }
  apply Z.bits_inj'. intros i Hi. rewrite Z.land_spec.
  destruct (decide (i < n)).
  { rewrite !Z.shiftl_spec_low by lia. by rewrite andb_false_r. }
  rewrite !Z.shiftl_spec_high, Z.shiftr_spec by lia.
  replace (i - n + n) with i by lia.
  destruct (decide (i < 64)).
  - rewrite Z.testbit_ones_nonneg by lia.
    assert ((i - n <? 64 - n) = true) as -> by (apply Z.ltb_lt; lia).
    by rewrite andb_true_r.
  - assert (Z.testbit z i = false) as ->; [|done].
    destruct (decide (z = 0)) as [->|]; [apply Z.bits_0|].
    apply Z.bits_above_log2; [lia|].
    apply Z.log2_lt_pow2; [lia|].
    apply Z.lt_le_trans with (2 ^ 64); [done|]. apply Z.pow_le_mono_r; lia.
Qed.

Lemma land_low z n : 0 <= n -> Z.land z (2 ^ n - 1) = z mod 2 ^ n.
Proof.
  intros. rewrite <- Z.land_ones by done. f_equal. rewrite Z.ones_equiv. lia.
Qed.

(** A word split into a multiple of [2^n] and a low part. *)
Lemma lor_aligned a b n :
  0 <= n -> a mod 2 ^ n = 0 -> 0 <= b < 2 ^ n -> Z.lor a b = a + b.
Proof.
  intros Hn Ha Hb.
  assert (Z.land a b = 0) as Hland.
  { apply Z.bits_inj'. intros i Hi. rewrite Z.land_spec, Z.bits_0.
    destruct (decide (i < n)).
    - assert (Z.testbit a i = false) as ->; [|done].
      rewrite <- (Z.mod_pow2_bits_low a n i) by lia. rewrite Ha. apply Z.bits_0.
    - assert (Z.testbit b i = false) as ->; [|by rewrite andb_false_r].
      rewrite <- (Z.mod_small b (2 ^ n)) by done.
      apply Z.mod_pow2_bits_high. lia. }
  rewrite <- Z.lxor_lor by done. symmetry. by apply Z.add_nocarry_lxor.
Qed.

(** ** Sorted lists *)

Section sorted.
Context {A : Type} (R : A -> A -> Prop).

Lemma sorted_app l1 l2 :
  StronglySorted R (l1 ++ l2) <->
  StronglySorted R l1 /\ StronglySorted R l2 /\
  Forall (fun x => Forall (R x) l2) l1.
Proof.
  induction l1 as [|x l1 IH]; simpl.
  { intuition constructor. }
  split.
  - intros H. apply StronglySorted_inv in H as [H1 H2].
    apply Forall_app in H2 as [H2 H3]. apply IH in H1 as (H4 & H5 & H6).
    repeat (constructor || done).
  - intros (H1 & H2 & H3). apply StronglySorted_inv in H1 as [H1 H4].
    apply Forall_cons in H3 as [H3 H5].
    constructor; [apply IH; auto|]. by apply Forall_app.
Qed.

Lemma sorted_insert l1 x l2 :
  StronglySorted R (l1 ++ l2) -> Forall (fun y => R y x) l1 -> Forall (R x) l2 ->
  StronglySorted R (l1 ++ x :: l2).
Proof.
  rewrite !sorted_app. intros (H1 & H2 & H3) Hl Hr.
  split; [done|]. split; [by constructor|].
  rewrite Forall_forall in *. intros y Hy. constructor; [by apply Hl|by apply H3].
Qed.

Lemma sorted_remove l1 x l2 :
  StronglySorted R (l1 ++ x :: l2) -> StronglySorted R (l1 ++ l2).
Proof.
  rewrite !sorted_app. intros (H1 & H2 & H3). apply StronglySorted_inv in H2 as [H2 _].
  split; [done|]. split; [done|].
  eapply Forall_impl; [exact H3|]. intros y Hy. by apply Forall_cons in Hy as [_ ?].
Qed.

Lemma sorted_impl (Q : A -> A -> Prop) l :
  (forall x y, R x y -> Q x y) -> StronglySorted R l -> StronglySorted Q l.
Proof. intros H. induction 1 as [|x l _ IH Hx]; constructor; [done|]. by eapply Forall_impl; [|intros y; apply H]. Qed.
End sorted.

Lemma length_mid {A} (l1 : list A) x l2 : length (l1 ++ x :: l2) = S (length (l1 ++ l2)).
Proof. rewrite !length_app. simpl. lia. Qed.

Lemma alter_insert {A} (g : A -> A) (l : list A) i x :
  l !! i = Some x -> alter g i l = <[i := g x]> l.
Proof. revert i. induction l as [|y l IH]; intros [|i] H; simplify_eq/=; [done|]. by rewrite <- IH. Qed.

(** ** Distinct addresses, by counting *)

Lemma NoDup_count (l : list Z) : NoDup l <-> forall x, (count_occ Z.eq_dec l x <= 1)%nat.
Proof. rewrite NoDup_ListNoDup. apply NoDup_count_occ. Qed.

Definition count1 (a x : Z) : nat := count_occ Z.eq_dec [a] x.
Lemma count_occ_cons_1 a l x :
  count_occ Z.eq_dec (a :: l) x = (count1 a x + count_occ Z.eq_dec l x)%nat.
Proof. unfold count1. simpl. by case_match. Qed.
Lemma count1_refl a : count1 a a = 1%nat.
Proof. unfold count1. simpl. by destruct (Z.eq_dec a a). Qed.
Lemma notin_count (l : list Z) a : count_occ Z.eq_dec l a = 0%nat -> a ∉ l.
Proof. rewrite <- count_occ_not_In, list_elem_of_In. done. Qed.
Lemma count_occ_nil_0 x : count_occ Z.eq_dec [] x = 0%nat.
Proof. done. Qed.

(** ** Automation *)

(** [count_at x] reads all distinctness hypotheses of the context at [x]. *)
Ltac count_at x :=
  repeat match goal with H : _ <> _ |- _ => clear H end;
  repeat match goal with H : NoDup _ |- _ => rewrite NoDup_count in H end;
  repeat match goal with H : forall _, (count_occ _ _ _ <= 1)%nat |- _ => specialize (H x) end;
  repeat match goal with
  | H : context [count_occ _ _ _] |- _ =>
      progress repeat (rewrite count_occ_app in H || rewrite count_occ_cons_1 in H
                       || rewrite count_occ_nil_0 in H)
  end;
  repeat (rewrite count_occ_app || rewrite count_occ_cons_1 || rewrite count_occ_nil_0).

(** [nodup_count] closes a distinctness goal over concatenations from the
    distinctness hypotheses of the context; [notin] proves that an address is
    outside a list of addresses. *)
Ltac nodup_count :=
  rewrite NoDup_count; let x := fresh "x" in intros x; count_at x; lia.
Ltac notin :=
  first
    [ assumption
    | match goal with |- ?a ∉ _ => apply notin_count; count_at a; pose proof (count1_refl a); lia end
    | set_solver ].

(** [look] evaluates a lookup in an updated store, deciding address
    (in)equalities from the context. *)
Ltac look :=
  cbn;
  repeat first
    [ rewrite lookup_insert_eq
    | rewrite lookup_insert_ne by congruence ];
  first [ reflexivity | eassumption | congruence ].

(** [norm_app] associates list concatenations to the right. *)
Ltac norm_app := repeat (rewrite <- app_assoc; cbn [app]).

(** [run] executes the next command of a computation whose outcome the
    [reaver] hints give; [run1] does it once. *)
Create HintDb reaver.
Ltac run1 := erewrite bind_Ok; [|solve [eauto with reaver]]; cbv beta.
Ltac run := repeat run1.
