(* ===== verification/AvlTree.v ===== *)
(** * The intrusive AVL tree of kernel/util/avl_tree.h

    The tree links objects of type [T] through three words of the object
    itself: [tree_parent] (whose low three bits hold the balance factor),
    [prev] (left child) and [next] (right child).  The store [mem] maps the
    address of an object to these words and its payload; every access to an
    address that is not in the store is a [Fault].

    This file holds the operations only, in the order of the source. *)
From S2P Require Import Prelude.

Record elem (T : Type) : Type := mkElem {
  tree_parent : Z;
  prev : Z;
  next : Z;
  value : T
}.
Arguments mkElem {T} _ _ _ _.
Arguments tree_parent {T} _.
Arguments prev {T} _.
Arguments next {T} _.
Arguments value {T} _.

(** [_root] and [_size] of the class, the store the nodes live in, and the
    objects given back to their owner ([Traits::create] of a pointer whose
    result is dropped), most recent first. *)
Record avl_tree (T : Type) : Type := mkAvl {
  mem : gmap Z (elem T);
  _root : Z;
  _size : Z;
  freed : list Z
}.
Arguments mkAvl {T} _ _ _ _.
Arguments mem {T} _.
Arguments _root {T} _.
Arguments _size {T} _.
Arguments freed {T} _.

Section ops.
Context {T : Type} (comp : T -> T -> bool).

Abbreviation AM := (M (avl_tree T)).

Definition set_mem (m : gmap Z (elem T)) (s : avl_tree T) : avl_tree T :=
  mkAvl m (_root s) (_size s) (freed s).
Definition set_root (r : Z) (s : avl_tree T) : avl_tree T :=
  mkAvl (mem s) r (_size s) (freed s).
Definition set_size (n : Z) (s : avl_tree T) : avl_tree T :=
  mkAvl (mem s) (_root s) n (freed s).

Definition load (p : Z) : AM (elem T) := fun s =>
  match mem s !! p with
  | Some e => Ok (e, s)
  | None => Err Fault
  end.
Definition store (p : Z) (e : elem T) : AM unit := fun s =>
  match mem s !! p with
  | Some _ => Ok (tt, set_mem (<[p := e]> (mem s)) s)
  | None => Err Fault
  end.
Definition deref (p : Z) : AM T := let* e := load p in ret (value e).

(** [(void)Traits::create(p)]: the owning pointer made from [p] dies at once. *)
Definition release (p : Z) : AM unit := fun s =>
  match mem s !! p with
  | Some _ => Ok (tt, mkAvl (delete p (mem s)) (_root s) (_size s) (p :: freed s))
  | None => Err Fault
  end.

(** ** Node accessors *)

Definition get_tree_parent (p : Z) : AM Z :=
  let* e := load p in
  ret (Z.land (tree_parent e) (not64 7)).

Definition get_balance_factor (p : Z) : AM Z :=
  let* e := load p in
  let r := Z.land (tree_parent e) 7 in
  ret (s8 (if Z.land r 4 =? 0 then r else Z.lor r (not64 7))).

Definition set_balance_factor (p factor : Z) : AM unit :=
  let* par := get_tree_parent p in
  let* e := load p in
  store p (mkElem (Z.lor par (Z.land (u64 factor) 7)) (prev e) (next e) (value e)).

Definition set_tree_parent (p ptr : Z) : AM unit :=
  let* factor := get_balance_factor p in
  let* e := load p in
  store p (mkElem ptr (prev e) (next e) (value e)) ;;
  set_balance_factor p factor.

Definition get_left (p : Z) : AM Z := let* e := load p in ret (prev e).
Definition set_left (p ptr : Z) : AM unit :=
  let* e := load p in
  store p (mkElem (tree_parent e) ptr (next e) (value e)).
Definition get_right (p : Z) : AM Z := let* e := load p in ret (next e).
Definition set_right (p ptr : Z) : AM unit :=
  let* e := load p in
  store p (mkElem (tree_parent e) (prev e) ptr (value e)).

(** Every loop below follows one path of the tree, so the number of objects
    in the store bounds the number of its iterations. *)
Definition fuel_of (s : avl_tree T) : nat := S (size (mem s)).

(** ** Iterators: the address of a node, 0 for [end()] *)

Fixpoint leftmost (fuel : nat) (p : Z) : AM Z :=
  match fuel with
  | O => fail NoFuel
  | S n => let* l := get_left p in
           if l =? 0 then ret p else leftmost n l
  end.
Fixpoint rightmost (fuel : nat) (p : Z) : AM Z :=
  match fuel with
  | O => fail NoFuel
  | S n => let* r := get_right p in
           if r =? 0 then ret p else rightmost n r
  end.

(** The upward loop of [operator++]. *)
Fixpoint climb_next (fuel : nat) (p : Z) : AM Z :=
  match fuel with
  | O => fail NoFuel
  | S n =>
      if p =? 0 then ret p else
      let* parent := get_tree_parent p in
      if parent =? 0 then climb_next n parent else
      let* l := get_left parent in
      if l =? p then ret parent else climb_next n parent
  end.

Definition iterator_incr (p : Z) : AM Z :=
  let* fuel := gets fuel_of in
  let* r := get_right p in
  if r =? 0 then climb_next (S fuel) p else leftmost fuel r.

(** The upward loop of [operator--]. *)
Fixpoint climb_prev (fuel : nat) (p : Z) : AM Z :=
  match fuel with
  | O => fail NoFuel
  | S n =>
      if p =? 0 then ret p else
      let* parent := get_tree_parent p in
      if parent =? 0 then climb_prev n parent else
      let* l := get_left parent in
      if l =? p then climb_prev n parent else ret p
  end.

Definition iterator_decr (p : Z) : AM Z :=
  let* fuel := gets fuel_of in
  let* l := get_left p in
  if l =? 0 then climb_prev (S fuel) p else rightmost fuel l.

Definition begin_ : AM Z :=
  let* r := gets _root in
  if r =? 0 then ret 0 else
  let* fuel := gets fuel_of in leftmost fuel r.

(** ** Rotations *)

Definition _rotate_left (node : Z) : AM Z :=
  let* parent := get_tree_parent node in
  let* rgt := get_right node in
  let* right_left := get_left rgt in
  set_right node right_left ;;
  (if right_left =? 0 then ret tt else set_tree_parent right_left node) ;;
  set_tree_parent node rgt ;;
  set_left rgt node ;;
  set_tree_parent rgt parent ;;
  (if parent =? 0 then modify (set_root rgt) else
   let* l := get_left parent in
   if l =? node then set_left parent rgt else set_right parent rgt) ;;
  ret rgt.

Definition _rotate_right (node : Z) : AM Z :=
  let* parent := get_tree_parent node in
  let* lft := get_left node in
  let* left_right := get_right lft in
  set_left node left_right ;;
  (if left_right =? 0 then ret tt else set_tree_parent left_right node) ;;
  set_tree_parent node lft ;;
  set_right lft node ;;
  set_tree_parent lft parent ;;
  (if parent =? 0 then modify (set_root lft) else
   let* l := get_left parent in
   if l =? node then set_left parent lft else set_right parent lft) ;;
  ret lft.

Definition _rebalance_left (node : Z) : AM Z :=
  let* rgt := get_right node in
  let* bf := get_balance_factor rgt in
  (if bf =? 0
   then set_balance_factor node 1 ;;
        let* rgt := get_right node in set_balance_factor rgt (-1)
   else set_balance_factor node 0 ;;
        let* rgt := get_right node in set_balance_factor rgt 0) ;;
  _rotate_left node.

Definition _rebalance_right (node : Z) : AM Z :=
  let* lft := get_left node in
  let* bf := get_balance_factor lft in
  (if bf =? 0
   then set_balance_factor node (-1) ;;
        let* lft := get_left node in set_balance_factor lft 1
   else set_balance_factor node 0 ;;
        let* lft := get_left node in set_balance_factor lft 0) ;;
  _rotate_right node.

Definition _rebalance_left_right (node : Z) : AM Z :=
  let* lft := get_left node in
  let* left_right := get_right lft in
  let* bf := get_balance_factor left_right in
  (if bf =? 0
   then set_balance_factor node 0 ;;
        let* lft := get_left node in set_balance_factor lft 0
   else if bf <? 0
   then set_balance_factor node 1 ;;
        let* lft := get_left node in set_balance_factor lft 0
   else set_balance_factor node 0 ;;
        let* lft := get_left node in set_balance_factor lft (-1)) ;;
  let* lft := get_left node in
  _rotate_left lft ;;
  let* r := _rotate_right node in
  set_balance_factor r 0 ;;
  ret r.

Definition _rebalance_right_left (node : Z) : AM Z :=
  let* rgt := get_right node in
  let* right_left := get_left rgt in
  let* bf := get_balance_factor right_left in
  (if bf =? 0
   then set_balance_factor node 0 ;;
        let* rgt := get_right node in set_balance_factor rgt 0
   else if 0 <? bf
   then set_balance_factor node (-1) ;;
        let* rgt := get_right node in set_balance_factor rgt 0
   else set_balance_factor node 0 ;;
        let* rgt := get_right node in set_balance_factor rgt 1) ;;
  let* rgt := get_right node in
  _rotate_right rgt ;;
  let* r := _rotate_left node in
  set_balance_factor r 0 ;;
  ret r.

(** ** Insertion *)

Fixpoint _insert_rebalance (fuel : nat) (current : Z) : AM unit :=
  match fuel with
  | O => fail NoFuel
  | S n =>
      let* parent := get_tree_parent current in
      if parent =? 0 then ret tt else
      let* r := get_right parent in
      let* pbf := get_balance_factor parent in
      if r =? current then
        if 0 <? pbf then
          let* cbf := get_balance_factor current in
          (if cbf <? 0 then _rebalance_right_left parent else _rebalance_left parent) ;;
          ret tt
        else if pbf <? 0 then set_balance_factor parent 0
        else set_balance_factor parent 1 ;; _insert_rebalance n parent
      else
        if pbf <? 0 then
          let* cbf := get_balance_factor current in
          (if 0 <? cbf then _rebalance_left_right parent else _rebalance_right parent) ;;
          ret tt
        else if 0 <? pbf then set_balance_factor parent 0
        else set_balance_factor parent (-1) ;; _insert_rebalance n parent
  end.

(** The descent of [insert]: the node the element was linked at ([true]), or
    the equivalent node found on the way ([false]). *)
Fixpoint insert_descend (fuel : nat) (element current : Z) : AM (Z * bool) :=
  match fuel with
  | O => fail NoFuel
  | S n =>
      let* ev := deref element in
      let* cv := deref current in
      if comp ev cv then
        let* l := get_left current in
        if l =? 0 then
          set_left current element ;;
          let* l := get_left current in
          set_tree_parent l current ;;
          let* l := get_left current in
          ret (l, true)
        else insert_descend n element l
      else if comp cv ev then
        let* r := get_right current in
        if r =? 0 then
          set_right current element ;;
          let* r := get_right current in
          set_tree_parent r current ;;
          let* r := get_right current in
          ret (r, true)
        else insert_descend n element r
      else ret (current, false)
  end.

(** [insert(pointer)]; an element that was not linked dies with the by-value
    parameter that owns it. *)
Definition insert (element : Z) : AM (Z * bool) :=
  let* root := gets _root in
  if root =? 0 then
    modify (set_root element) ;;
    modify (fun s => set_size (u64 (_size s + 1)) s) ;;
    ret (element, true)
  else
    let* fuel := gets fuel_of in
    let* (current, linked) := insert_descend fuel element root in
    if linked then
      _insert_rebalance fuel current ;;
      modify (fun s => set_size (u64 (_size s + 1)) s) ;;
      ret (current, true)
    else
      release element ;;
      ret (current, false).

Definition insert_hint (hint element : Z) : AM Z :=
  let* (it, _) := insert element in ret it.

(** ** Erasure *)

Fixpoint _erase_rebalance (fuel : nat) (parent : Z) (shortened_left : bool) : AM unit :=
  match fuel with
  | O => fail NoFuel
  | S n =>
      if parent =? 0 then ret tt else
      (* the increment expression of the for loop *)
      let continue_from current :=
        let* parent := get_tree_parent current in
        let* sl := (if parent =? 0 then ret false else
                    let* l := get_left parent in ret (current =? l)) in
        _erase_rebalance n parent sl in
      let* pbf := get_balance_factor parent in
      if shortened_left then
        if 0 <? pbf then
          let* rgt := get_right parent in
          let* b := get_balance_factor rgt in
          let* current := (if b <? 0 then _rebalance_right_left parent
                           else _rebalance_left parent) in
          if b =? 0 then ret tt else continue_from current
        else if pbf =? 0 then set_balance_factor parent 1
        else set_balance_factor parent 0 ;; continue_from parent
      else
        if pbf <? 0 then
          let* lft := get_left parent in
          let* b := get_balance_factor lft in
          let* current := (if 0 <? b then _rebalance_left_right parent
                           else _rebalance_right parent) in
          if b =? 0 then ret tt else continue_from current
        else if pbf =? 0 then set_balance_factor parent (-1)
        else set_balance_factor parent 0 ;; continue_from parent
  end.

(** The three shapes of [erase] on a node; each returns [shortened_base] and
    [shortened_left]. *)

(** At most one child: the child takes the node's place. *)
Definition erase_single (wrapped : Z) (has_left : bool) : AM (Z * bool) :=
  let* replacement := (if has_left then get_left wrapped else get_right wrapped) in
  let* root := gets _root in
  if wrapped =? root then
    modify (set_root replacement) ;;
    (if replacement =? 0 then ret tt else set_tree_parent replacement 0) ;;
    ret (0, false)
  else
    let* parent := get_tree_parent wrapped in
    let* l := get_left parent in
    let* sl := (if wrapped =? l
                then set_left parent replacement ;; ret true
                else set_right parent replacement ;; ret false) in
    (if replacement =? 0 then ret tt else
     let* parent := get_tree_parent wrapped in
     set_tree_parent replacement parent) ;;
    ret (parent, sl).

(** The part both two-children cases share: the parent's link. *)
Definition erase_relink_parent (wrapped next : Z) : AM unit :=
  let* parent := get_tree_parent wrapped in
  if parent =? 0 then ret tt else
  let* l := get_left parent in
  if wrapped =? l then set_left parent next else set_right parent next.

(** Two children, the right one without a left child. *)
Definition erase_adjacent (wrapped : Z) : AM (Z * bool) :=
  let* next := get_right wrapped in
  erase_relink_parent wrapped next ;;
  let* wbf := get_balance_factor wrapped in
  set_balance_factor next wbf ;;
  let* wl := get_left wrapped in
  set_left next wl ;;
  let* nl := get_left next in
  (if nl =? 0 then ret tt else set_tree_parent nl next) ;;
  let* wp := get_tree_parent wrapped in
  set_tree_parent next wp ;;
  let* np := get_tree_parent next in
  if np =? 0 then
    let* wbf := get_balance_factor wrapped in
    set_balance_factor next (wbf - 1) ;;
    modify (set_root next) ;;
    let* wbf := get_balance_factor wrapped in
    (if wbf <? 0 then _rebalance_right next ;; ret tt else ret tt) ;;
    ret (0, false)
  else ret (next, false).

(** Two children, the successor deeper in the right subtree. *)
Definition erase_deep (wrapped : Z) : AM (Z * bool) :=
  let* rgt := get_right wrapped in
  let* rl := get_left rgt in
  let* fuel := gets fuel_of in
  let* next := leftmost fuel rl in
  erase_relink_parent wrapped next ;;
  let* wbf := get_balance_factor wrapped in
  set_balance_factor next wbf ;;
  let* base := get_tree_parent next in
  let* nr := get_right next in
  let* np := get_tree_parent next in
  set_left np nr ;;
  let* nr := get_right next in
  (if nr =? 0 then ret tt else
   let* np := get_tree_parent next in set_tree_parent nr np) ;;
  let* wl := get_left wrapped in
  set_left next wl ;;
  let* nl := get_left next in
  set_tree_parent nl next ;;
  let* wr := get_right wrapped in
  set_right next wr ;;
  let* nr := get_right next in
  set_tree_parent nr next ;;
  let* wp := get_tree_parent wrapped in
  set_tree_parent next wp ;;
  let* np := get_tree_parent next in
  (if np =? 0 then modify (set_root next) else ret tt) ;;
  ret (base, true).

Definition erase (element : Z) : AM Z :=
  let wrapped := element in
  let* it := iterator_incr wrapped in
  let* lft := get_left wrapped in
  let* rgt := get_right wrapped in
  let has_left := negb (lft =? 0) in
  let has_right := negb (rgt =? 0) in
  let* (base, shortened_left) :=
    (if negb (has_left && has_right) then erase_single wrapped has_left
     else let* rl := get_left rgt in
          if rl =? 0 then erase_adjacent wrapped else erase_deep wrapped) in
  (if base =? 0 then ret tt else
   let* fuel := gets fuel_of in
   _erase_rebalance (S fuel) base shortened_left) ;;
  release element ;;
  modify (fun s => set_size (u64 (_size s - 1)) s) ;;
  ret it.

(** ** Lookup; a key is compared through the two mixed overloads of [_comp] *)

Section keyed.
Context {Key : Type} (key_less : Key -> T -> bool) (less_key : T -> Key -> bool).

Fixpoint find_loop (fuel : nat) (key : Key) (current : Z) : AM Z :=
  match fuel with
  | O => fail NoFuel
  | S n =>
      let* cv := deref current in
      let less := key_less key cv in
      let greater := less_key cv key in
      if negb less && negb greater then ret current
      else if less then
        let* l := get_left current in
        if l =? 0 then ret 0 else find_loop n key l
      else
        let* r := get_right current in
        if r =? 0 then ret 0 else find_loop n key r
  end.

Definition find (key : Key) : AM Z :=
  let* root := gets _root in
  if root =? 0 then ret 0 else
  let* fuel := gets fuel_of in find_loop fuel key root.

Fixpoint lower_bound_loop (fuel : nat) (key : Key) (current : Z) : AM Z :=
  match fuel with
  | O => fail NoFuel
  | S n =>
      let* cv := deref current in
      let less := key_less key cv in
      let greater := less_key cv key in
      if negb less && negb greater then ret current
      else if less then
        let* l := get_left current in
        if l =? 0 then ret current else lower_bound_loop n key l
      else
        let* r := get_right current in
        if r =? 0 then
          let* parent := get_tree_parent current in
          if parent =? 0 then ret 0 else
          let* pr := get_right parent in
          if pr =? current then ret 0 else ret parent
        else lower_bound_loop n key r
  end.

Definition lower_bound (key : Key) : AM Z :=
  let* root := gets _root in
  if root =? 0 then ret 0 else
  let* fuel := gets fuel_of in lower_bound_loop fuel key root.

Definition upper_bound (key : Key) : AM Z :=
  let* it := lower_bound key in
  if it =? 0 then ret 0 else
  let* v := deref it in
  if negb (key_less key v) && negb (less_key v key) then iterator_incr it else ret it.

Definition erase_key (key : Key) : AM Z :=
  let* it := find key in erase it.
End keyed.

(** ** The self check *)

Fixpoint _left_depth (fuel : nat) (node : Z) : AM Z :=
  match fuel with
  | O => fail NoFuel
  | S n =>
      let* lft := get_left node in
      if lft =? 0 then ret 0 else
      let* ld := _left_depth n lft in
      let* rd := _right_depth n lft in
      ret ((if rd <? ld then ld else rd) + 1)
  end
with _right_depth (fuel : nat) (node : Z) : AM Z :=
  match fuel with
  | O => fail NoFuel
  | S n =>
      let* rgt := get_right node in
      if rgt =? 0 then ret 0 else
      let* ld := _left_depth n rgt in
      let* rd := _right_depth n rgt in
      ret ((if rd <? ld then ld else rd) + 1)
  end.

(** [invariant_check_result]: [None] is [{ true, "", nullptr }]. *)
Definition invariant_check_result : Type := option (string * Z).

Definition check_link (child node : Z) (reason : string) : AM invariant_check_result :=
  if child =? 0 then ret None else
  let* p := get_tree_parent child in
  ret (if p =? node then None else Some (reason, node)).

Fixpoint _check_invariants (fuel : nat) (node : Z) : AM invariant_check_result :=
  match fuel with
  | O => fail NoFuel
  | S n =>
      if node =? 0 then ret None else
      let* lft := get_left node in
      let* r := check_link lft node "left child does not have a correct parent link" in
      if r is Some _ then ret r else
      let* rgt := get_right node in
      let* r := check_link rgt node "right child does not have a correct parent link" in
      if r is Some _ then ret r else
      let* bf := get_balance_factor node in
      let* ld := _left_depth (S n) node in
      let* rd := _right_depth (S n) node in
      if negb (bf =? rd - ld) then
        ret (Some ("node's balance factor wasn't equal to actual depth difference", node))
      else if (bf <? -1) || (1 <? bf) then
        ret (Some ("node's balance factor was outside of allowed values", node))
      else
      let* nv := deref node in
      let* r := (if lft =? 0 then ret None else
                 let* lv := deref lft in
                 if negb (comp lv nv)
                 then ret (Some ("left child was not lesser than a node", node))
                 else _check_invariants n lft) in
      if r is Some _ then ret r else
      if rgt =? 0 then ret None else
      let* rv := deref rgt in
      if negb (comp nv rv)
      then ret (Some ("left child was not lesser than a node", node))
      else _check_invariants n rgt
  end.

Definition check_invariants : AM invariant_check_result :=
  let* fuel := gets fuel_of in
  let* root := gets _root in
  _check_invariants (S fuel) root.

(** ** Destruction *)

Fixpoint destroy_spin (fuel : nat) : AM unit :=
  match fuel with
  | O => fail NoFuel
  | S n =>
      let* root := gets _root in
      let* l := get_left root in
      if l =? 0 then ret tt else _rotate_right root ;; destroy_spin n
  end.

Fixpoint destroy_loop (fuel : nat) : AM unit :=
  match fuel with
  | O => fail NoFuel
  | S n =>
      let* root := gets _root in
      if root =? 0 then ret tt else
      let* fuel' := gets fuel_of in
      destroy_spin fuel' ;;
      let* old_root := gets _root in
      let* r := get_right old_root in
      modify (set_root r) ;;
      if r =? 0 then ret tt else
      set_tree_parent r 0 ;;
      release old_root ;;
      destroy_loop n
  end.

Definition destroy : AM unit :=
  let* fuel := gets fuel_of in destroy_loop fuel.
End ops.
