(* ===== verification/AvlSpec.v ===== *)
(** * Abstract AVL trees

    The reference objects the pointer structure of [AvlTree] is compared with:
    binary trees that carry, in each node, the address of the object, its
    payload and its recorded balance factor; one-hole contexts (the path from
    a node up to the root); and the rebalancing walks as functions that are
    structurally recursive on the context. *)
From S2P Require Import Prelude.

Section spec.
Context {T : Type}.

Inductive tree : Type :=
| Leaf
| Node (l : tree) (a : Z) (v : T) (bf : Z) (r : tree).

(** The hole is the left ([FL]) or the right ([FR]) child. *)
Inductive frame : Type :=
| FL (a : Z) (v : T) (bf : Z) (r : tree)
| FR (l : tree) (a : Z) (v : T) (bf : Z).

(** Innermost frame first. *)
Definition ctx : Type := list frame.

Definition fill (f : frame) (t : tree) : tree :=
  match f with
  | FL a v bf r => Node t a v bf r
  | FR l a v bf => Node l a v bf t
  end.
Fixpoint plug (c : ctx) (t : tree) : tree :=
  match c with
  | [] => t
  | f :: c' => plug c' (fill f t)
  end.

Definition root (t : tree) : Z :=
  match t with
  | Leaf => 0
  | Node _ a _ _ _ => a
  end.
Definition bfactor (t : tree) : Z :=
  match t with
  | Leaf => 0
  | Node _ _ _ bf _ => bf
  end.
Definition frame_addr (f : frame) : Z :=
  match f with
  | FL a _ _ _ => a
  | FR _ a _ _ => a
  end.
Definition cpar (c : ctx) : Z :=
  match c with
  | [] => 0
  | f :: _ => frame_addr f
  end.
Fixpoint croot (c : ctx) (x : Z) : Z :=
  match c with
  | [] => x
  | f :: c' => croot c' (frame_addr f)
  end.

(** In-order sequence of the objects. *)
Fixpoint nodes (t : tree) : list (Z * T) :=
  match t with
  | Leaf => []
  | Node l a v _ r => nodes l ++ (a, v) :: nodes r
  end.
Fixpoint lnodes (c : ctx) : list (Z * T) :=
  match c with
  | [] => []
  | FL _ _ _ _ :: c' => lnodes c'
  | FR l a v _ :: c' => lnodes c' ++ nodes l ++ [(a, v)]
  end.
Fixpoint rnodes (c : ctx) : list (Z * T) :=
  match c with
  | [] => []
  | FL a v _ r :: c' => (a, v) :: nodes r ++ rnodes c'
  | FR _ _ _ _ :: c' => rnodes c'
  end.

Fixpoint addrs (t : tree) : list Z :=
  match t with
  | Leaf => []
  | Node l a _ _ r => a :: addrs l ++ addrs r
  end.
Fixpoint caddrs (c : ctx) : list Z :=
  match c with
  | [] => []
  | FL a _ _ r :: c' => a :: addrs r ++ caddrs c'
  | FR l a _ _ :: c' => a :: addrs l ++ caddrs c'
  end.

(** ** Balance *)

Fixpoint height (t : tree) : Z :=
  match t with
  | Leaf => 0
  | Node l _ _ _ r => 1 + Z.max (height l) (height r)
  end.
Fixpoint avl (t : tree) : Prop :=
  match t with
  | Leaf => True
  | Node l _ _ bf r => bf = height r - height l /\ -1 <= bf <= 1 /\ avl l /\ avl r
  end.
(** A context whose hole expects a tree of height [h]. *)
Fixpoint cavl (c : ctx) (h : Z) : Prop :=
  match c with
  | [] => True
  | FL _ _ bf r :: c' =>
      bf = height r - h /\ -1 <= bf <= 1 /\ avl r /\ cavl c' (1 + Z.max h (height r))
  | FR l _ _ bf :: c' =>
      bf = h - height l /\ -1 <= bf <= 1 /\ avl l /\ cavl c' (1 + Z.max (height l) h)
  end.

Lemma height_nonneg t : 0 <= height t.
Proof. induction t; simpl; lia. Qed.

Lemma plug_avl c t : avl (plug c t) <-> cavl c (height t) /\ avl t.
Proof.
  revert t. induction c as [|[] c IH]; intros t; simpl; [tauto| |];
    rewrite IH; simpl; tauto.
Qed.

Lemma plug_app c1 c2 t : plug (c1 ++ c2) t = plug c2 (plug c1 t).
Proof. revert t. induction c1 as [|f c1 IH]; intros t; simpl; [done|]. apply IH. Qed.

Lemma nodes_plug c t : nodes (plug c t) = lnodes c ++ nodes t ++ rnodes c.
Proof.
  revert t. induction c as [|[] c IH]; intros t; simpl.
  - by rewrite app_nil_r.
  - rewrite IH. simpl. by rewrite <- !app_assoc.
  - rewrite IH. simpl. by rewrite <- !app_assoc.
Qed.

Lemma lnodes_app c1 c2 : lnodes (c1 ++ c2) = lnodes c2 ++ lnodes c1.
Proof.
  induction c1 as [|[] c1 IH]; simpl; [by rewrite app_nil_r|done|].
  rewrite IH. by rewrite <- app_assoc.
Qed.
Lemma rnodes_app c1 c2 : rnodes (c1 ++ c2) = rnodes c1 ++ rnodes c2.
Proof. induction c1 as [|[] c1 IH]; simpl; [done| |done]. rewrite IH. by rewrite <- app_assoc. Qed.

Lemma root_plug c t : root (plug c t) = croot c (root t).
Proof. revert t. induction c as [|[] c IH]; intros t; simpl; [done|..]; by rewrite IH. Qed.

(** ** Rotations and rebalancing as functions *)

Definition rot_left (t : tree) : tree :=
  match t with
  | Node a p u i (Node b q w j d) => Node (Node a p u i b) q w j d
  | _ => t
  end.
Definition rot_right (t : tree) : tree :=
  match t with
  | Node (Node a p u i b) q w j d => Node a p u i (Node b q w j d)
  | _ => t
  end.

Definition reb_left (t : tree) : tree :=
  match t with
  | Node a p u i (Node b q w j d) =>
      if j =? 0 then Node (Node a p u 1 b) q w (-1) d
      else Node (Node a p u 0 b) q w 0 d
  | _ => t
  end.
Definition reb_right (t : tree) : tree :=
  match t with
  | Node (Node a p u i b) q w j d =>
      if i =? 0 then Node a p u 1 (Node b q w (-1) d)
      else Node a p u 0 (Node b q w 0 d)
  | _ => t
  end.
Definition reb_left_right (t : tree) : tree :=
  match t with
  | Node (Node a p u i (Node b m x k d)) q w j e =>
      if k =? 0 then Node (Node a p u 0 b) m x 0 (Node d q w 0 e)
      else if k <? 0 then Node (Node a p u 0 b) m x 0 (Node d q w 1 e)
      else Node (Node a p u (-1) b) m x 0 (Node d q w 0 e)
  | _ => t
  end.
Definition reb_right_left (t : tree) : tree :=
  match t with
  | Node a p u i (Node (Node b m x k d) q w j e) =>
      if k =? 0 then Node (Node a p u 0 b) m x 0 (Node d q w 0 e)
      else if 0 <? k then Node (Node a p u (-1) b) m x 0 (Node d q w 0 e)
      else Node (Node a p u 0 b) m x 0 (Node d q w 1 e)
  | _ => t
  end.

Fixpoint ins_up (c : ctx) (t : tree) : tree :=
  match c with
  | [] => t
  | FR l a v bf :: c' =>
      if 0 <? bf then
        plug c' (if bfactor t <? 0 then reb_right_left (Node l a v bf t)
                 else reb_left (Node l a v bf t))
      else if bf <? 0 then plug c' (Node l a v 0 t)
      else ins_up c' (Node l a v 1 t)
  | FL a v bf r :: c' =>
      if bf <? 0 then
        plug c' (if 0 <? bfactor t then reb_left_right (Node t a v bf r)
                 else reb_right (Node t a v bf r))
      else if 0 <? bf then plug c' (Node t a v 0 r)
      else ins_up c' (Node t a v (-1) r)
  end.

Fixpoint era_up (c : ctx) (t : tree) : tree :=
  match c with
  | [] => t
  | FL a v bf r :: c' =>
      if 0 <? bf then
        let t' := if bfactor r <? 0 then reb_right_left (Node t a v bf r)
                  else reb_left (Node t a v bf r) in
        if bfactor r =? 0 then plug c' t' else era_up c' t'
      else if bf =? 0 then plug c' (Node t a v 1 r)
      else era_up c' (Node t a v 0 r)
  | FR l a v bf :: c' =>
      if bf <? 0 then
        let t' := if 0 <? bfactor l then reb_left_right (Node l a v bf t)
                  else reb_right (Node l a v bf t) in
        if bfactor l =? 0 then plug c' t' else era_up c' t'
      else if bf =? 0 then plug c' (Node l a v (-1) t)
      else era_up c' (Node l a v 0 t)
  end.

(** Rebalancing keeps the in-order sequence. *)
Lemma nodes_reb_left t : nodes (reb_left t) = nodes t.
Proof.
  destruct t as [|a p u i [|b q w j d]]; simpl; try done.
  case_match; simpl; by norm_app.
Qed.
Lemma nodes_reb_right t : nodes (reb_right t) = nodes t.
Proof.
  destruct t as [|[|a p u i b] q w j d]; simpl; try done.
  case_match; simpl; by norm_app.
Qed.
Lemma nodes_reb_left_right t : nodes (reb_left_right t) = nodes t.
Proof.
  destruct t as [|[|a p u i [|b m x k d]] q w j e]; simpl; try done.
  repeat case_match; simpl; by norm_app.
Qed.
Lemma nodes_reb_right_left t : nodes (reb_right_left t) = nodes t.
Proof.
  destruct t as [|a p u i [|[|b m x k d] q w j e]]; simpl; try done.
  repeat case_match; simpl; by norm_app.
Qed.
End spec.

Arguments tree : clear implicits.
Arguments frame : clear implicits.
Arguments ctx : clear implicits.

Create Rewrite HintDb avl_nodes.
#[export] Hint Rewrite @nodes_plug @nodes_reb_left @nodes_reb_right
  @nodes_reb_left_right @nodes_reb_right_left : avl_nodes.

Section walks.
Context {T : Type}.
Implicit Types (c : ctx T) (t : tree T).

(** The insertion walk: in-order sequence and balance. *)
Lemma nodes_ins_up c t : nodes (ins_up c t) = nodes (plug c t).
Proof.
  revert t. induction c as [|[] c IH]; intros t; cbn [ins_up plug fill]; [done|..];
    repeat case_match; rewrite ?IH; by autorewrite with avl_nodes.
Qed.

Lemma nodes_era_up c t : nodes (era_up c t) = nodes (plug c t).
Proof.
  revert t. induction c as [|[] c IH]; intros t; cbn [era_up plug fill]; [done|..];
    cbv zeta; repeat case_match; rewrite ?IH; by autorewrite with avl_nodes.
Qed.
End walks.

(** Splits the boolean tests on balance factors. *)
Ltac bf_cases :=
  repeat match goal with
  | |- context [?x <? ?y] => destruct (Z.ltb_spec x y)
  | |- context [?x =? ?y] => destruct (Z.eqb_spec x y)
  end.

(** Closes [cavl c h /\ avl t] from [Hc : cavl c h'] with [h' = h] linear. *)
Ltac avl_close Hc :=
  split;
  [ match type of Hc with cavl ?c _ => eapply (eq_ind _ (cavl c)); [exact Hc|lia] end
  | repeat split; try done; lia ].

Section balance.
Context {T : Type}.
Implicit Types (c : ctx T) (t l r : tree T).

(** A subtree that became one higher than its context expects: the walk
    restores the balance.  The side condition is what an insertion leaves. *)
Lemma ins_up_avl c t h :
  cavl c h -> avl t -> height t = h + 1 -> 0 <= h -> (bfactor t <> 0 \/ h = 0) ->
  avl (ins_up c t).
Proof.
  revert t h. induction c as [|f c IH]; intros t h Hc Ht Hh Hh0 Hbf; [done|].
  destruct f as [a v bf r|l a v bf]; simpl in Hc; destruct Hc as (Hb & Hr & Ho & Hc);
    pose proof (height_nonneg t).
  - pose proof (height_nonneg r). simpl. bf_cases; try lia.
    + destruct t as [|tl ta tv tb [|b m x k d]]; simpl in *; try lia.
      destruct Ht as (? & ? & ? & ? & ? & ? & ?).
      pose proof (height_nonneg b); pose proof (height_nonneg d); pose proof (height_nonneg tl).
      apply plug_avl. simpl. bf_cases; simpl;
        avl_close Hc.
    + destruct t as [|tl ta tv tb tr]; simpl in *; try lia.
      destruct Ht as (? & ? & ? & ?).
      pose proof (height_nonneg tl); pose proof (height_nonneg tr).
      apply plug_avl. simpl. bf_cases; simpl; [lia|].
      avl_close Hc.
    + apply plug_avl. simpl.
      avl_close Hc.
    + eapply IH; [exact Hc|simpl; repeat split; try done; lia|simpl; lia|lia|].
      left. simpl. lia.
  - pose proof (height_nonneg l). simpl. bf_cases; try lia.
    + destruct t as [|[|b m x k d] ta tv tb tr]; simpl in *; try lia.
      destruct Ht as (? & ? & (? & ? & ? & ?) & ?).
      pose proof (height_nonneg b); pose proof (height_nonneg d); pose proof (height_nonneg tr).
      apply plug_avl. simpl. bf_cases; simpl;
        avl_close Hc.
    + destruct t as [|tl ta tv tb tr]; simpl in *; try lia.
      destruct Ht as (? & ? & ? & ?).
      pose proof (height_nonneg tl); pose proof (height_nonneg tr).
      apply plug_avl. simpl. bf_cases; simpl; [lia|].
      avl_close Hc.
    + apply plug_avl. simpl.
      avl_close Hc.
    + eapply IH; [exact Hc|simpl; repeat split; try done; lia|simpl; lia|lia|].
      left. simpl. lia.
Qed.

(** A subtree that became one lower than its context expects. *)
Lemma era_up_avl c t h :
  cavl c h -> avl t -> height t + 1 = h -> avl (era_up c t).
Proof.
  revert t h. induction c as [|f c IH]; intros t h Hc Ht Hh; [done|].
  destruct f as [a v bf r|l a v bf]; simpl in Hc; destruct Hc as (Hb & Hr & Ho & Hc);
    pose proof (height_nonneg t).
  - destruct r as [|rl q w j e]; cbn [era_up bfactor height avl] in *; destruct_and?; bf_cases; try lia;
      try (apply plug_avl; simpl; avl_close Hc);
      try (eapply IH; [exact Hc|repeat split; try done; simpl; lia|simpl; lia]).
    + destruct rl as [|b m x k d]; simpl in *; [lia|].
      destruct_and!. pose proof (height_nonneg b); pose proof (height_nonneg d).
      eapply IH; [exact Hc|..]; bf_cases; simpl; repeat split; try done; lia.
    + apply plug_avl. simpl in *.
      bf_cases; simpl; try lia. avl_close Hc.
    + pose proof (height_nonneg rl). simpl in *.
      eapply IH; [exact Hc|..]; bf_cases; simpl; repeat split; try done; lia.
  - destruct l as [|a0 q w j lr]; cbn [era_up bfactor height avl] in *; destruct_and?; bf_cases; try lia;
      try (apply plug_avl; simpl; avl_close Hc);
      try (eapply IH; [exact Hc|repeat split; try done; simpl; lia|simpl; lia]).
    + destruct lr as [|b m x k d]; simpl in *; [pose proof (height_nonneg a0); lia|].
      destruct_and!. pose proof (height_nonneg b); pose proof (height_nonneg d).
      eapply IH; [exact Hc|..]; bf_cases; simpl; repeat split; try done; lia.
    + apply plug_avl. simpl in *.
      bf_cases; simpl; try lia. avl_close Hc.
    + pose proof (height_nonneg lr). simpl in *.
      eapply IH; [exact Hc|..]; bf_cases; simpl; repeat split; try done; lia.
Qed.
End balance.
