(* ===== verification/AvlRep.v ===== *)
(** * The AVL tree in the store

    [rep] says that a store holds an abstract tree below a given parent,
    [crep] that it holds a context around a given child, and [wf] that a state
    holds a whole tree, seen from one of its subtrees.  The lemmas give the
    effect of the accessors, rotations and rebalancing steps on such states. *)
From S2P Require Import Prelude AvlTree AvlSpec.

(** ** Tagged parent words *)

(** Object addresses are 64-bit and 8-aligned; 0 is the null pointer. *)
Definition par_ok (p : Z) : Prop := is_u64 p /\ p mod 8 = 0.
Definition addr_ok (p : Z) : Prop := par_ok p /\ p <> 0.
(** What three bits hold in two's complement. *)
Definition bf_ok (b : Z) : Prop := -4 <= b < 4.

Definition tag (par bf : Z) : Z := par + bf mod 8.

Lemma par_ok_0 : par_ok 0.
Proof. by split; [unfold is_u64; lia|]. Qed.
Lemma addr_par_ok p : addr_ok p -> par_ok p.
Proof. by intros []. Qed.
#[export] Hint Resolve par_ok_0 addr_par_ok : reaver.

Lemma tag_mod par bf : par_ok par -> tag par bf mod 8 = bf mod 8.
Proof.
  intros [_ H]. unfold tag. rewrite Z.add_mod, H by lia.
  rewrite Z.add_0_l, !Z.mod_mod by lia. done.
Qed.

Lemma tag_u64 par bf : par_ok par -> is_u64 (tag par bf).
Proof.
  intros [[H1 H2] H]. unfold tag, is_u64.
  pose proof (Z.mod_pos_bound bf 8).
  pose proof (Z.div_mod par 8).
  assert (par / 8 < 2 ^ 61) by (apply Z.div_lt_upper_bound; lia). lia.
Qed.

Lemma tag_parent par bf : par_ok par -> Z.land (tag par bf) (not64 7) = par.
Proof.
  intros H. change 7 with (2 ^ 3 - 1).
  rewrite land_mask_down by (by apply tag_u64 || lia).
  change (2 ^ 3) with 8. rewrite tag_mod by done. unfold tag. lia.
Qed.

Lemma tag_low par bf : par_ok par -> Z.land (tag par bf) 7 = bf mod 8.
Proof.
  intros H. change 7 with (2 ^ 3 - 1). rewrite land_low by lia.
  by apply tag_mod.
Qed.

Lemma tag_lor par bf : par_ok par -> Z.lor par (Z.land (u64 bf) 7) = tag par bf.
Proof.
  intros [H1 H2]. change 7 with (2 ^ 3 - 1). rewrite land_low by lia.
  rewrite (lor_aligned _ _ 3); [|lia|done|apply Z.mod_pos_bound; lia].
  unfold tag, u64, wrapu. change (2 ^ 3) with 8.
  rewrite Z.mod_mod_divide; [done|]. by exists (2 ^ 61).
Qed.

Definition untag_bf (w : Z) : Z :=
  let r := Z.land w 7 in s8 (if Z.land r 4 =? 0 then r else Z.lor r (not64 7)).

Lemma tag_bf par bf : par_ok par -> bf_ok bf -> untag_bf (tag par bf) = bf.
Proof.
  intros H [? ?]. unfold untag_bf. rewrite tag_low by done.
  assert (bf = -4 \/ bf = -3 \/ bf = -2 \/ bf = -1 \/ bf = 0 \/ bf = 1 \/ bf = 2 \/ bf = 3)
    as Hc by lia.
  by repeat destruct Hc as [->|Hc]; [..|subst].
Qed.

(** ** Trees and contexts in a store *)

Section rep.
Context {T : Type}.
Implicit Types (h : gmap Z (elem T)) (t l r : tree T) (c : ctx T) (s : avl_tree T).

Fixpoint rep h (par : Z) t : Prop :=
  match t with
  | Leaf => True
  | Node l a v bf r =>
      h !! a = Some (mkElem (tag par bf) (root l) (root r) v) /\
      addr_ok a /\ bf_ok bf /\ rep h a l /\ rep h a r
  end.

Fixpoint crep h c (x : Z) : Prop :=
  match c with
  | [] => True
  | FL a v bf r :: c' =>
      h !! a = Some (mkElem (tag (cpar c') bf) x (root r) v) /\
      addr_ok a /\ bf_ok bf /\ rep h a r /\ crep h c' a
  | FR l a v bf :: c' =>
      h !! a = Some (mkElem (tag (cpar c') bf) (root l) x v) /\
      addr_ok a /\ bf_ok bf /\ rep h a l /\ crep h c' a
  end.

Record wf s c t : Prop := {
  wf_ctx : crep (mem s) c (root t);
  wf_tree : rep (mem s) (cpar c) t;
  wf_nodup : NoDup (caddrs c ++ addrs t);
  wf_root : _root s = croot c (root t)
}.

(** What the store holds outside the addresses [xs] is kept. *)
Definition frames (xs : list Z) s s' : Prop :=
  forall a, a ∉ xs -> mem s' !! a = mem s !! a.

Lemma rep_ext h h' par t :
  (forall a, a ∈ addrs t -> h' !! a = h !! a) -> rep h par t -> rep h' par t.
Proof.
  revert par. induction t as [|l IHl a v bf r IHr]; intros par He; simpl; [done|].
  intros (H1 & H2 & H3 & H4 & H5). simpl in He.
  rewrite He by set_solver. split; [done|]. split; [done|]. split; [done|]. split.
  - apply IHl; [|done]. intros; apply He; set_solver.
  - apply IHr; [|done]. intros; apply He; set_solver.
Qed.

Lemma crep_ext h h' c x :
  (forall a, a ∈ caddrs c -> h' !! a = h !! a) -> crep h c x -> crep h' c x.
Proof.
  revert x. induction c as [|[a v bf r|l a v bf] c IH]; intros x He; simpl; [done|..];
    intros (H1 & H2 & H3 & H4 & H5); simpl in He;
    (rewrite He by set_solver); do 3 (split; [done|]); split.
  1, 3: eapply rep_ext; [|done]; intros; apply He; set_solver.
  all: apply IH; [|done]; intros; apply He; set_solver.
Qed.

Lemma rep_insert h a e par t : a ∉ addrs t -> rep h par t -> rep (<[a := e]> h) par t.
Proof. intros Ha. apply rep_ext. intros b Hb. apply lookup_insert_ne. set_solver. Qed.
Lemma crep_insert h a e c x : a ∉ caddrs c -> crep h c x -> crep (<[a := e]> h) c x.
Proof. intros Ha. apply crep_ext. intros b Hb. apply lookup_insert_ne. set_solver. Qed.

Lemma rep_root_ok h par t : rep h par t -> par_ok (root t).
Proof. destruct t; simpl; [intros; apply par_ok_0|]. intros (_ & H & _). apply H. Qed.
Lemma crep_par_ok h c x : crep h c x -> par_ok (cpar c).
Proof. destruct c as [|[] c]; simpl; [intros; apply par_ok_0|..]; intros (_ & H & _); apply H. Qed.
Lemma rep_root_nz h par t : rep h par t -> t <> Leaf -> root t <> 0.
Proof. destruct t; [done|]. simpl. intros (_ & [_ H] & _) _. done. Qed.

Lemma root_ne t p : p ∉ addrs t -> p <> 0 -> root t <> p.
Proof. destruct t; simpl; set_solver. Qed.

Lemma rep_in h par t a : rep h par t -> a ∈ addrs t -> addr_ok a /\ is_Some (h !! a).
Proof.
  revert par. induction t as [|l IHl b v bf r IHr]; intros par; simpl; [set_solver|].
  intros (H1 & H2 & H3 & H4 & H5) Ha.
  apply elem_of_cons in Ha as [->|Ha]; [eauto|].
  apply elem_of_app in Ha as [Ha|Ha]; eauto.
Qed.
Lemma crep_in h c x a : crep h c x -> a ∈ caddrs c -> addr_ok a /\ is_Some (h !! a).
Proof.
  revert x. induction c as [|[b v bf r|l b v bf] c IH]; intros x; simpl; [set_solver|..];
    intros (H1 & H2 & H3 & H4 & H5) Ha;
    apply elem_of_cons in Ha as [->|Ha]; eauto;
    apply elem_of_app in Ha as [Ha|Ha]; eauto using rep_in.
Qed.
End rep.

(** ** Segments of a context *)

Section segment.
Context {T : Type}.
Implicit Types (t l r : tree T) (c g : ctx T) (s : avl_tree T) (h : gmap Z (elem T)).

Definition gpar (par : Z) g : Z :=
  match g with
  | [] => par
  | f :: _ => frame_addr f
  end.

(** The frames [g] below the parent [par], around the child [x]. *)
Fixpoint cseg h (par : Z) g (x : Z) : Prop :=
  match g with
  | [] => True
  | FL a v bf r :: g' =>
      h !! a = Some (mkElem (tag (gpar par g') bf) x (root r) v) /\
      addr_ok a /\ bf_ok bf /\ rep h a r /\ cseg h par g' a
  | FR l a v bf :: g' =>
      h !! a = Some (mkElem (tag (gpar par g') bf) (root l) x v) /\
      addr_ok a /\ bf_ok bf /\ rep h a l /\ cseg h par g' a
  end.

Lemma cpar_app g c : cpar (g ++ c) = gpar (cpar c) g.
Proof. by destruct g. Qed.
Lemma croot_app g c x : croot (g ++ c) x = croot c (croot g x).
Proof. revert x. induction g as [|f g IH]; intros x; simpl; [done|]. apply IH. Qed.
Lemma caddrs_app g c : caddrs (g ++ c) = caddrs g ++ caddrs c.
Proof. induction g as [|[] g IH]; simpl; rewrite ?IH; by norm_app. Qed.
Lemma root_plug_croot g t : root (plug g t) = croot g (root t).
Proof. apply root_plug. Qed.

Lemma crep_app h g c x :
  crep h (g ++ c) x <-> cseg h (cpar c) g x /\ crep h c (croot g x).
Proof.
  revert x. induction g as [|[a v bf r|l a v bf] g IH]; intros x; simpl; [tauto|..];
    rewrite IH, cpar_app; tauto.
Qed.
Lemma cseg_app h par g g' x :
  cseg h par (g ++ g') x <-> cseg h (gpar par g') g x /\ cseg h par g' (croot g x).
Proof.
  revert x. induction g as [|[a v bf r|l a v bf] g IH]; intros x; simpl; [tauto|..];
    rewrite IH; destruct g; simpl; tauto.
Qed.
Lemma cseg_ext h h' par g x :
  (forall a, a ∈ caddrs g -> h' !! a = h !! a) -> cseg h par g x -> cseg h' par g x.
Proof.
  revert x. induction g as [|[a v bf r|l a v bf] g IH]; intros x He; simpl; [done|..];
    intros (H1 & H2 & H3 & H4 & H5); simpl in He;
    (rewrite He by set_solver); do 3 (split; [done|]); split.
  1, 3: eapply rep_ext; [|done]; intros; apply He; set_solver.
  all: apply IH; [|done]; intros; apply He; set_solver.
Qed.
Lemma cseg_insert h a e par g x : a ∉ caddrs g -> cseg h par g x -> cseg (<[a := e]> h) par g x.
Proof. intros Ha. apply cseg_ext. intros b Hb. apply lookup_insert_ne. set_solver. Qed.
End segment.

(** ** Accessors on a known cell *)

Section accessors.
Context {T : Type}.
Implicit Types (s : avl_tree T) (e : elem T).

(** One object's words replaced. *)
Definition upd (a : Z) e s : avl_tree T := set_mem (<[a := e]> (mem s)) s.

Lemma upd_upd a e e' s : upd a e (upd a e' s) = upd a e s.
Proof. unfold upd, set_mem; simpl. by rewrite insert_insert_eq. Qed.

Lemma load_ok a e s : mem s !! a = Some e -> load a s = Ok (e, s).
Proof. unfold load. by intros ->. Qed.
Lemma store_ok a e e' s : mem s !! a = Some e -> store a e' s = Ok (tt, upd a e' s).
Proof. unfold store. by intros ->. Qed.
Lemma deref_ok a e s : mem s !! a = Some e -> deref a s = Ok (value e, s).
Proof. intros. unfold deref. by erewrite bind_Ok by (by apply load_ok). Qed.
Lemma get_left_ok a e s : mem s !! a = Some e -> get_left a s = Ok (prev e, s).
Proof. intros. unfold get_left. by erewrite bind_Ok by (by apply load_ok). Qed.
Lemma get_right_ok a e s : mem s !! a = Some e -> get_right a s = Ok (next e, s).
Proof. intros. unfold get_right. by erewrite bind_Ok by (by apply load_ok). Qed.
Lemma set_left_ok a x w l r v s :
  mem s !! a = Some (mkElem w l r v) ->
  set_left a x s = Ok (tt, upd a (mkElem w x r v) s).
Proof.
  intros. unfold set_left. erewrite bind_Ok by (by apply load_ok). by eapply store_ok.
Qed.
Lemma set_right_ok a x w l r v s :
  mem s !! a = Some (mkElem w l r v) ->
  set_right a x s = Ok (tt, upd a (mkElem w l x v) s).
Proof.
  intros. unfold set_right. erewrite bind_Ok by (by apply load_ok). by eapply store_ok.
Qed.

Lemma get_tree_parent_ok a par bf l r v s :
  mem s !! a = Some (mkElem (tag par bf) l r v) -> par_ok par ->
  get_tree_parent a s = Ok (par, s).
Proof.
  intros. unfold get_tree_parent. erewrite bind_Ok by (by apply load_ok).
  cbn. by rewrite tag_parent.
Qed.
Lemma get_balance_factor_ok a par bf l r v s :
  mem s !! a = Some (mkElem (tag par bf) l r v) -> par_ok par -> bf_ok bf ->
  get_balance_factor a s = Ok (bf, s).
Proof.
  intros. unfold get_balance_factor. erewrite bind_Ok by (by apply load_ok).
  cbn -[Z.land]. unfold ret. repeat f_equal. by apply tag_bf.
Qed.
Lemma set_balance_factor_ok a par bf bf' l r v s :
  mem s !! a = Some (mkElem (tag par bf) l r v) -> par_ok par ->
  set_balance_factor a bf' s = Ok (tt, upd a (mkElem (tag par bf') l r v) s).
Proof.
  intros. unfold set_balance_factor.
  erewrite bind_Ok by (by eapply get_tree_parent_ok).
  erewrite bind_Ok by (by apply load_ok).
  rewrite tag_lor by done. by eapply store_ok.
Qed.
Lemma set_tree_parent_ok a par par' bf l r v s :
  mem s !! a = Some (mkElem (tag par bf) l r v) -> par_ok par -> par_ok par' -> bf_ok bf ->
  set_tree_parent a par' s = Ok (tt, upd a (mkElem (tag par' bf) l r v) s).
Proof.
  intros. unfold set_tree_parent.
  erewrite bind_Ok by (by eapply get_balance_factor_ok).
  erewrite bind_Ok by (by apply load_ok). cbn [prev next value].
  erewrite bind_Ok by (by eapply store_ok).
  replace par' with (tag par' 0) at 1 by (unfold tag; rewrite Z.mod_0_l; lia).
  erewrite set_balance_factor_ok; [|cbn; by rewrite lookup_insert_eq|done].
  by rewrite upd_upd.
Qed.
End accessors.

(** ** Symbolic execution *)

(** Splits distinctness facts into inequalities and non-memberships. *)
Ltac nodup_split :=
  repeat match goal with
  | H : NoDup [] |- _ => clear H
  | H : NoDup (_ :: _) |- _ => apply NoDup_cons in H as [? H]
  | H : NoDup (_ ++ _) |- _ => apply NoDup_app in H as (? & ? & H)
  | H : _ ∉ _ :: _ |- _ => apply not_elem_of_cons in H as [? H]
  | H : _ ∉ _ ++ _ |- _ => apply not_elem_of_app in H as [? H]
  end.

(** Reads the parts of [rep], [crep] hypotheses with a known shape. *)
Ltac rep_split :=
  repeat match goal with
  | H : rep _ _ (Node _ _ _ _ _) |- _ => destruct H as (? & ? & ? & ? & ?)
  | H : crep _ (_ :: _) _ |- _ => destruct H as (? & ? & ? & ? & ?)
  | H : rep _ _ Leaf |- _ => clear H
  | H : crep _ [] _ |- _ => clear H
  end.

Ltac side := first [ eassumption | solve [eauto with reaver] | solve [unfold bf_ok in *; lia] ].

(** Decides the condition of the next branch from the context. *)
Ltac addr_ne :=
  first [ congruence
        | apply root_ne; [notin|congruence]
        | apply not_eq_sym, root_ne; [set_solver|congruence] ].
Ltac test :=
  match goal with
  | |- context [?x =? ?y] =>
      first [ rewrite (proj2 (Z.eqb_eq x y)) by congruence
            | rewrite (proj2 (Z.eqb_neq x y)) by addr_ne ]
  | |- context [?x <? ?y] =>
      first [ rewrite (proj2 (Z.ltb_lt x y)) by lia
            | rewrite (proj2 (Z.ltb_ge x y)) by lia ]
  end; cbv beta iota.

(** Executes the next command of an accessor sequence. *)
Ltac exec1 :=
  lazymatch goal with
  | |- bind (bind _ _) _ _ = _ => rewrite bind_assoc
  | |- bind (ret _) _ _ = _ => erewrite bind_Ok by reflexivity
  | |- bind (gets _) _ _ = _ => erewrite bind_Ok by reflexivity
  | |- bind (modify _) _ _ = _ => erewrite bind_Ok by reflexivity
  | |- bind (get_left _) _ _ = _ => erewrite bind_Ok by (eapply get_left_ok; look)
  | |- bind (get_right _) _ _ = _ => erewrite bind_Ok by (eapply get_right_ok; look)
  | |- bind (deref _) _ _ = _ => erewrite bind_Ok by (eapply deref_ok; look)
  | |- bind (set_left _ _) _ _ = _ => erewrite bind_Ok by (eapply set_left_ok; look)
  | |- bind (set_right _ _) _ _ = _ => erewrite bind_Ok by (eapply set_right_ok; look)
  | |- bind (get_tree_parent _) _ _ = _ =>
      erewrite bind_Ok by (eapply get_tree_parent_ok; [look|side])
  | |- bind (get_balance_factor _) _ _ = _ =>
      erewrite bind_Ok by (eapply get_balance_factor_ok; [look|side|side])
  | |- bind (set_balance_factor _ _) _ _ = _ =>
      erewrite bind_Ok by (eapply set_balance_factor_ok; [look|side])
  | |- bind (set_tree_parent _ _) _ _ = _ =>
      erewrite bind_Ok by (eapply set_tree_parent_ok; [look|side|side|side])
  | |- bind (if _ then _ else _) _ _ = _ => test
  | |- (if _ then _ else _) _ = _ => test
  | |- ret _ _ = _ => reflexivity
  end; cbn [prev next value tree_parent root]; cbv beta iota.
Ltac exec := repeat exec1.

(** Brings a [wf] state to single cells: [open] after the shape of the tree and
    of the context around it is known. *)
Ltac addr_facts :=
  repeat match goal with
  | H : addr_ok ?p |- _ =>
      lazymatch goal with
      | _ : p <> 0 |- _ => fail
      | _ => pose proof (proj2 H : p <> 0)
      end
  end.
Ltac open :=
  cbn [root cpar frame_addr caddrs addrs app croot] in *;
  rep_split; cbn [root cpar frame_addr] in *; addr_facts;
  match goal with
  | H : NoDup _ |- _ =>
      let H' := fresh "Hcount" in
      pose proof (proj1 (NoDup_count _) H) as H'; cbn [app] in H;
      repeat (rewrite <- app_assoc in H; cbn [app] in H); nodup_split
  end.

Ltac cell :=
  match goal with
  | |- rep _ _ Leaf => exact I
  | |- rep _ _ _ => repeat (apply rep_insert; [notin|]); eassumption
  | |- crep _ [] _ => exact I
  | |- crep _ _ _ => repeat (apply crep_insert; [notin|]); eassumption
  | |- cseg _ _ [] _ => exact I
  | |- cseg _ _ _ _ => repeat (apply cseg_insert; [notin|]); eassumption
  | |- _ !! _ = Some _ => look
  | |- _ => side
  end.
Ltac cells :=
  cbn [mem upd set_mem set_root set_size rep crep root cpar frame_addr];
  repeat match goal with |- _ /\ _ => split end; cell.

(** The change an operation on the tree may make to the rest of the state. *)
Record touches {T} (xs : list Z) (s s' : avl_tree T) : Prop := {
  touch_frame : frames xs s s';
  touch_size : _size s' = _size s;
  touch_freed : freed s' = freed s
}.

Lemma touches_refl {T} xs (s : avl_tree T) : touches xs s s.
Proof. by split. Qed.
Lemma touches_trans {T} xs (s1 s2 s3 : avl_tree T) :
  touches xs s1 s2 -> touches xs s2 s3 -> touches xs s1 s3.
Proof.
  intros [F1 S1 D1] [F2 S2 D2]. split; [|congruence..].
  intros a Ha. by rewrite F2, F1.
Qed.
Lemma touches_sub {T} xs ys (s s' : avl_tree T) :
  touches xs s s' -> (forall a, a ∈ xs -> a ∈ ys) -> touches ys s s'.
Proof. intros [F S D] H. split; [|done..]. intros a Ha. apply F. naive_solver. Qed.

(** Close [wf s' c t] and [touches xs s s'] for an explicit [s']. *)
Ltac close_wf :=
  constructor; [cells|cells|cbn [caddrs addrs app]; nodup_count|cbn; congruence].
Ltac close_touch :=
  constructor;
  [ let x := fresh "x" in let Hx := fresh "Hx" in
    intros x Hx; cbn [app] in Hx; repeat (rewrite <- app_assoc in Hx; cbn [app] in Hx);
    nodup_split; cbn; rewrite ?lookup_insert_ne by congruence; done
  | done | done ].
Ltac wf_close := split; [close_wf|close_touch].

Section rotations.
Context {T : Type}.
Implicit Types (t l r : tree T) (c : ctx T) (s : avl_tree T).

Lemma rotate_left_spec s c a p u i b q w j d :
  wf s c (Node a p u i (Node b q w j d)) ->
  exists s', _rotate_left p s = Ok (q, s') /\
    wf s' c (Node (Node a p u i b) q w j d) /\
    touches (caddrs c ++ addrs (Node a p u i (Node b q w j d))) s s'.
Proof.
  intros [Hc Ht Hn Hr]. pose proof (crep_par_ok _ _ _ Hc).
  destruct b as [|b1 b0 bv bb b2]; destruct c as [|[f fv fb fr|fl f fv fb] c].
  all: open; eexists; split; [unfold _rotate_left; exec|]; wf_close.
Qed.

Lemma rotate_right_spec s c a p u i b q w j d :
  wf s c (Node (Node a p u i b) q w j d) ->
  exists s', _rotate_right q s = Ok (p, s') /\
    wf s' c (Node a p u i (Node b q w j d)) /\
    touches (caddrs c ++ addrs (Node (Node a p u i b) q w j d)) s s'.
Proof.
  intros [Hc Ht Hn Hr]. pose proof (crep_par_ok _ _ _ Hc).
  destruct b as [|b1 b0 bv bb b2]; destruct c as [|[f fv fb fr|fl f fv fb] c].
  all: open; eexists; split; [unfold _rotate_right; exec|]; wf_close.
Qed.
End rotations.

(** ** Moving the focus, reading and rewriting at the focus *)

Section focus.
Context {T : Type}.
Implicit Types (t l r : tree T) (c : ctx T) (s : avl_tree T).

Lemma wf_right s c l a v bf r :
  wf s c (Node l a v bf r) <-> wf s (FR l a v bf :: c) r.
Proof.
  split; intros [Hc Ht Hn Hr]; rep_split; constructor;
    cbn [root cpar frame_addr crep rep croot] in *; try tauto;
    cbn [caddrs addrs] in *; nodup_count.
Qed.
Lemma wf_left s c l a v bf r :
  wf s c (Node l a v bf r) <-> wf s (FL a v bf r :: c) l.
Proof.
  split; intros [Hc Ht Hn Hr]; rep_split; constructor;
    cbn [root cpar frame_addr crep rep croot] in *; try tauto;
    cbn [caddrs addrs] in *; nodup_count.
Qed.
Lemma wf_fill s c f t : wf s c (fill f t) <-> wf s (f :: c) t.
Proof. destruct f; [apply wf_left|apply wf_right]. Qed.
Lemma wf_plug s c t : wf s [] (plug c t) <-> wf s c t.
Proof.
  revert t. induction c as [|f c IH]; intros t; [done|].
  cbn [plug]. by rewrite IH, wf_fill.
Qed.

Section node.
Context {s : avl_tree T} {c : ctx T} {l : tree T} {a : Z} {v : T} {bf : Z} {r : tree T}.
Context (W : wf s c (Node l a v bf r)).

Lemma wf_cell : mem s !! a = Some (mkElem (tag (cpar c) bf) (root l) (root r) v).
Proof. apply (wf_tree _ _ _ W). Qed.
Lemma wf_addr : addr_ok a.
Proof. apply (wf_tree _ _ _ W). Qed.
Lemma wf_bf : bf_ok bf.
Proof. apply (wf_tree _ _ _ W). Qed.
Lemma wf_par : par_ok (cpar c).
Proof. eapply crep_par_ok, (wf_ctx _ _ _ W). Qed.

Lemma wf_get_left : get_left a s = Ok (root l, s).
Proof. apply (get_left_ok _ _ _ wf_cell). Qed.
Lemma wf_get_right : get_right a s = Ok (root r, s).
Proof. apply (get_right_ok _ _ _ wf_cell). Qed.
Lemma wf_deref : deref a s = Ok (v, s).
Proof. apply (deref_ok _ _ _ wf_cell). Qed.
Lemma wf_get_bf : get_balance_factor a s = Ok (bf, s).
Proof. eapply get_balance_factor_ok; [apply wf_cell|apply wf_par|apply wf_bf]. Qed.
Lemma wf_get_parent : get_tree_parent a s = Ok (cpar c, s).
Proof. eapply get_tree_parent_ok; [apply wf_cell|apply wf_par]. Qed.

Lemma wf_set_bf bf' : bf_ok bf' ->
  exists s', set_balance_factor a bf' s = Ok (tt, s') /\ wf s' c (Node l a v bf' r) /\
    touches (caddrs c ++ addrs (Node l a v bf r)) s s'.
Proof.
  intros Hb. pose proof wf_par. destruct W as [Hc Ht Hn Hr]. open.
  eexists; split; [eapply set_balance_factor_ok; side|]. wf_close.
Qed.
End node.

Lemma wf_child_eqb s c l a v bf r :
  wf s c (Node l a v bf r) -> r <> Leaf -> (root r =? root l) = false.
Proof.
  intros W Hr. destruct W as [_ Ht Hn _]. destruct r as [|rl b w j rr]; [done|].
  open. apply Z.eqb_neq. apply not_eq_sym, root_ne; [notin|done].
Qed.
End focus.

#[export] Hint Resolve wf_get_left wf_get_right wf_deref wf_get_bf wf_get_parent : reaver.

(** Address lists that differ by order only. *)
Ltac touch :=
  eapply touches_sub; [eassumption|];
  clear; let a := fresh "a" in intros a;
  cbn [addrs caddrs app]; repeat (rewrite elem_of_app || rewrite elem_of_cons); tauto.

Section rebalance.
Context {T : Type}.
Implicit Types (t l r : tree T) (c : ctx T) (s : avl_tree T).

(** [set_balance_factor] on the focus and then on one of its children. *)
Lemma set_bf_right s c a p u i b q w j d i' j' :
  wf s c (Node a p u i (Node b q w j d)) -> bf_ok i' -> bf_ok j' ->
  exists s', (set_balance_factor p i' ;;
              let* rgt := get_right p in set_balance_factor rgt j') s = Ok (tt, s') /\
    wf s' c (Node a p u i' (Node b q w j' d)) /\
    touches (caddrs c ++ addrs (Node a p u i (Node b q w j d))) s s'.
Proof.
  intros W Hi Hj.
  destruct (wf_set_bf W i' Hi) as (s1 & E1 & W1 & X1).
  destruct (wf_set_bf (proj1 (wf_right _ _ _ _ _ _ _) W1) j' Hj) as (s2 & E2 & W2 & X2).
  exists s2. rewrite (bind_Ok _ _ _ _ _ E1). run. split; [done|].
  split; [by apply wf_right|]. eapply touches_trans; touch.
Qed.
Lemma set_bf_left s c a p u i b q w j d i' j' :
  wf s c (Node (Node a p u i b) q w j d) -> bf_ok i' -> bf_ok j' ->
  exists s', (set_balance_factor q j' ;;
              let* lft := get_left q in set_balance_factor lft i') s = Ok (tt, s') /\
    wf s' c (Node (Node a p u i' b) q w j' d) /\
    touches (caddrs c ++ addrs (Node (Node a p u i b) q w j d)) s s'.
Proof.
  intros W Hi Hj.
  destruct (wf_set_bf W j' Hj) as (s1 & E1 & W1 & X1).
  destruct (wf_set_bf (proj1 (wf_left _ _ _ _ _ _ _) W1) i' Hi) as (s2 & E2 & W2 & X2).
  exists s2. rewrite (bind_Ok _ _ _ _ _ E1). run. split; [done|].
  split; [by apply wf_left|]. eapply touches_trans; touch.
Qed.

Lemma rebalance_left_spec s c a p u i b q w j d :
  wf s c (Node a p u i (Node b q w j d)) ->
  exists s', _rebalance_left p s = Ok (q, s') /\
    wf s' c (reb_left (Node a p u i (Node b q w j d))) /\
    touches (caddrs c ++ addrs (Node a p u i (Node b q w j d))) s s'.
Proof.
  intros W. pose proof (proj1 (wf_right _ _ _ _ _ _ _) W) as Wr.
  unfold _rebalance_left. run1; cbn [root]; run1; simpl; destruct (j =? 0).
  - edestruct (set_bf_right s c a p u i b q w j d 1 (-1)) as (s1 & E1 & W1 & X1); [side..|].
    rewrite (bind_Ok _ _ _ _ _ E1).
    destruct (rotate_left_spec _ _ _ _ _ _ _ _ _ _ _ W1) as (s2 & E2 & W2 & X2).
    exists s2. split; [done|]. split; [done|]. eapply touches_trans; touch.
  - edestruct (set_bf_right s c a p u i b q w j d 0 0) as (s1 & E1 & W1 & X1); [side..|].
    rewrite (bind_Ok _ _ _ _ _ E1).
    destruct (rotate_left_spec _ _ _ _ _ _ _ _ _ _ _ W1) as (s2 & E2 & W2 & X2).
    exists s2. split; [done|]. split; [done|]. eapply touches_trans; touch.
Qed.

Lemma rebalance_right_spec s c a p u i b q w j d :
  wf s c (Node (Node a p u i b) q w j d) ->
  exists s', _rebalance_right q s = Ok (p, s') /\
    wf s' c (reb_right (Node (Node a p u i b) q w j d)) /\
    touches (caddrs c ++ addrs (Node (Node a p u i b) q w j d)) s s'.
Proof.
  intros W. pose proof (proj1 (wf_left _ _ _ _ _ _ _) W) as Wr.
  unfold _rebalance_right. run1; cbn [root]; run1; simpl; destruct (i =? 0).
  - edestruct (set_bf_left s c a p u i b q w j d 1 (-1)) as (s1 & E1 & W1 & X1); [side..|].
    rewrite (bind_Ok _ _ _ _ _ E1).
    destruct (rotate_right_spec _ _ _ _ _ _ _ _ _ _ _ W1) as (s2 & E2 & W2 & X2).
    exists s2. split; [done|]. split; [done|]. eapply touches_trans; touch.
  - edestruct (set_bf_left s c a p u i b q w j d 0 0) as (s1 & E1 & W1 & X1); [side..|].
    rewrite (bind_Ok _ _ _ _ _ E1).
    destruct (rotate_right_spec _ _ _ _ _ _ _ _ _ _ _ W1) as (s2 & E2 & W2 & X2).
    exists s2. split; [done|]. split; [done|]. eapply touches_trans; touch.
Qed.

(** The common tail of the two double rotations. *)
Lemma rotate_left_right_spec s c a p u i b m x k d q w j e :
  wf s c (Node (Node a p u i (Node b m x k d)) q w j e) ->
  exists s', (let* lft := get_left q in
              _rotate_left lft ;;
              let* n := _rotate_right q in
              set_balance_factor n 0 ;; ret n) s = Ok (m, s') /\
    wf s' c (Node (Node a p u i b) m x 0 (Node d q w j e)) /\
    touches (caddrs c ++ addrs (Node (Node a p u i (Node b m x k d)) q w j e)) s s'.
Proof.
  intros W. pose proof (proj1 (wf_left _ _ _ _ _ _ _) W) as Wl.
  destruct (rotate_left_spec _ _ _ _ _ _ _ _ _ _ _ Wl) as (s1 & E1 & W1 & X1).
  apply wf_left in W1.
  destruct (rotate_right_spec _ _ _ _ _ _ _ _ _ _ _ W1) as (s2 & E2 & W2 & X2).
  destruct (wf_set_bf W2 0) as (s3 & E3 & W3 & X3); [side|].
  exists s3. run1; cbn [root].
  rewrite (bind_Ok _ _ _ _ _ E1), (bind_Ok _ _ _ _ _ E2), (bind_Ok _ _ _ _ _ E3).
  split; [done|]. split; [done|]. eapply touches_trans; [touch|eapply touches_trans; touch].
Qed.
Lemma rotate_right_left_spec s c a p u i b m x k d q w j e :
  wf s c (Node a p u i (Node (Node b m x k d) q w j e)) ->
  exists s', (let* rgt := get_right p in
              _rotate_right rgt ;;
              let* n := _rotate_left p in
              set_balance_factor n 0 ;; ret n) s = Ok (m, s') /\
    wf s' c (Node (Node a p u i b) m x 0 (Node d q w j e)) /\
    touches (caddrs c ++ addrs (Node a p u i (Node (Node b m x k d) q w j e))) s s'.
Proof.
  intros W. pose proof (proj1 (wf_right _ _ _ _ _ _ _) W) as Wl.
  destruct (rotate_right_spec _ _ _ _ _ _ _ _ _ _ _ Wl) as (s1 & E1 & W1 & X1).
  apply wf_right in W1.
  destruct (rotate_left_spec _ _ _ _ _ _ _ _ _ _ _ W1) as (s2 & E2 & W2 & X2).
  destruct (wf_set_bf W2 0) as (s3 & E3 & W3 & X3); [side|].
  exists s3. run1; cbn [root].
  rewrite (bind_Ok _ _ _ _ _ E1), (bind_Ok _ _ _ _ _ E2), (bind_Ok _ _ _ _ _ E3).
  split; [done|]. split; [done|]. eapply touches_trans; [touch|eapply touches_trans; touch].
Qed.

(** One of the three factor assignments, then the double rotation. *)
Lemma left_right_with s c a p u i b m x k d q w j e i' j' :
  wf s c (Node (Node a p u i (Node b m x k d)) q w j e) -> bf_ok i' -> bf_ok j' ->
  exists s', (((set_balance_factor q j' ;;
               let* lft := get_left q in set_balance_factor lft i')) ;;
              let* lft := get_left q in
              _rotate_left lft ;;
              let* n := _rotate_right q in
              set_balance_factor n 0 ;; ret n) s = Ok (m, s') /\
    wf s' c (Node (Node a p u i' b) m x 0 (Node d q w j' e)) /\
    touches (caddrs c ++ addrs (Node (Node a p u i (Node b m x k d)) q w j e)) s s'.
Proof.
  intros W Hi Hj.
  edestruct (set_bf_left s c a p u i (Node b m x k d) q w j e i' j') as (s1 & E1 & W1 & X1);
    [side..|].
  destruct (rotate_left_right_spec _ _ _ _ _ _ _ _ _ _ _ _ _ _ _ W1) as (s2 & E2 & W2 & X2).
  exists s2. rewrite (bind_Ok _ _ _ _ _ E1). split; [done|]. split; [done|].
  eapply touches_trans; touch.
Qed.
Lemma right_left_with s c a p u i b m x k d q w j e i' j' :
  wf s c (Node a p u i (Node (Node b m x k d) q w j e)) -> bf_ok i' -> bf_ok j' ->
  exists s', (((set_balance_factor p i' ;;
               let* rgt := get_right p in set_balance_factor rgt j')) ;;
              let* rgt := get_right p in
              _rotate_right rgt ;;
              let* n := _rotate_left p in
              set_balance_factor n 0 ;; ret n) s = Ok (m, s') /\
    wf s' c (Node (Node a p u i' b) m x 0 (Node d q w j' e)) /\
    touches (caddrs c ++ addrs (Node a p u i (Node (Node b m x k d) q w j e))) s s'.
Proof.
  intros W Hi Hj.
  edestruct (set_bf_right s c a p u i (Node b m x k d) q w j e i' j') as (s1 & E1 & W1 & X1);
    [side..|].
  destruct (rotate_right_left_spec _ _ _ _ _ _ _ _ _ _ _ _ _ _ _ W1) as (s2 & E2 & W2 & X2).
  exists s2. rewrite (bind_Ok _ _ _ _ _ E1). split; [done|]. split; [done|].
  eapply touches_trans; touch.
Qed.

Lemma rebalance_left_right_spec s c a p u i b m x k d q w j e :
  wf s c (Node (Node a p u i (Node b m x k d)) q w j e) ->
  exists s', _rebalance_left_right q s = Ok (m, s') /\
    wf s' c (reb_left_right (Node (Node a p u i (Node b m x k d)) q w j e)) /\
    touches (caddrs c ++ addrs (Node (Node a p u i (Node b m x k d)) q w j e)) s s'.
Proof.
  intros W. pose proof (proj1 (wf_left _ _ _ _ _ _ _) W) as Wl.
  pose proof (proj1 (wf_right _ _ _ _ _ _ _) Wl) as Wlr.
  unfold _rebalance_left_right. run1; cbn [root]; run1; cbn [root]; run1; simpl.
  destruct (k =? 0); [|destruct (k <? 0)]; eapply left_right_with; side.
Qed.
Lemma rebalance_right_left_spec s c a p u i b m x k d q w j e :
  wf s c (Node a p u i (Node (Node b m x k d) q w j e)) ->
  exists s', _rebalance_right_left p s = Ok (m, s') /\
    wf s' c (reb_right_left (Node a p u i (Node (Node b m x k d) q w j e))) /\
    touches (caddrs c ++ addrs (Node a p u i (Node (Node b m x k d) q w j e))) s s'.
Proof.
  intros W. pose proof (proj1 (wf_right _ _ _ _ _ _ _) W) as Wl.
  pose proof (proj1 (wf_left _ _ _ _ _ _ _) Wl) as Wlr.
  unfold _rebalance_right_left. run1; cbn [root]; run1; cbn [root]; run1; simpl.
  destruct (k =? 0); [|destruct (0 <? k)]; eapply right_left_with; side.
Qed.
End rebalance.

(** ** Addresses of a tree, and states that agree on them *)

Section views.
Context {T : Type}.
Implicit Types (t : tree T) (c : ctx T) (s : avl_tree T).

Lemma addrs_nodes t : addrs t ≡ₚ (nodes t).*1.
Proof.
  induction t as [|l IHl a v bf r IHr]; simpl; [done|].
  rewrite fmap_app, fmap_cons. simpl. rewrite <- Permutation_middle.
  by rewrite <- IHl, <- IHr.
Qed.
Lemma caddrs_nodes c t : caddrs c ++ addrs t ≡ₚ (nodes (plug c t)).*1.
Proof.
  rewrite <- addrs_nodes. revert t. induction c as [|f c IH]; intros t; [done|].
  cbn [plug]. rewrite <- IH. destruct f; simpl; solve_Permutation.
Qed.

Lemma wf_ext s s' c t :
  wf s c t -> _root s' = _root s ->
  (forall a, a ∈ caddrs c ++ addrs t -> mem s' !! a = mem s !! a) -> wf s' c t.
Proof.
  intros [Hc Ht Hn Hr] Hr' He. constructor; [| |done|congruence].
  - eapply crep_ext; [|done]. set_solver.
  - eapply rep_ext; [|done]. set_solver.
Qed.
End views.
