(* ===== verification/AvlInsert.v ===== *)
(** * Insertion into the AVL tree

    The descent, the linking of the new node and the rebalancing walk of
    [insert], related to the functional walk of [AvlSpec]. *)
From S2P Require Import Prelude AvlTree AvlSpec AvlRep.

(** ** Fuel *)

Section fuel.
Context {T : Type}.
Implicit Types (t l r : tree T) (c : ctx T) (s : avl_tree T).

Lemma wf_length s c t : wf s c t -> (length (caddrs c ++ addrs t) <= size (mem s))%nat.
Proof.
  intros [Hc Ht Hn _].
  rewrite <- (size_dom (mem s)).
  rewrite <- (size_list_to_set (C := gset Z)) by done.
  apply subseteq_size. intros a Ha. apply elem_of_list_to_set in Ha.
  apply elem_of_dom. apply elem_of_app in Ha as [Ha|Ha].
  - by eapply crep_in.
  - by eapply rep_in.
Qed.

Lemma length_ctx c : (length c <= length (caddrs c))%nat.
Proof. induction c as [|[] c IH]; simpl; rewrite ?length_app; lia. Qed.

(** Longest path, the number of steps of a descent. *)
Fixpoint depth t : nat :=
  match t with
  | Leaf => 0
  | Node l _ _ _ r => S (Nat.max (depth l) (depth r))
  end.
Lemma depth_addrs t : (depth t <= length (addrs t))%nat.
Proof. induction t; simpl; rewrite ?length_app; lia. Qed.

Lemma wf_fuel s c t : wf s c t -> (length c + depth t < fuel_of s)%nat.
Proof.
  intros W. apply wf_length in W. rewrite length_app in W. unfold fuel_of.
  pose proof (length_ctx c). pose proof (depth_addrs t). lia.
Qed.
End fuel.

(** ** The rebalancing walk *)

Section walk.
Context {T : Type}.
Implicit Types (t l r : tree T) (c : ctx T) (s : avl_tree T).

Lemma wf_child_ne s c l a v bf r :
  wf s c (Node l a v bf r) -> l <> Leaf -> (root r =? root l) = false.
Proof.
  intros [_ Ht Hn _] Hl. destruct l as [|l1 b w j l2]; [done|].
  open. apply Z.eqb_neq. apply root_ne; [notin|done].
Qed.

(** The walk from the root of the focus, given what its context expects. *)
Definition ins_walk_ok c (fuel : nat) : Prop :=
  forall t s h, wf s c t -> t <> Leaf -> cavl c h -> avl t -> height t = h + 1 -> 0 <= h ->
  (bfactor t <> 0 \/ h = 0) ->
  exists s', _insert_rebalance fuel (root t) s = Ok (tt, s') /\
    wf s' [] (ins_up c t) /\ touches (caddrs c ++ addrs t) s s'.

(** The walk goes on above a node whose new factor shows that it grew. *)
Lemma ins_walk_continue c fuel l a v bf bf' r s h xs :
  ins_walk_ok c fuel -> wf s c (Node l a v bf r) -> bf' = 1 \/ bf' = -1 ->
  cavl c h -> avl (Node l a v bf' r) -> height (Node l a v bf' r) = h + 1 -> 0 <= h ->
  (forall b, b ∈ caddrs c ++ addrs (Node l a v bf r) -> b ∈ xs) ->
  exists s', (set_balance_factor a bf' ;; _insert_rebalance fuel a) s = Ok (tt, s') /\
    wf s' [] (ins_up c (Node l a v bf' r)) /\ touches xs s s'.
Proof.
  intros IH W Hbf' Hc Ha Hh Hh0 Hsub.
  destruct (wf_set_bf W bf') as (s1 & E1 & W1 & X1); [unfold bf_ok; lia|].
  rewrite (bind_Ok _ _ _ _ _ E1).
  destruct (IH _ _ h W1) as (s2 & E2 & W2 & X2);
    [done..|left; cbn [bfactor]; lia|].
  exists s2. split; [done|]. split; [done|].
  eapply touches_sub; [eapply touches_trans; touch|done].
Qed.

(** The walk ends at a rebuilt subtree. *)
Lemma ins_walk_stop c t t' xs (m : M (avl_tree T) Z) s s1 x :
  m s = Ok (x, s1) -> wf s1 c t -> t' = plug c t -> touches xs s s1 ->
  exists s', (m ;; ret tt) s = Ok (tt, s') /\ wf s' [] t' /\ touches xs s s'.
Proof.
  intros E W -> X. exists s1. rewrite (bind_Ok _ _ _ _ _ E). by rewrite wf_plug.
Qed.

Lemma ins_walk_left a v bf r c fuel :
  ins_walk_ok c fuel -> ins_walk_ok (FL a v bf r :: c) (S fuel).
Proof.
  intros IH t s h W Hl Hc Ht Hh Hh0 Hbf.
  pose proof (proj2 (wf_left _ _ _ _ _ _ _) W) as Wp.
  pose proof (wf_child_ne _ _ _ _ _ _ _ Wp Hl) as Hne.
  destruct Hc as (Hb & Hr & Ho & Hc). pose proof (height_nonneg r).
  destruct t as [|tl ta tv tb tr]; [done|]. cbn [_insert_rebalance root] in *.
  run1; cbn [cpar frame_addr]. rewrite (proj2 (Z.eqb_neq a 0)) by apply (wf_addr Wp).
  run1. run1. rewrite Hne. cbn [ins_up bfactor]. clear Hne.
  destruct (Z.ltb_spec bf 0); [run1; destruct (Z.ltb_spec 0 tb)|destruct (Z.ltb_spec 0 bf)].
  - destruct tr as [|b m x k d]; [simpl in *; pose proof (height_nonneg tl); lia|].
    destruct (rebalance_left_right_spec _ _ _ _ _ _ _ _ _ _ _ _ _ _ _ Wp)
      as (s1 & E1 & W1 & X1). eapply ins_walk_stop; [done..|touch].
  - destruct (rebalance_right_spec _ _ _ _ _ _ _ _ _ _ _ Wp) as (s1 & E1 & W1 & X1).
    eapply ins_walk_stop; [done..|touch].
  - destruct (wf_set_bf Wp 0) as (s1 & E1 & W1 & X1); [side|].
    exists s1. split; [done|]. split; [by apply wf_plug|]. touch.
  - replace bf with 0 in * by lia.
    eapply ins_walk_continue; [done..| |exact Hc| | | |];
      [by right|simpl in *; repeat split; tauto || lia|simpl in *; lia|lia|].
    intros b. cbn [caddrs addrs app]. repeat (rewrite elem_of_app || rewrite elem_of_cons). tauto.
Qed.

Lemma ins_walk_right l a v bf c fuel :
  ins_walk_ok c fuel -> ins_walk_ok (FR l a v bf :: c) (S fuel).
Proof.
  intros IH t s h W Hl Hc Ht Hh Hh0 Hbf.
  pose proof (proj2 (wf_right _ _ _ _ _ _ _) W) as Wp.
  destruct Hc as (Hb & Hr & Ho & Hc). pose proof (height_nonneg l).
  destruct t as [|tl ta tv tb tr]; [done|]. cbn [_insert_rebalance root] in *.
  run1; cbn [cpar frame_addr]. rewrite (proj2 (Z.eqb_neq a 0)) by apply (wf_addr Wp).
  run1. run1. cbn [root]. rewrite Z.eqb_refl. cbn [ins_up bfactor].
  destruct (Z.ltb_spec 0 bf); [run1; destruct (Z.ltb_spec tb 0)|destruct (Z.ltb_spec bf 0)].
  - destruct tl as [|b m x k d]; [simpl in *; pose proof (height_nonneg tr); lia|].
    destruct (rebalance_right_left_spec _ _ _ _ _ _ _ _ _ _ _ _ _ _ _ Wp)
      as (s1 & E1 & W1 & X1). eapply ins_walk_stop; [done..|touch].
  - destruct (rebalance_left_spec _ _ _ _ _ _ _ _ _ _ _ Wp) as (s1 & E1 & W1 & X1).
    eapply ins_walk_stop; [done..|touch].
  - destruct (wf_set_bf Wp 0) as (s1 & E1 & W1 & X1); [side|].
    exists s1. split; [done|]. split; [by apply wf_plug|]. touch.
  - replace bf with 0 in * by lia.
    eapply ins_walk_continue; [done..| |exact Hc| | | |];
      [by left|simpl in *; repeat split; tauto || lia|simpl in *; lia|lia|].
    intros b. cbn [caddrs addrs app]. repeat (rewrite elem_of_app || rewrite elem_of_cons). tauto.
Qed.

Lemma insert_rebalance_spec c fuel : (length c < fuel)%nat -> ins_walk_ok c fuel.
Proof.
  revert fuel. induction c as [|[a v bf r|l a v bf] c IH]; intros [|fuel] Hf;
    simpl in Hf; try lia.
  - intros t s h W Hl _ _ _ _ _. destruct t as [|l a v bf r]; [done|].
    cbn [_insert_rebalance root]. run1. exists s. split; [done|]. split; [done|]. apply touches_refl.
  - apply ins_walk_left, IH. lia.
  - apply ins_walk_right, IH. lia.
Qed.
End walk.

(** ** The descent and the linking *)

(** What the code relies on of a comparator. *)
Class StrictOrder_ {T} (comp : T -> T -> bool) : Prop := {
  comp_irrefl x : comp x x = false;
  comp_trans x y z : comp x y = true -> comp y z = true -> comp x z = true
}.

Section descent.
Context {T : Type} (comp : T -> T -> bool).
Implicit Types (t l r : tree T) (c : ctx T) (s : avl_tree T).

(** The turns taken on the way to the hole of [c] by the value [x]. *)
Fixpoint path_ok (x : T) c : Prop :=
  match c with
  | [] => True
  | FL _ v _ _ :: c' => comp x v = true /\ path_ok x c'
  | FR _ _ v _ :: c' => comp x v = false /\ comp v x = true /\ path_ok x c'
  end.

(** An object ready to be linked, at an address outside the tree. *)
Record fresh_node s (e : Z) (x : T) (xs : list Z) : Prop := {
  fresh_cell : mem s !! e = Some (mkElem 0 0 0 x);
  fresh_addr : addr_ok e;
  fresh_notin : e ∉ xs
}.

Lemma link_left s c a v bf r e x :
  wf s c (Node Leaf a v bf r) -> fresh_node s e x (caddrs c ++ addrs (Node Leaf a v bf r)) ->
  exists s', (set_left a e ;;
              let* n := get_left a in
              set_tree_parent n a ;;
              let* n := get_left a in ret (n, true)) s = Ok ((e, true), s') /\
    wf s' (FL a v bf r :: c) (Node Leaf e x 0 Leaf) /\
    touches (e :: caddrs c ++ addrs (Node Leaf a v bf r)) s s'.
Proof.
  intros [Hc Ht Hn Hr] [Hx Hax Hnx].
  apply (fun H => proj2 (NoDup_cons e _) (conj Hnx H)) in Hn. clear Hnx.
  change 0 with (tag 0 0) in Hx at 1. open.
  eexists; split; [exec|]. wf_close.
Qed.

Lemma link_right s c l a v bf e x :
  wf s c (Node l a v bf Leaf) -> fresh_node s e x (caddrs c ++ addrs (Node l a v bf Leaf)) ->
  exists s', (set_right a e ;;
              let* n := get_right a in
              set_tree_parent n a ;;
              let* n := get_right a in ret (n, true)) s = Ok ((e, true), s') /\
    wf s' (FR l a v bf :: c) (Node Leaf e x 0 Leaf) /\
    touches (e :: caddrs c ++ addrs (Node l a v bf Leaf)) s s'.
Proof.
  intros [Hc Ht Hn Hr] [Hx Hax Hnx].
  apply (fun H => proj2 (NoDup_cons e _) (conj Hnx H)) in Hn. clear Hnx.
  change 0 with (tag 0 0) in Hx at 1. open.
  eexists; split; [exec|]. wf_close.
Qed.

(** Where the descent ends: at an equivalent node, or at a hole. *)
Lemma insert_descend_spec t c s e x fuel :
  wf s c t -> t <> Leaf -> fresh_node s e x (caddrs c ++ addrs t) -> path_ok x c ->
  (depth t <= fuel)%nat ->
  (exists c' l a v bf r,
     insert_descend comp fuel e (root t) s = Ok ((a, false), s) /\
     plug c t = plug c' (Node l a v bf r) /\ comp x v = false /\ comp v x = false) \/
  (exists c' s',
     insert_descend comp fuel e (root t) s = Ok ((e, true), s') /\
     plug c t = plug c' Leaf /\ path_ok x c' /\
     wf s' c' (Node Leaf e x 0 Leaf) /\ touches (e :: caddrs c ++ addrs t) s s').
Proof.
  revert c s fuel. induction t as [|l IHl a v bf r IHr]; intros c s fuel W Hl Hf Hp Hd; [done|].
  destruct fuel as [|fuel]; simpl in Hd; [lia|]. cbn [insert_descend root].
  pose proof (deref_ok _ _ _ (fresh_cell _ _ _ _ Hf)) as Ee.
  rewrite (bind_Ok _ _ _ _ _ Ee). cbn [value]. run1.
  destruct (comp x v) eqn:E1; [|destruct (comp v x) eqn:E2].
  - run1. destruct l as [|l1 b w j l2].
    + cbn [root]. rewrite Z.eqb_refl. right.
      destruct (link_left _ _ _ _ _ _ _ _ W Hf) as (s' & Es & W' & X').
      exists (FL a v bf r :: c), s'. done.
    + pose proof (proj1 (wf_left _ _ _ _ _ _ _) W) as Wl.
      rewrite (proj2 (Z.eqb_neq _ 0)) by apply (wf_addr Wl).
      edestruct (IHl (FL a v bf r :: c) s fuel) as [(c'&?&?&?&?&?&?&?&?)|(c'&s'&?&?&?&?&?)];
        [done..| |by split|lia| |].
      * destruct Hf as [? ? Hn]. split; [done..|]. clear -Hn; cbn [caddrs addrs app] in *; revert Hn;
        repeat (rewrite elem_of_app || rewrite elem_of_cons); tauto.
      * left. eauto 10.
      * right. exists c', s'. do 4 (split; [done|]). touch.
  - run1. destruct r as [|r1 b w j r2].
    + cbn [root]. rewrite Z.eqb_refl. right.
      destruct (link_right _ _ _ _ _ _ _ _ W Hf) as (s' & Es & W' & X').
      exists (FR l a v bf :: c), s'. done.
    + pose proof (proj1 (wf_right _ _ _ _ _ _ _) W) as Wl.
      rewrite (proj2 (Z.eqb_neq _ 0)) by apply (wf_addr Wl).
      edestruct (IHr (FR l a v bf :: c) s fuel) as [(c'&?&?&?&?&?&?&?&?)|(c'&s'&?&?&?&?&?)];
        [done..| |by split|lia| |].
      * destruct Hf as [? ? Hn]. split; [done..|]. clear -Hn; cbn [caddrs addrs app] in *; revert Hn;
        repeat (rewrite elem_of_app || rewrite elem_of_cons); tauto.
      * left. eauto 10.
      * right. exists c', s'. do 4 (split; [done|]). touch.
  - left. exists c, l, a, v, bf, r. done.
Qed.
End descent.
