(* ===== verification/AvlErase.v ===== *)
(** * Iteration over and erasure from the AVL tree *)
From S2P Require Import Prelude AvlTree AvlSpec AvlRep AvlInsert.

(** The address an iterator to the first element of a sequence holds. *)
Definition first {T} (l : list (Z * T)) : Z :=
  match l with
  | [] => 0
  | (a, _) :: _ => a
  end.
Definition last_addr {T} (l : list (Z * T)) : Z := first (reverse l).

Definition is_left {T} (c : ctx T) : bool :=
  match c with
  | FL _ _ _ _ :: _ => true
  | _ => false
  end.

Section iteration.
Context {T : Type}.
Implicit Types (t l r : tree T) (c g : ctx T) (s : avl_tree T).

Lemma first_app (l1 l2 : list (Z * T)) :
  l1 <> [] -> first (l1 ++ l2) = first l1.
Proof. by destruct l1. Qed.
Lemma nodes_Node l a v bf r : nodes (Node l a v bf r) = nodes l ++ (a, v) :: nodes r.
Proof. done. Qed.
Lemma nodes_nonempty t : t <> Leaf -> nodes t <> [].
Proof. destruct t as [|l]; [done|]. simpl. by destruct (nodes l). Qed.

(** The path of left links from a node. *)
Definition all_left g : Prop := Forall (fun f => is_left [f] = true) g.

Lemma leftmost_spec t c s fuel :
  wf s c t -> t <> Leaf -> (depth t <= fuel)%nat ->
  exists g m x k d,
    leftmost fuel (root t) s = Ok (m, s) /\ t = plug g (Node Leaf m x k d) /\ all_left g /\
    first (nodes t) = m.
Proof.
  revert c fuel. induction t as [|l IHl a v bf r _]; intros c fuel W Hl Hd; [done|].
  destruct fuel as [|fuel]; simpl in Hd; [lia|]. cbn [leftmost root]. run1.
  destruct l as [|l1 b w j l2].
  - cbn [root]. rewrite Z.eqb_refl. exists [], a, v, bf, r. by repeat split; [..|constructor].
  - pose proof (proj1 (wf_left _ _ _ _ _ _ _) W) as Wl.
    rewrite (proj2 (Z.eqb_neq _ 0)) by apply (wf_addr Wl).
    destruct (IHl _ fuel Wl) as (g & m & x & k & d & E & Ht & Hg & Hm); [done|lia|].
    exists (g ++ [FL a v bf r]), m, x, k, d. split; [done|]. split.
    { rewrite Ht. by rewrite plug_app. }
    split; [by apply Forall_app; split; [|constructor]|].
    rewrite nodes_Node, first_app; [done|]. by apply nodes_nonempty.
Qed.

Lemma rightmost_spec t c s fuel :
  wf s c t -> t <> Leaf -> (depth t <= fuel)%nat ->
  rightmost fuel (root t) s = Ok (last_addr (nodes t), s).
Proof.
  revert c fuel. induction t as [|l _ a v bf r IHr]; intros c fuel W Hl Hd; [done|].
  destruct fuel as [|fuel]; simpl in Hd; [lia|]. cbn [rightmost root]. run1.
  unfold last_addr. rewrite nodes_Node, reverse_app, reverse_cons.
  destruct r as [|r1 b w j r2].
  - cbn [root]. rewrite Z.eqb_refl. done.
  - pose proof (proj1 (wf_right _ _ _ _ _ _ _) W) as Wr.
    rewrite (proj2 (Z.eqb_neq _ 0)) by apply (wf_addr Wr).
    erewrite IHr by (done || lia). unfold last_addr. rewrite <- app_assoc, first_app; [done|].
    intros E. apply (f_equal reverse) in E. rewrite reverse_involutive in E.
    by apply (nodes_nonempty (Node r1 b w j r2)).
Qed.

Lemma climb_next_spec c t s fuel :
  wf s c t -> t <> Leaf -> (S (length c) < fuel)%nat ->
  climb_next fuel (root t) s = Ok (first (rnodes c), s).
Proof.
  revert t fuel. induction c as [|f c IH]; intros t fuel W Ht Hf;
    (destruct t as [|tl ta tv tb tr]; [done|]); simpl in Hf;
    (destruct fuel as [|fuel]; [lia|]); cbn [climb_next root];
    rewrite (proj2 (Z.eqb_neq ta 0)) by apply (wf_addr W); run1; cbn [cpar].
  - rewrite Z.eqb_refl. by destruct fuel; [lia|].
  - destruct f as [a v bf r|l a v bf]; cbn [frame_addr].
    + apply wf_left in W. rewrite (proj2 (Z.eqb_neq a 0)) by apply (wf_addr W).
      run1. cbn [root]. rewrite Z.eqb_refl. done.
    + apply wf_right in W. rewrite (proj2 (Z.eqb_neq a 0)) by apply (wf_addr W).
      run1. pose proof (wf_child_eqb _ _ _ _ _ _ _ W Ht) as Hne.
      rewrite Z.eqb_sym in Hne. cbn [root] in Hne. rewrite Hne.
      apply (IH (Node l a v bf (Node tl ta tv tb tr)) fuel W); [done|lia].
Qed.

Lemma iterator_incr_spec s c l a v bf r :
  wf s c (Node l a v bf r) ->
  iterator_incr a s = Ok (first (nodes r ++ rnodes c), s).
Proof.
  intros W. pose proof (wf_fuel _ _ _ W) as Hf. simpl in Hf.
  unfold iterator_incr. erewrite bind_Ok by reflexivity. run1.
  destruct r as [|r1 b w j r2].
  - cbn [root nodes app]. rewrite Z.eqb_refl. apply (climb_next_spec c _ s _ W); [done|lia].
  - pose proof (proj1 (wf_right _ _ _ _ _ _ _) W) as Wr.
    rewrite (proj2 (Z.eqb_neq _ 0)) by apply (wf_addr Wr).
    destruct (leftmost_spec _ _ _ (fuel_of s) Wr) as (g&m&x&k&d&E&_&_&Hm); [done|lia|].
    rewrite E, first_app, Hm; [done|]. by apply nodes_nonempty.
Qed.
End iteration.

(** ** The rebalancing walk of [erase] *)

Section walk.
Context {T : Type}.
Implicit Types (t l r : tree T) (c g : ctx T) (s : avl_tree T).

(** The increment expression of the loop finds the next frame. *)
Lemma erase_continue s c t fuel :
  wf s c t -> t <> Leaf ->
  (let* parent := get_tree_parent (root t) in
   let* sl := (if parent =? 0 then ret false else
               let* n := get_left parent in ret (root t =? n)) in
   _erase_rebalance fuel parent sl) s
  = _erase_rebalance fuel (cpar c) (is_left c) s.
Proof.
  intros W Ht. destruct t as [|tl ta tv tb tr]; [done|]. cbn [root]. run1.
  destruct c as [|[a v bf r|l a v bf] c]; cbn [cpar frame_addr is_left].
  - rewrite Z.eqb_refl. by erewrite bind_Ok by reflexivity.
  - apply wf_left in W. rewrite (proj2 (Z.eqb_neq a 0)) by apply (wf_addr W).
    rewrite bind_assoc. run1. cbn [root]. rewrite Z.eqb_refl.
    by erewrite bind_Ok by reflexivity.
  - apply wf_right in W. rewrite (proj2 (Z.eqb_neq a 0)) by apply (wf_addr W).
    rewrite bind_assoc. run1.
    rewrite (wf_child_eqb _ _ _ _ _ _ _ W Ht : (ta =? root l) = false).
    by erewrite bind_Ok by reflexivity.
Qed.
End walk.

(** Closes the goals of one round of the walk. *)
Ltac members :=
  let a := fresh "a" in intros a;
  cbn [addrs caddrs app]; repeat (rewrite elem_of_app || rewrite elem_of_cons); tauto.
Ltac round_avl Hc :=
  first
    [ done | touch
    | eapply (eq_ind _ (cavl _)); [exact Hc|cbn [height]; lia]
    | cbn [avl height]; repeat split; try done; lia
    | members ].
Ltac stop_walk :=
  match goal with
  | W1 : wf ?s1 _ _ |- _ => exists s1; split; [done|]; split; [by apply wf_plug|]; touch
  end.

Section walk2.
Context {T : Type}.
Implicit Types (t l r : tree T) (c g : ctx T) (s : avl_tree T).

(** One round of the loop on a left-shortened and on a right-shortened
    parent, given the rounds above it. *)
Definition walk_ok c (fuel : nat) : Prop :=
  forall t s h, wf s c t -> cavl c h -> avl t -> height t + 1 = h ->
  exists s', _erase_rebalance fuel (cpar c) (is_left c) s = Ok (tt, s') /\
    wf s' [] (era_up c t) /\ touches (caddrs c ++ addrs t) s s'.

(** The walk goes on above a rebuilt subtree whose height shrank. *)
Lemma walk_continue c fuel s t t' xs (current : Z) s0 :
  walk_ok c fuel -> wf s c t' -> t' <> Leaf -> current = root t' ->
  cavl c (height t' + 1) -> avl t' -> touches xs s0 s ->
  (forall a, a ∈ caddrs c ++ addrs t' -> a ∈ xs) -> t = era_up c t' ->
  exists s', (let* parent := get_tree_parent current in
   let* sl := (if parent =? 0 then ret false else
               let* n := get_left parent in ret (current =? n)) in
   _erase_rebalance fuel parent sl) s = Ok (tt, s') /\
    wf s' [] t /\ touches xs s0 s'.
Proof.
  intros IH W Hl -> Hc Ha X Hsub ->. rewrite (erase_continue s c t') by done.
  destruct (IH t' s _ W Hc Ha eq_refl) as (s' & E & W' & X').
  exists s'. split; [done|]. split; [done|]. eapply touches_trans; [done|].
  by eapply touches_sub.
Qed.

Lemma walk_left a v bf r c fuel :
  walk_ok c fuel -> walk_ok (FL a v bf r :: c) (S fuel).
Proof.
  intros IH t s h W Hc Ht Hh. apply (proj2 (wf_left _ _ _ _ _ _ _)) in W.
  destruct Hc as (Hb & Hr & Ho & Hc).
  pose proof (height_nonneg t). pose proof (height_nonneg r).
  cbn [_erase_rebalance cpar frame_addr is_left era_up].
  rewrite (proj2 (Z.eqb_neq a 0)) by apply (wf_addr W). run1.
  destruct (Z.ltb_spec 0 bf); [|destruct (Z.eqb_spec bf 0)].
  - destruct r as [|r1 b w j r2]; [simpl in *; lia|].
    pose proof (proj1 (wf_right _ _ _ _ _ _ _) W) as Wr. run1. cbn [root]. run1.
    cbn [bfactor]. cbn [avl height] in Ho, Hb, Hc. destruct Ho as (Hj & Hj1 & Hr1 & Hr2).
    destruct (Z.ltb_spec j 0).
    + destruct r1 as [|b1 m x k d]; [simpl in *; pose proof (height_nonneg r2); lia|].
      destruct (rebalance_right_left_spec _ _ _ _ _ _ _ _ _ _ _ _ _ _ _ W)
        as (s1 & E1 & W1 & X1).
      rewrite (bind_Ok _ _ _ _ _ E1), (proj2 (Z.eqb_neq j 0)) by lia.
      cbn [height avl] in *. destruct Hr1 as (? & ? & ? & ?).
      cbn [reb_right_left] in *.
      bf_cases; (eapply walk_continue; [done|exact W1|..|done]); round_avl Hc.
    + destruct (rebalance_left_spec _ _ _ _ _ _ _ _ _ _ _ W) as (s1 & E1 & W1 & X1).
      rewrite (bind_Ok _ _ _ _ _ E1). pose proof (height_nonneg r1).
      destruct (Z.eqb_spec j 0); [stop_walk|].
      cbn [reb_left] in *. rewrite (proj2 (Z.eqb_neq j 0)) in * by done.
      (eapply walk_continue; [done|exact W1|..|done]); round_avl Hc.
  - destruct (wf_set_bf W 1) as (s1 & E1 & W1 & X1); [side|]. stop_walk.
  - destruct (wf_set_bf W 0) as (s1 & E1 & W1 & X1); [side|].
    rewrite (bind_Ok _ _ _ _ _ E1).
    (eapply walk_continue; [done|exact W1|..|done]); round_avl Hc.
Qed.

Lemma walk_right l a v bf c fuel :
  walk_ok c fuel -> walk_ok (FR l a v bf :: c) (S fuel).
Proof.
  intros IH t s h W Hc Ht Hh. apply (proj2 (wf_right _ _ _ _ _ _ _)) in W.
  destruct Hc as (Hb & Hr & Ho & Hc).
  pose proof (height_nonneg t). pose proof (height_nonneg l).
  cbn [_erase_rebalance cpar frame_addr is_left era_up].
  rewrite (proj2 (Z.eqb_neq a 0)) by apply (wf_addr W). run1.
  destruct (Z.ltb_spec bf 0); [|destruct (Z.eqb_spec bf 0)].
  - destruct l as [|r1 b w j r2]; [simpl in *; lia|].
    pose proof (proj1 (wf_left _ _ _ _ _ _ _) W) as Wr. run1. cbn [root]. run1.
    cbn [bfactor]. cbn [avl height] in Ho, Hb, Hc. destruct Ho as (Hj & Hj1 & Hr1 & Hr2).
    destruct (Z.ltb_spec 0 j).
    + destruct r2 as [|b1 m x k d]; [simpl in *; pose proof (height_nonneg r1); lia|].
      destruct (rebalance_left_right_spec _ _ _ _ _ _ _ _ _ _ _ _ _ _ _ W)
        as (s1 & E1 & W1 & X1).
      rewrite (bind_Ok _ _ _ _ _ E1), (proj2 (Z.eqb_neq j 0)) by lia.
      cbn [height avl] in *. destruct Hr2 as (? & ? & ? & ?).
      cbn [reb_left_right] in *.
      bf_cases; (eapply walk_continue; [done|exact W1|..|done]); round_avl Hc.
    + destruct (rebalance_right_spec _ _ _ _ _ _ _ _ _ _ _ W) as (s1 & E1 & W1 & X1).
      rewrite (bind_Ok _ _ _ _ _ E1). pose proof (height_nonneg r2).
      destruct (Z.eqb_spec j 0); [stop_walk|].
      cbn [reb_right] in *. rewrite (proj2 (Z.eqb_neq j 0)) in * by done.
      (eapply walk_continue; [done|exact W1|..|done]); round_avl Hc.
  - destruct (wf_set_bf W (-1)) as (s1 & E1 & W1 & X1); [side|]. stop_walk.
  - destruct (wf_set_bf W 0) as (s1 & E1 & W1 & X1); [side|].
    rewrite (bind_Ok _ _ _ _ _ E1).
    (eapply walk_continue; [done|exact W1|..|done]); round_avl Hc.
Qed.

Lemma erase_rebalance_spec c fuel : (length c < fuel)%nat -> walk_ok c fuel.
Proof.
  revert fuel. induction c as [|[a v bf r|l a v bf] c IH]; intros [|fuel] Hf;
    simpl in Hf; try lia.
  - intros t s h W _ _ _. exists s. split; [done|]. split; [done|]. apply touches_refl.
  - apply walk_left, IH. lia.
  - apply walk_right, IH. lia.
Qed.
End walk2.

(** ** Unlinking a node *)

Section unlink.
Context {T : Type}.
Implicit Types (t l r : tree T) (c g : ctx T) (s : avl_tree T).

Lemma croot_in c x : c <> [] -> croot c x ∈ caddrs c.
Proof.
  revert x. induction c as [|f c IH]; intros x Hc; [done|].
  destruct c as [|f' c]; [destruct f; simpl; set_solver|].
  assert (croot (f' :: c) (frame_addr f) ∈ caddrs (f' :: c)) by (by apply IH).
  destruct f; cbn [croot caddrs frame_addr]; set_solver.
Qed.

(** The unlinked node keeps its cell until it is released. *)
Definition keeps (a : Z) s s' : Prop := mem s' !! a = mem s !! a.

Lemma erase_single_spec s c l a v bf r (has_left : bool) :
  wf s c (Node l a v bf r) ->
  (if has_left then r = Leaf /\ l <> Leaf else l = Leaf) ->
  exists s', erase_single a has_left s = Ok ((cpar c, is_left c), s') /\
    wf s' c (if has_left then l else r) /\
    touches (caddrs c ++ addrs (Node l a v bf r)) s s' /\ keeps a s s'.
Proof.
  intros [Hc Ht Hn Hr] Hcase. pose proof (crep_par_ok _ _ _ Hc).
  assert (c <> [] -> _root s <> a) as Hra.
  { intros Hc0 Heq. pose proof (croot_in c a Hc0). rewrite Hr in Heq. simpl in Heq.
    rewrite Heq in H0. clear -Hn H0. apply NoDup_app in Hn as (_ & Hn & _).
    apply (Hn a H0). simpl. set_solver. }
  destruct c as [|[f fv fb fr|fl f fv fb] c]; [clear Hra|specialize (Hra ltac:(done))..];
    (destruct has_left; destruct_and?; subst;
      [destruct l as [|l1 l0 lv lb l2]; [done|]|destruct r as [|l1 l0 lv lb l2]]).
  all: open; (eexists; split; [unfold erase_single; exec|]);
    (split; [close_wf|split; [close_touch|unfold keeps; look]]).
Qed.

(** The right child takes the place; below another node the walk starts there. *)
Lemma erase_adjacent_inner s f c l a v bf n x k d :
  wf s (f :: c) (Node l a v bf (Node Leaf n x k d)) -> l <> Leaf ->
  exists s', erase_adjacent a s = Ok ((n, false), s') /\
    wf s' (f :: c) (Node l n x bf d) /\
    touches (caddrs (f :: c) ++ addrs (Node l a v bf (Node Leaf n x k d))) s s' /\ keeps a s s'.
Proof.
  intros [Hc Ht Hn Hr] Hl. pose proof (crep_par_ok _ _ _ Hc).
  destruct l as [|l1 l0 lv lb l2]; [done|].
  destruct f as [f fv fb fr|fl f fv fb].
  all: open; (eexists; split; [unfold erase_adjacent, erase_relink_parent; exec|]);
    (split; [close_wf|split; [close_touch|unfold keeps; look]]).
Qed.

(** At the root the code adjusts the factor itself, and rotates once when the
    left side was the higher one. *)
Lemma erase_adjacent_root s l a v bf n x k d :
  wf s [] (Node l a v bf (Node Leaf n x k d)) -> l <> Leaf -> bf_ok (bf - 1) ->
  exists s', erase_adjacent a s = Ok ((0, false), s') /\
    wf s' [] (if bf <? 0 then reb_right (Node l n x (bf - 1) d) else Node l n x (bf - 1) d) /\
    touches (addrs (Node l a v bf (Node Leaf n x k d))) s s' /\ keeps a s s'.
Proof.
  intros W Hl Hb.
  assert (exists s1, erase_adjacent a s =
      ((if bf <? 0 then _rebalance_right n ;; ret tt else ret tt) ;; ret (0, false)) s1 /\
    wf s1 [] (Node l n x (bf - 1) d) /\
    touches (addrs (Node l a v bf (Node Leaf n x k d))) s s1 /\ keeps a s s1)
    as (s1 & E1 & W1 & X1 & K1).
  { destruct W as [Hc Ht Hn Hr]. destruct l as [|l1 l0 lv lb l2]; [done|]. open.
    eexists; split; [unfold erase_adjacent, erase_relink_parent; exec; reflexivity|].
    split; [close_wf|split; [close_touch|unfold keeps; look]]. }
  rewrite E1. destruct (bf <? 0).
  - destruct l as [|l1 l0 lv lb l2]; [done|].
    destruct (rebalance_right_spec _ _ _ _ _ _ _ _ _ _ _ W1) as (s2 & E2 & W2 & X2).
    rewrite bind_assoc, (bind_Ok _ _ _ _ _ E2). exists s2.
    split; [done|]. split; [done|]. split; [eapply touches_trans; touch|].
    unfold keeps in *. rewrite <- K1. apply (touch_frame _ _ _ X2).
    pose proof (wf_nodup _ _ _ W) as Hn. simpl in *. clear -Hn.
    revert Hn. rewrite NoDup_cons. intros [Hn _]. revert Hn.
    repeat (rewrite elem_of_app || rewrite elem_of_cons). tauto.
  - exists s1. done.
Qed.
End unlink.

Section deep.
Context {T : Type}.
Implicit Types (t l r : tree T) (c g : ctx T) (s : avl_tree T).

Lemma wf_plug_app s g c t : wf s c (plug g t) <-> wf s (g ++ c) t.
Proof.
  revert t. induction g as [|f g IH]; intros t; [done|].
  cbn [plug app]. by rewrite IH, wf_fill.
Qed.

(** The successor [m], deeper in the right subtree, takes the place; the walk
    starts at its old parent. *)
Lemma erase_deep_spec s c l a v bf g m x k d q w j e :
  wf s (g ++ FL q w j e :: FR l a v bf :: c) (Node Leaf m x k d) -> l <> Leaf ->
  all_left g -> leftmost (fuel_of s) (croot g m) s = Ok (m, s) ->
  exists s', erase_deep a s = Ok ((gpar q g, true), s') /\
    wf s' (g ++ FL q w j e :: FR l m x bf :: c) d /\
    touches (caddrs (g ++ FL q w j e :: FR l a v bf :: c) ++ addrs (Node Leaf m x k d)) s s' /\
    keeps a s s'.
Proof.
  intros [Hc Ht Hn Hr] Hl Hg E. destruct l as [|l1 l0 lv lb l2]; [done|].
  destruct g as [|[b bv bb br|] g]; [| |by apply Forall_cons in Hg as [? _]].
  - cbn [app] in *. assert (par_ok (cpar c)) by (rep_split; by eapply crep_par_ok).
    destruct d as [|d1 d0 dv db d2]; destruct c as [|[f fv fb fr|fl f fv fb] c].
    all: open; (eexists; split; [unfold erase_deep, erase_relink_parent; exec;
      rewrite (bind_Ok _ _ _ _ _ E); cbv beta; exec|]).
    all: split; [close_wf|split; [close_touch|unfold keeps; look]].
  - cbn [app caddrs croot frame_addr gpar] in *.
    destruct Hc as (Hb & Hab & Hbb & Hbr & Hc). rewrite cpar_app in Hb.
    apply crep_app in Hc as [Hseg Hc]. rewrite caddrs_app in *. rewrite croot_app in Hr.
    assert (par_ok (cpar c)) by (rep_split; by eapply crep_par_ok).
    destruct d as [|d1 d0 dv db d2]; destruct c as [|[f fv fb fr|fl f fv fb] c].
    all: open; (eexists; split; [unfold erase_deep, erase_relink_parent; exec;
      rewrite (bind_Ok _ _ _ _ _ E); cbv beta; exec|]).
    all: split; [|split; [close_touch|unfold keeps; look]].
    all: constructor; [cbn [app crep]; rewrite cpar_app, crep_app; cells|cells| |].
    all: cbn [app caddrs addrs]; rewrite ?caddrs_app; cbn [app caddrs addrs].
    all: first [nodup_count|cbn [app croot frame_addr]; rewrite croot_app; cbn; congruence].
Qed.
End deep.

(** ** The whole of [erase] *)

Section whole.
Context {T : Type}.
Implicit Types (t l r : tree T) (c g : ctx T) (s : avl_tree T).

(** The commands after the unlinking. *)
Definition erase_end (a it base : Z) (sl : bool) : M (avl_tree T) Z :=
  (if base =? 0 then ret tt else
   let* fuel := gets fuel_of in
   _erase_rebalance (S fuel) base sl) ;;
  release a ;;
  modify (fun s => set_size (u64 (_size s - 1)) s) ;;
  ret it.

Lemma erase_end_spec s c t a it :
  wf s c t -> cavl c (height t + 1) -> avl t -> is_Some (mem s !! a) ->
  a ∉ caddrs c ++ addrs t ->
  exists s', erase_end a it (cpar c) (is_left c) s = Ok (it, s') /\
    wf s' [] (era_up c t) /\ avl (era_up c t) /\ _size s' = u64 (_size s - 1) /\
    freed s' = a :: freed s /\ frames (a :: caddrs c ++ addrs t) s s'.
Proof.
  intros W Hc Ht Ha Hn.
  assert (exists s1, (if cpar c =? 0 then ret tt else
      let* fuel := gets fuel_of in _erase_rebalance (S fuel) (cpar c) (is_left c)) s
      = Ok (tt, s1) /\ wf s1 [] (era_up c t) /\ touches (caddrs c ++ addrs t) s s1)
    as (s1 & E1 & W1 & X1).
  { destruct c as [|f c].
    - exists s. split; [done|]. split; [done|]. apply touches_refl.
    - pose proof (wf_ctx _ _ _ W) as Hcx.
      destruct (Z.eqb_spec (cpar (f :: c)) 0) as [E|_].
      { exfalso. destruct f; simpl in *; destruct Hcx as (_ & [_ H] & _); done. }
      erewrite bind_Ok by reflexivity.
      eapply (erase_rebalance_spec (f :: c)); [|done..|lia].
      apply wf_fuel in W. lia. }
  destruct X1 as [F1 S1 D1]. assert (is_Some (mem s1 !! a)) as [e He] by (by rewrite F1).
  unfold erase_end. rewrite (bind_Ok _ _ _ _ _ E1).
  eexists. split; [unfold release, bind; by rewrite He|].
  assert (a ∉ addrs (era_up c t)) as Ha'.
  { rewrite addrs_nodes, nodes_era_up, <- caddrs_nodes. done. }
  split; [eapply wf_ext; [done|done|]; intros b Hb; apply lookup_delete_ne; simpl in Hb; set_solver|].
  split; [by eapply era_up_avl|].
  cbn [_size freed set_size]. rewrite S1, D1. split; [done|]. split; [done|].
  intros b Hb. cbn. rewrite lookup_delete_ne, F1 by set_solver. done.
Qed.

(** The shape on which the code performs a single instead of a double
    rotation: the root, heavy on the left, whose left child is heavy on the
    right and whose right child has no left child. *)
Definition erase_bad c l (bf : Z) r : bool :=
  match c, r with
  | [], Node Leaf _ _ _ _ => (bf <? 0) && (0 <? bfactor l)
  | _, _ => false
  end.
End whole.
