(* ===== verification/AvlLaws.v ===== *)
(** * What the AVL tree promises

    [avl_state comp s l]: the state [s] holds a balanced search tree whose
    in-order sequence of objects is [l].  The theorems say what each operation
    does to that sequence. *)
From S2P Require Import Prelude AvlTree AvlSpec AvlRep AvlInsert AvlErase.

Definition sorted_by {T} (comp : T -> T -> bool) : list (Z * T) -> Prop :=
  StronglySorted (fun p q => comp p.2 q.2 = true).

Record avl_state {T} (comp : T -> T -> bool) (s : avl_tree T) (l : list (Z * T)) : Prop := {
  avl_tree_of : exists t, wf s [] t /\ avl t /\ nodes t = l;
  avl_sorted : sorted_by comp l;
  avl_size : _size s = u64 (Z.of_nat (length l))
}.

Section laws.
Context {T : Type} (comp : T -> T -> bool) `{!StrictOrder_ comp}.
Implicit Types (t : tree T) (c : ctx T) (s : avl_tree T).

(** The turns of a descent place the value between the two sides. *)
Lemma path_bounds x c mid :
  sorted_by comp (lnodes c ++ mid ++ rnodes c) -> path_ok comp x c ->
  Forall (fun p => comp p.2 x = true) (lnodes c) /\
  Forall (fun p => comp x p.2 = true) (rnodes c).
Proof.
  revert mid. induction c as [|[a v bf r|l a v bf] c IH]; intros mid Hs Hp; simpl in *.
  - by split.
  - destruct Hp as [Hp1 Hp2].
    destruct (IH (mid ++ (a, v) :: nodes r)) as [H1 H2]; [by norm_app|done|].
    split; [done|]. constructor; [done|]. apply Forall_app. split; [|done].
    apply sorted_app in Hs as (_ & Hs & _). apply sorted_app in Hs as (_ & Hs & _).
    apply StronglySorted_inv in Hs as [_ Hs]. apply Forall_app in Hs as [Hs _].
    eapply Forall_impl; [exact Hs|]. simpl. intros y Hy. by eapply comp_trans.
  - destruct Hp as (Hp1 & Hp2 & Hp3).
    destruct (IH (nodes l ++ (a, v) :: mid)) as [H1 H2]; [revert Hs; by norm_app|done|].
    split; [|done]. apply Forall_app. split; [done|]. apply Forall_app. split; [|by constructor].
    apply sorted_app in Hs as (Hs & _ & _). apply sorted_app in Hs as (_ & Hs & _).
    apply sorted_app in Hs as (_ & _ & Hs).
    eapply Forall_impl; [exact Hs|]. intros y Hy. apply Forall_cons in Hy as [Hy _].
    by eapply comp_trans.
Qed.

(** Linking a first object. *)
Lemma wf_single s e x :
  fresh_node s e x [] -> wf (set_root e s) [] (Node Leaf e x 0 Leaf).
Proof.
  intros [Hx Ha _]. change 0 with (tag 0 0) in Hx at 1. constructor; [cells|cells| |done].
  simpl. apply NoDup_singleton.
Qed.

Lemma size_succ (n : nat) : u64 (u64 (Z.of_nat n) + 1) = u64 (Z.of_nat (S n)).
Proof.
  unfold u64, wrapu. rewrite Zplus_mod_idemp_l. f_equal. lia.
Qed.
Lemma size_pred (n : nat) : u64 (u64 (Z.of_nat (S n)) - 1) = u64 (Z.of_nat n).
Proof.
  unfold u64, wrapu. rewrite Zminus_mod_idemp_l. f_equal. lia.
Qed.

(** The insertion, on a tree. *)
Lemma insert_tree s t e x :
  wf s [] t -> avl t -> fresh_node s e x (addrs t) ->
  (exists c l a v bf r s',
     t = plug c (Node l a v bf r) /\ comp x v = false /\ comp v x = false /\
     insert comp e s = Ok ((a, false), s') /\ wf s' [] t /\
     _size s' = _size s /\ freed s' = e :: freed s) \/
  (exists c t' s',
     t = plug c Leaf /\ path_ok comp x c /\
     insert comp e s = Ok ((e, true), s') /\ wf s' [] t' /\ avl t' /\
     nodes t' = nodes (plug c (Node Leaf e x 0 Leaf)) /\
     _size s' = u64 (_size s + 1) /\ freed s' = freed s /\ frames (e :: addrs t) s s').
Proof.
  intros W Ha Hf. unfold insert. erewrite bind_Ok by reflexivity.
  rewrite (wf_root _ _ _ W). cbn [croot].
  destruct t as [|l a v bf r].
  - right. exists [], (Node Leaf e x 0 Leaf). eexists. cbn [root]. rewrite Z.eqb_refl.
    do 2 (split; [done|]). split; [reflexivity|].
    split; [by apply (wf_ext (set_root e s)); [apply wf_single|..]|].
    split; [simpl; lia|]. done.
  - rewrite (proj2 (Z.eqb_neq _ 0)) by apply (wf_addr W).
    erewrite bind_Ok by reflexivity.
    pose proof (wf_fuel _ _ _ W) as Hfuel. simpl in Hfuel.
    destruct (insert_descend_spec comp _ [] s e x (fuel_of s) W) as
      [(c&l'&a'&v'&bf'&r'&E&Hp&Hx1&Hx2)|(c&s1&E&Hp&Hx&W1&X1)];
      [done|done|done|simpl; lia|left|right]; rewrite (bind_Ok _ _ _ _ _ E); simpl in Hp.
    + exists c, l', a', v', bf', r'. destruct Hf as [Hc _ Hn].
      eexists. do 3 (split; [done|]). split; [unfold release, bind; by rewrite Hc|].
      split; [|done]. eapply wf_ext; [done|done|]. intros b Hb. cbn.
      apply lookup_delete_ne. set_solver.
    + assert (avl (plug c Leaf)) as Hc by (by rewrite <- Hp). apply plug_avl in Hc as [Hc _].
      assert (length c < fuel_of s)%nat as Hcf.
      { assert (length (caddrs c) = length (addrs (Node l a v bf r))) as Hlen.
        { rewrite Hp. rewrite (Permutation_length (addrs_nodes _)).
          rewrite <- (Permutation_length (caddrs_nodes c Leaf)). by rewrite app_nil_r. }
        pose proof (length_ctx c). apply wf_length in W. unfold fuel_of.
        rewrite length_app in W. simpl in *. lia. }
      destruct (insert_rebalance_spec c _ Hcf (Node Leaf e x 0 Leaf) s1 0 W1)
        as (s2 & E2 & W2 & X2); [done|done|simpl; lia|done|lia|by right|].
      cbn [root] in E2. rewrite (bind_Ok _ _ _ _ _ E2). eexists c, (ins_up c _), _.
      do 2 (split; [done|]). split; [reflexivity|].
      split; [by eapply wf_ext|].
      split; [by eapply (ins_up_avl _ _ 0); [done|simpl; lia|done|lia|right]|].
      split; [apply nodes_ins_up|]. destruct X1 as [F1 S1 D1], X2 as [F2 S2 D2].
      split; [cbn; by rewrite S2, S1|]. split; [cbn; by rewrite D2, D1|].
      intros b Hb. cbn [mem set_size]. rewrite F2; [apply F1; set_solver|].
      rewrite caddrs_nodes, nodes_plug. simpl.
      rewrite Hp, addrs_nodes, nodes_plug in Hb. simpl in Hb. set_solver.
Qed.
End laws.

Section erase.
Context {T : Type}.
Implicit Types (t l r : tree T) (c g : ctx T) (s : avl_tree T).

(** What the erasure of the node at the focus leaves. *)
Definition erased c l (a : Z) (bf : Z) r s s' : Prop :=
  exists t',
    wf s' [] t' /\ nodes t' = lnodes c ++ nodes l ++ nodes r ++ rnodes c /\
    (if erase_bad c l bf r then ~ avl t' else avl t') /\
    _size s' = u64 (_size s - 1) /\ freed s' = a :: freed s /\
    frames (caddrs c ++ a :: addrs l ++ addrs r) s s'.

Lemma wf_focus_notin s c l a v bf r :
  wf s c (Node l a v bf r) -> a ∉ caddrs c ++ addrs l ++ addrs r.
Proof. intros [_ _ Hn _]. simpl in Hn. notin. Qed.

(** From the unlinked state to the end, when the walk runs. *)
Lemma erase_finish s s1 c l a v bf r c' t it :
  wf s c (Node l a v bf r) ->
  touches (caddrs c ++ addrs (Node l a v bf r)) s s1 -> keeps a s s1 ->
  wf s1 c' t -> cavl c' (height t + 1) -> avl t ->
  caddrs c' ++ addrs t ≡ₚ caddrs c ++ addrs l ++ addrs r ->
  nodes (plug c' t) = lnodes c ++ nodes l ++ nodes r ++ rnodes c ->
  erase_bad c l bf r = false ->
  exists s', erase_end a it (cpar c') (is_left c') s1 = Ok (it, s') /\ erased c l a bf r s s'.
Proof.
  intros W [F1 S1 D1] K W1 Hc Ht Hp Hnodes Hbad.
  destruct (erase_end_spec s1 c' t a it W1 Hc Ht) as (s' & E & W' & A' & S' & D' & F').
  - rewrite K, (wf_cell W). done.
  - rewrite Hp. by eapply wf_focus_notin.
  - exists s'. split; [done|]. exists (era_up c' t). rewrite Hbad, S', D', S1, D1.
    split; [done|]. split; [by rewrite nodes_era_up|]. do 3 (split; [done|]).
    intros b Hb. rewrite F'; [apply F1|].
    + revert Hb. simpl. repeat (rewrite elem_of_app || rewrite elem_of_cons). tauto.
    + rewrite Hp. revert Hb. simpl. repeat (rewrite elem_of_app || rewrite elem_of_cons). tauto.
Qed.

Lemma nz_eqb s c l a v bf r : wf s c (Node l a v bf r) -> (a =? 0) = false.
Proof. intros W. apply Z.eqb_neq, (wf_addr W). Qed.

(** At most one child. *)
Lemma erase_case_single s c l a v bf r it (hl : bool) :
  wf s c (Node l a v bf r) -> avl (plug c (Node l a v bf r)) ->
  (if hl then r = Leaf /\ l <> Leaf else l = Leaf) ->
  exists s', (let* (base, sl) := erase_single a hl in erase_end a it base sl) s = Ok (it, s') /\
    erased c l a bf r s s'.
Proof.
  intros W Ha Hcase. apply plug_avl in Ha as [Hc Ha]. simpl in Ha, Hc.
  destruct (erase_single_spec s c l a v bf r hl W Hcase) as (s1 & E1 & W1 & X1 & K1).
  rewrite (bind_Ok _ _ _ _ _ E1).
  eapply erase_finish; [done..| | | | |].
  - eapply (eq_ind _ (cavl c)); [exact Hc|].
    destruct hl; destruct_and?; subst; simpl; [pose proof (height_nonneg l)|pose proof (height_nonneg r)]; lia.
  - destruct hl; tauto.
  - destruct hl; destruct_and?; subst; simpl; by rewrite ?app_nil_r.
  - rewrite nodes_plug. destruct hl; destruct_and?; subst; simpl; by rewrite ?app_nil_r.
  - unfold erase_bad. destruct c; [|done]. destruct hl; destruct_and?; subst; [done|].
    destruct r as [|[]]; try done. simpl. by rewrite andb_false_r.
Qed.

(** Two children, adjacent successor, below another node. *)
Lemma erase_case_inner s f c l a v bf n x k d it :
  wf s (f :: c) (Node l a v bf (Node Leaf n x k d)) ->
  avl (plug (f :: c) (Node l a v bf (Node Leaf n x k d))) -> l <> Leaf ->
  exists s', (let* (base, sl) := erase_adjacent a in erase_end a it base sl) s = Ok (it, s') /\
    erased (f :: c) l a bf (Node Leaf n x k d) s s'.
Proof.
  intros W Ha Hl. apply plug_avl in Ha as [Hc Ha]. cbn [avl height] in Ha, Hc.
  destruct (erase_adjacent_inner _ _ _ _ _ _ _ _ _ _ _ W Hl) as (s1 & E1 & W1 & X1 & K1).
  rewrite (bind_Ok _ _ _ _ _ E1). apply wf_right in W1. pose proof (height_nonneg d).
  eapply (erase_finish s s1 (f :: c) l a v bf _ (FR l n x bf :: f :: c) d); [done..| | | | |done].
  - cbn [cavl]. destruct Ha as (? & ? & ? & ?). repeat split; try done; try lia.
    eapply (eq_ind _ (cavl (f :: c))); [exact Hc|lia].
  - tauto.
  - cbn [addrs caddrs app]. solve_Permutation.
  - rewrite nodes_plug. cbn [lnodes rnodes nodes app]. by norm_app.
Qed.

(** Two children, adjacent successor, at the root. *)
Lemma erase_case_root s l a v bf n x k d it :
  wf s [] (Node l a v bf (Node Leaf n x k d)) ->
  avl (Node l a v bf (Node Leaf n x k d)) -> l <> Leaf ->
  exists s', (let* (base, sl) := erase_adjacent a in erase_end a it base sl) s = Ok (it, s') /\
    erased [] l a bf (Node Leaf n x k d) s s'.
Proof.
  intros W Ha Hl.
  destruct (erase_adjacent_root _ _ _ _ _ _ _ _ _ W Hl) as (s1 & E1 & W1 & X1 & K1).
  { cbn [avl] in Ha. unfold bf_ok. lia. }
  rewrite (bind_Ok _ _ _ _ _ E1).
  set (t' := if bf <? 0 then _ else _) in W1.
  assert (nodes t' = nodes l ++ (n, x) :: nodes d) as Hnodes.
  { unfold t'. case_match; autorewrite with avl_nodes; done. }
  assert (a ∉ addrs t') as Hna.
  { rewrite addrs_nodes, Hnodes. apply wf_focus_notin in W. simpl in W.
    rewrite fmap_app, fmap_cons, <- !addrs_nodes. simpl. set_solver. }
  destruct X1 as [F1 S1 D1].
  eexists. split.
  { unfold erase_end, bind, release, ret. cbn. unfold keeps in K1.
    rewrite K1, (wf_cell W). reflexivity. }
  exists t'. split; [|split; [|split; [|split; [|split]]]].
  - eapply wf_ext; [done|done|]. intros b Hb. cbn. apply lookup_delete_ne. simpl in Hb. set_solver.
  - rewrite Hnodes. cbn. by rewrite app_nil_r.
  - unfold t', erase_bad. cbn [avl height] in Ha. pose proof (height_nonneg d).
    destruct Ha as (Hbf & Hb1 & Hal & Hk & Hk1 & _ & Had).
    destruct (Z.ltb_spec bf 0); cbn [andb]; [|cbn [avl]; repeat split; try done; lia].
    destruct l as [|l1 q w j l2]; [done|]. cbn [reb_right bfactor].
    cbn [avl height] in *. destruct Hal as (? & ? & ? & ?).
    pose proof (height_nonneg l1); pose proof (height_nonneg l2).
    destruct (Z.ltb_spec 0 j); destruct (Z.eqb_spec j 0); cbn [avl height]; try lia;
      repeat split; try done; lia.
  - cbn. by rewrite S1.
  - cbn. by rewrite D1.
  - intros b Hb. cbn in *. rewrite lookup_delete_ne by set_solver. apply F1. cbn. set_solver.
Qed.

(** Two children, the successor deeper in the right subtree. *)
Lemma cavl_relabel g f l a v n x bf c h :
  cavl (g ++ f :: FR l a v bf :: c) h -> cavl (g ++ f :: FR l n x bf :: c) h.
Proof.
  revert h. induction g as [|f' g IH]; intros h; simpl; [by destruct f|].
  destruct f'; intros (? & ? & ? & ?); by auto.
Qed.
Lemma all_left_app g q w j e c :
  all_left g -> is_left (g ++ FL q w j e :: c) = true.
Proof. intros Hg. destruct g as [|f g]; [done|]. apply Forall_cons in Hg as [Hg _]. by destruct f. Qed.
Lemma all_left_lnodes g : all_left g -> lnodes g = [].
Proof.
  induction g as [|f g IH]; intros Hg; [done|]. apply Forall_cons in Hg as [Hf Hg].
  destruct f; [by apply IH|done].
Qed.

Lemma addrs_plug g t : addrs (plug g t) ≡ₚ caddrs g ++ addrs t.
Proof. by rewrite addrs_nodes, <- caddrs_nodes. Qed.

Lemma erase_case_deep s c l a v bf rl q w j e it :
  wf s c (Node l a v bf (Node rl q w j e)) ->
  avl (plug c (Node l a v bf (Node rl q w j e))) -> l <> Leaf -> rl <> Leaf ->
  exists s', (let* (base, sl) := erase_deep a in erase_end a it base sl) s = Ok (it, s') /\
    erased c l a bf (Node rl q w j e) s s'.
Proof.
  intros W Ha Hl Hrl. pose proof (wf_fuel _ _ _ W) as Hf. simpl in Hf.
  pose proof (proj1 (wf_left _ _ _ _ _ _ _) (proj1 (wf_right _ _ _ _ _ _ _) W)) as W0.
  destruct (leftmost_spec rl _ s (fuel_of s) W0) as (g & m & x & k & d & E & -> & Hg & _);
    [done|lia|].
  rewrite root_plug_croot in E. apply wf_plug_app in W0.
  destruct (erase_deep_spec _ _ _ _ _ _ _ _ _ _ _ _ _ _ _ W0 Hl Hg E) as (s1 & E1 & W1 & X1 & K1).
  rewrite (bind_Ok _ _ _ _ _ E1). pose proof (height_nonneg d).
  set (c' := g ++ FL q w j e :: FR l m x bf :: c) in W1.
  replace (gpar q g) with (cpar c') by (unfold c'; by rewrite cpar_app).
  replace true with (is_left c') by (by apply all_left_app).
  assert (avl (plug (g ++ FL q w j e :: FR l a v bf :: c) (Node Leaf m x k d))) as Ha'
    by (rewrite plug_app; done).
  apply plug_avl in Ha' as [Hc Ht]. cbn [avl height] in Hc, Ht.
  eapply (erase_finish s s1 c l a v bf _ c' d); [done| |done|done| | | | |].
  - eapply touches_sub; [done|]. intros b. rewrite caddrs_app.
    cbn [addrs caddrs app]. rewrite addrs_plug. cbn [addrs app].
    repeat (rewrite elem_of_app || rewrite elem_of_cons). tauto.
  - apply (cavl_relabel _ _ _ a v). eapply (eq_ind _ (cavl _)); [exact Hc|lia].
  - tauto.
  - unfold c'. rewrite caddrs_app. cbn [addrs caddrs app]. rewrite addrs_plug. cbn [addrs app].
    solve_Permutation.
  - unfold c'. rewrite plug_app. cbn [plug fill]. rewrite nodes_plug. cbn [nodes].
    rewrite !nodes_plug, (all_left_lnodes _ Hg). cbn [nodes app]. by norm_app.
  - unfold erase_bad. destruct c; [|done]. destruct (plug g _) as [|] eqn:Hp; [|done]. done.
Qed.

(** The erasure, on a tree. *)
Lemma erase_tree s c l a v bf r :
  wf s c (Node l a v bf r) -> avl (plug c (Node l a v bf r)) ->
  exists s', erase a s = Ok (first (nodes r ++ rnodes c), s') /\ erased c l a bf r s s'.
Proof.
  intros W Ha. unfold erase. rewrite (bind_Ok _ _ _ _ _ (iterator_incr_spec _ _ _ _ _ _ _ W)).
  run1. run1. fold (@erase_end T).
  destruct l as [|l1 b y j l2].
  { cbn [root]. rewrite Z.eqb_refl. by eapply erase_case_single. }
  cbn [root]. rewrite (nz_eqb _ _ _ _ _ _ _ (proj1 (wf_left _ _ _ _ _ _ _) W)).
  destruct r as [|rl q w k e].
  { cbn [root]. rewrite Z.eqb_refl. by eapply erase_case_single. }
  pose proof (proj1 (wf_right _ _ _ _ _ _ _) W) as Wr.
  cbn [root]. rewrite (nz_eqb _ _ _ _ _ _ _ Wr). cbn [negb andb].
  rewrite bind_assoc. run1.
  destruct rl as [|rl1 z u i rl2].
  - cbn [root]. rewrite Z.eqb_refl. destruct c as [|f c].
    + by eapply erase_case_root.
    + by eapply erase_case_inner.
  - cbn [root]. rewrite (nz_eqb _ _ _ _ _ _ _ (proj1 (wf_left _ _ _ _ _ _ _) Wr)).
    by eapply erase_case_deep.
Qed.
End erase.
