(* ===== verification/AvlSearch.v ===== *)
(** * Lookup in, self check and destruction of the AVL tree *)
From S2P Require Import Prelude AvlTree AvlSpec AvlRep AvlInsert AvlErase AvlLaws.

(** What the lookups rely on of the two mixed overloads of a comparator.  The
    first three laws are enough to find an object that is neither below nor
    above the key; with the last one there is at most one. *)
Class KeyBounds {T Key} (comp : T -> T -> bool)
    (key_less : Key -> T -> bool) (less_key : T -> Key -> bool) : Prop := {
  key_asym k v : key_less k v = true -> less_key v k = false;
  key_above k v w : key_less k v = true -> comp v w = true -> key_less k w = true;
  key_below k v w : less_key w k = true -> comp v w = true -> less_key v k = true
}.
Class KeyOrder {T Key} (comp : T -> T -> bool)
    (key_less : Key -> T -> bool) (less_key : T -> Key -> bool) : Prop := {
  key_bounds :: KeyBounds comp key_less less_key;
  key_split k v w : comp v w = true -> less_key v k = true \/ key_less k w = true
}.

(** Objects ordered by a number of theirs, the keys being such numbers. *)
Section by_number.
Context {T : Type} (num : T -> Z).
Definition num_comp (x y : T) : bool := num x <? num y.
Definition num_key_less (k : Z) (x : T) : bool := k <? num x.
Definition num_less_key (x : T) (k : Z) : bool := num x <? k.

#[export] Instance num_strict : StrictOrder_ num_comp.
Proof. split; unfold num_comp; intros; rewrite ?Z.ltb_lt, ?Z.ltb_ge in *; lia. Qed.
#[export] Instance num_key_order : KeyOrder num_comp num_key_less num_less_key.
Proof.
  split; [split|]; unfold num_comp, num_key_less, num_less_key; intros;
    rewrite ?Z.ltb_lt, ?Z.ltb_ge in *; lia.
Qed.
End by_number.

Section search.
Context {T Key : Type} (comp : T -> T -> bool).
Context (key_less : Key -> T -> bool) (less_key : T -> Key -> bool).
Context `{!StrictOrder_ comp, !KeyBounds comp key_less less_key}.
Implicit Types (t l r : tree T) (c : ctx T) (s : avl_tree T) (k : Key).

(** The reference: the first object that is neither less nor greater than
    the key; the first that is not less; the first that is greater. *)
Definition equal_key k (p : Z * T) : bool := negb (key_less k p.2) && negb (less_key p.2 k).
Definition find_ref k (l : list (Z * T)) : Z := first (filter (fun p : Z * T => equal_key k p = true) l).
Definition lower_ref k (l : list (Z * T)) : Z :=
  first (filter (fun p : Z * T => less_key p.2 k = false) l).
Definition upper_ref k (l : list (Z * T)) : Z :=
  first (filter (fun p : Z * T => key_less k p.2 = true) l).

(** Objects left of a path are below the key, objects right of it above. *)
Definition between k c : Prop :=
  Forall (fun p : Z * T => less_key p.2 k = true) (lnodes c) /\
  Forall (fun p : Z * T => key_less k p.2 = true) (rnodes c).

Lemma below_not_equal k (xs : list (Z * T)) :
  Forall (fun p : Z * T => less_key p.2 k = true) xs -> filter (fun p : Z * T => equal_key k p = true) xs = [].
Proof.
  intros H. induction H as [|[a v] xs Hx _ IH]; [done|].
  rewrite filter_cons_False; [done|]. unfold equal_key. simpl in *. rewrite Hx.
  by rewrite andb_false_r.
Qed.
Lemma above_not_equal k (xs : list (Z * T)) :
  Forall (fun p : Z * T => key_less k p.2 = true) xs -> filter (fun p : Z * T => equal_key k p = true) xs = [].
Proof.
  intros H. induction H as [|[a v] xs Hx _ IH]; [done|].
  rewrite filter_cons_False; [done|]. unfold equal_key. simpl in *. by rewrite Hx.
Qed.
Lemma below_not_lower k (xs : list (Z * T)) :
  Forall (fun p : Z * T => less_key p.2 k = true) xs -> filter (fun p : Z * T => less_key p.2 k = false) xs = [].
Proof.
  intros H. induction H as [|[a v] xs Hx _ IH]; [done|].
  rewrite filter_cons_False; [done|]. simpl in *. by rewrite Hx.
Qed.
Lemma below_not_upper k (xs : list (Z * T)) :
  Forall (fun p : Z * T => less_key p.2 k = true) xs -> filter (fun p : Z * T => key_less k p.2 = true) xs = [].
Proof.
  intros H. induction H as [|[a v] xs Hx _ IH]; [done|].
  rewrite filter_cons_False; [done|]. simpl in *. intros Hk.
  apply key_asym in Hk. congruence.
Qed.
Lemma above_lower k (xs : list (Z * T)) :
  Forall (fun p : Z * T => key_less k p.2 = true) xs -> filter (fun p : Z * T => less_key p.2 k = false) xs = xs.
Proof.
  intros H. induction H as [|[a v] xs Hx _ IH]; [done|].
  rewrite filter_cons_True; [by rewrite IH|]. by apply key_asym.
Qed.

(** What a comparison at a node says of the objects on either side. *)
Lemma between_left k c l a v bf r :
  sorted_by comp (nodes (plug c (Node l a v bf r))) -> between k c ->
  key_less k v = true -> between k (FL a v bf r :: c).
Proof.
  intros Hs [H1 H2] Hk. split; [done|]. simpl. constructor; [done|]. apply Forall_app.
  split; [|done]. rewrite nodes_plug in Hs. unfold sorted_by in Hs.
  rewrite !sorted_app in Hs. simpl in Hs. rewrite sorted_app in Hs.
  destruct Hs as (_ & ((_ & Hs & _) & _) & _). apply StronglySorted_inv in Hs as [_ Hs].
  eapply Forall_impl; [exact Hs|]. simpl. intros y Hy. by eapply key_above.
Qed.
Lemma between_right k c l a v bf r :
  sorted_by comp (nodes (plug c (Node l a v bf r))) -> between k c ->
  less_key v k = true -> between k (FR l a v bf :: c).
Proof.
  intros Hs [H1 H2] Hk. split; [|done]. simpl. apply Forall_app. split; [done|].
  apply Forall_app. split; [|by constructor].
  rewrite nodes_plug in Hs. unfold sorted_by in Hs.
  rewrite !sorted_app in Hs. simpl in Hs. rewrite sorted_app in Hs.
  destruct Hs as (_ & ((_ & _ & Hs) & _) & _).
  eapply Forall_impl; [exact Hs|]. intros y Hy. apply Forall_cons in Hy as [Hy _].
  by eapply key_below.
Qed.
Lemma find_leaf k c : between k c ->
  find_ref k (nodes (plug c Leaf)) = 0 /\ lower_ref k (nodes (plug c Leaf)) = first (rnodes c).
Proof.
  intros [H1 H2]. unfold find_ref, lower_ref. rewrite nodes_plug. simpl. rewrite !filter_app.
  by rewrite below_not_equal, above_not_equal, below_not_lower, above_lower.
Qed.

(** The descent of [find] ends at an object that is neither below nor above the
    key, or at a hole that no such object is on either side of. *)
Definition match_or_end k (l : list (Z * T)) (p : Z) : Prop :=
  (exists v, (p, v) ∈ l /\ key_less k v = false /\ less_key v k = false) \/
  (p = 0 /\ forall a v, (a, v) ∈ l -> key_less k v = true \/ less_key v k = true).

Lemma between_no_match k c :
  between k c -> match_or_end k (nodes (plug c Leaf)) 0.
Proof.
  intros [H1 H2]. right. split; [done|]. intros a v. rewrite nodes_plug. simpl.
  rewrite Forall_forall in H1, H2. intros [H|H]%elem_of_app; [right; by apply (H1 (a, v)) | left; by apply (H2 (a, v))].
Qed.

Lemma find_loop_some t c s k fuel :
  wf s c t -> t <> Leaf -> sorted_by comp (nodes (plug c t)) -> between k c ->
  (depth t <= fuel)%nat ->
  exists p, find_loop key_less less_key fuel k (root t) s = Ok (p, s) /\ match_or_end k (nodes (plug c t)) p.
Proof.
  revert c fuel. induction t as [|l IHl a v bf r IHr]; intros c fuel W Hl Hs Hb Hd; [done|].
  destruct fuel as [|fuel]; simpl in Hd; [lia|]. cbn [find_loop root]. run1.
  destruct (key_less k v) eqn:Hk1; [|destruct (less_key v k) eqn:Hk2]; cbn [negb andb].
  - pose proof (between_left _ _ _ _ _ _ _ Hs Hb Hk1) as Hb'. run1.
    pose proof (proj1 (wf_left _ _ _ _ _ _ _) W) as Wl.
    destruct l as [|l1 b w j l2].
    + cbn [root]. rewrite Z.eqb_refl. exists 0. split; [done|]. by apply (between_no_match _ (FL a v bf r :: c)).
    + cbn [root]. rewrite (nz_eqb _ _ _ _ _ _ _ Wl).
      apply (IHl (FL a v bf r :: c)); [done|done|done|done|lia].
  - pose proof (between_right _ _ _ _ _ _ _ Hs Hb Hk2) as Hb'. run1.
    pose proof (proj1 (wf_right _ _ _ _ _ _ _) W) as Wr.
    destruct r as [|l1 b w j l2].
    + cbn [root]. rewrite Z.eqb_refl. exists 0. split; [done|]. by apply (between_no_match _ (FR l a v bf :: c)).
    + cbn [root]. rewrite (nz_eqb _ _ _ _ _ _ _ Wr).
      apply (IHr (FR l a v bf :: c)); [done|done|done|done|lia].
  - exists a. split; [done|]. left. exists v. split; [|done]. rewrite nodes_plug. simpl. set_solver.
Qed.

Lemma between_nil k : between k [].
Proof. by split; constructor. Qed.

Lemma find_some s ns k :
  avl_state comp s ns -> exists p, find key_less less_key k s = Ok (p, s) /\ match_or_end k ns p.
Proof.
  intros [(t & W & _ & <-) Hs _]. unfold find. erewrite bind_Ok by reflexivity.
  rewrite (wf_root _ _ _ W). cbn [croot]. destruct t as [|t1 a v bf t2].
  - cbn [root]. rewrite Z.eqb_refl. exists 0. split; [done|]. by apply (between_no_match k []), between_nil.
  - cbn [root]. rewrite (nz_eqb _ _ _ _ _ _ _ W). erewrite bind_Ok by reflexivity.
    apply (find_loop_some (Node t1 a v bf t2) []); [done|done|done|apply between_nil|].
    pose proof (wf_fuel _ _ _ W). lia.
Qed.

(** With at most one match, the lookups are the references. *)
Hypothesis unique : forall k v w, comp v w = true -> less_key v k = true \/ key_less k w = true.

(** The object at the focus is the match. *)
Lemma between_here k c l a v bf r :
  sorted_by comp (nodes (plug c (Node l a v bf r))) -> between k c ->
  key_less k v = false -> less_key v k = false ->
  Forall (fun p : Z * T => less_key p.2 k = true) (lnodes c ++ nodes l) /\
  Forall (fun p : Z * T => key_less k p.2 = true) (nodes r ++ rnodes c).
Proof.
  intros Hs [H1 H2] Hk1 Hk2. rewrite nodes_plug in Hs. unfold sorted_by in Hs.
  rewrite !sorted_app in Hs. simpl in Hs. rewrite sorted_app in Hs.
  destruct Hs as (_ & ((_ & Hr & Hl) & _) & _). apply StronglySorted_inv in Hr as [_ Hr].
  split; apply Forall_app; (split; [try done|try done]).
  - eapply Forall_impl; [exact Hl|]. intros y Hy. apply Forall_cons in Hy as [Hy _].
    simpl in Hy. destruct (unique k _ _ Hy); [done|congruence].
  - eapply Forall_impl; [exact Hr|]. simpl. intros y Hy.
    destruct (unique k _ _ Hy); [congruence|done].
Qed.

Lemma find_here k c l a v bf r :
  sorted_by comp (nodes (plug c (Node l a v bf r))) -> between k c ->
  key_less k v = false -> less_key v k = false ->
  find_ref k (nodes (plug c (Node l a v bf r))) = a /\
  lower_ref k (nodes (plug c (Node l a v bf r))) = a.
Proof.
  intros Hs Hb Hk1 Hk2. destruct (between_here _ _ _ _ _ _ _ Hs Hb Hk1 Hk2) as [[H1 H2]%Forall_app _].
  unfold find_ref, lower_ref. rewrite nodes_plug. simpl. norm_app. rewrite !filter_app.
  rewrite !below_not_equal, !below_not_lower by done. simpl.
  unfold equal_key. by rewrite !filter_cons_True; [|simpl; rewrite ?Hk1, ?Hk2..].
Qed.
Lemma find_loop_spec t c s k fuel :
  wf s c t -> t <> Leaf -> sorted_by comp (nodes (plug c t)) -> between k c ->
  (depth t <= fuel)%nat ->
  find_loop key_less less_key fuel k (root t) s = Ok (find_ref k (nodes (plug c t)), s).
Proof.
  revert c fuel. induction t as [|l IHl a v bf r IHr]; intros c fuel W Hl Hs Hb Hd; [done|].
  destruct fuel as [|fuel]; simpl in Hd; [lia|]. cbn [find_loop root]. run1.
  destruct (key_less k v) eqn:Hk1; [|destruct (less_key v k) eqn:Hk2]; cbn [negb andb].
  - pose proof (between_left _ _ _ _ _ _ _ Hs Hb Hk1) as Hb'. run1.
    pose proof (proj1 (wf_left _ _ _ _ _ _ _) W) as Wl.
    destruct l as [|l1 b w j l2].
    + cbn [root]. rewrite Z.eqb_refl. by rewrite <- (proj1 (find_leaf _ _ Hb')).
    + cbn [root]. rewrite (nz_eqb _ _ _ _ _ _ _ Wl).
      apply (IHl (FL a v bf r :: c)); [done|done|done|done|lia].
  - pose proof (between_right _ _ _ _ _ _ _ Hs Hb Hk2) as Hb'. run1.
    pose proof (proj1 (wf_right _ _ _ _ _ _ _) W) as Wr.
    destruct r as [|l1 b w j l2].
    + cbn [root]. rewrite Z.eqb_refl. by rewrite <- (proj1 (find_leaf _ _ Hb')).
    + cbn [root]. rewrite (nz_eqb _ _ _ _ _ _ _ Wr).
      apply (IHr (FR l a v bf :: c)); [done|done|done|done|lia].
  - unfold ret. by rewrite (proj1 (find_here _ _ _ _ _ _ _ Hs Hb Hk1 Hk2)).
Qed.

(** The descent of [lower_bound] ends at the right object, or reports the end
    of the tree; the latter only when no object is equal to the key. *)
Definition lower_or_end k (l : list (Z * T)) (p : Z) : Prop :=
  p = lower_ref k l \/ p = 0 /\ find_ref k l = 0.

Lemma lower_bound_right k c s l a v bf :
  wf s c (Node l a v bf Leaf) -> between k (FR l a v bf :: c) ->
  exists p, (let* parent := get_tree_parent a in
             if parent =? 0 then ret 0 else
             let* pr := get_right parent in
             if pr =? a then ret 0 else ret parent) s = Ok (p, s) /\
    lower_or_end k (nodes (plug c (Node l a v bf Leaf))) p.
Proof.
  intros W Hb. destruct (find_leaf _ _ Hb) as [Hf Hl]. cbn [plug fill rnodes] in Hf, Hl.
  unfold lower_or_end. rewrite Hf, Hl. run1.
  destruct c as [|[b w j r'|l' b w j] c]; cbn [cpar frame_addr].
  - rewrite Z.eqb_refl. exists 0. split; [done|]. by right.
  - apply wf_left in W. rewrite (nz_eqb _ _ _ _ _ _ _ W). run1.
    pose proof (wf_child_ne _ _ _ _ _ _ _ W ltac:(done)) as Hne. cbn [root] in Hne.
    rewrite Hne. exists b. split; [done|]. by left.
  - apply wf_right in W. rewrite (nz_eqb _ _ _ _ _ _ _ W). run1. cbn [root].
    rewrite Z.eqb_refl. exists 0. split; [done|]. by right.
Qed.

Lemma lower_bound_loop_spec t c s k fuel :
  wf s c t -> t <> Leaf -> sorted_by comp (nodes (plug c t)) -> between k c ->
  (depth t <= fuel)%nat ->
  exists p, lower_bound_loop key_less less_key fuel k (root t) s = Ok (p, s) /\
    lower_or_end k (nodes (plug c t)) p.
Proof.
  revert c fuel. induction t as [|l IHl a v bf r IHr]; intros c fuel W Hl Hs Hb Hd; [done|].
  destruct fuel as [|fuel]; simpl in Hd; [lia|]. cbn [lower_bound_loop root]. run1.
  destruct (key_less k v) eqn:Hk1; [|destruct (less_key v k) eqn:Hk2]; cbn [negb andb].
  - pose proof (between_left _ _ _ _ _ _ _ Hs Hb Hk1) as Hb'. run1.
    pose proof (proj1 (wf_left _ _ _ _ _ _ _) W) as Wl.
    destruct l as [|l1 b w j l2].
    + cbn [root]. rewrite Z.eqb_refl. exists a. split; [done|]. left.
      symmetry. exact (proj2 (find_leaf _ _ Hb')).
    + cbn [root]. rewrite (nz_eqb _ _ _ _ _ _ _ Wl).
      apply (IHl (FL a v bf r :: c)); [done|done|done|done|lia].
  - pose proof (between_right _ _ _ _ _ _ _ Hs Hb Hk2) as Hb'. run1.
    pose proof (proj1 (wf_right _ _ _ _ _ _ _) W) as Wr.
    destruct r as [|l1 b w j l2].
    + cbn [root]. rewrite Z.eqb_refl. by apply lower_bound_right.
    + cbn [root]. rewrite (nz_eqb _ _ _ _ _ _ _ Wr).
      apply (IHr (FR l a v bf :: c)); [done|done|done|done|lia].
  - exists a. split; [done|]. left.
    by rewrite (proj2 (find_here _ _ _ _ _ _ _ Hs Hb Hk1 Hk2)).
Qed.

Lemma find_unique s ns k :
  avl_state comp s ns -> find key_less less_key k s = Ok (find_ref k ns, s).
Proof.
  intros [(t & W & _ & <-) Hs _]. unfold find. erewrite bind_Ok by reflexivity.
  rewrite (wf_root _ _ _ W). cbn [croot]. destruct t as [|t1 a v bf t2].
  - cbn [root]. by rewrite Z.eqb_refl.
  - cbn [root]. rewrite (nz_eqb _ _ _ _ _ _ _ W). erewrite bind_Ok by reflexivity.
    apply (find_loop_spec (Node t1 a v bf t2) []); [done|done|done|apply between_nil|].
    pose proof (wf_fuel _ _ _ W). lia.
Qed.
Lemma lower_bound_unique s ns k :
  avl_state comp s ns ->
  exists p, lower_bound key_less less_key k s = Ok (p, s) /\ lower_or_end k ns p.
Proof.
  intros [(t & W & _ & <-) Hs _]. unfold lower_bound. erewrite bind_Ok by reflexivity.
  rewrite (wf_root _ _ _ W). cbn [croot]. destruct t as [|t1 a v bf t2].
  - cbn [root]. rewrite Z.eqb_refl. exists 0. split; [done|]. by left.
  - cbn [root]. rewrite (nz_eqb _ _ _ _ _ _ _ W). erewrite bind_Ok by reflexivity.
    apply (lower_bound_loop_spec (Node t1 a v bf t2) []); [done|done|done|apply between_nil|].
    pose proof (wf_fuel _ _ _ W). lia.
Qed.
End search.

Section lookups.
Context {T Key : Type} (comp : T -> T -> bool).
Context (key_less : Key -> T -> bool) (less_key : T -> Key -> bool).
Context `{!StrictOrder_ comp, !KeyOrder comp key_less less_key}.
Implicit Types (s : avl_tree T) (k : Key).

Lemma find_spec s ns k :
  avl_state comp s ns -> find key_less less_key k s = Ok (find_ref key_less less_key k ns, s).
Proof. apply find_unique; [apply _|]. intros. by apply key_split. Qed.
Lemma lower_bound_spec s ns k :
  avl_state comp s ns ->
  exists p, lower_bound key_less less_key k s = Ok (p, s) /\ lower_or_end key_less less_key k ns p.
Proof. apply lower_bound_unique; [apply _|]. intros. by apply key_split. Qed.
End lookups.

(** ** The self check *)

Section check.
Context {T : Type} (comp : T -> T -> bool).
Implicit Types (t l r : tree T) (c : ctx T) (s : avl_tree T).

Lemma depth_pair s fuel :
  forall c l a v bf r, wf s c (Node l a v bf r) -> (depth (Node l a v bf r) <= fuel)%nat ->
  _left_depth fuel a s = Ok (height l, s) /\ _right_depth fuel a s = Ok (height r, s).
Proof.
  induction fuel as [|fuel IH]; intros c l a v bf r W Hd; simpl in Hd; [lia|].
  cbn [_left_depth _right_depth]. split; run1.
  - destruct l as [|l1 b w j l2]; cbn [root]; [by rewrite Z.eqb_refl|].
    apply wf_left in W. rewrite (nz_eqb _ _ _ _ _ _ _ W).
    destruct (IH _ _ _ _ _ _ W) as [E1 E2]; [simpl in *; lia|].
    rewrite (bind_Ok _ _ _ _ _ E1), (bind_Ok _ _ _ _ _ E2). unfold ret. cbn [height].
    do 2 f_equal. destruct (Z.ltb_spec (height l2) (height l1)); lia.
  - destruct r as [|l1 b w j l2]; cbn [root]; [by rewrite Z.eqb_refl|].
    apply wf_right in W. rewrite (nz_eqb _ _ _ _ _ _ _ W).
    destruct (IH _ _ _ _ _ _ W) as [E1 E2]; [simpl in *; lia|].
    rewrite (bind_Ok _ _ _ _ _ E1), (bind_Ok _ _ _ _ _ E2). unfold ret. cbn [height].
    do 2 f_equal. destruct (Z.ltb_spec (height l2) (height l1)); lia.
Qed.

Lemma check_link_ok s c t node reason :
  wf s c t -> (t <> Leaf -> cpar c = node) -> check_link (root t) node reason s = Ok (None, s).
Proof.
  intros W Hp. unfold check_link. destruct t as [|l a v bf r]; cbn [root].
  - by rewrite Z.eqb_refl.
  - rewrite (nz_eqb _ _ _ _ _ _ _ W). run1. rewrite Hp by done. by rewrite Z.eqb_refl.
Qed.

(** The order the check reads: each child against its parent. *)
Definition ordered_children l (v : T) r : Prop :=
  match l with Node _ _ w _ _ => comp w v = true | Leaf => True end /\
  match r with Node _ _ w _ _ => comp v w = true | Leaf => True end.
Fixpoint locally_ordered t : Prop :=
  match t with
  | Leaf => True
  | Node l _ v _ r => ordered_children l v r /\ locally_ordered l /\ locally_ordered r
  end.

Lemma sorted_locally t : sorted_by comp (nodes t) -> locally_ordered t.
Proof.
  induction t as [|l IHl a v bf r IHr]; [done|]. unfold sorted_by in *. simpl.
  rewrite sorted_app. intros (Hl & Hr & Hm). apply StronglySorted_inv in Hr as [Hr Hv].
  split; [|by auto]. split.
  - destruct l as [|l1 b w j l2]; [done|]. simpl in Hm. apply Forall_app in Hm as [_ Hm].
    apply Forall_cons in Hm as [Hm _]. by apply Forall_cons in Hm as [Hm _].
  - destruct r as [|l1 b w j l2]; [done|]. simpl in Hv. apply Forall_app in Hv as [_ Hv].
    by apply Forall_cons in Hv as [Hv _].
Qed.

(** On a well linked tree the check accepts exactly the balanced trees whose
    children are in order. *)
Lemma check_spec t c s fuel :
  wf s c t -> (depth t < fuel)%nat ->
  exists res, _check_invariants comp fuel (root t) s = Ok (res, s) /\
    (res = None <-> avl t /\ locally_ordered t).
Proof.
  revert c fuel. induction t as [|l IHl a v bf r IHr]; intros c [|fuel] W Hd; simpl in Hd; try lia.
  { exists None. cbn [_check_invariants root]. by rewrite Z.eqb_refl. }
  pose proof (proj1 (wf_left _ _ _ _ _ _ _) W) as Wl.
  pose proof (proj1 (wf_right _ _ _ _ _ _ _) W) as Wr.
  cbn [_check_invariants root]. rewrite (nz_eqb _ _ _ _ _ _ _ W). run1.
  rewrite (bind_Ok _ _ _ _ _ (check_link_ok _ _ _ a _ Wl ltac:(done))). run1.
  rewrite (bind_Ok _ _ _ _ _ (check_link_ok _ _ _ a _ Wr ltac:(done))). run1.
  destruct (depth_pair s (S fuel) _ _ _ _ _ _ W) as [E1 E2]; [simpl; lia|].
  rewrite (bind_Ok _ _ _ _ _ E1), (bind_Ok _ _ _ _ _ E2).
  cbn [avl locally_ordered]. unfold ordered_children.
  destruct (Z.eqb_spec bf (height r - height l)) as [Hb|Hb]; cbn [negb];
    [|eexists; split; [done|]; split; [done|tauto]].
  destruct ((bf <? -1) || (1 <? bf)) eqn:Hr.
  { eexists; split; [done|]. split; [done|]. apply orb_true_iff in Hr. rewrite !Z.ltb_lt in Hr. lia. }
  apply orb_false_iff in Hr. rewrite !Z.ltb_ge in Hr. run1.
  destruct (IHl _ fuel Wl) as (resl & El & Hl); [lia|].
  destruct (IHr _ fuel Wr) as (resr & Er & Hrr); [lia|].
  assert (exists res, (if root l =? 0 then ret None else
       let* lv := deref (root l) in
       if negb (comp lv v) then ret (Some ("left child was not lesser than a node", a))
       else _check_invariants comp fuel (root l)) s = Ok (res, s) /\
     (res = None <-> avl l /\ locally_ordered l /\
        match l with Node _ _ w _ _ => comp w v = true | Leaf => True end)) as (res1 & F1 & G1).
  { destruct l as [|l1 b w j l2]; cbn [root]; [rewrite Z.eqb_refl; by exists None|].
    rewrite (nz_eqb _ _ _ _ _ _ _ Wl). run1. destruct (comp w v); cbn [negb].
    - exists resl. split; [done|]. tauto.
    - eexists; split; [done|]. split; [done|]. by intros (_ & _ & ?). }
  rewrite (bind_Ok _ _ _ _ _ F1). destruct res1 as [e1|].
  { eexists; split; [done|]. split; [done|]. intros H. apply G1. tauto. }
  destruct (proj1 G1 eq_refl) as (G2 & G3 & G4). clear G1 F1.
  destruct r as [|l1 b w j l2]; cbn [root] in *.
  { rewrite Z.eqb_refl. exists None. split; [done|]. split; [|done]. intros _.
    repeat split; try done; lia. }
  rewrite (nz_eqb _ _ _ _ _ _ _ Wr). run1. destruct (comp v w); cbn [negb].
  - exists resr. split; [done|]. rewrite Hrr. split; [|tauto]. intros [? ?].
    split; [|tauto]. split; [done|]. split; [lia|tauto].
  - eexists; split; [done|]. split; [done|]. intros (_ & (_ & ?) & _). done.
Qed.
End check.

(** ** Destruction *)

Section destroy.
Context {T : Type}.
Implicit Types (t l r : tree T) (c : ctx T) (s : avl_tree T).

(** Rotations left before the root has no left child: one per node outside
    the right spine. *)
Fixpoint off_spine t : nat :=
  match t with
  | Leaf => 0
  | Node l _ _ _ r => length (addrs l) + off_spine r
  end.
Lemma off_spine_addrs t : (off_spine t <= length (addrs t))%nat.
Proof. induction t; simpl; rewrite ?length_app; lia. Qed.

Lemma destroy_spin_spec fuel t s :
  wf s [] t -> t <> Leaf -> (off_spine t < fuel)%nat ->
  exists s' a v bf r, destroy_spin fuel s = Ok (tt, s') /\
    wf s' [] (Node Leaf a v bf r) /\ nodes t = (a, v) :: nodes r /\ freed s' = freed s.
Proof.
  revert t s. induction fuel as [|fuel IH]; intros t s W Ht Hf; [lia|].
  destruct t as [|l a v bf r]; [done|].
  cbn [destroy_spin]. erewrite bind_Ok by reflexivity. rewrite (wf_root _ _ _ W). cbn [croot root].
  run1. destruct l as [|l1 b w j l2]; cbn [root].
  - rewrite Z.eqb_refl. by exists s, a, v, bf, r.
  - rewrite (nz_eqb _ _ _ _ _ _ _ (proj1 (wf_left _ _ _ _ _ _ _) W)).
    destruct (rotate_right_spec _ _ _ _ _ _ _ _ _ _ _ W) as (s1 & E1 & W1 & X1).
    rewrite (bind_Ok _ _ _ _ _ E1).
    destruct (IH _ _ W1) as (s' & a' & v' & bf' & r' & E' & W' & Hn & Hd); [done| |].
    { simpl in *. rewrite length_app in Hf. lia. }
    exists s', a', v', bf', r'. split; [done|]. split; [done|]. split.
    + rewrite <- Hn. simpl. by norm_app.
    + rewrite Hd. apply (touch_freed _ _ _ X1).
Qed.

(** Unlinking the root that has only a right child. *)
Lemma destroy_step s a v bf r :
  wf s [] (Node Leaf a v bf r) -> r <> Leaf ->
  exists s', (set_tree_parent (root r) 0 ;; release a) (set_root (root r) s) = Ok (tt, s') /\
    wf s' [] r /\ freed s' = a :: freed s.
Proof.
  intros [Hc Ht Hn Hr] Hl. destruct r as [|l1 b w j l2]; [done|]. cbn [root] in *.
  assert (exists s1, set_tree_parent b 0 (set_root b s) = Ok (tt, s1) /\
    wf s1 [] (Node l1 b w j l2) /\ freed s1 = freed s /\ is_Some (mem s1 !! a))
    as (s1 & E1 & W1 & D1 & [e He]).
  { open. eexists. split; [eapply set_tree_parent_ok; [look|side..]|].
    split; [close_wf|]. split; [done|]. eexists; look. }
  rewrite (bind_Ok _ _ _ _ _ E1). unfold release. rewrite He. eexists. split; [reflexivity|].
  split; [|cbn; by rewrite D1]. eapply wf_ext; [done|done|]. intros x Hx. cbn.
  apply lookup_delete_ne. cbn [addrs caddrs app] in *. apply NoDup_cons in Hn as [Hn _].
  intros ->. by apply Hn.
Qed.

(** Every object but the greatest is given back, in order; the greatest stays
    in the store. *)
Lemma destroy_loop_spec fuel t s ns a v :
  wf s [] t -> nodes t = ns ++ [(a, v)] -> (length ns < fuel)%nat ->
  exists s', destroy_loop fuel s = Ok (tt, s') /\ _root s' = 0 /\
    freed s' = reverse ns.*1 ++ freed s /\ is_Some (mem s' !! a).
Proof.
  revert t s ns. induction fuel as [|fuel IH]; intros t s ns W Hn Hf; [lia|].
  cbn [destroy_loop]. erewrite bind_Ok by reflexivity. rewrite (wf_root _ _ _ W). cbn [croot].
  destruct t as [|l b w j r]; [by destruct ns|]. cbn [root]. rewrite (nz_eqb _ _ _ _ _ _ _ W).
  erewrite bind_Ok by reflexivity.
  destruct (destroy_spin_spec (fuel_of s) _ _ W) as (s1 & a1 & v1 & bf1 & r1 & E1 & W1 & Hn1 & D1);
    [done| |].
  { pose proof (off_spine_addrs (Node l b w j r)). apply wf_length in W. unfold fuel_of.
    simpl in *. lia. }
  rewrite (bind_Ok _ _ _ _ _ E1). erewrite bind_Ok by reflexivity.
  rewrite (wf_root _ _ _ W1). cbn [croot root]. run1. erewrite bind_Ok by reflexivity.
  rewrite Hn1 in Hn. destruct r1 as [|l2 b2 w2 j2 r2].
  - cbn [root]. rewrite Z.eqb_refl. eexists. split; [done|]. split; [done|].
    destruct ns as [|p [|]]; simplify_eq/=. split; [done|]. rewrite (wf_cell W1). done.
  - cbn [root]. rewrite (nz_eqb _ _ _ _ _ _ _ (proj1 (wf_right _ _ _ _ _ _ _) W1)).
    destruct ns as [|p ns]; injection Hn as ? ? Hn || injection Hn as ? Hn; [by destruct (nodes l2)|subst p].
    destruct (destroy_step _ _ _ _ _ W1) as (s2 & E2 & W2 & D2); [done|].
    destruct (IH _ _ _ W2 Hn) as (s' & E' & R' & D' & M'); [simpl in *; lia|].
    exists s'. split; [|split; [done|split; [|done]]].
    + rewrite <- E'. apply bind_Ok_inv in E2 as ([] & s3 & E3 & E4).
      cbn [root] in E3. rewrite (bind_Ok _ _ _ _ _ E3). by rewrite (bind_Ok _ _ _ _ _ E4).
    + rewrite D', D2, D1. simpl. rewrite reverse_cons, <- app_assoc. done.
Qed.
End destroy.
