(* ===== verification/AvlTheorems.v ===== *)
(** * The contract of the AVL tree

    The properties of kernel/util/avl_tree.h, each with an instance on a small
    concrete tree. *)
From S2P Require Import Prelude AvlTree AvlSpec AvlRep AvlInsert AvlErase AvlLaws AvlSearch.

(** ** Concrete trees *)

(** The store that links an abstract tree. *)
Fixpoint cells_of {T} (par : Z) (t : tree T) : list (Z * elem T) :=
  match t with
  | Leaf => []
  | Node l a v bf r => (a, mkElem (tag par bf) (root l) (root r) v) :: cells_of a l ++ cells_of a r
  end.
Definition state_of {T} (t : tree T) (free : list (Z * elem T)) : avl_tree T :=
  mkAvl (list_to_map (cells_of 0 t ++ free)) (root t) (Z.of_nat (length (addrs t))) [].

(** Values are their own order; an object of value [x] lives at [64 * x]. *)
Definition zcomp : Z -> Z -> bool := num_comp id.
Definition N3 (l : tree Z) (x bf : Z) (r : tree Z) : tree Z := Node l (64 * x) x bf r.
Definition at_ (x : Z) : Z * Z := (64 * x, x).

(** Three, four and five objects; [heavy] has the shape of [erase_bad]. *)
Definition three : tree Z := N3 (N3 Leaf 10 0 Leaf) 20 0 (N3 Leaf 30 0 Leaf).
Definition heavy : tree Z := N3 (N3 Leaf 2 1 (N3 Leaf 3 0 Leaf)) 4 (-1) (N3 Leaf 5 0 Leaf).
Definition five : tree Z :=
  N3 (N3 (N3 Leaf 10 0 Leaf) 20 0 (N3 Leaf 30 0 Leaf)) 40 (-1) (N3 Leaf 60 0 Leaf).
Definition fresh25 : list (Z * elem Z) := [(64 * 25, mkElem 0 0 0 25)].

Ltac concrete :=
  repeat match goal with
  | |- _ /\ _ => split
  | |- True => exact I
  | |- addr_ok _ => unfold addr_ok, par_ok, is_u64
  | |- bf_ok _ => unfold bf_ok
  end; first [ lia | reflexivity | done ].

Ltac concrete_wf :=
  constructor; [done|cbn [rep three heavy five N3]; concrete|apply NoDup_ListNoDup; cbn; 
    repeat (constructor; [cbn; lia|]); constructor|reflexivity].

Lemma three_state : avl_state zcomp (state_of three fresh25) [at_ 10; at_ 20; at_ 30].
Proof.
  constructor.
  - exists three. split; [concrete_wf|]. split; [cbn; lia|reflexivity].
  - repeat (constructor; [|repeat constructor]). constructor.
  - reflexivity.
Qed.
Lemma three_fresh : fresh_node (state_of three fresh25) (64 * 25) 25 ([at_ 10; at_ 20; at_ 30].*1).
Proof. constructor; [reflexivity|concrete|cbn; set_solver by lia]. Qed.
Lemma five_state : avl_state zcomp (state_of five []) [at_ 10; at_ 20; at_ 30; at_ 40; at_ 60].
Proof.
  constructor.
  - exists five. split; [concrete_wf|]. split; [cbn; lia|reflexivity].
  - repeat (constructor; [|repeat constructor]). constructor.
  - reflexivity.
Qed.
Lemma heavy_wf : wf (state_of heavy []) [] heavy.
Proof. concrete_wf. Qed.
Lemma heavy_sorted : sorted_by zcomp (nodes heavy).
Proof. repeat (constructor; [|repeat constructor]). constructor. Qed.

(** ** Positions *)

Lemma nodes_split {T} (t : tree T) l1 a v l2 :
  nodes t = l1 ++ (a, v) :: l2 ->
  exists c l bf r, t = plug c (Node l a v bf r) /\ l1 = lnodes c ++ nodes l /\
    l2 = nodes r ++ rnodes c.
Proof.
  revert l1 l2. induction t as [|l IHl b w bf r IHr]; intros l1 l2 H; [by destruct l1|].
  simpl in H. apply app_eq_inv in H as [(k & Hl & H)|(k & -> & H)].
  - destruct k as [|[p q] k]; simpl in H; injection H as ? ? H; [|]; simplify_eq.
    + exists [], l, bf, r. rewrite app_nil_r in Hl. simpl. by rewrite app_nil_r.
    + destruct (IHl _ _ Hl) as (c & l' & bf' & r' & -> & -> & ->).
      exists (c ++ [FL b w bf r]), l', bf', r'.
      rewrite plug_app, lnodes_app, rnodes_app. simpl. rewrite app_nil_r. split; [done|]. split; [done|]. by norm_app.
  - destruct k as [|[p q] k]; simpl in H; injection H as ? ? H; [|]; simplify_eq.
    + exists [], l, bf, r. simpl. by rewrite !app_nil_r.
    + destruct (IHr _ _ H) as (c & l' & bf' & r' & -> & -> & ->).
      exists (c ++ [FR l p q bf]), l', bf', r'.
      rewrite plug_app, lnodes_app, rnodes_app. simpl. split; [done|]. split; [by norm_app|].
      by rewrite app_nil_r.
Qed.

(** ** Insertion *)

Section contract.
Context {T : Type} (comp : T -> T -> bool) `{!StrictOrder_ comp}.
Implicit Types (s : avl_tree T) (l : list (Z * T)).

Lemma insert_spec s l e x :
  avl_state comp s l -> fresh_node s e x l.*1 ->
  exists s',
    (exists a v, insert comp e s = Ok ((a, false), s') /\ (a, v) ∈ l /\
       comp x v = false /\ comp v x = false /\
       avl_state comp s' l /\ freed s' = e :: freed s) \/
    (exists l1 l2, insert comp e s = Ok ((e, true), s') /\ l = l1 ++ l2 /\
       avl_state comp s' (l1 ++ (e, x) :: l2) /\
       freed s' = freed s /\ frames (e :: l.*1) s s').
Proof.
  intros [(t & W & Ha & <-) Hs Hz] Hf.
  destruct (insert_tree comp s t e x W Ha) as
    [(c & l & a & v & bf & r & s' & -> & H1 & H2 & E & W' & Z' & D')
    |(c & t' & s' & -> & Hp & E & W' & A' & N' & Z' & D' & F')].
  - destruct Hf as [Hc Ho Hn]. split; [done|done|]. by rewrite addrs_nodes.
  - exists s'. left. exists a, v. split; [done|]. split; [|split; [done|split; [done|split; [|done]]]].
    + rewrite nodes_plug. simpl. set_solver.
    + split; [by eexists|done|congruence].
  - exists s'. right. exists (lnodes c), (rnodes c). rewrite nodes_plug in *. simpl in *.
    split; [done|]. split; [done|]. split; [|split; [done|]].
    + split; [by exists t'| |].
      * destruct (path_bounds comp x c [] Hs Hp). by apply sorted_insert.
      * by rewrite Z', Hz, size_succ, length_mid.
    + intros b Hb. apply F'. rewrite addrs_nodes, nodes_plug. done.
Qed.

(** C1: on a balanced search tree, [insert] of a fresh object always returns.
    Either an equivalent object is already there, whose iterator is returned
    with [false] while the tree is kept and the new object is released; or
    the object is linked, and the result is again a balanced search tree,
    whose in-order sequence is the old one with the object at its place, and
    nothing outside the tree and the object is written. *)
Theorem insert_refines s l e x :
  avl_state comp s l -> fresh_node s e x l.*1 ->
  exists s',
    (exists a v, insert comp e s = Ok ((a, false), s') /\ (a, v) ∈ l /\
       comp x v = false /\ comp v x = false /\
       avl_state comp s' l /\ freed s' = e :: freed s) \/
    (exists l1 l2, insert comp e s = Ok ((e, true), s') /\ l = l1 ++ l2 /\
       avl_state comp s' (l1 ++ (e, x) :: l2) /\
       freed s' = freed s /\ frames (e :: l.*1) s s').
Proof. apply insert_spec. Qed.

(** ** Erasure *)

(** C2: [erase] of a node of a balanced search tree always returns: the
    iterator to the successor, and a search tree that holds the other objects
    in order; the node is released and the size is one less.  The result is
    balanced exactly when the node is not the root of a left-heavy tree whose
    left child leans right and whose right child has no left child (on that
    shape the code rotates once where two rotations are needed). *)
Theorem erase_refines s c (l : tree T) a v bf r :
  wf s c (Node l a v bf r) -> avl (plug c (Node l a v bf r)) ->
  sorted_by comp (nodes (plug c (Node l a v bf r))) ->
  exists s' t', erase a s = Ok (first (nodes r ++ rnodes c), s') /\ wf s' [] t' /\
    nodes t' = lnodes c ++ nodes l ++ nodes r ++ rnodes c /\ sorted_by comp (nodes t') /\
    (avl t' <-> erase_bad c l bf r = false) /\
    _size s' = u64 (_size s - 1) /\ freed s' = a :: freed s /\
    frames (caddrs c ++ a :: addrs l ++ addrs r) s s'.
Proof.
  intros W Ha Hs. destruct (erase_tree s c l a v bf r W Ha) as
    (s' & E & t' & W' & N' & A' & Z' & D' & F').
  exists s', t'. do 3 (split; [done|]). split; [|split; [by destruct (erase_bad c l bf r)|done]].
  rewrite N'. rewrite nodes_plug, nodes_Node, <- app_assoc, app_assoc in Hs. simpl in Hs.
  apply sorted_remove in Hs. by rewrite <- app_assoc in Hs.
Qed.

(** C3: erasing an object other than the root's keeps the whole contract:
    from a balanced search tree that holds [l1], the object, [l2] to one that
    holds [l1], [l2], and the returned iterator is the head of [l2]. *)
Theorem erase_below_root s l1 a v l2 :
  avl_state comp s (l1 ++ (a, v) :: l2) -> _root s <> a ->
  exists s', erase a s = Ok (first l2, s') /\ avl_state comp s' (l1 ++ l2) /\
    freed s' = a :: freed s.
Proof.
  intros [(t & W & Ha & Hn) Hs Hz] Hr.
  destruct (nodes_split _ _ _ _ _ Hn) as (c & l & bf & r & -> & -> & ->).
  apply (wf_plug _ c) in W. destruct (erase_tree s c l a v bf r W Ha) as
    (s' & E & t' & W' & N' & A' & Z' & D' & _).
  exists s'. split; [done|]. split; [|done]. split.
  - exists t'. split; [done|]. split; [|by rewrite N', <- app_assoc].
    unfold erase_bad in A'. destruct c; [|done]. by rewrite (wf_root _ _ _ W) in Hr.
  - by eapply sorted_remove.
  - rewrite Z', Hz, length_mid. apply size_pred.
Qed.

(** ** Iteration *)

(** [begin()] is the least object, and [++] on the iterator of an object
    gives the iterator of the next one in order, [end()] after the last. *)
Theorem iteration_in_order s l1 a v l2 :
  avl_state comp s (l1 ++ (a, v) :: l2) ->
  begin_ s = Ok (first (l1 ++ (a, v) :: l2), s) /\
  iterator_incr a s = Ok (first l2, s) /\ deref a s = Ok (v, s).
Proof.
  intros [(t & W & Ha & Hn) _ _]. split.
  - destruct t as [|l b w j r]; [by destruct l1|]. unfold begin_.
    erewrite bind_Ok by reflexivity. rewrite (wf_root _ _ _ W). cbn [croot root].
    rewrite (nz_eqb _ _ _ _ _ _ _ W). erewrite bind_Ok by reflexivity.
    destruct (leftmost_spec _ _ _ (fuel_of s) W) as (g & m & x & k & d & E & _ & _ & Hm);
      [done|pose proof (wf_fuel _ _ _ W); lia|].
    cbn [root] in E. by rewrite E, <- Hn, Hm.
  - destruct (nodes_split _ _ _ _ _ Hn) as (c & l & bf & r & -> & -> & ->).
    apply (wf_plug _ c) in W. split; [by eapply iterator_incr_spec|]. eauto with reaver.
Qed.

(** ** The self check *)

(** On a well linked, sorted tree [check_invariants] reports nothing
    exactly when the recorded factors are the height differences and lie
    between -1 and 1: the check is sound and complete for the balance. *)
Theorem check_invariants_exact s t :
  wf s [] t -> sorted_by comp (nodes t) ->
  exists res, check_invariants comp s = Ok (res, s) /\ (res = None <-> avl t).
Proof.
  intros W Hs. unfold check_invariants. do 2 erewrite bind_Ok by reflexivity.
  rewrite (wf_root _ _ _ W). cbn [croot].
  destruct (check_spec comp t [] s (S (fuel_of s)) W) as (res & E & H).
  { pose proof (wf_fuel _ _ _ W). lia. }
  exists res. split; [done|]. rewrite H. pose proof (sorted_locally comp t Hs). tauto.
Qed.
End contract.

Section lookup.
Context {T Key : Type} (comp : T -> T -> bool).
Context (key_less : Key -> T -> bool) (less_key : T -> Key -> bool).
Context `{!StrictOrder_ comp, !KeyOrder comp key_less less_key}.
Implicit Types (s : avl_tree T) (l : list (Z * T)).

(** [find] returns the iterator of the object that is equivalent to the
    key when there is one, and [end()] when there is none; it reads only. *)
Theorem find_refines s l k :
  avl_state comp s l ->
  find key_less less_key k s = Ok (find_ref key_less less_key k l, s).
Proof. apply (find_spec comp key_less less_key). Qed.

(** [lower_bound] returns the first object not less than the key, or
    [end()]; it is exact whenever an object is equivalent to the key and
    whenever the result is not [end()]. *)
Theorem lower_bound_sound s l k :
  avl_state comp s l ->
  exists p, lower_bound key_less less_key k s = Ok (p, s) /\
    (p <> 0 \/ find_ref key_less less_key k l <> 0 -> p = lower_ref less_key k l).
Proof.
  intros H. destruct (lower_bound_spec comp key_less less_key s l k H) as (p & E & Hp).
  exists p. split; [done|]. destruct Hp as [?|[? ?]]; tauto.
Qed.
End lookup.

(** The destructor unlinks every object and gives back all but the
    greatest, in order; the greatest stays allocated with no owner. *)
Theorem destroy_releases_all_but_last {T} (comp : T -> T -> bool) s l a v :
  avl_state comp s (l ++ [(a, v)]) ->
  exists s', destroy s = Ok (tt, s') /\ _root s' = 0 /\
    freed s' = reverse l.*1 ++ freed s /\ is_Some (mem s' !! a).
Proof.
  intros [(t & W & _ & Hn) _ _]. unfold destroy. erewrite bind_Ok by reflexivity.
  apply (destroy_loop_spec _ t _ _ a v W Hn).
  assert (length (nodes t) = length (addrs t)) as Hl.
  { rewrite (Permutation_length (addrs_nodes t)). by rewrite length_fmap. }
  rewrite Hn, length_app in Hl. apply wf_length in W. unfold fuel_of. simpl in *. lia.
Qed.

(** The parent link and the balance factor share one word without
    disturbing each other: after writing one, both read back as they should. *)
Theorem tagged_word_roundtrip {T} (s : avl_tree T) a par bf l r v par' bf' :
  mem s !! a = Some (mkElem (tag par bf) l r v) ->
  par_ok par -> bf_ok bf -> par_ok par' -> bf_ok bf' ->
  (let* _ := set_tree_parent a par' in
   let* p := get_tree_parent a in
   let* b := get_balance_factor a in
   let* _ := set_balance_factor a bf' in
   let* q := get_tree_parent a in
   let* d := get_balance_factor a in
   ret (p, b, q, d)) s
  = Ok ((par', bf, par', bf'), upd a (mkElem (tag par' bf') l r v) s).
Proof.
  intros. erewrite bind_Ok by (eapply set_tree_parent_ok; eauto).
  erewrite bind_Ok by (eapply get_tree_parent_ok; [look|side..]).
  erewrite bind_Ok by (eapply get_balance_factor_ok; [look|side..]).
  erewrite bind_Ok by (eapply set_balance_factor_ok; [look|side..]).
  erewrite bind_Ok by (eapply get_tree_parent_ok; [look|side..]).
  erewrite bind_Ok by (eapply get_balance_factor_ok; [look|side..]).
  by rewrite upd_upd.
Qed.

(** ** Where the code departs from the contract *)

(** Erasing the root of [heavy] leaves a tree its own check rejects. *)
Definition erase_heavy : res (invariant_check_result * avl_tree Z) :=
  (let* _ := erase (64 * 4) in check_invariants zcomp) (state_of heavy []).

(** On the tree with root 4, children 2 and 5, and 3 below 2, erasing 4
    breaks the balance: the tree's own check reports the new root. *)
Theorem erase_root_unbalanced :
  exists s', erase_heavy =
    Ok (Some ("node's balance factor wasn't equal to actual depth difference"%string, 64 * 2), s').
Proof. eexists. vm_compute. reflexivity. Qed.

(** [lower_bound] misses: among 10, 20, 30, 40, 60 the first object not
    less than 35 is 40, the code returns [end()]. *)
Theorem lower_bound_misses :
  lower_bound (num_key_less id) (num_less_key id) 35 (state_of five []) = Ok (0, state_of five []) /\
  lower_ref (num_less_key id) 35 (nodes five) = 64 * 40.
Proof. split; vm_compute; reflexivity. Qed.

(** Where the upward loop of [--] stops: the top of the run of left links the
    node lies on, nothing when that run starts at the root. *)
Fixpoint spine_top {T} (c : ctx T) (x : Z) : Z :=
  match c with
  | [] => 0
  | FL a _ _ _ :: c' => spine_top c' a
  | FR _ _ _ _ :: _ => x
  end.

Lemma climb_prev_spec {T} (c : ctx T) t (s : avl_tree T) fuel :
  wf s c t -> t <> Leaf -> (S (length c) < fuel)%nat ->
  climb_prev fuel (root t) s = Ok (spine_top c (root t), s).
Proof.
  revert t fuel. induction c as [|f c IH]; intros t fuel W Ht Hf;
    (destruct t as [|tl ta tv tb tr]; [done|]); simpl in Hf;
    (destruct fuel as [|fuel]; [lia|]); cbn [climb_prev root];
    rewrite (nz_eqb _ _ _ _ _ _ _ W); run1; cbn [cpar].
  - rewrite Z.eqb_refl. by destruct fuel; [lia|].
  - destruct f as [a v bf r|l a v bf]; cbn [frame_addr spine_top].
    + apply wf_left in W. rewrite (nz_eqb _ _ _ _ _ _ _ W). run1. cbn [root]. rewrite Z.eqb_refl.
      apply (IH (Node (Node tl ta tv tb tr) a v bf r) fuel W); [done|lia].
    + apply wf_right in W. rewrite (nz_eqb _ _ _ _ _ _ _ W). run1.
      pose proof (wf_child_eqb _ _ _ _ _ _ _ W Ht) as Hne.
      rewrite Z.eqb_sym in Hne. cbn [root] in Hne. by rewrite Hne.
Qed.

(** [--] on a node with a left child gives the predecessor.  On a node
    without one it gives the top of the run of left links the node lies on,
    which for a right child is the node itself: the iterator does not move. *)
Theorem decrement_behaviour {T} (s : avl_tree T) c l a v bf r :
  wf s c (Node l a v bf r) ->
  iterator_decr a s =
    Ok (match l with Leaf => spine_top c a | Node _ _ _ _ _ => last_addr (nodes l) end, s).
Proof.
  intros W. pose proof (wf_fuel _ _ _ W) as Hf. simpl in Hf.
  unfold iterator_decr. erewrite bind_Ok by reflexivity. run1.
  destruct l as [|l1 b w j l2]; cbn [root].
  - rewrite Z.eqb_refl. apply (climb_prev_spec c _ s _ W); [done|lia].
  - pose proof (proj1 (wf_left _ _ _ _ _ _ _) W) as Wl. rewrite (nz_eqb _ _ _ _ _ _ _ Wl).
    apply (rightmost_spec _ _ _ _ Wl); [done|lia].
Qed.

(** ** Instances *)

Lemma insert_refines_witness : exists s',
  (exists a v, insert zcomp (64 * 25) (state_of three fresh25) = Ok ((a, false), s') /\
     (a, v) ∈ [at_ 10; at_ 20; at_ 30] /\ zcomp 25 v = false /\ zcomp v 25 = false /\
     avl_state zcomp s' [at_ 10; at_ 20; at_ 30] /\ freed s' = [64 * 25]) \/
  (exists l1 l2, insert zcomp (64 * 25) (state_of three fresh25) = Ok ((64 * 25, true), s') /\
     [at_ 10; at_ 20; at_ 30] = l1 ++ l2 /\ avl_state zcomp s' (l1 ++ at_ 25 :: l2) /\
     freed s' = [] /\ frames (64 * 25 :: [at_ 10; at_ 20; at_ 30].*1) (state_of three fresh25) s').
Proof.
  exact (insert_refines zcomp (state_of three fresh25) _ (64 * 25) 25 three_state three_fresh).
Defined.

Lemma erase_refines_witness : exists s' t',
  erase (64 * 4) (state_of heavy []) = Ok (64 * 5, s') /\ wf s' [] t' /\
  nodes t' = [at_ 2; at_ 3; at_ 5] /\ sorted_by zcomp (nodes t') /\
  (avl t' <-> true = false) /\ _size s' = u64 (4 - 1) /\ freed s' = [64 * 4] /\
  frames [64 * 4; 64 * 2; 64 * 3; 64 * 5] (state_of heavy []) s'.
Proof.
  refine (erase_refines zcomp (state_of heavy []) [] _ _ _ _ _ heavy_wf _ heavy_sorted).
  cbn. lia.
Defined.

Lemma erase_below_root_witness : exists s',
  erase (64 * 30) (state_of five []) = Ok (64 * 40, s') /\
  avl_state zcomp s' [at_ 10; at_ 20; at_ 40; at_ 60] /\ freed s' = [64 * 30].
Proof.
  refine (erase_below_root zcomp (state_of five []) [at_ 10; at_ 20] (64 * 30) 30 [at_ 40; at_ 60]
    five_state _). vm_compute. congruence.
Defined.

Lemma iteration_in_order_witness :
  begin_ (state_of five []) = Ok (64 * 10, state_of five []) /\
  iterator_incr (64 * 30) (state_of five []) = Ok (64 * 40, state_of five []) /\
  deref (64 * 30) (state_of five []) = Ok (30, state_of five []).
Proof.
  exact (iteration_in_order zcomp (state_of five []) [at_ 10; at_ 20] (64 * 30) 30
    [at_ 40; at_ 60] five_state).
Defined.

Lemma check_invariants_exact_witness :
  exists res, check_invariants zcomp (state_of heavy []) = Ok (res, state_of heavy []) /\
    (res = None <-> avl heavy).
Proof. exact (check_invariants_exact zcomp _ heavy heavy_wf heavy_sorted). Defined.

Lemma find_refines_witness :
  find (num_key_less id) (num_less_key id) 30 (state_of five []) =
    Ok (find_ref (num_key_less id) (num_less_key id) 30 [at_ 10; at_ 20; at_ 30; at_ 40; at_ 60],
        state_of five []).
Proof. exact (find_refines zcomp _ _ _ _ 30 five_state). Defined.

Lemma lower_bound_sound_witness : exists p,
  lower_bound (num_key_less id) (num_less_key id) 25 (state_of five []) = Ok (p, state_of five []) /\
  (p <> 0 \/ find_ref (num_key_less id) (num_less_key id) 25
     [at_ 10; at_ 20; at_ 30; at_ 40; at_ 60] <> 0 ->
   p = lower_ref (num_less_key id) 25 [at_ 10; at_ 20; at_ 30; at_ 40; at_ 60]).
Proof. exact (lower_bound_sound zcomp _ _ _ _ 25 five_state). Defined.

Lemma destroy_witness : exists s',
  destroy (state_of three fresh25) = Ok (tt, s') /\ _root s' = 0 /\
  freed s' = [64 * 20; 64 * 10] /\ is_Some (mem s' !! (64 * 30)).
Proof.
  exact (destroy_releases_all_but_last zcomp (state_of three fresh25) [at_ 10; at_ 20]
    (64 * 30) 30 three_state).
Defined.

Lemma tagged_word_witness :
  (let* _ := set_tree_parent (64 * 10) 128 in
   let* p := get_tree_parent (64 * 10) in
   let* b := get_balance_factor (64 * 10) in
   let* _ := set_balance_factor (64 * 10) (-1) in
   let* q := get_tree_parent (64 * 10) in
   let* d := get_balance_factor (64 * 10) in
   ret (p, b, q, d)) (state_of three [])
  = Ok ((128, 0, 128, -1), upd (64 * 10) (mkElem (tag 128 (-1)) 0 0 10) (state_of three [])).
Proof.
  refine (tagged_word_roundtrip (state_of three []) (64 * 10) (64 * 20) 0 0 0 10 128 (-1) _ _ _ _ _);
    [reflexivity|..]; unfold par_ok, bf_ok, is_u64; concrete.
Defined.

Lemma decrement_witness :
  iterator_decr (64 * 30) (state_of three []) = Ok (64 * 30, state_of three []).
Proof.
  refine (decrement_behaviour (state_of three []) [FR (N3 Leaf 10 0 Leaf) (64 * 20) 20 0]
    Leaf (64 * 30) 30 0 Leaf _).
  constructor; [cbn [crep N3]; concrete|cbn [rep]; concrete
    |apply NoDup_ListNoDup; cbn; repeat (constructor; [cbn; lia|]); constructor|reflexivity].
Defined.
