(* ===== verification/Pmm.v ===== *)
(** * The physical memory manager: kernel/memory/pmm.cpp

    One stack of free frames per page size.  A free frame stores the address of
    the next free frame in its first word; [mem] is the part of physical memory
    that holds these words.  Each stack has a spin lock, which a second
    acquisition by the same call chain never gets ([Deadlock]).

    The operations come first, in the order of the source; then the abstract
    state (one list of frames per layer), the refinement, and the way
    [initialize] cuts a free region into frames. *)
From S2P Require Import Prelude.

(** ** Data *)

(** boot-memmap.h *)
Inductive memory_type : Type :=
| unusable | free | loader | preserve | acpi_reclaimable | persistent
| kernel | initrd | paging | memory_map | backbuffer | log_buffer | working_stack.

#[global] Instance memory_type_eq_dec : EqDecision memory_type.
Proof. solve_decision. Defined.

Record memory_map_entry : Type := mkEntry {
  physical_start : Z;
  entry_length : Z;
  type : memory_type;
  attributes : Z
}.

(** [find_entry]: the index of the first entry of a type, [None] for [nullptr]. *)
Fixpoint find_entry (memmap : list memory_map_entry) (t : memory_type) : option nat :=
  match memmap with
  | [] => None
  | e :: rest =>
      if decide (type e = t) then Some 0%nat
      else option_map S (find_entry rest t)
  end.

(** arch/amd64/memory/vm.h *)
Definition page_size_count : nat := 3.
Definition page_sizes : list Z := [4 * 1024; 2 * 1024 * 1024; 1 * 1024 * 1024 * 1024].
Definition page_size (i : nat) : Z := nth i page_sizes 0.

(** boot-constants.h; [phys_ptr_t{ nullptr }] is represented by [0 - physmem_base]. *)
Definition physmem_base : Z := 0xffff800000000000.
Definition null_repr : Z := u64 (0 - physmem_base).

Record stack_info : Type := mkStack {
  lock : bool;
  stack : Z;
  num_frames : Z
}.

Record pmm : Type := mkPmm {
  mem : gmap Z Z;
  _infos : list stack_info;
  sub_1M_bottom : Z;
  sub_1M_top : Z;
  free_frames : list Z;
  used_frames : list Z
}.

Definition pmm_init : pmm :=
  mkPmm ∅ (replicate page_size_count (mkStack false null_repr 0)) 0 0
    (replicate page_size_count 0) (replicate page_size_count 0).

Abbreviation PM := (M pmm).

(** ** Primitives *)

Definition set_infos (l : list stack_info) (s : pmm) : pmm :=
  mkPmm (mem s) l (sub_1M_bottom s) (sub_1M_top s) (free_frames s) (used_frames s).
Definition get_info (i : nat) : PM stack_info := fun s =>
  match _infos s !! i with
  | Some x => Ok (x, s)
  | None => Err Fault
  end.
Definition put_info (i : nat) (x : stack_info) : PM unit :=
  modify (fun s => set_infos (<[i := x]> (_infos s)) s).

(** [std::mutex] of rosestd: a spin lock. *)
Definition acquire (i : nat) : PM unit :=
  let* x := get_info i in
  if lock x then fail Deadlock else put_info i (mkStack true (stack x) (num_frames x)).
Definition unlock (i : nat) : PM unit :=
  let* x := get_info i in put_info i (mkStack false (stack x) (num_frames x)).

Definition read_next (frame : Z) : PM Z := fun s =>
  match mem s !! frame with
  | Some n => Ok (n, s)
  | None => Err Fault
  end.
Definition write_next (frame n : Z) : PM unit :=
  modify (fun s => mkPmm (<[frame := n]> (mem s)) (_infos s) (sub_1M_bottom s) (sub_1M_top s)
                     (free_frames s) (used_frames s)).

Definition add_free (i : nat) (d : Z) : PM unit :=
  modify (fun s => mkPmm (mem s) (_infos s) (sub_1M_bottom s) (sub_1M_top s)
                     (alter (fun n => u64 (n + d)) i (free_frames s)) (used_frames s)).
Definition add_used (i : nat) (d : Z) : PM unit :=
  modify (fun s => mkPmm (mem s) (_infos s) (sub_1M_bottom s) (sub_1M_top s)
                     (free_frames s) (alter (fun n => u64 (n + d)) i (used_frames s))).

(** ** [instance] *)

Definition instance_push (page_layer : nat) (frame : Z) : PM unit :=
  acquire page_layer ;;
  let* info := get_info page_layer in
  write_next frame (stack info) ;;
  put_info page_layer (mkStack (lock info) frame (u64 (num_frames info + 1))) ;;
  unlock page_layer.

Definition push (page_layer : nat) (frame : Z) : PM unit :=
  if (page_size_count <=? page_layer)%nat
  then panic "Tried to push a frame beyond arch-supported frame sizes: {}!"
  else
    instance_push page_layer frame ;;
    add_used page_layer (-1) ;;
    add_free page_layer 1.

(** The loop that cuts a frame of the next layer into [n] frames of this one. *)
Fixpoint push_pieces (page_layer : nat) (frame : Z) (i n : nat) : PM unit :=
  match n with
  | O => ret tt
  | S n' =>
      push page_layer (u64 (frame + Z.of_nat i * page_size page_layer)) ;;
      push_pieces page_layer frame (S i) n'
  end.

Fixpoint instance_pop (fuel : nat) (page_layer : nat) : PM Z :=
  match fuel with
  | O => fail NoFuel
  | S fuel' =>
      acquire page_layer ;;
      let* info := get_info page_layer in
      (if num_frames info =? 0 then
         if (page_layer =? page_size_count - 1)%nat
         then panic "...and now implement cross-pmm-instance rebalancing"
         else
           let* higher_layer_frame := instance_pop fuel' (S page_layer) in
           push_pieces page_layer higher_layer_frame 0
             (Z.to_nat (page_size (S page_layer) / page_size page_layer))
       else ret tt) ;;
      let* info := get_info page_layer in
      let* n := read_next (stack info) in
      put_info page_layer (mkStack (lock info) n (u64 (num_frames info - 1))) ;;
      unlock page_layer ;;
      ret (stack info)
  end.

Definition pop (page_layer : nat) : PM Z :=
  if (page_size_count <=? page_layer)%nat
  then panic "Tried to pop a frame beyond arch-supported frame sizes: {}!"
  else
    let* r := instance_pop page_size_count page_layer in
    add_free page_layer (-1) ;;
    add_used page_layer 1 ;;
    ret r.

(** ** [initialize] *)

(** The loop that merges adjacent entries of the same kind: the merged size, the
    last entry of the run and the entries after it. *)
Fixpoint merge_run (start size : Z) (e : memory_map_entry) (rest : list memory_map_entry)
  : Z * memory_map_entry * list memory_map_entry :=
  match rest with
  | e' :: rest' =>
      if bool_decide (type e = type e') && (attributes e =? attributes e')
         && (u64 (start + size) =? physical_start e')
      then merge_run start (u64 (size + entry_length e')) e' rest'
      else (size, e, rest)
  | [] => (size, e, rest)
  end.

(** The lambda [push] of the free branch. *)
Definition push_region (i : nat) (start remaining : Z) : PM (Z * Z) :=
  instance_push i start ;;
  add_free i 1 ;;
  ret (u64 (start + page_size i), u64 (remaining - page_size i)).

(** [while (start % page_sizes[i + 1] && remaining >= page_sizes[i]) push(i);] *)
Fixpoint push_up (fuel i : nat) (start remaining : Z) : PM (Z * Z) :=
  match fuel with
  | O => fail NoFuel
  | S n =>
      if negb (start mod page_size (S i) =? 0) && (page_size i <=? remaining) then
        let* (start, remaining) := push_region i start remaining in
        push_up n i start remaining
      else ret (start, remaining)
  end.

(** [while (remaining >= page_sizes[i]) push(i);] *)
Fixpoint push_down (fuel i : nat) (start remaining : Z) : PM (Z * Z) :=
  match fuel with
  | O => fail NoFuel
  | S n =>
      if page_size i <=? remaining then
        let* (start, remaining) := push_region i start remaining in
        push_down n i start remaining
      else ret (start, remaining)
  end.

(** Each iteration takes [page_size i] off [remaining]. *)
Definition region_fuel (i : nat) (remaining : Z) : nat :=
  S (Z.to_nat (remaining / page_size i)).

Definition push_free (start size : Z) : PM unit :=
  let* (start, remaining) := push_up (region_fuel 0 size) 0 start size in
  let* (start, remaining) := push_up (region_fuel 1 remaining) 1 start remaining in
  let* (start, remaining) := push_down (region_fuel 2 remaining) 2 start remaining in
  let* (start, remaining) := push_down (region_fuel 1 remaining) 1 start remaining in
  let* _ := push_down (region_fuel 0 remaining) 0 start remaining in
  ret tt.

Definition is_used (t : memory_type) : bool :=
  match t with
  | loader | kernel | initrd | paging | memory_map | backbuffer | log_buffer | working_stack => true
  | _ => false
  end.

Definition set_sub_1M (bottom top : Z) : PM unit :=
  modify (fun s => mkPmm (mem s) (_infos s) bottom top (free_frames s) (used_frames s)).

(** What is done with a merged run. *)
Definition initialize_run (start size : Z) (e : memory_map_entry) : PM unit :=
  if decide (type e = free) then push_free start size
  else if is_used (type e) then add_used 0 (entry_length e / page_size 0)
  else ret tt.

Definition mib : Z := 1024 * 1024.

Fixpoint initialize_loop (fuel : nat) (memmap : list memory_map_entry) : PM unit :=
  match fuel, memmap with
  | _, [] => ret tt
  | O, _ => fail NoFuel
  | S n, e :: rest =>
      let start := physical_start e in
      let '(size, e, rest) := merge_run start (entry_length e) e rest in
      let* top := gets sub_1M_top in
      (if (start <? mib) && (top =? 0) then
         if size <=? mib then set_sub_1M start size
         else set_sub_1M start mib ;; initialize_run mib (u64 (size - mib)) e
       else initialize_run start size e) ;;
      initialize_loop n rest
  end.

Definition initialize (memmap : list memory_map_entry) : PM unit :=
  initialize_loop (length memmap) memmap.

(** ** [report]: free, used and total bytes *)
Definition total_bytes (l : list Z) : Z :=
  fold_left (fun acc p => u64 (acc + p.1 * p.2)) (zip l page_sizes) 0.
Definition report (s : pmm) : Z * Z * Z :=
  let fr := total_bytes (free_frames s) in
  let used := total_bytes (used_frames s) in
  (fr, used, u64 (fr + used)).
(** The GiB, MiB and KiB columns of a number of bytes. *)
Definition units (bytes : Z) : Z * Z * Z :=
  (bytes / (1024 * 1024 * 1024), (bytes mod (1024 * 1024 * 1024)) / (1024 * 1024),
   (bytes mod (1024 * 1024)) / 1024).

Definition memmap_type_to_description (t : memory_type) : string :=
  match t with
  | unusable => "unusable"
  | free => "free"
  | loader => "bootloader"
  | preserve => "preserve for runtime"
  | acpi_reclaimable => "ACPI-reclaimable"
  | persistent => "presistent"
  | kernel => "kernel"
  | initrd => "initrd"
  | paging => "paging structures"
  | memory_map => "memory map"
  | backbuffer => "video backbuffer"
  | log_buffer => "boot log buffer"
  | working_stack => "working stack"
  end.

(** ** What a frame allocator promises to its clients *)

(** A frame of the smallest size: page aligned, within the 52-bit physical
    address space of the architecture. *)
Definition frame_ok (f : Z) : Prop := 0 <= f < 2 ^ 52 /\ f mod 4096 = 0.

(** [fa_free s l big]: [l] are the frames of the smallest size that are ready to
    be handed out, in order; [big] are the addresses of the larger ones. *)
Class FrameAllocator (F : Type) : Type := {
  fa_pop : M F Z;
  fa_push : Z -> M F unit;
  fa_free : F -> list Z -> list Z -> Prop;
  fa_frames s l big : fa_free s l big -> NoDup (l ++ big) /\ Forall frame_ok l;
  fa_pop_ok s f l big : fa_free s (f :: l) big ->
    exists s', fa_pop s = Ok (f, s') /\ fa_free s' l big;
  fa_push_ok s f l big : fa_free s l big -> frame_ok f -> f ∉ l ++ big ->
    exists s', fa_push f s = Ok (tt, s') /\ fa_free s' (f :: l) big
}.

(** ** The stacks as lists of frames *)

Fixpoint chain (m : gmap Z Z) (p : Z) (frames : list Z) : Prop :=
  match frames with
  | [] => True
  | f :: rest => p = f /\ exists n, m !! f = Some n /\ chain m n rest
  end.

Record pmm_rep (s : pmm) (ls : list (list Z)) : Prop := {
  rep_layers : length ls = page_size_count;
  rep_infos i l : ls !! i = Some l ->
    exists p, _infos s !! i = Some (mkStack false p (Z.of_nat (length l))) /\ chain (mem s) p l;
  rep_nodup : NoDup (concat ls);
  rep_frames : Forall frame_ok (concat ls)
}.

Lemma chain_ext m m' p l : (forall f, f ∈ l -> m' !! f = m !! f) -> chain m p l -> chain m' p l.
Proof.
  revert p. induction l as [|g l IH]; intros p Hf; simpl; [done|].
  intros [-> (n & Hg & Hc)]. split; [done|]. exists n. rewrite Hf by set_solver.
  split; [done|]. apply IH; [set_solver|done].
Qed.
Lemma chain_insert m p l f n : f ∉ l -> chain m p l -> chain (<[f := n]> m) p l.
Proof.
  intros Hf. apply chain_ext. intros g Hg. apply lookup_insert_ne. intros ->. done.
Qed.

(** A list of lists with one of them replaced. *)
Lemma concat_focus {A} (ls : list (list A)) i l :
  ls !! i = Some l ->
  exists rest, concat ls ≡ₚ l ++ rest /\ forall x, concat (<[i := x]> ls) ≡ₚ x ++ rest.
Proof.
  revert i. induction ls as [|l0 ls IH]; intros [|i] H; simplify_eq/=.
  - by exists (concat ls).
  - destruct (IH _ H) as (rest & H1 & H2). exists (l0 ++ rest). split.
    + rewrite H1. solve_Permutation.
    + intros x. rewrite H2. solve_Permutation.
Qed.

Lemma concat_two {A} (ls : list (list A)) i j l l' :
  i <> j -> ls !! i = Some l -> ls !! j = Some l' ->
  exists rest, concat ls ≡ₚ l ++ l' ++ rest.
Proof.
  intros Hne Hi Hj. destruct (concat_focus _ _ _ Hi) as (r1 & H1 & H1').
  assert (<[i := []]> ls !! j = Some l') as Hj' by (by rewrite list_lookup_insert_ne).
  destruct (concat_focus _ _ _ Hj') as (r2 & H2 & _).
  exists r2. rewrite H1. f_equiv. rewrite <- H2. by rewrite H1'.
Qed.

Lemma frames_bound l : NoDup l -> Forall frame_ok l -> Z.of_nat (length l) <= 2 ^ 40.
Proof.
  intros Hn Hf.
  assert (NoDup ((fun f => f / 4096) <$> l)) as Hn'.
  { clear -Hn Hf. induction Hn as [|f l Hnf Hn IH]; [constructor|].
    apply Forall_cons in Hf as [[Hf1 Hf2] Hf]. simpl. constructor; [|by apply IH].
    rewrite list_elem_of_fmap. intros (g & Hg & Hgl). rewrite Forall_forall in Hf.
    destruct (Hf g Hgl) as [_ Hg2]. apply Hnf.
    assert (f = g) as ->; [|done].
    rewrite (Z.div_mod f 4096), (Z.div_mod g 4096), Hf2, Hg2, Hg by lia. done. }
  assert (((fun f => f / 4096) <$> l) ⊆+ seqZ 0 (2 ^ 40)) as Hs.
  { apply NoDup_submseteq; [done|]. intros x Hx. apply list_elem_of_fmap in Hx as (f & -> & Hx).
    rewrite Forall_forall in Hf. destruct (Hf _ Hx) as [H _]. apply elem_of_seqZ.
    split; [apply Z.div_pos; lia|]. apply Z.div_lt_upper_bound; lia. }
  apply submseteq_length in Hs. rewrite length_fmap, length_seqZ in Hs. lia.
Qed.

Section rep_lemmas.
Context (s : pmm) (ls : list (list Z)) (i : nat) (l : list Z).
Hypothesis (R : pmm_rep s ls) (Hl : ls !! i = Some l).

Lemma rep_layer_lt : (i < page_size_count)%nat.
Proof. rewrite <- (rep_layers _ _ R). by eapply lookup_lt_Some. Qed.
Lemma rep_focus : exists rest,
  concat ls ≡ₚ l ++ rest /\ forall x, concat (<[i := x]> ls) ≡ₚ x ++ rest.
Proof. by apply concat_focus. Qed.
Lemma rep_length : Z.of_nat (length l) <= 2 ^ 40.
Proof.
  destruct rep_focus as (rest & H & _). apply frames_bound.
  - pose proof (rep_nodup _ _ R) as Hn. rewrite H in Hn. by apply NoDup_app in Hn as (? & _ & _).
  - pose proof (rep_frames _ _ R) as Hf. rewrite H in Hf. by apply Forall_app in Hf as [? _].
Qed.

(** The frames of another stack. *)
Lemma rep_other j l' f :
  i <> j -> ls !! j = Some l' -> f ∈ l' ->
  f ∈ concat ls /\ f ∉ l /\ forall rest, concat ls ≡ₚ l ++ rest -> f ∈ rest.
Proof.
  intros Hne Hj Hf. destruct (concat_two _ _ _ _ _ Hne Hl Hj) as (rest' & H').
  assert (f ∈ concat ls) as Hin by (rewrite H'; set_solver).
  assert (f ∉ l) as Hnl.
  { pose proof (rep_nodup _ _ R) as Hnd. rewrite H' in Hnd.
    apply NoDup_app in Hnd as (_ & Hnd & _). intros Hfl. apply (Hnd f Hfl). set_solver. }
  split; [done|]. split; [done|]. intros rest Hr. rewrite Hr in Hin. set_solver.
Qed.

(** Replacing one stack: the new list must be chained from the new head in the
    new memory, which keeps the links of the other stacks' frames. *)
Lemma rep_replace s' p x n :
  (forall f, f ∉ x -> f ∈ concat ls -> mem s' !! f = mem s !! f \/ f ∈ l) ->
  _infos s' = <[i := mkStack false p n]> (_infos s) -> n = Z.of_nat (length x) ->
  chain (mem s') p x -> Forall frame_ok x ->
  (forall rest, concat ls ≡ₚ l ++ rest -> NoDup (x ++ rest)) ->
  pmm_rep s' (<[i := x]> ls).
Proof.
  intros Hm Hi -> Hc Hf Hn. destruct rep_focus as (rest & H1 & H2). split.
  - rewrite length_insert. apply R.
  - intros j l' Hj. destruct (decide (i = j)) as [<-|Hne].
    + rewrite list_lookup_insert_eq in Hj by (by eapply lookup_lt_Some). simplify_eq.
      exists p. rewrite Hi. split; [|done]. apply list_lookup_insert_eq.
      destruct (rep_infos _ _ R _ _ Hl) as (q & Hq & _). by eapply lookup_lt_Some.
    + rewrite list_lookup_insert_ne in Hj by done.
      destruct (rep_infos _ _ R _ _ Hj) as (q & Hq & Hcq). exists q.
      rewrite Hi, list_lookup_insert_ne by done. split; [done|].
      eapply chain_ext; [|done]. intros f Hfl.
      destruct (rep_other _ _ _ Hne Hj Hfl) as (Hin & Hnl & Hr). specialize (Hr _ H1).
      destruct (Hm f) as [?|?]; [|done|done|done].
      specialize (Hn rest H1). apply NoDup_app in Hn as (_ & Hn & _). intros Hx. by apply (Hn f).
  - rewrite H2. by apply Hn.
  - rewrite H2. apply Forall_app. split; [done|]. pose proof (rep_frames _ _ R) as Hr.
    rewrite H1 in Hr. by apply Forall_app in Hr as [_ ?].
Qed.
End rep_lemmas.

(** ** The operations on the lists *)

(** The lock and the fields of one stack, written and read back. *)
Lemma get_info_ok i x s : _infos s !! i = Some x -> get_info i s = Ok (x, s).
Proof. unfold get_info. by intros ->. Qed.
Lemma put_info_ok i x s : put_info i x s = Ok (tt, set_infos (<[i := x]> (_infos s)) s).
Proof. done. Qed.
Lemma acquire_free i p n s :
  _infos s !! i = Some (mkStack false p n) ->
  acquire i s = Ok (tt, set_infos (<[i := mkStack true p n]> (_infos s)) s).
Proof. intros H. unfold acquire. by rewrite (bind_Ok _ _ _ _ _ (get_info_ok _ _ _ H)). Qed.
Lemma acquire_held i p n s :
  _infos s !! i = Some (mkStack true p n) -> acquire i s = Err Deadlock.
Proof. intros H. unfold acquire. by rewrite (bind_Ok _ _ _ _ _ (get_info_ok _ _ _ H)). Qed.
Lemma unlock_ok i b p n s :
  _infos s !! i = Some (mkStack b p n) ->
  unlock i s = Ok (tt, set_infos (<[i := mkStack false p n]> (_infos s)) s).
Proof. intros H. unfold unlock. by rewrite (bind_Ok _ _ _ _ _ (get_info_ok _ _ _ H)). Qed.

(** Reads the stack that was just written. *)
Ltac info :=
  repeat (cbn [_infos set_infos]; rewrite ?list_insert_insert_eq);
  first [ eassumption | apply list_lookup_insert_eq; eapply lookup_lt_Some; eassumption ].

Lemma instance_push_step i p n f s :
  _infos s !! i = Some (mkStack false p n) ->
  instance_push i f s =
    Ok (tt, mkPmm (<[f := p]> (mem s)) (<[i := mkStack false f (u64 (n + 1))]> (_infos s))
              (sub_1M_bottom s) (sub_1M_top s) (free_frames s) (used_frames s)).
Proof.
  intros H. unfold instance_push. rewrite (bind_Ok _ _ _ _ _ (acquire_free _ _ _ _ H)).
  erewrite bind_Ok by (apply get_info_ok; info).
  do 2 erewrite bind_Ok by reflexivity. cbn [stack lock num_frames].
  erewrite unlock_ok by info. cbn. do 3 f_equal. unfold set_infos. cbn.
  by rewrite !list_insert_insert_eq.
Qed.

Lemma instance_pop_step fuel i p n q s :
  _infos s !! i = Some (mkStack false p n) -> n <> 0 -> mem s !! p = Some q ->
  instance_pop (S fuel) i s =
    Ok (p, set_infos (<[i := mkStack false q (u64 (n - 1))]> (_infos s)) s).
Proof.
  intros H Hn Hp. cbn [instance_pop]. rewrite (bind_Ok _ _ _ _ _ (acquire_free _ _ _ _ H)).
  erewrite bind_Ok by (apply get_info_ok; info). cbn [num_frames].
  rewrite (proj2 (Z.eqb_neq n 0)) by done. erewrite bind_Ok by reflexivity.
  erewrite bind_Ok by (apply get_info_ok; info). cbn [stack lock num_frames].
  erewrite bind_Ok by (unfold read_next; cbn; rewrite Hp; reflexivity).
  erewrite bind_Ok by reflexivity.
  erewrite bind_Ok by (eapply unlock_ok; info).
  unfold ret, set_infos. cbn. by rewrite !list_insert_insert_eq.
Qed.

(** An empty stack below the top layer: the refill takes the lock it holds. *)
Lemma instance_pop_refill fuel i p s f s1 q m :
  _infos s !! i = Some (mkStack false p 0) -> (i < 2)%nat ->
  instance_pop fuel (S i) (set_infos (<[i := mkStack true p 0]> (_infos s)) s) = Ok (f, s1) ->
  _infos s1 !! i = Some (mkStack true q m) ->
  instance_pop (S fuel) i s = Err Deadlock.
Proof.
  intros H Hi E Hs1. cbn [instance_pop]. rewrite (bind_Ok _ _ _ _ _ (acquire_free _ _ _ _ H)).
  erewrite bind_Ok by (apply get_info_ok; info). cbn [num_frames]. rewrite Z.eqb_refl.
  rewrite (proj2 (Nat.eqb_neq i _)) by (unfold page_size_count; lia).
  apply bind_Err. rewrite (bind_Ok _ _ _ _ _ E).
  assert (exists k, Z.to_nat (page_size (S i) / page_size i) = S k) as [k ->].
  { exists 511%nat. by destruct i as [|[|i]]; [| |lia]. }
  cbn [push_pieces]. apply bind_Err. unfold push.
  rewrite (proj2 (Nat.leb_gt _ _)) by (unfold page_size_count; lia).
  apply bind_Err. unfold instance_push. apply bind_Err. by eapply acquire_held.
Qed.
Lemma instance_pop_refill_err fuel i p s e :
  _infos s !! i = Some (mkStack false p 0) -> (i < 2)%nat ->
  instance_pop fuel (S i) (set_infos (<[i := mkStack true p 0]> (_infos s)) s) = Err e ->
  instance_pop (S fuel) i s = Err e.
Proof.
  intros H Hi E. cbn [instance_pop]. rewrite (bind_Ok _ _ _ _ _ (acquire_free _ _ _ _ H)).
  erewrite bind_Ok by (apply get_info_ok; info). cbn [num_frames]. rewrite Z.eqb_refl.
  rewrite (proj2 (Nat.eqb_neq i _)) by (unfold page_size_count; lia).
  apply bind_Err. by apply bind_Err.
Qed.
Lemma instance_pop_top fuel p s :
  _infos s !! 2%nat = Some (mkStack false p 0) ->
  instance_pop (S fuel) 2 s = Err (Panic "...and now implement cross-pmm-instance rebalancing").
Proof.
  intros H. cbn [instance_pop]. rewrite (bind_Ok _ _ _ _ _ (acquire_free _ _ _ _ H)).
  by erewrite bind_Ok by (apply get_info_ok; info).
Qed.

Definition is_empty (l : list Z) : bool := match l with [] => true | _ => false end.
Definition no_frames (ls : list (list Z)) : bool := forallb is_empty ls.
Definition rebalance_panic : error := Panic "...and now implement cross-pmm-instance rebalancing".

Lemma rep_info s ls i l :
  pmm_rep s ls -> ls !! i = Some l ->
  exists p, _infos s !! i = Some (mkStack false p (Z.of_nat (length l))) /\ chain (mem s) p l.
Proof. intros R. apply R. Qed.

(** A stack is emptied or not, whatever the caller has locked below it. *)
Definition unlocked_at (s0 s : pmm) (j : nat) : Prop :=
  mem s = mem s0 /\ _infos s !! j = _infos s0 !! j.

Lemma instance_pop_nonempty s0 s ls j f l fuel :
  pmm_rep s0 ls -> unlocked_at s0 s j -> ls !! j = Some (f :: l) ->
  exists q, instance_pop (S fuel) j s =
    Ok (f, set_infos (<[j := mkStack false q (Z.of_nat (length l))]> (_infos s)) s) /\
    chain (mem s0) q l.
Proof.
  intros R [Hm Hi] Hj. destruct (rep_info _ _ _ _ R Hj) as (p & Hp & -> & q & Hq & Hc).
  pose proof (rep_length _ _ _ _ R Hj) as Hlen. cbn [length] in *.
  exists q. split; [|done]. erewrite instance_pop_step; [|by rewrite Hi|lia|by rewrite Hm].
  rewrite u64_id by (unfold is_u64; lia). do 4 f_equal. f_equal. lia.
Qed.

Lemma instance_pop_empty_top s0 s ls n i :
  pmm_rep s0 ls -> (2 <= i)%nat -> unlocked_at s0 s i -> ls !! i = Some [] ->
  instance_pop (S n) i s = Err (if no_frames (drop i ls) then rebalance_panic else Deadlock).
Proof.
  intros R Hi [_ Hi2] Hl. pose proof (rep_layer_lt _ _ _ _ R Hl) as Hlt.
  unfold page_size_count in Hlt. replace i with 2%nat in * by lia.
  destruct (rep_info _ _ _ _ R Hl) as (p & Hp & _).
  rewrite (drop_S _ _ _ Hl), (drop_ge _ 3) by (rewrite (rep_layers _ _ R); done).
  eapply instance_pop_top. by rewrite Hi2.
Qed.

Lemma instance_pop_empty s0 s ls n i :
  pmm_rep s0 ls -> (forall j, (i <= j)%nat -> unlocked_at s0 s j) ->
  (2 <= i + n)%nat -> ls !! i = Some [] ->
  instance_pop (S n) i s = Err (if no_frames (drop i ls) then rebalance_panic else Deadlock).
Proof.
  intros R. revert s i. induction n as [|n IH]; intros s i Hu Hi Hl.
  - eapply instance_pop_empty_top; [done|lia|apply Hu; lia|done].
  - destruct (decide (2 <= i)%nat); [eapply instance_pop_empty_top; [done|lia|apply Hu; lia|done]|].
    destruct (rep_info _ _ _ _ R Hl) as (p & Hp & _). destruct (Hu i) as [Hmi Hii]; [lia|].
    rewrite <- Hii in Hp.
    assert (exists l, ls !! S i = Some l) as [l Hl'].
    { apply lookup_lt_is_Some. rewrite (rep_layers _ _ R). unfold page_size_count. lia. }
    set (s1 := set_infos (<[i := mkStack true p 0]> (_infos s)) s).
    assert (forall j, (S i <= j)%nat -> unlocked_at s0 s1 j) as Hu'.
    { intros j Hj. destruct (Hu j) as [Hmj Hij]; [lia|]. split; [done|]. cbn.
      by rewrite list_lookup_insert_ne by lia. }
    rewrite (drop_S _ _ _ Hl). cbn [no_frames is_empty forallb andb].
    destruct l as [|f l].
    + eapply instance_pop_refill_err; [exact Hp|lia|]. apply IH; [done|lia|done].
    + rewrite (drop_S _ _ _ Hl'). cbn [forallb is_empty andb].
      destruct (instance_pop_nonempty s0 s1 _ _ _ _ n R (Hu' (S i) ltac:(lia)) Hl') as (q & E & _).
      eapply instance_pop_refill; [exact Hp|lia|exact E|]. cbn.
      rewrite list_lookup_insert_ne by lia. apply list_lookup_insert_eq. by eapply lookup_lt_Some.
Qed.

(** ** The contract *)

Lemma pmm_rep_ext s s' ls :
  mem s' = mem s -> _infos s' = _infos s -> pmm_rep s ls -> pmm_rep s' ls.
Proof. intros Hm Hi [H1 H2 H3 H4]. split; [done| |done|done]. by rewrite Hm, Hi. Qed.

(** [push] on an unlocked manager returns and puts the frame on top of the stack
    of its layer; the other stacks are kept. *)
Lemma instance_push_spec s ls i l f :
  pmm_rep s ls -> ls !! i = Some l -> frame_ok f -> f ∉ concat ls ->
  exists s', instance_push i f s = Ok (tt, s') /\ pmm_rep s' (<[i := f :: l]> ls) /\
    free_frames s' = free_frames s /\ used_frames s' = used_frames s.
Proof.
  intros R Hl Hf Hn. pose proof (rep_length _ _ _ _ R Hl).
  destruct (rep_info _ _ _ _ R Hl) as (p & Hp & Hc).
  rewrite (instance_push_step _ _ _ _ _ Hp).
  eexists. split; [reflexivity|]. split; [|done].
  destruct (rep_focus _ _ _ Hl) as (rest & Hr & _). rewrite Hr in Hn.
  eapply (rep_replace s ls i l R Hl); cbn.
  - intros g Hg _. left. apply lookup_insert_ne. set_solver.
  - reflexivity.
  - cbn [length]. rewrite u64_id by (unfold is_u64; lia). lia.
  - split; [done|]. exists p. split; [apply lookup_insert_eq|]. apply chain_insert; [set_solver|done].
  - constructor; [done|]. pose proof (rep_frames _ _ R) as HF. rewrite Hr in HF.
    by apply Forall_app in HF as [? _].
  - intros rest' Hr'. pose proof (rep_nodup _ _ R) as HN. rewrite Hr' in HN.
    constructor; [|done]. rewrite <- Hr', Hr. done.
Qed.

(** [pmm::push] also moves the frame from the used to the free count. *)
Lemma push_spec s ls i l f :
  pmm_rep s ls -> ls !! i = Some l -> frame_ok f -> f ∉ concat ls ->
  exists s', push i f s = Ok (tt, s') /\ pmm_rep s' (<[i := f :: l]> ls) /\
    free_frames s' = alter (fun n => u64 (n + 1)) i (free_frames s) /\
    used_frames s' = alter (fun n => u64 (n + -1)) i (used_frames s).
Proof.
  intros R Hl Hf Hn. pose proof (rep_layer_lt _ _ _ _ R Hl).
  destruct (instance_push_spec s ls i l f R Hl Hf Hn) as (s1 & E & R1 & F1 & U1).
  unfold push. rewrite (proj2 (Nat.leb_gt _ _)) by done. rewrite (bind_Ok _ _ _ _ _ E).
  eexists. split; [reflexivity|]. split; [by apply (pmm_rep_ext s1)|]. cbn. by rewrite F1, U1.
Qed.

(** [pop] on a layer with free frames returns the one pushed last and removes it. *)
Lemma pop_spec s ls i f l :
  pmm_rep s ls -> ls !! i = Some (f :: l) ->
  exists s', pop i s = Ok (f, s') /\ pmm_rep s' (<[i := l]> ls) /\
    free_frames s' = alter (fun n => u64 (n + -1)) i (free_frames s) /\
    used_frames s' = alter (fun n => u64 (n + 1)) i (used_frames s).
Proof.
  intros R Hl. pose proof (rep_layer_lt _ _ _ _ R Hl).
  destruct (instance_pop_nonempty s s ls i f l 2 R) as (q & E & Hc); [by split|done|].
  unfold pop. rewrite (proj2 (Nat.leb_gt _ _)) by done.
  rewrite (bind_Ok _ _ _ _ _ E). eexists. split; [reflexivity|]. split; [|done].
  destruct (rep_focus _ _ _ Hl) as (rest & Hr & _).
  eapply (rep_replace s ls i (f :: l) R Hl); cbn.
  - intros g Hg _. by left.
  - reflexivity.
  - done.
  - done.
  - pose proof (rep_frames _ _ R) as HF. rewrite Hr in HF. apply Forall_app in HF as [HF _].
    by apply Forall_cons in HF as [_ ?].
  - intros rest' Hr'. pose proof (rep_nodup _ _ R) as HN. rewrite Hr' in HN. simpl in HN.
    by apply NoDup_cons in HN as [_ ?].
Qed.

(** The manager as an allocator of the smallest frames. *)
#[global, refine] Instance pmm_frame_allocator : FrameAllocator pmm := {
  fa_pop := pop 0;
  fa_push := push 0;
  fa_free s l big := exists l1 l2, pmm_rep s [l; l1; l2] /\ big = l1 ++ l2
}.
Proof.
  - intros s l big (l1 & l2 & R & ->). pose proof (rep_nodup _ _ R) as H.
    pose proof (rep_frames _ _ R) as HF. simpl in H, HF. rewrite app_nil_r in H, HF.
    split; [done|]. by apply Forall_app in HF as [? _].
  - intros s f l big (l1 & l2 & R & ->). destruct (pop_spec s _ 0 f l R) as (s' & E & R' & _); [done|].
    exists s'. split; [done|]. by exists l1, l2.
  - intros s f l big (l1 & l2 & R & ->) Hf Hn.
    destruct (push_spec s _ 0 l f R) as (s' & E & R' & _); [done|done|simpl; by rewrite app_nil_r|].
    exists s'. split; [done|]. by exists l1, l2.
Defined.

(** A request to the manager, and what it does to the lists: [None] when the
    request is not one the manager can serve. *)
Inductive request : Type :=
| Push (i : nat) (f : Z)
| Pop (i : nat).

Definition serve (r : request) : PM (option Z) :=
  match r with
  | Push i f => push i f ;; ret None
  | Pop i => let* f := pop i in ret (Some f)
  end.
Fixpoint serve_all (rs : list request) : PM (list (option Z)) :=
  match rs with
  | [] => ret []
  | r :: rs' => let* x := serve r in let* xs := serve_all rs' in ret (x :: xs)
  end.

#[global] Instance frame_ok_dec f : Decision (frame_ok f).
Proof. unfold frame_ok. apply _. Defined.

Definition abs_serve (r : request) (ls : list (list Z)) : option (option Z * list (list Z)) :=
  match r with
  | Push i f =>
      l ← ls !! i;
      if decide (frame_ok f /\ f ∉ concat ls) then Some (None, <[i := f :: l]> ls) else None
  | Pop i =>
      l ← ls !! i;
      match l with
      | f :: l' => Some (Some f, <[i := l']> ls)
      | [] => None
      end
  end.
Fixpoint abs_serve_all (rs : list request) (ls : list (list Z))
  : option (list (option Z) * list (list Z)) :=
  match rs with
  | [] => Some ([], ls)
  | r :: rs' =>
      '(x, ls1) ← abs_serve r ls;
      '(xs, ls2) ← abs_serve_all rs' ls1;
      Some (x :: xs, ls2)
  end.

Lemma serve_refines r s ls x ls' :
  pmm_rep s ls -> abs_serve r ls = Some (x, ls') ->
  exists s', serve r s = Ok (x, s') /\ pmm_rep s' ls'.
Proof.
  intros R H. destruct r as [i f|i]; simpl in H; apply bind_Some in H as (l & Hl & H).
  - case_decide as Hd; [|done]. simplify_eq. destruct Hd.
    destruct (push_spec s ls i l f R) as (s' & E & R' & _); [done..|].
    exists s'. simpl. by rewrite (bind_Ok _ _ _ _ _ E).
  - destruct l as [|f l]; simplify_eq. destruct (pop_spec s ls i f l R Hl) as (s' & E & R' & _).
    exists s'. simpl. by rewrite (bind_Ok _ _ _ _ _ E).
Qed.

(** C6: any sequence of pushes and pops that one list of frames per layer can
    serve (frames pushed are page frames not already free, a pop finds a frame)
    is served by the manager with the same answers: each layer is a stack, no
    frame is handed out twice, and none is lost. *)
Theorem pmm_serves_stacks rs s ls xs ls' :
  pmm_rep s ls -> abs_serve_all rs ls = Some (xs, ls') ->
  exists s', serve_all rs s = Ok (xs, s') /\ pmm_rep s' ls'.
Proof.
  revert s ls xs ls'. induction rs as [|r rs IH]; intros s ls xs ls' R H; simpl in H.
  { simplify_eq. by exists s. }
  apply bind_Some in H as ([x ls1] & H1 & H). apply bind_Some in H as ([ys ls2] & H2 & H).
  simplify_eq. destruct (serve_refines _ _ _ _ _ R H1) as (s1 & E1 & R1).
  destruct (IH _ _ _ _ R1 H2) as (s2 & E2 & R2). exists s2. simpl.
  by rewrite (bind_Ok _ _ _ _ _ E1), (bind_Ok _ _ _ _ _ E2).
Qed.

(** C40: [pop] on a layer without free frames never returns: when no larger
    layer has a frame either it panics, and otherwise the refill spins on the
    lock of the layer, which the same call holds. *)
Theorem pmm_pop_exhausted s ls i :
  pmm_rep s ls -> ls !! i = Some [] ->
  pop i s = Err (if no_frames (drop i ls) then rebalance_panic else Deadlock).
Proof.
  intros R Hl. pose proof (rep_layer_lt _ _ _ _ R Hl).
  unfold pop. rewrite (proj2 (Nat.leb_gt _ _)) by done. apply bind_Err.
  apply (instance_pop_empty s s ls 2 i R); [by split|lia|done].
Qed.

(** ** Cutting a free region *)

(** A run of pushes [(layer, frame)] that covers [start, stop) without gaps or
    overlaps, every frame aligned to its own size. *)
Fixpoint covers (start : Z) (cuts : list (nat * Z)) (stop : Z) : Prop :=
  match cuts with
  | [] => start = stop
  | (i, f) :: cuts' =>
      (i < page_size_count)%nat /\ f = start /\ f mod page_size i = 0 /\
      covers (start + page_size i) cuts' stop
  end.
Definition push_cuts (cuts : list (nat * Z)) (ls : list (list Z)) : list (list Z) :=
  fold_left (fun ls c => alter (cons c.2) c.1 ls) cuts ls.

(** No free frame starts inside the region. *)
Definition region_fresh (start remaining : Z) (ls : list (list Z)) : Prop :=
  Forall (fun f => f < start \/ start + remaining <= f) (concat ls).

Lemma covers_app start c1 c2 stop mid :
  covers start c1 mid -> covers mid c2 stop -> covers start (c1 ++ c2) stop.
Proof.
  revert start. induction c1 as [|[i f] c1 IH]; intros start; simpl; [by intros ->|].
  intros (? & ? & ? & H) ?. by repeat split; auto.
Qed.
Lemma push_cuts_app c1 c2 ls : push_cuts (c1 ++ c2) ls = push_cuts c2 (push_cuts c1 ls).
Proof. apply fold_left_app. Qed.

Lemma page_size_pos i : (i < page_size_count)%nat -> 0 < page_size i /\ (4096 | page_size i).
Proof.
  unfold page_size_count. intros H. destruct i as [|[|[|i]]]; [..|lia]; (split; [done|]).
  - by exists 1.
  - by exists 512.
  - by exists 262144.
Qed.
Lemma page_size_next i : (S i < page_size_count)%nat -> (page_size i | page_size (S i)).
Proof.
  unfold page_size_count. intros H. destruct i as [|[|i]]; [..|lia]; by exists 512.
Qed.
Lemma page_size_mono i j : (i <= j)%nat -> (j < page_size_count)%nat -> (page_size i | page_size j).
Proof.
  induction 1 as [|j Hj IH]; intros Hc; [done|]. etrans; [apply IH; lia|]. by apply page_size_next.
Qed.

Section region.
Context (ls0 : list (list Z)).

(** What a loop of [initialize] has done when it is at [start]. *)
Record cutting (s : pmm) (i : nat) (start remaining : Z) (cuts : list (nat * Z)) (start0 total : Z)
  : Prop := {
  cut_rep : pmm_rep s (push_cuts cuts ls0);
  cut_fresh : region_fresh start remaining (push_cuts cuts ls0);
  cut_covers : covers start0 cuts start;
  cut_total : start + remaining = start0 + total;
  cut_low : 0 <= start0 /\ start0 <= start;
  cut_bound : 0 <= remaining /\ start0 + total <= 2 ^ 52;
  cut_page : start mod 4096 = 0;
  cut_align j : (j <= i)%nat -> start mod page_size j = 0 \/ remaining < page_size j
}.

Lemma push_region_spec s i start remaining cuts start0 total :
  (i < page_size_count)%nat -> cutting s i start remaining cuts start0 total ->
  page_size i <= remaining ->
  exists s', push_region i start remaining s =
    Ok ((start + page_size i, remaining - page_size i), s') /\
    cutting s' i (start + page_size i) (remaining - page_size i) (cuts ++ [(i, start)]) start0 total.
Proof.
  intros Hi [R Hf Hc Ht [Hl1 Hl2] [Hb1 Hb2] Hp Ha] Hr.
  destruct (page_size_pos i Hi) as [Hps Hdiv].
  assert (start mod page_size i = 0) as Hai by (destruct (Ha i); [lia|done|lia]).
  assert (exists l, push_cuts cuts ls0 !! i = Some l) as [l Hl].
  { apply lookup_lt_is_Some. by rewrite (rep_layers _ _ R). }
  assert (frame_ok start) as Hok by (unfold frame_ok; lia).
  assert (start ∉ concat (push_cuts cuts ls0)) as Hn.
  { intros Hin. unfold region_fresh in Hf. rewrite Forall_forall in Hf.
    destruct (Hf _ Hin); lia. }
  destruct (instance_push_spec s _ i l start R Hl Hok Hn) as (s1 & E & R1 & F1 & U1).
  assert (push_cuts (cuts ++ [(i, start)]) ls0 = <[i := start :: l]> (push_cuts cuts ls0)) as Heq.
  { rewrite push_cuts_app. simpl. by erewrite alter_insert by done. }
  unfold push_region. rewrite (bind_Ok _ _ _ _ _ E). eexists. split.
  { unfold bind, add_free, modify, ret. rewrite (u64_id (start + _)) by (unfold is_u64; lia).
    rewrite (u64_id (remaining - _)) by (unfold is_u64; lia). reflexivity. }
  destruct (rep_focus _ _ _ Hl) as (rest & Hr1 & Hr2).
  split; [| | |lia|lia|lia| |].
  - rewrite Heq. by apply (pmm_rep_ext s1).
  - rewrite Heq. unfold region_fresh in *. rewrite Hr1 in Hf. rewrite Hr2. simpl.
    constructor; [lia|]. eapply Forall_impl; [exact Hf|]. simpl. intros f [?|?]; lia.
  - eapply covers_app; [done|]. simpl. by repeat split.
  - destruct Hdiv as [k ->]. by rewrite Z_mod_plus_full.
  - intros j Hj. destruct (Ha j Hj) as [Haj|?]; [left|right; lia].
    destruct (page_size_mono j i) as [k ->]; [lia|done|]. by rewrite Z_mod_plus_full.
Qed.

Lemma push_up_spec fuel s i start remaining cuts start0 total :
  (S i < page_size_count)%nat -> cutting s i start remaining cuts start0 total ->
  (Z.to_nat (remaining / page_size i) < fuel)%nat ->
  exists s' start' remaining' cuts', push_up fuel i start remaining s = Ok ((start', remaining'), s') /\
    cutting s' (S i) start' remaining' cuts' start0 total.
Proof.
  intros Hi. revert s start remaining cuts. induction fuel as [|fuel IH];
    intros s start remaining cuts C Hf; [lia|]. cbn [push_up].
  destruct (page_size_pos i) as [Hps _]; [lia|].
  destruct ((start mod page_size (S i) =? 0)) eqn:Hm; cbn [negb andb].
  { exists s, start, remaining, cuts. split; [done|]. apply Z.eqb_eq in Hm. destruct C. split; auto.
    intros j Hj. destruct (decide (j = S i)) as [->|]; [by left|]. apply cut_align0. lia. }
  destruct (Z.leb_spec (page_size i) remaining) as [Hr|Hr].
  - destruct (push_region_spec s i start remaining cuts start0 total) as (s1 & E & C1); [lia|done|done|].
    rewrite (bind_Ok _ _ _ _ _ E). apply (IH _ _ _ _ C1).
    replace (remaining - page_size i) with (remaining + (-1) * page_size i) by lia.
    rewrite Z.div_add by lia. assert (1 <= remaining / page_size i); [|lia].
    apply Z.div_le_lower_bound; lia.
  - exists s, start, remaining, cuts. split; [done|]. destruct (page_size_next i Hi) as [k Hk].
    destruct (page_size_pos (S i) Hi) as [Hps' _]. destruct C. split; auto.
    intros j Hj. destruct (decide (j = S i)) as [->|]; [right|apply cut_align0; lia].
    assert (1 <= k) by nia. nia.
Qed.

Lemma push_down_spec fuel s i start remaining cuts start0 total :
  (i < page_size_count)%nat -> cutting s i start remaining cuts start0 total ->
  (Z.to_nat (remaining / page_size i) < fuel)%nat ->
  exists s' start' remaining' cuts', push_down fuel i start remaining s = Ok ((start', remaining'), s') /\
    cutting s' i start' remaining' cuts' start0 total /\ remaining' < page_size i.
Proof.
  intros Hi. revert s start remaining cuts. induction fuel as [|fuel IH];
    intros s start remaining cuts C Hf; [lia|]. cbn [push_down].
  destruct (page_size_pos i) as [Hps _]; [lia|].
  destruct (Z.leb_spec (page_size i) remaining) as [Hr|Hr].
  - destruct (push_region_spec s i start remaining cuts start0 total) as (s1 & E & C1); [lia|done|done|].
    rewrite (bind_Ok _ _ _ _ _ E). apply (IH _ _ _ _ C1).
    replace (remaining - page_size i) with (remaining + (-1) * page_size i) by lia.
    rewrite Z.div_add by lia. assert (1 <= remaining / page_size i); [|lia].
    apply Z.div_le_lower_bound; lia.
  - by exists s, start, remaining, cuts.
Qed.

Lemma cutting_lower s i j start remaining cuts start0 total :
  (j <= i)%nat -> cutting s i start remaining cuts start0 total ->
  cutting s j start remaining cuts start0 total.
Proof. intros Hj []. split; auto. intros. apply cut_align0. lia. Qed.
End region.

(** C20: a free region that starts at a page boundary is cut without loss: the
    frames pushed follow each other from its start to its last whole page, each
    is aligned to its own size, and they end up on the stacks of their layers. *)
Theorem free_region_cut s ls start size :
  pmm_rep s ls -> region_fresh start size ls ->
  0 <= start -> start mod 4096 = 0 -> 0 <= size -> start + size <= 2 ^ 52 ->
  exists s' cuts, push_free start size s = Ok (tt, s') /\ pmm_rep s' (push_cuts cuts ls) /\
    covers start cuts (start + size - size mod 4096).
Proof.
  intros R Hf Hs Hp Hz Hb.
  assert (cutting ls s 0 start size [] start size) as C0.
  { split; try done; try lia. intros j Hj. replace j with 0%nat by lia. by left. }
  unfold push_free.
  destruct (push_up_spec ls (region_fuel 0 size) _ 0 _ _ _ _ _ ltac:(cbv; lia) C0)
    as (s1 & st1 & r1 & c1 & E1 & C1); [unfold region_fuel; lia|]. rewrite (bind_Ok _ _ _ _ _ E1).
  destruct (push_up_spec ls (region_fuel 1 r1) _ 1 _ _ _ _ _ ltac:(cbv; lia) C1)
    as (s2 & st2 & r2 & c2 & E2 & C2); [unfold region_fuel; lia|]. rewrite (bind_Ok _ _ _ _ _ E2).
  destruct (push_down_spec ls (region_fuel 2 r2) _ 2 _ _ _ _ _ ltac:(cbv; lia) C2)
    as (s3 & st3 & r3 & c3 & E3 & C3 & _); [unfold region_fuel; lia|]. rewrite (bind_Ok _ _ _ _ _ E3).
  apply (cutting_lower _ _ 2 1) in C3; [|lia].
  destruct (push_down_spec ls (region_fuel 1 r3) _ 1 _ _ _ _ _ ltac:(cbv; lia) C3)
    as (s4 & st4 & r4 & c4 & E4 & C4 & _); [unfold region_fuel; lia|]. rewrite (bind_Ok _ _ _ _ _ E4).
  apply (cutting_lower _ _ 1 0) in C4; [|lia].
  destruct (push_down_spec ls (region_fuel 0 r4) _ 0 _ _ _ _ _ ltac:(cbv; lia) C4)
    as (s5 & st5 & r5 & c5 & E5 & C5 & Hr5); [unfold region_fuel; lia|]. rewrite (bind_Ok _ _ _ _ _ E5).
  exists s5, c5. split; [done|]. destruct C5 as [R5 _ V5 T5 _ B5 P5 _]. split; [done|].
  replace (start + size - size mod 4096) with st5; [done|].
  change (page_size 0) with 4096 in Hr5.
  assert (size mod 4096 = r5); [|lia].
  replace size with (r5 + (st5 / 4096 - start / 4096) * 4096).
  - rewrite Z_mod_plus_full. apply Z.mod_small. lia.
  - pose proof (Z.div_mod st5 4096). pose proof (Z.div_mod start 4096). lia.
Qed.

(** ** Instances *)

(** Three frames of the smallest size, one of 2 MiB. *)
Definition few : pmm :=
  mkPmm (list_to_map [(0x3000, 0x2000); (0x2000, 0x1000); (0x1000, null_repr); (0x200000, null_repr)])
    [mkStack false 0x3000 3; mkStack false 0x200000 1; mkStack false null_repr 0] 0 0 [3; 1; 0] [0; 0; 0].
Definition few_lists : list (list Z) := [[0x3000; 0x2000; 0x1000]; [0x200000]; []].
(** The same after the small ones are gone. *)
Definition none_small : pmm :=
  mkPmm (list_to_map [(0x200000, null_repr)])
    [mkStack false null_repr 0; mkStack false 0x200000 1; mkStack false null_repr 0] 0 0 [0; 1; 0] [3; 0; 0].

Ltac concrete_pmm :=
  split;
  [ done
  | intros [|[|[|i]]] l Hl; simplify_eq/=; eexists; (split; [reflexivity|]); simpl;
    repeat (split; [done|]; eexists; split; [reflexivity|]); done
  | apply (bool_decide_unpack _); vm_compute; exact I
  | apply (bool_decide_unpack _); vm_compute; exact I ].

Lemma few_rep : pmm_rep few few_lists.
Proof. concrete_pmm. Qed.
Lemma none_small_rep : pmm_rep none_small [[]; [0x200000]; []].
Proof. concrete_pmm. Qed.
Lemma init_rep : pmm_rep pmm_init [[]; []; []].
Proof. concrete_pmm. Qed.

Lemma pmm_serves_stacks_witness : exists s',
  serve_all [Pop 0; Pop 0; Push 0 0x3000; Pop 1; Pop 0] few =
    Ok ([Some 0x3000; Some 0x2000; None; Some 0x200000; Some 0x3000], s') /\
  pmm_rep s' [[0x1000]; []; []].
Proof.
  apply (pmm_serves_stacks [Pop 0; Pop 0; Push 0 0x3000; Pop 1; Pop 0] few few_lists);
    [apply few_rep|vm_compute; reflexivity].
Defined.

Lemma pmm_pop_exhausted_witness : pop 0 none_small = Err Deadlock.
Proof. exact (pmm_pop_exhausted none_small _ 0 none_small_rep eq_refl). Defined.

Lemma free_region_cut_witness : exists s' cuts,
  push_free 0x1ff000 0x402800 pmm_init = Ok (tt, s') /\ pmm_rep s' (push_cuts cuts [[]; []; []]) /\
  covers 0x1ff000 cuts (0x1ff000 + 0x402800 - 0x402800 mod 4096).
Proof.
  apply (free_region_cut pmm_init [[]; []; []] 0x1ff000 0x402800 init_rep);
    [apply Forall_nil_2|lia|reflexivity|lia|lia].
Defined.
