(* ===== verification/PageTable.v ===== *)
(** * Page tables: kernel/arch/amd64/memory/vm.cpp

    The four-level tables of amd64.  [tables] maps the physical address of a
    table to its 512 entries; tables come from and go back to a frame allocator
    (any [FrameAllocator], the manager of [Pmm] in the kernel).  The templates
    [vm_map<I, Lowest>], [vm_unmap<I>], [vm_virt_to_phys<I>] and [unmap_all<I>]
    are functions of the level [I].

    This file holds the operations; [PageTableLaws] what they do to the address
    space. *)
From S2P Require Import Prelude Pmm.

(** ** Entries *)

(** The fields of [pmle] the code reads or writes. *)
Record pmle : Type := mkPmle {
  present : bool;
  read_write : bool;
  user : bool;
  size : bool;
  global : bool;
  address : Z;
  lock_bit : bool
}.

(** [pmlt<I>{}]: the default member initializers. *)
Definition pmle_init : pmle := mkPmle false true false false true 0 false.
Definition pmlt_init : list pmle := replicate 512 pmle_init.

(** [get_phys]; [get] is the table at that physical address. *)
Definition get_phys (e : pmle) : Z := Z.shiftl (address e) 12.
(** [address] is a field of 40 bits. *)
Definition address_field (phys : Z) : Z := Z.shiftr phys 12 mod 2 ^ 40.
(** [operator=(pmlt<I - 1> * )] *)
Definition assign_table (e : pmle) (phys : Z) : pmle :=
  mkPmle true (read_write e) (user e) (size e) (global e) (address_field phys) (lock_bit e).
(** [operator=(uintptr_t)]; a level 1 entry has no [size] bit. *)
Definition assign_page (I : nat) (e : pmle) (phys : Z) : pmle :=
  mkPmle true (read_write e) (user e) (if (I =? 1)%nat then size e else true) (global e)
    (address_field phys) (lock_bit e).
Definition set_user (e : pmle) (b : bool) : pmle :=
  mkPmle (present e) (read_write e) b (size e) (global e) (address e) (lock_bit e).
Definition set_present (e : pmle) (b : bool) : pmle :=
  mkPmle b (read_write e) (user e) (size e) (global e) (address e) (lock_bit e).
Definition set_lock (e : pmle) (b : bool) : pmle :=
  mkPmle (present e) (read_write e) (user e) (size e) (global e) (address e) b.

(** kernel/memory/vm.h *)
Definition flags_none : Z := 0.
Definition flags_user : Z := 1.
Definition flags_read_only : Z := 2.
Definition has_flag (lhs rhs : Z) : bool := negb (Z.land lhs rhs =? 0).

(** ** State *)

(** [tlb_invalidator]: the pages collected and not yet flushed.  [flushed] is the
    sequence of flushes (address space, pages) that all cores have been told of. *)
Record vm_state (F : Type) : Type := mkVm {
  tables : gmap Z (list pmle);
  frames : F;
  cr3 : Z;
  pending : list Z;
  flushed : list (option Z * list Z);
  unmap_lower_half_called : bool
}.
Arguments mkVm {F} _ _ _ _ _ _.
Arguments tables {F} _.
Arguments frames {F} _.
Arguments cr3 {F} _.
Arguments pending {F} _.
Arguments flushed {F} _.
Arguments unmap_lower_half_called {F} _.

Section ops.
Context {F : Type} `{!FrameAllocator F}.
Abbreviation VM := (M (vm_state F)).

Definition set_tables (t : gmap Z (list pmle)) (s : vm_state F) : vm_state F :=
  mkVm t (frames s) (cr3 s) (pending s) (flushed s) (unmap_lower_half_called s).
Definition set_frames (f : F) (s : vm_state F) : vm_state F :=
  mkVm (tables s) f (cr3 s) (pending s) (flushed s) (unmap_lower_half_called s).
Definition set_pending (l : list Z) (s : vm_state F) : vm_state F :=
  mkVm (tables s) (frames s) (cr3 s) l (flushed s) (unmap_lower_half_called s).

Definition on_frames {A} (m : M F A) : VM A := fun s =>
  match m (frames s) with
  | Ok (a, f) => Ok (a, set_frames f s)
  | Err e => Err e
  end.

(** [table->entries[index]] *)
Definition get_entry (table : Z) (index : nat) : VM pmle := fun s =>
  match tables s !! table ≫= (.!! index) with
  | Some e => Ok (e, s)
  | None => Err Fault
  end.
Definition put_entry (table : Z) (index : nat) (e : pmle) : VM unit :=
  modify (fun s => set_tables (alter (fun es => <[index := e]> es) table (tables s)) s).

(** [new pmlt<I>{}] and the release of a table's frame. *)
Definition new_table : VM Z :=
  let* f := on_frames fa_pop in
  modify (fun s => set_tables (<[f := pmlt_init]> (tables s)) s) ;;
  ret f.
Definition push_frame (f : Z) : VM unit :=
  on_frames (fa_push f) ;;
  modify (fun s => set_tables (delete f (tables s)) s).

(** [util::bit_lock<62>] on an entry: constructor and destructor. *)
Definition bit_lock (table : Z) (index : nat) : VM unit :=
  let* e := get_entry table index in
  if lock_bit e then fail Deadlock else put_entry table index (set_lock e true).
Definition bit_unlock (table : Z) (index : nat) : VM unit :=
  let* e := get_entry table index in
  put_entry table index (set_lock e false).

(** ** [tlb_invalidator] *)

Definition trigger (asid : option Z) : VM unit :=
  modify (fun s => mkVm (tables s) (frames s) (cr3 s) [] (flushed s ++ [(asid, pending s)])
                     (unmap_lower_half_called s)).
Definition invalidate (asid : option Z) (page : Z) : VM unit :=
  modify (fun s => set_pending (pending s ++ [page]) s) ;;
  let* p := gets pending in
  if (length p =? 32)%nat then trigger asid else ret tt.

(** ** The walks *)

Definition level_shift (I : nat) : Z := Z.of_nat I * 9 + 3.
Definition entry_size (I : nat) : Z := Z.shiftl 1 (level_shift I).
Definition table_index (I : nat) (virt : Z) : nat :=
  Z.to_nat (Z.land (Z.shiftr virt (level_shift I)) 511).

(** [entry_virt_end], with its protection against overflow. *)
Definition entry_end (I : nat) (virt_start virt_end : Z) : Z :=
  let e := Z.land (u64 (virt_start + entry_size I)) (not64 (entry_size I - 1)) in
  if (u64 (e - 1) <? virt_end) && negb (e =? 0) then e else virt_end.

(** A table has 512 entries and the index grows in every round, so the access
    out of the array would fault before the fuel ends. *)
Definition loop_fuel : nat := 514.

(** The body of the loop of [vm_map<I, Lowest>], under the lock of the entry;
    [child] is [vm_map<I - 1, Lowest>] with the flags fixed. *)
Definition map_round (I Lowest : nat) (child : Z -> Z -> Z -> Z -> VM unit) (flags table : Z)
    (start_table_index : nat) (virt_start entry_virt_end phys : Z) : VM unit :=
  bit_lock table start_table_index ;;
  let* e := get_entry table start_table_index in
  (if (I =? Lowest)%nat then
     if present e then panic "Tried to re-map page {:#018x} at level {}, existing mapping: {:#018x}!"
     else
       put_entry table start_table_index (assign_page I e phys) ;;
       let* e := get_entry table start_table_index in
       put_entry table start_table_index (set_user e (has_flag flags flags_user))
   else
     (if present e then ret tt
      else let* t := new_table in
           let* e := get_entry table start_table_index in
           put_entry table start_table_index (assign_table e t)) ;;
     let* e := get_entry table start_table_index in
     put_entry table start_table_index (set_user e (user e || has_flag flags flags_user)) ;;
     let* e := get_entry table start_table_index in
     child (get_phys e) virt_start entry_virt_end phys) ;;
  bit_unlock table start_table_index.

Fixpoint map_loop (I Lowest : nat) (child : Z -> Z -> Z -> Z -> VM unit) (flags table virt_end : Z)
    (fuel start_table_index : nat) (virt_start phys : Z) : VM unit :=
  match fuel with
  | O => fail NoFuel
  | S n =>
      if negb (virt_start <? virt_end) then ret tt else
      let entry_virt_end := entry_end I virt_start virt_end in
      map_round I Lowest child flags table start_table_index virt_start entry_virt_end phys ;;
      map_loop I Lowest child flags table virt_end n (S start_table_index) entry_virt_end
        (Z.land (u64 (phys + entry_size I)) (not64 (entry_size I - 1)))
  end.

Fixpoint vm_map (I Lowest : nat) (flags table virt_start virt_end phys : Z) : VM unit :=
  match I with
  | O => fail NoFuel
  | S I' =>
      map_loop I Lowest (vm_map I' Lowest flags) flags table virt_end loop_fuel
        (table_index I virt_start) virt_start phys
  end.

(** The body and the loop of [vm_unmap<I>]; [child] is [vm_unmap<I - 1>]. *)
Definition unmap_round (I : nat) (child : Z -> Z -> Z -> VM unit) (asid : option Z)
    (free_physical : bool) (table : Z) (start_table_index : nat) (virt_start entry_virt_end : Z)
  : VM unit :=
  bit_lock table start_table_index ;;
  let* e := get_entry table start_table_index in
  (if negb (present e) then panic "Tried to unmap an unmapped address {:#018x}!"
   else if (I =? 1)%nat then
     (if free_physical then on_frames (fa_push (get_phys e)) else ret tt) ;;
     put_entry table start_table_index (set_present e false) ;;
     invalidate asid virt_start
   else if size e
     then panic "tried to unmap large page, this is not implemented yet ({:#018x})"
   else child (get_phys e) virt_start entry_virt_end) ;;
  bit_unlock table start_table_index.

Fixpoint unmap_loop (I : nat) (child : Z -> Z -> Z -> VM unit) (asid : option Z) (free_physical : bool)
    (table virt_end : Z) (fuel start_table_index : nat) (virt_start : Z) : VM unit :=
  match fuel with
  | O => fail NoFuel
  | S n =>
      if negb (virt_start <? virt_end) then ret tt else
      let entry_virt_end := entry_end I virt_start virt_end in
      unmap_round I child asid free_physical table start_table_index virt_start entry_virt_end ;;
      unmap_loop I child asid free_physical table virt_end n (S start_table_index) entry_virt_end
  end.

Fixpoint vm_unmap (I : nat) (asid : option Z) (free_physical : bool) (table virt_start virt_end : Z)
  : VM unit :=
  match I with
  | O => fail NoFuel
  | S I' =>
      unmap_loop I (vm_unmap I' asid free_physical) asid free_physical table virt_end loop_fuel
        (table_index I virt_start) virt_start
  end.

Fixpoint vm_virt_to_phys (I : nat) (table virt : Z) : VM Z :=
  match I with
  | O => fail NoFuel
  | S I' =>
      let* e := get_entry table (table_index I virt) in
      if negb (present e) then panic "Tried to probe an unmapped address ({:#018x})!"
      else if (I =? 1)%nat then ret (get_phys e)
      else if size e then ret (get_phys e)
      else vm_virt_to_phys I' (get_phys e) virt
  end.

(** ** The interface; [None] is the address space the core runs in *)

Definition page_mask : Z := not64 (page_size 0 - 1).
Definition root_of (asid : option Z) : VM Z :=
  match asid with
  | Some a => ret a
  | None => gets cr3
  end.

Definition map_physical (asid : option Z) (start end_ physical flags : Z) : VM unit :=
  let sz := u64 (end_ - start) in
  if sz =? 0 then ret tt else
  let virt_start := Z.land start page_mask in
  let virt_end := Z.land (u64 (virt_start + sz + page_size 0 - 1)) page_mask in
  let phys_int := Z.land physical page_mask in
  let* root := root_of asid in
  vm_map 4 1 flags root virt_start virt_end phys_int.

Definition unmap (asid : option Z) (start end_ : Z) (free_physical : bool) : VM unit :=
  let sz := u64 (end_ - start) in
  if sz =? 0 then ret tt else
  let virt_start := Z.land start page_mask in
  let virt_end := Z.land (u64 (virt_start + sz + page_size 0 - 1)) page_mask in
  let* root := root_of asid in
  modify (set_pending []) ;;
  let flush_asid := if 0x8000000000000000 <? start then None else Some root in
  vm_unmap 4 flush_asid free_physical root virt_start virt_end ;;
  trigger flush_asid.

Definition virt_to_phys (asid : option Z) (virt : Z) : VM Z :=
  let* root := root_of asid in
  vm_virt_to_phys 4 root virt.

(** ** The lower half *)

Fixpoint unmap_all_loop (child : Z -> VM unit) (table : Z) (first n : nat) : VM unit :=
  match n with
  | O => ret tt
  | S n' =>
      let* e := get_entry table first in
      (if lock_bit e then panic "Page table lock set while unmapping lower half!"
       else if present e then
         (if size e then ret tt else child (get_phys e)) ;;
         let* e := get_entry table first in
         put_entry table first (set_present e false) ;;
         let* e := get_entry table first in
         push_frame (get_phys e)
       else ret tt) ;;
      unmap_all_loop child table (S first) n'
  end.
(** [unmap_all<I>(table, first, first + n - 1)] *)
Fixpoint unmap_all (I : nat) (table : Z) (first n : nat) : VM unit :=
  match I with
  | S (S _ as I') => unmap_all_loop (fun t => unmap_all I' t 0 512) table first n
  | _ => ret tt
  end.

Definition unmap_lower_half : VM unit :=
  let* called := gets unmap_lower_half_called in
  modify (fun s => mkVm (tables s) (frames s) (cr3 s) (pending s) (flushed s) true) ;;
  if called then panic "arch::vm::unmap_lower_half called more than once!" else
  let* root := gets cr3 in
  unmap_all 4 root 0 256.

(** The loop of [clone_upper_half] over the entries [i .. 511]. *)
Fixpoint clone_entries (n : nat) (i : nat) (ret_table root : Z) : VM unit :=
  match n with
  | O => ret tt
  | S n' =>
      bit_lock root i ;;
      let* e := get_entry root i in
      (if present e then ret tt
       else let* t := new_table in put_entry root i (assign_table e t)) ;;
      let* e := get_entry root i in
      put_entry ret_table i e ;;
      let* c := get_entry ret_table i in
      put_entry ret_table i (set_lock c false) ;;
      bit_unlock root i ;;
      clone_entries n' (S i) ret_table root
  end.

Definition clone_upper_half : VM Z :=
  let* r := new_table in
  let* root := gets cr3 in
  clone_entries 256 256 r root ;;
  ret r.
End ops.
