(* ===== verification/PageTableLaws.v ===== *)
(** * What the page-table walks do to an address space

    The tables reachable from a root form a tree; [owner] records, for every
    table, its level and which part of the address space it covers.  Under that
    invariant the walks are compared with [translate], the function the hardware
    computes. *)
From S2P Require Import Prelude Pmm PageTable.

(** ** Arithmetic of the levels *)

Definition es (I : nat) : Z := 2 ^ level_shift I.

Lemma entry_size_es I : entry_size I = es I.
Proof. unfold entry_size, es, level_shift. rewrite Z.shiftl_1_l. done. Qed.
Lemma es_pos I : 0 < es I.
Proof. unfold es, level_shift. apply Z.pow_pos_nonneg; lia. Qed.
Lemma es_S I : es (S I) = 512 * es I.
Proof.
  unfold es, level_shift. replace (Z.of_nat (S I) * 9 + 3) with (9 + (Z.of_nat I * 9 + 3)) by lia.
  rewrite Z.pow_add_r by lia. done.
Qed.
Lemma es_1 : es 1 = 4096.
Proof. done. Qed.
Lemma es_divides_64 I : (I <= 5)%nat -> (es I | 2 ^ 64).
Proof.
  intros. exists (2 ^ (64 - level_shift I)). unfold es, level_shift.
  rewrite <- Z.pow_add_r by lia. f_equal. lia.
Qed.
Lemma es_divides_48 I : (I <= 5)%nat -> (es I | 2 ^ 48).
Proof.
  intros. exists (2 ^ (48 - level_shift I)). unfold es, level_shift.
  rewrite <- Z.pow_add_r by lia. f_equal. lia.
Qed.
Lemma es_divides I J : (I <= J)%nat -> (es I | es J).
Proof.
  intros. exists (2 ^ (level_shift J - level_shift I)). unfold es, level_shift.
  rewrite <- Z.pow_add_r by lia. f_equal. lia.
Qed.
#[export] Hint Resolve es_pos : reaver.

(** The part of the address space below a table of level [I]. *)
Definition prefix (I : nat) (v : Z) : Z := (v mod 2 ^ 48) / es (S I).

Lemma table_index_div I v :
  0 <= v -> Z.of_nat (table_index I v) = (v / es I) mod 512.
Proof.
  intros Hv. unfold table_index. rewrite Z.shiftr_div_pow2 by (unfold level_shift; lia).
  change 511 with (2 ^ 9 - 1). rewrite land_low by lia. fold (es I).
  rewrite Z2Nat.id; [done|]. apply Z.mod_pos_bound. lia.
Qed.
Lemma table_index_lt I v : (table_index I v < 512)%nat.
Proof.
  unfold table_index. change 511 with (2 ^ 9 - 1). rewrite land_low by lia.
  pose proof (Z.mod_pos_bound (Z.shiftr v (level_shift I)) (2 ^ 9)). lia.
Qed.

Lemma mod_div_swap v b c : 0 < b -> 0 < c -> (v mod (b * c)) / b = (v / b) mod c.
Proof.
  intros Hb Hc. rewrite Z.rem_mul_r by lia.
  rewrite Z.mul_comm, Z.add_comm, Z.div_add_l by lia.
  rewrite (Z.div_small (v mod b)); [lia|]. by apply Z.mod_pos_bound.
Qed.

Lemma prefix_step I v :
  (S I <= 4)%nat -> 0 <= v ->
  prefix I v = prefix (S I) v * 512 + Z.of_nat (table_index (S I) v).
Proof.
  intros HI Hv. unfold prefix. rewrite table_index_div, (es_S (S I)) by done.
  pose proof (es_pos (S I)). rewrite (Z.mul_comm 512), <- Z.div_div by lia.
  rewrite (Z.div_mod (v mod 2 ^ 48 / es (S I)) 512) at 1 by lia.
  rewrite (Z.mul_comm 512). f_equal.
  destruct (es_divides_48 (S (S I))) as [k Hk]; [lia|]. rewrite es_S in Hk.
  assert (0 < k) by (destruct (Z.leb_spec k 0); [|done]; assert (k * (512 * es (S I)) <= 0) by nia; lia).
  rewrite Hk. replace (k * (512 * es (S I))) with (es (S I) * (512 * k)) by lia.
  rewrite mod_div_swap by lia. rewrite Z.rem_mul_r by lia.
  rewrite Z.mul_comm, Z_mod_plus_full. by apply Z.mod_mod.
Qed.

(** An aligned block and its parts. *)
Definition in_block (I : nat) (B v : Z) : Prop := B <= v < B + es (S I).
Definition block_base (I : nat) (B : Z) : Prop := 0 <= B /\ B mod es (S I) = 0 /\ B + es (S I) <= 2 ^ 64.

Lemma aligned_div B n v : 0 < n -> B mod n = 0 -> B <= v < B + n -> v / n = B / n.
Proof.
  intros Hn Hb Hv. apply Z.mod_divide in Hb as [k ->]; [|lia]. rewrite Z.div_mul by lia.
  symmetry. apply (Z.div_unique v n k (v - k * n)); lia.
Qed.

Lemma block_prefix I B v :
  (I <= 4)%nat -> block_base I B -> in_block I B v -> prefix I v = prefix I B.
Proof.
  intros HI (HB & Hm & _) Hv. unfold prefix. pose proof (es_pos (S I)).
  destruct (es_divides_48 (S I)) as [k Hk]; [lia|].
  assert (0 < k) by (destruct (Z.leb_spec k 0); [nia|done]).
  rewrite Hk, (Z.mul_comm k). rewrite !mod_div_swap by lia. f_equal.
  by apply aligned_div.
Qed.

Lemma block_index I B v :
  block_base I B -> in_block I B v -> Z.of_nat (table_index I v) = (v - B) / es I.
Proof.
  intros (HB & Hm & _) Hv. unfold in_block in Hv. rewrite es_S in *. pose proof (es_pos I).
  rewrite table_index_div by lia. apply Z.mod_divide in Hm as [k ->]; [|lia].
  replace v with ((v - k * (512 * es I)) + (k * 512) * es I) at 1 by lia.
  rewrite Z.div_add by lia. rewrite Z_mod_plus_full. apply Z.mod_small.
  split; [apply Z.div_pos; lia|]. apply Z.div_lt_upper_bound; lia.
Qed.

(** The part of the block at an index. *)
Definition part (I : nat) (B : Z) (i : nat) : Z := B + Z.of_nat i * es I.

Lemma part_base I B i : block_base (S I) B -> (i < 512)%nat -> block_base I (part (S I) B i).
Proof.
  intros (HB & Hm & H64) Hi. unfold block_base, part. rewrite es_S in Hm, H64.
  pose proof (es_pos (S I)). split; [lia|]. split; [|nia].
  rewrite Z_mod_plus_full. apply Z.mod_divide in Hm as [k ->]; [|lia].
  replace (k * (512 * es (S I))) with (k * 512 * es (S I)) by lia. apply Z_mod_mult.
Qed.
Lemma part_index I B i v :
  block_base I B -> in_block I B v ->
  (table_index I v = i <-> part I B i <= v < part I B i + es I).
Proof.
  intros HB Hv. pose proof (block_index _ _ _ HB Hv) as Hix. unfold part. pose proof (es_pos I).
  split.
  - intros <-. rewrite Hix. pose proof (Z.div_mod (v - B) (es I)).
    pose proof (Z.mod_pos_bound (v - B) (es I)). lia.
  - intros Hp. assert ((v - B) / es I = Z.of_nat i); [|lia]. symmetry.
    apply (Z.div_unique (v - B) (es I) (Z.of_nat i) (v - B - Z.of_nat i * es I)); lia.
Qed.
Lemma part_in I B i v :
  (i < 512)%nat -> part I B i <= v < part I B i + es I -> in_block I B v.
Proof. unfold part, in_block. rewrite es_S. pose proof (es_pos I). nia. Qed.
Lemma part_prefix I B i :
  (S I <= 4)%nat -> block_base (S I) B -> (i < 512)%nat ->
  prefix I (part (S I) B i) = prefix (S I) B * 512 + Z.of_nat i.
Proof.
  intros HI HB Hi. pose proof (es_pos (S I)).
  assert (in_block (S I) B (part (S I) B i)) as Hin by (apply (part_in _ _ i); [done|lia]).
  rewrite prefix_step by (done || (destruct HB; unfold part; nia)).
  rewrite (block_prefix _ B) by done. f_equal. f_equal.
  apply part_index with (B := B); [done..|lia].
Qed.

Lemma land_es I z : (I <= 5)%nat -> is_u64 z -> Z.land z (not64 (es I - 1)) = z - z mod es I.
Proof. intros. apply land_mask_down; [done|]. unfold level_shift. lia. Qed.

(** Where a round of a loop ends. *)
Lemma entry_end_min I vs ve :
  (I <= 5)%nat -> 0 <= vs < ve -> ve < 2 ^ 64 ->
  entry_end I vs ve = Z.min (vs - vs mod es I + es I) ve.
Proof.
  intros HI Hv H64. unfold entry_end. rewrite !entry_size_es. pose proof (es_pos I).
  destruct (es_divides_64 I HI) as [k Hk].
  rewrite !land_es by (done || apply u64_is_u64).
  pose proof (Z.div_mod vs (es I) ltac:(lia)) as Hd.
  pose proof (Z.mod_pos_bound vs (es I) ltac:(lia)).
  assert ((vs + es I) mod es I = vs mod es I) as Hmod.
  { replace (vs + es I) with (vs + 1 * es I) by lia. apply Z_mod_plus_full. }
  destruct (Z.ltb_spec (vs + es I) (2 ^ 64)).
  - rewrite (u64_id (vs + es I)) by (unfold is_u64; lia). rewrite Hmod.
    rewrite u64_id by (unfold is_u64; lia).
    rewrite (proj2 (Z.eqb_neq _ 0)) by lia. rewrite andb_true_r.
    destruct (Z.ltb_spec (vs + es I - vs mod es I - 1) ve); lia.
  - assert (vs - vs mod es I + es I = 2 ^ 64) as Hend.
    { assert (vs / es I < k) by (apply Z.div_lt_upper_bound; lia).
      assert (k <= vs / es I + 1); [|nia].
      assert (k * es I <= (vs / es I + 1) * es I + vs mod es I); [nia|].
      destruct (Z.leb_spec k (vs / es I + 1)); [done|]. nia. }
    assert (u64 (vs + es I) = vs mod es I) as ->.
    { unfold u64, wrapu. symmetry. apply (Z.mod_unique _ _ 1); [|lia].
      left. pose proof (Z.mod_le vs (es I)). lia. }
    rewrite Z.mod_mod by lia. rewrite Z.sub_diag. cbn [Z.eqb negb]. rewrite andb_false_r. lia.
Qed.

(** The end of a round is at a page boundary. *)
Lemma round_end_aligned I vs ve :
  (1 <= I)%nat -> ve mod 4096 = 0 -> Z.min (vs - vs mod es I + es I) ve mod 4096 = 0.
Proof.
  intros HI Hve. pose proof (es_pos I). assert ((4096 | es I)) as Hdiv by (apply (es_divides 1); lia).
  destruct (Z.min_spec (vs - vs mod es I + es I) ve) as [[_ ->]|[_ ->]]; [|done].
  apply Z.mod_divide; [lia|]. apply Z.divide_add_r; [|done]. etrans; [done|].
  exists (vs / es I). pose proof (Z.div_mod vs (es I) ltac:(lia)). lia.
Qed.

(** ** Translation and the shape of the tables *)

(** The walk the hardware makes for an address: the frame of the page and a
    permission, made from the user bits of the entries on the way; [c] says how the
    bit of an entry limits what the levels below allow. *)
Fixpoint walk_by (c : bool -> bool -> bool) (t : gmap Z (list pmle)) (I : nat) (p v : Z)
  : option (Z * bool) :=
  match I with
  | O => None
  | S I' =>
      e ← t !! p ≫= (.!! table_index I v);
      if negb (present e) then None
      else if (I =? 1)%nat || size e then Some (get_phys e, user e)
      else prod_map id (c (user e)) <$> walk_by c t I' (get_phys e) v
  end.

(** What the hardware grants: the frame a virtual address lies in and whether user
    mode may use it, which takes the user bit of the entry of every level. *)
Abbreviation translate := (walk_by andb).
(** The same with the user bit of the last entry only. *)
Abbreviation leaf := (walk_by (fun _ u => u)).

(** Whether the page may be written: the [read_write] bits of all levels. *)
Fixpoint writable (t : gmap Z (list pmle)) (I : nat) (p v : Z) : bool :=
  match I with
  | O => false
  | S I' =>
      match t !! p ≫= (.!! table_index I v) with
      | Some e => present e && read_write e &&
          ((I =? 1)%nat || size e || writable t I' (get_phys e) v)
      | None => false
      end
  end.

Lemma walk_at_entry c t I p v ents e :
  t !! p = Some ents -> ents !! table_index (S I) v = Some e ->
  walk_by c t (S I) p v =
    if negb (present e) then None
    else if (I =? 0)%nat || size e then Some (get_phys e, user e)
    else prod_map id (c (user e)) <$> walk_by c t I (get_phys e) v.
Proof. intros Ht He. cbn [walk_by]. rewrite Ht. cbn [mbind option_bind]. by rewrite He. Qed.

Lemma leaf_below (r : option (Z * bool)) : prod_map id (fun u => u) <$> r = r.
Proof. by destruct r as [[f u]|]. Qed.

(** Both walks end at the same frame, and what the hardware allows the last entry
    allows. *)
Lemma translate_leaf t I p v :
  match translate t I p v, leaf t I p v with
  | Some (f, u), Some (f', u') => f = f' /\ (u = true -> u' = true)
  | None, None => True
  | _, _ => False
  end.
Proof.
  revert p. induction I as [|I IH]; intros p; [done|]. cbn [walk_by].
  destruct (t !! p ≫= _) as [e|]; [|done]. cbn [mbind option_bind].
  destruct (present e); [|done]. destruct (_ || size e); [done|]. cbn [negb]. rewrite leaf_below.
  specialize (IH (get_phys e)). destruct (translate t I (get_phys e) v) as [[f u]|],
    (leaf t I (get_phys e) v) as [[f' u']|]; try done. cbn. destruct IH as [-> Hu].
  split; [done|]. intros Ha. apply andb_true_iff in Ha as [_ Ha]. auto.
Qed.
Lemma translate_None t I p v : translate t I p v = None <-> leaf t I p v = None.
Proof.
  pose proof (translate_leaf t I p v) as H.
  destruct (translate t I p v) as [[]|], (leaf t I p v) as [[]|]; done.
Qed.

(** Every page of the block that its last entry opens to user mode is open to it. *)
Definition user_open (t : gmap Z (list pmle)) (I : nat) (p B : Z) : Prop :=
  forall v, B <= v < B + es (S I) -> translate t I p v = leaf t I p v.

(** Level and covered part of every table. *)
Abbreviation owners := (gmap Z (nat * Z)).

Definition entry_ok (o : owners) (I : nat) (pre : Z) (i : nat) (e : pmle) : Prop :=
  0 <= address e < 2 ^ 40 /\ read_write e = true /\
  (present e = true -> (1 < I)%nat -> size e = false ->
   o !! get_phys e = Some ((I - 1)%nat, pre * 512 + Z.of_nat i)) /\
  (present e = false -> (1 < I)%nat -> size e = false).

Definition table_ok (o : owners) (I : nat) (pre : Z) (es : list pmle) : Prop :=
  length es = 512%nat /\ forall i e, es !! i = Some e -> entry_ok o I pre i e.

(** Every owned table is there and leads to owned tables only. *)
Definition pt_str (t : gmap Z (list pmle)) (o : owners) : Prop :=
  forall p I pre, o !! p = Some (I, pre) ->
    frame_ok p /\ (1 <= I <= 4)%nat /\ exists es, t !! p = Some es /\ table_ok o I pre es.

(** The tables below the one of level [I] that covers [pre], itself included. *)
Definition in_sub (I : nat) (pre : Z) (J : nat) (pre' : Z) : Prop :=
  (J <= I)%nat /\ pre' / 512 ^ Z.of_nat (I - J) = pre.

Definition unlocked (t : gmap Z (list pmle)) (o : owners) (I : nat) (pre : Z) : Prop :=
  forall p J pre' es i e, o !! p = Some (J, pre') -> in_sub I pre J pre' ->
    t !! p = Some es -> es !! i = Some e -> lock_bit e = false.

Lemma in_sub_refl I pre : in_sub I pre I pre.
Proof. split; [done|]. rewrite Nat.sub_diag. apply Z.div_1_r. Qed.

Lemma in_sub_child I pre i J pre' :
  (i < 512)%nat -> in_sub I (pre * 512 + Z.of_nat i) J pre' -> in_sub (S I) pre J pre'.
Proof.
  intros Hi [HJ Hp]. split; [lia|]. replace (S I - J)%nat with (S (I - J))%nat by lia.
  rewrite Nat2Z.inj_succ, Z.pow_succ_r, Z.mul_comm by lia. rewrite <- Z.div_div by lia.
  rewrite Hp. symmetry. apply (Z.div_unique _ _ pre (Z.of_nat i)); lia.
Qed.
(** A table below another is that table or lies below one of its entries. *)
Lemma in_sub_child_inj I pre i pre2 i' J pre' :
  (i < 512)%nat -> (i' < 512)%nat ->
  in_sub I (pre * 512 + Z.of_nat i) J pre' -> in_sub I (pre2 * 512 + Z.of_nat i') J pre' ->
  i = i' /\ pre = pre2.
Proof. intros Hi Hi' [_ H1] [_ H2]. lia. Qed.
Lemma in_sub_level I pre i pre' : ~ in_sub I (pre * 512 + Z.of_nat i) (S I) pre'.
Proof. intros [H _]. lia. Qed.

Lemma in_sub_prefix I J v :
  (J <= I <= 4)%nat -> 0 <= v -> in_sub I (prefix I v) J (prefix J v).
Proof.
  intros [HJ HI] Hv. split; [done|]. induction I as [|I IH].
  - replace J with 0%nat by lia. apply Z.div_1_r.
  - destruct (decide (J = S I)) as [->|Hne]; [rewrite Nat.sub_diag; apply Z.div_1_r|].
    replace (S I - J)%nat with (S (I - J))%nat by lia.
    rewrite Nat2Z.inj_succ, Z.pow_succ_r, Z.mul_comm, <- Z.div_div by lia.
    rewrite IH by lia. rewrite prefix_step by (done || lia).
    pose proof (table_index_lt (S I) v).
    symmetry. apply (Z.div_unique _ _ (prefix (S I) v) (Z.of_nat (table_index (S I) v))); lia.
Qed.

(** Physical addresses and the 40-bit field. *)
Lemma get_phys_table f e : frame_ok f -> get_phys (assign_table e f) = f.
Proof.
  intros [Hf Hm]. unfold get_phys. cbn. unfold address_field.
  rewrite Z.shiftr_div_pow2, Z.shiftl_mul_pow2 by lia. change (2 ^ 12) with 4096.
  rewrite Z.mod_small. { pose proof (Z.div_mod f 4096). lia. }
  split; [apply Z.div_pos; lia|]. apply Z.div_lt_upper_bound; lia.
Qed.
Lemma get_phys_page I f e : frame_ok f -> get_phys (assign_page I e f) = f.
Proof. apply (get_phys_table f e). Qed.
Lemma address_field_ok f : 0 <= address_field f < 2 ^ 40.
Proof. unfold address_field. apply Z.mod_pos_bound. lia. Qed.

(** ** Translation depends only on the tables above the address *)

Lemma pt_str_entry t o p I pre i :
  pt_str t o -> o !! p = Some (I, pre) -> (i < 512)%nat ->
  exists es e, t !! p = Some es /\ es !! i = Some e /\ entry_ok o I pre i e.
Proof.
  intros Hs Hp Hi. destruct (Hs _ _ _ Hp) as (_ & _ & es & Ht & Hl & He).
  destruct (lookup_lt_is_Some_2 es i) as [e Hei]; [lia|]. exists es, e. auto.
Qed.

Lemma walk_ext c t t' o I p v :
  pt_str t o -> 0 <= v -> o !! p = Some (I, prefix I v) ->
  (forall q J, (J <= I)%nat -> o !! q = Some (J, prefix J v) -> t' !! q = t !! q) ->
  walk_by c t' I p v = walk_by c t I p v.
Proof.
  intros Hs Hv. revert p. induction I as [|I IH]; intros p Hp Hq; [done|].
  cbn [walk_by]. rewrite (Hq p (S I)) by done.
  destruct (pt_str_entry _ _ _ _ _ (table_index (S I) v) Hs Hp (table_index_lt _ _))
    as (es & e & Ht & He & _ & _ & Hc & _). rewrite Ht. cbn. rewrite He. cbn.
  destruct (present e) eqn:Hpr; cbn [negb]; [|done].
  destruct (I =? 0)%nat eqn:HI; cbn [orb]; [done|]. apply Nat.eqb_neq in HI.
  destruct (size e) eqn:Hsz; [done|]. f_equal. apply IH.
  - rewrite Hc by (done || lia). f_equal. f_equal; [lia|].
    destruct (Hs _ _ _ Hp) as (_ & Hle & _). by rewrite <- prefix_step by (done || lia).
  - intros q J HJ. apply Hq. lia.
Qed.

(** What is mapped may be written. *)
Lemma mapped_writable t o I p v :
  pt_str t o -> 0 <= v -> o !! p = Some (I, prefix I v) ->
  leaf t I p v <> None -> writable t I p v = true.
Proof.
  intros Hs Hv. revert p. induction I as [|I IH]; intros p Hp Hm; [done|].
  destruct (pt_str_entry _ _ _ _ _ (table_index (S I) v) Hs Hp (table_index_lt _ _))
    as (es & e & Ht & He & _ & Hw & Hc & _).
  rewrite (walk_at_entry _ _ _ _ _ es e Ht He) in Hm. cbn [writable]. rewrite Ht. cbn [mbind option_bind].
  rewrite He, Hw. destruct (present e) eqn:Hpr; [|done]. cbn [negb andb] in *.
  change ((S I =? 1)%nat) with ((I =? 0)%nat). destruct (I =? 0)%nat eqn:H0; [done|]. apply Nat.eqb_neq in H0.
  destruct (size e) eqn:Hsz; [done|]. cbn [orb] in *. rewrite leaf_below in Hm. apply IH; [|done].
  destruct (Hs _ _ _ Hp) as (_ & Hle & _). rewrite Hc, (prefix_step I v) by (done || lia).
  do 2 f_equal. lia.
Qed.

(** The address counts modulo [2 ^ 48] only. *)
Lemma index_mod I v : (I <= 4)%nat -> 0 <= v -> table_index I (v mod 2 ^ 48) = table_index I v.
Proof.
  intros HI Hv. apply Nat2Z.inj. pose proof (Z.mod_pos_bound v (2 ^ 48)).
  rewrite !table_index_div by lia. destruct (es_divides_48 (S I)) as [k Hk]; [lia|].
  pose proof (es_pos I). rewrite es_S in Hk.
  assert (0 < k) by (destruct (Z.leb_spec k 0); [|done]; assert (k * (512 * es I) <= 0) by nia; lia).
  rewrite Hk. replace (k * (512 * es I)) with (es I * (512 * k)) by lia.
  rewrite mod_div_swap by lia. rewrite Z.rem_mul_r by lia.
  rewrite Z.mul_comm, Z_mod_plus_full. by apply Z.mod_mod.
Qed.
Lemma walk_mod c t I p v :
  (I <= 4)%nat -> 0 <= v -> walk_by c t I p (v mod 2 ^ 48) = walk_by c t I p v.
Proof.
  intros HI Hv. revert p HI. induction I as [|I IH]; intros p HI; [done|]. cbn [walk_by].
  rewrite (index_mod (S I)) by lia. destruct (t !! p ≫= _) as [e|]; [|done]. cbn [mbind option_bind].
  destruct (negb (present e)); [done|]. destruct (_ || _); [done|]. f_equal. apply IH. lia.
Qed.
