(* ===== verification/PageMap.v ===== *)
(** * Mapping a range: the specification of [vm_map] *)
From S2P Require Import Prelude Pmm PageTable PageTableLaws.

Section map.
Context {F : Type} `{!FrameAllocator F}.
Implicit Types (s : vm_state F) (o : owners) (l big : list Z) (t : gmap Z (list pmle)).

(** ** Entries in a table that is there *)

Lemma get_entry_ok s p ents i e :
  tables s !! p = Some ents -> ents !! i = Some e -> get_entry p i s = Ok (e, s).
Proof. intros Hp Hi. unfold get_entry. rewrite Hp. cbn. by rewrite Hi. Qed.

Lemma put_entry_ok s p ents i e :
  tables s !! p = Some ents ->
  put_entry p i e s = Ok (tt, set_tables (<[p := <[i := e]> ents]> (tables s)) s).
Proof.
  intros Hp. unfold put_entry, modify. do 3 f_equal. apply map_eq. intros q.
  destruct (decide (q = p)) as [->|Hne].
  - by rewrite lookup_alter_eq, Hp, lookup_insert_eq.
  - by rewrite lookup_alter_ne, lookup_insert_ne by done.
Qed.

(** One entry of one table rewritten, nothing else. *)
Definition with_entry s p (ents : list pmle) (i : nat) (e : pmle) : vm_state F :=
  set_tables (<[p := <[i := e]> ents]> (tables s)) s.

Lemma with_entry_lookup s p ents i e :
  tables (with_entry s p ents i e) !! p = Some (<[i := e]> ents).
Proof. apply lookup_insert_eq. Qed.

Lemma get_with s p ents i e :
  (i < length ents)%nat -> get_entry p i (with_entry s p ents i e) = Ok (e, with_entry s p ents i e).
Proof. intros Hi. eapply get_entry_ok; [apply with_entry_lookup|]. by apply list_lookup_insert_eq. Qed.
Lemma put_with s p ents i e e' :
  put_entry p i e' (with_entry s p ents i e) = Ok (tt, with_entry s p ents i e').
Proof.
  erewrite put_entry_ok by apply with_entry_lookup. unfold with_entry, set_tables. cbn.
  by rewrite insert_insert_eq, list_insert_insert_eq.
Qed.
Lemma bit_lock_ok s p ents i e :
  tables s !! p = Some ents -> ents !! i = Some e -> lock_bit e = false ->
  bit_lock p i s = Ok (tt, with_entry s p ents i (set_lock e true)).
Proof.
  intros Hp Hi Hl. unfold bit_lock. rewrite (bind_Ok _ _ _ _ _ (get_entry_ok _ _ _ _ _ Hp Hi)), Hl.
  by apply put_entry_ok.
Qed.
Lemma bit_unlock_with s p ents i e :
  (i < length ents)%nat ->
  bit_unlock p i (with_entry s p ents i e) = Ok (tt, with_entry s p ents i (set_lock e false)).
Proof. intros Hi. unfold bit_unlock. rewrite (bind_Ok _ _ _ _ _ (get_with _ _ _ _ _ Hi)). apply put_with. Qed.

(** ** The state of the address space and of the allocator *)

Record vm_ok s o l big : Prop := {
  ok_str : pt_str (tables s) o;
  ok_free : fa_free (frames s) l big;
  ok_disj q : is_Some (o !! q) -> q ∉ l ++ big
}.

Definition rest_same s s' : Prop :=
  cr3 s' = cr3 s /\ pending s' = pending s /\ flushed s' = flushed s /\
  unmap_lower_half_called s' = unmap_lower_half_called s.

(** The physical address keeps in step with the virtual one over the entries a
    range spans: it is congruent to it modulo the entry size at every level at
    which the range spans more than one entry. *)
Fixpoint in_step (I : nat) (vs ve phys : Z) : Prop :=
  match I with
  | O => True
  | S I' =>
      I' = O \/ (vs - phys) mod es I = 0 \/
      (ve <= vs - vs mod es I + es I /\ in_step I' vs ve phys)
  end.

(** What [vm_map<I>] is called with: a table that covers the block at [B]. *)
Record map_pre (I : nat) (B p vs ve phys : Z) s o l big : Prop := {
  pre_ok : vm_ok s o l big;
  pre_unlocked : unlocked (tables s) o I (prefix I B);
  pre_own : o !! p = Some (I, prefix I B);
  pre_base : block_base I B;
  pre_range : B <= vs <= ve /\ ve <= B + es (S I) /\ ve < 2 ^ 64;
  pre_align : vs mod 4096 = 0 /\ ve mod 4096 = 0;
  pre_phys : 0 <= phys /\ phys mod 4096 = 0 /\ phys + (ve - vs) <= 2 ^ 52;
  pre_step : in_step I vs ve phys;
  pre_free v : vs <= v < ve -> leaf (tables s) I p v = None;
  pre_frames : (Z.of_nat I - 1) * ((ve - vs) / 4096) <= Z.of_nat (length l)
}.

(** What it leaves: the range translates to the physical pages in order, the
    rest of the block as before, and user mode may still use the pages that their
    last entries open to it; only tables below the block have changed or
    were added, at most one per level and page. *)
Record map_post (I : nat) (B p : Z) (u : bool) (vs ve phys : Z) s o l s' o' l' big : Prop := {
  post_ok : vm_ok s' o' l' big;
  post_unlocked : unlocked (tables s') o' I (prefix I B);
  post_incl : o ⊆ o';
  post_new q J pre : o' !! q = Some (J, pre) -> o !! q = None ->
    in_sub I (prefix I B) J pre /\ (J < I)%nat;
  post_frame q J pre : o !! q = Some (J, pre) -> ~ in_sub I (prefix I B) J pre ->
    tables s' !! q = tables s !! q;
  post_count : Z.of_nat (length l) <= Z.of_nat (length l') + (Z.of_nat I - 1) * ((ve - vs) / 4096);
  post_walk v : in_block I B v ->
    leaf (tables s') I p v =
      (if (vs <=? v) && (v <? ve) then Some (phys + (v - v mod 4096 - vs), u)
       else leaf (tables s) I p v);
  post_user : user_open (tables s) I p B -> user_open (tables s') I p B;
  post_rest : rest_same s s';
  post_suffix : l' `suffix_of` l
}.

Lemma in_range_split vs mid ve v :
  vs <= mid <= ve ->
  ((vs <=? v) && (v <? ve)) = ((vs <=? v) && (v <? mid)) || ((mid <=? v) && (v <? ve)).
Proof.
  intros H. destruct (Z.leb_spec vs v), (Z.ltb_spec v mid), (Z.leb_spec mid v), (Z.ltb_spec v ve); simpl; lia.
Qed.

Lemma map_post_refl I B p u vs phys s o l big :
  vm_ok s o l big -> unlocked (tables s) o I (prefix I B) ->
  map_post I B p u vs vs phys s o l s o l big.
Proof.
  intros Hok Hu. split; [done|done|done| |done| | |done|by repeat split|done].
  - intros q J pre Hq Hn. congruence.
  - rewrite Z.sub_diag. rewrite Z.div_0_l by lia. lia.
  - intros v _. destruct (Z.leb_spec vs v), (Z.ltb_spec v vs); try done; lia.
Qed.

Lemma map_post_trans I B p u vs mid ve phys phys' s o l s1 o1 l1 s2 o2 l2 big :
  (1 <= I)%nat ->
  vs <= mid <= ve -> (mid - vs) mod 4096 = 0 -> (mid < ve -> phys' - mid = phys - vs) ->
  map_post I B p u vs mid phys s o l s1 o1 l1 big ->
  map_post I B p u mid ve phys' s1 o1 l1 s2 o2 l2 big ->
  map_post I B p u vs ve phys s o l s2 o2 l2 big.
Proof.
  intros HI Hmid Hal Hph [ok1 un1 in1 ne1 fr1 co1 tr1 us1 re1 sf1] [ok2 un2 in2 ne2 fr2 co2 tr2 us2 re2 sf2].
  split; [done|done|by etrans| | | | |by auto| |by etrans].
  - intros q J pre Hq Hn. destruct (o1 !! q) as [[J' pre']|] eqn:Hq1; [|by apply ne2 in Hq].
    assert (o2 !! q = Some (J', pre')) by (by eapply lookup_weaken). simplify_eq.
    by apply ne1 in Hq1.
  - intros q J pre Hq Hn. rewrite (fr2 q J pre), (fr1 q J pre); [done|done|done| |done].
    by eapply lookup_weaken.
  - apply Z.mod_divide in Hal as [k Hk]; [|lia].
    replace (ve - vs) with ((ve - mid) + k * 4096) by lia. rewrite Z.div_add by lia.
    replace (mid - vs) with (0 + k * 4096) in co1 by lia.
    rewrite Z.div_add in co1 by lia. rewrite Z.div_0_l in co1 by lia. lia.
  - intros v Hv. rewrite tr2, tr1 by done. rewrite (in_range_split vs mid ve) by done.
    destruct (Z.leb_spec mid v), (Z.ltb_spec v ve), (Z.leb_spec vs v), (Z.ltb_spec v mid);
      cbn [andb orb]; try lia; try done.
    do 2 f_equal. lia.
  - destruct re1 as (?&?&?&?), re2 as (?&?&?&?). repeat split; congruence.
Qed.

(** ** One round *)

Lemma round_start I B v :
  block_base I B -> in_block I B v -> v - v mod es I = part I B (table_index I v).
Proof.
  intros HB Hv. pose proof (block_index _ _ _ HB Hv) as Hix. unfold part. rewrite Hix.
  destruct HB as (_ & Hm & _). rewrite es_S in Hm. pose proof (es_pos I).
  apply Z.mod_divide in Hm as [k ->]; [|lia].
  pose proof (Z.div_mod (v - k * (512 * es I)) (es I) ltac:(lia)).
  replace (v - k * (512 * es I)) with (v + (- (k * 512)) * es I) in * by lia.
  rewrite Z_mod_plus_full in *. lia.
Qed.

Lemma unlocked_with s o I pre p J pre' ents i e e' :
  unlocked (tables s) o I pre -> o !! p = Some (J, pre') -> tables s !! p = Some ents ->
  ents !! i = Some e -> lock_bit e' = false ->
  unlocked (tables (with_entry s p ents i e')) o I pre.
Proof.
  intros Hu Hp Ht Hi Hl q J' pre2 es' j e2 Hq Hs Hq' He.
  destruct (decide (q = p)) as [->|Hne].
  - rewrite with_entry_lookup in Hq'. simplify_eq. apply list_lookup_insert_Some in He.
    destruct He as [(-> & -> & _)|(_ & He)]; [done|]. by eapply Hu.
  - cbn in Hq'. rewrite lookup_insert_ne in Hq' by done. by eapply Hu.
Qed.

Lemma pt_str_with s o p I pre ents i e' :
  pt_str (tables s) o -> o !! p = Some (I, pre) -> tables s !! p = Some ents ->
  entry_ok o I pre i e' -> pt_str (tables (with_entry s p ents i e')) o.
Proof.
  intros Hs Hp Ht He q J pre' Hq. destruct (Hs _ _ _ Hq) as (Hf & HJ & es' & Hes & Hl & Hok).
  split; [done|]. split; [done|]. cbn. destruct (decide (q = p)) as [->|Hne].
  - simplify_eq. rewrite lookup_insert_eq. eexists. split; [done|]. split; [by rewrite length_insert|].
    intros j e Hj. apply list_lookup_insert_Some in Hj as [(-> & -> & _)|(_ & Hj)]; auto.
  - rewrite lookup_insert_ne by done. by exists es'.
Qed.

(** The last level: one page. *)
Lemma map_round_page child fl B p vs ve phys s o l big :
  map_pre 1 B p vs ve phys s o l big -> vs < ve ->
  exists s', map_round 1 1 child fl p (table_index 1 vs) vs (entry_end 1 vs ve) phys s = Ok (tt, s') /\
    map_post 1 B p (has_flag fl flags_user) vs (entry_end 1 vs ve) phys s o l s' o l big.
Proof.
  intros [[Hstr Hfree Hdisj] Hun Hown Hbase (Hr1 & Hr2 & Hr3) [Ha1 Ha2] (Hp1 & Hp2 & Hp3) _ Hnone _] Hlt.
  pose proof (es_pos 2).
  assert (in_block 1 B vs) as Hin by (unfold in_block; lia).
  pose proof (round_start _ _ _ Hbase Hin) as Hst. rewrite es_1, Ha1, Z.sub_0_r in Hst.
  rewrite entry_end_min, es_1, Ha1, Z.sub_0_r by (destruct Hbase; lia).
  assert (vs + 4096 <= ve) as Hve.
  { apply Z.mod_divide in Ha1 as [a ->]; [|lia]. apply Z.mod_divide in Ha2 as [b ->]; [|lia]. lia. }
  rewrite Z.min_l by done. set (i := table_index 1 vs) in *.
  pose proof (table_index_lt 1 vs) as Hi. fold i in Hi.
  destruct (pt_str_entry _ _ _ _ _ i Hstr Hown Hi) as (ents & e & Ht & He & Hea & Hew & _).
  assert (length ents = 512%nat) as Hlen by (destruct (Hstr _ _ _ Hown) as (_&_&es'&?&?&_); simplify_eq; done).
  assert (lock_bit e = false) as Hl by (eapply Hun; [done|apply in_sub_refl|done|done]).
  assert (present e = false) as Hpr.
  { specialize (Hnone vs ltac:(lia)). cbn [walk_by] in Hnone. fold i in Hnone.
    rewrite Ht in Hnone. cbn in Hnone. rewrite He in Hnone. cbn in Hnone. by destruct (present e). }
  set (u := has_flag fl flags_user).
  set (e1 := set_lock (set_user (assign_page 1 (set_lock e true) phys) u) false).
  exists (with_entry s p ents i e1). split.
  { unfold map_round. rewrite (bind_Ok _ _ _ _ _ (bit_lock_ok _ _ _ _ _ Ht He Hl)).
    erewrite bind_Ok by (apply get_with; lia). cbn [Nat.eqb present set_lock].
    rewrite Hpr, bind_assoc.
    rewrite (bind_Ok _ _ _ _ _ (put_with _ _ _ _ _ _)), bind_assoc.
    erewrite bind_Ok by (apply get_with; lia).
    rewrite (bind_Ok _ _ _ _ _ (put_with _ _ _ _ _ _)). apply bit_unlock_with. lia. }
  assert (entry_ok o 1 (prefix 1 B) i e1) as Hok1 by (split; [apply address_field_ok|split; [done|split; [lia|done]]]).
  split; [split; [by eapply pt_str_with|done|done]|by eapply unlocked_with|done| | | | | |by repeat split|done].
  - intros q J pre Hq Hn. congruence.
  - intros q J pre Hq Hn. cbn. apply lookup_insert_ne. intros ->. simplify_eq.
    apply Hn, in_sub_refl.
  - replace (vs + 4096 - vs) with 4096 by lia. rewrite Z.div_same by lia. lia.
  - intros v Hv. cbn [walk_by]. rewrite with_entry_lookup, Ht. cbn.
    pose proof (part_index 1 B i v Hbase Hv) as Hpi. rewrite es_1, <- Hst in Hpi.
    destruct (decide (table_index 1 v = i)) as [Hvi|Hvi].
    + rewrite Hvi, list_lookup_insert_eq by lia. cbn. apply Hpi in Hvi.
      rewrite (proj2 (Z.leb_le _ _)), (proj2 (Z.ltb_lt _ _)) by lia. cbn [andb].
      assert (get_phys e1 = phys) as -> by (apply (get_phys_page 1 phys e); unfold frame_ok; lia).
      do 2 f_equal.
      apply Z.mod_divide in Ha1 as [a Ha]; [|lia].
      assert (v - v mod 4096 = vs); [|lia].
      replace v with ((v - vs) + a * 4096) at 2 by lia. rewrite Z_mod_plus_full, Z.mod_small; lia.
    + rewrite list_lookup_insert_ne by done.
      destruct (Z.leb_spec vs v), (Z.ltb_spec v (vs + 4096)); cbn [andb]; try done.
      exfalso. apply Hvi, Hpi. lia.
  - intros _ v _. cbn [walk_by]. by destruct (tables _ !! p).
Qed.

(** ** Entering the table below an entry *)

(** The commands of a round before the recursive call. *)
Definition enter fl p i : M (vm_state F) unit :=
  bit_lock p i ;;
  let* e := get_entry p i in
  (if present e then ret tt
   else let* f := new_table in
        let* e := get_entry p i in
        put_entry p i (assign_table e f)) ;;
  let* e := get_entry p i in
  put_entry p i (set_user e (user e || has_flag fl flags_user)).

(** After them: the table [q] is behind the entry, which is locked and open to user
    mode if it was or if [u] asks for it; [q] may be new. *)
Record entered (I : nat) (pre : Z) (p : Z) (i : nat) (ents : list pmle) s o l s1 o1 l1 big
    (u : bool) (e1 : pmle) : Prop := {
  en_ok : vm_ok s1 o1 l1 big;
  en_unlocked : unlocked (tables s1) o1 I (pre * 512 + Z.of_nat i);
  en_entry : tables s1 !! p = Some (<[i := e1]> ents) /\ present e1 = true /\ size e1 = false;
  en_own : o1 !! get_phys e1 = Some (I, pre * 512 + Z.of_nat i);
  en_incl : o ⊆ o1;
  en_new q : is_Some (o1 !! q) -> o !! q = None -> q = get_phys e1;
  en_frame q : q <> p -> is_Some (o !! q) -> tables s1 !! q = tables s !! q;
  en_count : Z.of_nat (length l) <= Z.of_nat (length l1) + 1;
  en_user : exists e, ents !! i = Some e /\ user e1 = user e || u /\
    forall c v, 0 <= v -> table_index (S I) v = i -> prefix (S I) v = pre ->
      walk_by c (tables s) (S I) p v = prod_map id (c (user e)) <$> walk_by c (tables s1) I (get_phys e1) v;
  en_rest : rest_same s s1;
  en_suffix : l1 `suffix_of` l
}.

Lemma pt_str_new s o f J pre t' :
  pt_str (tables s) o -> frame_ok f -> o !! f = None -> (1 <= J <= 4)%nat ->
  t' = <[f := pmlt_init]> (tables s) -> pt_str t' (<[f := (J, pre)]> o).
Proof.
  intros Hs Hf Hn HJ -> q K pre' Hq. destruct (decide (q = f)) as [->|Hne].
  - rewrite lookup_insert_eq in Hq. simplify_eq. split; [done|]. split; [done|].
    rewrite lookup_insert_eq. exists pmlt_init. split; [done|]. split; [apply length_replicate|].
    intros i e He. apply lookup_replicate in He as [-> _]. split; [cbn; lia|done].
  - rewrite lookup_insert_ne in Hq by done. destruct (Hs _ _ _ Hq) as (H1 & H2 & es' & H3 & H4 & H5).
    split; [done|]. split; [done|]. rewrite lookup_insert_ne by done. exists es'.
    split; [done|]. split; [done|]. intros i e He. destruct (H5 i e He) as (H6 & Hw & H7 & H8).
    split; [done|]. split; [done|]. split; [|done]. intros. rewrite lookup_insert_ne; [by apply H7|]. intros E.
    rewrite <- E in H7. rewrite H7 in Hn by done. done.
Qed.

Lemma walk_new_empty c t I f v :
  t !! f = Some pmlt_init -> (1 <= I)%nat -> walk_by c t I f v = None.
Proof.
  intros Ht HI. destruct I as [|I]; [lia|].
  rewrite (walk_at_entry _ _ _ _ _ _ pmle_init Ht); [done|]. apply lookup_replicate_2, table_index_lt.
Qed.

Lemma new_table_ok s f l big :
  fa_free (frames s) (f :: l) big ->
  exists fr, new_table s = Ok (f, set_tables (<[f := pmlt_init]> (tables s)) (set_frames fr s)) /\
    fa_free fr l big.
Proof.
  intros Hf. destruct (fa_pop_ok _ _ _ _ Hf) as (fr & E & Hf').
  exists fr. split; [|done]. unfold new_table, on_frames, bind. by rewrite E.
Qed.

Lemma enter_present I fl p pre i ents e s o l big :
  vm_ok s o l big -> unlocked (tables s) o (S I) pre -> o !! p = Some (S I, pre) ->
  (1 <= I <= 3)%nat -> tables s !! p = Some ents -> ents !! i = Some e ->
  present e = true -> size e = false ->
  exists s1 e1, enter fl p i s = Ok (tt, s1) /\ entered I pre p i ents s o l s1 o l big (has_flag fl flags_user) e1.
Proof.
  intros [Hstr Hfree Hdisj] Hun Hown HI Ht He Hpr Hsz.
  assert (lock_bit e = false) as Hl by (eapply Hun; [done|apply in_sub_refl|done|done]).
  destruct (Hstr _ _ _ Hown) as (_ & _ & es' & Ht' & Hlen & Hents). simplify_eq.
  pose proof (lookup_lt_Some _ _ _ He) as Hi.
  destruct (Hents _ _ He) as (Hea & Hew & Hec & _). specialize (Hec Hpr ltac:(lia) Hsz).
  replace (S I - 1)%nat with I in Hec by lia.
  set (e1 := set_user (set_lock e true) (user e || has_flag fl flags_user)).
  exists (with_entry s p ents i e1), e1. split.
  { unfold enter. rewrite (bind_Ok _ _ _ _ _ (bit_lock_ok _ _ _ _ _ Ht He Hl)).
    erewrite bind_Ok by (apply get_with; lia). cbn [present set_lock]. rewrite Hpr.
    erewrite bind_Ok by reflexivity. erewrite bind_Ok by (apply get_with; lia). apply put_with. }
  assert (forall q, q <> p -> tables (with_entry s p ents i e1) !! q = tables s !! q) as Hfr
    by (intros; by apply lookup_insert_ne).
  split; [| |split; [apply with_entry_lookup|done]|done|done| |by auto|lia| |by repeat split|done].
  - split; [|done|done]. eapply pt_str_with; [done..|]. do 2 (split; [done|]). split; [|done]. intros.
    replace (S I - 1)%nat with I by lia. exact Hec.
  - intros q J pre' es2 j e2 Hq Hs Hq2 He2. assert (q <> p).
    { intros ->. simplify_eq. destruct Hs. lia. }
    rewrite Hfr in Hq2 by done. eapply Hun; [done|eapply in_sub_child; [|done]; lia|done|done].
  - intros q [? Hq] Hn. congruence.
  - exists e. split; [done|]. split; [done|]. intros c v Hv Hvi Hvp.
    rewrite (walk_ext c (tables s) (tables (with_entry s p ents i e1)) o I); [|done|done| |].
    + rewrite (walk_at_entry c _ _ _ _ ents e), Hpr, Hsz by (done || by rewrite Hvi).
      destruct I; [lia|]. done.
    + etrans; [exact Hec|]. do 2 f_equal. rewrite <- Hvp, <- Hvi. by rewrite <- prefix_step by (done || lia).
    + intros q J HJ Hq. apply Hfr. intros ->. simplify_eq. lia.
Qed.

Lemma enter_absent I fl p pre i ents e s o f l big :
  vm_ok s o (f :: l) big -> unlocked (tables s) o (S I) pre -> o !! p = Some (S I, pre) ->
  (1 <= I <= 3)%nat -> tables s !! p = Some ents -> ents !! i = Some e ->
  present e = false -> size e = false ->
  exists s1 e1, enter fl p i s = Ok (tt, s1) /\
    entered I pre p i ents s o (f :: l) s1 (<[f := (I, pre * 512 + Z.of_nat i)]> o) l big
      (has_flag fl flags_user) e1.
Proof.
  intros [Hstr Hfree Hdisj] Hun Hown HI Ht He Hpr Hsz.
  assert (lock_bit e = false) as Hl by (eapply Hun; [done|apply in_sub_refl|done|done]).
  destruct (Hstr _ _ _ Hown) as (_ & _ & es' & Ht' & Hlen & Hents). simplify_eq.
  pose proof (lookup_lt_Some _ _ _ He) as Hi.
  destruct (fa_frames _ _ _ Hfree) as [Hnd Hfok]. apply Forall_cons in Hfok as [Hf _].
  destruct (Hents _ _ He) as (_ & Hew & _).
  assert (o !! f = None) as Hof.
  { destruct (o !! f) eqn:E; [|done]. exfalso. apply (Hdisj f); [by rewrite E|]. simpl. set_solver. }
  assert (f <> p) as Hfp by congruence.
  destruct (new_table_ok (with_entry s p ents i (set_lock e true)) f l big Hfree) as (fr & En & Hfree').
  set (s0 := set_tables (<[f := pmlt_init]> (tables s)) (set_frames fr s)).
  set (e1 := set_user (assign_table (set_lock e true) f) (user e || has_flag fl flags_user)).
  assert (get_phys e1 = f) as Hq by (by apply (get_phys_table f (set_lock e true))).
  exists (with_entry s0 p ents i e1), e1. split.
  { unfold enter. rewrite (bind_Ok _ _ _ _ _ (bit_lock_ok _ _ _ _ _ Ht He Hl)).
    erewrite bind_Ok by (apply get_with; lia). cbn [present set_lock]. rewrite Hpr, bind_assoc.
    rewrite (bind_Ok _ _ _ _ _ En).
    assert (set_tables (<[f := pmlt_init]> (tables (with_entry s p ents i (set_lock e true))))
              (set_frames fr (with_entry s p ents i (set_lock e true)))
            = with_entry s0 p ents i (set_lock e true)) as ->.
    { unfold s0, with_entry, set_tables, set_frames. cbn. by rewrite insert_insert_ne. }
    rewrite bind_assoc. erewrite bind_Ok by (apply get_with; lia).
    rewrite (bind_Ok _ _ _ _ _ (put_with _ _ _ _ _ _)).
    erewrite bind_Ok by (apply get_with; lia). apply put_with. }
  assert (forall q, q <> p -> q <> f -> tables (with_entry s0 p ents i e1) !! q = tables s !! q) as Hfr.
  { intros q ??. cbn. by rewrite !lookup_insert_ne by done. }
  assert (tables (with_entry s0 p ents i e1) !! f = Some pmlt_init) as Hnew.
  { cbn. by rewrite lookup_insert_ne, lookup_insert_eq by done. }
  split; [| |split; [apply with_entry_lookup|done]| | | | | | |by repeat split|by apply suffix_cons_r].
  - split; [|done|].
    + eapply pt_str_with; [by eapply (pt_str_new s); [| | |lia|]|by rewrite lookup_insert_ne| |].
      * cbn. by rewrite lookup_insert_ne.
      * split; [apply address_field_ok|]. split; [done|]. split; [|done]. intros. rewrite Hq, lookup_insert_eq.
        by replace (S I - 1)%nat with I by lia.
    + intros q [x Hx]. destruct (decide (q = f)) as [->|]; [apply NoDup_cons in Hnd; tauto|].
      rewrite lookup_insert_ne in Hx by done. pose proof (Hdisj q ltac:(eauto)). set_solver.
  - intros q J pre' es2 j e2 Hqo Hs Hq2 He2. destruct (decide (q = f)) as [->|].
    { rewrite Hnew in Hq2. simplify_eq. by apply lookup_replicate in He2 as [-> _]. }
    rewrite lookup_insert_ne in Hqo by done. assert (q <> p).
    { intros ->. simplify_eq. destruct Hs. lia. }
    rewrite Hfr in Hq2 by done. eapply Hun; [done|eapply in_sub_child; [|done]; lia|done|done].
  - by rewrite Hq, lookup_insert_eq.
  - by apply insert_subseteq.
  - intros q [x Hx] Hn. destruct (decide (q = f)) as [->|]; [done|].
    rewrite lookup_insert_ne in Hx by done. congruence.
  - intros q Hqp [x Hx]. apply Hfr; [done|]. congruence.
  - simpl. lia.
  - exists e. split; [done|]. split; [done|]. intros c v Hv Hvi Hvp.
    rewrite Hq, (walk_new_empty _ _ _ _ _ Hnew) by lia.
    rewrite (walk_at_entry _ _ _ _ _ ents e) by (done || by rewrite Hvi). by rewrite Hpr.
Qed.

Lemma in_step_same I (vs ve' phys phys' vs' : Z) :
  (vs - phys) mod es (S I) = 0 -> vs' - phys' = vs - phys -> in_step I vs' ve' phys'.
Proof.
  intros Hm Heq. destruct I as [|I]; [done|]. right. left. rewrite Heq.
  apply Z.mod_divide; [pose proof (es_pos (S I)); lia|].
  etrans; [apply (es_divides (S I) (S (S I))); lia|].
  apply Z.mod_divide; [pose proof (es_pos (S (S I))); lia|done].
Qed.

Lemma pages_between a b : a mod 4096 = 0 -> b mod 4096 = 0 -> a < b -> 1 <= (b - a) / 4096.
Proof.
  intros Ha Hb Hab. apply Z.mod_divide in Ha as [x ->]; [|lia]. apply Z.mod_divide in Hb as [y ->]; [|lia].
  apply Z.div_le_lower_bound; lia.
Qed.

(** The call on the table below, from a round at an entry. *)
Lemma child_pre I B p vs ve phys s o l s1 o1 l1 big ents u e1 :
  map_pre (S I) B p vs ve phys s o l big -> vs < ve -> (1 <= I <= 3)%nat ->
  let i := table_index (S I) vs in let ee := entry_end (S I) vs ve in
  entered I (prefix (S I) B) p i ents s o l s1 o1 l1 big u e1 ->
  map_pre I (part (S I) B i) (get_phys e1) vs ee phys s1 o1 l1 big /\
  vs < ee <= ve /\ ee = Z.min (part (S I) B i + es (S I)) ve /\
  part (S I) B i <= vs < part (S I) B i + es (S I) /\ (i < 512)%nat /\ ee mod 4096 = 0.
Proof.
  intros [Hok Hun Hown Hbase (Hr1 & Hr2 & Hr3) [Ha1 Ha2] (Hp1 & Hp2 & Hp3) Hst Hnone Hfr] Hlt HI i ee En.
  assert (in_block (S I) B vs) as Hin by (unfold in_block; lia).
  assert (0 <= vs) by (destruct Hbase; lia).
  pose proof (table_index_lt (S I) vs : (i < 512)%nat) as Hi.
  pose proof (proj1 (part_index _ _ i _ Hbase Hin) eq_refl) as Hpart.
  assert (ee = Z.min (part (S I) B i + es (S I)) ve) as Hee.
  { unfold ee. rewrite entry_end_min by lia. by rewrite (round_start _ _ _ Hbase Hin). }
  assert (part (S I) B i mod 4096 = 0) as Hpm.
  { destruct (part_base I B i Hbase Hi) as (_ & Hm & _). apply Z.mod_divide; [lia|].
    etrans; [apply (es_divides 1 (S I)); lia|]. by apply Z.mod_divide; [pose proof (es_pos (S I)); lia|]. }
  assert (ee mod 4096 = 0) as Hem.
  { rewrite Hee. destruct (Z.min_spec (part (S I) B i + es (S I)) ve) as [[_ ->]|[_ ->]]; [|done].
    destruct (es_divides 1 (S I)) as [k ->]; [lia|]. rewrite es_1, Z_mod_plus_full. done. }
  pose proof (es_pos (S I)).
  split; [|split; [lia|done]]. destruct En. split.
  - done.
  - by rewrite part_prefix by (done || lia).
  - by rewrite part_prefix by (done || lia).
  - by apply part_base.
  - lia.
  - done.
  - lia.
  - destruct Hst as [->|[Hst|[Hle Hst]]]; [lia|by eapply in_step_same|].
    rewrite (round_start _ _ _ Hbase Hin) in Hle. fold i in Hle. by replace ee with ve by lia.
  - intros v Hv. assert (in_block (S I) B v) as Hvb by (unfold in_block; lia).
    destruct en_user0 as (e & _ & _ & Hw). specialize (Hnone v ltac:(lia)).
    rewrite Hw, leaf_below in Hnone; [done|lia| |].
    + apply (part_index _ B); [done|done|]. lia.
    + by apply block_prefix; [lia| |].
  - pose proof (pages_between vs ee Ha1 Hem ltac:(lia)).
    assert ((ee - vs) / 4096 <= (ve - vs) / 4096) by (apply Z.div_le_mono; lia). nia.
Qed.

(** Leaving: the entry is unlocked again. *)
Definition left_with s p (ents : list pmle) (i : nat) (e : pmle) : vm_state F :=
  set_tables (<[p := <[i := set_lock e false]> ents]> (tables s)) s.

Lemma bit_unlock_left s p ents i e :
  tables s !! p = Some (<[i := e]> ents) -> (i < length ents)%nat ->
  bit_unlock p i s = Ok (tt, left_with s p ents i e).
Proof.
  intros Ht Hi. unfold bit_unlock.
  erewrite bind_Ok by (eapply get_entry_ok; [done|by apply list_lookup_insert_eq]).
  erewrite put_entry_ok by done. unfold left_with. by rewrite list_insert_insert_eq.
Qed.

Section close.
Context (I : nat) (B p vs ve phys : Z) (u : bool) (s : vm_state F) (o : owners) (l big : list Z).
Context (s1 : vm_state F) (o1 : owners) (l1 : list Z) (ents : list pmle) (e1 : pmle).
Context (s2 : vm_state F) (o2 : owners) (l2 : list Z).
Abbreviation i := (table_index (S I) vs).
Abbreviation ee := (entry_end (S I) vs ve).
Abbreviation s3 := (left_with s2 p ents i e1).
Hypothesis (P : map_pre (S I) B p vs ve phys s o l big) (Hlt : vs < ve) (HI : (1 <= I <= 3)%nat).
Hypothesis (Ht : tables s !! p = Some ents) (Hlen : length ents = 512%nat).
Hypothesis (En : entered I (prefix (S I) B) p i ents s o l s1 o1 l1 big u e1).
Hypothesis (Q : map_post I (part (S I) B i) (get_phys e1) u vs ee phys s1 o1 l1 s2 o2 l2 big).

Lemma close_sub : prefix I (part (S I) B i) = prefix (S I) B * 512 + Z.of_nat i.
Proof. destruct P. by apply part_prefix; [lia| |apply table_index_lt]. Qed.

(** Tables outside the part keep their contents, the one of the entry apart. *)
Lemma close_frame q J pre :
  o !! q = Some (J, pre) -> q <> p -> ~ in_sub I (prefix (S I) B * 512 + Z.of_nat i) J pre ->
  tables s3 !! q = tables s !! q.
Proof.
  intros Hq Hqp Hn. cbn. rewrite lookup_insert_ne by done. destruct En, Q.
  rewrite (post_frame0 q J pre); [by apply en_frame0|by eapply lookup_weaken|by rewrite close_sub].
Qed.
Lemma close_same q : q <> p -> tables s3 !! q = tables s2 !! q.
Proof. intros. cbn. by rewrite lookup_insert_ne. Qed.

Lemma own_p : o2 !! p = Some (S I, prefix (S I) B).
Proof. destruct P, En, Q. eapply lookup_weaken; [|done]. by eapply lookup_weaken. Qed.
Lemma entry_p : tables s2 !! p = Some (<[i := e1]> ents).
Proof.
  destruct P, En, Q. rewrite <- (proj1 en_entry0).
  eapply post_frame0; [by eapply lookup_weaken|]. intros [H _]. lia.
Qed.

Lemma close_str : pt_str (tables s3) o2.
Proof.
  destruct P, En, Q. intros q J pre Hq.
  destruct (ok_str _ _ _ _ post_ok0 q J pre Hq) as (Hf & HJ & es' & Hes & Htab).
  split; [done|]. split; [done|]. destruct (decide (q = p)) as [->|Hne].
  - rewrite entry_p in Hes. simplify_eq. cbn. rewrite lookup_insert_eq. eexists. split; [done|].
    destruct Htab as [Hl He]. split; [by rewrite length_insert in *|].
    intros j e Hj. apply list_lookup_insert_Some in Hj as [(<- & <- & _)|(Hji & Hj)].
    + apply (He _ e1). apply list_lookup_insert_eq. pose proof (table_index_lt (S I) vs). lia.
    + apply He. by rewrite list_lookup_insert_ne.
  - rewrite close_same by done. by exists es'.
Qed.

Lemma close_unlocked : unlocked (tables s3) o2 (S I) (prefix (S I) B).
Proof.
  intros q J pre es2 j e2 Hq Hs Hq2 He2. destruct P, En, Q. destruct (decide (q = p)) as [->|Hne].
  { cbn in Hq2. rewrite lookup_insert_eq in Hq2. simplify_eq.
    apply list_lookup_insert_Some in He2 as [(<- & <- & _)|(_ & He2)]; [done|].
    eapply pre_unlocked0; [done|apply in_sub_refl|done|done]. }
  rewrite close_same in Hq2 by done.
  destruct (decide (in_sub I (prefix (S I) B * 512 + Z.of_nat i) J pre)) as [Hin|Hout].
  { eapply post_unlocked0; [done| |done|done]. by rewrite close_sub. }
  assert (o1 !! q = Some (J, pre)) as Hq1.
  { destruct (o1 !! q) as [x|] eqn:E; [|destruct (post_new0 _ _ _ Hq E) as [H _]; by rewrite close_sub in H].
    f_equal. symmetry. eapply (lookup_weaken _ o2) in E; [|done]. congruence. }
  assert (o !! q = Some (J, pre)) as Hq0.
  { destruct (o !! q) as [x|] eqn:E.
    - f_equal. symmetry. eapply (lookup_weaken _ o1) in E; [|done]. congruence.
    - assert (q = get_phys e1) as -> by (apply en_new0; by eauto). simplify_eq.
      destruct Hout. apply in_sub_refl. }
  eapply pre_unlocked0; [done|done| |done].
  rewrite <- Hq2, <- en_frame0 by (done || by eauto).
  symmetry. eapply post_frame0; [done|]. by rewrite close_sub.
Qed.

(** Addresses of the part go through the entry, the others do not. *)
Lemma close_walk_in c v :
  in_block (S I) B v -> table_index (S I) v = i ->
  walk_by c (tables s3) (S I) p v = prod_map id (c (user e1)) <$> walk_by c (tables s2) I (get_phys e1) v.
Proof.
  intros Hv Hvi. pose proof (table_index_lt (S I) vs) as Hi. destruct P, En, Q.
  destruct en_entry0 as (_ & Hpr & Hsz). assert (0 <= v) by (destruct pre_base0, Hv; lia).
  erewrite walk_at_entry; [|apply lookup_insert_eq|rewrite Hvi; apply list_lookup_insert_eq; lia].
  cbn [present size user set_lock]. rewrite Hpr, Hsz, orb_false_r. cbn [negb].
  rewrite (proj2 (Nat.eqb_neq I 0)) by lia. f_equal.
  apply (walk_ext _ _ _ o2); [by apply post_ok0|done| |].
  - eapply lookup_weaken; [|done]. etrans; [exact en_own0|]. do 2 f_equal.
    rewrite (prefix_step I v), Hvi by (done || lia). by rewrite (block_prefix (S I) B v) by (done || lia).
  - intros q J HJ Hq. apply close_same. intros ->. rewrite own_p in Hq. simplify_eq. lia.
Qed.

Lemma close_walk_out c v :
  in_block (S I) B v -> table_index (S I) v <> i ->
  walk_by c (tables s3) (S I) p v = walk_by c (tables s) (S I) p v.
Proof.
  intros Hv Hvi. destruct P. assert (0 <= v) by (destruct pre_base0, Hv; lia).
  pose proof (ok_str _ _ _ _ pre_ok0) as Hstr.
  destruct (pt_str_entry _ _ _ _ _ (table_index (S I) v) Hstr pre_own0 (table_index_lt _ _))
    as (ents' & e & Ht' & He & _ & _ & Hc & _). simplify_eq.
  rewrite (walk_at_entry c (tables s) _ _ _ ents e) by done.
  erewrite walk_at_entry; [|apply lookup_insert_eq|by rewrite list_lookup_insert_ne].
  destruct (present e) eqn:Hpr; [|done]. cbn [negb]. destruct ((I =? 0)%nat || size e) eqn:Hor; [done|].
  apply orb_false_iff in Hor as [_ Hsz]. specialize (Hc eq_refl ltac:(lia) Hsz).
  replace (S I - 1)%nat with I in Hc by lia.
  pose proof (prefix_step I v ltac:(lia) ltac:(done)) as Hps.
  rewrite (block_prefix (S I) B v) in Hps by (done || lia). f_equal.
  apply (walk_ext _ _ _ o); [done|done|by rewrite Hps|].
  intros q J HJ Hq. eapply close_frame; [done| |].
  - intros ->. rewrite pre_own0 in Hq. simplify_eq. lia.
  - intros Hin. pose proof (in_sub_prefix I J v ltac:(lia) ltac:(done)) as Hin2. rewrite Hps in Hin2.
    destruct (in_sub_child_inj _ _ _ _ _ _ _ (table_index_lt _ _) (table_index_lt _ _) Hin Hin2). done.
Qed.

(** The address lies in the part of the entry. *)
Lemma part_of v :
  in_block (S I) B v -> table_index (S I) v = i ->
  in_block I (part (S I) B i) v /\ 0 <= v /\ prefix (S I) v = prefix (S I) B.
Proof.
  intros Hv Hvi. destruct P. apply (part_index _ _ _ _ pre_base0 Hv) in Hvi.
  split; [unfold in_block; lia|]. split; [destruct pre_base0, Hv; lia|]. by apply block_prefix; [lia| |].
Qed.

(** What the entry of the part allows and what the tables below it allowed before. *)
Lemma close_user_before : user_open (tables s) (S I) p B -> user_open (tables s1) I (get_phys e1) (part (S I) B i).
Proof.
  intros Hu v Hv. pose proof (table_index_lt (S I) vs) as Hi.
  assert (in_block (S I) B v) as Hb by (eapply part_in; [exact Hi|unfold in_block in Hv; lia]).
  assert (table_index (S I) v = i) as Hvi by (destruct P; apply (part_index _ B); [done|done|lia]).
  destruct (part_of v Hb Hvi) as (_ & H0 & Hpv).
  destruct (en_user _ _ _ _ _ _ _ _ _ _ _ _ _ _ En) as (e & _ & _ & Hw).
  specialize (Hu v Hb). rewrite !Hw, leaf_below in Hu by done.
  pose proof (translate_leaf (tables s1) I (get_phys e1) v) as Hl.
  destruct (translate _ _ _ _) as [[f x]|], (leaf _ _ _ _) as [[f' x']|]; try done.
  destruct Hl as [-> Hx]. cbn in Hu. simplify_eq. do 2 f_equal. destruct x; [|by rewrite andb_false_r].
  by rewrite Hx, andb_true_r in *.
Qed.

Lemma close_user : user_open (tables s) (S I) p B -> user_open (tables s3) (S I) p B.
Proof.
  intros Hu v Hv. destruct (decide (table_index (S I) v = i)) as [Hvi|Hvi].
  2:{ rewrite !close_walk_out by done. by apply Hu. }
  destruct (part_of v Hv Hvi) as (Hb & H0 & Hpv).
  pose proof (post_user _ _ _ _ _ _ _ _ _ _ _ _ _ _ Q (close_user_before Hu) v Hb) as Hin.
  pose proof (post_walk _ _ _ _ _ _ _ _ _ _ _ _ _ _ Q v Hb) as Hpost.
  rewrite !close_walk_in, Hin, leaf_below by done.
  destruct (en_user _ _ _ _ _ _ _ _ _ _ _ _ _ _ En) as (e & _ & -> & Hw).
  destruct (_ && _).
  { rewrite Hpost. cbn. do 2 f_equal. by destruct (user e), u. }
  rewrite Hpost. pose proof (close_user_before Hu v Hb) as Hc. specialize (Hu v Hv).
  rewrite !Hw, Hc, leaf_below in Hu by done.
  destruct (leaf (tables s1) I (get_phys e1) v) as [[f x]|]; [|done]. cbn in *. do 2 f_equal.
  injection Hu as Hx. destruct x; [|by rewrite andb_false_r]. rewrite andb_true_r in *. by rewrite Hx.
Qed.

Lemma close_post : map_post (S I) B p u vs ee phys s o l s3 o2 l2 big.
Proof.
  pose proof (child_pre _ _ _ _ _ _ _ _ _ _ _ _ _ _ _ _ P Hlt HI En) as (_ & Hee & Hmin & Hpart & Hi & Hem).
  pose proof close_str. pose proof close_unlocked. pose proof close_user.
  pose proof part_of as Hpo. destruct P, En, Q. split; [|done| | | | | |done| |by etrans].
  - destruct post_ok0. by split.
  - by etrans.
  - intros q J pre Hq Hn. destruct (o1 !! q) as [x|] eqn:E.
    + assert (q = get_phys e1) as -> by (apply en_new0; by eauto).
      assert (o2 !! get_phys e1 = Some (I, prefix (S I) B * 512 + Z.of_nat i)) as E2
        by (by eapply lookup_weaken). simplify_eq.
      split; [|lia]. eapply in_sub_child; [exact Hi|apply in_sub_refl].
    + destruct (post_new0 _ _ _ Hq E) as [Hs HJ]. rewrite close_sub in Hs. split; [|lia].
      by eapply in_sub_child.
  - intros q J pre Hq Hn. eapply close_frame; [done| |].
    + intros ->. simplify_eq. apply Hn, in_sub_refl.
    + intros Hs. apply Hn. by eapply in_sub_child.
  - pose proof (pages_between vs ee (proj1 pre_align0) Hem ltac:(lia)). nia.
  - intros v Hv. destruct (decide (table_index (S I) v = i)) as [Hvi|Hvi].
    + destruct (Hpo v Hv Hvi) as (Hb & Hv0 & Hpv). rewrite close_walk_in, leaf_below by done.
      rewrite post_walk0 by done. destruct ((vs <=? v) && (v <? ee)); [done|].
      destruct en_user0 as (e & _ & _ & Hw). by rewrite Hw, leaf_below.
    + rewrite close_walk_out by done.
      destruct (Z.leb_spec vs v), (Z.ltb_spec v ee); cbn [andb]; try done.
      exfalso. apply Hvi. apply (part_index _ B); [done|done|]. lia.
  - destruct en_rest0 as (?&?&?&?), post_rest0 as (?&?&?&?). repeat split; cbn; congruence.
Qed.
End close.

(** ** The loop and the recursion *)

Definition map_spec (I : nat) (fl : Z) (f : Z -> Z -> Z -> Z -> M (vm_state F) unit) : Prop :=
  forall B p vs ve phys s o l big, map_pre I B p vs ve phys s o l big ->
  exists s' o' l', f p vs ve phys s = Ok (tt, s') /\
    map_post I B p (has_flag fl flags_user) vs ve phys s o l s' o' l' big.

Lemma map_round_enter I fl child p i vs ee phys s :
  I <> 1%nat ->
  map_round I 1 child fl p i vs ee phys s =
  (enter fl p i ;; (let* e := get_entry p i in child (get_phys e) vs ee phys) ;; bit_unlock p i) s.
Proof.
  intros HI. unfold map_round, enter. rewrite (proj2 (Nat.eqb_neq I 1)) by done. unfold bind.
  destruct (bit_lock p i s) as [[[] s1]|]; [|done]. destruct (get_entry p i s1) as [[e s2]|]; [|done].
  match goal with |- context [match ?m s2 with _ => _ end] => destruct (m s2) as [[[] s3]|]; [|done] end.
  destruct (get_entry p i s3) as [[e3 s4]|]; [|done]. by destruct (put_entry p i _ s4) as [[[] s5]|].
Qed.

Lemma map_round_spec I fl child B p vs ve phys s o l big :
  (1 <= I <= 4)%nat -> (I <> 1%nat -> map_spec (I - 1) fl child) ->
  map_pre I B p vs ve phys s o l big -> vs < ve ->
  exists s' o' l', map_round I 1 child fl p (table_index I vs) vs (entry_end I vs ve) phys s = Ok (tt, s') /\
    map_post I B p (has_flag fl flags_user) vs (entry_end I vs ve) phys s o l s' o' l' big.
Proof.
  intros HI Hch P Hlt. destruct (decide (I = 1%nat)) as [->|Hne].
  { destruct (map_round_page child fl _ _ _ _ _ _ _ _ _ P Hlt) as (s' & E & Q). by exists s', o, l. }
  destruct I as [|I]; [lia|]. specialize (Hch Hne). replace (S I - 1)%nat with I in Hch by lia.
  pose proof (pre_ok _ _ _ _ _ _ _ _ _ _ P) as Hok. pose proof (pre_own _ _ _ _ _ _ _ _ _ _ P) as Hown.
  pose proof (pre_unlocked _ _ _ _ _ _ _ _ _ _ P) as Hun.
  destruct (ok_str _ _ _ _ Hok _ _ _ Hown) as (_ & _ & ents & Ht & Hlen & Hents).
  pose proof (table_index_lt (S I) vs) as Hi.
  destruct (lookup_lt_is_Some_2 ents (table_index (S I) vs)) as [e He]; [lia|].
  destruct (Hents _ _ He) as (_ & _ & _ & Hna).
  assert (exists s1 o1 l1 e1, enter fl p (table_index (S I) vs) s = Ok (tt, s1) /\
    entered I (prefix (S I) B) p (table_index (S I) vs) ents s o l s1 o1 l1 big
      (has_flag fl flags_user) e1)
    as (s1 & o1 & l1 & e1 & E1 & En).
  { destruct (present e) eqn:Hpr.
    - assert (size e = false) as Hsz.
      { pose proof (pre_free _ _ _ _ _ _ _ _ _ _ P vs ltac:(lia)) as Hn.
        rewrite (walk_at_entry _ _ _ _ _ ents e Ht He), Hpr in Hn. cbn [negb] in Hn.
        destruct (size e); [|done]. by rewrite orb_true_r in Hn. }
      destruct (enter_present I fl p _ (table_index (S I) vs) ents e s o l big Hok Hun Hown) as (s1 & e1 & ? & ?);
        [lia|done..|]. by exists s1, o, l, e1.
    - destruct l as [|f l].
      { pose proof (pre_frames _ _ _ _ _ _ _ _ _ _ P) as Hf.
        destruct (pre_align _ _ _ _ _ _ _ _ _ _ P) as [Ha Hb].
        pose proof (pages_between vs ve Ha Hb Hlt). simpl in Hf. nia. }
      destruct (enter_absent I fl p _ (table_index (S I) vs) ents e s o f l big Hok Hun Hown) as (s1 & e1 & ? & ?);
        [lia|done|done|done|apply Hna; [done|lia]|]. by eexists s1, _, l, e1. }
  pose proof (child_pre _ _ _ _ _ _ _ _ _ _ _ _ _ _ _ _ P Hlt ltac:(lia) En) as (P' & _).
  destruct (Hch _ _ _ _ _ _ _ _ _ P') as (s2 & o2 & l2 & E2 & Q).
  exists (left_with s2 p ents (table_index (S I) vs) e1), o2, l2. split.
  - rewrite map_round_enter by done. rewrite (bind_Ok _ _ _ _ _ E1), bind_assoc.
    destruct (en_entry _ _ _ _ _ _ _ _ _ _ _ _ _ _ En) as [Hp1 _].
    erewrite bind_Ok by (eapply get_entry_ok; [done|apply list_lookup_insert_eq; lia]).
    rewrite (bind_Ok _ _ _ _ _ E2). apply bit_unlock_left; [|lia].
    eapply entry_p; first [exact P|exact En|exact Q|lia|done].
  - eapply close_post; first [exact P|exact En|exact Q|lia|done].
Qed.

(** The state before the next round. *)
Lemma next_pre I B p u vs ve phys s o l s1 o1 l1 big :
  let ee := entry_end I vs ve in
  (1 <= I <= 4)%nat -> map_pre I B p vs ve phys s o l big -> vs < ve ->
  map_post I B p u vs ee phys s o l s1 o1 l1 big ->
  let phys' := Z.land (u64 (phys + entry_size I)) (not64 (entry_size I - 1)) in
  vs < ee <= ve /\ (ee - vs) mod 4096 = 0 /\
  (ee < ve -> phys' - ee = phys - vs /\ map_pre I B p ee ve phys' s1 o1 l1 big /\
     table_index I ee = S (table_index I vs)).
Proof.
  intros ee HI P Hlt Q phys'.
  destruct P as [Hok Hun Hown Hbase (Hr1 & Hr2 & Hr3) [Ha1 Ha2] (Hp1 & Hp2 & Hp3) Hst Hnone Hfr].
  assert (in_block I B vs) as Hin by (unfold in_block; lia).
  assert (0 <= vs) by (destruct Hbase; lia). pose proof (es_pos I).
  pose proof (Z.mod_pos_bound vs (es I) ltac:(lia)).
  assert (ee = Z.min (vs - vs mod es I + es I) ve) as Hee by (unfold ee; by rewrite entry_end_min by lia).
  assert (ee mod 4096 = 0) as Hem by (rewrite Hee; apply round_end_aligned; first [done|lia]).
  split; [lia|]. split; [by rewrite Zminus_mod, Ha1, Hem|]. intros Hlast.
  assert (ee = vs - vs mod es I + es I) as Hee' by lia.
  assert (I = 1%nat \/ (vs - phys) mod es I = 0) as Hcong.
  { destruct I as [|[|I]]; [lia|by left|]. destruct Hst as [?|[?|[Hle _]]]; [lia|by right|lia]. }
  assert (phys' = phys + es I - phys mod es I) as Hph.
  { unfold phys'. rewrite entry_size_es, land_es by (lia || apply u64_is_u64).
    rewrite u64_id. 2:{ unfold is_u64. assert (es I <= es 5); [|change (es 5) with (2 ^ 48) in *; lia].
      apply Z.divide_pos_le; [apply es_pos|]. apply es_divides. lia. }
    replace (phys + es I) with (phys + 1 * es I) at 2 by lia. by rewrite Z_mod_plus_full. }
  assert (phys mod es I = vs mod es I) as Hpm.
  { destruct Hcong as [->|Hc]; [by rewrite es_1, Ha1, Hp2|].
    replace phys with (vs - (vs - phys)) at 1 by lia.
    by rewrite Zminus_mod, Hc, Z.sub_0_r, Z.mod_mod by lia. }
  assert (phys' - ee = phys - vs) as Hkeep by lia. split; [done|].
  destruct Q as [ok1 un1 in1 ne1 fr1 co1 tr1 _ re1 _]. split.
  - split; [done|done|by eapply lookup_weaken|done|lia|done|split; [lia|split; [|lia]]| | |].
    + replace phys' with (phys + (ee - vs)) by lia.
      rewrite Zplus_mod, Hp2, Zminus_mod, Ha1, Hem. done.
    + destruct I as [|[|I]]; [lia|by left|]. destruct Hcong as [?|Hc]; [lia|]. right. left.
      by replace (ee - phys') with (vs - phys) by lia.
    + intros v Hv. rewrite tr1 by (unfold in_block; lia).
      destruct (Z.ltb_spec v ee); [lia|]. rewrite andb_false_r. apply Hnone. lia.
    + assert ((ve - vs) / 4096 = (ve - ee) / 4096 + (ee - vs) / 4096); [|nia].
      apply Z.mod_divide in Ha1 as [a ->]; [|lia]. apply Z.mod_divide in Hem as [b Hb]; [|lia].
      rewrite Hb. replace (ve - a * 4096) with (ve - b * 4096 + (b - a) * 4096) by lia.
      rewrite Z.div_add by lia. rewrite <- Z.mul_sub_distr_r, Z.div_mul by lia. done.
  - apply (part_index _ B); [done|unfold in_block; lia|].
    pose proof (proj1 (part_index _ _ _ _ Hbase Hin) eq_refl) as Hpart.
    pose proof (round_start _ _ _ Hbase Hin). unfold part in *. lia.
Qed.

Lemma map_loop_spec I fl child B p ve fuel idx vs phys s o l big :
  (1 <= I <= 4)%nat -> (I <> 1%nat -> map_spec (I - 1) fl child) ->
  map_pre I B p vs ve phys s o l big -> (vs < ve -> idx = table_index I vs) ->
  (idx <= 512)%nat -> (513 <= fuel + idx)%nat ->
  exists s' o' l', map_loop I 1 child fl p ve fuel idx vs phys s = Ok (tt, s') /\
    map_post I B p (has_flag fl flags_user) vs ve phys s o l s' o' l' big.
Proof.
  intros HI Hch. revert idx vs phys s o l.
  induction fuel as [|fuel IH]; intros idx vs phys s o l P Hidx Hle Hf; [lia|].
  cbn [map_loop].
  destruct (Z.ltb_spec vs ve) as [Hlt|Hge]; cbn [negb].
  - rewrite (Hidx Hlt) in *. clear Hidx Hle idx. pose proof (table_index_lt I vs).
    destruct (map_round_spec I fl child B p vs ve phys s o l big HI Hch P Hlt) as (s1 & o1 & l1 & E1 & Q1).
    rewrite (bind_Ok _ _ _ _ _ E1).
    pose proof (next_pre _ _ _ _ _ _ _ _ _ _ _ _ _ _ HI P Hlt Q1) as (Hee & Hal & Hnext).
    destruct (decide (entry_end I vs ve < ve)) as [Hlast|Hlast].
    + destruct (Hnext Hlast) as (Hkeep & P1 & Hix).
      destruct (IH (S (table_index I vs)) _ _ _ _ _ P1) as (s2 & o2 & l2 & E2 & Q2); [by rewrite Hix|lia|lia|].
      exists s2, o2, l2. split; [exact E2|]. eapply map_post_trans; [lia| |exact Hal| |exact Q1|exact Q2]; [lia|done].
    + destruct fuel as [|fuel]; [lia|]. exists s1, o1, l1. cbn [map_loop].
      rewrite (proj2 (Z.ltb_ge _ _)) by lia. split; [done|]. by replace (entry_end I vs ve) with ve in Q1 by lia.
  - assert (vs = ve) as -> by (destruct P; lia). exists s, o, l. split; [done|].
    destruct P. by apply map_post_refl.
Qed.

(** [vm_map<I, 1>] meets its specification at every level. *)
Lemma vm_map_spec I fl : (1 <= I <= 4)%nat -> map_spec I fl (vm_map I 1 fl).
Proof.
  induction I as [|I IH]; intros HI; [lia|]. intros B p vs ve phys s o l big P. cbn [vm_map].
  pose proof (table_index_lt (S I) vs).
  apply map_loop_spec; [done| |done|done|lia|unfold loop_fuel; lia].
  intros Hne. replace (S I - 1)%nat with I by lia. apply IH. lia.
Qed.
End map.
