(* ===== verification/PageUnmap.v ===== *)
(** * Unmapping a range: the specification of [vm_unmap] *)
From S2P Require Import Prelude Pmm PageTable PageTableLaws PageMap.

Section unmap.
Context {F : Type} `{!FrameAllocator F}.
Implicit Types (s : vm_state F) (o : owners) (t : gmap Z (list pmle)).

(** ** The invalidator *)

(** The pages collected since the beginning, flushed or still pending. *)
Definition collected s : list Z := concat (flushed s).*2 ++ pending s.
(** Batches fit the array of 32 pages, which is never full between calls. *)
Definition batches_ok s : Prop :=
  (length (pending s) < 32)%nat /\ Forall (fun b => (length b.2 <= 32)%nat) (flushed s).

Lemma invalidate_ok asid page s :
  batches_ok s ->
  exists s', invalidate asid page s = Ok (tt, s') /\ collected s' = collected s ++ [page] /\
    batches_ok s' /\ tables s' = tables s /\ frames s' = frames s /\ cr3 s' = cr3 s.
Proof.
  intros [Hp Hf]. unfold invalidate. erewrite bind_Ok by reflexivity.
  erewrite bind_Ok by reflexivity. cbn [pending set_pending].
  destruct (Nat.eqb_spec (length (pending s ++ [page])) 32) as [Hl|Hl].
  - eexists. split; [reflexivity|]. unfold collected, batches_ok. cbn.
    rewrite fmap_app, concat_app. cbn. rewrite !app_nil_r, app_assoc. repeat split; [lia|].
    apply Forall_app. split; [done|]. constructor; [|done]. cbn. lia.
  - eexists. split; [reflexivity|]. unfold collected, batches_ok. cbn.
    rewrite app_assoc. repeat split; [|done]. rewrite length_app in *. cbn in *. lia.
Qed.

(** ** Specification *)

(** No large page below a table. *)
Definition no_large t o (I : nat) (pre : Z) : Prop :=
  forall p J pre' ents i e, o !! p = Some (J, pre') -> in_sub I pre J pre' -> (1 < J)%nat ->
    t !! p = Some ents -> ents !! i = Some e -> size e = false.

Record unmap_pre (I : nat) (B p vs ve : Z) s o : Prop := {
  upre_str : pt_str (tables s) o;
  upre_unlocked : unlocked (tables s) o I (prefix I B);
  upre_large : no_large (tables s) o I (prefix I B);
  upre_own : o !! p = Some (I, prefix I B);
  upre_base : block_base I B;
  upre_range : B <= vs <= ve /\ ve <= B + es (S I) /\ ve < 2 ^ 64;
  upre_align : vs mod 4096 = 0 /\ ve mod 4096 = 0;
  upre_mapped v : vs <= v < ve -> leaf (tables s) I p v <> None;
  upre_batches : batches_ok s
}.

(** The pages of a range, lowest first. *)
Definition pages (vs ve : Z) : list Z :=
  (fun k => vs + k * 4096) <$> seqZ 0 ((ve - vs) / 4096).

(** The range is unmapped and nothing else: only page tables of the last level
    below the block have changed, and each page was handed to the invalidator
    once, in order. *)
Record unmap_post (I : nat) (B p vs ve : Z) s o s' : Prop := {
  upost_str : pt_str (tables s') o;
  upost_unlocked : unlocked (tables s') o I (prefix I B);
  upost_frame q J pre : o !! q = Some (J, pre) -> J <> 1%nat \/ ~ in_sub I (prefix I B) J pre ->
    tables s' !! q = tables s !! q;
  upost_walk c v : in_block I B v ->
    walk_by c (tables s') I p v =
      (if (vs <=? v) && (v <? ve) then None else walk_by c (tables s) I p v);
  upost_collected : collected s' = collected s ++ pages vs ve;
  upost_batches : batches_ok s';
  upost_rest : frames s' = frames s /\ cr3 s' = cr3 s
}.

Lemma pages_app vs mid ve :
  vs <= mid <= ve -> (mid - vs) mod 4096 = 0 ->
  pages vs ve = pages vs mid ++ pages mid ve.
Proof.
  intros Hm Hal. unfold pages. apply Z.mod_divide in Hal as [k Hk]; [|lia].
  assert (0 <= (ve - mid) / 4096) by (apply Z.div_pos; lia).
  replace ((mid - vs) / 4096) with k by (by rewrite Hk, Z.div_mul by lia).
  replace ((ve - vs) / 4096) with (k + (ve - mid) / 4096); cycle 1.
  { replace (ve - vs) with (ve - mid + k * 4096) by lia. rewrite Z.div_add; lia. }
  rewrite seqZ_app by lia. rewrite fmap_app. f_equal.
  replace (seqZ (0 + k) ((ve - mid) / 4096)) with (Z.add k <$> seqZ 0 ((ve - mid) / 4096)).
  - rewrite <- list_fmap_compose. apply list_fmap_ext. intros i x _. cbn. lia.
  - rewrite fmap_add_seqZ. f_equal. lia.
Qed.
Lemma pages_one vs : pages vs (vs + 4096) = [vs].
Proof.
  unfold pages. replace (vs + 4096 - vs) with 4096 by lia.
  change (seqZ 0 (4096 / 4096)) with [0]. cbn [fmap list_fmap]. f_equal. lia.
Qed.
Lemma pages_none vs : pages vs vs = [].
Proof. unfold pages. by rewrite Z.sub_diag. Qed.

Lemma unmap_post_refl I B p vs s o :
  pt_str (tables s) o -> unlocked (tables s) o I (prefix I B) -> batches_ok s ->
  unmap_post I B p vs vs s o s.
Proof.
  intros. split; [done..| |by rewrite pages_none, app_nil_r|done|done].
  intros c v _. destruct (Z.leb_spec vs v), (Z.ltb_spec v vs); try done; lia.
Qed.
Lemma unmap_post_trans I B p vs mid ve s o s1 s2 :
  vs <= mid <= ve -> (mid - vs) mod 4096 = 0 ->
  unmap_post I B p vs mid s o s1 -> unmap_post I B p mid ve s1 o s2 ->
  unmap_post I B p vs ve s o s2.
Proof.
  intros Hmid Hal [st1 un1 fr1 tr1 co1 ba1 [re1 re1']] [st2 un2 fr2 tr2 co2 ba2 [re2 re2']].
  split; [done|done| | | |done|by split; congruence].
  - intros q J pre Hq Hn. by rewrite (fr2 q J pre), (fr1 q J pre).
  - intros c v Hv. rewrite tr2, tr1 by done. rewrite (in_range_split vs mid ve) by done.
    destruct (Z.leb_spec mid v), (Z.ltb_spec v ve), (Z.leb_spec vs v), (Z.ltb_spec v mid);
      cbn [andb orb]; try lia; done.
  - by rewrite co2, co1, (pages_app vs mid ve), app_assoc by done.
Qed.

Lemma no_large_frame t t' o I pre :
  (forall q J pre', o !! q = Some (J, pre') -> J <> 1%nat -> t' !! q = t !! q) ->
  no_large t o I pre -> no_large t' o I pre.
Proof.
  intros Hf Hl p J pre' ents i e Ho Hs HJ Ht. rewrite (Hf p J pre') in Ht by (done || lia).
  by eapply Hl.
Qed.

(** ** One round *)

(** The entry a round works on. *)
Lemma round_entry I B p vs ve s o :
  unmap_pre I B p vs ve s o -> vs < ve ->
  exists ents e, tables s !! p = Some ents /\ length ents = 512%nat /\
    ents !! table_index I vs = Some e /\ lock_bit e = false /\ present e = true /\
    (I <> 1%nat -> size e = false /\
       o !! get_phys e = Some ((I - 1)%nat, prefix I B * 512 + Z.of_nat (table_index I vs))).
Proof.
  intros [Hstr Hun Hlg Hown Hbase Hr Ha Hmap _] Hlt.
  destruct (Hstr _ _ _ Hown) as (_ & HI & ents & Ht & Hlen & Hents).
  pose proof (table_index_lt I vs). destruct (lookup_lt_is_Some_2 ents (table_index I vs)) as [e He]; [lia|].
  assert (present e = true) as Hpr.
  { specialize (Hmap vs ltac:(lia)). destruct I as [|I]; [lia|].
    rewrite (walk_at_entry _ _ _ _ _ ents e Ht He) in Hmap. by destruct (present e). }
  exists ents, e. do 3 (split; [done|]).
  split; [eapply Hun; [done|apply in_sub_refl|done|done]|]. split; [done|]. intros Hne.
  assert (size e = false) as Hsz by (eapply Hlg; [done|apply in_sub_refl|lia|done|done]).
  split; [done|]. by apply (Hents _ _ He); [|lia|].
Qed.

Lemma unmap_round_page child asid B p vs ve s o :
  unmap_pre 1 B p vs ve s o -> vs < ve ->
  exists s', unmap_round 1 child asid false p (table_index 1 vs) vs (entry_end 1 vs ve) s = Ok (tt, s') /\
    unmap_post 1 B p vs (entry_end 1 vs ve) s o s'.
Proof.
  intros P Hlt. destruct (round_entry _ _ _ _ _ _ _ P Hlt) as (ents & e & Ht & Hlen & He & Hl & Hpr & _).
  destruct P as [Hstr Hun _ Hown Hbase (Hr1 & Hr2 & Hr3) [Ha1 Ha2] _ Hbat].
  assert (in_block 1 B vs) as Hin by (unfold in_block; lia).
  pose proof (round_start _ _ _ Hbase Hin) as Hst. rewrite es_1, Ha1, Z.sub_0_r in Hst.
  rewrite entry_end_min, es_1, Ha1, Z.sub_0_r by (destruct Hbase; lia).
  assert (vs + 4096 <= ve) as Hve.
  { apply Z.mod_divide in Ha1 as [a ->]; [|lia]. apply Z.mod_divide in Ha2 as [b ->]; [|lia]. lia. }
  rewrite Z.min_l by done. set (i := table_index 1 vs) in *.
  pose proof (table_index_lt 1 vs) as Hi. fold i in Hi.
  destruct (invalidate_ok asid vs (with_entry s p ents i (set_present (set_lock e true) false)))
    as (s1 & E1 & C1 & B1 & T1 & F1 & R1); [done|].
  set (e1 := set_lock (set_present (set_lock e true) false) false).
  assert (tables s1 !! p = Some (<[i := set_present (set_lock e true) false]> ents)) as Hp1
    by (rewrite T1; apply with_entry_lookup).
  assert (tables (left_with s1 p ents i (set_present (set_lock e true) false))
    = tables (with_entry s p ents i e1)) as HT.
  { cbn. rewrite T1. cbn. by rewrite insert_insert_eq. }
  exists (left_with s1 p ents i (set_present (set_lock e true) false)). split.
  { unfold unmap_round. rewrite (bind_Ok _ _ _ _ _ (bit_lock_ok _ _ _ _ _ Ht He Hl)).
    erewrite bind_Ok by (apply get_with; lia). cbn [present set_lock]. rewrite Hpr. cbn [negb Nat.eqb].
    rewrite bind_assoc. erewrite bind_Ok by reflexivity. rewrite bind_assoc.
    rewrite (bind_Ok _ _ _ _ _ (put_with _ _ _ _ _ _)), (bind_Ok _ _ _ _ _ E1).
    apply bit_unlock_left; [done|lia]. }
  destruct (Hstr _ _ _ Hown) as (_ & _ & ents' & Ht' & _ & Hents). simplify_eq.
  destruct (Hents _ _ He) as (Hea & Hew & _ & _).
  assert (entry_ok o 1 (prefix 1 B) i e1) as Hok by (split; [done|split; [done|split; [done|lia]]]).
  split; rewrite ?HT.
  - by eapply pt_str_with.
  - by eapply unlocked_with.
  - intros q J pre Hq Hn. cbn. apply lookup_insert_ne. intros ->. simplify_eq.
    destruct Hn as [Hn|Hn]; [done|]. apply Hn, in_sub_refl.
  - intros c v Hv. pose proof (part_index 1 B i v Hbase Hv) as Hpi. rewrite es_1, <- Hst in Hpi.
    destruct (decide (table_index 1 v = i)) as [Hvi|Hvi].
    + erewrite walk_at_entry; [|apply with_entry_lookup|rewrite Hvi; apply list_lookup_insert_eq; lia].
      apply Hpi in Hvi. rewrite (proj2 (Z.leb_le _ _)), (proj2 (Z.ltb_lt _ _)) by lia. done.
    + destruct (lookup_lt_is_Some_2 ents (table_index 1 v)) as [e2 He2];
        [rewrite Hlen; apply table_index_lt|].
      rewrite (walk_at_entry c (tables s) _ _ _ ents e2) by done.
      erewrite walk_at_entry; [|apply with_entry_lookup|by rewrite list_lookup_insert_ne].
      destruct (Z.leb_spec vs v), (Z.ltb_spec v (vs + 4096)); cbn [andb]; try done.
      exfalso. apply Hvi, Hpi. lia.
  - unfold collected in *. cbn [flushed pending left_with set_tables].
    rewrite C1, pages_one. done.
  - done.
  - cbn. by rewrite F1, R1.
Qed.

(** ** A round above the last level *)

Section deep.
Context (I : nat) (B p vs ve : Z) (s : vm_state F) (o : owners) (ents : list pmle) (e : pmle).
Abbreviation i := (table_index (S I) vs).
Abbreviation ee := (entry_end (S I) vs ve).
Abbreviation pre := (prefix (S I) B).
Abbreviation s1 := (with_entry s p ents i (set_lock e true)).
Hypothesis (P : unmap_pre (S I) B p vs ve s o) (Hlt : vs < ve) (HI : (1 <= I <= 3)%nat).
Hypothesis (Ht : tables s !! p = Some ents) (Hlen : length ents = 512%nat) (He : ents !! i = Some e).
Hypothesis (Hl : lock_bit e = false) (Hpr : present e = true) (Hsz : size e = false).
Hypothesis (Hq : o !! get_phys e = Some (I, pre * 512 + Z.of_nat i)).

Lemma deep_round :
  vs < ee <= ve /\ ee = Z.min (part (S I) B i + es (S I)) ve /\
  part (S I) B i <= vs < part (S I) B i + es (S I) /\ ee mod 4096 = 0 /\
  prefix I (part (S I) B i) = pre * 512 + Z.of_nat i.
Proof.
  destruct P as [_ _ _ _ Hbase (Hr1 & Hr2 & Hr3) [Ha1 Ha2] _ _].
  assert (in_block (S I) B vs) as Hin by (unfold in_block; lia).
  assert (0 <= vs) by (destruct Hbase; lia). pose proof (table_index_lt (S I) vs) as Hi.
  pose proof (proj1 (part_index _ _ i _ Hbase Hin) eq_refl) as Hpart.
  assert (ee = Z.min (part (S I) B i + es (S I)) ve) as Hee.
  { rewrite entry_end_min by lia. by rewrite (round_start _ _ _ Hbase Hin). }
  destruct (part_base I B i Hbase Hi) as (_ & Hm & _). pose proof (es_pos (S I)).
  split; [lia|]. split; [done|]. split; [done|]. split; [|by apply part_prefix; [lia| |]].
  rewrite Hee. destruct (Z.min_spec (part (S I) B i + es (S I)) ve) as [[_ ->]|[_ ->]]; [|done].
  apply Z.mod_divide; [lia|]. assert ((4096 | es (S I))) by (apply (es_divides 1); lia).
  apply Z.divide_add_r; [|done]. etrans; [done|]. by apply Z.mod_divide; [lia|].
Qed.

Lemma deep_other q : q <> p -> tables s1 !! q = tables s !! q.
Proof. intros. by apply lookup_insert_ne. Qed.

Lemma not_p J pre' q : o !! q = Some (J, pre') -> (J <= I)%nat -> q <> p.
Proof. intros Hqo HJ ->. destruct P. simplify_eq. lia. Qed.

Lemma deep_walk c v :
  in_block (S I) B v -> table_index (S I) v = i ->
  prod_map id (c (user e)) <$> walk_by c (tables s1) I (get_phys e) v = walk_by c (tables s) (S I) p v.
Proof.
  intros Hv Hvi. destruct P. assert (0 <= v) by (destruct upre_base0, Hv; lia).
  rewrite (walk_at_entry c (tables s) _ _ _ ents e) by (done || by rewrite Hvi).
  rewrite Hpr, Hsz, orb_false_r, (proj2 (Nat.eqb_neq I 0)) by lia. cbn [negb].
  f_equal. apply (walk_ext _ _ _ o); [done|done| |].
  - rewrite Hq. do 2 f_equal. rewrite (prefix_step I v), Hvi by (done || lia).
    by rewrite (block_prefix (S I) B v) by (done || lia).
  - intros q J HJ Hqo. by eapply deep_other, not_p.
Qed.

Lemma deep_pre : unmap_pre I (part (S I) B i) (get_phys e) vs ee s1 o.
Proof.
  pose proof deep_round as (Hee & Hmin & Hpart & Hem & Hsub).
  pose proof (table_index_lt (S I) vs) as Hi. pose proof deep_walk as Htr.
  destruct P. destruct (upre_str0 _ _ _ upre_own0) as (_ & _ & ents' & Ht' & _ & Hents). simplify_eq.
  split; rewrite ?Hsub.
  - eapply pt_str_with; [done|done|done|]. apply (Hents _ _ He).
  - intros q J pre' es2 j e2 Hqo Hs Hq2 He2. rewrite deep_other in Hq2 by (eapply not_p; [done|apply Hs]).
    eapply upre_unlocked0; [done|by eapply in_sub_child|done|done].
  - intros q J pre' es2 j e2 Hqo Hs HJ Hq2 He2. rewrite deep_other in Hq2 by (eapply not_p; [done|apply Hs]).
    eapply upre_large0; [done|by eapply in_sub_child|done|done|done].
  - done.
  - by apply part_base.
  - lia.
  - tauto.
  - intros v Hv. assert (in_block (S I) B v) by (unfold in_block; lia).
    specialize (upre_mapped0 v ltac:(lia)). rewrite <- Htr, leaf_below in upre_mapped0; [done|done|]. apply (part_index _ B); [done|done|lia].
  - done.
Qed.

Context (s2 : vm_state F).
Hypothesis (Q : unmap_post I (part (S I) B i) (get_phys e) vs ee s1 o s2).
Abbreviation s3 := (left_with s2 p ents i (set_lock e true)).

Lemma relocked : <[i := set_lock (set_lock e true) false]> ents = ents.
Proof.
  assert (set_lock (set_lock e true) false = e) as ->.
  { destruct e as [? ? ? ? ? ? lb]. cbn in *. by subst lb. }
  by apply list_insert_id.
Qed.
Lemma deep_same q : tables s3 !! q = if decide (q = p) then Some ents else tables s2 !! q.
Proof.
  cbn. rewrite relocked. case_decide as Hqp; [subst; apply lookup_insert_eq|by apply lookup_insert_ne].
Qed.
Lemma deep_frame q J pre' :
  o !! q = Some (J, pre') -> J <> 1%nat \/ ~ in_sub I (pre * 512 + Z.of_nat i) J pre' ->
  tables s3 !! q = tables s !! q.
Proof.
  intros Hqo Hn. rewrite deep_same. case_decide as Hqp; [by subst|].
  pose proof deep_round as (_ & _ & _ & _ & Hsub).
  destruct Q. rewrite <- Hsub in Hn. rewrite (upost_frame0 q J pre') by done. by apply deep_other.
Qed.

(** Addresses below the entry, and the others. *)
Lemma deep_walk_in c v :
  in_block (S I) B v -> table_index (S I) v = i ->
  walk_by c (tables s3) (S I) p v = prod_map id (c (user e)) <$> walk_by c (tables s2) I (get_phys e) v.
Proof.
  intros Hv Hvi. pose proof deep_same as Hsame. destruct P, Q.
  assert (0 <= v) by (destruct upre_base0, Hv; lia).
  rewrite (walk_at_entry c (tables s3) _ _ _ ents e); [|by rewrite Hsame, decide_True|by rewrite Hvi].
  rewrite Hpr, Hsz, orb_false_r, (proj2 (Nat.eqb_neq I 0)) by lia. cbn [negb].
  f_equal. apply (walk_ext _ _ _ o); [done|done| |].
  - rewrite Hq. do 2 f_equal. rewrite (prefix_step I v), Hvi by (done || lia).
    by rewrite (block_prefix (S I) B v) by (done || lia).
  - intros q J HJ Hqo. rewrite Hsame, decide_False; [done|]. by eapply not_p.
Qed.
Lemma deep_walk_out c v :
  in_block (S I) B v -> table_index (S I) v <> i ->
  walk_by c (tables s3) (S I) p v = walk_by c (tables s) (S I) p v.
Proof.
  intros Hv Hvi. pose proof deep_same as Hsame. pose proof deep_frame as Hfr. destruct P.
  assert (0 <= v) by (destruct upre_base0, Hv; lia).
  destruct (pt_str_entry _ _ _ _ _ (table_index (S I) v) upre_str0 upre_own0 (table_index_lt _ _))
    as (ents' & e2 & Ht' & He2 & _ & _ & Hc & _). simplify_eq.
  rewrite (walk_at_entry c (tables s3) _ _ _ ents e2); [|by rewrite Hsame, decide_True|done].
  rewrite (walk_at_entry c (tables s) _ _ _ ents e2) by done.
  destruct (present e2) eqn:Hpr2; [|done]. cbn [negb].
  destruct ((I =? 0)%nat || size e2) eqn:Hor; [done|]. apply orb_false_iff in Hor as [_ Hsz2].
  specialize (Hc eq_refl ltac:(lia) Hsz2). replace (S I - 1)%nat with I in Hc by lia.
  pose proof (prefix_step I v ltac:(lia) ltac:(done)) as Hps.
  rewrite (block_prefix (S I) B v) in Hps by (done || lia).
  f_equal. apply (walk_ext _ _ _ o); [done|done|by rewrite Hps|].
  intros q J HJ Hqo. apply (Hfr q J (prefix J v) Hqo). right. intros Hin.
  pose proof (in_sub_prefix I J v ltac:(lia) ltac:(done)) as Hin2. rewrite Hps in Hin2.
  destruct (in_sub_child_inj _ _ _ _ _ _ _ (table_index_lt _ _) (table_index_lt _ _) Hin Hin2). done.
Qed.

Lemma deep_walk_post c v :
  in_block (S I) B v ->
  walk_by c (tables s3) (S I) p v =
    (if (vs <=? v) && (v <? ee) then None else walk_by c (tables s) (S I) p v).
Proof.
  intros Hv. pose proof deep_round as (Hee & Hmin & Hpart & _ & _).
  pose proof (upre_base _ _ _ _ _ _ _ P) as Hbase.
  destruct (decide (table_index (S I) v = i)) as [Hvi|Hvi].
  - rewrite deep_walk_in by done. apply (part_index _ _ _ _ Hbase Hv) in Hvi as Hvp.
    rewrite (upost_walk _ _ _ _ _ _ _ _ Q) by (unfold in_block; lia).
    rewrite <- deep_walk by done. by destruct (_ && _).
  - rewrite deep_walk_out by done.
    destruct (Z.leb_spec vs v), (Z.ltb_spec v ee); cbn [andb]; try done.
    exfalso. apply Hvi. apply (part_index _ B); [done|done|]. lia.
Qed.

Lemma deep_post : unmap_post (S I) B p vs ee s o s3.
Proof.
  pose proof deep_round as (Hee & Hmin & Hpart & Hem & Hsub).
  pose proof (table_index_lt (S I) vs) as Hi. pose proof deep_walk as Htr.
  pose proof deep_frame as Hfr. pose proof deep_same as Hsame. destruct P. destruct Q. split.
  - intros q J pre' Hqo. rewrite Hsame. case_decide as Hqp; [|by apply upost_str0].
    subst. destruct (upre_str0 _ _ _ Hqo) as (? & ? & ents' & Ht' & ?). simplify_eq. eauto.
  - intros q J pre' es2 j e2 Hqo Hs Hq2 He2.
    destruct (decide (in_sub I (pre * 512 + Z.of_nat i) J pre')) as [Hin|Hout].
    + rewrite Hsame, decide_False in Hq2 by (eapply not_p; [done|apply Hin]).
      eapply upost_unlocked0; [done| |done|done]. by rewrite Hsub.
    + rewrite (Hfr q J pre') in Hq2 by auto. by eapply upre_unlocked0.
  - intros q J pre' Hqo Hn. apply (Hfr q J pre' Hqo). destruct Hn as [?|Hn]; [by left|right].
    intros Hin. apply Hn. by eapply in_sub_child.
  - apply deep_walk_post.
  - exact upost_collected0.
  - exact upost_batches0.
  - exact upost_rest0.
Qed.
End deep.

(** ** The loop and the recursion *)

Definition unmap_spec (I : nat) (f : Z -> Z -> Z -> M (vm_state F) unit) : Prop :=
  forall B p vs ve s o, unmap_pre I B p vs ve s o ->
  exists s', f p vs ve s = Ok (tt, s') /\ unmap_post I B p vs ve s o s'.

Lemma unmap_round_spec I child asid B p vs ve s o :
  (1 <= I <= 4)%nat -> (I <> 1%nat -> unmap_spec (I - 1) child) ->
  unmap_pre I B p vs ve s o -> vs < ve ->
  exists s', unmap_round I child asid false p (table_index I vs) vs (entry_end I vs ve) s = Ok (tt, s') /\
    unmap_post I B p vs (entry_end I vs ve) s o s'.
Proof.
  intros HI Hch P Hlt. destruct (decide (I = 1%nat)) as [->|Hne]; [by apply unmap_round_page|].
  destruct (round_entry _ _ _ _ _ _ _ P Hlt) as (ents & e & Ht & Hlen & He & Hl & Hpr & Hdeep).
  destruct (Hdeep Hne) as [Hsz Hq]. specialize (Hch Hne). destruct I as [|I]; [lia|].
  replace (S I - 1)%nat with I in * by lia. pose proof (table_index_lt (S I) vs) as Hi.
  assert (unmap_pre I (part (S I) B (table_index (S I) vs)) (get_phys e) vs (entry_end (S I) vs ve)
    (with_entry s p ents (table_index (S I) vs) (set_lock e true)) o) as P1
    by (apply deep_pre; first [done|lia]).
  destruct (Hch _ _ _ _ _ _ P1) as (s2 & E2 & Q).
  exists (left_with s2 p ents (table_index (S I) vs) (set_lock e true)). split.
  - unfold unmap_round. rewrite (bind_Ok _ _ _ _ _ (bit_lock_ok _ _ _ _ _ Ht He Hl)).
    erewrite bind_Ok by (apply get_with; lia). cbn [present set_lock size]. rewrite Hpr, Hsz.
    rewrite (proj2 (Nat.eqb_neq (S I) 1)) by lia. cbn [negb]. rewrite (bind_Ok _ _ _ _ _ E2).
    apply bit_unlock_left; [|lia]. destruct Q. erewrite upost_frame0; [|apply P|left; lia].
    apply with_entry_lookup.
  - apply deep_post; first [done|lia].
Qed.

Lemma next_unmap_pre I B p vs ve s o s1 :
  let ee := entry_end I vs ve in
  (1 <= I <= 4)%nat -> unmap_pre I B p vs ve s o -> vs < ve ->
  unmap_post I B p vs ee s o s1 ->
  vs < ee <= ve /\ (ee - vs) mod 4096 = 0 /\
  (ee < ve -> unmap_pre I B p ee ve s1 o /\ table_index I ee = S (table_index I vs)).
Proof.
  intros ee HI P Hlt Q.
  destruct P as [Hstr Hun Hlg Hown Hbase (Hr1 & Hr2 & Hr3) [Ha1 Ha2] Hmap Hbat].
  assert (in_block I B vs) as Hin by (unfold in_block; lia).
  assert (0 <= vs) by (destruct Hbase; lia). pose proof (es_pos I).
  pose proof (Z.mod_pos_bound vs (es I) ltac:(lia)).
  assert (ee = Z.min (vs - vs mod es I + es I) ve) as Hee by (unfold ee; by rewrite entry_end_min by lia).
  assert (ee mod 4096 = 0) as Hem by (rewrite Hee; apply round_end_aligned; first [done|lia]).
  split; [lia|]. split; [by rewrite Zminus_mod, Ha1, Hem|]. intros Hlast. destruct Q. split.
  - split; [done|done| |done|done|lia|done| |done].
    + eapply no_large_frame; [|done]. intros. by eapply upost_frame0; [|left].
    + intros v Hv. rewrite upost_walk0 by (unfold in_block; lia).
      destruct (Z.ltb_spec v ee); [lia|]. rewrite andb_false_r. apply Hmap. lia.
  - apply (part_index _ B); [done|unfold in_block; lia|].
    pose proof (proj1 (part_index _ _ _ _ Hbase Hin) eq_refl) as Hpart.
    pose proof (round_start _ _ _ Hbase Hin). unfold part in *. lia.
Qed.

Lemma unmap_loop_spec I child asid B p ve fuel idx vs s o :
  (1 <= I <= 4)%nat -> (I <> 1%nat -> unmap_spec (I - 1) child) ->
  unmap_pre I B p vs ve s o -> (vs < ve -> idx = table_index I vs) ->
  (idx <= 512)%nat -> (513 <= fuel + idx)%nat ->
  exists s', unmap_loop I child asid false p ve fuel idx vs s = Ok (tt, s') /\
    unmap_post I B p vs ve s o s'.
Proof.
  intros HI Hch. revert idx vs s.
  induction fuel as [|fuel IH]; intros idx vs s P Hidx Hle Hf; [lia|]. cbn [unmap_loop].
  destruct (Z.ltb_spec vs ve) as [Hlt|Hge]; cbn [negb].
  - rewrite (Hidx Hlt) in *. clear Hidx Hle idx. pose proof (table_index_lt I vs).
    destruct (unmap_round_spec I child asid B p vs ve s o HI Hch P Hlt) as (s1 & E1 & Q1).
    rewrite (bind_Ok _ _ _ _ _ E1).
    pose proof (next_unmap_pre _ _ _ _ _ _ _ _ HI P Hlt Q1) as (Hee & Hal & Hnext).
    destruct (decide (entry_end I vs ve < ve)) as [Hlast|Hlast].
    + destruct (Hnext Hlast) as (P1 & Hix).
      destruct (IH (S (table_index I vs)) _ _ P1) as (s2 & E2 & Q2); [by rewrite Hix|lia|lia|].
      exists s2. split; [exact E2|]. eapply unmap_post_trans; [|exact Hal|exact Q1|exact Q2]. lia.
    + destruct fuel as [|fuel]; [lia|]. exists s1. cbn [unmap_loop].
      rewrite (proj2 (Z.ltb_ge _ _)) by lia. split; [done|]. by replace (entry_end I vs ve) with ve in Q1 by lia.
  - assert (vs = ve) as -> by (destruct P; lia). exists s. split; [done|].
    destruct P. by apply unmap_post_refl.
Qed.

Lemma vm_unmap_spec I asid : (1 <= I <= 4)%nat -> unmap_spec I (vm_unmap I asid false).
Proof.
  induction I as [|I IH]; intros HI; [lia|]. intros B p vs ve s o P. cbn [vm_unmap].
  pose proof (table_index_lt (S I) vs).
  apply unmap_loop_spec; [done| |done|done|lia|unfold loop_fuel; lia].
  intros Hne. replace (S I - 1)%nat with I by lia. apply IH. lia.
Qed.
End unmap.
