(* ===== verification/PageTheorems.v ===== *)
(** * The contract of the page-table code *)
From S2P Require Import Prelude Pmm PageTable PageTableLaws PageMap PageUnmap.

Section contract.
Context {F : Type} `{!FrameAllocator F}.
Implicit Types (s : vm_state F) (o : owners) (l big : list Z).

(** A whole address space: a tree of unlocked tables under [root], apart from
    the frames the allocator may hand out; a page that its last entry opens to
    user mode is open at every level. *)
Record address_space s o l big (root : Z) : Prop := {
  as_ok : vm_ok s o l big;
  as_unlocked : unlocked (tables s) o 4 0;
  as_root : o !! root = Some (4%nat, 0);
  as_user v : 0 <= v -> translate (tables s) 4 root v = leaf (tables s) 4 root v
}.

Lemma prefix_4 v : prefix 4 v = 0.
Proof. unfold prefix. change (es 5) with (2 ^ 48). apply Z.div_small, Z.mod_pos_bound. lia. Qed.

(** One block of [2 ^ 48] bytes speaks for all addresses. *)
Lemma user_open_block t root B :
  block_base 4 B -> user_open t 4 root B -> forall v, 0 <= v -> translate t 4 root v = leaf t 4 root v.
Proof.
  intros (HB & Hm & _) Hu v Hv. change (es 5) with (2 ^ 48) in *. pose proof (Z.mod_pos_bound v (2 ^ 48)).
  assert ((B + v mod 2 ^ 48) mod 2 ^ 48 = v mod 2 ^ 48) as E.
  { rewrite Zplus_mod, Hm, Z.add_0_l, !Z.mod_mod by lia. done. }
  rewrite <- (walk_mod andb _ 4 root v), <- (walk_mod (fun _ u => u) _ 4 root v), <- E by lia.
  rewrite !walk_mod by lia. apply Hu. change (es 5) with (2 ^ 48). lia.
Qed.
Lemma as_user_open s o l big root B :
  block_base 4 B -> address_space s o l big root -> user_open (tables s) 4 root B.
Proof. intros (HB & _) [_ _ _ Hu] v Hv. apply Hu. lia. Qed.

Definition probe_panic : error := Panic "Tried to probe an unmapped address ({:#018x})!".

Lemma vm_virt_to_phys_translate s o I p v :
  pt_str (tables s) o -> (I <= 4)%nat -> 0 <= v -> o !! p = Some (I, prefix I v) ->
  vm_virt_to_phys I p v s =
    match translate (tables s) I p v with
    | Some (f, _) => Ok (f, s)
    | None => Err probe_panic
    end.
Proof.
  intros Hs HI Hv. revert p HI. induction I as [|I IH]; intros p HI Hp.
  { destruct (Hs _ _ _ Hp) as (_ & ? & _). lia. }
  destruct (pt_str_entry _ _ _ _ _ (table_index (S I) v) Hs Hp (table_index_lt _ _))
    as (ents & e & Ht & He & _ & _ & Hc & _).
  rewrite (walk_at_entry _ _ _ _ _ ents e) by done. cbn [vm_virt_to_phys].
  rewrite (bind_Ok _ _ _ _ _ (get_entry_ok _ _ _ _ _ Ht He)).
  destruct (present e) eqn:Hpr; cbn [negb]; [|done].
  change ((S I =? 1)%nat) with ((I =? 0)%nat). destruct (I =? 0)%nat eqn:H0; [done|].
  apply Nat.eqb_neq in H0. destruct (size e) eqn:Hsz; [done|]. cbn [orb].
  rewrite IH; [by destruct (translate _ _ _ _) as [[]|]|lia|].
  rewrite Hc by (done || lia). rewrite (prefix_step I v) by (done || lia). do 2 f_equal. lia.
Qed.

(** Probing an address of an address space agrees with the translation the
    hardware makes: the frame of the page when it is mapped, a panic when not. *)
Theorem virt_to_phys_translates asid s o l big root v :
  root_of asid s = Ok (root, s) -> address_space s o l big root -> 0 <= v ->
  virt_to_phys asid v s =
    match translate (tables s) 4 root v with
    | Some (f, _) => Ok (f, s)
    | None => Err probe_panic
    end.
Proof.
  intros Hr [Hok _ Hroot _] Hv. unfold virt_to_phys. rewrite (bind_Ok _ _ _ _ _ Hr).
  eapply vm_virt_to_phys_translate; [apply Hok|lia|done|]. by rewrite prefix_4.
Qed.

Lemma page_mask_down z : is_u64 z -> Z.land z page_mask = z - z mod 4096.
Proof. intros. apply (land_mask_down z 12); [done|lia]. Qed.

(** The rounded ends of a range whose ends are page boundaries. *)
Lemma range_ends start end_ :
  0 <= start < end_ -> end_ < 2 ^ 64 -> start mod 4096 = 0 -> end_ mod 4096 = 0 ->
  u64 (end_ - start) = end_ - start /\ Z.land start page_mask = start /\
  Z.land (u64 (start + (end_ - start) + page_size 0 - 1)) page_mask = end_.
Proof.
  intros Hr H64 Ha Hb. change (page_size 0) with 4096. rewrite u64_id by (unfold is_u64; lia).
  split; [done|]. split; [rewrite page_mask_down by (unfold is_u64; lia); lia|].
  assert (end_ <= 2 ^ 64 - 4096).
  { apply Z.mod_divide in Hb as [k ->]; [|lia]. change (2 ^ 64) with (2 ^ 52 * 4096) in *. nia. }
  rewrite u64_id by (unfold is_u64; lia). rewrite page_mask_down by (unfold is_u64; lia).
  replace (start + (end_ - start) + 4096 - 1) with (4095 + end_) by lia.
  apply Z.mod_divide in Hb as [k ->]; [|lia]. rewrite Z_mod_plus_full. change (4095 mod 4096) with 4095. lia.
Qed.

(** [map_physical], with the frames it takes. *)
Lemma map_physical_frames asid s o l big root B start end_ physical fl :
  root_of asid s = Ok (root, s) -> address_space s o l big root -> block_base 4 B ->
  B <= start < end_ -> end_ <= B + 2 ^ 48 -> end_ < 2 ^ 64 ->
  start mod 4096 = 0 -> end_ mod 4096 = 0 ->
  0 <= physical -> physical mod 4096 = 0 -> physical + (end_ - start) <= 2 ^ 52 ->
  in_step 4 start end_ physical ->
  (forall v, start <= v < end_ -> translate (tables s) 4 root v = None) ->
  3 * ((end_ - start) / 4096) <= Z.of_nat (length l) ->
  exists s' o' l', map_physical asid start end_ physical fl s = Ok (tt, s') /\
    l' `suffix_of` l /\ address_space s' o' l' big root /\ rest_same s s' /\
    Z.of_nat (length l) <= Z.of_nat (length l') + 3 * ((end_ - start) / 4096) /\
    forall v, in_block 4 B v ->
      translate (tables s') 4 root v =
        (if (start <=? v) && (v <? end_)
         then Some (physical + (v - v mod 4096 - start), has_flag fl flags_user)
         else translate (tables s) 4 root v).
Proof.
  intros Hr Has HB Hrg Hend H64 Ha Hb Hp0 Hpa Hp52 Hst Hnone Hfr.
  pose proof (as_user_open _ _ _ _ _ _ HB Has) as Huo. destruct Has as [Hok Hun Hroot Hu].
  destruct (range_ends start end_) as (E1 & E2 & E3); [destruct HB; lia|done..|].
  unfold map_physical. rewrite E1, (proj2 (Z.eqb_neq _ 0)) by lia. rewrite E2, E3.
  rewrite (bind_Ok _ _ _ _ _ Hr). rewrite page_mask_down, Hpa, Z.sub_0_r by (unfold is_u64; lia).
  destruct (vm_map_spec 4 fl ltac:(lia) B root start end_ physical s o l big) as (s' & o' & l' & E & Q).
  - split; rewrite ?prefix_4; try done; try lia; [change (es 5) with (2 ^ 48); lia|].
    intros v Hv. by apply translate_None, Hnone.
  - exists s', o', l'. split; [exact E|].
    pose proof (user_open_block _ _ _ HB (post_user _ _ _ _ _ _ _ _ _ _ _ _ _ _ Q Huo)) as Hu'.
    destruct Q. rewrite prefix_4 in *. split; [done|].
    split; [split; [done|done|by eapply lookup_weaken|done]|]. do 2 (split; [done|]).
    intros v Hv. assert (0 <= v) by (destruct HB, Hv; lia). rewrite Hu', Hu by done. by apply post_walk.
Qed.
(** [map_physical], with a bound on the frames it takes. *)
Lemma map_physical_spec asid s o l big root B start end_ physical fl :
  root_of asid s = Ok (root, s) -> address_space s o l big root -> block_base 4 B ->
  B <= start < end_ -> end_ <= B + 2 ^ 48 -> end_ < 2 ^ 64 ->
  start mod 4096 = 0 -> end_ mod 4096 = 0 ->
  0 <= physical -> physical mod 4096 = 0 -> physical + (end_ - start) <= 2 ^ 52 ->
  in_step 4 start end_ physical ->
  (forall v, start <= v < end_ -> translate (tables s) 4 root v = None) ->
  3 * ((end_ - start) / 4096) <= Z.of_nat (length l) ->
  exists s' o' l', map_physical asid start end_ physical fl s = Ok (tt, s') /\
    address_space s' o' l' big root /\ rest_same s s' /\
    Z.of_nat (length l) <= Z.of_nat (length l') + 3 * ((end_ - start) / 4096) /\
    forall v, in_block 4 B v ->
      translate (tables s') 4 root v =
        (if (start <=? v) && (v <? end_)
         then Some (physical + (v - v mod 4096 - start), has_flag fl flags_user)
         else translate (tables s) 4 root v).
Proof.
  intros. destruct (map_physical_frames asid s o l big root B start end_ physical fl) as (s' & o' & l' & E & _ & H'); [done..|]. by exists s', o', l'.
Qed.

(** C4: mapping a range of unmapped pages, with at least three free frames per
    page and a physical address that keeps in step with the virtual one,
    succeeds; afterwards every address of the range translates, by the walk that
    takes the user bit of all four levels, to its page of the physical range, open
    to user mode exactly when the flags ask for it, and may be written (the
    read-only flag is not looked at); every other address of the same half
    translates as before, and the result is an address space again. *)
Theorem map_physical_maps asid s o l big root B start end_ physical fl :
  root_of asid s = Ok (root, s) -> address_space s o l big root -> block_base 4 B ->
  B <= start < end_ -> end_ <= B + 2 ^ 48 -> end_ < 2 ^ 64 ->
  start mod 4096 = 0 -> end_ mod 4096 = 0 ->
  0 <= physical -> physical mod 4096 = 0 -> physical + (end_ - start) <= 2 ^ 52 ->
  in_step 4 start end_ physical ->
  (forall v, start <= v < end_ -> translate (tables s) 4 root v = None) ->
  3 * ((end_ - start) / 4096) <= Z.of_nat (length l) ->
  exists s' o' l', map_physical asid start end_ physical fl s = Ok (tt, s') /\
    address_space s' o' l' big root /\ rest_same s s' /\
    (forall v, in_block 4 B v ->
      translate (tables s') 4 root v =
        (if (start <=? v) && (v <? end_)
         then Some (physical + (v - v mod 4096 - start), has_flag fl flags_user)
         else translate (tables s) 4 root v)) /\
    (forall v, start <= v < end_ -> writable (tables s') 4 root v = true).
Proof.
  intros Hr Has HB Hrg Hend. intros.
  destruct (map_physical_spec asid s o l big root B start end_ physical fl) as (s' & o' & l' & E & A & R & _ & Ht);
    [done..|]. exists s', o', l'. do 4 (split; [done|]). intros v Hv. assert (0 <= v) by (destruct HB; lia).
  destruct A as [Aok _ Aroot _]. eapply mapped_writable; [apply Aok|done|by rewrite prefix_4|].
  rewrite <- translate_None, Ht by (unfold in_block; change (es 5) with (2 ^ 48); lia).
  rewrite (proj2 (Z.leb_le _ _)), (proj2 (Z.ltb_lt _ _)) by lia. done.
Qed.

(** C7: unmapping a mapped range of small pages (the physical frames kept)
    succeeds; afterwards no address of the range translates and every other
    address of the same half translates as before; the invalidator has told the
    cores of each page of the range exactly once, in order, in batches of at
    most 32. *)
Theorem unmap_unmaps asid s o l big root B start end_ :
  root_of asid s = Ok (root, s) -> address_space s o l big root ->
  no_large (tables s) o 4 0 -> block_base 4 B ->
  B <= start < end_ -> end_ <= B + 2 ^ 48 -> end_ < 2 ^ 64 ->
  start mod 4096 = 0 -> end_ mod 4096 = 0 ->
  (forall v, start <= v < end_ -> translate (tables s) 4 root v <> None) ->
  Forall (fun b => (length b.2 <= 32)%nat) (flushed s) ->
  exists s', unmap asid start end_ false s = Ok (tt, s') /\
    address_space s' o l big root /\
    (forall v, in_block 4 B v ->
       translate (tables s') 4 root v =
         (if (start <=? v) && (v <? end_) then None else translate (tables s) 4 root v)) /\
    concat (flushed s').*2 = concat (flushed s).*2 ++ pages start end_ /\
    Forall (fun b => (length b.2 <= 32)%nat) (flushed s').
Proof.
  intros Hr Has Hlg HB Hrg Hend H64 Ha Hb Hmap Hbat.
  pose proof (as_user_open _ _ _ _ _ _ HB Has) as Huo. destruct Has as [Hok Hun Hroot Hu].
  destruct (range_ends start end_) as (E1 & E2 & E3); [destruct HB; lia|done..|].
  unfold unmap. rewrite E1, (proj2 (Z.eqb_neq _ 0)) by lia. rewrite E2, E3.
  rewrite (bind_Ok _ _ _ _ _ Hr). erewrite bind_Ok by reflexivity.
  set (fa := if _ <? start then None else Some root).
  destruct (vm_unmap_spec 4 fa ltac:(lia) B root start end_ (set_pending [] s) o) as (s' & E & Q).
  - split; rewrite ?prefix_4; try done; try apply Hok; try lia.
    + change (es 5) with (2 ^ 48). lia.
    + intros v Hv. rewrite <- translate_None. by apply Hmap.
    + split; [cbn; lia|done].
  - rewrite (bind_Ok _ _ _ _ _ E). eexists. split; [reflexivity|].
    destruct Q as [Qs Qu _ Qt Qc [Qb1 Qb2] [Qf _]]. rewrite prefix_4 in *. cbn in Qf.
    split; [split; [|done|done|]|split; [by apply Qt|split]].
    + destruct Hok. split; [done|cbn; by rewrite Qf|done].
    + eapply user_open_block; [done|]. intros v Hv.
      change (translate (tables s') 4 root v = leaf (tables s') 4 root v). rewrite !Qt by done.
      destruct (_ && _); [done|]. by apply Huo.
    + unfold collected in Qc. cbn in Qc |- *. rewrite app_nil_r in Qc.
      rewrite fmap_app, concat_app. cbn. rewrite app_nil_r. done.
    + cbn. apply Forall_app. split; [done|]. constructor; [|done]. cbn. lia.
Qed.
End contract.

(** ** Instances, over the manager of [Pmm] *)

(** An empty address space, and one with the page at 0 mapped to [0x9000]. *)
Definition space0 : vm_state pmm := mkVm {[0x8000 := pmlt_init]} few 0x8000 [] [] false.
Definition owners0 : owners := {[0x8000 := (4%nat, 0)]}.

Definition link (f : Z) : pmle := mkPmle true true true false true (Z.shiftr f 12) false.
Definition single (e : pmle) : list pmle := <[0%nat := e]> pmlt_init.
Definition space1 : vm_state pmm :=
  mkVm (<[0x8000 := single (link 0x3000)]> (<[0x3000 := single (link 0x2000)]>
         (<[0x2000 := single (link 0x1000)]> {[0x1000 := single (link 0x9000)]})))
    none_small 0x8000 [] [] false.
Definition owners1 : owners :=
  <[0x8000 := (4%nat, 0)]> (<[0x3000 := (3%nat, 0)]> (<[0x2000 := (2%nat, 0)]> {[0x1000 := (1%nat, 0)]})).

Lemma init_table_ok o I pre : table_ok o I pre pmlt_init.
Proof.
  split; [apply length_replicate|]. intros i e He. apply lookup_replicate in He as [-> _].
  split; [cbn; lia|done].
Qed.
Lemma single_lookup x i e : single x !! i = Some e -> e = x /\ i = 0%nat \/ e = pmle_init.
Proof.
  intros H. apply list_lookup_insert_Some in H as [(<- & <- & _)|[_ H]]; [by left|].
  apply lookup_replicate in H as [-> _]. by right.
Qed.
Lemma single_table_ok o I pre f :
  frame_ok f -> ((1 < I)%nat -> o !! f = Some ((I - 1)%nat, pre * 512)) -> table_ok o I pre (single (link f)).
Proof.
  intros Hf Ho. split; [unfold single; by rewrite length_insert; apply length_replicate|]. intros i e He.
  assert (get_phys (link f) = f) as Hg.
  { rewrite <- (get_phys_table f (link f) Hf) at 2. unfold get_phys, link, assign_table, address_field. cbn.
    rewrite Z.mod_small; [done|]. destruct Hf. rewrite Z.shiftr_div_pow2 by lia.
    split; [apply Z.div_pos; lia|]. apply Z.div_lt_upper_bound; lia. }
  destruct (single_lookup _ _ _ He) as [[-> ->]| ->]; [|split; [cbn; lia|done]]. split; [|split; [done|split; [|done]]].
  - destruct Hf. cbn. rewrite Z.shiftr_div_pow2 by lia.
    split; [apply Z.div_pos; lia|]. apply Z.div_lt_upper_bound; lia.
  - intros _ HI _. rewrite Hg, Ho by done. do 2 f_equal. lia.
Qed.

(** Tables whose present entries are all open to user mode. *)
Lemma users_open t o I p v :
  pt_str t o -> 0 <= v -> o !! p = Some (I, prefix I v) ->
  (forall q J pre ents i e, o !! q = Some (J, pre) -> t !! q = Some ents -> ents !! i = Some e ->
     present e = true -> user e = true) ->
  translate t I p v = leaf t I p v.
Proof.
  intros Hs Hv Hp Hu. revert p Hp. induction I as [|I IH]; intros p Hp; [done|].
  destruct (Hs _ _ _ Hp) as (_ & HI & _).
  destruct (pt_str_entry _ _ _ _ _ (table_index (S I) v) Hs Hp (table_index_lt _ _))
    as (ents & e & Ht & He & _ & _ & Hc & _). rewrite !(walk_at_entry _ _ _ _ _ ents e) by done.
  destruct (present e) eqn:Hpr; [|done]. cbn [negb]. destruct (I =? 0)%nat eqn:H0; [done|].
  apply Nat.eqb_neq in H0. destruct (size e) eqn:Hsz; [done|]. cbn [orb].
  rewrite leaf_below, (Hu _ _ _ _ _ _ Hp Ht He Hpr), IH; [by destruct (leaf _ _ _ _) as [[]|]|].
  rewrite Hc by (done || lia). rewrite (prefix_step I v) by (done || lia). do 2 f_equal. lia.
Qed.

Ltac concrete_owner H :=
  repeat (apply lookup_insert_Some in H as [[<- ?]|[_ H]]); [..|apply lookup_singleton_Some in H as [<- ?]];
  simplify_eq.

Lemma space0_ok : address_space space0 owners0 [0x3000; 0x2000; 0x1000] [0x200000] 0x8000.
Proof.
  unfold owners0. split; [split| |apply lookup_singleton_eq|].
  - intros p I pre H. apply lookup_singleton_Some in H as [<- H]. simplify_eq.
    split; [by apply (bool_decide_unpack _)|]. split; [lia|]. exists pmlt_init.
    split; [apply lookup_singleton_eq|]. apply init_table_ok.
  - exists [0x200000], []. split; [apply few_rep|done].
  - intros q [x Hx]. apply lookup_singleton_Some in Hx as [<- _]. by apply (bool_decide_unpack _).
  - intros p J pre ents i e Ho _ Ht He. apply lookup_singleton_Some in Ho as [<- _].
    unfold space0 in Ht. cbn [tables] in Ht.
    rewrite lookup_singleton_eq in Ht. simplify_eq. by apply lookup_replicate in He as [-> _].
  - intros v _. by rewrite !walk_new_empty by (done || lia).
Qed.

Lemma space1_table p I pre :
  owners1 !! p = Some (I, pre) ->
  exists f, tables space1 !! p = Some (single (link f)) /\ frame_ok f /\ (1 <= I <= 4)%nat /\ frame_ok p /\
    p ∉ [0x200000] /\ pre = 0 /\ ((1 < I)%nat -> owners1 !! f = Some ((I - 1)%nat, 0)).
Proof.
  intros Ho. unfold owners1 in Ho. concrete_owner Ho; eexists; (split; [reflexivity|]);
    (split; [by apply (bool_decide_unpack _)|]); (split; [lia|]); (split; [by apply (bool_decide_unpack _)|]);
    (split; [by apply (bool_decide_unpack _)|]); (split; [done|]); try done; lia.
Qed.

Lemma space1_str : pt_str (tables space1) owners1.
Proof.
  intros p I pre H. destruct (space1_table _ _ _ H) as (f & Ht & Hf & HI & Hp & _ & -> & Ho).
  split; [done|]. split; [done|]. exists (single (link f)). split; [done|]. by apply single_table_ok.
Qed.
Lemma space1_ok : address_space space1 owners1 [] [0x200000] 0x8000.
Proof.
  split; [split| |done|].
  - apply space1_str.
  - exists [0x200000], []. split; [apply none_small_rep|done].
  - intros q [[I pre] Hx]. by destruct (space1_table _ _ _ Hx) as (f & _ & _ & _ & _ & ? & _).
  - intros p J pre ents i e Ho _ Ht He. destruct (space1_table _ _ _ Ho) as (f & Ht' & _).
    rewrite Ht' in Ht. simplify_eq. by destruct (single_lookup _ _ _ He) as [[-> _]| ->].
  - intros v Hv. apply (users_open _ owners1); [apply space1_str|done|by rewrite prefix_4|].
    intros q J pre ents i e Ho Ht He Hpr. destruct (space1_table _ _ _ Ho) as (f & Ht' & _).
    rewrite Ht' in Ht. simplify_eq. by destruct (single_lookup _ _ _ He) as [[-> _]| ->].
Qed.
Lemma space1_small : no_large (tables space1) owners1 4 0.
Proof.
  intros p J pre ents i e Ho _ _ Ht He. destruct (space1_table _ _ _ Ho) as (f & Ht' & _).
  rewrite Ht' in Ht. simplify_eq. by destruct (single_lookup _ _ _ He) as [[-> _]| ->].
Qed.

Lemma low_half : block_base 4 0.
Proof. by apply (bool_decide_unpack _). Qed.

(** The page at 0, at any offset. *)
Lemma page0_index I v : (1 <= I <= 4)%nat -> 0 <= v < 4096 -> table_index I v = 0%nat.
Proof.
  intros HI Hv. apply Nat2Z.inj. rewrite table_index_div by lia. rewrite Z.div_small; [done|].
  assert (es 1 <= es I); [|rewrite es_1 in *; lia].
  apply Z.divide_pos_le; [apply es_pos|]. apply es_divides. lia.
Qed.
Lemma single_leaf t I p f v :
  t !! p = Some (single (link f)) -> (1 <= I <= 3)%nat -> 0 <= v < 4096 ->
  leaf t (S I) p v = leaf t I (get_phys (link f)) v.
Proof.
  intros Ht HI Hv. rewrite (walk_at_entry _ _ _ _ _ (single (link f)) (link f) Ht) by (by rewrite page0_index by lia).
  rewrite leaf_below. cbn [negb present size link orb]. rewrite orb_false_r.
  by rewrite (proj2 (Nat.eqb_neq I 0)) by lia.
Qed.
Lemma space1_mapped v : 0 <= v < 4096 -> translate (tables space1) 4 0x8000 v = Some (0x9000, true).
Proof.
  intros Hv. rewrite (as_user _ _ _ _ _ space1_ok) by lia.
  rewrite (single_leaf _ 3 _ 0x3000), (single_leaf _ 2 _ 0x2000), (single_leaf _ 1 _ 0x1000) by (done || lia).
  by rewrite (walk_at_entry _ _ _ _ _ (single (link 0x9000)) (link 0x9000)) by (done || by rewrite page0_index by lia).
Qed.

Lemma virt_to_phys_witness :
  virt_to_phys None 0x123 space1 =
    match translate (tables space1) 4 0x8000 0x123 with
    | Some (f, _) => Ok (f, space1)
    | None => Err probe_panic
    end.
Proof. exact (virt_to_phys_translates None space1 owners1 _ _ 0x8000 0x123 eq_refl space1_ok ltac:(lia)). Defined.

Lemma map_physical_witness : exists s' o' l',
  map_physical None 0x400000 0x401000 0x5000 1 space0 = Ok (tt, s') /\
  address_space s' o' l' [0x200000] 0x8000 /\ rest_same space0 s' /\
  (forall v, in_block 4 0 v ->
    translate (tables s') 4 0x8000 v =
      (if (0x400000 <=? v) && (v <? 0x401000)
       then Some (0x5000 + (v - v mod 4096 - 0x400000), has_flag 1 flags_user)
       else translate (tables space0) 4 0x8000 v)) /\
  (forall v, 0x400000 <= v < 0x401000 -> writable (tables s') 4 0x8000 v = true).
Proof.
  apply (map_physical_maps None space0 owners0 [0x3000; 0x2000; 0x1000] [0x200000] 0x8000 0
    0x400000 0x401000 0x5000 1 eq_refl space0_ok low_half); try lia; try reflexivity.
  - right. right. split; [vm_compute; congruence|]. right. right. split; [vm_compute; congruence|].
    right. right. split; [vm_compute; congruence|]. by left.
  - intros v Hv. by apply walk_new_empty; [|lia].
Defined.

Lemma unmap_witness : exists s',
  unmap None 0 0x1000 false space1 = Ok (tt, s') /\ address_space s' owners1 [] [0x200000] 0x8000 /\
  (forall v, in_block 4 0 v ->
     translate (tables s') 4 0x8000 v =
       (if (0 <=? v) && (v <? 0x1000) then None else translate (tables space1) 4 0x8000 v)) /\
  concat (flushed s').*2 = concat (flushed space1).*2 ++ pages 0 0x1000 /\
  Forall (fun b => (length b.2 <= 32)%nat) (flushed s').
Proof.
  apply (unmap_unmaps None space1 owners1 [] [0x200000] 0x8000 0 0 0x1000 eq_refl space1_ok
    space1_small low_half); try lia; try reflexivity.
  - intros v Hv. rewrite space1_mapped by lia. congruence.
  - constructor.
Defined.

(** ** Out of step *)

(** Two pages across a 2 MiB boundary, at [0x1ff000], mapped to the two frames
    at [0x5000]: the second page ends up at [0x200000], not at [0x6000]. *)
Definition frames9 : pmm :=
  match push_free 0x10000 0x9000 pmm_init with
  | Ok (_, p) => p
  | Err _ => pmm_init
  end.
Example map_out_of_step :
  match (let* _ := map_physical None 0x1ff000 0x201000 0x5000 0 in
         let* a := virt_to_phys None 0x1ff000 in
         let* b := virt_to_phys None 0x200000 in
         ret (a, b)) (mkVm {[0x8000 := pmlt_init]} frames9 0x8000 [] [] false) with
  | Ok ((a, b), _) => a = 0x5000 /\ b = 0x200000
  | Err _ => False
  end.
Proof. vm_compute. split; reflexivity. Qed.
