(* ===== verification/TreeHeap.v ===== *)
(** * The intrusive heap of kernel/util/tree_heap.h

    A complete binary tree threaded through the objects it holds: [tree_parent],
    [prev] (left child) and [next] (right child).  The scheduler keeps its
    runnable threads in one, the timers their descriptors.

    This file holds the operations, in the order of the source. *)
From S2P Require Import Prelude.

Record hnode (T : Type) : Type := mkNode {
  tree_parent : Z;
  prev : Z;
  next : Z;
  value : T
}.
Arguments mkNode {T} _ _ _ _.
Arguments tree_parent {T} _.
Arguments prev {T} _.
Arguments next {T} _.
Arguments value {T} _.

Record tree_heap (T : Type) : Type := mkHeap {
  mem : gmap Z (hnode T);
  _top : Z;
  _size : Z
}.
Arguments mkHeap {T} _ _ _.
Arguments mem {T} _.
Arguments _top {T} _.
Arguments _size {T} _.

Section ops.
Context {T : Type} (comp : T -> T -> bool).
Abbreviation HM := (M (tree_heap T)).

(** ** Links *)

Definition load (p : Z) : HM (hnode T) := fun s =>
  match mem s !! p with
  | Some x => Ok (x, s)
  | None => Err Fault
  end.
Definition update (p : Z) (f : hnode T -> hnode T) : HM unit := fun s =>
  match mem s !! p with
  | Some x => Ok (tt, mkHeap (<[p := f x]> (mem s)) (_top s) (_size s))
  | None => Err Fault
  end.
Definition with_parent (a : Z) (x : hnode T) : hnode T := mkNode a (prev x) (next x) (value x).
Definition with_prev (a : Z) (x : hnode T) : hnode T := mkNode (tree_parent x) a (next x) (value x).
Definition with_next (a : Z) (x : hnode T) : hnode T := mkNode (tree_parent x) (prev x) a (value x).

Definition get_parent (p : Z) : HM Z := let* x := load p in ret (tree_parent x).
Definition get_prev (p : Z) : HM Z := let* x := load p in ret (prev x).
Definition get_next (p : Z) : HM Z := let* x := load p in ret (next x).
Definition deref (p : Z) : HM T := let* x := load p in ret (value x).
Definition set_parent (p a : Z) : HM unit := update p (with_parent a).
Definition set_prev (p a : Z) : HM unit := update p (with_prev a).
Definition set_next (p a : Z) : HM unit := update p (with_next a).
Definition set_top (a : Z) : HM unit := modify (fun s => mkHeap (mem s) a (_size s)).
Definition add_size (d : Z) : HM unit := modify (fun s => mkHeap (mem s) (_top s) (u64 (_size s + d))).
(** [if (p) p->tree_parent = a;] *)
Definition set_parent_of (p a : Z) : HM unit := if p =? 0 then ret tt else set_parent p a.

(** ** [_swap] *)
Definition _swap (parent child : Z) : HM unit :=
  let* pprev := get_prev parent in
  let* pnext := get_next parent in
  let* pparent := get_parent parent in
  let* cprev := get_prev child in
  set_prev parent cprev ;;
  let* cnext := get_next child in
  set_next parent cnext ;;
  let* x := get_prev parent in
  set_parent_of x parent ;;
  let* x := get_next parent in
  set_parent_of x parent ;;
  let* x := get_parent parent in
  set_parent child x ;;
  set_parent parent child ;;
  (if pprev =? child then
     set_prev child parent ;;
     set_next child pnext ;;
     let* x := get_next child in
     set_parent_of x child
   else
     set_prev child pprev ;;
     let* x := get_prev child in
     set_parent_of x child ;;
     set_next child parent) ;;
  (if pparent =? 0 then ret tt else
   let* x := get_prev pparent in
   if x =? parent then set_prev pparent child else set_next pparent child) ;;
  let* x := get_parent child in
  if x =? 0 then set_top child else ret tt.

(** ** [_get_nth]: the [nth] node in level order, counted from 1 *)

(** The loop; at most 64 levels. *)
Fixpoint get_nth_loop (fuel : nat) (level level_elements nth n x current : Z) : HM Z :=
  match fuel with
  | O => fail NoFuel
  | S fuel' =>
      if negb (n <? level) then ret current else
      let y := u64 (level_elements / Z.shiftl 1 n + x) in
      if y <? nth then
        let* c := get_next current in get_nth_loop fuel' level level_elements nth (n + 1) y c
      else
        let* c := get_prev current in get_nth_loop fuel' level level_elements nth (n + 1) x c
  end.

(** [__builtin_clzl(0)] is undefined. *)
Definition _get_nth (nth : Z) : HM Z :=
  if nth =? 0 then fail Fault else
  let leading_zeroes := 63 - Z.log2 nth in
  let level := 64 - leading_zeroes in
  let level_elements := Z.shiftl 1 (level - 1) in
  let* top := gets _top in
  get_nth_loop 65 level level_elements (u64 (nth - (level_elements - 1))) 1 0 top.

Definition _parent_of_leftmost_empty : HM Z :=
  let* n := gets _size in _get_nth (u64 (n + 1) / 2).
Definition _rightmost_full : HM Z :=
  let* n := gets _size in _get_nth n.

(** Both sift loops move one level per round. *)
Definition sift_fuel : nat := 66.

(** ** [push] *)

Fixpoint sift_up (fuel : nat) (element parent : Z) : HM unit :=
  match fuel with
  | O => fail NoFuel
  | S n =>
      let* top := gets _top in
      if element =? top then ret tt else
      let* ev := deref element in
      let* pv := deref parent in
      if comp ev pv then
        _swap parent element ;;
        let* parent := get_parent element in
        sift_up n element parent
      else ret tt
  end.

Definition push (element : Z) : HM unit :=
  let* top := gets _top in
  if top =? 0 then set_top element ;; add_size 1 else
  let* parent := _parent_of_leftmost_empty in
  set_parent element parent ;;
  set_prev element 0 ;;
  set_next element 0 ;;
  let* x := get_prev parent in
  (if x =? 0 then set_prev parent element else set_next parent element) ;;
  sift_up sift_fuel element parent ;;
  add_size 1.

(** ** [pop]: the object given back, 0 for the empty pointer *)

Definition best_child (best child : Z) : HM Z :=
  if child =? 0 then ret best else
  let* cv := deref child in
  let* bv := deref best in
  ret (if comp cv bv then child else best).

Fixpoint sift_down (fuel : nat) (element : Z) : HM unit :=
  match fuel with
  | O => fail NoFuel
  | S n =>
      let* l := get_prev element in
      let* best := best_child element l in
      let* r := get_next element in
      let* best := best_child best r in
      if best =? element then ret tt else
      _swap element best ;;
      sift_down n element
  end.

Definition pop_two : HM Z :=
  let* top := gets _top in
  let* l := get_prev top in
  set_top l ;;
  set_parent l 0 ;;
  add_size (-1) ;;
  ret top.

Definition pop_three : HM Z :=
  let* top := gets _top in
  let* l := get_prev top in
  let* r := get_next top in
  let* lv := deref l in
  let* rv := deref r in
  (if comp lv rv then set_top l ;; set_parent r l ;; set_prev l r
   else set_top r ;; set_parent l r ;; set_prev r l) ;;
  let* t := gets _top in
  set_parent t 0 ;;
  add_size (-1) ;;
  ret top.

Definition pop_many : HM Z :=
  let* top := gets _top in
  let* element := _rightmost_full in
  set_top element ;;
  let* l := get_prev top in
  set_prev element l ;;
  let* r := get_next top in
  set_next element r ;;
  let* ep := get_parent element in
  let* x := get_prev ep in
  (if element =? x then set_prev ep 0 else set_next ep 0) ;;
  set_parent element 0 ;;
  let* l := get_prev top in
  set_parent l element ;;
  let* r := get_next top in
  set_parent r element ;;
  sift_down sift_fuel element ;;
  add_size (-1) ;;
  ret top.

Definition pop : HM Z :=
  let* n := gets _size in
  if n =? 0 then ret 0
  else if n =? 1 then
    let* top := gets _top in add_size (-1) ;; set_top 0 ;; ret top
  else if n =? 2 then pop_two
  else if n =? 3 then pop_three
  else pop_many.

Definition peek : HM Z := gets _top.

(** The destructor pops until nothing is left. *)
Fixpoint destroy (fuel : nat) : HM (list Z) :=
  match fuel with
  | O => fail NoFuel
  | S n =>
      let* t := peek in
      if t =? 0 then ret [] else
      let* p := pop in
      let* ps := destroy n in
      ret (p :: ps)
  end.
End ops.
