(* ===== verification/HeapLaws.v ===== *)
(** * The intrusive heap as an array

    A heap of [n] objects is described by a function [arr] from positions
    (level order, from 1) to addresses: the parent of position [k] is [k / 2],
    its children are [2 k] and [2 k + 1].  The pointer operations of [TreeHeap]
    are the operations of an array heap on [arr]. *)
From S2P Require Import Prelude TreeHeap.
From Stdlib Require Import ZifyNat.
Ltac Zify.zify_post_hook ::= Z.to_euclidean_division_equations.

Section array.
Context {T : Type} (val : Z -> T).
Implicit Types (m : gmap Z (hnode T)) (arr : nat -> Z) (s : tree_heap T).
#[local] Open Scope nat_scope.

(** Positions [1 .. n] hold distinct non-null addresses, all others none. *)
Record layout arr (n : nat) : Prop := {
  lay_nz k : 1 <= k <= n -> arr k <> 0%Z;
  lay_out k : k = 0 \/ n < k -> arr k = 0%Z;
  lay_inj j k : 1 <= j <= n -> arr j = arr k -> j = k
}.

Definition cell arr (k : nat) : hnode T :=
  mkNode (arr (k / 2)) (arr (2 * k)) (arr (2 * k + 1)) (val (arr k)).

Record hrep m arr (n : nat) : Prop := {
  rep_lay : layout arr n;
  rep_cell k : 1 <= k <= n -> m !! arr k = Some (cell arr k);
  rep_null : m !! 0%Z = None
}.

(** ** Updates at a position *)

Lemma alter_at m arr n f j k :
  layout arr n -> 1 <= j <= n ->
  alter f (arr k) m !! arr j = if decide (j = k) then f <$> (m !! arr j) else m !! arr j.
Proof.
  intros L Hj. case_decide as H.
  - subst. by rewrite lookup_alter_eq.
  - apply lookup_alter_ne. intros E. apply H. symmetry in E. by apply (lay_inj _ _ L) in E.
Qed.
Lemma alter_null m f p : m !! 0%Z = None -> alter f p m !! 0%Z = None.
Proof. intros H. destruct (decide (p = 0%Z)) as [->|]; [rewrite lookup_alter_eq; by rewrite H|by rewrite lookup_alter_ne]. Qed.

Lemma alter_missing m f p : m !! p = None -> alter f p m = m.
Proof.
  intros H. apply map_eq. intros q. destruct (decide (q = p)) as [->|]; [by rewrite lookup_alter_eq, H|by rewrite lookup_alter_ne].
Qed.

(** The objects of the heap are in the store, the null address is not. *)
Record live m arr (n : nat) : Prop := {
  live_null : m !! 0%Z = None;
  live_at k : 1 <= k <= n -> is_Some (m !! arr k)
}.
Lemma live_alter m arr n f p : live m arr n -> live (alter f p m) arr n.
Proof.
  intros [H1 H2]. split; [by apply alter_null|]. intros k Hk. destruct (H2 k Hk) as [x Hx].
  destruct (decide (p = arr k)) as [->|]; [rewrite lookup_alter_eq, Hx|rewrite lookup_alter_ne, Hx]; by eauto.
Qed.
Lemma hrep_live m arr n : hrep m arr n -> live m arr n.
Proof. intros [L C N]. split; [done|]. intros k Hk. rewrite C by done. by eauto. Qed.

Definition on_mem (f : gmap Z (hnode T) -> gmap Z (hnode T)) s : tree_heap T :=
  mkHeap (f (mem s)) (_top s) (_size s).

Lemma update_ok f p s :
  is_Some (mem s !! p) -> update p f s = Ok (tt, on_mem (alter f p) s).
Proof.
  intros [x Hx]. unfold update, on_mem. rewrite Hx. do 3 f_equal. apply map_eq. intros q.
  destruct (decide (p = q)) as [->|].
  - by rewrite lookup_insert_eq, lookup_alter_eq, Hx.
  - by rewrite lookup_insert_ne, lookup_alter_ne.
Qed.
Lemma update_at f arr n k s :
  live (mem s) arr n -> 1 <= k <= n -> update (arr k) f s = Ok (tt, on_mem (alter f (arr k)) s).
Proof. intros [_ L] Hk. by apply update_ok, L. Qed.
(** A null child is skipped, which is what an update at no address does. *)
Lemma set_parent_of_at arr n k a s :
  layout arr n -> live (mem s) arr n ->
  set_parent_of (arr k) a s = Ok (tt, on_mem (alter (with_parent a) (arr k)) s).
Proof.
  clear val. intros L V. unfold set_parent_of. destruct (decide (1 <= k <= n)) as [Hk|Hk].
  - rewrite (proj2 (Z.eqb_neq _ _)) by (by apply (lay_nz _ _ L)). by eapply update_at.
  - rewrite (lay_out _ _ L) by lia. cbn [Z.eqb]. unfold ret, on_mem. destruct s as [m0 t0 z0]. cbn in *.
    by rewrite alter_missing by apply V.
Qed.

Lemma get_ok {A} (g : hnode T -> A) p x s :
  mem s !! p = Some x -> (let* y := load p in ret (g y)) s = Ok (g x, s).
Proof. intros H. unfold bind, load. by rewrite H. Qed.
End array.

(** [live_t]: liveness through a chain of updates; [at_t]: the cell at a
    position after a chain of updates, positions compared by [lia]. *)
Ltac live_t := cbn [mem on_mem]; repeat apply live_alter; eassumption.
Ltac at_t :=
  cbn [mem on_mem];
  repeat (erewrite alter_at by (eassumption || lia); first [rewrite decide_True by lia | rewrite decide_False by lia]);
  match goal with C : forall k, _ -> _ !! _ = Some _ |- _ => rewrite C by lia end; reflexivity.

Section swap.
Context {T : Type} (val : Z -> T).
Implicit Types (m : gmap Z (hnode T)) (arr : nat -> Z) (s : tree_heap T).
#[local] Open Scope nat_scope.

(** Two positions exchanged. *)
Definition swap_at (i c : nat) arr : nat -> Z :=
  fun k => if decide (k = i) then arr c else if decide (k = c) then arr i else arr k.

Lemma swap_layout arr n i c :
  layout arr n -> 1 <= i <= n -> 1 <= c <= n -> layout (swap_at i c arr) n.
Proof.
  clear val. intros L Hi Hc. unfold swap_at. split.
  - intros k Hk. repeat case_decide; by apply (lay_nz _ _ L).
  - intros k Hk. repeat case_decide; [lia|lia|by apply (lay_out _ _ L)].
  - intros j k Hj E. repeat case_decide; subst; try done;
      (apply (lay_inj _ _ L) in E; [|lia]); lia.
Qed.

(** The memory after [_swap], as a chain of updates. *)
Definition swap_mem arr (i c : nat) m : gmap Z (hnode T) :=
  let P := arr i in let C := arr c in
  let m := alter (with_prev (arr (2 * c))) P m in
  let m := alter (with_next (arr (2 * c + 1))) P m in
  let m := alter (with_parent P) (arr (2 * c)) m in
  let m := alter (with_parent P) (arr (2 * c + 1)) m in
  let m := alter (with_parent (arr (i / 2))) C m in
  let m := alter (with_parent C) P m in
  let m := (if decide (c = 2 * i)
            then alter (with_parent C) (arr (2 * i + 1)) (alter (with_next (arr (2 * i + 1))) C (alter (with_prev P) C m))
            else alter (with_next P) C (alter (with_parent C) (arr (2 * i)) (alter (with_prev (arr (2 * i))) C m))) in
  alter (if decide (i mod 2 = 0) then with_prev C else with_next C) (arr (i / 2)) m.

(** Decides comparisons of positions. *)
Ltac dec := repeat first [rewrite decide_True by lia | rewrite decide_False by lia].

Lemma swap_mem_cell m arr n i c k :
  hrep val m arr n -> 1 <= i -> c = 2 * i \/ c = 2 * i + 1 -> c <= n -> 1 <= k <= n ->
  swap_mem arr i c m !! swap_at i c arr k = Some (cell val (swap_at i c arr) k).
Proof.
  intros [L C N] Hi Hc Hn Hk. unfold swap_mem.
  destruct (decide (k = i)) as [->|Hki]; [|destruct (decide (k = c)) as [->|Hkc]].
  - replace (swap_at i c arr i) with (arr c) by (unfold swap_at; by dec).
    destruct Hc as [-> | ->]; dec; repeat (rewrite (alter_at _ _ n) by (done || lia); dec);
      rewrite C by lia; unfold cell, swap_at; dec; done.
  - replace (swap_at i c arr c) with (arr i) by (unfold swap_at; by dec).
    destruct Hc as [-> | ->]; dec; repeat (rewrite (alter_at _ _ n) by (done || lia); dec);
      rewrite C by lia; unfold cell, swap_at; dec; cbn; do 2 f_equal; f_equal; lia.
  - replace (swap_at i c arr k) with (arr k) by (unfold swap_at; by dec).
    set (K := k / 2) in *. assert (HK : 2 * K <= k <= 2 * K + 1) by (subst K; lia).
    set (I := i / 2) in *. assert (HI : 2 * I <= i <= 2 * I + 1) by (subst I; lia).
    replace (swap_at i c arr (k / 2)) with (swap_at i c arr K) by done.
    assert (HE : i mod 2 = i - 2 * I) by (subst I; lia). rewrite HE. clear HE.
    clearbody K I.
    destruct (decide (i - 2 * I = 0)); destruct Hc as [-> | ->]; dec;
      repeat (rewrite (alter_at _ _ n) by (done || lia)); rewrite C by lia; unfold cell, swap_at.
    all: repeat (case_decide; [try (exfalso; lia)|try (exfalso; lia)]).
    all: cbn; try done.
Qed.
End swap.
