(* ===== verification/HeapOps.v ===== *)
(** * The pointer operations on the array view: exchanging two positions and
    finding a position *)
From S2P Require Import Prelude TreeHeap HeapLaws.
From Stdlib Require Import ZifyNat.
Ltac Zify.zify_post_hook ::= Z.to_euclidean_division_equations.

Section ops.
Context {T : Type} (val : Z -> T).
Implicit Types (m : gmap Z (hnode T)) (arr : nat -> Z) (s : tree_heap T).
#[local] Open Scope nat_scope.

Lemma get_prev_ok p x s : mem s !! p = Some x -> get_prev p s = Ok (prev x, s).
Proof. apply (get_ok prev). Qed.
Lemma get_next_ok p x s : mem s !! p = Some x -> get_next p s = Ok (next x, s).
Proof. apply (get_ok next). Qed.
Lemma get_parent_ok p x s : mem s !! p = Some x -> get_parent p s = Ok (tree_parent x, s).
Proof. apply (get_ok tree_parent). Qed.
Lemma heap_deref_ok p x s : mem s !! p = Some x -> deref p s = Ok (value x, s).
Proof. apply (get_ok value). Qed.

Lemma on_mem_missing f p s : mem s !! p = None -> on_mem (alter f p) s = s.
Proof. intros H. unfold on_mem. rewrite alter_missing by done. by destruct s. Qed.

Lemma arr_eqb arr n j k :
  layout arr n -> 1 <= j <= n -> (arr j =? arr k)%Z = bool_decide (j = k).
Proof.
  clear val. intros L Hj. case_bool_decide as H; [subst; apply Z.eqb_refl|].
  apply Z.eqb_neq. intros E. by apply H, (lay_inj _ _ L).
Qed.
Lemma arr_eqb0 arr n k :
  layout arr n -> (arr k =? 0)%Z = bool_decide (k = 0 \/ n < k).
Proof.
  clear val. intros L. case_bool_decide as H.
  - apply Z.eqb_eq. by apply (lay_out _ _ L).
  - apply Z.eqb_neq. apply (lay_nz _ _ L). lia.
Qed.
End ops.

Ltac dec := repeat first [rewrite decide_True by lia | rewrite decide_False by lia].
(** One statement of [_swap] on the array view. *)
Ltac get_t lem := erewrite bind_Ok; [|eapply lem; at_t]; cbn [prev next tree_parent value cell with_prev with_next with_parent].
Ltac upd_t := erewrite bind_Ok; [|eapply update_at; [live_t|lia]].
Ltac par_t := erewrite bind_Ok; [|eapply set_parent_of_at; [eassumption|live_t]].

Section swap_exec.
Context {T : Type} (val : Z -> T).
Implicit Types (m : gmap Z (hnode T)) (arr : nat -> Z) (s : tree_heap T).
#[local] Open Scope nat_scope.

Lemma swap_exec arr n i c s :
  hrep val (mem s) arr n -> _top s = arr 1 ->
  1 <= i -> c = 2 * i \/ c = 2 * i + 1 -> c <= n ->
  _swap (arr i) (arr c) s =
    Ok (tt, mkHeap (swap_mem arr i c (mem s)) (swap_at i c arr 1) (_size s)).
Proof.
  intros H Ht Hi Hc Hn. pose proof (hrep_live _ _ _ _ H) as V. destruct H as [L C N].
  unfold _swap, set_prev, set_next, set_parent.
  get_t (@get_prev_ok T).
  get_t (@get_next_ok T).
  get_t (@get_parent_ok T).
  get_t (@get_prev_ok T).
  upd_t.
  get_t (@get_next_ok T).
  upd_t.
  get_t (@get_prev_ok T).
  par_t.
  get_t (@get_next_ok T).
  par_t.
  get_t (@get_parent_ok T).
  upd_t. upd_t.
  rewrite (arr_eqb _ n) by (done || lia).
  match goal with |- bind _ _ ?s1 = _ => erewrite (bind_Ok _ _ s1 tt (on_mem (fun m => if decide (c = 2 * i)
            then alter (with_parent (arr c)) (arr (2 * i + 1)) (alter (with_next (arr (2 * i + 1))) (arr c) (alter (with_prev (arr i)) (arr c) m))
            else alter (with_next (arr i)) (arr c) (alter (with_parent (arr c)) (arr (2 * i)) (alter (with_prev (arr (2 * i))) (arr c) m))) s1)) end.
  2:{ 
      case_decide; [rewrite bool_decide_true by lia|rewrite bool_decide_false by lia].
      - upd_t. upd_t. get_t (@get_next_ok T). etrans; [eapply set_parent_of_at; [eassumption|live_t]|reflexivity].
      - upd_t. get_t (@get_prev_ok T). par_t. etrans; [eapply update_at; [live_t|lia]|reflexivity]. }
  match goal with |- bind _ _ ?s1 = _ => erewrite (bind_Ok _ _ s1 tt
    (on_mem (alter (if decide (i mod 2 = 0) then with_prev (arr c) else with_next (arr c)) (arr (i / 2))) s1)) end.
  2:{ 
      rewrite (arr_eqb0 _ n) by done. case_bool_decide as Hz.
      - rewrite (lay_out _ _ L (i / 2)) by lia. unfold ret. do 2 f_equal. symmetry. apply on_mem_missing.
        cbn [mem on_mem]. case_decide; repeat apply alter_null; done.
      - destruct (decide (c = 2 * i)).
        + get_t (@get_prev_ok T). rewrite (arr_eqb _ n) by (done || lia).
          case_bool_decide; case_decide; try lia; eapply update_at; try live_t; lia.
        + get_t (@get_prev_ok T). rewrite (arr_eqb _ n) by (done || lia).
          case_bool_decide; case_decide; try lia; eapply update_at; try live_t; lia. }
  assert (Hp : forall m', m' = swap_mem arr i c (mem s) -> m' !! arr c = Some (cell val (swap_at i c arr) i)).
  { intros m' ->. replace (arr c) with (swap_at i c arr i) by (unfold swap_at; by dec).
    eapply swap_mem_cell; [by constructor|lia..]. }
  match goal with |- bind _ _ ?s1 = _ => change s1 with (mkHeap (swap_mem arr i c (mem s)) (_top s) (_size s)) end.
  erewrite bind_Ok; [|eapply get_parent_ok, Hp; reflexivity]. cbn [tree_parent cell].
  pose proof (swap_layout arr n i c L ltac:(lia) ltac:(lia)) as L'.
  rewrite (arr_eqb0 _ n) by done. unfold set_top, modify, ret, on_mem. cbn [mem _top _size].
  unfold swap_at. case_bool_decide; repeat case_decide; try (exfalso; lia); try rewrite <- Ht; reflexivity.
Qed.
End swap_exec.

(** A heap whose objects lie at the positions [1 .. n] of [arr]; [_size] is
    stated apart, as it is adjusted last. *)
Record view {T} (val : Z -> T) (s : tree_heap T) (arr : nat -> Z) (n : nat) : Prop := {
  view_rep : hrep val (mem s) arr n;
  view_top : _top s = arr 1%nat
}.

Section get_nth.
Context {T : Type} (val : Z -> T).
Implicit Types (arr : nat -> Z) (s : tree_heap T).

Lemma halves N d : 0 <= d -> 0 <= N ->
  (N / 2 ^ d = 2 * (N / 2 ^ (d + 1)) /\ N < 2 ^ d + N / 2 ^ (d + 1) * 2 ^ (d + 1)) \/
  (N / 2 ^ d = 2 * (N / 2 ^ (d + 1)) + 1 /\ 2 ^ d + N / 2 ^ (d + 1) * 2 ^ (d + 1) <= N).
Proof.
  clear val. intros Hd HN. rewrite Z.pow_add_r, Z.pow_1_r by lia.
  pose proof (Z.pow_pos_nonneg 2 d ltac:(lia) Hd) as Hp. set (w := 2 ^ d) in *.
  rewrite <- Z.div_div by lia. set (a := N / w).
  pose proof (Z.div_mod N w ltac:(lia)) as E. pose proof (Z.mod_pos_bound N w Hp) as B.
  fold a in E. set (r := N mod w) in *. pose proof (Z.div_mod a 2 ltac:(lia)) as E2.
  pose proof (Z.mod_pos_bound a 2 ltac:(lia)) as B2. set (b := a / 2) in *. set (q := a mod 2) in *.
  clearbody w a r b q. assert (q = 0 \/ q = 1) as [-> | ->] by lia; [left|right]; nia.
Qed.

Lemma get_nth_loop_spec s arr n N (d : nat) fuel level x :
  view val s arr n -> 1 <= N <= Z.of_nat n -> Z.of_nat n < 2 ^ 63 ->
  level = Z.log2 N + 1 -> Z.of_nat d < level -> (d < fuel)%nat ->
  x = N / 2 ^ Z.of_nat d * 2 ^ Z.of_nat d - 2 ^ (level - 1) ->
  get_nth_loop fuel level (2 ^ (level - 1)) (N - (2 ^ (level - 1) - 1)) (level - Z.of_nat d) x
    (arr (Z.to_nat (N / 2 ^ Z.of_nat d))) s = Ok (arr (Z.to_nat N), s).
Proof.
  intros V HN Hn Hl. revert fuel x. induction d as [|d IH]; intros [|fuel] x Hd Hf ->; try lia; cbn [get_nth_loop].
  - rewrite (proj2 (Z.ltb_ge _ _)) by lia. cbn [negb]. unfold ret. rewrite Z.pow_0_r, Z.div_1_r. done.
  - rewrite (proj2 (Z.ltb_lt _ _)) by lia. cbn [negb].
    replace (Z.of_nat (S d)) with (Z.of_nat d + 1) in * by lia.
    pose proof (Z.log2_spec N ltac:(lia)) as [B1 B2]. replace (Z.succ (Z.log2 N)) with level in B2 by lia.
    replace (Z.log2 N) with (level - 1) in B1 by lia.
    assert (Hl63 : level <= 63).
    { assert (Z.log2 N < 63); [|lia]. apply Z.log2_lt_pow2; lia. }
    rewrite Z.shiftl_mul_pow2, Z.mul_1_l by lia.
    assert (Hp : 2 ^ (level - 1) = 2 ^ (level - (Z.of_nat d + 1)) * 2 ^ Z.of_nat d) by (rewrite <- Z.pow_add_r by lia; f_equal; lia).
    replace (2 ^ (level - 1) / 2 ^ (level - (Z.of_nat d + 1))) with (2 ^ Z.of_nat d)
      by (rewrite Hp, Z.mul_comm, Z.div_mul by (apply Z.pow_nonzero; lia); done).
    assert (Hlow : 2 ^ (level - 1) <= N / 2 ^ (Z.of_nat d + 1) * 2 ^ (Z.of_nat d + 1)).
    { replace (2 ^ (level - 1)) with (2 ^ (level - 1) / 2 ^ (Z.of_nat d + 1) * 2 ^ (Z.of_nat d + 1)).
      - apply Z.mul_le_mono_nonneg_r; [lia|]. apply Z.div_le_mono; lia.
      - replace (level - 1) with (level - 1 - (Z.of_nat d + 1) + (Z.of_nat d + 1)) by lia.
        rewrite (Z.pow_add_r _ (level - 1 - _)) by lia. rewrite Z.div_mul by (apply Z.pow_nonzero; lia). done. }
    pose proof (Z.pow_pos_nonneg 2 (Z.of_nat d) ltac:(lia) ltac:(lia)) as Hd0.
    pose proof (Z.pow_pos_nonneg 2 (level - 1) ltac:(lia) ltac:(lia)) as Hl0.
    assert (Hd1 : 2 ^ Z.of_nat d < 2 ^ 63) by (apply Z.pow_lt_mono_r; lia).
    pose proof (Z.mul_div_le N (2 ^ (Z.of_nat d + 1)) ltac:(lia)) as Hq.
    assert (Hq1 : 1 <= N / 2 ^ (Z.of_nat d + 1)) by nia.
    assert (Hqn : N / 2 ^ (Z.of_nat d + 1) <= N) by (apply Z.div_le_upper_bound; nia).
    rewrite u64_id by (unfold is_u64; lia).
    pose proof (halves N (Z.of_nat d) ltac:(lia) ltac:(lia)) as Hh.
    set (q := N / 2 ^ (Z.of_nat d + 1)) in *.
    destruct V as [[L C Nn] _]. 
    assert (Cq := C (Z.to_nat q) ltac:(lia)).
    destruct Hh as [[E1 E2]|[E1 E2]].
    + rewrite (proj2 (Z.ltb_ge _ _)) by lia.
      erewrite bind_Ok; [|by eapply get_prev_ok]. cbn [prev cell].
      replace (2 * Z.to_nat q)%nat with (Z.to_nat (N / 2 ^ Z.of_nat d)) by lia.
      replace (level - (Z.of_nat d + 1) + 1) with (level - Z.of_nat d) by lia.
      apply IH; [lia..|]. rewrite E1. rewrite Z.pow_add_r by lia. lia.
    + rewrite (proj2 (Z.ltb_lt _ _)) by lia.
      erewrite bind_Ok; [|by eapply get_next_ok]. cbn [next cell].
      replace (2 * Z.to_nat q + 1)%nat with (Z.to_nat (N / 2 ^ Z.of_nat d)) by lia.
      replace (level - (Z.of_nat d + 1) + 1) with (level - Z.of_nat d) by lia.
      apply IH; [lia..|]. rewrite E1. rewrite Z.pow_add_r by lia. lia.
Qed.

Lemma get_nth_spec s arr n N :
  view val s arr n -> 1 <= N <= Z.of_nat n -> Z.of_nat n < 2 ^ 63 ->
  _get_nth N s = Ok (arr (Z.to_nat N), s).
Proof.
  intros V HN Hn. unfold _get_nth. rewrite (proj2 (Z.eqb_neq _ _)) by lia.
  pose proof (Z.log2_spec N ltac:(lia)) as [B1 B2]. rewrite Z.pow_succ_r in B2 by apply Z.log2_nonneg.
  pose proof (Z.log2_nonneg N) as B0.
  replace (64 - (63 - Z.log2 N)) with (Z.log2 N + 1) by lia.
  rewrite Z.shiftl_mul_pow2, Z.mul_1_l by lia.
  assert (E1 : N / 2 ^ Z.log2 N = 1) by (symmetry; apply Z.div_unique with (N - 2 ^ Z.log2 N); lia).
  erewrite bind_Ok; [|reflexivity]. rewrite (view_top _ _ _ _ V).
  replace (Z.log2 N + 1 - 1) with (Z.log2 N) by lia.
  rewrite u64_id by (unfold is_u64; lia).
  pose proof (get_nth_loop_spec s arr n N (Z.to_nat (Z.log2 N)) 65 (Z.log2 N + 1) 0 V HN Hn eq_refl) as H.
  rewrite Z2Nat.id in H by lia. rewrite E1 in H.
  replace (Z.log2 N + 1 - 1) with (Z.log2 N) in H by lia.
  replace (Z.log2 N + 1 - Z.log2 N) with 1 in H by lia.
  apply H; [lia| |lia]. assert (Z.log2 N < 63); [|lia]. apply Z.log2_lt_pow2; lia.
Qed.
End get_nth.
