(* ===== verification/HeapOrder.v ===== *)
(** * Heap order: the two sift loops restore it

    The comparator is a strict weak order.  [heap_ok] is the order a heap keeps
    between operations; [up_ok] and [down_ok] are the orders with one position
    out of place, kept by the loops of [push] and [pop]. *)
From S2P Require Import Prelude TreeHeap HeapLaws HeapOps.
From Stdlib Require Import ZifyNat.
Ltac Zify.zify_post_hook ::= Z.to_euclidean_division_equations.

(** What the heap asks of its comparator. *)
Class StrictWeak {T} (comp : T -> T -> bool) : Prop := {
  sw_asym a b : comp a b = true -> comp b a = false;
  sw_trans a b c : comp b a = false -> comp c b = false -> comp c a = false
}.

(** Objects keep their contents, whatever happens to their links. *)
Definition same_objects {T} (s s' : tree_heap T) : Prop :=
  forall p, value <$> (mem s' !! p) = value <$> (mem s !! p).
#[export] Instance same_objects_po {T} : PreOrder (@same_objects T).
Proof. split; [by intros s p|]. intros s1 s2 s3 H1 H2 p. by rewrite H2, H1. Qed.

(** The objects of a heap of [n] positions. *)
Definition members (arr : nat -> Z) (n : nat) : list Z := arr <$> seq 1 n.

Section order.
Context {T : Type} (comp : T -> T -> bool) (val : Z -> T) `{!StrictWeak comp}.
Implicit Types (m : gmap Z (hnode T)) (arr : nat -> Z) (s : tree_heap T).
#[local] Open Scope nat_scope.

Lemma elem_members arr n p : p ∈ members arr n <-> exists k, 1 <= k <= n /\ p = arr k.
Proof.
  clear val. unfold members. rewrite list_elem_of_fmap. setoid_rewrite elem_of_seq.
  split; intros (k & H); exists k; destruct H; split; auto; lia.
Qed.
Lemma layout_NoDup arr n : layout arr n -> NoDup (members arr n).
Proof.
  intros L. apply NoDup_fmap_2_strong; [|apply NoDup_seq].
  intros j k Hj%elem_of_seq _ E. apply (lay_inj _ _ L) in E; [done|lia].
Qed.
Lemma swap_members arr n i c :
  layout arr n -> 1 <= i <= n -> 1 <= c <= n -> members (swap_at i c arr) n ≡ₚ members arr n.
Proof.
  intros L Hi Hc. apply NoDup_Permutation; try apply layout_NoDup; [by apply swap_layout|done|].
  intros p. rewrite !elem_members. unfold swap_at. split; intros (k & Hk & ->).
  - repeat case_decide; [exists c|exists i|exists k]; done.
  - destruct (decide (k = i)) as [->|]; [exists c|destruct (decide (k = c)) as [->|]; [exists i|exists k]];
      (split; [lia|]); repeat case_decide; congruence.
Qed.

Lemma alter_value f p m q :
  (forall x, value (f x) = value x) -> value <$> (alter f p m !! q) = value <$> (m !! q).
Proof.
  intros H. destruct (decide (p = q)) as [->|]; [|by rewrite lookup_alter_ne].
  rewrite lookup_alter_eq. destruct (m !! q) as [x|]; [|done]. cbn. by rewrite H.
Qed.
Lemma on_mem_same s f p :
  (forall x : hnode T, value (f x) = value x) -> same_objects s (on_mem (alter f p) s).
Proof. intros H q. by apply alter_value. Qed.

(** [_swap] exchanges two positions and nothing else. *)
Lemma swap_view s arr n i c :
  view val s arr n -> 1 <= i -> c = 2 * i \/ c = 2 * i + 1 -> c <= n ->
  exists s', _swap (arr i) (arr c) s = Ok (tt, s') /\ view val s' (swap_at i c arr) n /\
    _size s' = _size s /\ same_objects s s'.
Proof.
  clear comp StrictWeak0. intros [R Ht] Hi Hc Hn. eexists. split; [by eapply swap_exec|]. split; [|split; [reflexivity|]].
  - pose proof R as [L C N]. split; [|reflexivity]. cbn [mem]. split.
    + apply swap_layout; [done|lia..].
    + intros k Hk. by eapply swap_mem_cell.
    + unfold swap_mem. cbv zeta. repeat case_decide; repeat apply alter_null; done.
  - intros q. cbn [mem]. unfold swap_mem. cbv zeta.
    repeat case_decide; repeat (rewrite alter_value; [|done]); done.
Qed.

(** ** Orders *)

Definition ordered arr (k : nat) : Prop := comp (val (arr k)) (val (arr (k / 2))) = false.
Definition heap_ok arr n : Prop := forall k, 2 <= k <= n -> ordered arr k.
(** [i] may precede its parent. *)
Definition up_ok arr n i : Prop :=
  (forall k, 2 <= k <= n -> k <> i -> ordered arr k) /\
  (2 <= i -> forall k, 2 <= k <= n -> k / 2 = i -> comp (val (arr k)) (val (arr (i / 2))) = false).
(** [i] may be preceded by its children. *)
Definition down_ok arr n i : Prop :=
  (forall k, 2 <= k <= n -> k / 2 <> i -> ordered arr k) /\
  (2 <= i -> forall k, 2 <= k <= n -> k / 2 = i -> comp (val (arr k)) (val (arr (i / 2))) = false).

Lemma comp_irrefl a : comp a a = false.
Proof using StrictWeak0. destruct (comp a a) eqn:E; [|done]. pose proof (sw_asym _ _ E). congruence. Qed.

(** The top precedes everything. *)
Lemma heap_ok_top arr n k : heap_ok arr n -> 1 <= k <= n -> comp (val (arr k)) (val (arr 1)) = false.
Proof using StrictWeak0.
  intros H. induction k as [k IH] using lt_wf_ind. intros Hk.
  destruct (decide (k = 1)) as [->|]; [apply comp_irrefl|].
  eapply sw_trans; [apply (IH (k / 2)); lia|]. apply H. lia.
Qed.

Lemma swap_at_l i c arr : swap_at i c arr i = arr c.
Proof. unfold swap_at. by rewrite decide_True. Qed.
Lemma swap_at_r i c arr : i <> c -> swap_at i c arr c = arr i.
Proof. intros. unfold swap_at. by rewrite decide_False, decide_True by congruence. Qed.
Lemma swap_at_ne i c arr k : k <> i -> k <> c -> swap_at i c arr k = arr k.
Proof. intros. unfold swap_at. by rewrite !decide_False. Qed.

Lemma up_step arr n i :
  up_ok arr n i -> 2 <= i <= n -> comp (val (arr i)) (val (arr (i / 2))) = true ->
  up_ok (swap_at (i / 2) i arr) n (i / 2).
Proof using StrictWeak0.
  intros [H1 H2] Hi E. specialize (H2 ltac:(lia)). unfold ordered in *. split.
  - intros k Hk Hne. unfold ordered. destruct (decide (k = i)) as [->|Hki].
    { rewrite swap_at_r, swap_at_l by lia. by apply sw_asym. }
    rewrite (swap_at_ne _ _ _ k) by lia.
    destruct (decide (k / 2 = i)) as [E2|]; [rewrite E2, swap_at_r by lia; by apply H2|].
    destruct (decide (k / 2 = i / 2)) as [E2|].
    { rewrite E2, swap_at_l. eapply sw_trans; [by apply sw_asym|]. rewrite <- E2. by apply H1. }
    rewrite swap_at_ne by lia. by apply H1.
  - intros Hp k Hk E2. rewrite (swap_at_ne _ _ _ (i / 2 / 2)) by lia.
    pose proof (H1 (i / 2) ltac:(lia) ltac:(lia)) as Hpp.
    destruct (decide (k = i)) as [->|]; [by rewrite swap_at_r by lia|].
    rewrite swap_at_ne by lia. eapply sw_trans; [done|]. rewrite <- E2. apply H1; lia.
Qed.

Lemma down_step arr n i c :
  down_ok arr n i -> 1 <= i -> 2 <= c <= n -> c / 2 = i ->
  comp (val (arr c)) (val (arr i)) = true ->
  (forall k, 2 <= k <= n -> k / 2 = i -> comp (val (arr k)) (val (arr c)) = false) ->
  down_ok (swap_at i c arr) n c.
Proof using StrictWeak0.
  intros [H1 H2] Hi Hc Ec E Hs. unfold ordered in *. split.
  - intros k Hk Hne. unfold ordered. destruct (decide (k = i)) as [->|Hki].
    { rewrite swap_at_l, swap_at_ne by lia. apply H2; lia. }
    destruct (decide (k = c)) as [->|]; [rewrite Ec, swap_at_l, swap_at_r by lia; by apply sw_asym|].
    rewrite (swap_at_ne _ _ _ k) by lia.
    destruct (decide (k / 2 = i)) as [E2|]; [rewrite E2, swap_at_l; by apply Hs|].
    rewrite swap_at_ne by lia. by apply H1.
  - intros _ k Hk E2. rewrite Ec, swap_at_l, swap_at_ne by lia. rewrite <- E2. apply H1; lia.
Qed.

(** ** The loops *)

(** The outcome of a loop: the same objects, in order. *)
Definition sifted s arr n (r : res (unit * tree_heap T)) : Prop :=
  exists s' arr', r = Ok (tt, s') /\ view val s' arr' n /\ heap_ok arr' n /\
    members arr' n ≡ₚ members arr n /\ _size s' = _size s /\ same_objects s s'.

Lemma sifted_swap s arr n s1 arr1 r :
  members arr1 n ≡ₚ members arr n -> _size s1 = _size s -> same_objects s s1 ->
  sifted s1 arr1 n r -> sifted s arr n r.
Proof.
  intros P1 Z1 S1 (s' & arr' & -> & V & H & P & Zs & So). exists s', arr'. split; [done|].
  split; [done|]. split; [done|]. split; [by rewrite P|]. split; [congruence|by etrans].
Qed.
Lemma sifted_done s arr n :
  view val s arr n -> heap_ok arr n -> sifted s arr n (Ok (tt, s)).
Proof. intros V H. exists s, arr. split; [done|]. repeat (split; [done|]). done. Qed.

Lemma deref_at s arr n k : view val s arr n -> 1 <= k <= n -> deref (arr k) s = Ok (val (arr k), s).
Proof. intros [R _] Hk. erewrite heap_deref_ok by (by apply (rep_cell _ _ _ _ R)). done. Qed.
Lemma get_parent_at s arr n k : view val s arr n -> 1 <= k <= n -> get_parent (arr k) s = Ok (arr (k / 2), s).
Proof. intros [R _] Hk. erewrite get_parent_ok by (by apply (rep_cell _ _ _ _ R)). done. Qed.
Lemma get_prev_at s arr n k : view val s arr n -> 1 <= k <= n -> get_prev (arr k) s = Ok (arr (2 * k), s).
Proof. intros [R _] Hk. erewrite get_prev_ok by (by apply (rep_cell _ _ _ _ R)). done. Qed.
Lemma get_next_at s arr n k : view val s arr n -> 1 <= k <= n -> get_next (arr k) s = Ok (arr (2 * k + 1), s).
Proof. intros [R _] Hk. erewrite get_next_ok by (by apply (rep_cell _ _ _ _ R)). done. Qed.

Lemma sift_up_spec fuel s arr n i :
  view val s arr n -> up_ok arr n i -> 1 <= i <= n -> i < 2 ^ fuel ->
  sifted s arr n (sift_up comp fuel (arr i) (arr (i / 2)) s).
Proof using StrictWeak0.
  revert s arr i. induction fuel as [|fuel IH]; intros s arr i V U Hi Hf; [cbn in Hf; lia|].
  pose proof V as [[L C N] Ht]. cbn [sift_up].
  erewrite bind_Ok by reflexivity. rewrite Ht, (arr_eqb _ n) by done.
  case_bool_decide as Hi1.
  { subst i. apply sifted_done; [done|]. intros k Hk. apply U; lia. }
  erewrite bind_Ok by (eapply deref_at; eauto). erewrite bind_Ok by (eapply deref_at; eauto; lia).
  destruct (comp (val (arr i)) (val (arr (i / 2)))) eqn:E.
  - destruct (swap_view s arr n (i / 2) i V) as (s1 & E1 & V1 & Z1 & S1); [lia..|].
    erewrite bind_Ok by done.
    rewrite <- (swap_at_l (i / 2) i arr) at 1. erewrite bind_Ok by (eapply get_parent_at; [done|lia]).
    rewrite <- (swap_at_l (i / 2) i arr) at 1.
    eapply sifted_swap; [| | |apply IH]; try done.
    + apply swap_members; [done|lia..].
    + apply up_step; [done|lia|done].
    + lia.
    + cbn in Hf. lia.
  - apply sifted_done; [done|]. intros k Hk. destruct (decide (k = i)) as [->|]; [done|]. by apply U.
Qed.

Lemma best_child_spec s arr n b c :
  view val s arr n -> 1 <= b <= n -> 1 <= c ->
  best_child comp (arr b) (arr c) s =
    Ok (arr (if decide (c <= n /\ comp (val (arr c)) (val (arr b)) = true) then c else b), s).
Proof.
  clear StrictWeak0. intros V Hb Hc. pose proof V as [[L C N] Ht]. unfold best_child.
  rewrite (arr_eqb0 _ n) by done. case_bool_decide.
  { rewrite decide_False by lia. done. }
  erewrite bind_Ok by (eapply deref_at; eauto; lia). erewrite bind_Ok by (eapply deref_at; eauto; lia).
  unfold ret. destruct (comp _ _); [rewrite decide_True by (split; [lia|done])|rewrite decide_False by naive_solver]; done.
Qed.

Lemma pick n c b (q : bool) :
  let x := if decide (c <= n /\ q = true) then c else b in
  (x = b /\ (c <= n -> q = false)) \/ (x = c /\ c <= n /\ q = true).
Proof. clear. cbv zeta. case_decide as H; [right; naive_solver|left]. split; [done|]. destruct q; naive_solver. Qed.

Lemma sift_down_spec fuel s arr n i :
  view val s arr n -> down_ok arr n i -> 1 <= i <= n -> n < i * 2 ^ fuel ->
  sifted s arr n (sift_down comp fuel (arr i) s).
Proof using StrictWeak0.
  revert s arr i. induction fuel as [|fuel IH]; intros s arr i V D Hi Hf; [cbn in Hf; lia|].
  pose proof V as [[L C N] Ht]. cbn [sift_down].
  erewrite bind_Ok by (eapply get_prev_at; eauto). erewrite bind_Ok by (eapply best_child_spec; eauto; lia).
  erewrite bind_Ok by (eapply get_next_at; eauto).
  set (b1 := if decide (2 * i <= n /\ comp (val (arr (2 * i))) (val (arr i)) = true) then 2 * i else i).
  assert (Hb1 : b1 = i /\ (2 * i <= n -> comp (val (arr (2 * i))) (val (arr i)) = false) \/
                b1 = 2 * i /\ 2 * i <= n /\ comp (val (arr (2 * i))) (val (arr i)) = true).
  { apply pick. }
  clearbody b1. erewrite bind_Ok by (eapply best_child_spec; eauto; lia).
  set (b2 := if decide (_ /\ _) then _ else _).
  assert (Hb2 : b2 = b1 /\ (2 * i + 1 <= n -> comp (val (arr (2 * i + 1))) (val (arr b1)) = false) \/
                b2 = 2 * i + 1 /\ 2 * i + 1 <= n /\ comp (val (arr (2 * i + 1))) (val (arr b1)) = true).
  { apply pick. }
  clearbody b2. rewrite (arr_eqb _ n) by (done || lia). case_bool_decide as Hb.
  - subst b2. destruct Hb2 as [[<- Hb2]|?]; [|lia]. destruct Hb1 as [[_ Hb1]|?]; [|lia].
    apply sifted_done; [done|]. intros k Hk. destruct (decide (k / 2 = i)) as [E|]; [|by apply D].
    unfold ordered. rewrite E. assert (k = 2 * i \/ k = 2 * i + 1) as [-> | ->] by lia; auto with lia.
  - assert (Hc : 2 <= b2 <= n /\ b2 / 2 = i) by lia. destruct Hc as [Hc Hc2].
    assert (Hlt : comp (val (arr b2)) (val (arr i)) = true /\
      forall k, 2 <= k <= n -> k / 2 = i -> comp (val (arr k)) (val (arr b2)) = false).
    { destruct Hb2 as [[-> Hb2]|(-> & Hn & Hb2)].
      - destruct Hb1 as [[? ?]|(-> & _ & Hb1)]; [lia|]. split; [done|]. intros k Hk E.
        assert (k = 2 * i \/ k = 2 * i + 1) as [-> | ->] by lia; [apply comp_irrefl|auto with lia].
      - assert (Hx : comp (val (arr (2 * i + 1))) (val (arr i)) = true).
        { destruct Hb1 as [[-> ?]|(-> & _ & Hb1)]; [done|].
          destruct (comp (val (arr (2 * i + 1))) (val (arr i))) eqn:E; [done|].
          pose proof (sw_trans _ _ _ (sw_asym _ _ Hb1) E) as Hy. congruence. }
        split; [done|]. intros k Hk E.
        assert (k = 2 * i \/ k = 2 * i + 1) as [-> | ->] by lia; [|apply comp_irrefl].
        destruct Hb1 as [[-> Hb1]|(-> & _ & Hb1)]; [|by apply sw_asym].
        eapply sw_trans; [by apply sw_asym|]. apply Hb1. lia. }
    destruct Hlt as [Hlt Hs].
    destruct (swap_view s arr n i b2 V) as (s1 & E1 & V1 & Z1 & S1); [lia..|].
    erewrite bind_Ok by done. rewrite <- (swap_at_r i b2 arr) by lia.
    eapply sifted_swap; [| | |apply IH]; try done.
    + apply swap_members; [done|lia..].
    + apply down_step; (done || lia).
    + lia.
    + cbn in Hf. nia.
Qed.
End order.
