(* ===== verification/HeapQueue.v ===== *)
(** * [push], [pop] and the destructor on a heap in order *)
From S2P Require Import Prelude TreeHeap HeapLaws HeapOps HeapOrder.
From Stdlib Require Import ZifyNat.
Ltac Zify.zify_post_hook ::= Z.to_euclidean_division_equations.

(** A heap between operations: its objects at the positions [1 .. n], in order,
    and counted. *)
Record is_heap {T} (comp : T -> T -> bool) (val : Z -> T) (s : tree_heap T) (arr : nat -> Z) (n : nat) : Prop := {
  heap_view : view val s arr n;
  heap_order : heap_ok comp val arr n;
  heap_size : _size s = Z.of_nat n;
  heap_small : Z.of_nat n < 2 ^ 63
}.

Section queue.
Context {T : Type} (comp : T -> T -> bool) (val : Z -> T) `{!StrictWeak comp}.
Implicit Types (m : gmap Z (hnode T)) (arr : nat -> Z) (s : tree_heap T).
#[local] Open Scope nat_scope.

Lemma heap_layout s arr n : is_heap comp val s arr n -> layout arr n.
Proof. by intros [[[L _ _] _] _ _ _]. Qed.

Lemma top_empty s arr n :
  is_heap comp val s arr n -> (_top s =? 0)%Z = bool_decide (n = 0).
Proof.
  intros H. pose proof (heap_layout _ _ _ H) as L. destruct H as [[_ ->] _ _ _].
  rewrite (arr_eqb0 _ n) by done. apply bool_decide_ext. lia.
Qed.

(** ** [push] *)

(** One object more, at the first free position. *)
Definition grown (e : Z) arr (n : nat) : nat -> Z := fun k => if decide (k = S n) then e else arr k.

Lemma grown_layout e arr n :
  layout arr n -> e <> 0%Z -> e ∉ members arr n -> layout (grown e arr n) (S n).
Proof.
  clear val comp StrictWeak0. intros L He Hn. unfold grown. split.
  - intros k Hk. case_decide; [done|]. apply (lay_nz _ _ L). lia.
  - intros k Hk. rewrite decide_False by lia. apply (lay_out _ _ L). lia.
  - intros j k Hj E. repeat case_decide; subst; try done.
    + destruct (decide (1 <= k <= n)) as [Hk|Hk]; [|by rewrite (lay_out _ _ L) in He by lia].
      exfalso. apply Hn, elem_members. by exists k.
    + exfalso. apply Hn, elem_members. exists j. split; [lia|done].
    + apply (lay_inj _ _ L) in E; [done|lia].
Qed.
Lemma grown_members e arr n : members (grown e arr n) (S n) ≡ₚ e :: members arr n.
Proof.
  clear val comp StrictWeak0.
  unfold members. rewrite seq_S, fmap_app. cbn [fmap list_fmap]. unfold grown at 2. rewrite decide_True by lia.
  rewrite Permutation_app_comm. cbn. f_equiv. match goal with |- ?a ≡ₚ ?b => assert (a = b) as ->; [|done] end. apply list_fmap_ext.
  intros i k [Hk ?]%lookup_seq. unfold grown. rewrite decide_False by lia. done.
Qed.
Lemma grown_ne e arr n k : k <> S n -> grown e arr n k = arr k.
Proof. intros. unfold grown. by rewrite decide_False. Qed.
Lemma grown_last e arr n : grown e arr n (S n) = e.
Proof. unfold grown. by rewrite decide_True. Qed.

(** The memory before the loop of [push]. *)
Definition push_mem arr n e m : gmap Z (hnode T) :=
  let m := alter (with_parent (arr (S n / 2))) e m in
  let m := alter (with_prev 0) e m in
  let m := alter (with_next 0) e m in
  alter (if decide (S n mod 2 = 0) then with_prev e else with_next e) (arr (S n / 2)) m.

Lemma push_mem_rep m arr n e x :
  hrep val m arr n -> 1 <= n -> e <> 0%Z -> e ∉ members arr n -> m !! e = Some x -> value x = val e ->
  hrep val (push_mem arr n e m) (grown e arr n) (S n).
Proof.
  clear comp StrictWeak0. intros [L C N] Hn He Hf Hx Hv. pose proof (grown_layout e arr n L He Hf) as L'.
  set (g := grown e arr n) in *.
  assert (G : forall k, k <> S n -> g k = arr k) by (intros; by apply grown_ne).
  assert (Ge : g (S n) = e) by apply grown_last.
  split; [done| |by unfold push_mem; cbv zeta; repeat apply alter_null].
  intros k Hk. unfold push_mem. cbv zeta. rewrite <- !(G (S n / 2)) by lia. rewrite <- Ge.
  repeat (rewrite (alter_at _ g (S n)) by (done || lia)).
  destruct (decide (k = S n)) as [->|Hkn].
  - rewrite decide_False by lia. rewrite Ge, Hx. cbn. unfold with_next, with_prev, with_parent, cell. cbn [tree_parent prev next value].
    rewrite Hv, Ge.
    rewrite (lay_out _ _ L' (2 * S n)), (lay_out _ _ L' (2 * S n + 1)) by lia. done.
  - rewrite (G k) by lia. rewrite C by lia. unfold cell.
    rewrite (G k) by lia. rewrite (G (k / 2)) by lia.
    destruct (decide (k = S n / 2)) as [->|Hkp].
    + destruct (decide (S n mod 2 = 0)); cbn [fmap option_fmap option_map]; unfold with_prev, with_next; cbn [tree_parent prev next value].
      * replace (2 * (S n / 2)) with (S n) by lia. rewrite (lay_out _ _ L (S n + 1)), (lay_out _ _ L' (S n + 1)) by lia. done.
      * replace (2 * (S n / 2) + 1) with (S n) by lia. rewrite (G (2 * (S n / 2))) by lia. done.
    + rewrite !G by lia. done.
Qed.

Lemma push_links s arr n e x :
  view val s arr n -> 1 <= n -> e <> 0%Z -> e ∉ members arr n -> mem s !! e = Some x -> value x = val e ->
  let s1 := on_mem (push_mem arr n e) s in
  view val s1 (grown e arr n) (S n) /\ same_objects s s1 /\ _size s1 = _size s /\
  forall A (k : M (tree_heap T) A),
    (set_parent e (arr (S n / 2)) ;; set_prev e 0 ;; set_next e 0 ;;
     let* y := get_prev (arr (S n / 2)) in
     (if (y =? 0)%Z then set_prev (arr (S n / 2)) e else set_next (arr (S n / 2)) e) ;; k) s = k s1.
Proof.
  intros [R Ht] Hn He Hf Hx Hv s1. subst s1. pose proof R as [L C N]. split; [|split; [|split; [done|]]].
  - split; [by eapply push_mem_rep|]. cbn. rewrite grown_ne by lia. done.
  - intros p. cbn [mem on_mem]. unfold push_mem. cbv zeta.
    repeat case_decide; repeat (rewrite alter_value; [|done]); done.
  - intros A k. unfold set_parent, set_prev, set_next.
    assert (Hp : arr (S n / 2) <> e).
    { intros E. apply Hf, elem_members. exists (S n / 2). split; [lia|done]. }
    erewrite bind_Ok by (apply update_ok; eauto).
    erewrite bind_Ok by (apply update_ok; cbn [mem on_mem]; rewrite lookup_alter_eq, Hx; cbn; eauto).
    erewrite bind_Ok by (apply update_ok; cbn [mem on_mem]; rewrite !lookup_alter_eq, Hx; cbn; eauto).
    erewrite bind_Ok by (eapply get_prev_ok; cbn [mem on_mem]; rewrite !lookup_alter_ne by done; apply C; lia).
    cbn [prev cell]. rewrite (arr_eqb0 _ n) by done.
    unfold on_mem, push_mem.
    case_bool_decide; [rewrite decide_True by lia|rewrite decide_False by lia];
      (erewrite bind_Ok by (apply update_ok; cbn [mem]; rewrite !lookup_alter_ne by done; rewrite C by lia; eauto));
      reflexivity.
Qed.

(** An object may be pushed onto an empty heap only when its links are null:
    [push] leaves them alone there. *)
Definition pushable s e : Prop :=
  e <> 0%Z /\ exists x, mem s !! e = Some x /\ value x = val e /\
    ((_top s = 0%Z) -> tree_parent x = 0%Z /\ prev x = 0%Z /\ next x = 0%Z).

Lemma heap_push_spec s arr n e :
  is_heap comp val s arr n -> (Z.of_nat (S n) < 2 ^ 63)%Z -> pushable s e -> e ∉ members arr n ->
  exists s' arr', push comp e s = Ok (tt, s') /\ is_heap comp val s' arr' (S n) /\
    members arr' (S n) ≡ₚ e :: members arr n /\ same_objects s s'.
Proof using StrictWeak0.
  intros H Hs (He & x & Hx & Hv & Hl) Hf. unfold push. erewrite bind_Ok by reflexivity.
  rewrite (top_empty _ _ _ H). pose proof H as [V O Z Sm]. case_bool_decide as Hn.
  - subst n. pose proof V as [[L C N] Ht]. rewrite (lay_out _ _ L) in Ht by lia.
    destruct (Hl Ht) as (P1 & P2 & P3). unfold set_top, add_size, modify, bind. cbn [mem _top _size].
    eexists _, (grown e arr 0). split; [reflexivity|]. split; [|split; [apply grown_members|done]].
    split; [|intros k Hk; lia|cbn; rewrite Z; done|done].
    split; [|cbn; by rewrite grown_last]. cbn [mem].
    split; [by apply grown_layout| |done]. intros k Hk. replace k with 1 by lia. rewrite grown_last, Hx.
    unfold cell. rewrite !grown_ne by lia. rewrite grown_last, !(lay_out _ _ L) by lia. destruct x; cbn in *; subst; done.
  - unfold _parent_of_leftmost_empty. rewrite bind_assoc.
    erewrite bind_Ok by reflexivity. rewrite Z, u64_id by (unfold is_u64; lia).
    erewrite bind_Ok by (eapply get_nth_spec; [done|lia..]).
    replace (Z.to_nat ((Z.of_nat n + 1) / 2)) with (S n / 2) by lia.
    destruct (push_links s arr n e x V) as (V1 & S1 & Z1 & E1); [lia|done..|]. rewrite E1. clear E1.
    set (s1 := on_mem _ s) in *.
    assert (G : sifted comp val s1 (grown e arr n) (S n) (sift_up comp sift_fuel e (arr (S n / 2)) s1)).
    { rewrite <- (grown_last e arr n) at 2. rewrite <- (grown_ne e arr n (S n / 2)) by lia. apply sift_up_spec; try done.
      - split; [|intros; lia]. intros k Hk Hkn. unfold ordered. rewrite !grown_ne by lia. apply O. lia.
      - lia.
      - apply Nat2Z.inj_lt. rewrite Nat2Z.inj_pow. unfold sift_fuel. etrans; [exact Hs|]. apply Z.pow_lt_mono_r; lia. }
    destruct G as (s2 & arr2 & E2 & V2 & H2 & P2 & Z2 & S2). erewrite bind_Ok by done.
    unfold add_size, modify. eexists _, arr2. split; [reflexivity|]. split; [|split].
    + split; [split; apply V2|done|cbn; rewrite Z2, Z1, Z, u64_id by (unfold is_u64; lia); lia|done].
    + rewrite P2. apply grown_members.
    + etrans; [exact S1|]. exact S2.
Qed.

(** ** [pop] *)

(** What [pop] leaves: a heap of one object less, without the old top. *)
Definition popped s arr n (r : res (Z * tree_heap T)) : Prop :=
  exists s' arr', r = Ok (arr 1, s') /\ is_heap comp val s' arr' (n - 1) /\
    arr 1 :: members arr' (n - 1) ≡ₚ members arr n /\ same_objects s s'.

Lemma shrunk_members arr arr' n :
  layout arr n -> layout arr' (n - 1) -> 1 <= n ->
  (forall k, 1 <= k <= n - 1 -> exists j, 2 <= j <= n /\ arr' k = arr j) ->
  (forall j, 2 <= j <= n -> exists k, 1 <= k <= n - 1 /\ arr' k = arr j) ->
  arr 1 :: members arr' (n - 1) ≡ₚ members arr n.
Proof.
  clear val comp StrictWeak0. intros L L' Hn H1 H2. apply NoDup_Permutation.
  - apply NoDup_cons. split; [|by apply layout_NoDup]. intros (k & Hk & E)%elem_members.
    destruct (H1 k Hk) as (j & Hj & E2). rewrite E2 in E. apply (lay_inj _ _ L) in E; lia.
  - by apply layout_NoDup.
  - intros p. rewrite elem_of_cons, !elem_members. split.
    + intros [->|(k & Hk & ->)]; [exists 1; split; [lia|done]|].
      destruct (H1 k Hk) as (j & Hj & ->). exists j. split; [lia|done].
    + intros (k & Hk & ->). destruct (decide (k = 1)) as [->|]; [by left|right].
      destruct (H2 k ltac:(lia)) as (j & Hj & <-). by exists j.
Qed.

(** The last object moved to the top. *)
Definition moved arr (n : nat) : nat -> Z :=
  fun k => if decide (k = 1) then arr n else if decide (k = n) then 0%Z else arr k.
Lemma moved_layout arr n : layout arr n -> 2 <= n -> layout (moved arr n) (n - 1).
Proof.
  clear val comp StrictWeak0. intros L Hn. unfold moved. split.
  - intros k Hk. repeat case_decide; try lia; apply (lay_nz _ _ L); lia.
  - intros k Hk. repeat case_decide; try lia; try done. apply (lay_out _ _ L). lia.
  - intros j k Hj E. repeat case_decide; try lia; subst.
    + exfalso. apply (lay_nz _ _ L n); [lia|done].
    + apply (lay_inj _ _ L) in E; lia.
    + apply (lay_inj _ _ L) in E; lia.
    + exfalso. apply (lay_nz _ _ L j); [lia|done].
    + apply (lay_inj _ _ L) in E; lia.
Qed.
Lemma moved_members arr n : layout arr n -> 2 <= n -> arr 1 :: members (moved arr n) (n - 1) ≡ₚ members arr n.
Proof.
  intros L Hn. apply shrunk_members; [done|by apply moved_layout|lia| |].
  - intros k Hk. unfold moved. case_decide; [exists n; split; [lia|done]|].
    exists k. rewrite decide_False by lia. split; [lia|done].
  - intros j Hj. unfold moved. destruct (decide (j = n)) as [->|].
    + exists 1. rewrite decide_True by done. split; [lia|done].
    + exists j. rewrite !decide_False by lia. split; [lia|done].
Qed.

Lemma dec_size (z : Z) n : z = Z.of_nat n -> 1 <= n -> (Z.of_nat n < 2 ^ 63)%Z -> u64 (z + -1) = Z.of_nat (n - 1).
Proof. clear. intros -> Hn Hs. rewrite u64_id by (unfold is_u64; lia). lia. Qed.

Lemma pop_one s arr : is_heap comp val s arr 1 -> popped s arr 1 (pop comp s).
Proof.
  intros [V O Z Sm]. unfold pop. erewrite bind_Ok by reflexivity. rewrite Z. change (Z.of_nat 1) with 1%Z. cbn [Z.eqb Pos.eqb].
  unfold bind, gets, add_size, set_top, modify, ret. cbn [mem _top _size].
  pose proof V as [[L C N] Ht]. rewrite Ht. eexists _, (fun _ => 0%Z). split; [reflexivity|]. split; [|split; [|done]].
  - split; [|intros k; lia|cbn [_size]; apply dec_size; [done|lia|lia]|done]. split; [|done].
    split; [|intros k; lia|done]. split; [intros k; lia|done|intros j k; lia].
  - done.
Qed.

Lemma pop_two_spec s arr : is_heap comp val s arr 2 -> popped s arr 2 (pop_two s).
Proof.
  intros H. pose proof (heap_layout _ _ _ H) as L. pose proof H as [V O Z Sm]. pose proof V as [[_ C N] Ht].
  unfold pop_two. erewrite bind_Ok by reflexivity. rewrite Ht.
  erewrite bind_Ok by (eapply get_prev_at; [done|lia]).
  unfold set_top, modify at 1. erewrite bind_Ok by reflexivity.
  unfold set_parent. erewrite bind_Ok by (eapply update_at; [eapply hrep_live; apply V|lia]).
  unfold add_size, modify, bind, ret, on_mem. cbn [mem _top _size].
  eexists _, (moved arr 2). split; [reflexivity|]. split; [|split].
  - split; [|intros k; lia|cbn [_size]; apply dec_size; [done|lia|lia]|cbn; lia]. split; [|reflexivity].
    split; [by apply moved_layout| |by apply alter_null].
    intros k Hk. replace k with 1 by lia. cbn [mem].
    change (moved arr 2 1) with (arr 2). rewrite (alter_at _ _ 2) by (done || lia). rewrite decide_True by lia.
    rewrite C by lia. change (cell val (moved arr 2) 1) with (mkNode (arr 0) 0 (arr 3) (val (arr 2))).
    unfold cell, with_parent. cbn [fmap option_fmap option_map tree_parent prev next value].
    by rewrite (lay_out _ _ L 0), (lay_out _ _ L 3), (lay_out _ _ L (2 * 2)), (lay_out _ _ L (2 * 2 + 1)) by lia.
  - by apply moved_members.
  - intros p. cbn [mem]. by apply alter_value.
Qed.

(** Two objects, [a] on top. *)
Definition pair_arr (a b : Z) : nat -> Z := fun k => match k with 1 => a | 2 => b | _ => 0%Z end.

Lemma pop_three_result s arr a b i j m' :
  is_heap comp val s arr 3 -> (i = 2 /\ j = 3 \/ i = 3 /\ j = 2) -> a = arr i -> b = arr j ->
  comp (val b) (val a) = false ->
  m' = alter (with_parent 0) a (alter (with_prev b) a (alter (with_parent a) b (mem s))) ->
  popped s arr 3 (Ok (arr 1, mkHeap m' a (u64 (_size s + -1)))).
Proof.
  intros H Hij -> -> Hc ->. pose proof (heap_layout _ _ _ H) as L. destruct H as [[[_ C N] Ht] O Z Sm].
  assert (L2 : layout (pair_arr (arr i) (arr j)) 2).
  { split.
    - intros k Hk. assert (k = 1 \/ k = 2) as [-> | ->] by lia; cbn; apply (lay_nz _ _ L); lia.
    - intros [|[|[|k]]] Hk; cbn; lia || done.
    - intros p q Hp E. assert (Hn : forall z, z = 2 \/ z = 3 -> arr z <> 0%Z) by (intros; apply (lay_nz _ _ L); lia).
      assert (p = 1 \/ p = 2) as [-> | ->] by lia; destruct q as [|[|[|q]]]; cbn in E; try done;
        first [exfalso; eapply (Hn i); [lia|congruence] | exfalso; eapply (Hn j); [lia|congruence]
              | apply (lay_inj _ _ L) in E; lia]. }
  eexists _, (pair_arr (arr i) (arr j)). split; [reflexivity|]. split; [|split].
  - split; [| |cbn [_size]; apply dec_size; [done|lia|lia]|lia].
    + split; [|reflexivity]. split; [done| |by repeat apply alter_null]. cbn [mem].
      intros k Hk. assert (k = 1 \/ k = 2) as [-> | ->] by lia;
        [change (pair_arr (arr i) (arr j) 1) with (arr i)|change (pair_arr (arr i) (arr j) 2) with (arr j)];
        repeat (rewrite (alter_at _ _ 3) by (done || lia)); dec; rewrite C by lia;
        cbn [fmap option_fmap option_map]; unfold with_parent, with_prev, cell; cbn [tree_parent prev next value];
        rewrite ?(lay_out _ _ L (2 * i)), ?(lay_out _ _ L (2 * i + 1)), ?(lay_out _ _ L (2 * j)), ?(lay_out _ _ L (2 * j + 1)) by lia; reflexivity.
    + intros k Hk. replace k with 2 by lia. exact Hc.
  - apply shrunk_members; [done|done|lia| |].
    + intros k Hk. assert (k = 1 \/ k = 2) as [-> | ->] by lia; [exists i|exists j]; (split; [lia|done]).
    + intros k Hk. destruct (decide (k = i)) as [->|]; [exists 1; split; [lia|done]|].
      exists 2. split; [lia|]. cbn. f_equal. lia.
  - intros p. cbn [mem]. by rewrite !alter_value.
Qed.

Lemma pop_three_spec s arr : is_heap comp val s arr 3 -> popped s arr 3 (pop_three comp s).
Proof using StrictWeak0.
  intros H. pose proof (heap_layout _ _ _ H) as L. pose proof H as [V O Z Sm]. pose proof V as [[_ C N] Ht].
  pose proof (hrep_live _ _ _ _ (view_rep _ _ _ _ V)) as Lv.
  unfold pop_three. erewrite bind_Ok by reflexivity. rewrite Ht.
  erewrite bind_Ok by (eapply get_prev_at; [done|lia]).
  erewrite bind_Ok by (eapply get_next_at; [done|lia]).
  do 2 erewrite bind_Ok by (eapply deref_at; [done|lia]). unfold set_top, set_parent, set_prev.
  change (2 * 1) with 2. change (2 + 1) with 3.
  destruct (comp (val (arr 2)) (val (arr 3))) eqn:E; rewrite !bind_assoc; unfold modify at 1;
    (erewrite bind_Ok by reflexivity); rewrite !bind_assoc.
  - do 2 erewrite bind_Ok by (eapply update_at; [live_t|lia]). erewrite bind_Ok by reflexivity.
    cbn [gets _top on_mem]. erewrite bind_Ok by (eapply update_at; [live_t|lia]).
    eapply (pop_three_result s arr (arr 2) (arr 3) 2 3); [done|lia|done|done|by apply sw_asym|reflexivity].
  - do 2 erewrite bind_Ok by (eapply update_at; [live_t|lia]). erewrite bind_Ok by reflexivity.
    cbn [gets _top on_mem]. erewrite bind_Ok by (eapply update_at; [live_t|lia]).
    eapply (pop_three_result s arr (arr 3) (arr 2) 3 2); [done|lia|done|done|done|reflexivity].
Qed.

(** The memory before the loop of [pop]. *)
Definition pop_mem arr n m : gmap Z (hnode T) :=
  let e := arr n in
  let m := alter (with_prev (arr 2)) e m in
  let m := alter (with_next (arr 3)) e m in
  let m := alter (if decide (n mod 2 = 0) then with_prev 0 else with_next 0) (arr (n / 2)) m in
  let m := alter (with_parent 0) e m in
  let m := alter (with_parent e) (arr 2) m in
  alter (with_parent e) (arr 3) m.

Lemma moved_1 arr n : moved arr n 1 = arr n.
Proof. done. Qed.
Lemma moved_n arr n : 2 <= n -> moved arr n n = 0%Z.
Proof. intros. unfold moved. by dec. Qed.
Lemma moved_ne arr n k : k <> 1 -> k <> n -> moved arr n k = arr k.
Proof. intros. unfold moved. by dec. Qed.

Lemma pop_mem_rep m arr n :
  hrep val m arr n -> 4 <= n -> hrep val (pop_mem arr n m) (moved arr n) (n - 1).
Proof.
  clear comp StrictWeak0. intros [L C N] Hn. split; [apply moved_layout; [done|lia]| |by repeat apply alter_null].
  intros k Hk. unfold pop_mem. cbv zeta.
  destruct (decide (k = 1)) as [->|Hk1].
  - rewrite moved_1. repeat (rewrite (alter_at _ _ n) by (done || lia)); dec. rewrite C by lia. unfold cell.
    rewrite moved_1. change (2 * 1) with 2. change (2 + 1) with 3. change (1 / 2) with 0.
    rewrite !moved_ne by lia. rewrite (lay_out _ _ L 0) by lia. done.
  - rewrite (moved_ne _ _ k) by lia. repeat (rewrite (alter_at _ _ n) by (done || lia)). rewrite C by lia. unfold cell.
    rewrite (moved_ne _ _ k) by lia. rewrite (decide_False (P := k = n)) by lia.
    assert (Hp : moved arr n (k / 2) = if decide (k = 2 \/ k = 3) then arr n else arr (k / 2)).
    { case_decide; [replace (k / 2) with 1 by lia; done|]. apply moved_ne; lia. }
    rewrite Hp. clear Hp.
    assert (Hl : moved arr n (2 * k) = if decide (k = n / 2 /\ n mod 2 = 0) then 0%Z else arr (2 * k)).
    { case_decide; [replace (2 * k) with n by lia; apply moved_n; lia|]. apply moved_ne; lia. }
    assert (Hr : moved arr n (2 * k + 1) = if decide (k = n / 2 /\ n mod 2 <> 0) then 0%Z else arr (2 * k + 1)).
    { clear Hl. case_decide; [replace (2 * k + 1) with n by lia; apply moved_n; lia|]. apply moved_ne; lia. }
    rewrite Hl, Hr. clear Hl Hr N.
    destruct (decide (n mod 2 = 0)); destruct (decide (k = n / 2)); destruct (decide (k = 2)); destruct (decide (k = 3));
      try (exfalso; lia); dec; reflexivity.
Qed.

Lemma pop_links s arr n :
  view val s arr n -> 4 <= n ->
  let s1 := mkHeap (pop_mem arr n (mem s)) (arr n) (_size s) in
  view val s1 (moved arr n) (n - 1) /\ same_objects s s1 /\
  forall A (k : M (tree_heap T) A),
    (set_top (arr n) ;;
     let* l := get_prev (arr 1) in set_prev (arr n) l ;;
     let* r := get_next (arr 1) in set_next (arr n) r ;;
     let* ep := get_parent (arr n) in
     let* x := get_prev ep in
     (if (arr n =? x)%Z then set_prev ep 0 else set_next ep 0) ;;
     set_parent (arr n) 0 ;;
     let* l := get_prev (arr 1) in set_parent l (arr n) ;;
     let* r := get_next (arr 1) in set_parent r (arr n) ;; k) s = k s1.
Proof.
  intros [R Ht] Hn s1. subst s1. split; [|split].
  - split; [by apply pop_mem_rep|done].
  - intros p. cbn [mem]. unfold pop_mem. cbv zeta. repeat case_decide; by rewrite !alter_value.
  - intros A k. pose proof (hrep_live _ _ _ _ R) as Lv. destruct R as [L C N].
    unfold set_top, modify, set_prev, set_next, set_parent. erewrite bind_Ok by reflexivity.
    get_t (@get_prev_ok T). upd_t. get_t (@get_next_ok T). upd_t. get_t (@get_parent_ok T). get_t (@get_prev_ok T).
    rewrite (arr_eqb _ n) by (done || lia).
    unfold pop_mem. case_bool_decide; [rewrite decide_True by lia|rewrite decide_False by lia];
      upd_t; upd_t; get_t (@get_prev_ok T); upd_t; get_t (@get_next_ok T); upd_t; reflexivity.
Qed.

Lemma pop_many_spec s arr n : is_heap comp val s arr n -> 4 <= n -> popped s arr n (pop_many comp s).
Proof using StrictWeak0.
  intros H Hn. pose proof (heap_layout _ _ _ H) as L. pose proof H as [V O Z Sm].
  unfold pop_many. erewrite bind_Ok by reflexivity. rewrite (view_top _ _ _ _ V).
  unfold _rightmost_full. rewrite bind_assoc. erewrite bind_Ok by reflexivity. rewrite Z.
  erewrite bind_Ok by (eapply get_nth_spec; [done|lia..]). rewrite Nat2Z.id.
  destruct (pop_links s arr n V Hn) as (V1 & S1 & E1). rewrite E1. clear E1. set (s1 := mkHeap _ _ _) in *.
  assert (G : sifted comp val s1 (moved arr n) (n - 1) (sift_down comp sift_fuel (arr n) s1)).
  { rewrite <- (moved_1 arr n). apply sift_down_spec; try done.
    - split; [|intros; lia]. intros k Hk Hkn. unfold ordered. rewrite !moved_ne by lia. apply O. lia.
    - lia.
    - rewrite Nat.mul_1_l. apply Nat2Z.inj_lt. rewrite Nat2Z.inj_pow. unfold sift_fuel.
      apply Z.lt_trans with (2 ^ 63)%Z; [lia|]. apply Z.pow_lt_mono_r; lia. }
  destruct G as (s2 & arr2 & E2 & V2 & H2 & P2 & Z2 & S2). erewrite bind_Ok by done.
  unfold add_size, modify, bind, ret. eexists _, arr2. split; [reflexivity|]. split; [|split].
  - split; [split; apply V2|done| |lia]. cbn [_size]. rewrite Z2. apply dec_size; [done|lia|lia].
  - rewrite P2. apply moved_members; [done|lia].
  - etrans; [exact S1|]. exact S2.
Qed.

Lemma heap_pop_spec s arr n : is_heap comp val s arr n -> 1 <= n -> popped s arr n (pop comp s).
Proof using StrictWeak0.
  intros H Hn. destruct (decide (n = 1)) as [->|]; [by apply pop_one|].
  unfold pop. erewrite bind_Ok by reflexivity. rewrite (heap_size _ _ _ _ _ H).
  rewrite !(proj2 (Z.eqb_neq (Z.of_nat n) 0)), !(proj2 (Z.eqb_neq (Z.of_nat n) 1)) by lia.
  destruct (Z.eqb_spec (Z.of_nat n) 2); [assert (n = 2) as -> by lia; by apply pop_two_spec|].
  destruct (Z.eqb_spec (Z.of_nat n) 3); [assert (n = 3) as -> by lia; by apply pop_three_spec|].
  apply pop_many_spec; [done|lia].
Qed.

Lemma top_minimal s arr n q :
  is_heap comp val s arr n -> q ∈ members arr n -> comp (val q) (val (arr 1)) = false.
Proof using StrictWeak0. intros H (k & Hk & ->)%elem_members. eapply heap_ok_top; [done|apply H|done]. Qed.

(** ** The destructor *)

Definition in_order (l : list Z) : Prop :=
  forall i j p q, i < j -> l !! i = Some p -> l !! j = Some q -> comp (val q) (val p) = false.

Lemma destroy_spec fuel s arr n :
  is_heap comp val s arr n -> n < fuel ->
  exists l s', destroy comp fuel s = Ok (l, s') /\ l ≡ₚ members arr n /\ in_order l /\ _top s' = 0%Z /\ same_objects s s'.
Proof using StrictWeak0.
  revert s arr n. induction fuel as [|fuel IH]; intros s arr n H Hf; [lia|]. cbn [destroy].
  unfold peek. erewrite bind_Ok by reflexivity. rewrite (top_empty _ _ _ H). case_bool_decide as Hn.
  - subst n. exists [], s. split; [done|]. split; [done|]. split; [by intros i j p q _ ?|].
    split; [|done]. pose proof (heap_layout _ _ _ H) as L. rewrite (view_top _ _ _ _ (heap_view _ _ _ _ _ H)). apply (lay_out _ _ L). lia.
  - destruct (heap_pop_spec s arr n H ltac:(lia)) as (s1 & arr1 & E1 & H1 & P1 & S1). erewrite bind_Ok by done.
    destruct (IH s1 arr1 (n - 1) H1 ltac:(lia)) as (l & s2 & E2 & P2 & O2 & T2 & S2). erewrite bind_Ok by done.
    exists (arr 1 :: l), s2. split; [done|]. split; [by rewrite P2|]. split; [|split; [done|by etrans]].
    intros [|i] [|j] p q Hij Hp Hq; try lia; [|by eapply (O2 i j); [lia|..]].
    cbn in Hp, Hq. simplify_eq. eapply top_minimal; [exact H|].
    rewrite <- P1, <- P2. right. by eapply list_elem_of_lookup_2.
Qed.
End queue.
