(* ===== verification/HeapTheorems.v ===== *)
(** * What the intrusive heap promises

    [push] adds one object, [pop] takes out one that nothing precedes, the
    destructor gives everything back in order.  [PriorityQueue] states this for
    the clients of the heap, without positions. *)
From S2P Require Import Prelude TreeHeap HeapLaws HeapOps HeapOrder HeapQueue.

(** ** The interface *)

(** The objects [l] are queued in [s]; their contents are read from [s]. *)
Class PriorityQueue {T} (comp : T -> T -> bool) (holds : tree_heap T -> list Z -> Prop) : Prop := {
  pq_perm s :: Proper (Permutation ==> iff) (holds s);
  pq_object s l p : holds s l -> p ∈ l -> exists v, deref p s = Ok (v, s) /\ p <> 0;
  pq_peek_empty s : holds s [] -> peek s = Ok (0, s);
  pq_peek s l : holds s l -> l <> [] -> exists p, peek s = Ok (p, s) /\ p ∈ l /\
    forall q v w, q ∈ l -> deref q s = Ok (v, s) -> deref p s = Ok (w, s) -> comp v w = false;
  pq_pop s l p : holds s l -> l <> [] -> peek s = Ok (p, s) ->
    exists s' l', pop comp s = Ok (p, s') /\ holds s' l' /\ l ≡ₚ p :: l' /\ same_objects s s';
  pq_push s l e x : holds s l -> e ∉ l -> e <> 0 -> Z.of_nat (S (length l)) < 2 ^ 63 ->
    mem s !! e = Some x -> (l = [] -> x = mkNode 0 0 0 (value x)) ->
    exists s', push comp e s = Ok (tt, s') /\ holds s' (e :: l) /\ same_objects s s';
  pq_size s l : holds s l -> _size s = Z.of_nat (length l);
  pq_nodup s l : holds s l -> NoDup l;
  pq_frame s s' l : holds s l -> _top s' = _top s -> _size s' = _size s -> mem s' !! 0 = None ->
    (forall p, p ∈ l -> mem s' !! p = mem s !! p) -> holds s' l;
  pq_revalue s l p x v : holds s l -> p ∈ l -> mem s !! p = Some x ->
    (forall w, comp v w = comp (value x) w /\ comp w v = comp w (value x)) ->
    holds (mkHeap (<[p := mkNode (tree_parent x) (prev x) (next x) v]> (mem s)) (_top s) (_size s)) l
}.

Section theorems.
Context {T : Type} (comp : T -> T -> bool) `{!StrictWeak comp}.
Implicit Types (s : tree_heap T).

Definition heap_holds s (l : list Z) : Prop :=
  exists val arr n, is_heap comp val s arr n /\ members arr n ≡ₚ l.

Lemma members_length (arr : nat -> Z) n : length (members arr n) = n.
Proof. unfold members. by rewrite length_fmap, length_seq. Qed.
Lemma members_nil (arr : nat -> Z) n : members arr n ≡ₚ [] -> n = 0%nat.
Proof. intros H%Permutation_length. rewrite members_length in H. done. Qed.

Lemma is_heap_deref val s arr n p :
  is_heap comp val s arr n -> p ∈ members arr n -> deref p s = Ok (val p, s) /\ p <> 0.
Proof.
  intros H (k & Hk & ->)%elem_members. split.
  - eapply deref_at; [apply H|done].
  - by apply (lay_nz _ _ (heap_layout _ _ _ _ _ H)).
Qed.

(** An object that is not queued does not matter to the heap. *)
Lemma is_heap_fresh val s arr n e v :
  is_heap comp val s arr n -> e ∉ members arr n -> is_heap comp (fun p => if decide (p = e) then v else val p) s arr n.
Proof.
  intros [[[L C N] Ht] O Z Sm] He.
  assert (Hv : forall k, (1 <= k <= n)%nat -> (if decide (arr k = e) then v else val (arr k)) = val (arr k)).
  { intros k Hk. apply decide_False. intros <-. apply He, elem_members. by exists k. }
  split; [split; [split|]| | |]; try done.
  - intros k Hk. rewrite C by done. unfold cell. by rewrite Hv.
  - intros k Hk. unfold ordered. rewrite !Hv; [by apply O|..|lia]. split; [apply Nat.div_le_lower_bound; lia|].
    etrans; [apply Nat.Div0.div_le_mono, (proj2 Hk)|]. apply Nat.Div0.div_le_upper_bound. lia.
Qed.

(** Contents may change as long as the comparator does not see it. *)
Lemma is_heap_revalue val s arr n p x v :
  is_heap comp val s arr n -> p ∈ members arr n -> mem s !! p = Some x ->
  (forall w, comp v w = comp (value x) w /\ comp w v = comp w (value x)) ->
  is_heap comp (fun q => if decide (q = p) then v else val q)
    (mkHeap (<[p := mkNode (tree_parent x) (prev x) (next x) v]> (mem s)) (_top s) (_size s)) arr n.
Proof.
  intros [[[L C N] Ht] O Z Sm] (k0 & Hk0 & ->)%elem_members Hx Hc. rewrite (C _ Hk0) in Hx. injection Hx as <-.
  cbn [value cell tree_parent prev next] in *.
  assert (Hv : forall a b, comp (if decide (a = arr k0) then v else val a) (if decide (b = arr k0) then v else val b) = comp (val a) (val b)).
  { intros a b. destruct (decide (a = arr k0)) as [->|], (decide (b = arr k0)) as [->|];
      rewrite ?(proj1 (Hc _)), ?(proj2 (Hc _)); done. }
  split; [split; [split|]| | |]; try done.
  - intros k Hk. cbn [mem]. unfold cell. destruct (decide (arr k = arr k0)) as [E|Hne].
    + apply L in E as ->; [|done]. by rewrite lookup_insert_eq.
    + rewrite lookup_insert_ne by done. by apply C.
  - cbn [mem]. rewrite lookup_insert_ne; [done|]. by apply L.
  - intros k Hk. unfold ordered. rewrite Hv. by apply O.
Qed.

#[export] Instance tree_heap_queue : PriorityQueue comp heap_holds.
Proof using StrictWeak0.
  split.
  - intros s l l' P. split; intros (val & arr & n & H & E); exists val, arr, n; split; try done; by rewrite E.
  - intros s l p (val & arr & n & H & E) Hp. rewrite <- E in Hp. exists (val p). by eapply is_heap_deref.
  - intros s (val & arr & n & H & E). apply members_nil in E as ->. unfold peek, gets.
    rewrite (view_top _ _ _ _ (heap_view _ _ _ _ _ H)). by rewrite (lay_out _ _ (heap_layout _ _ _ _ _ H)) by lia.
  - intros s l (val & arr & n & H & E) Hl. destruct n as [|n]; [by apply Permutation_nil in E|].
    exists (arr 1%nat). split; [unfold peek, gets; by rewrite (view_top _ _ _ _ (heap_view _ _ _ _ _ H))|].
    assert (H1 : arr 1%nat ∈ members arr (S n)) by (apply elem_members; exists 1%nat; split; [lia|done]).
    split; [by rewrite <- E|]. intros q v w Hq Ev Ew. rewrite <- E in Hq.
    rewrite (proj1 (is_heap_deref _ _ _ _ _ H Hq)) in Ev. rewrite (proj1 (is_heap_deref _ _ _ _ _ H H1)) in Ew.
    simplify_eq. by eapply top_minimal.
  - intros s l p (val & arr & n & H & E) Hl Ep. destruct n as [|n]; [by apply Permutation_nil in E|].
    unfold peek, gets in Ep. rewrite (view_top _ _ _ _ (heap_view _ _ _ _ _ H)) in Ep. simplify_eq.
    destruct (heap_pop_spec comp val s arr (S n) H ltac:(lia)) as (s' & arr' & Er & H' & P & So).
    exists s', (members arr' (S n - 1)). split; [done|]. split; [by exists val, arr', (S n - 1)%nat|].
    split; [by rewrite <- E|done].
  - intros s l e x (val & arr & n & H & E) He He0 Hn Hx Hl. rewrite <- E in He.
    apply (is_heap_fresh _ _ _ _ e (value x)) in H; [|done]. set (val' := fun p => _) in H.
    destruct (heap_push_spec comp val' s arr n e H) as (s' & arr' & Er & H' & P & So); [..|done|].
    + apply Permutation_length in E. rewrite members_length in E. by rewrite E.
    + split; [done|]. exists x. split; [done|]. split; [subst val'; cbn; by rewrite decide_True|].
      intros Ht. assert (l = []) as El.
      { pose proof (top_empty _ _ _ _ _ H) as Hte. rewrite Ht in Hte. cbn in Hte. symmetry in Hte.
        apply bool_decide_eq_true in Hte as ->. by apply Permutation_nil in E. }
      rewrite (Hl El). done.
    + exists s'. split; [done|]. split; [|done]. exists val', arr', (S n). split; [done|]. by rewrite P, E.
  - intros s l (val & arr & n & H & E). rewrite (heap_size _ _ _ _ _ H). f_equal. rewrite <- (Permutation_length E).
    by rewrite members_length.
  - intros s l (val & arr & n & H & <-). apply layout_NoDup. by eapply heap_layout.
  - intros s s' l (val & arr & n & [[[L C N] Ht] O Z Sm] & E) H1 H2 H3 H4. exists val, arr, n. split; [|done].
    split; [split; [split|]| | |]; try done; [|congruence|congruence].
    intros k Hk. rewrite H4; [by apply C|]. rewrite <- E. apply elem_members. by exists k.
  - intros s l p x v (val & arr & n & H & E) Hp Hx Hc. eexists _, arr, n. split; [|done].
    eapply is_heap_revalue; [done| |done|done]. by rewrite E.
Qed.

(** C37: [push] on a heap in order adds exactly the new object and keeps the
    heap in order: afterwards its objects are the old ones and the new one, laid
    out as a complete tree, counted, every object not preceding its parent; no
    object loses its contents.  The new object is not queued yet; when the heap
    is empty, its three links are null. *)
Theorem push_refines val s arr n e :
  is_heap comp val s arr n -> Z.of_nat (S n) < 2 ^ 63 -> pushable val s e -> e ∉ members arr n ->
  exists s' arr', push comp e s = Ok (tt, s') /\ is_heap comp val s' arr' (S n) /\
    members arr' (S n) ≡ₚ e :: members arr n /\ same_objects s s'.
Proof using StrictWeak0. apply heap_push_spec. done. Qed.

(** C38: [pop] on a heap in order gives the object on top, which no other queued
    object precedes, and leaves the others in order; on an empty heap it gives
    the null pointer and changes nothing.  [peek] names the object [pop] gives. *)
Theorem pop_refines val s arr n :
  is_heap comp val s arr n ->
  (n = 0%nat -> pop comp s = Ok (0, s)) /\
  ((1 <= n)%nat -> exists p s' arr', pop comp s = Ok (p, s') /\ peek s = Ok (p, s) /\
    is_heap comp val s' arr' (n - 1) /\ p :: members arr' (n - 1) ≡ₚ members arr n /\
    (forall q, q ∈ members arr n -> comp (val q) (val p) = false) /\ same_objects s s').
Proof using StrictWeak0.
  intros H. split.
  - intros ->. unfold pop. erewrite bind_Ok by reflexivity. by rewrite (heap_size _ _ _ _ _ H).
  - intros Hn. destruct (heap_pop_spec comp val s arr n H Hn) as (s' & arr' & E & H' & P & So).
    exists (arr 1%nat), s', arr'. split; [done|].
    split; [unfold peek, gets; by rewrite (view_top _ _ _ _ (heap_view _ _ _ _ _ H))|].
    split; [done|]. split; [done|]. split; [|done]. intros q Hq. by eapply top_minimal.
Qed.

(** The destructor's loop ends, gives back every queued object exactly once,
    in the order of the comparator, and leaves the heap empty. *)
Theorem destroy_drains val s arr n :
  is_heap comp val s arr n ->
  exists l s', destroy comp (S n) s = Ok (l, s') /\ l ≡ₚ members arr n /\ in_order comp val l /\ _top s' = 0.
Proof using StrictWeak0.
  intros H. destruct (destroy_spec comp val (S n) s arr n H) as (l & s' & E & P & O & Tp & _); [lia|].
  exists l, s'. done.
Qed.
End theorems.

(** ** Building heaps *)

Section build.
Context {T : Type} (comp : T -> T -> bool) `{!StrictWeak comp}.
Implicit Types (s : tree_heap T).

Lemma empty_holds s : mem s !! 0 = None -> _top s = 0 -> _size s = 0 -> inhabited T -> heap_holds comp s [].
Proof.
  intros Hn Ht Hz [v]. exists (fun _ => v), (fun _ => 0), 0%nat. split; [|done].
  split; [|intros k; lia|by rewrite Hz|done]. split; [|done]. split; [|intros k; lia|done].
  split; [intros k; lia|done|intros j k; lia].
Qed.
Lemma push_holds s s' l e x :
  heap_holds comp s l -> e ∉ l -> e <> 0 -> Z.of_nat (S (length l)) < 2 ^ 63 ->
  mem s !! e = Some x -> (l = [] -> x = mkNode 0 0 0 (value x)) -> push comp e s = Ok (tt, s') ->
  heap_holds comp s' (e :: l).
Proof using StrictWeak0.
  intros H He H0 Hn Hx Hl E. destruct (pq_push (holds := heap_holds comp) s l e x H He H0 Hn Hx Hl) as (s'' & E' & H' & _).
  rewrite E in E'. by injection E' as <-.
Qed.
End build.

(** ** Runs *)

#[export] Instance ltb_strict : StrictWeak Z.ltb.
Proof. split; intros *; rewrite ?Z.ltb_lt, ?Z.ltb_ge; lia. Qed.

(** Objects at their own priority as address, none queued. *)
Definition loose (l : list Z) : tree_heap Z :=
  mkHeap (list_to_map ((fun p => (p, mkNode 0 0 0 p)) <$> l)) 0 0.
Definition run {A} (m : M (tree_heap Z) A) (s : tree_heap Z) : tree_heap Z :=
  match m s with Ok (_, s') => s' | Err _ => s end.

(** Seven objects pushed out of order. *)
Definition seven : tree_heap Z :=
  run (foldr (fun p k => push Z.ltb p ;; k) (ret tt) [5; 3; 7; 1; 6; 2; 4]) (loose [1; 2; 3; 4; 5; 6; 7; 8]).
Definition seven_arr (k : nat) : Z := nth k [0; 1; 3; 2; 5; 6; 7; 4] 0.

Lemma seven_heap : is_heap Z.ltb id seven seven_arr 7.
Proof.
  assert (Hb : forall P : nat -> Prop, P 1%nat -> P 2%nat -> P 3%nat -> P 4%nat -> P 5%nat -> P 6%nat -> P 7%nat ->
    forall k, (1 <= k <= 7)%nat -> P k).
  { intros P ??????? k Hk. do 8 (destruct k as [|k]; [lia || assumption|]). lia. }
  split; [split; [split; [split|..]|]|..].
  - apply Hb; done.
  - intros k [-> | Hk]; [done|]. unfold seven_arr. apply nth_overflow. cbn. lia.
  - intros j k Hj. revert j Hj k. 
    assert (Hi : forall j k, (1 <= j <= 7)%nat -> seven_arr j = seven_arr k -> (k <= 7)%nat).
    { intros j k Hj E. destruct (decide (k <= 7)%nat) as [|Hk]; [done|].
      assert (E0 : seven_arr k = 0) by (apply nth_overflow; cbn; lia). rewrite E0 in E.
      exfalso. revert E. apply (Hb (fun j => seven_arr j <> 0)); done. }
    intros j Hj k E. pose proof (Hi j k Hj E) as Hk. revert j Hj k Hk E.
    apply (Hb (fun j => forall k, (k <= 7)%nat -> seven_arr j = seven_arr k -> j = k));
      intros k Hk; do 8 (destruct k as [|k]; [by intros [=]|]); lia.
  - apply (Hb (fun k => mem seven !! seven_arr k = Some (cell id seven_arr k))); vm_compute; reflexivity.
  - by vm_compute.
  - by vm_compute.
  - intros k Hk. unfold ordered. revert k Hk.
    assert (Hc : forall k, (1 <= k <= 7)%nat -> (id (seven_arr k) <? id (seven_arr (k / 2))) = false).
    { apply Hb; by vm_compute. }
    intros k Hk. apply Hc. lia.
  - by vm_compute.
  - lia.
Qed.

Lemma push_refines_witness :
  exists s' arr', push Z.ltb 8 seven = Ok (tt, s') /\ is_heap Z.ltb id s' arr' 8 /\
    members arr' 8 ≡ₚ 8 :: members seven_arr 7 /\ same_objects seven s'.
Proof.
  apply (push_refines Z.ltb id seven seven_arr 7 8).
  - exact seven_heap.
  - reflexivity.
  - split; [lia|]. eexists. split; [vm_compute; reflexivity|]. split; [done|]. vm_compute. discriminate.
  - rewrite elem_members. intros (k & Hk & E). do 8 (destruct k as [|k]; [discriminate E|]). lia.
Defined.

Lemma pop_refines_witness :
  exists p s' arr', pop Z.ltb seven = Ok (p, s') /\ peek seven = Ok (p, seven) /\
    is_heap Z.ltb id s' arr' 6 /\ p :: members arr' 6 ≡ₚ members seven_arr 7 /\
    (forall q, q ∈ members seven_arr 7 -> (id q <? id p) = false) /\ same_objects seven s'.
Proof. apply (proj2 (pop_refines Z.ltb id seven seven_arr 7 seven_heap)). lia. Defined.

Lemma destroy_drains_witness :
  exists l s', destroy Z.ltb 8 seven = Ok (l, s') /\ l ≡ₚ members seven_arr 7 /\ in_order Z.ltb id l /\ _top s' = 0.
Proof. apply (destroy_drains Z.ltb id seven seven_arr 7 seven_heap). Defined.

Definition popped_of (r : res (Z * tree_heap Z)) : Z := match r with Ok (p, _) => p | Err _ => 0 end.

(** [pop] leaves the links of the object it gives back as they were, and [push]
    does not reset them when the heap is empty.  Two objects pushed and popped,
    the first pushed again, then a third one: the next [pop]s give 1 and then
    the object 2, which is not queued; the object 3 is lost. *)
Example stale_links_lose_object :
  let s := run (push Z.ltb 1 ;; push Z.ltb 2 ;; pop Z.ltb ;; pop Z.ltb ;; push Z.ltb 1 ;; push Z.ltb 3) (loose [1; 2; 3]) in
  _size s = 2 /\ popped_of (pop Z.ltb s) = 1 /\ popped_of (pop Z.ltb (run (pop Z.ltb) s)) = 2 /\
  _top (run (pop Z.ltb) (run (pop Z.ltb) s)) = 0.
Proof. vm_compute. auto. Qed.
