(* ===== verification/Text.v ===== *)
(** * Characters and numbers: the standard library of the system

    The comparison of [std::string_view] and the integer conversions of
    [std::from_chars] and [std::to_chars], as libraries/rosestd/include defines
    them.  A view is the list of the bytes it spans; a [char] is signed. *)
From S2P Require Import Prelude.

(** ** [char_traits<char>] and [basic_string_view] *)

Abbreviation bytes := (list Z).

Definition traits_eq (c1 c2 : Z) : bool := s8 c1 =? s8 c2.
Definition traits_lt (c1 c2 : Z) : bool := s8 c1 <? s8 c2.

(** The characters of a literal. *)
Definition text (s : string) : bytes := (fun c => Z.of_nat (Ascii.nat_of_ascii c)) <$> String.list_ascii_of_string s.
(** [char_traits::compare] on the first [n] characters; both views have them. *)
Fixpoint traits_compare (n : nat) (s1 s2 : bytes) : res Z :=
  match n, s1, s2 with
  | O, _, _ => Ok 0
  | S n', c1 :: s1', c2 :: s2' =>
      if traits_eq c1 c2 then traits_compare n' s1' s2'
      else if traits_lt c1 c2 then Ok (-1) else Ok 1
  | _, _, _ => Err Fault
  end.

(** [!!size] *)
Definition not_not (s : bytes) : Z := match s with [] => 0 | _ :: _ => 1 end.

Definition sv_compare (s1 s2 : bytes) : res Z :=
  let rlen := if (length s1 <? length s2)%nat then length s1 else length s2 in
  match traits_compare rlen s1 s2 with
  | Ok r => if r =? 0 then Ok (not_not s1 - not_not s2) else Ok r
  | Err e => Err e
  end.

(** [operator==] *)
Definition sv_eq (s1 s2 : bytes) : bool :=
  match sv_compare s1 s2 with Ok r => r =? 0 | Err _ => false end.

Definition is_byte (c : Z) : Prop := 0 <= c < 256.
Abbreviation byte_list := (Forall is_byte).

Lemma traits_eq_bytes a b : is_byte a -> is_byte b -> traits_eq a b = (a =? b).
Proof. unfold traits_eq, s8, is_byte. intros Ha Hb. destruct (Z.eqb_spec a b), (Z.eqb_spec ((a + 128) mod 256 - 128) ((b + 128) mod 256 - 128)); try done.
  - congruence.
  - exfalso. apply n. assert ((a + 128) mod 256 = (b + 128) mod 256) as E by lia. revert E.
    rewrite (Z.mod_eq (a + 128)), (Z.mod_eq (b + 128)) by lia. 
    pose proof (Z.div_lt_upper_bound (a + 128) 256 2). pose proof (Z.div_le_lower_bound (a + 128) 256 0).
    pose proof (Z.div_lt_upper_bound (b + 128) 256 2). pose proof (Z.div_le_lower_bound (b + 128) 256 0).
    lia.
Qed.

Lemma traits_compare_spec n s1 s2 :
  byte_list s1 -> byte_list s2 -> (n <= length s1)%nat -> (n <= length s2)%nat ->
  exists r, traits_compare n s1 s2 = Ok r /\ (r = 0 <-> take n s1 = take n s2).
Proof.
  revert s1 s2. induction n as [|n IH]; intros s1 s2 B1 B2 L1 L2; [by exists 0|].
  destruct s1 as [|a s1]; [cbn in L1; lia|]. destruct s2 as [|b s2]; [cbn in L2; lia|].
  apply Forall_cons in B1 as [Ba B1]. apply Forall_cons in B2 as [Bb B2]. cbn [traits_compare take].
  rewrite traits_eq_bytes by done. destruct (Z.eqb_spec a b) as [->|Hab].
  - destruct (IH s1 s2) as (r & -> & Hr); [done|done|cbn in *; lia..|]. exists r. split; [done|].
    rewrite Hr. split; [by intros ->|by intros [= ->]].
  - destruct (traits_lt a b); eexists; (split; [done|]); split; try done; by intros [= ->].
Qed.

(** One view begins with the other. *)
Definition compatible (s1 s2 : bytes) : Prop := s1 `prefix_of` s2 \/ s2 `prefix_of` s1.

Lemma take_min_prefix {A} (s1 s2 : list A) :
  (length s1 <= length s2)%nat -> take (length s1) s1 = take (length s1) s2 <-> s1 `prefix_of` s2.
Proof.
  intros L. rewrite firstn_all. split.
  - intros E. exists (drop (length s1) s2). rewrite E at 1. by rewrite take_drop.
  - intros [k ->]. by rewrite take_app_length.
Qed.

(** Two views compare equal when one begins with the other and either both are
    empty or neither is. *)
Lemma sv_eq_spec s1 s2 :
  byte_list s1 -> byte_list s2 ->
  sv_eq s1 s2 = true <-> compatible s1 s2 /\ (s1 = [] <-> s2 = []).
Proof.
  intros B1 B2. unfold sv_eq, sv_compare, compatible.
  set (n := if (length s1 <? length s2)%nat then length s1 else length s2). assert (Hn : n = length s1 /\ (length s1 <= length s2)%nat \/ n = length s2 /\ (length s2 <= length s1)%nat).
  { subst n. destruct (Nat.ltb_spec (length s1) (length s2)); lia. }
  destruct (traits_compare_spec n s1 s2 B1 B2) as (r & -> & Hr); [lia|lia|].
  assert (Hp : r = 0 <-> s1 `prefix_of` s2 \/ s2 `prefix_of` s1).
  { rewrite Hr. clear Hr. destruct Hn as [[-> L]|[-> L]].
    - rewrite take_min_prefix by done. split; [by left|]. intros [|[k ->]]; [done|].
      rewrite length_app in L. destruct k; [by rewrite app_nil_r|cbn in L; lia].
    - rewrite (symmetry_iff (=)), take_min_prefix by done. split; [by right|]. intros [[k ->]|]; [|done].
      rewrite length_app in L. destruct k; [by rewrite app_nil_r|cbn in L; lia]. }
  destruct (Z.eqb_spec r 0) as [E|E].
  - rewrite Z.eqb_eq. apply Hp in E. destruct s1, s2; cbn; split; intros; try lia; try naive_solver.
  - rewrite (proj2 (Z.eqb_neq r 0)) by done. naive_solver.
Qed.

(** ** [charconv] *)

Inductive errc : Type := no_error | invalid_argument | result_out_of_range | value_too_large.
#[export] Instance errc_eq_dec : EqDecision errc.
Proof. solve_decision. Defined.

(** The integral types the two templates are used with. *)
Record int_type : Type := mkInt { bits : Z; is_signed : bool }.
Definition uint64_t : int_type := mkInt 64 false.
Definition int64_t : int_type := mkInt 64 true.

(** [__max<_T>::value] *)
Definition type_max (t : int_type) : Z :=
  if is_signed t then (2 ^ bits t - 1) / 2 else 2 ^ bits t - 1.
(** The value of an arithmetic expression of the type: unsigned types wrap,
    signed overflow is undefined. *)
Definition convert (t : int_type) (z : Z) : res Z :=
  if is_signed t then (if (- type_max t - 1 <=? z) && (z <=? type_max t) then Ok z else Err Fault)
  else Ok (wrapu (bits t) z).

Definition to_value (c : Z) : Z :=
  if (48 <=? c) && (c <=? 57) then c - 48
  else if (97 <=? c) && (c <=? 122) then c - 97 + 10
  else if (65 <=? c) && (c <=? 90) then c - 65 + 10
  else -1.

(** [ptr] counts from the first character given; [value] is what was assigned. *)
Record from_chars_result : Type := mkFrom { from_ptr : Z; from_ec : errc; from_value : option Z }.

(** The loop over the digits; [valid] is never set. *)
Fixpoint from_digits (t : int_type) (base : Z) (s : bytes) (temp ptr : Z) (valid : bool) : res (Z * Z * errc) :=
  match s with
  | [] => Ok (temp, ptr, no_error)
  | c :: s' =>
      let v := to_value c in
      if (v =? -1) || (base <=? v) then
        (if negb valid then Ok (temp, ptr, invalid_argument) else Ok (temp, ptr, no_error))
      else if type_max t / 10 + (if v =? 0 then 0 else 1) <? temp then Ok (temp, ptr, result_out_of_range)
      else match convert t (temp * base + v) with
           | Ok temp' => from_digits t base s' temp' (ptr + 1) valid
           | Err e => Err e
           end
  end.

Definition from_chars (t : int_type) (s : bytes) (base : Z) : res from_chars_result :=
  match s with
  | [] => Ok (mkFrom 0 invalid_argument None)
  | c :: s' =>
      let negative := is_signed t && (c =? 45) in
      let rest := if negative then s' else s in
      let first := if negative then 1 else 0 in
      match rest with
      | [] => Ok (mkFrom first invalid_argument None)
      | _ :: _ =>
          match from_digits t base rest 0 first false with
          | Ok (temp, ptr, no_error) =>
              match (if negative then convert t (temp * -1) else Ok temp) with
              | Ok v => Ok (mkFrom ptr no_error (Some v))
              | Err e => Err e
              end
          | Ok (_, ptr, ec) => Ok (mkFrom ptr ec None)
          | Err e => Err e
          end
      end
  end.

(** [__digits]; an index past its end is undefined. *)
Definition digits_table : bytes :=
  [48; 49; 50; 51; 52; 53; 54; 55; 56; 57; 97; 98; 99; 100; 101; 102; 103; 104; 105; 106; 107; 108; 109;
   110; 111; 112; 113; 114; 115; 116; 117; 118; 119; 120; 121; 122; 0].

(** The loop over the value, filling a buffer of 128 characters from its end. *)
Fixpoint put_digits (room : nat) (value base : Z) (acc : bytes) : res bytes :=
  if value =? 0 then Ok acc else
  match room with
  | O => Err Fault
  | S room' =>
      match digits_table !! Z.to_nat (value mod base) with
      | Some d => put_digits room' (value / base) base (d :: acc)
      | None => Err Fault
      end
  end.

(** [cap] is [__last - __first]; [to_ptr] counts from the first character and
    [written] lists what was stored there. *)
Record to_chars_result : Type := mkTo { to_ptr : Z; to_ec : errc; written : bytes }.

Definition to_chars (t : int_type) (cap value base : Z) : res to_chars_result :=
  if cap =? 0 then Ok (mkTo 0 value_too_large [])
  else if value =? 0 then Ok (mkTo 1 no_error [48])
  else
    let sign := if value <? 0 then [45] else [] in
    match (if value <? 0 then convert t (- value) else Ok value) with
    | Err e => Err e
    | Ok v =>
        match put_digits 128 v base [] with
        | Err e => Err e
        | Ok l =>
            if cap - Z.of_nat (length sign) <? Z.of_nat (length l) then Ok (mkTo cap value_too_large sign)
            else Ok (mkTo (Z.of_nat (length sign) + Z.of_nat (length l)) no_error (sign ++ l))
        end
    end.

Section charconv.
Context (t : int_type) (base : Z) (Hbits : 0 < bits t <= 64) (Hbase : 10 <= base <= 36).

Lemma type_max_bound : 0 <= type_max t < 2 ^ 64 /\ type_max t < 2 ^ bits t.
Proof using Hbits.
  assert (0 < 2 ^ bits t) by (apply Z.pow_pos_nonneg; lia).
  assert (2 ^ bits t <= 2 ^ 64) by (apply Z.pow_le_mono_r; lia).
  unfold type_max. destruct (is_signed t).
  - pose proof (Z.div_le_upper_bound (2 ^ bits t - 1) 2 (2 ^ bits t - 1)).
    pose proof (Z.div_pos (2 ^ bits t - 1) 2). lia.
  - lia.
Qed.
Lemma convert_ok z : 0 <= z <= type_max t -> convert t z = Ok z.
Proof using Hbits.
  intros Hz. pose proof type_max_bound. unfold convert. destruct (is_signed t).
  - rewrite !(proj2 (Z.leb_le _ _)) by lia. done.
  - unfold wrapu. rewrite Z.mod_small by lia. done.
Qed.
Lemma convert_neg z : is_signed t = true -> - type_max t <= z <= type_max t -> convert t z = Ok z.
Proof using Type. intros E Hz. unfold convert. rewrite E, !(proj2 (Z.leb_le _ _)) by lia. done. Qed.

Lemma digit_value d : 0 <= d < 36 -> exists c, digits_table !! Z.to_nat d = Some c /\ to_value c = d /\ c <> 45.
Proof using Type.
  intros Hd. assert (H : forall n, (n < 36)%nat -> exists c, digits_table !! n = Some c /\ to_value c = Z.of_nat n /\ c <> 45).
  { clear. intros n Hn. do 36 (destruct n as [|n]; [eexists; split; [reflexivity|split; [reflexivity|done]]|]). lia. }
  destruct (H (Z.to_nat d)) as (c & H1 & H2 & H3); [lia|]. exists c. rewrite H2. split; [done|]. split; [lia|done].
Qed.

(** The digits written for a value read back as the value. *)
Lemma put_digits_spec room v acc :
  0 <= v <= type_max t -> v < 10 ^ Z.of_nat room ->
  exists l, put_digits room v base acc = Ok (l ++ acc) /\ (l = [] -> v = 0) /\
    (forall k : nat, v < 10 ^ Z.of_nat k -> (length l <= k)%nat) /\ Forall (fun c => c <> 45) l /\
    forall rest ptr, from_digits t base (l ++ rest) 0 ptr false = from_digits t base rest v (ptr + Z.of_nat (length l)) false.
Proof using Hbits Hbase.
  revert v acc. induction room as [|room IH]; intros v acc Hv Hr.
  - replace v with 0 by lia. exists []. split; [done|]. split; [done|]. split; [cbn; lia|]. split; [done|]. intros rest ptr. cbn. f_equal. lia.
  - cbn [put_digits]. destruct (Z.eqb_spec v 0) as [->|Hv0].
    { exists []. split; [done|]. split; [done|]. split; [cbn; lia|]. split; [done|]. intros rest ptr. cbn. f_equal. lia. }
    pose proof (Z.mod_pos_bound v base ltac:(lia)) as Hm. pose proof (Z.div_mod v base ltac:(lia)) as Hdm.
    destruct (digit_value (v mod base)) as (c & -> & Hc & Hc45); [lia|].
    assert (Hq : 0 <= v / base) by (apply Z.div_pos; lia).
    assert (Hqv : v / base <= type_max t / 10).
    { etrans; [apply (Z.div_le_mono v (type_max t) base); lia|]. apply Z.div_le_compat_l; lia. }
    assert (Hq10 : v / base < 10 ^ Z.of_nat room).
    { rewrite Nat2Z.inj_succ, Z.pow_succ_r in Hr by lia. apply Z.div_lt_upper_bound; [lia|]. nia. }
    destruct (IH (v / base) (c :: acc)) as (l & E & Hl & Hk & Hf & Hd); [nia|done|].
    exists (l ++ [c]). split; [rewrite E, <- app_assoc; done|].
    split; [intros H; by destruct l|]. split; [|split; [apply Forall_app; split; [done|by repeat constructor]|]].
    { intros [|k] Hvk; [lia|]. rewrite length_app. cbn [length]. rewrite Nat.add_1_r. apply le_n_S, Hk.
      rewrite Nat2Z.inj_succ, Z.pow_succ_r in Hvk by lia. apply Z.div_lt_upper_bound; [lia|]. nia. }
    intros rest ptr. rewrite <- app_assoc, Hd. cbn [app from_digits]. rewrite Hc.
    rewrite (proj2 (Z.eqb_neq (v mod base) (-1))), (proj2 (Z.leb_gt _ _)) by lia. cbn [orb].
    rewrite (proj2 (Z.ltb_ge _ _)) by (destruct (v mod base =? 0); lia).
    replace (v / base * base + v mod base) with v by lia. rewrite convert_ok by done.
    f_equal. rewrite length_app. cbn. lia.
Qed.

(** The text of a value. *)
Lemma to_chars_text v :
  (if is_signed t then - type_max t <= v else 0 <= v) -> v <= type_max t ->
  exists l, (0 < length l <= 21)%nat /\
    (forall cap, 21 <= cap -> to_chars t cap v base = Ok (mkTo (Z.of_nat (length l)) no_error l)) /\
    from_chars t l base = Ok (mkFrom (Z.of_nat (length l)) no_error (Some v)).
Proof using Hbits Hbase.
  intros Hlo Hhi. pose proof type_max_bound as Hb.
  destruct (Z.eqb_spec v 0) as [->|Hv].
  { exists [48]. split; [cbn; lia|]. split.
    - intros cap Hc. unfold to_chars. rewrite (proj2 (Z.eqb_neq _ _)) by lia. done.
    - unfold from_chars. rewrite andb_false_r. cbn [from_digits].
      change (to_value 48) with 0. change (0 =? -1) with false. change (0 =? 0) with true.
      rewrite (proj2 (Z.leb_gt base 0)) by lia. cbn [orb].
      rewrite (proj2 (Z.ltb_ge (type_max t / 10 + 0) 0)) by (pose proof (Z.div_pos (type_max t) 10); lia).
      change (0 * base + 0) with 0. rewrite convert_ok by lia. done. }
  destruct (put_digits_spec 128 (Z.abs v) []) as (l & E & Hl & Hk & Hf & Hd).
  { destruct (is_signed t); lia. }
  { apply Z.lt_trans with (2 ^ 64); [destruct (is_signed t); lia|reflexivity]. }
  rewrite app_nil_r in E. specialize (Hk 20%nat ltac:(apply Z.lt_trans with (2 ^ 64); [destruct (is_signed t); lia|reflexivity])).
  specialize (Hd [] (if v <? 0 then 1 else 0)). rewrite app_nil_r in Hd. cbn [from_digits] in Hd.
  destruct l as [|c l]; [by specialize (Hl eq_refl); lia|].
  exists ((if v <? 0 then [45] else []) ++ c :: l). split; [destruct (v <? 0); cbn in *; lia|]. split.
  - intros cap Hc. unfold to_chars. rewrite (proj2 (Z.eqb_neq _ _)), (proj2 (Z.eqb_neq v 0)) by lia.
    destruct (Z.ltb_spec v 0) as [Hn|Hn].
    + destruct (is_signed t) eqn:Es; [|lia]. rewrite convert_neg by (done || lia). rewrite Z.abs_neq in E by lia. rewrite E.
      rewrite (proj2 (Z.ltb_ge _ _)) by (cbn in *; lia). do 2 f_equal. cbn. lia.
    + rewrite Z.abs_eq in E by lia. rewrite E. rewrite (proj2 (Z.ltb_ge _ _)) by (cbn in *; lia). done.
  - apply Forall_cons in Hf as [Hc _]. unfold from_chars. destruct (Z.ltb_spec v 0) as [Hn|Hn]; cbn [app].
    + destruct (is_signed t) eqn:Es; [|lia]. change (true && (45 =? 45)) with true. cbv iota. rewrite Hd.
      rewrite convert_neg by (done || lia). do 2 f_equal; [cbn; lia|f_equal; lia].
    + rewrite (proj2 (Z.eqb_neq c 45)) by done. rewrite andb_false_r. rewrite Hd. do 2 f_equal; f_equal; lia.
Qed.
End charconv.

(** Two string views compare equal exactly when one of them begins with the
    other and neither or both are empty: the comparison looks at the common
    length only and then at whether the lengths are zero. *)
Theorem string_view_equality s1 s2 :
  byte_list s1 -> byte_list s2 ->
  sv_eq s1 s2 = true <-> compatible s1 s2 /\ (s1 = [] <-> s2 = []).
Proof. apply sv_eq_spec. Qed.
Lemma string_view_equality_witness :
  sv_eq [97; 98] [97; 98; 99] = true <-> compatible [97; 98] [97; 98; 99] /\ ([97; 98] = [] <-> [97; 98; 99] = []).
Proof. apply string_view_equality; repeat constructor; cbn; lia. Defined.

(** For bases 10 to 36 and every integral type of at most 64 bits, the text
    [to_chars] writes for a value (the least signed value apart) fits 21
    characters, and [from_chars] reads the value back from it, consuming all of
    it without an error. *)
Theorem chars_roundtrip t base v :
  0 < bits t <= 64 -> 10 <= base <= 36 ->
  (if is_signed t then - type_max t <= v else 0 <= v) -> v <= type_max t ->
  exists l, (0 < length l <= 21)%nat /\
    (forall cap, 21 <= cap -> to_chars t cap v base = Ok (mkTo (Z.of_nat (length l)) no_error l)) /\
    from_chars t l base = Ok (mkFrom (Z.of_nat (length l)) no_error (Some v)).
Proof. intros Hb Hbase. by apply to_chars_text. Qed.
Lemma chars_roundtrip_witness :
  exists l, (0 < length l <= 21)%nat /\
    (forall cap, 21 <= cap -> to_chars int64_t cap (-255) 16 = Ok (mkTo (Z.of_nat (length l)) no_error l)) /\
    from_chars int64_t l 16 = Ok (mkFrom (Z.of_nat (length l)) no_error (Some (-255))).
Proof. apply (chars_roundtrip int64_t 16 (-255)); [cbn; lia|lia|vm_compute; discriminate|vm_compute; discriminate]. Defined.

(** The least signed value cannot be written: its negation overflows. *)
Example to_chars_least : to_chars int64_t 64 (- 2 ^ 63) 10 = Err Fault.
Proof. vm_compute. reflexivity. Qed.
(** The overflow test of [from_chars] divides by ten whatever the base is: a
    value of 64 binary digits is refused, one past the range in base 16 wraps. *)
Example from_chars_binary :
  from_chars uint64_t (replicate 64 49) 2 = Ok (mkFrom 61 result_out_of_range None).
Proof. vm_compute. reflexivity. Qed.
Example from_chars_hex_wraps :
  from_chars uint64_t (49 :: replicate 16 48) 16 = Ok (mkFrom 17 no_error (Some 0)).
Proof. vm_compute. reflexivity. Qed.
(** Text that continues after a number is refused instead of left unread. *)
Example from_chars_trailing : from_chars uint64_t [49; 50; 32] 10 = Ok (mkFrom 2 invalid_argument None).
Proof. vm_compute. reflexivity. Qed.
