(* ===== verification/Cstring.v ===== *)
(** * The memory routines of libraries/rosestd/src/cstring.cpp

    Memory maps addresses to bytes; an access to an address it does not map is
    an error.  [memcpy] copies in words as wide as the alignment of its three
    arguments allows. *)
From S2P Require Import Prelude.

Abbreviation memory := (gmap Z Z).

Definition load8 (p : Z) : M memory Z := fun m =>
  match m !! p with Some b => Ok (b, m) | None => Err Fault end.
Definition store8 (p b : Z) : M memory unit := fun m =>
  match m !! p with Some _ => Ok (tt, <[p := b]> m) | None => Err Fault end.
(** A word of [w] bytes is the list of its bytes, in the order of memory. *)
Fixpoint load_word (w : nat) (p : Z) : M memory (list Z) :=
  match w with
  | O => ret []
  | S w' => let* b := load8 p in let* bs := load_word w' (p + 1) in ret (b :: bs)
  end.
Fixpoint store_word (bs : list Z) (p : Z) : M memory unit :=
  match bs with
  | [] => ret tt
  | b :: bs' => store8 p b ;; store_word bs' (p + 1)
  end.

(** [__memcpy<Repr>], [w] the size of [Repr]: [n] words left. *)
Fixpoint memcpy_loop (w : nat) (n : nat) (s1 s2 : Z) : M memory unit :=
  match n with
  | O => ret tt
  | S n' =>
      let* x := load_word w s2 in
      store_word x s1 ;;
      memcpy_loop w n' (s1 + Z.of_nat w) (s2 + Z.of_nat w)
  end.
Definition __memcpy (w : nat) (s1 s2 n : Z) : M memory Z :=
  memcpy_loop w (Z.to_nat (n / Z.of_nat w)) s1 s2 ;; ret s1.

(** [__builtin_ffsll]: one more than the index of the lowest bit that is set. *)
Fixpoint ffs_from (fuel : nat) (i x : Z) : Z :=
  match fuel with
  | O => 0
  | S f => if Z.testbit x i then i + 1 else ffs_from f (i + 1) x
  end.
Definition ffsll (x : Z) : Z := ffs_from 64 0 x.

Definition memcpy (s1 s2 n : Z) : M memory Z :=
  let common := Z.lor (Z.lor s1 s2) n in
  let ffs := ffsll common in
  if ffs =? 1 then __memcpy 1 s1 s2 n
  else if ffs =? 2 then __memcpy 2 s1 s2 n
  else if ffs =? 3 then __memcpy 4 s1 s2 n
  else __memcpy 8 s1 s2 n.

Fixpoint memcmp_loop (n : nat) (s1 s2 : Z) : M memory Z :=
  match n with
  | O => ret 0
  | S n' =>
      let* a := load8 s1 in
      let* b := load8 s2 in
      if negb (a =? b) then ret (a - b) else memcmp_loop n' (s1 + 1) (s2 + 1)
  end.
Definition memcmp (s1 s2 n : Z) : M memory Z := memcmp_loop (Z.to_nat n) s1 s2.

(** [None] is the null pointer. *)
Fixpoint memchr_loop (n : nat) (uc p : Z) : M memory (option Z) :=
  match n with
  | O => ret None
  | S n' => let* b := load8 p in if b =? uc then ret (Some p) else memchr_loop n' uc (p + 1)
  end.
Definition memchr (s c n : Z) : M memory (option Z) := memchr_loop (Z.to_nat n) (u8 c) s.

Fixpoint memset_loop (n : nat) (c p : Z) : M memory unit :=
  match n with
  | O => ret tt
  | S n' => store8 p (u8 c) ;; memset_loop n' c (p + 1)
  end.
Definition memset (s c n : Z) : M memory Z := memset_loop (Z.to_nat n) c s ;; ret s.

(** The scan of [strlen] steps past the terminator. *)
Fixpoint strlen_loop (fuel : nat) (s : Z) : M memory Z :=
  match fuel with
  | O => fail NoFuel
  | S f => let* b := load8 s in if b =? 0 then ret (s + 1) else strlen_loop f (s + 1)
  end.
Definition strlen (fuel : nat) (s : Z) : M memory Z := let* e := strlen_loop fuel s in ret (e - s).

(** ** Regions *)

Definition mapped (m : memory) (p n : Z) : Prop := forall a, p <= a < p + n -> is_Some (m !! a).
(** [m'] is [m] with the bytes of [s2, s2 + n) copied to [s1, s1 + n). *)
Definition copied (m m' : memory) (s1 s2 n : Z) : Prop :=
  forall a, m' !! a = if decide (s1 <= a < s1 + n) then m !! (s2 + (a - s1)) else m !! a.

(** The bytes at [p], as far as they are mapped. *)
Definition region (m : memory) (p : Z) (n : nat) (bs : list Z) : Prop :=
  length bs = n /\ forall i b, bs !! i = Some b -> m !! (p + Z.of_nat i) = Some b.

Lemma load8_ok m p b : m !! p = Some b -> load8 p m = Ok (b, m).
Proof. unfold load8. by intros ->. Qed.
Lemma store8_ok m p b : is_Some (m !! p) -> store8 p b m = Ok (tt, <[p := b]> m).
Proof. unfold store8. by intros [? ->]. Qed.

Lemma load_word_ok m w p :
  mapped m p (Z.of_nat w) -> exists bs, load_word w p m = Ok (bs, m) /\ region m p w bs.
Proof.
  revert p. induction w as [|w IH]; intros p Hm; [by exists []|]. cbn [load_word].
  destruct (Hm p ltac:(lia)) as [b Hb]. erewrite bind_Ok by (by apply load8_ok).
  destruct (IH (p + 1)) as (bs & E & L & R); [intros a Ha; apply Hm; lia|]. erewrite bind_Ok by done.
  exists (b :: bs). split; [done|]. split; [cbn; lia|]. intros [|i] c Hc; cbn in Hc.
  - rewrite Z.add_0_r. congruence.
  - replace (p + Z.of_nat (S i)) with (p + 1 + Z.of_nat i) by lia. by apply R.
Qed.
Lemma store_word_ok m bs p :
  mapped m p (Z.of_nat (length bs)) ->
  exists m', store_word bs p m = Ok (tt, m') /\
    forall a, m' !! a = if decide (p <= a < p + Z.of_nat (length bs)) then bs !! Z.to_nat (a - p) else m !! a.
Proof.
  revert m p. induction bs as [|b bs IH]; intros m p Hm; cbn [store_word length].
  { exists m. split; [done|]. intros a. rewrite decide_False by (cbn; lia). done. }
  erewrite bind_Ok by (apply store8_ok, Hm; cbn; lia).
  destruct (IH (<[p := b]> m) (p + 1)) as (m' & E & H).
  { intros a Ha. rewrite lookup_insert_ne by lia. apply Hm. cbn. lia. }
  exists m'. split; [done|]. intros a. rewrite H. destruct (decide (a = p)) as [->|Hne].
  - rewrite decide_False by lia. rewrite decide_True by lia. rewrite lookup_insert_eq, Z.sub_diag. done.
  - repeat case_decide; try lia; [|by rewrite lookup_insert_ne].
    replace (Z.to_nat (a - p)) with (S (Z.to_nat (a - (p + 1)))) by lia. done.
Qed.

Lemma memcpy_loop_ok m w n s1 s2 :
  (0 < w)%nat -> let len := Z.of_nat n * Z.of_nat w in
  mapped m s1 len -> mapped m s2 len -> s1 + len <= s2 \/ s2 + len <= s1 ->
  exists m', memcpy_loop w n s1 s2 m = Ok (tt, m') /\ copied m m' s1 s2 len.
Proof.
  intros Hw. revert m s1 s2. induction n as [|n IH]; intros m s1 s2 len H1 H2 Hd; cbn [memcpy_loop].
  { exists m. split; [done|]. intros a. rewrite decide_False by lia. done. }
  assert (Hl : len = Z.of_nat w + Z.of_nat n * Z.of_nat w) by (subst len; lia). clearbody len. subst len.
  destruct (load_word_ok m w s2) as (bs & E & L & R); [intros a Ha; apply H2; nia|]. erewrite bind_Ok by done.
  destruct (store_word_ok m bs s1) as (m1 & E1 & S1); [intros a Ha; apply H1; nia|]. erewrite bind_Ok by done.
  rewrite L in S1.
  assert (Hm1 : forall a, is_Some (m !! a) -> is_Some (m1 !! a)).
  { intros a Ha. rewrite S1. case_decide; [|done]. apply lookup_lt_is_Some. lia. }
  destruct (IH m1 (s1 + Z.of_nat w) (s2 + Z.of_nat w)) as (m2 & E2 & S2);
    [intros a Ha; apply Hm1, H1; nia|intros a Ha; apply Hm1, H2; nia|nia|].
  exists m2. split; [done|]. intros a. rewrite S2, !S1.
  destruct (decide (s1 <= a < s1 + Z.of_nat w)) as [Ha|Ha].
  - rewrite decide_False by nia. rewrite decide_True by nia.
    destruct (lookup_lt_is_Some_2 bs (Z.to_nat (a - s1))) as [b Hb]; [lia|]. rewrite Hb.
    apply R in Hb. rewrite Z2Nat.id in Hb by lia. by rewrite Hb.
  - destruct (decide (s1 + Z.of_nat w <= a < s1 + Z.of_nat w + Z.of_nat n * Z.of_nat w)) as [Ha2|Ha2].
    + rewrite decide_False by nia. rewrite decide_True by nia. f_equal. lia.
    + rewrite decide_False by nia. done.
Qed.

Lemma low_bits_clear x y k : 0 <= k -> (forall i, 0 <= i < k -> Z.testbit (Z.lor x y) i = false) -> y mod 2 ^ k = 0.
Proof.
  intros Hk H. rewrite <- Z.land_ones by done. apply Z.bits_inj'. intros i Hi. rewrite Z.land_spec, Z.testbit_0_l.
  destruct (decide (i < k)).
  - specialize (H i ltac:(lia)). rewrite Z.lor_spec in H. apply orb_false_iff in H as [_ ->]. done.
  - rewrite Z.ones_spec_high by lia. apply andb_false_r.
Qed.

(** The width chosen divides the length. *)
Lemma width_divides x n (k : Z) :
  ffsll (Z.lor x n) = k + 1 /\ 0 <= k < 3 \/ ffsll (Z.lor x n) <> 1 /\ ffsll (Z.lor x n) <> 2 /\ ffsll (Z.lor x n) <> 3 /\ k = 3 ->
  n mod 2 ^ k = 0.
Proof.
  intros H. apply (low_bits_clear x); [lia|]. intros i Hi. set (c := Z.lor x n) in *.
  assert (B : forall f j, ffs_from f j c = 0 \/ j + 1 <= ffs_from f j c).
  { clear. intros f. induction f as [|f IH]; intros j; [by left|]. cbn. destruct (Z.testbit c j); [lia|].
    destruct (IH (j + 1)); lia. }
  unfold ffsll in H. cbn [ffs_from] in H. specialize (B 61%nat (0 + 1 + 1 + 1)).
  set (z := ffs_from 61 _ c) in *. clearbody z.
  change (0 + 1) with 1 in *. change (1 + 1) with 2 in *. change (2 + 1) with 3 in *.
  destruct (Z.testbit c 0) eqn:T0; [lia|]. destruct (Z.testbit c 1) eqn:T1; [assert (i = 0) as -> by lia; done|].
  destruct (Z.testbit c 2) eqn:T2; [assert (i = 0 \/ i = 1) as [-> | ->] by lia; done|].
  assert (i = 0 \/ i = 1 \/ i = 2) as [-> |[-> | ->]] by lia; done.
Qed.

Lemma __memcpy_ok m k s1 s2 n :
  0 <= n -> n mod 2 ^ Z.of_nat k = 0 -> mapped m s1 n -> mapped m s2 n -> s1 + n <= s2 \/ s2 + n <= s1 ->
  exists m', __memcpy (2 ^ k) s1 s2 n m = Ok (s1, m') /\ copied m m' s1 s2 n.
Proof.
  intros Hn Hm H1 H2 Hd. unfold __memcpy. rewrite Nat2Z.inj_pow. change (Z.of_nat 2) with 2.
  pose proof (Z.div_exact n (2 ^ Z.of_nat k) ltac:(apply Z.pow_nonzero; lia)) as [_ E]. specialize (E Hm).
  assert (Hp : 0 < 2 ^ Z.of_nat k) by (apply Z.pow_pos_nonneg; lia).
  assert (Hq : 0 <= n / 2 ^ Z.of_nat k) by (by apply Z.div_pos).
  assert (El : Z.of_nat (Z.to_nat (n / 2 ^ Z.of_nat k)) * Z.of_nat (2 ^ k) = n).
  { rewrite Nat2Z.inj_pow, Z2Nat.id by done. change (Z.of_nat 2) with 2. lia. }
  destruct (memcpy_loop_ok m (2 ^ k) (Z.to_nat (n / 2 ^ Z.of_nat k)) s1 s2) as (m' & E' & C); rewrite ?El; try done.
  { apply Nat.neq_0_lt_0, Nat.pow_nonzero. lia. }
  erewrite bind_Ok by done. exists m'. split; [done|]. by rewrite El in C.
Qed.

(** Whatever the alignment of its arguments, [memcpy] between mapped regions
    that do not overlap gives back the destination and changes memory exactly by
    copying the [n] bytes: the wide copies it chooses are the bytewise one. *)
Theorem memcpy_copies m s1 s2 n :
  0 <= n -> mapped m s1 n -> mapped m s2 n -> s1 + n <= s2 \/ s2 + n <= s1 ->
  exists m', memcpy s1 s2 n m = Ok (s1, m') /\ copied m m' s1 s2 n.
Proof.
  intros Hn H1 H2 Hd. unfold memcpy. set (x := Z.lor s1 s2).
  destruct (Z.eqb_spec (ffsll (Z.lor x n)) 1); [apply (__memcpy_ok m 0); try done; apply (width_divides x); lia|].
  destruct (Z.eqb_spec (ffsll (Z.lor x n)) 2); [apply (__memcpy_ok m 1); try done; apply (width_divides x); lia|].
  destruct (Z.eqb_spec (ffsll (Z.lor x n)) 3); [apply (__memcpy_ok m 2); try done; apply (width_divides x); lia|].
  apply (__memcpy_ok m 3); try done. apply (width_divides x). lia.
Qed.

Definition sample_memory : memory := list_to_map ((fun i => (Z.of_nat i, Z.of_nat i * 7 mod 256)) <$> seq 0 64).
Lemma sample_mapped p n : 0 <= p -> p + n <= 64 -> mapped sample_memory p n.
Proof.
  intros H1 H2 a Ha. assert (Hn : (Z.to_nat a < 64)%nat) by lia. rewrite <- (Z2Nat.id a) by lia.
  generalize dependent (Z.to_nat a). intros k Hk. do 64 (destruct k as [|k]; [by eexists|]). lia.
Qed.
Lemma memcpy_copies_witness : exists m', memcpy 8 40 20 sample_memory = Ok (8, m') /\ copied sample_memory m' 8 40 20.
Proof. apply memcpy_copies; [lia|apply sample_mapped; lia|apply sample_mapped; lia|lia]. Defined.

(** [strlen] counts the terminator. *)
Lemma strlen_loop_ok m (n : nat) s fuel :
  (forall i, (i < n)%nat -> exists b, m !! (s + Z.of_nat i) = Some b /\ b <> 0) -> m !! (s + Z.of_nat n) = Some 0 ->
  (n < fuel)%nat -> strlen_loop fuel s m = Ok (s + Z.of_nat n + 1, m).
Proof.
  revert s fuel. induction n as [|n IH]; intros s [|fuel] H H0 Hf; try lia; cbn [strlen_loop].
  - rewrite Z.add_0_r in *. erewrite bind_Ok by (by apply load8_ok). done.
  - destruct (H 0%nat ltac:(lia)) as (b & Hb & Hnz). rewrite Z.add_0_r in Hb. erewrite bind_Ok by (by apply load8_ok).
    rewrite (proj2 (Z.eqb_neq _ _)) by done. rewrite IH; [do 2 f_equal; lia| | |lia].
    + intros i Hi. replace (s + 1 + Z.of_nat i) with (s + Z.of_nat (S i)) by lia. apply H. lia.
    + by replace (s + 1 + Z.of_nat n) with (s + Z.of_nat (S n)) by lia.
Qed.

(** On a string of [n] characters before the terminating zero, [strlen] ends
    and gives [n + 1], one more than the number of characters, leaving memory as
    it was. *)
Theorem strlen_counts_terminator m s (n : nat) :
  (forall i, (i < n)%nat -> exists b, m !! (s + Z.of_nat i) = Some b /\ b <> 0) -> m !! (s + Z.of_nat n) = Some 0 ->
  strlen (S n) s m = Ok (Z.of_nat n + 1, m).
Proof.
  intros H H0. unfold strlen. erewrite bind_Ok by (by eapply strlen_loop_ok; eauto). unfold ret. do 2 f_equal. lia.
Qed.
Lemma strlen_counts_terminator_witness :
  strlen 3 10 (<[10 := 104]> (<[11 := 105]> (<[12 := 0]> ∅))) = Ok (3, <[10 := 104]> (<[11 := 105]> (<[12 := 0]> ∅))).
Proof.
  apply (strlen_counts_terminator _ 10 2); [|by vm_compute].
  intros [|[|i]] Hi; [by exists 104|by exists 105|lia].
Defined.
