(* ===== verification/Bytes.v ===== *)
(** * Data in memory images

    The archive reader and the ELF parser cast pointers into a block of memory
    to structures.  The block is the list of its bytes, a pointer into it an
    offset from its start, and an access that is not inside of it an error.
    Numbers are stored with their least significant byte first. *)
From S2P Require Import Prelude Text.

#[global] Instance is_byte_dec c : Decision (is_byte c).
Proof. unfold is_byte. apply _. Defined.

(** ** Ranges of bytes *)

(** The bytes [off, off + n) of the block. *)
Definition read_bytes (data : bytes) (off n : Z) : res bytes :=
  if (0 <=? off) && (0 <=? n) && (off + n <=? Z.of_nat (length data))
  then Ok (take (Z.to_nat n) (drop (Z.to_nat off) data)) else Err Fault.

(** The block with the bytes at [off] replaced. *)
Definition write_bytes (data : bytes) (off : Z) (bs : bytes) : res bytes :=
  if (0 <=? off) && (off + Z.of_nat (length bs) <=? Z.of_nat (length data))
  then Ok (take (Z.to_nat off) data ++ bs ++ drop (Z.to_nat off + length bs) data) else Err Fault.

Lemma read_at data a b c off n :
  data = a ++ b ++ c -> off = Z.of_nat (length a) -> n = Z.of_nat (length b) -> read_bytes data off n = Ok b.
Proof.
  intros -> -> ->. unfold read_bytes. rewrite !length_app. rewrite !(proj2 (Z.leb_le _ _)) by lia. cbn [andb].
  rewrite !Nat2Z.id, drop_app_length, take_app_length. done.
Qed.
Lemma read_total data off n :
  0 <= off -> 0 <= n -> off + n <= Z.of_nat (length data) ->
  exists b, read_bytes data off n = Ok b /\ Z.of_nat (length b) = n.
Proof.
  intros H1 H2 H3. unfold read_bytes. rewrite !(proj2 (Z.leb_le _ _)) by lia. cbn [andb].
  eexists. split; [done|]. rewrite length_take, length_drop. lia.
Qed.
Lemma read_bytes_inv data off n b :
  read_bytes data off n = Ok b ->
  0 <= off /\ 0 <= n /\ off + n <= Z.of_nat (length data) /\ Z.of_nat (length b) = n.
Proof.
  unfold read_bytes. destruct (_ && _) eqn:E; [|done]. intros [= <-].
  apply andb_prop in E as [[E1 E2]%andb_prop E3]. apply Z.leb_le in E1, E2, E3.
  rewrite length_take, length_drop. lia.
Qed.

Lemma write_inside data off bs :
  0 <= off -> off + Z.of_nat (length bs) <= Z.of_nat (length data) ->
  exists a b c, data = a ++ b ++ c /\ off = Z.of_nat (length a) /\ length b = length bs /\
    write_bytes data off bs = Ok (a ++ bs ++ c).
Proof.
  intros H1 H2. exists (take (Z.to_nat off) data), (take (length bs) (drop (Z.to_nat off) data)),
    (drop (Z.to_nat off + length bs) data).
  unfold write_bytes. rewrite !(proj2 (Z.leb_le _ _)) by lia. rewrite !length_take, length_drop.
  rewrite <- drop_drop, !take_drop. repeat split; lia.
Qed.

(** The other bytes stay. *)
Lemma write_elsewhere data off bs data' i :
  write_bytes data off bs = Ok data' -> Z.of_nat i < off \/ off + Z.of_nat (length bs) <= Z.of_nat i -> data' !! i = data !! i.
Proof.
  unfold write_bytes. destruct (_ && _) eqn:E; [|done]. apply andb_prop in E as [E1 E2]. apply Z.leb_le in E1, E2.
  intros [= <-] [Hi | Hi].
  - rewrite lookup_app_l by (rewrite length_take; lia). by rewrite lookup_take_lt by lia.
  - rewrite !lookup_app_r by (rewrite ?length_take; lia). rewrite lookup_drop, length_take. f_equal. lia.
Qed.

(** What was written is read back. *)
Lemma read_write data off bs data' :
  write_bytes data off bs = Ok data' -> read_bytes data' off (Z.of_nat (length bs)) = Ok bs.
Proof.
  intros W. assert (0 <= off /\ off + Z.of_nat (length bs) <= Z.of_nat (length data)) as [H1 H2].
  { revert W. unfold write_bytes. destruct (_ && _) eqn:E; [|done]. apply andb_prop in E as [E1 E2]. lia. }
  destruct (write_inside data off bs H1 H2) as (a & b & c & -> & -> & Hl & W'). rewrite W in W'.
  injection W' as ->. by eapply read_at.
Qed.

(** ** Numbers *)

Fixpoint le_value (bs : bytes) : Z :=
  match bs with [] => 0 | b :: bs' => b + 256 * le_value bs' end.
Fixpoint le_bytes (n : nat) (v : Z) : bytes :=
  match n with O => [] | S n' => v mod 256 :: le_bytes n' (v / 256) end.

Lemma le_bytes_length n v : length (le_bytes n v) = n.
Proof. revert v. induction n as [|n IH]; intros v; [done|]. cbn [le_bytes length]. by rewrite IH. Qed.

Lemma le_bytes_ok n v : byte_list (le_bytes n v).
Proof.
  revert v. induction n as [|n IH]; intros v; [constructor|]. cbn [le_bytes]. constructor; [|done].
  apply Z.mod_pos_bound. lia.
Qed.

Lemma pow_256_succ n : 256 ^ Z.of_nat (S n) = 256 * 256 ^ Z.of_nat n.
Proof. rewrite Nat2Z.inj_succ, Z.pow_succ_r by lia. lia. Qed.

Lemma le_value_bytes n v : 0 <= v < 256 ^ Z.of_nat n -> le_value (le_bytes n v) = v.
Proof.
  revert v. induction n as [|n IH]; intros v Hv; [cbn in *; lia|]. rewrite pow_256_succ in Hv.
  cbn [le_bytes le_value]. rewrite IH; [pose proof (Z.div_mod v 256); lia|].
  split; [apply Z.div_pos; lia|]. apply Z.div_lt_upper_bound; lia.
Qed.

Lemma le_value_bound bs : byte_list bs -> 0 <= le_value bs < 256 ^ Z.of_nat (length bs).
Proof.
  induction 1 as [|b bs Hb _ IH]; [cbn; lia|]. cbn [le_value length]. rewrite pow_256_succ.
  unfold is_byte in Hb. lia.
Qed.

(** A field of [n] bytes at [off], read from a block that is left as it is. *)
Definition load (off n : Z) : M bytes Z := fun data =>
  match read_bytes data off n with Ok bs => Ok (le_value bs, data) | Err e => Err e end.

Section fields.
Context (data : bytes) (Hdata : byte_list data).

Lemma load_total off n :
  0 <= off -> 0 <= n -> off + n <= Z.of_nat (length data) ->
  exists v, load off n data = Ok (v, data) /\ 0 <= v < 256 ^ n.
Proof using Hdata.
  intros H1 H2 H3. unfold load, read_bytes. rewrite !(proj2 (Z.leb_le _ _)) by lia. cbn [andb].
  eexists. split; [done|]. set (b := take _ _).
  replace n with (Z.of_nat (length b)) by (unfold b; rewrite length_take, length_drop; lia).
  apply le_value_bound. by apply Forall_take, Forall_drop.
Qed.

Lemma load_inv off n v data' :
  load off n data = Ok (v, data') -> data' = data /\ 0 <= v < 256 ^ n /\
  0 <= off /\ 0 <= n /\ off + n <= Z.of_nat (length data).
Proof using Hdata.
  intros L. destruct (read_bytes data off n) as [b|] eqn:E; [|unfold load in L; by rewrite E in L].
  destruct (read_bytes_inv _ _ _ _ E) as (H1 & H2 & H3 & H4).
  destruct (load_total off n) as (v' & L' & B); [lia..|]. rewrite L in L'. by simplify_eq.
Qed.
End fields.

Lemma load_stored n v a c off :
  0 <= v < 256 ^ Z.of_nat n -> off = Z.of_nat (length a) ->
  load off (Z.of_nat n) (a ++ le_bytes n v ++ c) = Ok (v, a ++ le_bytes n v ++ c).
Proof.
  intros Hv ->. unfold load. rewrite (read_at _ a (le_bytes n v) c) by (rewrite ?le_bytes_length; done).
  by rewrite le_value_bytes.
Qed.
