(* ===== verification/Cpio.v ===== *)
(** * The archive reader of libraries/archive/src/cpio.cpp

    The initial ramdisk is a cpio archive in the new ASCII format.  Pointers
    into it are offsets from its first byte; reading outside of it is an
    error. *)
From S2P Require Import Prelude Text Bytes.

(** ** The header *)

(** [struct cpio_header]: the offsets of its fields and its size. *)
Definition off_magic : Z := 0.
Definition off_inode : Z := off_magic + 6.
Definition off_mode : Z := off_inode + 8.
Definition off_uid : Z := off_mode + 8.
Definition off_gid : Z := off_uid + 8.
Definition off_nlink : Z := off_gid + 8.
Definition off_mtime : Z := off_nlink + 8.
Definition off_filesize : Z := off_mtime + 8.
Definition off_devmajor : Z := off_filesize + 8.
Definition off_devminor : Z := off_devmajor + 8.
Definition off_rdevmajor : Z := off_devminor + 8.
Definition off_rdevminor : Z := off_rdevmajor + 8.
Definition off_namesize : Z := off_rdevminor + 8.
Definition off_check : Z := off_namesize + 8.
Definition sizeof_cpio_header : Z := off_check + 8.

Record header : Type := mkHeader {
  hdr : Z;
  namesize : Z;
  name_padding : Z;
  filesize : Z;
  file_padding : Z;
  mode : Z
}.

Definition is_file (h : header) : bool := Z.land (mode h) 32768 =? 32768.
Definition filename (data : bytes) (h : header) : res bytes :=
  read_bytes data (hdr h + sizeof_cpio_header) (namesize h).
Definition contents (data : bytes) (h : header) : res bytes :=
  read_bytes data (hdr h + sizeof_cpio_header + namesize h + name_padding h) (filesize h).

Record get_entry_result : Type := mkEntry {
  entry : option header;
  error_message : string;
  header_base : option Z
}.

(** A field of eight hexadecimal digits; [None] when it does not parse in full. *)
Definition parse_field (data : bytes) (off : Z) : res (option Z) :=
  match read_bytes data off 8 with
  | Err e => Err e
  | Ok s =>
      match from_chars uint64_t s 16 with
      | Err e => Err e
      | Ok r =>
          if bool_decide (from_ec r <> no_error) || negb (from_ptr r =? 8) then Ok None
          else Ok (from_value r)
      end
  end.

Definition magic : bytes := [48; 55; 48; 55; 48; 49].

Definition get_entry (data : bytes) (base limit : Z) : res get_entry_result :=
  let failed msg := Ok (mkEntry None msg (Some base)) in
  if limit <=? base + sizeof_cpio_header then failed "end of entry would be past the limit of the archive" else
  match read_bytes data (base + off_magic) 6 with
  | Err e => Err e
  | Ok m =>
  if negb (sv_eq m magic) then failed "magic did not match" else
  match parse_field data (base + off_mode) with
  | Err e => Err e
  | Ok None => failed "failed to parse file mode"
  | Ok (Some mode) =>
  match parse_field data (base + off_namesize) with
  | Err e => Err e
  | Ok None => failed "failed to parse namesize"
  | Ok (Some namesize) =>
  match parse_field data (base + off_filesize) with
  | Err e => Err e
  | Ok None => failed "failed to parse filesize"
  | Ok (Some filesize) =>
  let name_padding := u64 (4 - u64 (sizeof_cpio_header + namesize) mod 4) mod 4 in
  let file_padding := u64 (4 - filesize mod 4) mod 4 in
  if limit <=? base + sizeof_cpio_header + namesize + name_padding + filesize + file_padding
  then failed "end of file would be past the limit of the archive"
  else Ok (mkEntry (Some (mkHeader base namesize name_padding filesize file_padding mode)) "" None)
  end end end end.

Definition next (data : bytes) (h : header) (limit : Z) : res get_entry_result :=
  get_entry data (hdr h + sizeof_cpio_header + namesize h + name_padding h + filesize h + file_padding h) limit.

(** ** The archive *)

Record cpio : Type := mkCpio { cpio_size : Z; cpio_base : Z; cpio_limit : Z }.
Record try_cpio_result : Type := mkTry {
  archive : option cpio;
  try_error : string;
  header_offset : Z
}.

Definition trailer_name : bytes := [84; 82; 65; 73; 76; 69; 82; 33; 33; 33].

Fixpoint try_cpio_loop (fuel : nat) (data : bytes) (base limit size : Z) (result : get_entry_result) : res try_cpio_result :=
  match fuel with
  | O => Err NoFuel
  | S n =>
      match entry result with
      | None => match header_base result with
                | Some p => Ok (mkTry None (error_message result) (p - base))
                | None => Err Fault
                end
      | Some h =>
          let size := if is_file h then u64 (size + 1) else size in
          match filename data h with
          | Err e => Err e
          | Ok name =>
              if sv_eq name trailer_name then Ok (mkTry (Some (mkCpio size base limit)) "" 0)
              else match next data h limit with
                   | Err e => Err e
                   | Ok result => try_cpio_loop n data base limit size result
                   end
          end
      end
  end.

(** Every entry takes up more than the size of its header. *)
Definition cpio_fuel (data : bytes) : nat := S (length data).

Definition try_cpio (data : bytes) (base length : Z) : res try_cpio_result :=
  let limit := base + length in
  match get_entry data base limit with
  | Err e => Err e
  | Ok result => try_cpio_loop (cpio_fuel data) data base limit 0 result
  end.

Fixpoint lookup_loop (fuel : nat) (data : bytes) (limit : Z) (name : bytes) (result : get_entry_result) : res (option bytes) :=
  match fuel with
  | O => Err NoFuel
  | S n =>
      match entry result with
      | None => Ok None
      | Some h =>
          match filename data h with
          | Err e => Err e
          | Ok this =>
              if is_file h && sv_eq this name then
                match contents data h with Ok c => Ok (Some c) | Err e => Err e end
              else if sv_eq this trailer_name then Ok None
              else match next data h limit with
                   | Err e => Err e
                   | Ok result => lookup_loop n data limit name result
                   end
          end
      end
  end.

(** [cpio::operator[]] *)
Definition cpio_lookup (data : bytes) (c : cpio) (name : bytes) : res (option bytes) :=
  match get_entry data (cpio_base c) (cpio_limit c) with
  | Err e => Err e
  | Ok result => lookup_loop (cpio_fuel data) data (cpio_limit c) name result
  end.
