(* ===== verification/CpioTheorems.v ===== *)
(** * What the archive reader promises

    On any bytes the reader ends without reading outside of them.  On an archive
    written in the format, it counts the files, and a lookup gives the contents
    of the first file whose name begins with the name asked for. *)
From S2P Require Import Prelude Text Bytes Cpio.

(** ** Reading *)

Lemma from_digits_uint64 base s temp ptr :
  0 <= base -> 0 <= temp -> exists v p ec, from_digits uint64_t base s temp ptr false = Ok (v, p, ec) /\ 0 <= v.
Proof.
  intros Hb. revert temp ptr. induction s as [|c s IH]; intros temp ptr Ht; cbn [from_digits]; [by eauto 10|].
  destruct (_ || _); [by eauto 10|]. destruct (_ <? _); [by eauto 10|].
  change (convert uint64_t (temp * base + to_value c)) with (Ok (u64 (temp * base + to_value c))).
  cbv iota. apply IH. apply u64_is_u64.
Qed.
Lemma from_chars_uint64 s base :
  0 <= base -> exists r, from_chars uint64_t s base = Ok r /\ forall v, from_value r = Some v -> 0 <= v.
Proof.
  intros Hb. unfold from_chars. destruct s as [|c s]; [eexists; by split|]. cbn [andb uint64_t is_signed].
  destruct (from_digits_uint64 base (c :: s) 0 0 Hb ltac:(lia)) as (v & p & ec & -> & Hv).
  destruct ec; eexists; (split; [done|]); cbn; naive_solver.
Qed.
Lemma parse_field_total data off :
  0 <= off -> off + 8 <= Z.of_nat (length data) ->
  exists r, parse_field data off = Ok r /\ forall v, r = Some v -> 0 <= v.
Proof.
  intros H1 H2. unfold parse_field. destruct (read_total data off 8) as (b & -> & _); [lia..|].
  destruct (from_chars_uint64 b 16) as (r & -> & Hr); [lia|].
  destruct (_ || _); eexists; split; try done; naive_solver.
Qed.

(** What a parsed header says about its place in the archive. *)
Record header_ok (limit base : Z) (h : header) : Prop := {
  ho_hdr : hdr h = base;
  ho_name : 0 <= namesize h;
  ho_name_pad : 0 <= name_padding h;
  ho_file : 0 <= filesize h;
  ho_file_pad : 0 <= file_padding h;
  ho_end : base + sizeof_cpio_header + namesize h + name_padding h + filesize h + file_padding h < limit
}.

Lemma get_entry_total data base limit :
  0 <= base -> limit <= Z.of_nat (length data) ->
  exists r, get_entry data base limit = Ok r /\
    match entry r with
    | Some h => header_ok limit base h
    | None => header_base r = Some base
    end.
Proof.
  intros Hb Hl. unfold get_entry. destruct (Z.leb_spec limit (base + sizeof_cpio_header)) as [|Hs]; [eexists; by split|].
  change sizeof_cpio_header with 110 in *.
  destruct (read_total data (base + off_magic) 6) as (m & -> & _); [unfold off_magic; lia..|].
  destruct (negb _); [eexists; by split|].
  destruct (parse_field_total data (base + off_mode)) as (r1 & -> & H1); [change off_mode with 14; lia..|].
  destruct r1 as [md|]; [|eexists; by split].
  destruct (parse_field_total data (base + off_namesize)) as (r2 & -> & H2); [change off_namesize with 94; lia..|].
  destruct r2 as [ns|]; [|eexists; by split].
  destruct (parse_field_total data (base + off_filesize)) as (r3 & -> & H3); [change off_filesize with 54; lia..|].
  destruct r3 as [fs|]; [|eexists; by split].
  specialize (H2 _ eq_refl). specialize (H3 _ eq_refl). cbv zeta.
  pose proof (Z.mod_pos_bound (u64 (4 - u64 (110 + ns) mod 4)) 4 ltac:(lia)).
  pose proof (Z.mod_pos_bound (u64 (4 - fs mod 4)) 4 ltac:(lia)).
  destruct (Z.leb_spec limit (base + 110 + ns + u64 (4 - u64 (110 + ns) mod 4) mod 4 + fs + u64 (4 - fs mod 4) mod 4)); [eexists; by split|].
  eexists. split; [done|]. cbn [entry]. split; cbn [hdr namesize name_padding filesize file_padding]; try done; lia.
Qed.

Lemma filename_total data base limit h :
  header_ok limit base h -> 0 <= base -> limit <= Z.of_nat (length data) -> exists b, filename data h = Ok b.
Proof.
  intros [<- H1 H2 H3 H4 H5] Hb Hl. unfold filename. change sizeof_cpio_header with 110 in *.
  destruct (read_total data (hdr h + 110) (namesize h)) as (b & -> & _); [lia..|]. by eauto.
Qed.
Lemma contents_total data base limit h :
  header_ok limit base h -> 0 <= base -> limit <= Z.of_nat (length data) -> exists b, contents data h = Ok b.
Proof.
  intros [<- H1 H2 H3 H4 H5] Hb Hl. unfold contents. change sizeof_cpio_header with 110 in *.
  destruct (read_total data (hdr h + 110 + namesize h + name_padding h) (filesize h)) as (b & -> & _); [lia..|]. by eauto.
Qed.

(** An entry the loops may meet. *)
Definition entry_ok (limit base : Z) (r : get_entry_result) : Prop :=
  match entry r with Some h => header_ok limit base h | None => header_base r = Some base end.

Lemma next_total data base limit h :
  header_ok limit base h -> 0 <= base -> limit <= Z.of_nat (length data) ->
  exists base' r, next data h limit = Ok r /\ entry_ok limit base' r /\ base + 110 <= base' < limit.
Proof.
  intros [<- H1 H2 H3 H4 H5] Hb Hl. unfold next. change sizeof_cpio_header with 110 in *.
  destruct (get_entry_total data (hdr h + 110 + namesize h + name_padding h + filesize h + file_padding h) limit) as (r & E & H); [lia|done|].
  eexists _, r. split; [done|]. split; [done|]. lia.
Qed.

Lemma try_loop_total fuel data base limit size b0 r :
  entry_ok limit base r -> 0 <= base <= limit -> limit <= Z.of_nat (length data) -> limit - base < Z.of_nat fuel ->
  b0 <= base ->
  exists t, try_cpio_loop fuel data b0 limit size r = Ok t /\
    match archive t with
    | Some c => cpio_base c = b0 /\ cpio_limit c = limit
    | None => 0 <= header_offset t <= limit - b0
    end.
Proof.
  revert base size r. induction fuel as [|n IH]; intros base size r He Hb Hl Hf H0; [lia|].
  cbn [try_cpio_loop]. unfold entry_ok in He. destruct (entry r) as [h|].
  - destruct (filename_total data base limit h He) as (nm & ->); [lia..|].
    destruct (sv_eq nm trailer_name); [eexists; split; [done|]; done|].
    destruct (next_total data base limit h He) as (b' & r' & -> & He' & Hb'); [lia..|].
    apply (IH b'); [done|lia..].
  - rewrite He. eexists. split; [done|]. cbn. lia.
Qed.
Lemma lookup_loop_total fuel data base limit name r :
  entry_ok limit base r -> 0 <= base <= limit -> limit <= Z.of_nat (length data) -> limit - base < Z.of_nat fuel ->
  exists t, lookup_loop fuel data limit name r = Ok t.
Proof.
  revert base r. induction fuel as [|n IH]; intros base r He Hb Hl Hf; [lia|].
  cbn [lookup_loop]. unfold entry_ok in He. destruct (entry r) as [h|]; [|by eauto].
  destruct (filename_total data base limit h He) as (nm & ->); [lia..|].
  destruct (is_file h && sv_eq nm name).
  { destruct (contents_total data base limit h He) as (c & ->); [lia..|]. by eauto. }
  destruct (sv_eq nm trailer_name); [by eauto|].
  destruct (next_total data base limit h He) as (b' & r' & -> & He' & Hb'); [lia..|].
  apply (IH b'); [done|lia..].
Qed.

(** Whatever the bytes are, [try_cpio] ends, never reads outside of them, and
    either gives an archive over exactly the range it was given or the offset,
    within that range, of the header it stopped at; a lookup in the archive ends
    and stays within it too. *)
Theorem cpio_reader_safe data name :
  exists t, try_cpio data 0 (Z.of_nat (length data)) = Ok t /\
    match archive t with
    | Some c => cpio_base c = 0 /\ cpio_limit c = Z.of_nat (length data) /\ exists o, cpio_lookup data c name = Ok o
    | None => 0 <= header_offset t <= Z.of_nat (length data)
    end.
Proof.
  unfold try_cpio. rewrite Z.add_0_l.
  destruct (get_entry_total data 0 (Z.of_nat (length data))) as (r & E & Hr); [lia|lia|]. rewrite E.
  destruct (try_loop_total (cpio_fuel data) data 0 (Z.of_nat (length data)) 0 0 r Hr) as (t & Et & Ht);
    [lia|lia|unfold cpio_fuel; lia|lia|].
  exists t. split; [done|]. destruct (archive t) as [c|]; [|by rewrite Z.sub_0_r in Ht]. destruct Ht as [B1 B2].
  split; [done|]. split; [done|]. unfold cpio_lookup. rewrite B1, B2, E.
  apply (lookup_loop_total _ data 0 (Z.of_nat (length data)) name r Hr); [lia|lia|unfold cpio_fuel; lia].
Qed.

(** ** The format *)

(** [n] hexadecimal digits, as the archiver writes them. *)
Definition hex_char (d : Z) : Z := if d <? 10 then 48 + d else 55 + d.
Fixpoint hex (n : nat) (v : Z) : bytes :=
  match n with O => [] | S n' => hex n' (v / 16) ++ [hex_char (v mod 16)] end.

Lemma hex_length n v : length (hex n v) = n.
Proof. revert v. induction n as [|n IH]; intros v; [done|]. cbn. rewrite length_app, IH. cbn. lia. Qed.
Lemma hex_char_value d : 0 <= d < 16 -> to_value (hex_char d) = d.
Proof.
  intros Hd. unfold hex_char, to_value. destruct (Z.ltb_spec d 10).
  - rewrite !(proj2 (Z.leb_le _ _)) by lia. cbn [andb]. lia.
  - rewrite (proj2 (Z.leb_le 48 _)), (proj2 (Z.leb_gt (55 + d) 57)), (proj2 (Z.leb_gt 97 _)), !(proj2 (Z.leb_le _ _)) by lia. cbn [andb]. lia.
Qed.
Lemma from_digits_hex n v rest ptr :
  (n <= 8)%nat -> 0 <= v < 16 ^ Z.of_nat n ->
  from_digits uint64_t 16 (hex n v ++ rest) 0 ptr false = from_digits uint64_t 16 rest v (ptr + Z.of_nat n) false.
Proof.
  revert v rest ptr. induction n as [|n IH]; intros v rest ptr Hn Hv.
  - cbn. f_equal; lia.
  - rewrite Nat2Z.inj_succ, Z.pow_succ_r in Hv by lia. cbn [hex]. rewrite <- app_assoc.
    pose proof (Z.div_mod v 16 ltac:(lia)). pose proof (Z.mod_pos_bound v 16 ltac:(lia)).
    assert (0 <= v / 16 < 16 ^ Z.of_nat n) by lia.
    rewrite IH by lia. cbn [app from_digits]. rewrite hex_char_value by done.
    rewrite (proj2 (Z.eqb_neq _ (-1))), (proj2 (Z.leb_gt 16 _)) by lia. cbn [orb].
    assert (16 ^ Z.of_nat n <= 16 ^ 7) by (apply Z.pow_le_mono_r; lia).
    change (type_max uint64_t / 10) with 1844674407370955161.
    rewrite (proj2 (Z.ltb_ge _ _)) by (destruct (_ =? 0); lia).
    change (convert uint64_t ?x) with (Ok (u64 x)). rewrite u64_id by (unfold is_u64; lia).
    replace (v / 16 * 16 + v mod 16) with v by lia. f_equal. lia.
Qed.
Lemma from_chars_hex v : 0 <= v < 2 ^ 32 -> from_chars uint64_t (hex 8 v) 16 = Ok (mkFrom 8 no_error (Some v)).
Proof.
  intros Hv. pose proof (from_digits_hex 8 v [] 0 ltac:(lia) ltac:(done)) as E. rewrite app_nil_r in E.
  pose proof (hex_length 8 v) as L. unfold from_chars. destruct (hex 8 v) as [|c s]; [done|].
  cbn [andb uint64_t is_signed]. by rewrite E.
Qed.

(** An entry as an archiver stores it; the fields the reader skips are any
    bytes of their size. *)
Record file : Type := mkFile {
  f_mode : Z;
  f_name : bytes;
  f_contents : bytes;
  f_inode : bytes;
  f_ids : bytes;
  f_devs : bytes;
  f_check : bytes
}.
Record file_ok (f : file) : Prop := {
  fo_mode : 0 <= f_mode f < 2 ^ 32;
  fo_name : byte_list (f_name f) /\ 0 ∉ f_name f;
  fo_name_len : Z.of_nat (S (length (f_name f))) < 2 ^ 32;
  fo_contents : Z.of_nat (length (f_contents f)) < 2 ^ 32;
  fo_inode : length (f_inode f) = 8%nat;
  fo_ids : length (f_ids f) = 32%nat;
  fo_devs : length (f_devs f) = 32%nat;
  fo_check : length (f_check f) = 8%nat
}.

Definition padding (n : Z) : Z := - n mod 4.
Definition zeros (n : Z) : bytes := replicate (Z.to_nat n) 0.
Definition stored_name (f : file) : bytes := f_name f ++ [0].
Definition store (f : file) : bytes :=
  let ns := Z.of_nat (length (stored_name f)) in
  let fs := Z.of_nat (length (f_contents f)) in
  magic ++ f_inode f ++ hex 8 (f_mode f) ++ f_ids f ++ hex 8 fs ++ f_devs f ++ hex 8 ns ++ f_check f ++
  stored_name f ++ zeros (padding (110 + ns)) ++ f_contents f ++ zeros (padding fs).

Lemma padding_code n : is_u64 n -> u64 (4 - n mod 4) mod 4 = padding n.
Proof.
  intros Hn. unfold padding. pose proof (Z.mod_pos_bound n 4 ltac:(lia)) as B.
  rewrite u64_id by (unfold is_u64; lia). pose proof (Z.div_mod n 4 ltac:(lia)) as D.
  rewrite (Z.mod_unique_pos (- n) 4 (- (n / 4) - 1 + (if n mod 4 =? 0 then 1 else 0)) ((4 - n mod 4) mod 4)); [done|apply Z.mod_pos_bound; lia|].
  destruct (Z.eqb_spec (n mod 4) 0) as [E|]; [rewrite E; change ((4 - 0) mod 4) with 0; lia|]. rewrite Z.mod_small by lia. lia.
Qed.
Lemma padding_bound n : 0 <= padding n < 4.
Proof. unfold padding. apply Z.mod_pos_bound. lia. Qed.
Lemma zeros_length n : 0 <= n -> Z.of_nat (length (zeros n)) = n.
Proof. intros. unfold zeros. rewrite length_replicate. lia. Qed.

(** ** Reading a stored entry *)

Definition header_of (base : Z) (f : file) : header :=
  let ns := Z.of_nat (length (stored_name f)) in
  let fs := Z.of_nat (length (f_contents f)) in
  mkHeader base ns (padding (110 + ns)) fs (padding fs) (f_mode f).

(** Splits a list of known pieces at a piece: the pieces before it are [a], the
    ones after it are what remains. *)
Ltac pieces a :=
  eapply (read_at _ a); [rewrite <- ?app_assoc; reflexivity|rewrite ?length_app, ?hex_length; cbn [length magic]; lia|rewrite ?hex_length; cbn; lia].

Section stored.
Context (f : file) (pre post : bytes) (Hf : file_ok f).
Let data := pre ++ store f ++ post.
Let base := Z.of_nat (length pre).

Lemma parse_stored off v :
  0 <= v < 2 ^ 32 -> read_bytes data off 8 = Ok (hex 8 v) -> parse_field data off = Ok (Some v).
Proof using Type. intros Hv E. unfold parse_field. rewrite E, from_chars_hex by done. done. Qed.

Lemma stored_name_length : Z.of_nat (length (stored_name f)) = Z.of_nat (length (f_name f)) + 1.
Proof using Type. clear. unfold stored_name. rewrite length_app. cbn. lia. Qed.

Lemma store_length :
  Z.of_nat (length (store f)) = 110 + Z.of_nat (length (stored_name f)) + padding (110 + Z.of_nat (length (stored_name f)))
    + Z.of_nat (length (f_contents f)) + padding (Z.of_nat (length (f_contents f))).
Proof using Hf.
  clear base data pre post. destruct Hf as [_ _ _ _ H1 H2 H3 H4]. unfold store. rewrite !length_app, !hex_length, !Nat2Z.inj_add.
  rewrite !zeros_length by apply padding_bound. rewrite H1, H2, H3, H4. cbn [length magic]. lia.
Qed.

Lemma get_entry_stored :
  post <> [] -> get_entry data base (Z.of_nat (length data)) = Ok (mkEntry (Some (header_of base f)) "" None).
Proof using Hf.
  intros Hp. pose proof store_length as SL. pose proof Hf as [Hm [Hb Hz] Hn Hc H1 H2 H3 H4].
  pose proof stored_name_length as NL.
  pose proof (padding_bound (110 + Z.of_nat (length (stored_name f)))) as P1.
  pose proof (padding_bound (Z.of_nat (length (f_contents f)))) as P2.
  assert (Hlen : base + Z.of_nat (length (store f)) < Z.of_nat (length data)).
  { subst data base. rewrite !length_app. destruct post; [done|]. cbn [length]. lia. }
  unfold get_entry. change sizeof_cpio_header with 110 in *. rewrite (proj2 (Z.leb_gt _ _)) by lia.
  assert (E0 : read_bytes data (base + off_magic) 6 = Ok magic).
  { subst data base. unfold store, off_magic. pieces pre. }
  rewrite E0. change (sv_eq magic magic) with true. cbn [negb].
  rewrite (parse_stored (base + off_mode) (f_mode f)); [|done|].
  2:{ subst data base. unfold store. change off_mode with 14. pieces (pre ++ magic ++ f_inode f). }
  rewrite (parse_stored (base + off_namesize) (Z.of_nat (length (stored_name f)))); [|lia|].
  2:{ subst data base. unfold store. change off_namesize with 94.
      pieces (pre ++ magic ++ f_inode f ++ hex 8 (f_mode f) ++ f_ids f ++ hex 8 (Z.of_nat (length (f_contents f))) ++ f_devs f). }
  rewrite (parse_stored (base + off_filesize) (Z.of_nat (length (f_contents f)))); [|lia|].
  2:{ subst data base. unfold store. change off_filesize with 54. pieces (pre ++ magic ++ f_inode f ++ hex 8 (f_mode f) ++ f_ids f). }
  cbv zeta. rewrite (u64_id (110 + _)) by (unfold is_u64; lia). rewrite !padding_code by (unfold is_u64; lia).
  rewrite (proj2 (Z.leb_gt _ _)) by lia. reflexivity.
Qed.

Lemma filename_stored : filename data (header_of base f) = Ok (stored_name f).
Proof using Hf.
  pose proof Hf as [_ _ _ _ H1 H2 H3 H4]. unfold filename, header_of. cbn [hdr namesize]. change sizeof_cpio_header with 110.
  subst data base. unfold store.
  pieces (pre ++ magic ++ f_inode f ++ hex 8 (f_mode f) ++ f_ids f ++ hex 8 (Z.of_nat (length (f_contents f))) ++ f_devs f
    ++ hex 8 (Z.of_nat (length (stored_name f))) ++ f_check f).
Qed.
Lemma contents_stored : contents data (header_of base f) = Ok (f_contents f).
Proof using Hf.
  pose proof Hf as [_ _ _ _ H1 H2 H3 H4]. unfold contents, header_of. cbn [hdr namesize name_padding filesize].
  pose proof (zeros_length (padding (110 + Z.of_nat (length (stored_name f)))) (proj1 (padding_bound _))) as ZL.
  change sizeof_cpio_header with 110. subst data base. unfold store.
  pieces (pre ++ magic ++ f_inode f ++ hex 8 (f_mode f) ++ f_ids f ++ hex 8 (Z.of_nat (length (f_contents f))) ++ f_devs f
    ++ hex 8 (Z.of_nat (length (stored_name f))) ++ f_check f ++ stored_name f ++ zeros (padding (110 + Z.of_nat (length (stored_name f))))).
Qed.
Lemma next_stored limit :
  next data (header_of base f) limit = get_entry data (base + Z.of_nat (length (store f))) limit.
Proof using Hf.
  unfold next, header_of. cbn [hdr namesize name_padding filesize file_padding]. rewrite store_length.
  change sizeof_cpio_header with 110. f_equal. lia.
Qed.
End stored.

(** ** Reading an archive *)

Lemma stored_name_eq f q :
  file_ok f -> byte_list q -> 0 ∉ q -> q <> [] -> sv_eq (stored_name f) q = bool_decide (q `prefix_of` f_name f).
Proof.
  intros Hf Bq Zq Nq. destruct Hf as [_ [Hb Hz] _ _ _ _ _ _].
  assert (Bn : byte_list (stored_name f)) by (apply Forall_app; split; [done|repeat constructor; unfold is_byte; lia]).
  apply eq_true_iff_eq. rewrite sv_eq_spec by done. rewrite bool_decide_eq_true. unfold compatible, stored_name. split.
  - intros [[[k ->]|[k E]] _].
    + exfalso. apply Zq. rewrite !elem_of_app. left. right. by constructor.
    + destruct k as [|x k _] using rev_ind.
      * exfalso. apply Zq. rewrite app_nil_r in E. rewrite <- E, elem_of_app. right. by constructor.
      * rewrite app_assoc in E. apply app_inj_tail in E as [-> _]. by apply prefix_app_r.
  - intros [k E]. split; [right; exists (k ++ [0]); by rewrite E, <- app_assoc|].
    split; [by destruct (f_name f)|done].
Qed.

Definition is_regular (f : file) : bool := Z.land (f_mode f) 32768 =? 32768.
Definition stored (fs : list file) (trailer : file) (tail : bytes) : bytes :=
  concat (store <$> fs) ++ store trailer ++ tail.
Definition regular_count (fs : list file) : nat := length (List.filter is_regular fs).
Definition first_match (q : bytes) (fs : list file) : option file :=
  List.find (fun f => is_regular f && bool_decide (q `prefix_of` f_name f)) fs.

(** An archive as it is written: entries, none of which is named like the
    trailer, the trailer, and some bytes after it. *)
Record archive_ok (fs : list file) (trailer : file) (tail : bytes) : Prop := {
  ao_files : Forall (fun f => file_ok f /\ ~ trailer_name `prefix_of` f_name f) fs;
  ao_trailer : file_ok trailer /\ f_name trailer = trailer_name;
  ao_tail : tail <> []
}.

Lemma trailer_text : byte_list trailer_name /\ 0 ∉ trailer_name /\ trailer_name <> [].
Proof. split; [repeat constructor; unfold is_byte; lia|]. split; [apply (bool_decide_unpack _); by vm_compute|done]. Qed.
Lemma stored_trailer f : file_ok f -> sv_eq (stored_name f) trailer_name = bool_decide (trailer_name `prefix_of` f_name f).
Proof. intros Hf. destruct trailer_text as (H1 & H2 & H3). by apply stored_name_eq. Qed.
Lemma stored_length fs trailer tail : (length fs <= length (stored fs trailer tail))%nat.
Proof.
  unfold stored. rewrite length_app. induction fs as [|f fs IH]; [cbn; lia|]. cbn [fmap list_fmap concat]. rewrite length_app.
  assert (1 <= length (store f))%nat by (unfold store; rewrite length_app; cbn; lia). cbn [length]. lia.
Qed.

Lemma try_loop_stored fs trailer tail pre fuel (k : nat) :
  let data := pre ++ stored fs trailer tail in
  archive_ok fs trailer tail -> (length fs < fuel)%nat -> Z.of_nat (k + length fs) < 2 ^ 63 ->
  exists r, get_entry data (Z.of_nat (length pre)) (Z.of_nat (length data)) = Ok r /\
  try_cpio_loop fuel data 0 (Z.of_nat (length data)) (Z.of_nat k) r =
    Ok (mkTry (Some (mkCpio (Z.of_nat (k + regular_count (fs ++ [trailer]))) 0 (Z.of_nat (length data)))) "" 0).
Proof.
  cbv zeta. revert pre fuel k. induction fs as [|f fs IH]; intros pre fuel k [Hfs [Ht Hn] Htl] Hfu Hk; destruct fuel as [|fuel]; try (cbn in Hfu; lia).
  - unfold stored. cbn [fmap list_fmap concat app]. rewrite get_entry_stored by done. eexists. split; [done|].
    cbn [try_cpio_loop entry]. rewrite filename_stored by done. rewrite stored_trailer, Hn by done.
    rewrite bool_decide_true by done. do 5 f_equal. unfold is_file, header_of, regular_count, is_regular. cbn [mode List.filter].
    destruct (_ =? _); cbn [length]; [rewrite u64_id by (unfold is_u64; cbn in Hk; lia)|]; lia.
  - apply Forall_cons in Hfs as [[Hf Hft] Hfs]. unfold stored. cbn [fmap list_fmap concat]. rewrite <- app_assoc.
    fold (stored fs trailer tail).
    assert (Hne : stored fs trailer tail <> []) by (unfold stored, store; by destruct (concat _)).
    rewrite get_entry_stored by done. eexists. split; [done|]. cbn [try_cpio_loop entry].
    rewrite filename_stored by done. rewrite stored_trailer, bool_decide_false by done. rewrite next_stored by done.
    assert (E : pre ++ store f ++ stored fs trailer tail = (pre ++ store f) ++ stored fs trailer tail) by by rewrite app_assoc.
    rewrite E. replace (Z.of_nat (length pre) + Z.of_nat (length (store f))) with (Z.of_nat (length (pre ++ store f))) by (rewrite length_app; lia).
    destruct (IH (pre ++ store f) fuel (k + (if is_regular f then 1 else 0))%nat) as (r & -> & E2);
      [done|cbn in Hfu; lia|cbn in Hk; destruct (is_regular f); lia|].
    change (is_file _) with (is_regular f).
    replace (if is_regular f then u64 (Z.of_nat k + 1) else Z.of_nat k) with (Z.of_nat (k + (if is_regular f then 1 else 0))).
    2:{ cbn in Hk. destruct (is_regular f); [rewrite u64_id by (unfold is_u64; lia)|]; lia. }
    rewrite E2. do 5 f_equal. unfold regular_count. cbn [app List.filter]. destruct (is_regular f); cbn [length]; lia.
Qed.

Lemma lookup_loop_stored fs trailer tail pre fuel q :
  let data := pre ++ stored fs trailer tail in
  archive_ok fs trailer tail -> (length fs < fuel)%nat -> byte_list q -> 0 ∉ q -> q <> [] ->
  exists r, get_entry data (Z.of_nat (length pre)) (Z.of_nat (length data)) = Ok r /\
  lookup_loop fuel data (Z.of_nat (length data)) q r = Ok (f_contents <$> first_match q (fs ++ [trailer])).
Proof.
  cbv zeta. intros H Hfu Bq Zq Nq. revert pre fuel H Hfu. induction fs as [|f fs IH]; intros pre fuel [Hfs [Ht Hn] Htl] Hfu; destruct fuel as [|fuel]; try (cbn in Hfu; lia).
  - unfold stored. cbn [fmap list_fmap concat app]. rewrite get_entry_stored by done. eexists. split; [done|].
    cbn [lookup_loop entry]. rewrite filename_stored by done. rewrite stored_trailer, stored_name_eq, Hn by done.
    change (is_file _) with (is_regular trailer). unfold first_match. cbn [List.find]. rewrite Hn.
    destruct (is_regular trailer && _); [by rewrite contents_stored|]. by rewrite bool_decide_true.
  - apply Forall_cons in Hfs as [[Hf Hft] Hfs]. unfold stored. cbn [fmap list_fmap concat]. rewrite <- app_assoc.
    fold (stored fs trailer tail).
    assert (Hne : stored fs trailer tail <> []) by (unfold stored, store; by destruct (concat _)).
    rewrite get_entry_stored by done. eexists. split; [done|]. cbn [lookup_loop entry].
    rewrite filename_stored by done. rewrite stored_trailer, stored_name_eq, (bool_decide_false (trailer_name `prefix_of` _)) by done.
    change (is_file _) with (is_regular f). unfold first_match. cbn [app List.find].
    destruct (is_regular f && _); [by rewrite contents_stored|]. rewrite next_stored by done.
    assert (E : pre ++ store f ++ stored fs trailer tail = (pre ++ store f) ++ stored fs trailer tail) by by rewrite app_assoc.
    rewrite E. replace (Z.of_nat (length pre) + Z.of_nat (length (store f))) with (Z.of_nat (length (pre ++ store f))) by (rewrite length_app; lia).
    destruct (IH (pre ++ store f) fuel) as (r & -> & E2); [done|cbn in Hfu; lia|]. exact E2.
Qed.

(** C39: an archive of any entries, each stored in the new ASCII format, followed
    by the trailer, is accepted; the number of its regular files is counted, and
    looking up a name (not empty, without zero bytes) gives the contents of the
    first regular file whose name begins with it, or nothing if there is none. *)
Theorem cpio_lookup_stored fs trailer tail q :
  archive_ok fs trailer tail -> Z.of_nat (length fs) < 2 ^ 62 -> byte_list q -> 0 ∉ q -> q <> [] ->
  let data := stored fs trailer tail in
  let c := mkCpio (Z.of_nat (regular_count (fs ++ [trailer]))) 0 (Z.of_nat (length data)) in
  try_cpio data 0 (Z.of_nat (length data)) = Ok (mkTry (Some c) "" 0) /\
  cpio_lookup data c q = Ok (f_contents <$> first_match q (fs ++ [trailer])).
Proof.
  intros H Hn Bq Zq Nq data c. pose proof (stored_length fs trailer tail) as SL. split.
  - unfold try_cpio. rewrite Z.add_0_l.
    destruct (try_loop_stored fs trailer tail [] (cpio_fuel data) 0 H) as (r & E1 & E2); [unfold cpio_fuel, data; lia|lia|].
    cbn [app length] in E1. change (Z.of_nat 0) with 0 in E1. subst data. rewrite E1. exact E2.
  - unfold cpio_lookup. cbn [cpio_base cpio_limit].
    destruct (lookup_loop_stored fs trailer tail [] (cpio_fuel data) q H) as (r & E1 & E2); [unfold cpio_fuel, data; lia|done..|].
    cbn [app length] in E1. change (Z.of_nat 0) with 0 in E1. subst data c. cbn [cpio_base cpio_limit]. rewrite E1. exact E2.
Qed.

(** ** Runs *)

Definition sample (mode : Z) (name contents : bytes) : file :=
  mkFile mode name contents (hex 8 7) (hex 32 0) (hex 32 0) (hex 8 0).
Definition sample_trailer : file := sample 0 trailer_name [].
(** A directory [d], the files [initx] and [init]. *)
Definition sample_files : list file :=
  [sample 16877 [100] []; sample 33188 [105; 110; 105; 116; 120] [1; 2; 3]; sample 33188 [105; 110; 105; 116] [4; 5]].

Lemma sample_ok mode name contents :
  0 <= mode < 2 ^ 32 -> byte_list name -> 0 ∉ name -> (length name < 100)%nat -> (length contents < 100)%nat ->
  file_ok (sample mode name contents).
Proof. intros. split; cbn; try done; lia. Qed.
Lemma sample_archive_ok : archive_ok sample_files sample_trailer [0].
Proof.
  split; [|split; [|done]|done].
  - repeat (apply Forall_cons; split; [split; [apply sample_ok; first [lia|cbn; lia|repeat constructor; unfold is_byte; lia|apply (bool_decide_unpack _); by vm_compute]|intros [k [=]]]|]). constructor.
  - apply sample_ok; first [lia|cbn; lia|apply trailer_text].
Qed.
Lemma cpio_lookup_stored_witness :
  let data := stored sample_files sample_trailer [0] in
  let c := mkCpio (Z.of_nat (regular_count (sample_files ++ [sample_trailer]))) 0 (Z.of_nat (length data)) in
  try_cpio data 0 (Z.of_nat (length data)) = Ok (mkTry (Some c) "" 0) /\
  cpio_lookup data c [105; 110; 105; 116] = Ok (f_contents <$> first_match [105; 110; 105; 116] (sample_files ++ [sample_trailer])).
Proof.
  apply (cpio_lookup_stored sample_files sample_trailer [0] [105; 110; 105; 116] sample_archive_ok).
  - cbn. lia.
  - repeat constructor; unfold is_byte; lia.
  - apply (bool_decide_unpack _). by vm_compute.
  - done.
Defined.

(** Looking up [init] in that archive gives the contents of [initx]. *)
Example lookup_prefix :
  let data := stored sample_files sample_trailer [0] in
  match try_cpio data 0 (Z.of_nat (length data)) with
  | Ok t => match archive t with
            | Some c => cpio_size c = 2 /\ cpio_lookup data c [105; 110; 105; 116] = Ok (Some [1; 2; 3])
            | None => False
            end
  | Err _ => False
  end.
Proof. vm_compute. auto. Qed.
