(* ===== verification/ElfTypes.v ===== *)
(** * The types of the ELF library, libraries/elf/include/elf/types.h

    The enumerations, the structures with the offsets of their fields, the
    composition of relocation descriptions and the hash of symbol names. *)
From S2P Require Import Prelude Text Bytes.

(** ** Enumerations *)

(** A C++ enumeration with a fixed underlying type has its enumerators and, for
    every other value of that type, a value without a name. *)
Class Enumeration (T : Type) := {
  enum_val : T -> Z;
  enumerators : list T;
  enum_unnamed : Z -> T;
  enum_unnamed_val w : enum_val (enum_unnamed w) = w
}.

Definition static_cast {T} `{Enumeration T} (w : Z) : T :=
  match List.find (fun t => enum_val t =? w) enumerators with Some t => t | None => enum_unnamed w end.

Lemma val_static_cast {T} `{Enumeration T} w : enum_val (static_cast w) = w.
Proof.
  unfold static_cast. destruct (List.find _ _) as [t|] eqn:E; [|apply enum_unnamed_val].
  apply List.find_some in E as [_ E]. by apply Z.eqb_eq.
Qed.

Module os_abi.
Inductive os_abi_type : Type :=
| sysv | hpux | netbsd | linux | hurd | solaris | aix | irix | freebsd | tru64 | novell_modesto
| openbsd | openvms | standalone | unnamed (w : Z).
Definition os_abi_type_val (t : os_abi_type) : Z :=
  match t with
  | sysv => 0 | hpux => 1 | netbsd => 2 | linux => 3 | hurd => 4 | solaris => 6 | aix => 7
  | irix => 8 | freebsd => 9 | tru64 => 10 | novell_modesto => 11 | openbsd => 12 | openvms => 13
  | standalone => 255 | unnamed w => w
  end.
Definition os_abi_type_named : list os_abi_type :=
  [sysv; hpux; netbsd; linux; hurd; solaris; aix; irix; freebsd; tru64; novell_modesto; openbsd;
   openvms; standalone].
#[global] Instance os_abi_type_enumeration : Enumeration os_abi_type :=
  {| enum_val := os_abi_type_val; enumerators := os_abi_type_named; enum_unnamed := unnamed; enum_unnamed_val w := eq_refl |}.
End os_abi.

Module header_type.
Inductive header_kind : Type :=
| none | relocatable | executable | shared_object | core_file | os_specific_low | os_specific_high
| cpu_specific_low | cpu_specific_high | unnamed (w : Z).
Definition header_kind_val (t : header_kind) : Z :=
  match t with
  | none => 0 | relocatable => 1 | executable => 2 | shared_object => 3 | core_file => 4
  | os_specific_low => 0xfe00 | os_specific_high => 0xfeff | cpu_specific_low => 0xff00
  | cpu_specific_high => 0xffff | unnamed w => w
  end.
Definition header_kind_named : list header_kind :=
  [none; relocatable; executable; shared_object; core_file; os_specific_low; os_specific_high;
   cpu_specific_low; cpu_specific_high].
#[global] Instance header_kind_enumeration : Enumeration header_kind :=
  {| enum_val := header_kind_val; enumerators := header_kind_named; enum_unnamed := unnamed; enum_unnamed_val w := eq_refl |}.
End header_type.

Module machine_type.
Inductive machine_kind : Type :=
| unknown | amd64 | aarch64 | riscv | unnamed (w : Z).
Definition machine_kind_val (t : machine_kind) : Z :=
  match t with
  | unknown => 0 | amd64 => 62 | aarch64 => 183 | riscv => 243 | unnamed w => w
  end.
Definition machine_kind_named : list machine_kind :=
  [unknown; amd64; aarch64; riscv].
#[global] Instance machine_kind_enumeration : Enumeration machine_kind :=
  {| enum_val := machine_kind_val; enumerators := machine_kind_named; enum_unnamed := unnamed; enum_unnamed_val w := eq_refl |}.
End machine_type.

Module section_types.
Inductive section_type : Type :=
| null | progbits | symtab | strtab | rela | hash | dynamic | note | nobits | rel | shlib | dynsym
| init_array | fini_array | preinit_array | os_specific_low | gnu_hash | os_specific_high
| cpu_specific_low | amd64_unwind | cpu_specific_high | unnamed (w : Z).
Definition section_type_val (t : section_type) : Z :=
  match t with
  | null => 0 | progbits => 1 | symtab => 2 | strtab => 3 | rela => 4 | hash => 5 | dynamic => 6
  | note => 7 | nobits => 8 | rel => 9 | shlib => 10 | dynsym => 11 | init_array => 14
  | fini_array => 15 | preinit_array => 16 | os_specific_low => 0x60000000 | gnu_hash => 0x6ffffff6
  | os_specific_high => 0x6fffffff | cpu_specific_low => 0x70000000 | amd64_unwind => 0x70000001
  | cpu_specific_high => 0x7fffffff | unnamed w => w
  end.
Definition section_type_named : list section_type :=
  [null; progbits; symtab; strtab; rela; hash; dynamic; note; nobits; rel; shlib; dynsym;
   init_array; fini_array; preinit_array; os_specific_low; gnu_hash; os_specific_high;
   cpu_specific_low; amd64_unwind; cpu_specific_high].
#[global] Instance section_type_enumeration : Enumeration section_type :=
  {| enum_val := section_type_val; enumerators := section_type_named; enum_unnamed := unnamed; enum_unnamed_val w := eq_refl |}.
End section_types.

Module segment_types.
Inductive segment_type : Type :=
| null | load | dynamic | interp | note | shlib | phdr | os_specific_low | gnu_eh_frame | gnu_stack
| gnu_relro | os_specific_high | cpu_specific_low | cpu_specific_high | unnamed (w : Z).
Definition segment_type_val (t : segment_type) : Z :=
  match t with
  | null => 0 | load => 1 | dynamic => 2 | interp => 3 | note => 4 | shlib => 5 | phdr => 6
  | os_specific_low => 0x60000000 | gnu_eh_frame => 0x6474e550 | gnu_stack => 0x6474e551
  | gnu_relro => 0x6474e552 | os_specific_high => 0x6fffffff | cpu_specific_low => 0x70000000
  | cpu_specific_high => 0x7fffffff | unnamed w => w
  end.
Definition segment_type_named : list segment_type :=
  [null; load; dynamic; interp; note; shlib; phdr; os_specific_low; gnu_eh_frame; gnu_stack;
   gnu_relro; os_specific_high; cpu_specific_low; cpu_specific_high].
#[global] Instance segment_type_enumeration : Enumeration segment_type :=
  {| enum_val := segment_type_val; enumerators := segment_type_named; enum_unnamed := unnamed; enum_unnamed_val w := eq_refl |}.
End segment_types.

Module dynamic_entry_types.
Inductive dynamic_entry_type : Type :=
| null | needed | pltrel_size | pltgot | hash | strtab | symtab | rela | rela_size
| rela_entry_size | str_size | sym_entry_size | init | fini | soname | rpath | symbolic | rel
| rel_size | rel_entry_size | pltrel | debug | textrel | jmprel | bind_now | init_array
| fini_array | init_array_size | fini_array_size | runpath | flags | encoding | preinit_array
| preinit_array_size | os_specific_low | gnu_hash | rela_count | flags_1 | os_specific_high
| cpu_specific_low | cpu_specific_high | unnamed (w : Z).
Definition dynamic_entry_type_val (t : dynamic_entry_type) : Z :=
  match t with
  | null => 0 | needed => 1 | pltrel_size => 2 | pltgot => 3 | hash => 4 | strtab => 5
  | symtab => 6 | rela => 7 | rela_size => 8 | rela_entry_size => 9 | str_size => 10
  | sym_entry_size => 11 | init => 12 | fini => 13 | soname => 14 | rpath => 15 | symbolic => 16
  | rel => 17 | rel_size => 18 | rel_entry_size => 19 | pltrel => 20 | debug => 21 | textrel => 22
  | jmprel => 23 | bind_now => 24 | init_array => 25 | fini_array => 26 | init_array_size => 27
  | fini_array_size => 28 | runpath => 29 | flags => 30 | encoding => 31 | preinit_array => 32
  | preinit_array_size => 33 | os_specific_low => 0x60000000 | gnu_hash => 0x6ffffef5
  | rela_count => 0x6ffffff9 | flags_1 => 0x6ffffffb | os_specific_high => 0x6fffffff
  | cpu_specific_low => 0x70000000 | cpu_specific_high => 0x7fffffff | unnamed w => w
  end.
Definition dynamic_entry_type_named : list dynamic_entry_type :=
  [null; needed; pltrel_size; pltgot; hash; strtab; symtab; rela; rela_size; rela_entry_size;
   str_size; sym_entry_size; init; fini; soname; rpath; symbolic; rel; rel_size;
   rel_entry_size; pltrel; debug; textrel; jmprel; bind_now; init_array; fini_array;
   init_array_size; fini_array_size; runpath; flags; encoding; preinit_array;
   preinit_array_size; os_specific_low; gnu_hash; rela_count; flags_1; os_specific_high;
   cpu_specific_low; cpu_specific_high].
#[global] Instance dynamic_entry_type_enumeration : Enumeration dynamic_entry_type :=
  {| enum_val := dynamic_entry_type_val; enumerators := dynamic_entry_type_named; enum_unnamed := unnamed; enum_unnamed_val w := eq_refl |}.
End dynamic_entry_types.

Module amd64.
Inductive amd64_reloc : Type :=
| R_X86_64_NONE | R_X86_64_64 | R_X86_64_PC32 | R_X86_64_GOT32 | R_X86_64_PLT32 | R_X86_64_COPY
| R_X86_64_GLOB_DAT | R_X86_64_JUMP_SLOT | R_X86_64_RELATIVE | R_X86_64_GOTPCREL | R_X86_64_32
| R_X86_64_32S | R_X86_64_16 | R_X86_64_PC16 | R_X86_64_8 | R_X86_64_PC8 | R_X86_64_DTPMOD64
| R_X86_64_DTPOFF64 | R_X86_64_TPOFF64 | R_X86_64_TLSGD | R_X86_64_TLSLD | R_X86_64_DTPOFF32
| R_X86_64_GOTTPOFF | R_X86_64_TPOFF32 | R_X86_64_PC64 | R_X86_64_GOTOFF64 | R_X86_64_GOTPC32
| R_X86_64_SIZE32 | R_X86_64_SIZE64 | R_X86_64_GOTPC32_TLSDESC | R_X86_64_TLSDESC_CALL
| R_X86_64_TLSDESC | R_X86_64_IRELATIVE | unnamed (w : Z).
Definition amd64_reloc_val (t : amd64_reloc) : Z :=
  match t with
  | R_X86_64_NONE => 0 | R_X86_64_64 => 1 | R_X86_64_PC32 => 2 | R_X86_64_GOT32 => 3
  | R_X86_64_PLT32 => 4 | R_X86_64_COPY => 5 | R_X86_64_GLOB_DAT => 6 | R_X86_64_JUMP_SLOT => 7
  | R_X86_64_RELATIVE => 8 | R_X86_64_GOTPCREL => 9 | R_X86_64_32 => 10 | R_X86_64_32S => 11
  | R_X86_64_16 => 12 | R_X86_64_PC16 => 13 | R_X86_64_8 => 14 | R_X86_64_PC8 => 15
  | R_X86_64_DTPMOD64 => 16 | R_X86_64_DTPOFF64 => 17 | R_X86_64_TPOFF64 => 18
  | R_X86_64_TLSGD => 19 | R_X86_64_TLSLD => 20 | R_X86_64_DTPOFF32 => 21 | R_X86_64_GOTTPOFF => 22
  | R_X86_64_TPOFF32 => 23 | R_X86_64_PC64 => 24 | R_X86_64_GOTOFF64 => 25 | R_X86_64_GOTPC32 => 26
  | R_X86_64_SIZE32 => 32 | R_X86_64_SIZE64 => 33 | R_X86_64_GOTPC32_TLSDESC => 34
  | R_X86_64_TLSDESC_CALL => 35 | R_X86_64_TLSDESC => 36 | R_X86_64_IRELATIVE => 37
  | unnamed w => w
  end.
Definition amd64_reloc_named : list amd64_reloc :=
  [R_X86_64_NONE; R_X86_64_64; R_X86_64_PC32; R_X86_64_GOT32; R_X86_64_PLT32; R_X86_64_COPY;
   R_X86_64_GLOB_DAT; R_X86_64_JUMP_SLOT; R_X86_64_RELATIVE; R_X86_64_GOTPCREL; R_X86_64_32;
   R_X86_64_32S; R_X86_64_16; R_X86_64_PC16; R_X86_64_8; R_X86_64_PC8; R_X86_64_DTPMOD64;
   R_X86_64_DTPOFF64; R_X86_64_TPOFF64; R_X86_64_TLSGD; R_X86_64_TLSLD; R_X86_64_DTPOFF32;
   R_X86_64_GOTTPOFF; R_X86_64_TPOFF32; R_X86_64_PC64; R_X86_64_GOTOFF64; R_X86_64_GOTPC32;
   R_X86_64_SIZE32; R_X86_64_SIZE64; R_X86_64_GOTPC32_TLSDESC; R_X86_64_TLSDESC_CALL;
   R_X86_64_TLSDESC; R_X86_64_IRELATIVE].
#[global] Instance amd64_reloc_enumeration : Enumeration amd64_reloc :=
  {| enum_val := amd64_reloc_val; enumerators := amd64_reloc_named; enum_unnamed := unnamed; enum_unnamed_val w := eq_refl |}.
End amd64.

(** ** Structures *)

(** [ident::field], [ident::ident_class] and [ident::data_encoding] *)
Definition ident_class_ : nat := 4.
Definition ident_data_encoding : nat := 5.
Definition ident_os_abi : nat := 7.
Definition ident_abi_version : nat := 8.
Definition class_64 : Z := 2.
Definition data_lsb : Z := 1.

Record header : Type := mkHeader {
  h_ident : bytes;
  h_type : Z;
  h_machine : Z;
  h_version : Z;
  h_entry : Z;
  h_phoff : Z;
  h_shoff : Z;
  h_flags : Z;
  h_ehsize : Z;
  h_phentsize : Z;
  h_phnum : Z;
  h_shentsize : Z;
  h_shnum : Z;
  h_shstrndx : Z
}.
Definition sizeof_header : Z := 64.

(** The header at the start of an image. *)
Definition load_header : M bytes header := fun data =>
  match read_bytes data 0 16 with
  | Err e => Err e
  | Ok ident =>
      (let* type := load 16 2 in
       let* machine := load 18 2 in
       let* version := load 20 4 in
       let* entry := load 24 8 in
       let* phoff := load 32 8 in
       let* shoff := load 40 8 in
       let* flags := load 48 4 in
       let* ehsize := load 52 2 in
       let* phentsize := load 54 2 in
       let* phnum := load 56 2 in
       let* shentsize := load 58 2 in
       let* shnum := load 60 2 in
       let* shstrndx := load 62 2 in
       ret (mkHeader ident type machine version entry phoff shoff flags ehsize phentsize phnum shentsize shnum shstrndx)) data
  end.

(** [struct section_header]: the offsets of the fields that are read. *)
Definition section_header_type : Z := 4.
Definition section_header_offset : Z := 24.
Definition section_header_size : Z := 32.
Definition sizeof_section_header : Z := 64.

(** [struct program_header_entry] *)
Definition program_header_type : Z := 0.
Definition program_header_offset : Z := 8.
Definition program_header_vaddr : Z := 16.
Definition program_header_filesz : Z := 32.
Definition program_header_memsz : Z := 40.
Definition sizeof_program_header_entry : Z := 56.

(** [struct symbol] *)
Definition symbol_name_field : Z := 0.
Definition symbol_value_field : Z := 8.
Definition sizeof_symbol : Z := 24.

(** [struct dynamic_entry]; the members of the union share their place. *)
Definition dynamic_entry_tag : Z := 0.
Definition dynamic_entry_un : Z := 8.
Definition sizeof_dynamic_entry : Z := 16.

(** [struct rel] and [struct rela] *)
Record rel : Type := mkRel { rel_offset : Z; rel_info : Z }.
Record rela : Type := mkRela { rela_offset : Z; rela_info : Z; rela_addend : Z }.
Definition sizeof_rel : Z := 16.
Definition sizeof_rela : Z := 24.
Definition load_rel (p : Z) : M bytes rel :=
  let* offset := load p 8 in
  let* info := load (p + 8) 8 in
  ret (mkRel offset info).
Definition load_rela (p : Z) : M bytes rela :=
  let* offset := load p 8 in
  let* info := load (p + 8) 8 in
  let* addend := load (p + 16) 8 in
  ret (mkRela offset info addend).

(** ** Relocation descriptions and the symbol hash *)

Definition rsym (info : Z) : Z := Z.shiftr info 32.
Definition rtype (info : Z) : Z := Z.land info 0xffffffff.
Definition rinfo (symbol_index type : Z) : Z :=
  u64 (u64 (Z.shiftl symbol_index 32) + Z.land type 0xfffffffff).

(** [hash]: [name] is what the pointer can read, and it is read up to its first
    zero. *)
Fixpoint hash_loop (name : bytes) (h : Z) : res Z :=
  match name with
  | [] => Err Fault
  | c :: name' =>
      if c =? 0 then Ok h
      else
        let h := u64 (u64 (Z.shiftl h 4) + c) in
        let g := Z.land h 0xf0000000 in
        let h := if g =? 0 then h else Z.lxor h (Z.shiftr g 24) in
        let h := Z.land h 0x0fffffff in
        hash_loop name' h
  end.
Definition hash (name : bytes) : res Z := hash_loop name 0.

(** ** Their correctness *)

Lemma is_u64_bits z i : is_u64 z -> 64 <= i -> Z.testbit z i = false.
Proof.
  intros [H0 H1] Hi. rewrite <- (Z.mod_small z (2 ^ 64)) by done. by apply Z.mod_pow2_bits_high; lia.
Qed.

Lemma rinfo_small s t : 0 <= s < 2 ^ 32 -> 0 <= t < 2 ^ 32 -> rinfo s t = s * 2 ^ 32 + t.
Proof.
  intros Hs Ht. unfold rinfo. rewrite Z.shiftl_mul_pow2 by lia.
  change 0xfffffffff with (Z.ones 36). rewrite Z.land_ones, Z.mod_small by lia.
  rewrite (u64_id (s * 2 ^ 32)) by (unfold is_u64; lia). apply u64_id. unfold is_u64; lia.
Qed.

Lemma rinfo_fields s t :
  0 <= s -> 0 <= t < 2 ^ 32 -> rsym (s * 2 ^ 32 + t) = s /\ rtype (s * 2 ^ 32 + t) = t.
Proof.
  intros Hs Ht. unfold rsym, rtype. rewrite Z.shiftr_div_pow2 by lia.
  change 0xffffffff with (Z.ones 32). rewrite Z.land_ones by lia. split.
  - rewrite Z.div_add_l by lia. rewrite Z.div_small by lia. lia.
  - rewrite Z.add_comm, Z_mod_plus_full, Z.mod_small by lia. done.
Qed.

(** The hash of the System V ABI, on 32-bit words. *)
Definition sysv_step (h c : Z) : Z :=
  let h := u32 (Z.shiftl h 4 + c) in
  let g := Z.land h 0xf0000000 in
  Z.land (Z.lxor h (Z.shiftr g 24)) (u32 (Z.lnot g)).
Definition sysv_hash (name : bytes) : Z := fold_left sysv_step name 0.

Lemma high_nibble_bit x i : 0 <= i -> Z.testbit (Z.land x 0xf0000000) i = (28 <=? i) && (i <? 32) && Z.testbit x i.
Proof.
  intros Hi. rewrite Z.land_spec. change 0xf0000000 with (Z.shiftl (Z.ones 4) 28).
  destruct (Z.leb_spec 28 i); cbn [andb].
  - rewrite Z.shiftl_spec, Z.testbit_ones_nonneg by lia.
    destruct (Z.ltb_spec (i - 28) 4), (Z.ltb_spec i 32); try lia; cbn; by rewrite ?andb_true_r, ?andb_false_r.
  - by rewrite Z.shiftl_spec_low, andb_false_r by lia.
Qed.

Lemma low_bits_bit x i : 0 <= i -> Z.testbit (Z.land x 0x0fffffff) i = (i <? 28) && Z.testbit x i.
Proof.
  intros Hi. rewrite Z.land_spec. change 0x0fffffff with (Z.ones 28).
  rewrite Z.testbit_ones_nonneg by lia. apply andb_comm.
Qed.

Lemma u32_bit x i : 0 <= i -> Z.testbit (u32 x) i = (i <? 32) && Z.testbit x i.
Proof.
  intros Hi. unfold u32, wrapu. rewrite Z.testbit_mod_pow2 by lia. done.
Qed.

Lemma hash_step_sysv h c : 0 <= h < 2 ^ 28 -> is_byte c ->
  let x := u64 (u64 (Z.shiftl h 4) + c) in
  let g := Z.land x 0xf0000000 in
  Z.land (if g =? 0 then x else Z.lxor x (Z.shiftr g 24)) 0x0fffffff = sysv_step h c.
Proof.
  intros Hh Hc x g. unfold is_byte in Hc.
  assert (x = Z.shiftl h 4 + c) as Hx.
  { unfold x. rewrite Z.shiftl_mul_pow2 by lia. rewrite (u64_id (h * 2 ^ 4)) by (unfold is_u64; lia).
    apply u64_id. unfold is_u64; lia. }
  assert ((if g =? 0 then x else Z.lxor x (Z.shiftr g 24)) = Z.lxor x (Z.shiftr g 24)) as ->.
  { destruct (Z.eqb_spec g 0) as [->|]; [|done]. by rewrite Z.shiftr_0_l, Z.lxor_0_r. }
  unfold sysv_step. rewrite <- Hx. clearbody x. unfold g. clear g Hx.
  apply Z.bits_inj'. intros i Hi. rewrite low_bits_bit by done.
  rewrite Z.land_spec, (u32_bit (Z.lnot _)), Z.lnot_spec, !Z.lxor_spec, !Z.shiftr_spec, !high_nibble_bit, !u32_bit by lia.
  destruct (Z.ltb_spec i 28), (Z.leb_spec 28 i), (Z.ltb_spec i 32), (Z.leb_spec 28 (i + 24)), (Z.ltb_spec (i + 24) 32);
    try lia; cbn; by destruct (Z.testbit x i), (Z.testbit x (i + 24)).
Qed.

Lemma sysv_step_bound h c : 0 <= h < 2 ^ 28 -> is_byte c -> 0 <= sysv_step h c < 2 ^ 28.
Proof.
  intros Hh Hc. rewrite <- hash_step_sysv by done. cbv zeta. change 0x0fffffff with (Z.ones 28).
  rewrite Z.land_ones by lia. apply Z.mod_pos_bound. lia.
Qed.

Lemma hash_loop_sysv name rest h : byte_list name -> 0 ∉ name -> 0 <= h < 2 ^ 28 ->
  hash_loop (name ++ 0 :: rest) h = Ok (fold_left sysv_step name h) /\
  0 <= fold_left sysv_step name h < 2 ^ 28.
Proof.
  intros Hb. revert h. induction Hb as [|c name Hc _ IH]; intros h Hz Hh; [done|].
  apply not_elem_of_cons in Hz as [Hz Hn]. cbn [app hash_loop fold_left].
  rewrite (proj2 (Z.eqb_neq c 0)) by done. rewrite hash_step_sysv by done.
  apply IH; [done|]. by apply sysv_step_bound.
Qed.

(** The description of a relocation keeps a 32-bit symbol index and a 32-bit
    type apart: composing and taking apart are inverse in both directions.  A
    type that does not fit leaks into the symbol index, because the mask is one
    digit too wide. *)
Theorem reloc_info_roundtrip s t info :
  0 <= s < 2 ^ 32 -> 0 <= t < 2 ^ 32 -> is_u64 info ->
  rsym (rinfo s t) = s /\ rtype (rinfo s t) = t /\ rinfo (rsym info) (rtype info) = info /\
  rsym (rinfo 0 (2 ^ 32)) = 1.
Proof.
  intros Hs Ht Hi. rewrite (rinfo_small s t) by done.
  destruct (rinfo_fields s t) as [-> ->]; [lia..|]. repeat split.
  assert (0 <= rsym info < 2 ^ 32 /\ 0 <= rtype info < 2 ^ 32 /\ info = rsym info * 2 ^ 32 + rtype info) as (H1 & H2 & H3).
  { unfold rsym, rtype. change 0xffffffff with (Z.ones 32). rewrite Z.shiftr_div_pow2, Z.land_ones by lia.
    unfold is_u64 in Hi. pose proof (Z.div_mod info (2 ^ 32)). pose proof (Z.mod_pos_bound info (2 ^ 32)).
    pose proof (Z.div_pos info (2 ^ 32)). pose proof (Z.div_lt_upper_bound info (2 ^ 32) (2 ^ 32)). lia. }
  rewrite rinfo_small by done. lia.
Qed.

Lemma reloc_info_roundtrip_witness : rsym (rinfo 5 6) = 5 /\ rtype (rinfo 5 6) = 6.
Proof.
  destruct (reloc_info_roundtrip 5 6 0) as (H1 & H2 & _); [lia|lia|unfold is_u64; lia|]. by split.
Defined.

(** On a terminated name the hash of symbol names, computed on 64-bit words,
    is the hash of the System V ABI, defined on 32-bit words: the carry out of
    the 32nd bit is lost in both.  It is below [2 ^ 28]. *)
Theorem hash_is_sysv name rest : byte_list name -> 0 ∉ name ->
  hash (name ++ 0 :: rest) = Ok (sysv_hash name) /\ 0 <= sysv_hash name < 2 ^ 28.
Proof. intros Hb Hz. by apply hash_loop_sysv. Qed.

Lemma hash_is_sysv_witness :
  hash ([112; 114; 105; 110; 116; 102; 255; 255] ++ [0; 7]) = Ok (sysv_hash [112; 114; 105; 110; 116; 102; 255; 255]).
Proof.
  apply (hash_is_sysv [112; 114; 105; 110; 116; 102; 255; 255] [7]).
  - repeat constructor; lia.
  - apply (bool_decide_unpack _). vm_compute. exact I.
Defined.
