(* ===== verification/Elf.v ===== *)
(** * The ELF library: libraries/elf/src/elf.cpp and include/elf/elf.h

    An image is a block of bytes.  A pointer into it is its distance from the
    start of the image as a 64-bit word, [None] the null pointer.  Reads of the
    image are computations over the block; a pointer that does not point inside
    of it faults when it is read through, not when it is formed. *)
From S2P Require Import Prelude Text Bytes ElfTypes.

(** Pointer arithmetic. *)
Definition advance (p n : Z) : Z := u64 (p + n).

(** The view of the terminated string that starts at a pointer. *)
Fixpoint until_nul (bs : bytes) : res bytes :=
  match bs with
  | [] => Err Fault
  | c :: bs' =>
      if c =? 0 then Ok []
      else match until_nul bs' with Ok r => Ok (c :: r) | Err e => Err e end
  end.
Definition c_string (p : Z) : M bytes bytes := fun data =>
  match until_nul (drop (Z.to_nat p) data) with Ok r => Ok (r, data) | Err e => Err e end.
Definition through {A} (p : option Z) (k : Z -> M bytes A) : M bytes A :=
  match p with Some q => k q | None => fail Fault end.

(** ** Sections *)

(** A section is the pointer to its header. *)
Definition section_offset (s : Z) : M bytes Z :=
  let* v := load (advance s section_header_offset) 8 in ret (s64 v).
Definition section_length (s : Z) : M bytes Z := load (advance s section_header_size) 8.
Definition section_type_of (s : Z) : M bytes section_types.section_type :=
  let* v := load (advance s section_header_type) 4 in ret (static_cast v).

(** [section_iterator] and [program_header_iterator]: the table, the index and
    the size of an entry. *)
Record table_iterator : Type := mkIter { it_table : Z; it_index : Z; it_entry_size : Z }.
#[global] Instance table_iterator_eq_dec : EqDecision table_iterator.
Proof. solve_decision. Defined.

Definition section_iterator : Type := table_iterator.
Definition section_next (it : section_iterator) : section_iterator :=
  mkIter (it_table it) (u64 (it_index it + 1)) (it_entry_size it).
Definition section_deref (it : section_iterator) : Z :=
  advance (it_table it) (u64 (it_index it * it_entry_size it)).

Record sections : Type := mkSections { s_table : Z; s_entry_size : Z; s_table_size : Z }.
Definition sections_begin (s : sections) : section_iterator := mkIter (s_table s) 1 (s_entry_size s).
Definition sections_end (s : sections) : section_iterator := mkIter (s_table s) (s_table_size s) (s_entry_size s).

(** ** Program headers *)

Definition segment_offset (p : Z) : M bytes Z :=
  let* v := load (advance p program_header_offset) 8 in ret (s64 v).
Definition segment_type_of (p : Z) : M bytes segment_types.segment_type :=
  let* v := load (advance p program_header_type) 4 in ret (static_cast v).
Definition segment_size (p : Z) : M bytes Z := load (advance p program_header_memsz) 8.
Definition segment_file_size (p : Z) : M bytes Z := load (advance p program_header_filesz) 8.
Definition segment_virtual_address (p : Z) : M bytes Z := load (advance p program_header_vaddr) 8.

Definition program_header_iterator : Type := table_iterator.
Definition program_header_next (it : program_header_iterator) : program_header_iterator :=
  mkIter (it_table it) (u64 (it_index it + 1)) (it_entry_size it).
Definition program_header_deref (it : program_header_iterator) : Z :=
  advance (it_table it) (u64 (it_index it * it_entry_size it)).

Record program_headers : Type := mkProgramHeaders { p_table : Z; p_entry_size : Z; p_table_size : Z }.
Definition program_headers_begin (s : program_headers) : program_header_iterator :=
  mkIter (p_table s) 0 (p_entry_size s).
Definition program_headers_end (s : program_headers) : program_header_iterator :=
  mkIter (p_table s) (p_table_size s) (p_entry_size s).

(** ** Dynamic entries *)

Record dynamic_entry_wrapper : Type := mkDynamic { d_entry : Z; d_strtab : option Z }.
Definition dynamic_type (d : dynamic_entry_wrapper) : M bytes dynamic_entry_types.dynamic_entry_type :=
  let* v := load (advance (d_entry d) dynamic_entry_tag) 8 in ret (static_cast v).
Definition dynamic_value (d : dynamic_entry_wrapper) : M bytes Z := load (advance (d_entry d) dynamic_entry_un) 8.
Definition needed_name (d : dynamic_entry_wrapper) : M bytes bytes :=
  let* type := dynamic_type d in
  match type with
  | dynamic_entry_types.needed =>
      let* v := dynamic_value d in
      through (d_strtab d) (fun strtab => c_string (advance strtab v))
  | _ => ret (text "<not a NEEDED entry>")
  end.

Record dynamic_entry_iterator : Type := mkDynIter { di_base : option Z; di_index : Z; di_strtab : option Z }.
#[global] Instance dynamic_entry_iterator_eq_dec : EqDecision dynamic_entry_iterator.
Proof. solve_decision. Defined.
Definition dynamic_next (it : dynamic_entry_iterator) : dynamic_entry_iterator :=
  mkDynIter (di_base it) (u64 (di_index it + 1)) (di_strtab it).
Definition dynamic_prev (it : dynamic_entry_iterator) : dynamic_entry_iterator :=
  mkDynIter (di_base it) (u64 (di_index it - 1)) (di_strtab it).
Definition dynamic_deref (it : dynamic_entry_iterator) : option dynamic_entry_wrapper :=
  match di_base it with
  | Some base => Some (mkDynamic (advance base (di_index it * sizeof_dynamic_entry)) (di_strtab it))
  | None => None
  end.

Record dynamic_entries : Type := mkDynamicEntries { de_base : option Z; de_size : Z; de_strtab : option Z }.
Definition dynamic_entries_begin (d : dynamic_entries) : dynamic_entry_iterator := mkDynIter (de_base d) 0 (de_strtab d).
Definition dynamic_entries_end (d : dynamic_entries) : dynamic_entry_iterator :=
  mkDynIter (de_base d) (de_size d) (de_strtab d).

(** ** Relocations *)

(** [std::variant<const rel *, const rela *>] *)
Inductive relocation_ptr : Type :=
| rel_ptr (p : option Z)
| rela_ptr (p : option Z).
#[global] Instance relocation_ptr_eq_dec : EqDecision relocation_ptr.
Proof. solve_decision. Defined.

Record relocation : Type := mkRelocation { reloc_entry : relocation_ptr; reloc_symtab : option Z; reloc_strtab : option Z }.

Definition _rel_to_rela (r : rel) : rela := mkRela (rel_offset r) (rel_info r) 0.
(** The entry as a [rela]. *)
Definition reloc_rela (r : relocation) : M bytes rela :=
  match reloc_entry r with
  | rel_ptr p => through p (fun q => let* e := load_rel q in ret (_rel_to_rela e))
  | rela_ptr p => through p load_rela
  end.
Definition reloc_offset (r : relocation) : M bytes Z :=
  match reloc_entry r with
  | rel_ptr p => through p (fun q => load q 8)
  | rela_ptr p => through p (fun q => load q 8)
  end.

Definition needs_symbol (r : relocation) : M bytes bool :=
  let* e := reloc_rela r in
  match static_cast (rtype (rela_info e)) with
  | amd64.R_X86_64_RELATIVE => ret false
  | _ => ret true
  end.

(** The symbol a pointer designates: its name, value and whether it is defined. *)
Record symbol_wrapper : Type := mkSymbol { symbol_entry : Z; symbol_strtab : option Z }.
Definition wrapper_name (s : symbol_wrapper) : M bytes bytes :=
  let* name := load (advance (symbol_entry s) symbol_name_field) 4 in
  if negb (name =? 0) then through (symbol_strtab s) (fun strtab => c_string (advance strtab name))
  else ret [].
Definition wrapper_value (s : symbol_wrapper) : M bytes Z :=
  let* v := load (advance (symbol_entry s) symbol_value_field) 8 in ret (s64 v).
Definition is_defined (s : symbol_wrapper) : M bytes bool :=
  let* v := load (advance (symbol_entry s) symbol_value_field) 8 in ret (negb (v =? 0)).

Definition symbol_name (r : relocation) : M bytes bytes :=
  let* info := match reloc_entry r with
               | rel_ptr p => through p (fun q => load (q + 8) 8)
               | rela_ptr p => through p (fun q => load (q + 8) 8)
               end in
  let symbol_index := rsym info in
  through (reloc_symtab r) (fun symtab =>
    let symbol := advance symtab (symbol_index * sizeof_symbol) in
    let* name := load (advance symbol symbol_name_field) 4 in
    if negb (name =? 0) then through (reloc_strtab r) (fun strtab => c_string (advance strtab name))
    else ret []).

Record calculate_and_write_result : Type := mkWritten { target_address : Z; relocation_value : Z }.

(** The segment's memory is a block of its own; [ud2] raises the processor's
    invalid opcode exception. *)
Definition store_segment {A} (segment : bytes) (off v : Z) (k : bytes -> M bytes A) : M bytes A :=
  match write_bytes segment off (le_bytes 8 v) with Ok segment' => k segment' | Err e => fail e end.
Definition calculate_and_write (r : relocation) (symbol_value image_vbase segment_vaddr : Z) (segment : bytes)
    : M bytes (calculate_and_write_result * bytes) :=
  let* e := reloc_rela r in
  let target := u64 (u64 (image_vbase + segment_vaddr) + rela_offset e) in
  let place := u64 (rela_offset e - segment_vaddr) in
  match static_cast (rtype (rela_info e)) with
  | amd64.R_X86_64_GLOB_DAT =>
      store_segment segment place symbol_value (fun segment' => ret (mkWritten target (s64 symbol_value), segment'))
  | amd64.R_X86_64_RELATIVE =>
      let value := u64 (image_vbase + rela_addend e) in
      store_segment segment place value (fun segment' => ret (mkWritten target (s64 value), segment'))
  | _ => panic "ud2"
  end.

Record relocation_iterator : Type := mkRelocIter {
  ri_relocations : relocation_ptr; ri_index : Z; ri_symtab : option Z; ri_strtab : option Z
}.
#[global] Instance relocation_iterator_eq_dec : EqDecision relocation_iterator.
Proof. solve_decision. Defined.
Definition relocation_next (it : relocation_iterator) : relocation_iterator :=
  mkRelocIter (ri_relocations it) (u64 (ri_index it + 1)) (ri_symtab it) (ri_strtab it).
Definition relocation_deref (it : relocation_iterator) : relocation :=
  match ri_relocations it with
  | rel_ptr p => mkRelocation (rel_ptr ((fun q => advance q (ri_index it * sizeof_rel)) <$> p)) (ri_symtab it) (ri_strtab it)
  | rela_ptr p => mkRelocation (rela_ptr ((fun q => advance q (ri_index it * sizeof_rela)) <$> p)) (ri_symtab it) (ri_strtab it)
  end.

Record relocations : Type := mkRelocations {
  rs_relocations : relocation_ptr; relocation_count : Z; rs_symtab : option Z; rs_strtab : option Z
}.
Definition relocations_begin (r : relocations) : relocation_iterator :=
  mkRelocIter (rs_relocations r) 0 (rs_symtab r) (rs_strtab r).
Definition relocations_end (r : relocations) : relocation_iterator :=
  mkRelocIter (rs_relocations r) (relocation_count r) (rs_symtab r) (rs_strtab r).

(** ** Symbols *)

Record symbol_iterator : Type := mkSymIter { si_symtab : option Z; si_index : Z; si_strtab : option Z }.
#[global] Instance symbol_iterator_eq_dec : EqDecision symbol_iterator.
Proof. solve_decision. Defined.
Definition symbol_next (it : symbol_iterator) : symbol_iterator :=
  mkSymIter (si_symtab it) (u64 (si_index it + 1)) (si_strtab it).
Definition symbol_deref (it : symbol_iterator) : option symbol_wrapper :=
  (fun q => mkSymbol (advance q (si_index it * sizeof_symbol)) (si_strtab it)) <$> si_symtab it.

Record symbols : Type := mkSymbols { sy_symtab : option Z; sy_size : Z; sy_strtab : option Z }.
Definition symbols_begin (s : symbols) : symbol_iterator := mkSymIter (sy_symtab s) 1 (sy_strtab s).
Definition symbols_end (s : symbols) : symbol_iterator := mkSymIter (sy_symtab s) (sy_size s) (sy_strtab s).

(** ** Images *)

Record function_table_descriptor : Type := mkFunctionTable { ft_offset : Z; ft_byte_size : Z }.

(** [_header] points at the start of the image, so that [_base()] is 0; the
    fields of the header are read from the image once. *)
Record elf_image : Type := mkImage {
  _header : header;
  _dynamic_base : option Z;
  _dynamic_count : Z;
  _strtab : option Z;
  _relocations : relocation_ptr;
  _relocations_count : Z;
  _symtab : option Z;
  _symtab_size : Z;
  _preinit_desc : option function_table_descriptor;
  _init_desc : option function_table_descriptor;
  _fini_desc : option function_table_descriptor
}.
Definition new_image (h : header) : elf_image :=
  mkImage h None 0 None (rel_ptr None) 0 None 0 None None None.

Definition ident_field (e : elf_image) (i : nat) : Z := default 0 (h_ident (_header e) !! i).

Definition get_os_abi_description (e : elf_image) : string :=
  match static_cast (ident_field e ident_os_abi) with
  | os_abi.sysv => "System V"
  | os_abi.hpux => "HP-UX"
  | os_abi.netbsd => "NetBSD"
  | os_abi.linux => "Linux"
  | os_abi.hurd => "Hurd"
  | os_abi.solaris => "Solaris"
  | os_abi.aix => "AIX"
  | os_abi.irix => "IRIX"
  | os_abi.freebsd => "FreeBSD"
  | os_abi.tru64 => "Tru64"
  | os_abi.novell_modesto => "Novell Modesto"
  | os_abi.openbsd => "OpenBSD"
  | os_abi.openvms => "OpenVMS"
  | os_abi.standalone => "standalone"
  | os_abi.unnamed _ => "<unknown>"
  end.
Definition get_type_description (e : elf_image) : string :=
  match static_cast (h_type (_header e)) with
  | header_type.none => "none"
  | header_type.relocatable => "relocatable file"
  | header_type.executable => "executable file"
  | header_type.shared_object => "shared object"
  | _ => "<unknown>"
  end.
Definition get_abi_version (e : elf_image) : Z := ident_field e ident_abi_version.
Definition get_entry_point (e : elf_image) : Z := h_entry (_header e).

Definition image_sections (e : elf_image) : sections :=
  mkSections (advance 0 (h_shoff (_header e))) (h_shentsize (_header e)) (h_shnum (_header e)).
Definition image_program_headers (e : elf_image) : program_headers :=
  mkProgramHeaders (advance 0 (h_phoff (_header e))) (h_phentsize (_header e)) (h_phnum (_header e)).
Definition image_dynamic_entries (e : elf_image) : dynamic_entries :=
  mkDynamicEntries (_dynamic_base e) (_dynamic_count e) (_strtab e).
Definition image_relocations (e : elf_image) : relocations :=
  mkRelocations (_relocations e) (_relocations_count e) (_symtab e) (_strtab e).
Definition image_symbols (e : elf_image) : symbols := mkSymbols (_symtab e) (_symtab_size e) (_strtab e).

(** ** The parser *)

Record try_parse_result : Type := mkParsed { parsed_image : option elf_image; parse_error : string; error_offset : Z }.
Definition rejected (msg : string) (offset : Z) : try_parse_result := mkParsed None msg offset.

(** A step of the parser returns from it early or goes on with a value. *)
Abbreviation step A := (M bytes (try_parse_result + A)).
Definition reject {A} (msg : string) (offset : Z) : step A := ret (inl (rejected msg offset)).
Definition proceed {A} (a : A) : step A := ret (inr a).
Definition and_then {A B} (m : step A) (k : A -> step B) : step B :=
  let* r := m in match r with inl e => ret (inl e) | inr a => k a end.

(** The product of two [half]s is an [int]: its overflow is undefined. *)
Definition int_mul (a b : Z) : M bytes Z := if a * b <? 2 ^ 31 then ret (a * b) else fail Fault.

(** The checks of the header. *)
Definition check_header (h : header) (length : Z) : step unit :=
  let ident i := default 0 (h_ident h !! i) in
  if negb (ident 0%nat =? 127) || negb (ident 1%nat =? 69) || negb (ident 2%nat =? 76) || negb (ident 3%nat =? 70)
  then reject "image does not have a valid header magic number" 0
  else if negb (ident ident_class_ =? class_64) then reject "only Elf64 files are supported" 0
  else if negb (ident ident_data_encoding =? data_lsb) then reject "only little-endian files are supported" 0
  else if negb (h_type h =? header_type.header_kind_val header_type.executable)
          && negb (h_type h =? header_type.header_kind_val header_type.shared_object)
  then reject "only executable files and shared objects are supported" 0
  else if negb (h_machine h =? machine_type.machine_kind_val machine_type.amd64)
  then reject "only AMD64 files are supported" 0
  else if negb (h_version h =? 1) then reject "only version 1 ELF files are supported" 0
  else
    let* phsize := int_mul (h_phentsize h) (h_phnum h) in
    if length <? u64 (h_phoff h + phsize) then reject "the program header table extends beyond the image limit" 0
    else
      let* shsize := int_mul (h_shentsize h) (h_shnum h) in
      if length <? u64 (h_shoff h + shsize) then reject "the section header table extends beyond the image limit" 0
      else proceed tt.

(** The loop over the program headers: the DYNAMIC segment, if there is one. *)
Definition check_program_header (p : Z) (dynamic : option Z) : step (option Z) :=
  let* type := segment_type_of p in
  match type with
  | segment_types.load => proceed dynamic
  | segment_types.dynamic =>
      match dynamic with
      | None => proceed (Some p)
      | Some _ => let* offset := segment_offset p in reject "found more than one DYNAMIC segment" offset
      end
  | segment_types.note => proceed dynamic
  | segment_types.phdr => proceed dynamic
  | segment_types.gnu_stack => proceed dynamic
  | segment_types.gnu_relro => proceed dynamic
  | _ => let* offset := segment_offset p in reject "unsupported program header type" offset
  end.
Fixpoint scan_program_headers (fuel : nat) (it last : program_header_iterator) (dynamic : option Z) : step (option Z) :=
  match fuel with
  | O => fail NoFuel
  | S n =>
      if decide (it = last) then proceed dynamic
      else and_then (check_program_header (program_header_deref it) dynamic) (fun dynamic' =>
             scan_program_headers n (program_header_next it) last dynamic')
  end.

(** The state of the loop over the dynamic entries. *)
Record dynamic_state : Type := mkDyn {
  dyn_image : elf_image;
  preinit : option Z; preinit_size : option Z;
  init : option Z; init_size : option Z;
  fini : option Z; fini_size : option Z
}.
Definition with_image (s : dynamic_state) (e : elf_image) : dynamic_state :=
  mkDyn e (preinit s) (preinit_size s) (init s) (init_size s) (fini s) (fini_size s).
Definition with_init (s : dynamic_state) (i : option Z) : dynamic_state :=
  mkDyn (dyn_image s) (preinit s) (preinit_size s) i (init_size s) (fini s) (fini_size s).
Definition with_init_size (s : dynamic_state) (i : option Z) : dynamic_state :=
  mkDyn (dyn_image s) (preinit s) (preinit_size s) (init s) i (fini s) (fini_size s).

Definition set_strtab (e : elf_image) (p : Z) : elf_image :=
  mkImage (_header e) (_dynamic_base e) (_dynamic_count e) (Some p) (_relocations e) (_relocations_count e)
    (_symtab e) (_symtab_size e) (_preinit_desc e) (_init_desc e) (_fini_desc e).
Definition set_symtab (e : elf_image) (p : Z) : elf_image :=
  mkImage (_header e) (_dynamic_base e) (_dynamic_count e) (_strtab e) (_relocations e) (_relocations_count e)
    (Some p) (_symtab_size e) (_preinit_desc e) (_init_desc e) (_fini_desc e).
Definition set_symtab_size (e : elf_image) (n : Z) : elf_image :=
  mkImage (_header e) (_dynamic_base e) (_dynamic_count e) (_strtab e) (_relocations e) (_relocations_count e)
    (_symtab e) n (_preinit_desc e) (_init_desc e) (_fini_desc e).
Definition set_relocations (e : elf_image) (p : Z) : elf_image :=
  mkImage (_header e) (_dynamic_base e) (_dynamic_count e) (_strtab e) (rela_ptr (Some p)) (_relocations_count e)
    (_symtab e) (_symtab_size e) (_preinit_desc e) (_init_desc e) (_fini_desc e).
Definition set_relocations_count (e : elf_image) (n : Z) : elf_image :=
  mkImage (_header e) (_dynamic_base e) (_dynamic_count e) (_strtab e) (_relocations e) n
    (_symtab e) (_symtab_size e) (_preinit_desc e) (_init_desc e) (_fini_desc e).
Definition set_dynamic_base (e : elf_image) (p : Z) : elf_image :=
  mkImage (_header e) (Some p) (_dynamic_count e) (_strtab e) (_relocations e) (_relocations_count e)
    (_symtab e) (_symtab_size e) (_preinit_desc e) (_init_desc e) (_fini_desc e).
Definition set_dynamic_result (e : elf_image) (count : Z) (preinit init fini : option function_table_descriptor) : elf_image :=
  mkImage (_header e) (_dynamic_base e) count (_strtab e) (_relocations e) (_relocations_count e)
    (_symtab e) (_symtab_size e) preinit init fini.

(** One dynamic entry at [p]: [None] at the end of the table. *)
Definition read_dynamic_entry (p : Z) (s : dynamic_state) : step (option dynamic_state) :=
  let e := dyn_image s in
  let value := load (advance p dynamic_entry_un) 8 in
  let* tag := load (advance p dynamic_entry_tag) 8 in
  match static_cast tag with
  | dynamic_entry_types.null => proceed None
  | dynamic_entry_types.needed => proceed (Some s)
  | dynamic_entry_types.strtab =>
      let* v := value in proceed (Some (with_image s (set_strtab e (advance 0 v))))
  | dynamic_entry_types.symtab =>
      let* v := value in proceed (Some (with_image s (set_symtab e (advance 0 v))))
  | dynamic_entry_types.rela =>
      let* v := value in proceed (Some (with_image s (set_relocations e (advance 0 v))))
  | dynamic_entry_types.rela_size =>
      let* v := value in proceed (Some (with_image s (set_relocations_count e (v / sizeof_rela))))
  | dynamic_entry_types.rela_entry_size =>
      let* v := value in
      if negb (v =? sizeof_rela) then reject "unsupported RELA value" 0 else proceed (Some s)
  | dynamic_entry_types.str_size => proceed (Some s)
  | dynamic_entry_types.sym_entry_size =>
      let* v := value in
      if negb (v =? sizeof_symbol) then reject "unsupported SYMENT value" 0 else proceed (Some s)
  | dynamic_entry_types.soname => proceed (Some s)
  | dynamic_entry_types.debug => proceed (Some s)
  | dynamic_entry_types.bind_now => proceed (Some s)
  | dynamic_entry_types.init_array => let* v := value in proceed (Some (with_init s (Some v)))
  | dynamic_entry_types.init_array_size => let* v := value in proceed (Some (with_init_size s (Some v)))
  | dynamic_entry_types.flags => proceed (Some s)
  | dynamic_entry_types.gnu_hash => proceed (Some s)
  | dynamic_entry_types.rela_count => proceed (Some s)
  | dynamic_entry_types.flags_1 => proceed (Some s)
  | _ => reject "unsupported DYNAMIC entry tag" (s64 p)
  end.
Fixpoint scan_dynamic (fuel : nat) (next count : Z) (s : dynamic_state) : step (Z * dynamic_state) :=
  match fuel with
  | O => fail NoFuel
  | S n =>
      and_then (read_dynamic_entry next s) (fun r =>
        match r with
        | None => proceed (count, s)
        | Some s' => scan_dynamic n (advance next sizeof_dynamic_entry) (u64 (count + 1)) s'
        end)
  end.

Definition table_descriptor (offset size : option Z) : option function_table_descriptor :=
  match offset, size with Some o, Some n => Some (mkFunctionTable o n) | _, _ => None end.
Definition both (a b : option Z) (msg1 msg2 : string) : step unit :=
  match a, b with
  | Some _, None => reject msg1 0
  | None, Some _ => reject msg2 0
  | _, _ => proceed tt
  end.

(** The part of the parser that reads the DYNAMIC segment at [p]. *)
Definition parse_dynamic (fuel : nat) (e : elf_image) (p : Z) : step elf_image :=
  let* offset := segment_offset p in
  let base := advance 0 offset in
  let e := set_dynamic_base e base in
  and_then (scan_dynamic fuel base 0 (mkDyn e None None None None None None)) (fun r =>
    let '(count, s) := r in
    and_then (both (preinit s) (preinit_size s)
      "PREINIT DYNAMIC entry present without PREINIT_SIZE DYANMIC entry"
      "PREINIT_SIZE DYNAMIC entry present without PREINIT DYANMIC entry") (fun _ =>
    and_then (both (init s) (init_size s)
      "INIT DYNAMIC entry present without INIT_SIZE DYANMIC entry"
      "INIT_SIZE DYNAMIC entry present without INIT DYANMIC entry") (fun _ =>
    and_then (both (fini s) (fini_size s)
      "FINI DYNAMIC entry present without FINI_SIZE DYANMIC entry"
      "FINI_SIZE DYNAMIC entry present without FINI DYANMIC entry") (fun _ =>
    proceed (set_dynamic_result (dyn_image s) count
      (table_descriptor (preinit s) (preinit_size s))
      (table_descriptor (init s) (init_size s))
      (table_descriptor (fini s) (fini_size s))))))).

(** The loop over the sections. *)
Definition check_section (length : Z) (s : Z) (e : elf_image) : step elf_image :=
  let* offset := section_offset s in
  let* size := section_length s in
  if length <? u64 (offset + size) then reject "a section extends beyond the image limit" offset
  else
    let* type := section_type_of s in
    match type with
    | section_types.progbits => proceed e
    | section_types.symtab => proceed e
    | section_types.strtab => proceed e
    | section_types.rela => proceed e
    | section_types.hash => reject "binaries containing .hash are not supported; use .gnu.hash instead" offset
    | section_types.dynamic => proceed e
    | section_types.note => proceed e
    | section_types.nobits => proceed e
    | section_types.dynsym =>
        if decide (Some (advance 0 offset) = _symtab e) then proceed (set_symtab_size e (size / sizeof_symbol))
        else proceed e
    | section_types.init_array => proceed e
    | section_types.gnu_hash => proceed e
    | _ => reject "unsupported section type" offset
    end.
Fixpoint scan_sections (fuel : nat) (length : Z) (it last : section_iterator) (e : elf_image) : step elf_image :=
  match fuel with
  | O => fail NoFuel
  | S n =>
      if decide (it = last) then proceed e
      else and_then (check_section length (section_deref it) e) (fun e' =>
             scan_sections n length (section_next it) last e')
  end.

(** Enough for both tables, whose sizes are [half]s, and for the dynamic entries
    of the image, of which every one takes up space in it. *)
Definition parse_fuel (data : bytes) : nat := (Z.to_nat 65537 + length data)%nat.

Definition parse_image : step elf_image :=
  let* data := get in
  let limit := Z.of_nat (length data) in
  if limit <? sizeof_header then reject "image is smaller than the size of an elf header" 0
  else
    let* h := load_header in
    and_then (check_header h limit) (fun _ =>
    let e := new_image h in
    let segments := image_program_headers e in
    and_then (scan_program_headers (parse_fuel data) (program_headers_begin segments) (program_headers_end segments) None)
      (fun dynamic =>
    and_then (match dynamic with Some p => parse_dynamic (parse_fuel data) e p | None => proceed e end) (fun e =>
    let secs := image_sections e in
    and_then (scan_sections (parse_fuel data) limit (sections_begin secs) (sections_end secs) e) (fun e =>
    if bool_decide (is_Some (_symtab e)) && (_symtab_size e =? 0)
    then reject "found a SYMTAB, but not its corresponding section" 0
    else proceed e)))).

Definition try_parse (data : bytes) : res try_parse_result :=
  match parse_image data with
  | Ok (inl r, _) => Ok r
  | Ok (inr e, _) => Ok (mkParsed (Some e) "" 0)
  | Err e => Err e
  end.
