(* ===== verification/ElfTheorems.v ===== *)
(** * The ELF parser is safe on laid out images, and what it accepts

    Two judgements over computations on an image: [runs] says that a
    computation returns, [yields] what holds of the value if it does.  With
    them: the parser returns on every image whose tables are where the header
    says (the part of the format the parser relies on without a check), what an
    accepted image satisfies, and what applying a relocation writes. *)
From S2P Require Import Prelude Text Bytes ElfTypes Elf.

(** ** Judgements *)

Section judgements.
Context (data : bytes).

Definition runs {A} (m : M bytes A) (P : A -> Prop) : Prop := exists a, m data = Ok (a, data) /\ P a.
Definition yields {A} (m : M bytes A) (P : A -> Prop) : Prop :=
  forall a d, m data = Ok (a, d) -> d = data /\ P a.

Lemma runs_ret {A} (a : A) (P : A -> Prop) : P a -> runs (ret a) P.
Proof. intros H. by exists a. Qed.
Lemma runs_bind {A B} (m : M bytes A) (k : A -> M bytes B) P Q :
  runs m P -> (forall a, P a -> runs (k a) Q) -> runs (bind m k) Q.
Proof. intros (a & E & Ha) H. destruct (H a Ha) as (b & E' & Hb). exists b. by rewrite (bind_Ok _ _ _ _ _ E). Qed.
Lemma runs_weaken {A} (m : M bytes A) (P Q : A -> Prop) : runs m P -> (forall a, P a -> Q a) -> runs m Q.
Proof. intros (a & E & Ha) H. exists a. auto. Qed.
Lemma runs_true {A} (m : M bytes A) P : runs m P -> runs m (fun _ => True).
Proof. intros H. by eapply runs_weaken. Qed.

Lemma yields_ret {A} (a : A) (P : A -> Prop) : P a -> yields (ret a) P.
Proof. intros H b d [= <- <-]. done. Qed.
Lemma yields_fail {A} e (P : A -> Prop) : yields (fail e) P.
Proof. intros b d [=]. Qed.
Lemma yields_bind {A B} (m : M bytes A) (k : A -> M bytes B) P Q :
  yields m P -> (forall a, P a -> yields (k a) Q) -> yields (bind m k) Q.
Proof. intros Hm Hk b d (a & d1 & E1 & E2)%bind_Ok_inv. apply Hm in E1 as [-> Ha]. by apply (Hk a Ha). Qed.

(** Steps of the parser: what holds when it goes on. *)
Definition goes_on {A} (P : A -> Prop) (r : try_parse_result + A) : Prop :=
  match r with inl e => parsed_image e = None | inr a => P a end.

Lemma runs_proceed {A} (a : A) (P : A -> Prop) : P a -> runs (proceed a) (goes_on P).
Proof. intros H. by apply runs_ret. Qed.
Lemma runs_reject {A} msg off (P : A -> Prop) : runs (reject msg off) (goes_on P).
Proof. by apply runs_ret. Qed.
Lemma runs_and_then {A B} (m : step A) (k : A -> step B) P Q :
  runs m (goes_on P) -> (forall a, P a -> runs (k a) (goes_on Q)) -> runs (and_then m k) (goes_on Q).
Proof. intros Hm Hk. eapply runs_bind; [done|]. intros [e|a] H; [by apply runs_ret | auto]. Qed.

Lemma yields_proceed {A} (a : A) (P : A -> Prop) : P a -> yields (proceed a) (goes_on P).
Proof. intros H. by apply yields_ret. Qed.
Lemma yields_reject {A} msg off (P : A -> Prop) : yields (reject msg off) (goes_on P).
Proof. by apply yields_ret. Qed.
Lemma yields_and_then {A B} (m : step A) (k : A -> step B) P Q :
  yields m (goes_on P) -> (forall a, P a -> yields (k a) (goes_on Q)) -> yields (and_then m k) (goes_on Q).
Proof. intros Hm Hk. eapply yields_bind; [done|]. intros [e|a] H; [by apply yields_ret | auto]. Qed.

Lemma yields_load off n : yields (load off n) (fun v => load off n data = Ok (v, data)).
Proof.
  intros v d E. assert (d = data) as ->; [|done]. revert E. unfold load. destruct (read_bytes _ _ _); congruence.
Qed.
End judgements.

Section total.
Context (data : bytes) (Hdata : byte_list data).
Abbreviation size := (Z.of_nat (length data)).

Lemma runs_load off n : 0 <= off -> 0 <= n -> off + n <= size ->
  runs data (load off n) (fun v => load off n data = Ok (v, data) /\ 0 <= v < 256 ^ n).
Proof using Hdata. intros H1 H2 H3. destruct (load_total data Hdata off n) as (v & E & B); [done..|]. by exists v. Qed.
End total.

#[export] Hint Resolve runs_ret runs_proceed runs_reject yields_ret yields_fail yields_proceed yields_reject yields_load : elf.
(** Split a step of the parser along its structure. *)
Ltac elf_yields :=
  repeat first
    [ progress intros
    | apply yields_proceed | apply yields_reject | apply yields_fail
    | eapply yields_bind; [apply yields_load|]
    | case_match ].

(** ** The header *)

Definition header_ok (h : header) : Prop :=
  length (h_ident h) = 16%nat /\ 0 <= h_type h < 2 ^ 16 /\ 0 <= h_machine h < 2 ^ 16 /\ 0 <= h_version h < 2 ^ 32 /\
  is_u64 (h_entry h) /\ is_u64 (h_phoff h) /\ is_u64 (h_shoff h) /\
  0 <= h_phentsize h < 2 ^ 16 /\ 0 <= h_phnum h < 2 ^ 16 /\
  0 <= h_shentsize h < 2 ^ 16 /\ 0 <= h_shnum h < 2 ^ 16.

Lemma load_header_total data : byte_list data -> sizeof_header <= Z.of_nat (length data) ->
  runs data load_header header_ok.
Proof.
  intros Hd Hs. unfold sizeof_header in Hs. unfold runs, load_header.
  destruct (read_total data 0 16) as (ident & -> & Hi); [lia..|].
  repeat (eapply runs_bind; [apply (runs_load data Hd); lia|]; intros ? [_ ?]).
  apply runs_ret. unfold header_ok, is_u64; cbn [h_ident h_type h_machine h_version h_entry h_phoff h_shoff h_phentsize h_phnum h_shentsize h_shnum].
  change (256 ^ 2) with (2 ^ 16) in *. change (256 ^ 4) with (2 ^ 32) in *. change (256 ^ 8) with (2 ^ 64) in *. 
  repeat split; lia.
Qed.

(** ** Laid out images *)

(** The entries of the two tables. *)
Definition ph_at (h : header) (i : Z) : Z := h_phoff h + i * h_phentsize h.
Definition sh_at (h : header) (i : Z) : Z := h_shoff h + i * h_shentsize h.

(** A table of dynamic entries at [o] that ends inside of the image. *)
Definition terminated (data : bytes) (o : Z) : Prop :=
  exists k : nat, o + 16 * (Z.of_nat k + 1) <= Z.of_nat (length data) /\ load (o + 16 * Z.of_nat k) 8 data = Ok (0, data).

(** What the parser relies on: the sizes of the tables do not overflow, their
    entries have at least the size of the structures, there is a section table
    and a DYNAMIC segment ends with a null entry. *)
Record laid_out (data : bytes) (h : header) : Prop := {
  lo_phsize : h_phentsize h * h_phnum h < 2 ^ 31;
  lo_shsize : h_shentsize h * h_shnum h < 2 ^ 31;
  lo_phend : h_phoff h + h_phentsize h * h_phnum h < 2 ^ 64;
  lo_shend : h_shoff h + h_shentsize h * h_shnum h < 2 ^ 64;
  lo_phentsize : sizeof_program_header_entry <= h_phentsize h;
  lo_shentsize : sizeof_section_header <= h_shentsize h;
  lo_shnum : 1 <= h_shnum h;
  lo_dynamic i o : 0 <= i < h_phnum h ->
    load (ph_at h i) 4 data = Ok (segment_types.segment_type_val segment_types.dynamic, data) ->
    load (ph_at h i + 8) 8 data = Ok (o, data) -> terminated data o
}.

Lemma advance_small p n : 0 <= p + n < 2 ^ 64 -> advance p n = p + n.
Proof. intros H. by apply u64_id. Qed.
Lemma u64_s64 v : is_u64 v -> u64 (s64 v) = v.
Proof.
  intros [H1 H2]. unfold u64, wrapu, s64. destruct (decide (v < 2 ^ 63)).
  - rewrite (Z.mod_small (v + 2 ^ 63)) by lia. rewrite Z.mod_small by lia. lia.
  - replace (v + 2 ^ 63) with (v - 2 ^ 63 + 1 * 2 ^ 64) by lia. rewrite Z_mod_plus_full.
    rewrite (Z.mod_small (v - 2 ^ 63)) by lia.
    replace (v - 2 ^ 63 - 2 ^ 63) with (v + (-1) * 2 ^ 64) by lia. rewrite Z_mod_plus_full, Z.mod_small by lia. lia.
Qed.
Lemma advance_s64 v : is_u64 v -> advance 0 (s64 v) = v.
Proof. intros H. unfold advance. rewrite Z.add_0_l. by apply u64_s64. Qed.

(** The entry of a table of [n] entries of [w] bytes at [off]. *)
Lemma table_entry off i w n :
  0 <= off -> 0 <= i < n -> 0 <= w -> off + w * n < 2 ^ 64 ->
  advance (advance 0 off) (u64 (i * w)) = off + i * w /\ off + i * w + w <= off + w * n.
Proof.
  intros H1 H2 H3 H4. assert (i * w + w <= w * n) by nia. assert (0 <= i * w) by nia.
  rewrite (advance_small 0 off) by lia. rewrite (u64_id (i * w)) by (unfold is_u64; lia).
  rewrite advance_small by lia. lia.
Qed.

Section safety.
Context (data : bytes) (Hdata : byte_list data) (Hsize : Z.of_nat (length data) < 2 ^ 64).
Abbreviation size := (Z.of_nat (length data)).

(** A field at distance [f] of a structure at [p]. *)
Lemma runs_field p f n w :
  0 <= p -> 0 <= f -> 0 <= n -> f + n <= w -> p + w <= size ->
  runs data (load (advance p f) n) (fun v => load (p + f) n data = Ok (v, data) /\ 0 <= v < 256 ^ n).
Proof using Hdata Hsize.
  intros. rewrite advance_small by lia. apply runs_load; [done|lia..].
Qed.

Lemma segment_type_runs p : 0 <= p -> p + 56 <= size ->
  runs data (segment_type_of p) (fun t => load p 4 data = Ok (enum_val t, data)).
Proof using Hdata Hsize.
  intros H1 H2. unfold segment_type_of, program_header_type.
  eapply runs_bind; [by apply (runs_field p 0 4 56); lia|]. intros v [L _]. rewrite Z.add_0_r in L.
  apply runs_ret. by rewrite val_static_cast.
Qed.
Lemma segment_offset_runs p : 0 <= p -> p + 56 <= size ->
  runs data (segment_offset p) (fun o => exists v, load (p + 8) 8 data = Ok (v, data) /\ o = s64 v /\ is_u64 v).
Proof using Hdata Hsize.
  intros H1 H2. unfold segment_offset, program_header_offset.
  eapply runs_bind; [by apply (runs_field p 8 8 56); lia|]. intros v [L B]. apply runs_ret. by exists v.
Qed.

Lemma check_program_header_runs p dynamic : 0 <= p -> p + 56 <= size ->
  runs data (check_program_header p dynamic) (goes_on (fun d => d = dynamic \/
    d = Some p /\ load p 4 data = Ok (segment_types.segment_type_val segment_types.dynamic, data))).
Proof using Hdata Hsize.
  intros H1 H2. unfold check_program_header.
  eapply runs_bind; [by apply segment_type_runs|]. intros type L.
  destruct type; try (apply runs_proceed; by left); try destruct dynamic;
    try (apply runs_proceed; by right);
    (eapply runs_bind; [by apply segment_offset_runs|]; intros o _; apply runs_reject).
Qed.

(** The dynamic entries fill in the image and leave its header alone. *)
Abbreviation header_of_state s := (_header (dyn_image s)).
Definition same_header (s : dynamic_state) (r : option dynamic_state) : Prop :=
  match r with Some s' => header_of_state s' = header_of_state s | None => True end.

Lemma read_dynamic_entry_runs p s : 0 <= p -> p + 16 <= size ->
  runs data (read_dynamic_entry p s) (goes_on (fun r => (load p 8 data = Ok (0, data) -> r = None) /\ same_header s r)).
Proof using Hdata Hsize.
  intros H1 H2. unfold read_dynamic_entry, dynamic_entry_tag, dynamic_entry_un.
  assert (forall k : Z -> step (option dynamic_state), (forall v, runs data (k v) (goes_on (same_header s))) ->
    runs data (let* v := load (advance p 8) 8 in k v) (goes_on (same_header s))) as Hv.
  { intros k Hk. eapply runs_bind; [by apply (runs_field p 8 8 16); lia|]. intros v _. apply Hk. }
  eapply runs_bind; [by apply (runs_field p 0 8 16); lia|]. intros tag [L B]. rewrite Z.add_0_r in L.
  destruct (decide (tag = 0)) as [->|Hne].
  { change (static_cast 0) with dynamic_entry_types.null. by apply runs_proceed. }
  apply runs_weaken with (goes_on (same_header s)); cycle 1.
  { intros [e|r] H; [exact H|]. split; [|exact H]. intros L'. rewrite L in L'. by simplify_eq. }
  destruct (static_cast tag); try (by apply runs_proceed); try apply runs_reject;
    apply Hv; intros v; try (by apply runs_proceed); case_match; solve [apply runs_reject | by apply runs_proceed].
Qed.

Lemma scan_dynamic_runs fuel o (j k : nat) count s : 0 <= o -> (j <= k)%nat -> (k - j < fuel)%nat ->
  o + 16 * (Z.of_nat k + 1) <= size -> load (o + 16 * Z.of_nat k) 8 data = Ok (0, data) ->
  runs data (scan_dynamic fuel (o + 16 * Z.of_nat j) count s)
    (goes_on (fun r => header_of_state (snd r) = header_of_state s)).
Proof using Hdata Hsize.
  intros Ho. revert j count s. induction fuel as [|fuel IH]; intros j count s Hj Hf He Hk; [lia|].
  cbn [scan_dynamic]. eapply runs_and_then; [apply read_dynamic_entry_runs; lia|].
  intros [s'|] [Hr Hs]; [|by apply runs_proceed].
  assert (j <> k) by (intros ->; by discriminate Hr). cbn [same_header] in Hs. rewrite <- Hs.
  unfold sizeof_dynamic_entry. rewrite advance_small by lia.
  replace (o + 16 * Z.of_nat j + 16) with (o + 16 * Z.of_nat (S j)) by lia. apply IH; [lia..|done].
Qed.

Lemma both_runs a b m1 m2 : runs data (both a b m1 m2) (goes_on (fun _ => True)).
Proof using. unfold both. destruct a, b; solve [apply runs_reject | by apply runs_proceed]. Qed.

Lemma parse_dynamic_runs e p : 0 <= p -> p + 56 <= size ->
  (forall o, load (p + 8) 8 data = Ok (o, data) -> terminated data o) ->
  runs data (parse_dynamic (parse_fuel data) e p) (goes_on (fun e' => _header e' = _header e)).
Proof using Hdata Hsize.
  intros H1 H2 Ht. unfold parse_dynamic. eapply runs_bind; [by apply segment_offset_runs|].
  intros o (v & L & -> & Hv). rewrite advance_s64 by done.
  destruct (Ht v L) as (k & Hk & Lk). set (s := mkDyn _ _ _ _ _ _ _).
  eapply runs_and_then.
  { replace v with (v + 16 * Z.of_nat 0) by lia.
    apply (scan_dynamic_runs (parse_fuel data) v 0 k 0 s); [apply Hv|lia| |lia|done].
    unfold parse_fuel. unfold is_u64 in Hv. lia. }
  intros [count s'] Hs. cbn [snd] in Hs.
  do 3 (eapply runs_and_then; [apply both_runs|]; intros _ _). by apply runs_proceed.
Qed.

Lemma section_type_runs p : 0 <= p -> p + 64 <= size ->
  runs data (section_type_of p) (fun _ => True).
Proof using Hdata Hsize.
  intros H1 H2. unfold section_type_of, section_header_type.
  eapply runs_bind; [by apply (runs_field p 4 4 64); lia|]. intros v _. by apply runs_ret.
Qed.

Lemma check_section_runs limit p e : 0 <= p -> p + 64 <= size ->
  runs data (check_section limit p e) (goes_on (fun e' => _header e' = _header e)).
Proof using Hdata Hsize.
  intros H1 H2. unfold check_section, section_offset, section_length, section_header_offset, section_header_size.
  eapply runs_bind.
  { eapply runs_bind; [by apply (runs_field p 24 8 64); lia|]. intros v _. by apply (runs_ret data _ (fun _ => True)). }
  intros o _. eapply runs_bind; [by apply (runs_field p 32 8 64); lia|]. intros n _.
  case_match; [apply runs_reject|]. eapply runs_bind; [by apply section_type_runs|]. intros type _.
  destruct type; try case_match; solve [apply runs_reject | by apply runs_proceed].
Qed.

Section tables.
Context (h : header) (Hh : header_ok h) (HL : laid_out data h).
Hypothesis (Hph : h_phoff h + h_phentsize h * h_phnum h <= size).
Hypothesis (Hsh : h_shoff h + h_shentsize h * h_shnum h <= size).

Definition dynamic_found (d : option Z) : Prop :=
  match d with
  | Some p => exists i, 0 <= i < h_phnum h /\ p = ph_at h i /\
      load p 4 data = Ok (segment_types.segment_type_val segment_types.dynamic, data)
  | None => True
  end.

Lemma scan_program_headers_runs fuel i d :
  0 <= i <= h_phnum h -> h_phnum h - i < Z.of_nat fuel -> dynamic_found d ->
  runs data (scan_program_headers fuel (mkIter (advance 0 (h_phoff h)) i (h_phentsize h))
    (mkIter (advance 0 (h_phoff h)) (h_phnum h) (h_phentsize h)) d) (goes_on dynamic_found).
Proof using Hdata Hsize Hh HL Hph.
  destruct Hh as (_ & _ & _ & _ & _ & Ho & _ & Hw & Hn & _). destruct HL as [_ _ Hend _ Hes _ _ _].
  unfold is_u64, sizeof_program_header_entry in *.
  revert i d. induction fuel as [|fuel IH]; intros i d Hi Hf Hd; [lia|]. cbn [scan_program_headers].
  case_decide as E; [by apply runs_proceed|].
  assert (i <> h_phnum h) by (intros ->; done). unfold program_header_deref, program_header_next. cbn [it_table it_index it_entry_size].
  destruct (table_entry (h_phoff h) i (h_phentsize h) (h_phnum h)) as [-> Hb]; [lia..|].
  eapply runs_and_then; [apply check_program_header_runs; nia|].
  intros d' Hd'. rewrite (u64_id (i + 1)) by (unfold is_u64; lia). apply IH; [lia..|].
  destruct Hd' as [-> | [-> L]]; [done|]. exists i. split; [lia|]. done.
Qed.

Lemma scan_sections_runs fuel i e : 1 <= i <= h_shnum h -> h_shnum h - i < Z.of_nat fuel ->
  runs data (scan_sections fuel size (mkIter (advance 0 (h_shoff h)) i (h_shentsize h))
    (mkIter (advance 0 (h_shoff h)) (h_shnum h) (h_shentsize h)) e) (goes_on (fun _ => True)).
Proof using Hdata Hsize Hh HL Hsh.
  destruct Hh as (_ & _ & _ & _ & _ & _ & Ho & _ & _ & Hw & Hn). destruct HL as [_ _ _ Hend _ Hes _ _].
  unfold is_u64, sizeof_section_header in *.
  revert i e. induction fuel as [|fuel IH]; intros i e Hi Hf; [lia|]. cbn [scan_sections].
  case_decide as E; [by apply runs_proceed|].
  assert (i <> h_shnum h) by (intros ->; done). unfold section_deref, section_next. cbn [it_table it_index it_entry_size].
  destruct (table_entry (h_shoff h) i (h_shentsize h) (h_shnum h)) as [-> Hb]; [lia..|].
  eapply runs_and_then; [apply check_section_runs; nia|].
  intros e' _. rewrite (u64_id (i + 1)) by (unfold is_u64; lia). apply IH; lia.
Qed.
End tables.
End safety.

(** ** The parser *)

Lemma int_mul_runs data a b : a * b < 2 ^ 31 -> runs data (int_mul a b) (fun v => v = a * b).
Proof. intros H. unfold int_mul. rewrite (proj2 (Z.ltb_lt _ _)) by done. by apply runs_ret. Qed.

Lemma check_header_runs data h : header_ok h -> laid_out data h ->
  runs data (check_header h (Z.of_nat (length data))) (goes_on (fun _ =>
    h_phoff h + h_phentsize h * h_phnum h <= Z.of_nat (length data) /\
    h_shoff h + h_shentsize h * h_shnum h <= Z.of_nat (length data))).
Proof.
  intros (_ & _ & _ & _ & _ & Hp & Hs & Hpw & Hpn & Hsw & Hsn) [H1 H2 H3 H4 _ _ _ _]. unfold is_u64 in *.
  unfold check_header. repeat (case_match; [apply runs_reject|]).
  eapply runs_bind; [by apply int_mul_runs|]. intros _ ->.
  rewrite (u64_id (h_phoff h + _)) by (unfold is_u64; nia). case_match eqn:E1; [apply runs_reject|].
  eapply runs_bind; [by apply int_mul_runs|]. intros _ ->.
  rewrite (u64_id (h_shoff h + _)) by (unfold is_u64; nia). case_match eqn:E2; [apply runs_reject|].
  apply runs_proceed. split; lia.
Qed.

(** What is checked of the header. *)
Definition supported_header (h : header) (limit : Z) : Prop :=
  take 6 (h_ident h) = [127; 69; 76; 70; class_64; data_lsb] /\
  (h_type h = header_type.header_kind_val header_type.executable \/
   h_type h = header_type.header_kind_val header_type.shared_object) /\
  h_machine h = machine_type.machine_kind_val machine_type.amd64 /\ h_version h = 1 /\
  u64 (h_phoff h + h_phentsize h * h_phnum h) <= limit /\
  u64 (h_shoff h + h_shentsize h * h_shnum h) <= limit.

Lemma int_mul_yields data a b : yields data (int_mul a b) (fun v => v = a * b).
Proof. unfold int_mul. case_match; [by apply yields_ret | apply yields_fail]. Qed.

Lemma ident_prefix (l : bytes) a b c d e f : length l = 16%nat ->
  default 0 (l !! 0%nat) = a -> default 0 (l !! 1%nat) = b -> default 0 (l !! 2%nat) = c -> default 0 (l !! 3%nat) = d ->
  default 0 (l !! ident_class_) = e -> default 0 (l !! ident_data_encoding) = f -> take 6 l = [a; b; c; d; e; f].
Proof. intros Hl. do 6 (destruct l as [|? l]; [discriminate Hl|]). cbn. by intros -> -> -> -> -> ->. Qed.

Lemma check_header_yields data h limit : length (h_ident h) = 16%nat ->
  yields data (check_header h limit) (goes_on (fun _ => supported_header h limit)).
Proof.
  intros Hl. unfold check_header, supported_header.
  case_match eqn:E0; [apply yields_reject|]. case_match eqn:E1; [apply yields_reject|].
  case_match eqn:E2; [apply yields_reject|]. case_match eqn:E3; [apply yields_reject|].
  case_match eqn:E4; [apply yields_reject|]. case_match eqn:E5; [apply yields_reject|].
  eapply yields_bind; [apply int_mul_yields|]. intros _ ->. case_match eqn:E6; [apply yields_reject|].
  eapply yields_bind; [apply int_mul_yields|]. intros _ ->. case_match eqn:E7; [apply yields_reject|].
  apply yields_proceed. split; [by apply ident_prefix; lia|]. repeat split; lia.
Qed.

(** The parser returns on every image that is laid out. *)
Lemma parse_image_runs data : byte_list data -> Z.of_nat (length data) < 2 ^ 64 ->
  (forall h, load_header data = Ok (h, data) -> laid_out data h) -> runs data parse_image (goes_on (fun _ => True)).
Proof.
  intros Hd Hs HL. unfold parse_image. eapply runs_bind; [by apply (runs_ret data data (fun d => d = data))|].
  intros _ ->. case_match eqn:E; [apply runs_reject|]. apply Z.ltb_ge in E.
  destruct (load_header_total data Hd E) as (h & Eh & Hh). specialize (HL h Eh).
  eapply runs_bind; [by exists h; split; [done|exact (eq_refl h)]|]. intros _ <-.
  eapply runs_and_then; [by apply check_header_runs|]. intros _ [Hp Hsec].
  pose proof Hh as (_ & _ & _ & _ & _ & Hpo & Hso & Hpw & Hpn & Hsw & Hsn).
  assert (h_phnum h < Z.of_nat (parse_fuel data) /\ h_shnum h < Z.of_nat (parse_fuel data)) as [Hf1 Hf2].
  { unfold parse_fuel. rewrite Nat2Z.inj_add. split; lia. }
  eapply runs_and_then; [apply (scan_program_headers_runs data Hd Hs h Hh HL Hp); [lia|cbn [p_table_size image_program_headers _header new_image]; lia|done]|].
  intros d Hdyn. eapply (runs_and_then _ _ _ (fun e => _header e = h)).
  - destruct d as [p|]; [|by apply runs_proceed]. destruct Hdyn as (i & Hi & -> & Lt).
    pose proof (lo_phentsize _ _ HL) as Hw. unfold sizeof_program_header_entry in Hw. unfold is_u64 in *.
    assert (0 <= ph_at h i /\ ph_at h i + 56 <= Z.of_nat (length data)) as [Hp1 Hp2] by (unfold ph_at; nia).
    apply parse_dynamic_runs; [done..|]. intros o Lo. by eapply (lo_dynamic _ _ HL i).
  - intros e <-. eapply runs_and_then; [apply scan_sections_runs; [done..| |]|].
    + pose proof (lo_shnum _ _ HL). lia.
    + lia.
    + intros e' _. case_match; [apply runs_reject | by apply runs_proceed].
Qed.

(** ** What an accepted image satisfies *)

(** Pointers to the entries of the two tables, as the iterators compute them. *)
Definition ph_ptr (h : header) (i : Z) : Z := advance (advance 0 (h_phoff h)) (u64 (i * h_phentsize h)).
Definition sh_ptr (h : header) (i : Z) : Z := advance (advance 0 (h_shoff h)) (u64 (i * h_shentsize h)).

Definition supported_segment (t : segment_types.segment_type) : bool :=
  match t with
  | segment_types.load | segment_types.dynamic | segment_types.note | segment_types.phdr
  | segment_types.gnu_stack | segment_types.gnu_relro => true
  | _ => false
  end.
Definition supported_section (t : section_types.section_type) : bool :=
  match t with
  | section_types.progbits | section_types.symtab | section_types.strtab | section_types.rela
  | section_types.dynamic | section_types.note | section_types.nobits | section_types.dynsym
  | section_types.init_array | section_types.gnu_hash => true
  | _ => false
  end.

Definition segment_at (data : bytes) (p : Z) (t : segment_types.segment_type) : Prop :=
  load (advance p program_header_type) 4 data = Ok (enum_val t, data).
(** The section whose header is at [p]: its type and the range it takes up. *)
Definition section_at (data : bytes) (p : Z) (t : section_types.section_type) (o n : Z) : Prop :=
  load (advance p section_header_type) 4 data = Ok (enum_val t, data) /\
  load (advance p section_header_offset) 8 data = Ok (o, data) /\
  load (advance p section_header_size) 8 data = Ok (n, data).

Section accepted.
Context (data : bytes) (Hdata : byte_list data).
Abbreviation size := (Z.of_nat (length data)).

Lemma segment_offset_yields p : yields data (segment_offset p) (fun _ => True).
Proof using. unfold segment_offset. eapply yields_bind; [apply yields_load|]. intros v _. by apply yields_ret. Qed.

Lemma segment_type_yields p : yields data (segment_type_of p) (segment_at data p).
Proof using.
  unfold segment_type_of, segment_at. eapply yields_bind; [apply yields_load|]. intros v L.
  apply yields_ret. by rewrite val_static_cast.
Qed.

Lemma check_program_header_yields p d :
  yields data (check_program_header p d) (goes_on (fun d' => exists t,
    segment_at data p t /\ supported_segment t = true /\
    (t = segment_types.dynamic /\ d = None /\ d' = Some p \/ t <> segment_types.dynamic /\ d' = d))).
Proof using.
  unfold check_program_header. eapply yields_bind; [apply segment_type_yields|]. intros t L.
  destruct t; try destruct d;
    try (eapply yields_bind; [apply segment_offset_yields|]; intros o _; apply yields_reject);
    apply yields_proceed; eexists; (split; [exact L|]); split; solve [done | left; done | right; done].
Qed.

Definition dynamic_segment (h : header) (j : Z) : Prop := segment_at data (ph_ptr h j) segment_types.dynamic.

Lemma supported_dynamic p t : segment_at data p t -> supported_segment t = true ->
  segment_at data p segment_types.dynamic -> t = segment_types.dynamic.
Proof using.
  unfold segment_at. intros -> H [= E]. destruct t; try discriminate H; try discriminate E; done.
Qed.

(** The loop: every program header is supported and at most one is DYNAMIC, the
    one that is found. *)
Definition segments_checked (h : header) (i : Z) (d d' : option Z) : Prop :=
  (forall j, i <= j < h_phnum h -> exists t, segment_at data (ph_ptr h j) t /\ supported_segment t = true) /\
  (d' = d /\ (forall j, i <= j < h_phnum h -> ~ dynamic_segment h j) \/
   d = None /\ exists j, i <= j < h_phnum h /\ d' = Some (ph_ptr h j) /\ dynamic_segment h j /\
     (forall j', i <= j' < h_phnum h -> dynamic_segment h j' -> j' = j)).

Lemma segments_checked_step h i d d1 d' t : 0 <= i < h_phnum h ->
  segment_at data (ph_ptr h i) t -> supported_segment t = true ->
  (t = segment_types.dynamic /\ d = None /\ d1 = Some (ph_ptr h i) \/ t <> segment_types.dynamic /\ d1 = d) ->
  segments_checked h (i + 1) d1 d' -> segments_checked h i d d'.
Proof using.
  intros Hi Ht Hs Hd [Hsup Hdyn].
  assert (forall j, i <= j < h_phnum h -> j = i \/ i + 1 <= j < h_phnum h) as Hj by lia.
  split. { intros j [-> | H]%Hj; [by exists t | by apply Hsup]. }
  destruct Hd as [(-> & -> & ->) | [Hne ->]].
  - destruct Hdyn as [[-> Hno] | [[=] _]]. right. split; [done|]. exists i. repeat split; [lia..|done|].
    intros j' [-> | H]%Hj Hd'; [done|]. by destruct (Hno j').
  - assert (~ dynamic_segment h i) as Hni by (intros Hdi; by apply Hne, (supported_dynamic _ _ Ht)).
    destruct Hdyn as [[-> Hno] | (-> & j & Hj' & -> & Hdj & Hu)].
    + left. split; [done|]. intros j [-> | H]%Hj; auto.
    + right. split; [done|]. exists j. repeat split; [lia..|done|].
      intros j' [-> | H]%Hj Hd'; [done|]. by apply Hu.
Qed.

Lemma scan_program_headers_yields h fuel i d : header_ok h -> 0 <= i <= h_phnum h ->
  yields data (scan_program_headers fuel (mkIter (advance 0 (h_phoff h)) i (h_phentsize h))
    (mkIter (advance 0 (h_phoff h)) (h_phnum h) (h_phentsize h)) d) (goes_on (segments_checked h i d)).
Proof using.
  intros (_ & _ & _ & _ & _ & _ & _ & _ & Hn & _). revert i d.
  induction fuel as [|fuel IH]; intros i d Hi; [apply yields_fail|]. cbn [scan_program_headers].
  case_decide as E.
  { injection E as ->. apply yields_proceed. split; [intros; lia|]. left. split; [done|]. intros; lia. }
  assert (i <> h_phnum h) by (intros ->; done).
  eapply yields_and_then; [apply check_program_header_yields|]. intros d1 (t & Ht & Hs & Hd).
  unfold program_header_next. cbn [it_table it_index it_entry_size]. rewrite (u64_id (i + 1)) by (unfold is_u64; lia).
  assert (i + 1 <= h_phnum h) by lia.
  intros r d2 Hr. apply IH in Hr as [-> Hr]; [|lia]. split; [done|]. destruct r as [e|d']; [done|].
  eapply segments_checked_step; [lia|done..].
Qed.

(** The sections. *)
Lemma u64_s64_add o n : is_u64 o -> u64 (s64 o + n) = u64 (o + n).
Proof using.
  intros Ho. unfold u64, wrapu. rewrite <- (Zplus_mod_idemp_l (s64 o)), <- (Zplus_mod_idemp_l o).
  fold (wrapu 64 (s64 o)) (wrapu 64 o). fold (u64 (s64 o)) (u64 o). by rewrite u64_s64, u64_id.
Qed.

(** A section that was checked; the size of the symbol table is that of the
    dynamic symbol section at its place. *)
Definition section_checked (p : Z) : Prop :=
  exists t o n, section_at data p t o n /\ supported_section t = true /\ u64 (o + n) <= size.
Definition symbols_sized (e : elf_image) : Prop :=
  _symtab_size e = 0 \/
  exists p o n, section_at data p section_types.dynsym o n /\ u64 (o + n) <= size /\
    _symtab e = Some o /\ _symtab_size e = n / sizeof_symbol.

Lemma check_section_yields p e :
  yields data (check_section size p e) (goes_on (fun e' =>
    section_checked p /\ _header e' = _header e /\ (symbols_sized e -> symbols_sized e'))).
Proof using Hdata.
  unfold check_section, section_offset, section_length, section_type_of. 
  eapply (yields_bind _ _ _ (fun o => exists v, o = s64 v /\ is_u64 v /\ load (advance p section_header_offset) 8 data = Ok (v, data))).
  { eapply yields_bind; [apply yields_load|]. intros v L. apply yields_ret. exists v.
    destruct (load_inv data Hdata _ _ _ _ L) as (_ & Hb & _). done. }
  intros _ (o & -> & Ho & Lo). eapply yields_bind; [apply yields_load|]. intros n Ln.
  rewrite u64_s64_add by done. case_match eqn:El; [apply yields_reject|]. apply Z.ltb_ge in El.
  eapply (yields_bind _ _ _ (fun t => load (advance p section_header_type) 4 data = Ok (enum_val t, data))).
  { eapply yields_bind; [apply yields_load|]. intros v L. apply yields_ret. by rewrite val_static_cast. }
  intros t Lt. rewrite advance_s64 by done.
  assert (supported_section t = true -> section_checked p) as Hc by (intros Hs; by exists t, o, n).
  destruct t; try case_decide; try apply yields_reject; apply yields_proceed; split_and!; try done; try by apply Hc.
  intros _. right. by exists p, o, n.
Qed.

Lemma scan_sections_yields h fuel i e : header_ok h -> 1 <= i -> i + Z.of_nat fuel < 2 ^ 64 ->
  yields data (scan_sections fuel size (mkIter (advance 0 (h_shoff h)) i (h_shentsize h))
    (mkIter (advance 0 (h_shoff h)) (h_shnum h) (h_shentsize h)) e) (goes_on (fun e' =>
      i <= h_shnum h /\ (forall j, i <= j < h_shnum h -> section_checked (sh_ptr h j)) /\
      _header e' = _header e /\ (symbols_sized e -> symbols_sized e'))).
Proof using Hdata.
  intros (_ & _ & _ & _ & _ & _ & _ & _ & _ & _ & Hn). revert i e.
  induction fuel as [|fuel IH]; intros i e Hi Hf; [apply yields_fail|]. cbn [scan_sections].
  case_decide as E.
  { injection E as ->. apply yields_proceed. split_and!; [lia|intros; lia|done|done]. }
  eapply yields_and_then; [apply check_section_yields|]. intros e1 (Hc & Hh & Hs1).
  unfold section_next. cbn [it_table it_index it_entry_size]. rewrite (u64_id (i + 1)) by (unfold is_u64; lia).
  intros r d2 Hr. apply IH in Hr as [-> Hr]; [|lia..]. split; [done|]. destruct r as [x|e']; [done|].
  destruct Hr as (Hle & Hall & Hh' & Hs'). split_and!; [lia| |congruence|auto].
  intros j Hj. destruct (decide (j = i)) as [->|]; [exact Hc|]. apply Hall. lia.
Qed.

(** The dynamic entries do not touch the header and the size of the symbol table. *)
Definition kept (e e' : elf_image) : Prop := _header e' = _header e /\ _symtab_size e' = _symtab_size e.

Lemma read_dynamic_entry_yields p s :
  yields data (read_dynamic_entry p s) (goes_on (fun r =>
    match r with Some s' => kept (dyn_image s) (dyn_image s') | None => True end)).
Proof using.
  unfold read_dynamic_entry. eapply yields_bind; [apply yields_load|]. intros tag _.
  destruct (static_cast tag); elf_yields; done.
Qed.

Lemma scan_dynamic_yields fuel p count s :
  yields data (scan_dynamic fuel p count s) (goes_on (fun r => kept (dyn_image s) (dyn_image (snd r)))).
Proof using.
  revert p count s. induction fuel as [|fuel IH]; intros p count s; [apply yields_fail|]. cbn [scan_dynamic].
  eapply yields_and_then; [apply read_dynamic_entry_yields|]. intros [s'|] Hk; [|by apply yields_proceed].
  intros r d Hr. apply IH in Hr as [-> Hr]. split; [done|]. destruct r as [x|[c s2]]; [done|].
  destruct Hk as [Hk1 Hk2], Hr as [Hr1 Hr2]. split; [by rewrite <- Hk1 | by rewrite <- Hk2].
Qed.

Lemma both_yields a b m1 m2 : yields data (both a b m1 m2) (goes_on (fun _ => True)).
Proof using. unfold both. destruct a, b; solve [apply yields_reject | by apply yields_proceed]. Qed.

Lemma parse_dynamic_yields fuel e p : yields data (parse_dynamic fuel e p) (goes_on (kept e)).
Proof using.
  unfold parse_dynamic. eapply yields_bind; [apply segment_offset_yields|]. intros o _.
  eapply yields_and_then; [apply scan_dynamic_yields|]. intros [count s] Hk.
  do 3 (eapply yields_and_then; [apply both_yields|]; intros _ _). by apply yields_proceed.
Qed.

(** An image the parser accepts. *)
Record accepted (e : elf_image) : Prop := {
  acc_header : load_header data = Ok (_header e, data);
  acc_supported : supported_header (_header e) size;
  acc_segments j : 0 <= j < h_phnum (_header e) ->
    exists t, segment_at data (ph_ptr (_header e) j) t /\ supported_segment t = true;
  acc_dynamic j j' : 0 <= j < h_phnum (_header e) -> 0 <= j' < h_phnum (_header e) ->
    dynamic_segment (_header e) j -> dynamic_segment (_header e) j' -> j = j';
  acc_shnum : 1 <= h_shnum (_header e);
  acc_sections j : 1 <= j < h_shnum (_header e) -> section_checked (sh_ptr (_header e) j);
  acc_symbols : symbols_sized e;
  acc_symtab : is_Some (_symtab e) -> _symtab_size e <> 0
}.

Lemma parse_image_yields : size < 2 ^ 63 -> yields data parse_image (goes_on accepted).
Proof using Hdata.
  intros Hsize. unfold parse_image.
  eapply yields_bind; [by apply (yields_ret data data (fun d => d = data))|]. intros _ ->.
  case_match eqn:E; [apply yields_reject|]. apply Z.ltb_ge in E.
  destruct (load_header_total data Hdata E) as (h & Eh & Hh).
  eapply (yields_bind _ _ _ (fun h' => h' = h)). { intros h' d' E'. rewrite Eh in E'. by simplify_eq. }
  intros _ ->. eapply yields_and_then; [apply check_header_yields, Hh|]. intros [] Hsup.
  pose proof Hh as (_ & _ & _ & _ & _ & _ & _ & _ & Hpn & _).
  eapply yields_and_then; [apply (scan_program_headers_yields h); [done|cbn [image_program_headers p_table_size _header new_image]; lia]|].
  intros d [Hseg Hdyn]. eapply (yields_and_then _ _ _ (kept (new_image h))).
  { destruct d as [p|]; [apply parse_dynamic_yields | by apply yields_proceed]. }
  intros e [He Hz]. cbn [_header new_image _symtab_size] in He, Hz. unfold image_sections. rewrite He.
  eapply yields_and_then; [apply scan_sections_yields; [done|lia|unfold parse_fuel; lia]|].
  intros e' (Hle & Hall & He' & Hsz). rewrite He in He'. case_match eqn:Es; [apply yields_reject|].
  apply yields_proceed. split; rewrite ?He'; [done..| | done | done | by apply Hsz; left | ].
  - intros j j' Hj Hj' Dj Dj'. destruct Hdyn as [[_ Hno] | (_ & k & _ & _ & _ & Hu)]; [by destruct (Hno j)|].
    by rewrite (Hu j), (Hu j').
  - intros Hsome. rewrite bool_decide_eq_true_2 in Es by done. cbn [andb] in Es. lia.
Qed.
End accepted.

(** C16: the parser returns, with an image or with an error message, on every
    image that is laid out: it reads no byte outside of the image, all of its
    loops end.  The parser does not check that the image is laid out. *)
Theorem try_parse_safe data :
  byte_list data -> Z.of_nat (length data) < 2 ^ 64 ->
  (forall h, load_header data = Ok (h, data) -> laid_out data h) ->
  exists r, try_parse data = Ok r.
Proof.
  intros Hd Hs HL. unfold try_parse. destruct (parse_image_runs data Hd Hs HL) as ([r|e] & -> & _); by eexists.
Qed.

(** C18: what it means that an image of fewer than [2 ^ 63] bytes is accepted: the
    header is a supported one, both tables end inside of the image, every program
    header has a supported type and at most one of them is DYNAMIC, there is a section
    table and every section of it has a supported type and ends inside of the image;
    the symbols are those of the section at the place of the symbol table.  Ends are
    compared as the code does, as sums modulo [2 ^ 64]: when the end of the symbols
    does not wrap around, each of them can be read, and when it does ([wrapped_symbols])
    they need not be. *)
Theorem try_parse_accepts data e msg off :
  byte_list data -> Z.of_nat (length data) < 2 ^ 63 ->
  try_parse data = Ok (mkParsed (Some e) msg off) ->
  accepted data e /\
  (forall o k, _symtab e = Some o -> o + (_symtab_size e + 1) * sizeof_symbol <= 2 ^ 64 -> 0 <= k < _symtab_size e ->
     exists v, wrapper_value (mkSymbol (advance o (k * sizeof_symbol)) (_strtab e)) data = Ok (v, data)).
Proof.
  intros Hd Hs Hp. assert (accepted data e) as Ha.
  { unfold try_parse in Hp. pose proof (parse_image_yields data Hd Hs) as Hy.
    destruct (parse_image data) as [[[r|e'] d]|] eqn:E; [..|done]; apply Hy in E as [-> Hg]; simplify_eq/=; congruence. }
  split; [done|]. intros o k Ho Hsz Hk.
  destruct (acc_symbols _ _ Ha) as [Hz | (p & o' & n & (Ht & Lo & Ln) & Hle & Ho' & Hn)]; [lia|].
  rewrite Ho in Ho'. injection Ho' as <-. unfold sizeof_symbol in *.
  destruct (load_inv data Hd _ _ _ _ Lo) as (_ & Ho0 & _). destruct (load_inv data Hd _ _ _ _ Ln) as (_ & Hn0 & _).
  pose proof (Z.div_mod n 24). pose proof (Z.mod_pos_bound n 24).
  rewrite u64_id in Hle by (unfold is_u64; lia). unfold wrapper_value, symbol_value_field. cbn [symbol_entry].
  rewrite !advance_small by (rewrite ?advance_small; lia).
  destruct (load_total data Hd (o + k * 24 + 8) 8) as (v & L & _); [lia..|]. exists (s64 v). by rewrite (bind_Ok _ _ _ _ _ L).
Qed.

(** ** Relocations *)

Lemma store_segment_ok {A} segment off v (k : bytes -> M bytes A) image :
  0 <= off -> off + 8 <= Z.of_nat (length segment) -> is_u64 v ->
  exists segment', store_segment segment off v k image = k segment' image /\ load off 8 segment' = Ok (v, segment') /\
    (forall i, Z.of_nat i < off \/ off + 8 <= Z.of_nat i -> segment' !! i = segment !! i).
Proof.
  intros H1 H2 Hv. unfold store_segment.
  destruct (write_inside segment off (le_bytes 8 v)) as (a & b & c & -> & -> & Hb & E); [lia|rewrite le_bytes_length; lia|].
  rewrite E. eexists. split; [done|]. split; [by apply (load_stored 8)|].
  intros i Hi. apply (write_elsewhere _ _ _ _ _ E). by rewrite le_bytes_length.
Qed.

(** Applying a relocation that sets a word stores it at its place in the
    segment and changes no other byte: the value of the symbol for GLOB_DAT, the
    address of the addend for RELATIVE, the one kind that needs no symbol.  Every
    other kind stops at [ud2].  The address that is reported is the address of
    the place moved by that of the segment. *)
Theorem relocation_applied image r e symbol_value image_vbase segment_vaddr segment :
  reloc_rela r image = Ok (e, image) ->
  0 <= segment_vaddr <= rela_offset e -> is_u64 (rela_offset e) -> is_u64 symbol_value ->
  rela_offset e - segment_vaddr + 8 <= Z.of_nat (length segment) ->
  needs_symbol r image = Ok (negb (rtype (rela_info e) =? 8), image) /\
  match static_cast (rtype (rela_info e)) with
  | amd64.R_X86_64_GLOB_DAT | amd64.R_X86_64_RELATIVE =>
      exists value segment' out,
        value = (if rtype (rela_info e) =? 8 then u64 (image_vbase + rela_addend e) else symbol_value) /\
        calculate_and_write r symbol_value image_vbase segment_vaddr segment image = Ok ((out, segment'), image) /\
        relocation_value out = s64 value /\ target_address out = u64 (image_vbase + rela_offset e + segment_vaddr) /\
        load (rela_offset e - segment_vaddr) 8 segment' = Ok (value, segment') /\
        (forall i, Z.of_nat i < rela_offset e - segment_vaddr \/ rela_offset e - segment_vaddr + 8 <= Z.of_nat i ->
           segment' !! i = segment !! i)
  | _ => calculate_and_write r symbol_value image_vbase segment_vaddr segment image = Err (Panic "ud2")
  end.
Proof.
  intros He Hv Ho Hs Hl. unfold needs_symbol, calculate_and_write. rewrite !(bind_Ok _ _ _ _ _ He).
  set (place := u64 (rela_offset e - segment_vaddr)).
  assert (place = rela_offset e - segment_vaddr) as Hp by (apply u64_id; unfold is_u64 in *; lia).
  assert (forall v, u64 (u64 (image_vbase + segment_vaddr) + v) = u64 (image_vbase + v + segment_vaddr)) as Ht.
  { intros v. unfold u64, wrapu. rewrite Zplus_mod_idemp_l. f_equal. lia. }
  rewrite <- Hp in *. assert (0 <= place) by lia. clearbody place.
  assert (forall v, is_u64 v -> exists segment' out,
    store_segment segment place v (fun segment' => ret (mkWritten (u64 (u64 (image_vbase + segment_vaddr) + rela_offset e)) (s64 v), segment')) image
      = Ok ((out, segment'), image) /\
    relocation_value out = s64 v /\ target_address out = u64 (image_vbase + rela_offset e + segment_vaddr) /\
    load place 8 segment' = Ok (v, segment') /\
    (forall i, Z.of_nat i < place \/ place + 8 <= Z.of_nat i -> segment' !! i = segment !! i)) as Hstore.
  { intros v Hv'. destruct (store_segment_ok segment place v (fun segment' =>
      ret (mkWritten (u64 (u64 (image_vbase + segment_vaddr) + rela_offset e)) (s64 v), segment')) image)
      as (segment' & E & L & Hr); [done..|].
    rewrite E. exists segment'. eexists. split; [reflexivity|]. cbn [relocation_value target_address]. by rewrite Ht. }
  destruct (Z.eqb_spec (rtype (rela_info e)) 8) as [E8|N8].
  - rewrite E8. change (static_cast 8) with amd64.R_X86_64_RELATIVE. split; [done|].
    eexists. destruct (Hstore (u64 (image_vbase + rela_addend e))) as (segment' & out & H'); [apply u64_is_u64|].
    exists segment', out. split; [reflexivity|]. exact H'.
  - pose proof (val_static_cast (T := amd64.amd64_reloc) (rtype (rela_info e))) as E.
    destruct (static_cast (rtype (rela_info e))); try (by split).
    split; [done|]. eexists. destruct (Hstore symbol_value) as (segment' & out & H'); [done|].
    exists segment', out. split; [reflexivity|]. exact H'.
Qed.

(** ** A small shared object *)

Definition encode_header (h : header) : bytes :=
  h_ident h ++ le_bytes 2 (h_type h) ++ le_bytes 2 (h_machine h) ++ le_bytes 4 (h_version h) ++
  le_bytes 8 (h_entry h) ++ le_bytes 8 (h_phoff h) ++ le_bytes 8 (h_shoff h) ++ le_bytes 4 (h_flags h) ++
  le_bytes 2 (h_ehsize h) ++ le_bytes 2 (h_phentsize h) ++ le_bytes 2 (h_phnum h) ++
  le_bytes 2 (h_shentsize h) ++ le_bytes 2 (h_shnum h) ++ le_bytes 2 (h_shstrndx h).
Definition encode_segment (type offset vaddr filesz memsz : Z) : bytes :=
  le_bytes 4 type ++ le_bytes 4 0 ++ le_bytes 8 offset ++ le_bytes 8 vaddr ++ le_bytes 8 0 ++ le_bytes 8 filesz ++
  le_bytes 8 memsz ++ le_bytes 8 0.
Definition encode_section (type offset size : Z) : bytes :=
  le_bytes 4 0 ++ le_bytes 4 type ++ le_bytes 8 0 ++ le_bytes 8 0 ++ le_bytes 8 offset ++ le_bytes 8 size ++ le_bytes 24 0.
Definition encode_dynamic (tag value : Z) : bytes := le_bytes 8 tag ++ le_bytes 8 value.
Definition encode_rela (r : rela) : bytes := le_bytes 8 (rela_offset r) ++ le_bytes 8 (rela_info r) ++ le_bytes 8 (rela_addend r).

Definition sample_ident : bytes := [127; 69; 76; 70; 2; 1; 1; 0; 0; 0; 0; 0; 0; 0; 0; 0].
Definition sample_header (phoff shnum : Z) : header :=
  mkHeader sample_ident 3 62 1 0x1000 phoff 360 0 64 56 2 64 shnum 0.
(** Two segments at 64, the dynamic entries at 176, the symbols at 256, their
    names at 304, one relocation at 312 and the section headers at 360. *)
Definition object_with_symbols (symtab symsize phoff shnum dynamic : Z) : bytes :=
  encode_header (sample_header phoff shnum) ++
  encode_segment 1 0 0 488 488 ++ encode_segment 2 dynamic dynamic 80 80 ++
  encode_dynamic 6 symtab ++ encode_dynamic 5 304 ++ encode_dynamic 7 312 ++ encode_dynamic 8 24 ++ encode_dynamic 0 0 ++
  replicate 24 0 ++ le_bytes 4 1 ++ le_bytes 4 0 ++ le_bytes 8 0x1234 ++ le_bytes 8 0 ++
  [0; 102; 111; 111; 0; 0; 0; 0] ++
  encode_rela (mkRela 480 (rinfo 0 8) 16) ++ replicate 24 0 ++
  encode_section 0 0 0 ++ encode_section 11 symtab symsize.
Definition sample_object : Z -> Z -> Z -> bytes := object_with_symbols 256 48.
Definition sample_image : bytes := sample_object 64 2 176.

Lemma sample_bytes : byte_list sample_image.
Proof. apply (bool_decide_unpack _). vm_compute. exact I. Qed.

Lemma sample_laid_out h : load_header sample_image = Ok (h, sample_image) -> laid_out sample_image h.
Proof.
  intros E. assert (h = sample_header 64 2) as ->.
  { assert (load_header sample_image = Ok (sample_header 64 2, sample_image)) as E' by (vm_compute; reflexivity).
    rewrite E in E'. by injection E'. }
  split; try (by vm_compute). intros i o Hi. assert (i = 0 \/ i = 1) as [-> | ->] by (cbn in Hi; lia).
  - intros L. vm_compute in L. discriminate L.
  - intros _ L. assert (o = 176) as -> by (vm_compute in L; congruence).
    exists 4%nat. split; vm_compute; congruence.
Qed.

Lemma try_parse_safe_witness : exists r, try_parse sample_image = Ok r.
Proof. apply (try_parse_safe sample_image sample_bytes); [vm_compute; reflexivity | exact sample_laid_out]. Defined.

Definition sample_parsed : elf_image :=
  mkImage (sample_header 64 2) (Some 176) 4 (Some 304) (rela_ptr (Some 312)) 1 (Some 256) 2 None None None.

Lemma try_parse_accepts_witness :
  accepted sample_image sample_parsed /\
  exists v, wrapper_value (mkSymbol (advance 256 (1 * sizeof_symbol)) (Some 304)) sample_image = Ok (v, sample_image).
Proof.
  destruct (try_parse_accepts sample_image sample_parsed "" 0 sample_bytes) as [Ha Hs];
    [vm_compute; reflexivity | vm_compute; reflexivity |]. split; [exact Ha|].
  apply (Hs 256 1); [reflexivity | vm_compute; congruence | vm_compute; split; congruence].
Defined.

Lemma relocation_applied_witness :
  exists segment' out,
    calculate_and_write (mkRelocation (rela_ptr (Some 312)) (Some 256) (Some 304)) 0 0x400000 0 sample_image sample_image
      = Ok ((out, segment'), sample_image) /\ load 480 8 segment' = Ok (0x400010, segment').
Proof.
  destruct (relocation_applied sample_image (mkRelocation (rela_ptr (Some 312)) (Some 256) (Some 304))
    (mkRela 480 8 16) 0 0x400000 0 sample_image) as [_ H];
    [vm_compute; reflexivity | cbn; lia | unfold is_u64; cbn; lia | unfold is_u64; lia | vm_compute; congruence |].
  cbn -[calculate_and_write load] in H. destruct H as (value & segment' & out & -> & E & _ & _ & L & _).
  exists segment', out. split; [exact E | exact L].
Defined.

(** Each part of the layout that is not checked is needed: a program header
    offset that wraps around past the end of the address space passes the check of
    the table and is then read through, dynamic entries without a null entry are
    read up to the end of the image and beyond, and in an image without a section
    table the loop over its sections starts past their end. *)
Theorem unchecked_layout_faults :
  try_parse (sample_object (2 ^ 64 - 56) 2 176) = Err Fault /\
  try_parse (sample_object 64 2 488 ++ encode_dynamic 1 0) = Err Fault /\
  try_parse (sample_object 64 0 176) = Err Fault.
Proof. repeat split; vm_compute; reflexivity. Qed.

(** Symbols that start before the end of the address space and end, modulo [2 ^ 64], at
    its beginning pass the check of their section; reading the first one faults. *)
Example wrapped_symbols :
  match try_parse (object_with_symbols (2 ^ 64 - 4800) 4800 64 2 176) with
  | Ok (mkParsed (Some e) _ _) =>
      (_symtab e, _symtab_size e) = (Some (2 ^ 64 - 4800), 200) /\
      wrapper_value (mkSymbol (2 ^ 64 - 4800) (_strtab e)) (object_with_symbols (2 ^ 64 - 4800) 4800 64 2 176) = Err Fault
  | _ => False
  end.
Proof. vm_compute. split; reflexivity. Qed.
