(* ===== verification/Vmo.v ===== *)
(** * Virtual memory objects: kernel/memory/vmo.cpp

    A physical object is a range of physical memory; a sparse one is a sequence
    of elements, each an offset with or without a frame behind it.  An element
    without a frame stands for everything up to the next element; committing
    splits it into pages and takes a frame for each.

    The elements are kept in an AVL tree; here they are the sequence the tree is
    in order, and an iterator is a position in it ([AvlTheorems]: insertion,
    iteration).  What [lower_bound] and [--] of the tree do is not a function of
    that sequence alone; they are operations of [ElementTree]. *)
From S2P Require Import Prelude Pmm.

(** The memory manager as a state, and as the two types of objects. *)
Inductive vmo_type : Type := physical | sparse.

Record sparse_vmo_element : Type := mkElement {
  offset : Z;
  backing_address : option Z
}.

Record vmo : Type := mkVmo {
  _type : vmo_type;
  _length : Z;
  _aligned_to_page_level : nat;
  _base : Z;
  elements : list sparse_vmo_element
}.

(** What the object code asks of the tree of elements: a position for the first
    element not below an offset, which may be missed when no element is at that
    offset ([lower_bound_sound]), and a step back. *)
Class ElementTree : Type := {
  et_lower : list sparse_vmo_element -> Z -> nat;
  et_prev : list sparse_vmo_element -> nat -> res nat;
  et_lower_ok l k :
    (forall i e, l !! i = Some e -> offset e = k -> (forall j e', (j < i)%nat -> l !! j = Some e' -> offset e' < k) ->
       et_lower l k = i) /\
    ((forall e, e ∈ l -> offset e < k) -> et_lower l k = length l)
}.

Section ops.
Context {ET : ElementTree}.

Definition set_elements (v : vmo) (l : list sparse_vmo_element) : vmo :=
  mkVmo (_type v) (_length v) (_aligned_to_page_level v) (_base v) l.

(** [length += (page_size - length) % page_size] *)
Definition round_length (length : Z) (level : nat) : Z :=
  u64 (length + u64 (page_size level - length) mod page_size level).

Definition create_physical_vmo (base length : Z) (aligned_to_page_level : nat) : vmo :=
  mkVmo physical (round_length length aligned_to_page_level) aligned_to_page_level base [].

Definition create_sparse_vmo (length : Z) (aligned_to_page_level : nat) : vmo :=
  mkVmo sparse (round_length length aligned_to_page_level) aligned_to_page_level 0 [mkElement 0 None].

(** Accessors that insist on the type. *)
Definition vmo_base (v : vmo) : res Z :=
  match _type v with
  | physical => Ok (_base v)
  | sparse => Err (Panic "tried to get a base address of a non-physical VMO!")
  end.
Definition sparse_elements (v : vmo) : res (list sparse_vmo_element) :=
  match _type v with
  | sparse => Ok (elements v)
  | physical => Err (Panic "tied to get sparse elements of a non-sparse VMO!")
  end.

(** [elements.upper_bound]: [lower_bound], one further when the element there is
    at the offset. *)
Definition upper_position (l : list sparse_vmo_element) (k : Z) : nat :=
  let i := et_lower l k in
  match l !! i with
  | Some e => if offset e =? k then S i else i
  | None => i
  end.

(** The inner loop: an element of several pages is split, each page getting a
    frame; gives the elements that are done and the offset of the last one. *)
Fixpoint split_loop (fuel : nat) (level : nat) (off next_offset : Z) (acc : list sparse_vmo_element)
    : M pmm (list sparse_vmo_element * Z) :=
  match fuel with
  | O => fail NoFuel
  | S n =>
      if u64 (off + page_size level) <? next_offset then
        let* f := pop level in
        split_loop n level (u64 (off + page_size level)) next_offset (acc ++ [mkElement off (Some f)])
      else ret (acc, off)
  end.

(** The outer loop: [pre] are the elements before [begin], [rest] those from it
    on, [stop] the number of elements from [end] on. *)
Fixpoint commit_loop (fuel : nat) (v : vmo) (stop : nat) (pre rest : list sparse_vmo_element)
    : M pmm (list sparse_vmo_element) :=
  match fuel with
  | O => fail NoFuel
  | S n =>
      if (length rest =? stop)%nat then ret (pre ++ rest) else
      match rest with
      | [] => fail Fault
      | b :: rest' =>
          match backing_address b with
          | Some _ => commit_loop n v stop (pre ++ [b]) rest'
          | None =>
              let next_offset := match rest' with [] => _length v | e :: _ => offset e end in
              let level := _aligned_to_page_level v in
              let* r := split_loop (S (Z.to_nat (next_offset / page_size level))) level (offset b) next_offset [] in
              let* f := pop level in
              commit_loop n v stop (pre ++ r.1 ++ [mkElement r.2 (Some f)]) rest'
          end
      end
  end.

Definition commit_between_offsets (v : vmo) (start_offset end_offset : Z) : M pmm vmo :=
  match _type v with
  | physical => ret v
  | sparse =>
      let l := elements v in
      let b := et_lower l start_offset in
      match l !! b with
      | None => fail Fault
      | Some e =>
          let* b := (if start_offset <? offset e
                     then fun s => match et_prev l b with Ok b' => Ok (b', s) | Err x => Err x end
                     else ret b) in
          let stop := (length l - upper_position l end_offset)%nat in
          let* l' := commit_loop (S (length l)) v stop (take b l) (drop b l) in
          ret (set_elements v l')
      end
  end.

Definition commit_all (v : vmo) : M pmm vmo := commit_between_offsets v 0 (_length v).

(** [~vmo]: the frames go back. *)
Fixpoint release_elements (level : nat) (l : list sparse_vmo_element) : M pmm unit :=
  match l with
  | [] => ret tt
  | e :: l' =>
      (match backing_address e with
       | Some f => push level f
       | None => ret tt
       end) ;;
      release_elements level l'
  end.
Definition vmo_destroy (v : vmo) : M pmm unit :=
  match _type v with
  | physical => ret tt
  | sparse => release_elements (_aligned_to_page_level v) (elements v)
  end.
End ops.

(** ** Well-formed objects *)

(** The frames behind a list of elements. *)
Definition backings (l : list sparse_vmo_element) : list Z := omap backing_address l.

(** Elements from [off] up to [len]: offsets ascend from [off] in whole pages,
    and an element with a frame covers one page. *)
Fixpoint covers (ps off len : Z) (l : list sparse_vmo_element) : Prop :=
  match l with
  | [] => off = len
  | e :: l' =>
      offset e = off /\
      exists n : nat, (0 < n)%nat /\ (backing_address e <> None -> n = 1%nat) /\ covers ps (off + Z.of_nat n * ps) len l'
  end.

Record vmo_ok (v : vmo) : Prop := {
  vo_sparse : _type v = sparse;
  vo_level : (_aligned_to_page_level v < page_size_count)%nat;
  vo_length : 0 < _length v < 2 ^ 63;
  vo_covers : covers (page_size (_aligned_to_page_level v)) 0 (_length v) (elements v)
}.

(** Page by page, all with a frame. *)
Fixpoint committed (ps off : Z) (fs : list Z) : list sparse_vmo_element :=
  match fs with
  | [] => []
  | f :: fs' => mkElement off (Some f) :: committed ps (off + ps) fs'
  end.

Section laws.
Context {ET : ElementTree}.

Lemma page_size_bounds i : (i < page_size_count)%nat -> 4096 <= page_size i <= 2 ^ 30 /\ 2 ^ 64 mod page_size i = 0.
Proof using Type. intros Hi. unfold page_size_count in Hi. do 3 (destruct i as [|i]; [vm_compute; intuition discriminate|]). lia. Qed.

(** Rounding gives the least multiple of the page size that is no less. *)
Lemma round_length_spec length level :
  (level < page_size_count)%nat -> 0 <= length < 2 ^ 63 ->
  let ps := page_size level in
  let r := round_length length level in
  r mod ps = 0 /\ length <= r < length + ps.
Proof using Type.
  intros Hl Hn ps r. destruct (page_size_bounds level Hl) as [Hp Hm]. fold ps in Hp, Hm. subst r. unfold round_length. fold ps.
  assert (E : u64 (ps - length) mod ps = (- length) mod ps).
  { unfold u64, wrapu. rewrite Z.mod_mod_divide by (apply Z.mod_divide; [lia|done]).
    replace (ps - length) with (- length + 1 * ps) by lia. by rewrite Z_mod_plus_full. }
  rewrite E. pose proof (Z.mod_pos_bound (- length) ps ltac:(lia)) as B. rewrite u64_id by (unfold is_u64; lia).
  split; [|lia]. rewrite Z.add_mod_idemp_r by lia. rewrite Z.add_opp_diag_r. apply Z.mod_0_l. lia.
Qed.

Lemma committed_app ps off fs gs :
  committed ps off (fs ++ gs) = committed ps off fs ++ committed ps (off + Z.of_nat (length fs) * ps) gs.
Proof using Type.
  revert off. induction fs as [|f fs IH]; intros off; cbn [app committed length].
  - f_equal. lia.
  - rewrite IH. do 3 f_equal. lia.
Qed.
Lemma backings_committed ps off fs : backings (committed ps off fs) = fs.
Proof using Type. revert off. induction fs as [|f fs IH]; intros off; [done|]. cbn. f_equal. apply IH. Qed.

Lemma covers_le ps off len l : 0 < ps -> covers ps off len l -> off <= len.
Proof using Type.
  intros Hp. revert off. induction l as [|e l IH]; intros off; cbn; [lia|].
  intros (_ & n & Hn & _ & H). apply IH in H. nia.
Qed.

Lemma split_loop_spec fuel level off (n : nat) acc s ls fs tail :
  let ps := page_size level in
  (level < page_size_count)%nat -> 0 <= off -> off + Z.of_nat (S n) * ps < 2 ^ 63 -> (n < fuel)%nat ->
  pmm_rep s ls -> ls !! level = Some (fs ++ tail) -> length fs = n ->
  exists s', split_loop fuel level off (off + Z.of_nat (S n) * ps) acc s =
      Ok ((acc ++ committed ps off fs, off + Z.of_nat n * ps), s') /\ pmm_rep s' (<[level := tail]> ls).
Proof using Type.
  intros ps Hl. destruct (page_size_bounds level Hl) as [Hp _]. fold ps in Hp. 
  revert off n acc s ls fs. induction fuel as [|fuel IH]; intros off n acc s ls fs Ho Hb Hf R Hs Hn; [lia|].
  cbn [split_loop]. fold ps. rewrite u64_id by (unfold is_u64; nia). destruct fs as [|f fs]; cbn in Hn; subst n.
  - rewrite (proj2 (Z.ltb_ge _ _)) by lia. exists s. split; [cbn [committed]; rewrite app_nil_r; unfold ret; do 3 f_equal; lia|].
    rewrite list_insert_id; done.
  - rewrite (proj2 (Z.ltb_lt _ _)) by nia. destruct (pop_spec s ls level f (fs ++ tail) R Hs) as (s1 & E1 & R1 & _).
    erewrite bind_Ok by done.
    destruct (IH (off + ps) (length fs) (acc ++ [mkElement off (Some f)]) s1 (<[level := fs ++ tail]> ls) fs) as (s' & E & R'); try done; try lia.
    { apply list_lookup_insert_eq. by eapply lookup_lt_Some. }
    exists s'. split.
    + replace (off + Z.of_nat (S (S (length fs))) * ps) with (off + ps + Z.of_nat (S (length fs)) * ps) by lia.
      rewrite E. cbn [committed]. rewrite <- app_assoc. do 3 f_equal. lia.
    + by rewrite list_insert_insert_eq in R'.
Qed.

Lemma commit_loop_spec fuel v pre rest off s ls fs tail :
  let level := _aligned_to_page_level v in
  let ps := page_size level in
  (level < page_size_count)%nat -> 0 <= off -> _length v < 2 ^ 63 -> covers ps off (_length v) rest ->
  (length rest < fuel)%nat -> pmm_rep s ls -> ls !! level = Some (fs ++ tail) ->
  Z.of_nat (length fs + length (backings rest)) * ps = _length v - off ->
  exists s' gs, commit_loop fuel v 0 pre rest s = Ok (pre ++ committed ps off gs, s') /\
    pmm_rep s' (<[level := tail]> ls) /\ gs ≡ₚ fs ++ backings rest /\
    (forall e, e ∈ rest -> backing_address e <> None -> e ∈ committed ps off gs).
Proof using Type.
  intros level ps Hl. destruct (page_size_bounds level Hl) as [Hp _]. fold ps in Hp.
  revert pre rest off s ls fs. induction fuel as [|fuel IH]; intros pre rest off s ls fs Ho Hb Hc Hf R Hs Hn; [lia|].
  cbn [commit_loop]. destruct rest as [|e rest]; cbn [length Nat.eqb].
  { cbn [covers] in Hc. change (length (backings [])) with 0%nat in Hn. assert (length fs = 0%nat) as ->%nil_length_inv by nia.
    exists s, []. split; [done|]. split; [by rewrite list_insert_id|]. split; [done|]. intros e He. by apply elem_of_nil in He. }
  cbn [covers] in Hc. destruct Hc as (Eo & n & Hn0 & Hn1 & Hc). pose proof (covers_le ps _ _ _ ltac:(lia) Hc) as Hle.
  destruct (backing_address e) as [g|] eqn:Eb.
  - assert (Hbs : backings (e :: rest) = g :: backings rest) by (unfold backings; cbn; by rewrite Eb).
    specialize (Hn1 ltac:(done)). subst n.
    destruct (IH (pre ++ [e]) rest (off + ps) s ls fs) as (s' & gs & E & R' & P & K); try done; try lia.
    { by replace (off + ps) with (off + Z.of_nat 1 * ps) by lia. }
    { cbn in Hf. lia. }
    { rewrite Hbs in Hn. cbn [length] in Hn. lia. }
    exists s', (g :: gs). assert (Ee : e = mkElement off (Some g)) by (destruct e; cbn in *; congruence).
    split; [rewrite E, <- app_assoc, Ee; done|]. split; [done|].
    split; [rewrite Hbs, P; by rewrite Permutation_middle|].
    intros x [-> |Hx]%elem_of_cons Hbx; cbn [committed]; [rewrite Ee; by left|right; by apply K].
  - assert (Hbs : backings (e :: rest) = backings rest) by (unfold backings; cbn; by rewrite Eb). rewrite Hbs in *.
    assert (Hnext : match rest with [] => _length v | e' :: _ => offset e' end = off + Z.of_nat n * ps).
    { destruct rest as [|e' rest]; cbn [covers] in Hc; [by rewrite Hc|]. apply Hc. }
    rewrite Hnext, Eo. destruct n as [|n]; [lia|].
    (* n frames go to the split pages, one to the last *)
    assert (Hcnt : (S n <= length fs)%nat).
    { assert (Hbk : forall o l, covers ps o (_length v) l -> Z.of_nat (length (backings l)) * ps <= _length v - o).
      { clear -Hp. intros o l. revert o. induction l as [|x l IHl]; intros o H; cbn in *; [lia|].
        destruct H as (_ & k & Hk & Hk1 & H). specialize (IHl _ H). destruct (backing_address x); cbn [length]; [|fold (backings l); nia].
        rewrite Hk1 in IHl by done. fold (backings l) in *. lia. }
      specialize (Hbk _ _ Hc). nia. }
    rewrite <- (take_drop n fs) in Hs. destruct (drop n fs) as [|f fs2] eqn:Ed.
    { apply (f_equal length) in Ed. rewrite length_drop in Ed. cbn in Ed. lia. }
    rewrite <- app_assoc in Hs.
    destruct (split_loop_spec (S (Z.to_nat ((off + Z.of_nat (S n) * ps) / ps))) level off n [] s ls (take n fs) ((f :: fs2) ++ tail))
      as (s1 & E1 & R1); try done; try lia.
    { fold ps. rewrite Z.div_add by lia. pose proof (Z.div_pos off ps). lia. }
    { rewrite length_take. lia. }
    erewrite bind_Ok by done. cbn [fst snd].
    assert (Hlt : (level < length ls)%nat) by (by eapply lookup_lt_Some).
    destruct (pop_spec s1 _ level f (fs2 ++ tail) R1) as (s2 & E2 & R2 & _); [by apply list_lookup_insert_eq|].
    erewrite bind_Ok by done. rewrite list_insert_insert_eq in R2.
    destruct (IH (pre ++ committed ps off (take n fs) ++ [mkElement (off + Z.of_nat n * ps) (Some f)]) rest (off + Z.of_nat (S n) * ps) s2
      (<[level := fs2 ++ tail]> ls) fs2) as (s' & gs & E & R' & P & K); try done; try lia.
    { cbn in Hf. lia. }
    { by apply list_lookup_insert_eq. }
    { apply (f_equal length) in Ed. rewrite length_drop in Ed. cbn in Ed. nia. }
    assert (Htk : length (take n fs) = n) by (rewrite length_take; lia).
    exists s', (take n fs ++ f :: gs). split.
    { rewrite app_nil_l; fold ps; rewrite E, committed_app, Htk. cbn [committed]. rewrite <- !app_assoc. cbn [app]. do 6 f_equal. lia. }
    split; [by rewrite list_insert_insert_eq in R'|]. split.
    { rewrite P. rewrite <- (take_drop n fs) at 2. rewrite Ed, <- app_assoc. done. }
    intros x [-> |Hx]%elem_of_cons Hbx; [by rewrite Eb in Hbx|]. rewrite committed_app, Htk. cbn [committed].
    apply elem_of_app. right. right. replace (off + Z.of_nat n * ps + ps) with (off + Z.of_nat (S n) * ps) by lia. by apply K.
Qed.
End laws.

Section contract.
Context {ET : ElementTree}.

Lemma covers_bounds ps off len l e :
  0 < ps -> covers ps off len l -> e ∈ l -> off <= offset e < len.
Proof using Type.
  intros Hp. revert off. induction l as [|x l IH]; intros off H He; [by apply elem_of_nil in He|].
  cbn [covers] in H. destruct H as (Eo & n & Hn & _ & H). apply elem_of_cons in He as [-> |He].
  - pose proof (covers_le ps _ _ _ Hp H). nia.
  - specialize (IH _ H He). nia.
Qed.

Lemma commit_all_spec v s ls fs tail :
  let level := _aligned_to_page_level v in
  let ps := page_size level in
  vmo_ok v -> pmm_rep s ls -> ls !! level = Some (fs ++ tail) ->
  Z.of_nat (length fs + length (backings (elements v))) * ps = _length v ->
  exists s' gs, commit_all v s = Ok (set_elements v (committed ps 0 gs), s') /\
    pmm_rep s' (<[level := tail]> ls) /\ gs ≡ₚ fs ++ backings (elements v) /\
    (forall e, e ∈ elements v -> backing_address e <> None -> e ∈ committed ps 0 gs).
Proof using Type.
  intros level ps [Ht Hl Hn Hc] R Hs Hf. destruct (page_size_bounds level Hl) as [Hp _]. fold ps in Hp.
  unfold commit_all, commit_between_offsets. rewrite Ht.
  assert (H0 : exists e, elements v !! 0%nat = Some e /\ offset e = 0).
  { destruct (elements v) as [|e l]; [cbn in Hc; lia|]. exists e. split; [done|]. by destruct Hc. }
  destruct H0 as (e & He & Ho).
  destruct (et_lower_ok (elements v) 0) as [L1 _]. rewrite (L1 0%nat e He Ho) by lia. rewrite He, Ho, Z.ltb_irrefl.
  erewrite bind_Ok by reflexivity.
  assert (Hu : upper_position (elements v) (_length v) = length (elements v)).
  { unfold upper_position. destruct (et_lower_ok (elements v) (_length v)) as [_ L2]. rewrite L2.
    - by rewrite lookup_ge_None_2.
    - intros x Hx. eapply covers_bounds in Hc; [|fold level ps; lia|done]. lia. }
  rewrite Hu, Nat.sub_diag. cbn [take drop].
  destruct (commit_loop_spec (S (length (elements v))) v [] (elements v) 0 s ls fs tail) as (s' & gs & E & R' & P & K); try done; try lia.
  { fold level ps. lia. }
  erewrite bind_Ok by done. exists s', gs. done.
Qed.

Lemma release_spec level ps off gs s ls l :
  (level < page_size_count)%nat -> pmm_rep s ls -> ls !! level = Some l ->
  Forall frame_ok gs -> NoDup (gs ++ concat ls) ->
  exists s', release_elements level (committed ps off gs) s = Ok (tt, s') /\ pmm_rep s' (<[level := reverse gs ++ l]> ls).
Proof using Type.
  intros Hl. revert off s ls l. induction gs as [|g gs IH]; intros off s ls l R Hs Hf Hn; cbn [committed release_elements backing_address].
  { exists s. split; [done|]. by rewrite list_insert_id. }
  apply Forall_cons in Hf as [Hg Hf]. cbn in Hn. apply NoDup_cons in Hn as [Hgn Hn].
  destruct (push_spec s ls level l g R Hs Hg) as (s1 & E1 & R1 & _); [set_solver|]. erewrite bind_Ok by done.
  assert (Hlt : (level < length ls)%nat) by (by eapply lookup_lt_Some).
  destruct (concat_focus ls level l Hs) as (rest & Pc & Pi).
  destruct (IH (off + ps) s1 (<[level := g :: l]> ls) (g :: l)) as (s' & E & R'); try done.
  { by apply list_lookup_insert_eq. }
  { rewrite Pi. rewrite Pc in Hn, Hgn. cbn. rewrite <- Permutation_middle. apply NoDup_cons. done. }
  exists s'. split; [done|]. rewrite list_insert_insert_eq in R'. rewrite reverse_cons, <- app_assoc. done.
Qed.

(** Committing a sparse object takes exactly the missing frames from the
    memory manager and leaves the object page by page, every page with a frame;
    the pages that had one keep it. *)
Theorem commit_all_commits v s ls fs tail :
  let level := _aligned_to_page_level v in
  let ps := page_size level in
  vmo_ok v -> pmm_rep s ls -> ls !! level = Some (fs ++ tail) ->
  Z.of_nat (length fs + length (backings (elements v))) * ps = _length v ->
  exists s' gs, commit_all v s = Ok (set_elements v (committed ps 0 gs), s') /\
    pmm_rep s' (<[level := tail]> ls) /\ gs ≡ₚ fs ++ backings (elements v) /\
    (forall e, e ∈ elements v -> backing_address e <> None -> e ∈ committed ps 0 gs).
Proof using Type. apply commit_all_spec. Qed.

(** A sparse object created with a size, committed and destroyed: its length
    is the size rounded up to whole pages, committing takes one frame per page
    from the memory manager, and destroying it gives every frame back. *)
Theorem vmo_lifecycle size level s ls fs tail :
  let ps := page_size level in
  let v := create_sparse_vmo size level in
  (level < page_size_count)%nat -> 0 < size -> size + ps < 2 ^ 63 ->
  pmm_rep s ls -> ls !! level = Some (fs ++ tail) -> Z.of_nat (length fs) = _length v / ps ->
  size <= _length v < size + ps /\
  exists s1 s2 v' gs, commit_all v s = Ok (v', s1) /\ elements v' = committed ps 0 gs /\ gs ≡ₚ fs /\
    pmm_rep s1 (<[level := tail]> ls) /\
    vmo_destroy v' s1 = Ok (tt, s2) /\ pmm_rep s2 (<[level := reverse gs ++ tail]> ls).
Proof using Type.
  intros ps v Hl Hs Hb R Hls Hn. destruct (page_size_bounds level Hl) as [Hp _]. fold ps in Hp.
  destruct (round_length_spec size level Hl) as [Hr1 Hr2]; [lia|]. fold ps in Hr1, Hr2.
  change (round_length size level) with (_length v) in *. split; [done|].
  assert (El : Z.of_nat (length fs) * ps = _length v) by (rewrite Hn; apply Z.div_exact in Hr1; lia).
  assert (Hok : vmo_ok v).
  { split; [done|done|lia|]. split; [done|]. exists (length fs). split; [destruct fs; cbn [length] in *; lia|].
    split; [done|]. exact El. }
  destruct (commit_all_spec v s ls fs tail Hok R Hls) as (s1 & gs & E & R1 & P & _).
  { change (length (backings (elements v))) with 0%nat. rewrite Nat.add_0_r. done. }
  change (backings (elements v)) with (@nil Z) in P. rewrite app_nil_r in P.
  assert (Hlt : (level < length ls)%nat) by (by eapply lookup_lt_Some).
  destruct (concat_focus ls level (fs ++ tail) Hls) as (rest & Pc & Pi).
  destruct (release_spec level ps 0 gs s1 (<[level := tail]> ls) tail) as (s2 & E2 & R2); try done.
  { by apply list_lookup_insert_eq. }
  { pose proof (rep_frames _ _ R) as HF. rewrite Pc in HF. apply Forall_app in HF as [HF _]. apply Forall_app in HF as [HF _]. by rewrite P. }
  { pose proof (rep_nodup _ _ R) as HN. rewrite Pc in HN. rewrite Pi, P, app_assoc. done. }
  exists s1, s2, (set_elements v (committed ps 0 gs)), gs. split; [done|]. split; [done|]. split; [done|]. split; [done|].
  split; [exact E2|]. by rewrite list_insert_insert_eq in R2.
Qed.
End contract.

(** ** Runs *)

(** A tree that always finds the first element not below the offset. *)
Fixpoint lower_pos (l : list sparse_vmo_element) (k : Z) : nat :=
  match l with
  | [] => O
  | e :: l' => if offset e <? k then S (lower_pos l' k) else O
  end.
#[refine] Instance exact_tree : ElementTree := {
  et_lower := lower_pos;
  et_prev _ i := match i with O => Err Fault | S j => Ok j end
}.
Proof.
  intros l k. split.
  - induction l as [|e l IH]; intros i x Hx Ex Hlt; [done|]. cbn. destruct i as [|i]; cbn in Hx.
    + simplify_eq. by rewrite Z.ltb_irrefl.
    + rewrite (proj2 (Z.ltb_lt _ _)) by (apply (Hlt 0%nat e); [lia|done]). f_equal.
      apply (IH i x); [done|done|]. intros j y Hj Hy. apply (Hlt (S j) y); [lia|done].
  - induction l as [|e l IH]; intros H; [done|]. cbn. rewrite (proj2 (Z.ltb_lt _ _)) by (apply H; left). f_equal.
    apply IH. intros x Hx. apply H. by right.
Defined.

(** Three pages, the second already committed, over a manager with frames. *)
Definition partly : vmo := mkVmo sparse 12288 0 0 [mkElement 0 None; mkElement 4096 (Some 0x9000); mkElement 8192 None].
Lemma partly_ok : vmo_ok partly.
Proof.
  split; [done|unfold page_size_count; cbn; lia|cbn; lia|]. split; [done|]. exists 1%nat. split; [lia|]. split; [done|].
  split; [done|]. exists 1%nat. split; [lia|]. split; [done|]. split; [done|]. exists 1%nat. split; [lia|]. by split.
Qed.
Lemma commit_all_commits_witness :
  exists s' gs, commit_all partly few = Ok (set_elements partly (committed 4096 0 gs), s') /\
    pmm_rep s' (<[0%nat := [0x1000]]> few_lists) /\ gs ≡ₚ [0x3000; 0x2000] ++ backings (elements partly) /\
    (forall e, e ∈ elements partly -> backing_address e <> None -> e ∈ committed 4096 0 gs).
Proof. apply (commit_all_commits partly few few_lists [0x3000; 0x2000] [0x1000] partly_ok few_rep); reflexivity. Defined.
Lemma vmo_lifecycle_witness :
  5000 <= _length (create_sparse_vmo 5000 0) < 5000 + 4096 /\
  exists s1 s2 v' gs, commit_all (create_sparse_vmo 5000 0) few = Ok (v', s1) /\ elements v' = committed 4096 0 gs /\
    gs ≡ₚ [0x3000; 0x2000] /\ pmm_rep s1 (<[0%nat := [0x1000]]> few_lists) /\
    vmo_destroy v' s1 = Ok (tt, s2) /\ pmm_rep s2 (<[0%nat := reverse gs ++ [0x1000]]> few_lists).
Proof.
  apply (vmo_lifecycle 5000 0 few few_lists [0x3000; 0x2000] [0x1000]);
    [unfold page_size_count; lia|lia|cbn; lia|exact few_rep|reflexivity|reflexivity].
Defined.
Example commit_partly :
  match commit_all partly few with
  | Ok (v, _) => elements v = [mkElement 0 (Some 0x3000); mkElement 4096 (Some 0x9000); mkElement 8192 (Some 0x2000)]
  | Err _ => False
  end.
Proof. vm_compute. reflexivity. Qed.
