(* ===== verification/Vas.v ===== *)
(** * Address spaces and mappings: kernel/memory/vas.cpp, vmo_mapping.h, vm.cpp

    An address space keeps its mappings in an AVL tree ordered by the ranges of
    addresses they take up, two ranges that overlap being equivalent.  The
    mappings are the objects of that tree: a change to a mapping is a change to
    the tree's memory, also while the mapping is linked.  The page tables are
    those of [PageTable], the objects those of [Vmo]. *)
From S2P Require Import Prelude AvlTree Pmm PageTable Vmo.

(** ** Data *)

Record address_range : Type := mkRange { range_start : Z; range_end : Z }.

(** [vmo_mapping]; [_readers] counts the shared locks that are held. *)
Record vmo_mapping : Type := mkMapping {
  _range : address_range;
  _object : option Z;
  _address_space : option Z;
  _mapping_flags : Z;
  _valid : bool;
  _readers : nat
}.

Definition has_flags (m : vmo_mapping) (fl : Z) : bool := Z.land (_mapping_flags m) fl =? fl.
Definition is_invalid (m : vmo_mapping) : bool := negb (_valid m).
(** [vmo_mapping::release] *)
Definition release_mapping (m : vmo_mapping) : vmo_mapping :=
  mkMapping (mkRange 0 0) None None (_mapping_flags m) false (_readers m).

(** [vmo_mapping_address_compare] *)
Definition range_less (lhs rhs : address_range) : bool := range_end lhs <=? range_start rhs.
Definition mapping_less (lhs rhs : vmo_mapping) : bool := range_less (_range lhs) (_range rhs).
Definition mapping_less_range (lhs : vmo_mapping) (rhs : address_range) : bool := range_less (_range lhs) rhs.
Definition range_less_mapping (lhs : address_range) (rhs : vmo_mapping) : bool := range_less lhs (_range rhs).

Record vas : Type := mkVas {
  _asid : Z;
  _was_claimed_for_process : bool;
  _mappings : avl_tree vmo_mapping;
  _vdso_mapping : option Z
}.

(** The memory of the kernel: the page tables with the manager of frames, the
    objects and address spaces by their addresses, the address space whose tree
    a mapping was allocated for, and the globals of vm.cpp. *)
Record memory : Type := mkMemory {
  pages : vm_state pmm;
  vmos : gmap Z vmo;
  vases : gmap Z vas;
  mapping_home : gmap Z Z;
  next_object : Z;
  vdso_vmo : option Z;
  vm_space_top : Z
}.

Section ops.
Context {ET : ElementTree}.
Abbreviation MM := (M memory).

Definition set_pages (v : vm_state pmm) (s : memory) : memory :=
  mkMemory v (vmos s) (vases s) (mapping_home s) (next_object s) (vdso_vmo s) (vm_space_top s).
Definition set_vases (v : gmap Z vas) (s : memory) : memory :=
  mkMemory (pages s) (vmos s) v (mapping_home s) (next_object s) (vdso_vmo s) (vm_space_top s).
Definition set_vmos (v : gmap Z vmo) (s : memory) : memory :=
  mkMemory (pages s) v (vases s) (mapping_home s) (next_object s) (vdso_vmo s) (vm_space_top s).

Definition on_pages {A} (m : M (vm_state pmm) A) : MM A := fun s =>
  match m (pages s) with Ok (a, v) => Ok (a, set_pages v s) | Err e => Err e end.
Definition get_vas (p : Z) : MM vas := fun s =>
  match vases s !! p with Some x => Ok (x, s) | None => Err Fault end.
Definition put_vas (p : Z) (x : vas) : MM unit := modify (fun s => set_vases (<[p := x]> (vases s)) s).
Definition get_vmo (p : Z) : MM vmo := fun s =>
  match vmos s !! p with Some x => Ok (x, s) | None => Err Fault end.
Definition put_vmo (p : Z) (x : vmo) : MM unit := modify (fun s => set_vmos (<[p := x]> (vmos s)) s).
Definition with_mappings (t : avl_tree vmo_mapping) (x : vas) : vas :=
  mkVas (_asid x) (_was_claimed_for_process x) t (_vdso_mapping x).
Definition on_mappings {A} (self : Z) (m : M (avl_tree vmo_mapping) A) : MM A := fun s =>
  match vases s !! self with
  | None => Err Fault
  | Some x =>
      match m (_mappings x) with
      | Ok (a, t) => Ok (a, set_vases (<[self := with_mappings t x]> (vases s)) s)
      | Err e => Err e
      end
  end.

(** ** vm.cpp *)

Definition allocate_address_range (size : Z) : MM Z :=
  let real_size := Z.land (u64 (size + 4095)) (not64 4095) in
  let* old := gets vm_space_top in
  modify (fun s => mkMemory (pages s) (vmos s) (vases s) (mapping_home s) (next_object s) (vdso_vmo s) (u64 (old - real_size))) ;;
  ret (u64 (old - real_size)).
Definition set_vdso_vmo (vdso : Z) : MM unit :=
  let* v := gets vdso_vmo in
  match v with
  | Some _ => panic "set_vdso_vmo called more than once!"
  | None => modify (fun s => mkMemory (pages s) (vmos s) (vases s) (mapping_home s) (next_object s) (Some vdso) (vm_space_top s))
  end.
Definition get_vdso_vmo : MM Z :=
  let* v := gets vdso_vmo in
  match v with
  | None => panic "get_vdso_vmo called before set_vdso_vmo"
  | Some p => ret p
  end.

(** ** Mappings *)

(** [util::make_intrusive<vmo_mapping>]: a new object in the memory of the tree. *)
Definition make_mapping (self : Z) (m : vmo_mapping) : MM Z :=
  let* p := gets next_object in
  modify (fun s => mkMemory (pages s) (vmos s) (vases s) (<[p := self]> (mapping_home s)) (p + 64) (vdso_vmo s) (vm_space_top s)) ;;
  on_mappings self (modify (fun t => AvlTree.set_mem (<[p := mkElem 0 0 0 m]> (AvlTree.mem t)) t)) ;;
  ret p.

Definition update_mapping (p : Z) (f : vmo_mapping -> vmo_mapping) : M (avl_tree vmo_mapping) unit :=
  let* e := AvlTree.load p in
  AvlTree.store p (mkElem (tree_parent e) (prev e) (next e) (f (value e))).
(** The mapping a pointer designates. *)
Definition get_mapping (p : Z) : MM vmo_mapping := fun s =>
  match mapping_home s !! p with
  | Some self => on_mappings self (AvlTree.deref p) s
  | None => Err Fault
  end.
Definition set_mapping (p : Z) (f : vmo_mapping -> vmo_mapping) : MM unit := fun s =>
  match mapping_home s !! p with
  | Some self => on_mappings self (update_mapping p f) s
  | None => Err Fault
  end.

(** The loop of [map_vmo] over the elements of a sparse object. *)
Fixpoint map_elements (asid base page_size fl : Z) (l : list sparse_vmo_element) : MM unit :=
  match l with
  | [] => ret tt
  | e :: l' =>
      match backing_address e with
      | None => panic "mapping uncommitted sparse VMOs is not supported yet (TODO after on-demand mapping)"
      | Some f =>
          on_pages (map_physical (Some asid) (u64 (base + offset e)) (u64 (u64 (base + offset e) + page_size)) f fl) ;;
          map_elements asid base page_size fl l'
      end
  end.

Definition map_vmo (self vm_object mapping_base fl : Z) : MM Z :=
  let* o := get_vmo vm_object in
  let page_size := Pmm.page_size (_aligned_to_page_level o) in
  let alignment_mask := page_size - 1 in
  if negb (Z.land mapping_base alignment_mask =? 0)
  then panic "tried to map a VMO aligned to page level {} (page size: {}) to an address not aligned to the page alignment ({:#018x})!"
  else
    let mapping_end := u64 (mapping_base + _length o) in
    let* it := on_mappings self (AvlTree.find range_less_mapping mapping_less_range (mkRange mapping_base mapping_end)) in
    if negb (it =? 0)
    then panic "tried to map a VMO at ({:#018x}, {:#018x}), which is already occupied by another VMO ({:#018x}, {:#018x}) in this VAS"
    else
      let* mapping := make_mapping self (mkMapping (mkRange mapping_base mapping_end) (Some vm_object) (Some self) fl true 0) in
      on_mappings self (AvlTree.insert mapping_less mapping) ;;
      let* x := get_vas self in
      match _type o with
      | physical =>
          match vmo_base o with
          | Ok b => on_pages (map_physical (Some (_asid x)) mapping_base (u64 (mapping_base + _length o)) b fl)
          | Err e => fail e
          end
      | sparse =>
          match sparse_elements o with
          | Ok l => map_elements (_asid x) mapping_base page_size fl l
          | Err e => fail e
          end
      end ;;
      let* x := get_vas self in
      match _vdso_mapping x with
      | Some _ => ret tt
      | None =>
          let* v := get_vdso_vmo in
          if vm_object =? v
          then put_vas self (mkVas (_asid x) (_was_claimed_for_process x) (_mappings x) (Some mapping))
          else ret tt
      end ;;
      ret mapping.

(** The exclusive lock of a mapping cannot be had while it is shared. *)
Definition unmap_mapping (self mapping : Z) : MM unit :=
  let* m := get_mapping mapping in
  if negb (_readers m =? 0)%nat then fail Deadlock else
  let* x := get_vas self in
  on_pages (PageTable.unmap (Some (_asid x)) (range_start (_range m)) (range_end (_range m)) false) ;;
  set_mapping mapping release_mapping.

(** [lock_address_range]: the mapping whose shared lock the caller holds now. *)
Definition share (m : vmo_mapping) : vmo_mapping :=
  mkMapping (_range m) (_object m) (_address_space m) (_mapping_flags m) (_valid m) (S (_readers m)).
Definition lock_address_range (self start end_ : Z) (rw : bool) : MM (option Z) :=
  let* it := on_mappings self (AvlTree.find range_less_mapping mapping_less_range (mkRange start end_)) in
  if it =? 0 then ret None else
  let* m := on_mappings self (AvlTree.deref it) in
  if rw && has_flags m flags_read_only then ret None else
  on_mappings self (update_mapping it share) ;;
  ret (Some it).
Definition lock_array_mapping (self ptr size count : Z) (rw : bool) : MM (option Z) :=
  lock_address_range self ptr (u64 (ptr + size * count)) rw.

Definition get_vdso_base (x : vas) : MM (option Z) :=
  match _vdso_mapping x with
  | None => ret None
  | Some p => let* m := get_mapping p in ret (Some (range_start (_range m)))
  end.

(** ** Address spaces *)

Definition generate_vdso_mapping_base : MM Z :=
  let* v := get_vdso_vmo in
  let* o := get_vmo v in
  ret (u64 (0x800000000000 - u64 (_length o * 2))).

Definition make_vas (asid : Z) : MM Z :=
  let* p := gets next_object in
  modify (fun s => mkMemory (pages s) (vmos s) (<[p := mkVas asid false (mkAvl ∅ 0 0 []) None]> (vases s)) (mapping_home s)
                     (p + 64) (vdso_vmo s) (vm_space_top s)) ;;
  ret p.
Definition create_vas (randomly_map_vdso : bool) : MM Z :=
  let* self := make_vas 0 in
  let* asid := on_pages clone_upper_half in
  let* x := get_vas self in
  put_vas self (mkVas asid (_was_claimed_for_process x) (_mappings x) (_vdso_mapping x)) ;;
  (if randomly_map_vdso then
     let* vdso_base := generate_vdso_mapping_base in
     let* v := get_vdso_vmo in
     map_vmo self v vdso_base flags_user ;;
     ret tt
   else ret tt) ;;
  ret self.
Definition adopt_existing_asid (asid : Z) : MM Z := make_vas asid.
Definition vas_destroy : MM unit := panic "this requires an amount of work tbh".
Definition claim_vas (self : Z) : MM bool :=
  let* x := get_vas self in
  if _was_claimed_for_process x then ret false
  else put_vas self (mkVas (_asid x) true (_mappings x) (_vdso_mapping x)) ;; ret true.

(** [syscall_rose_mapping_destroy_handler]; the [bool] is whether the handle was
    valid. *)
Definition mapping_destroy (mapping : Z) : MM bool :=
  let* m := get_mapping mapping in
  if is_invalid m then ret false else
  match _address_space m with
  | None => fail Fault
  | Some self => unmap_mapping self mapping ;; ret true
  end.
End ops.
