(* ===== verification/VasTheorems.v ===== *)
(** * What address spaces promise

    Mapping an object into a free range registers the mapping and makes every
    page of the range translate to the page of the object behind it; a range that
    is taken is refused.  Locking a range finds a mapping that overlaps it.
    Unmapping leaves the mapping linked with an empty range, after which the tree
    is no longer in order. *)
From S2P Require Import Prelude AvlTree AvlSpec AvlRep AvlInsert AvlLaws AvlSearch AvlTheorems Pmm PageTable PageTableLaws PageMap PageTheorems Vmo Vas.

(** ** The comparator matters on the objects of the tree only *)

Section extension.
Context {T Key : Type} (comp comp' : T -> T -> bool).
Context (kl kl' : Key -> T -> bool) (lk lk' : T -> Key -> bool).
Implicit Types (s : avl_tree T).

Lemma deref_some s p e : AvlTree.mem s !! p = Some e -> deref p s = Ok (value e, s).
Proof using. intros E. unfold deref, load, bind. by rewrite E. Qed.
Lemma deref_none s p : AvlTree.mem s !! p = None -> deref p s = Err Fault.
Proof using. intros E. unfold deref, load, bind. by rewrite E. Qed.

Lemma bind_same {S A B} (m : M S A) (k k' : A -> M S B) (s : S) :
  (forall a (s' : S), m s = Ok (a, s') -> k a s' = k' a s') -> bind m k s = bind m k' s.
Proof using. intros H. unfold bind. destruct (m s) as [[a s']|]; auto. Qed.

Lemma load_state p s e s' : load p s = Ok (e, s') -> s' = s /\ AvlTree.mem s !! p = Some e.
Proof using. unfold load. destruct (AvlTree.mem s !! p); [|done]. by intros [= -> ->]. Qed.
Lemma deref_state p s v s' : deref p s = Ok (v, s') -> s' = s /\ exists e, AvlTree.mem s !! p = Some e /\ value e = v.
Proof using. intros (e & s1 & (-> & E)%load_state & [= <- <-])%bind_Ok_inv. eauto. Qed.
Lemma get_left_state p s v s' : get_left p s = Ok (v, s') -> s' = s.
Proof using. by intros (e & s1 & (-> & E)%load_state & [= <- <-])%bind_Ok_inv. Qed.
Lemma get_right_state p s v s' : get_right p s = Ok (v, s') -> s' = s.
Proof using. by intros (e & s1 & (-> & E)%load_state & [= <- <-])%bind_Ok_inv. Qed.

Lemma insert_ext e s :
  (forall a b x y, AvlTree.mem s !! a = Some x -> AvlTree.mem s !! b = Some y -> comp (value x) (value y) = comp' (value x) (value y)) ->
  insert comp e s = insert comp' e s.
Proof using.
  intros H. unfold insert. apply bind_same. intros root s1 [= <- <-]. destruct (_root s =? 0); [done|].
  apply bind_same. intros fuel s1 [= <- <-].
  assert (forall n c, insert_descend comp n e c s = insert_descend comp' n e c s) as E.
  { induction n as [|n IH]; intros c; [done|]. cbn [insert_descend].
    apply bind_same. intros ev s1 (-> & x & Hx & <-)%deref_state.
    apply bind_same. intros cv s1 (-> & y & Hy & <-)%deref_state.
    rewrite <- !(H _ _ _ _ Hx Hy), <- !(H _ _ _ _ Hy Hx). destruct (comp (value x) (value y)).
    - apply bind_same. intros l s1 ->%get_left_state. destruct (l =? 0); [done|apply IH].
    - destruct (comp (value y) (value x)); [|done].
      apply bind_same. intros r s1 ->%get_right_state. destruct (r =? 0); [done|apply IH]. }
  unfold bind at 1 3. by rewrite E.
Qed.

Lemma find_ext k s :
  (forall a x, AvlTree.mem s !! a = Some x -> kl k (value x) = kl' k (value x) /\ lk (value x) k = lk' (value x) k) ->
  find kl lk k s = find kl' lk' k s.
Proof using.
  intros H. unfold find. apply bind_same. intros root s1 [= <- <-]. destruct (_root s =? 0); [done|].
  apply bind_same. intros fuel s1 [= <- <-]. generalize (_root s).
  induction (fuel_of s) as [|n IH]; intros c; [done|]. cbn [find_loop].
  apply bind_same. intros cv s1 (-> & x & Hx & <-)%deref_state. destruct (H _ _ Hx) as [-> ->].
  destruct (negb _ && negb _); [done|]. destruct (kl' k (value x)).
  - apply bind_same. intros l s1 ->%get_left_state. destruct (l =? 0); [done|apply IH].
  - apply bind_same. intros r s1 ->%get_right_state. destruct (r =? 0); [done|apply IH].
Qed.
End extension.

(** ** Ranges *)

Definition proper (r : address_range) : bool := range_start r <? range_end r.
(** The comparator on ranges that are not empty, where it is an order. *)
Definition proper_less (x y : vmo_mapping) : bool :=
  proper (_range x) && proper (_range y) && mapping_less x y.
Definition proper_key_less (k : address_range) (x : vmo_mapping) : bool :=
  proper k && proper (_range x) && range_less_mapping k x.
Definition proper_less_key (x : vmo_mapping) (k : address_range) : bool :=
  proper k && proper (_range x) && mapping_less_range x k.

Ltac ranges := unfold proper_less, proper_key_less, proper_less_key, proper, mapping_less, range_less_mapping,
  mapping_less_range, range_less in *; rewrite ?andb_true_iff, ?andb_false_iff, ?Z.ltb_lt, ?Z.leb_le, ?Z.ltb_ge, ?Z.leb_gt in *.

#[export] Instance proper_strict : StrictOrder_ proper_less.
Proof. split; intros; ranges; lia. Qed.
#[export] Instance proper_bounds : KeyBounds proper_less proper_key_less proper_less_key.
Proof. split; intros; ranges; lia. Qed.

Definition overlaps (r r' : address_range) : Prop := range_start r < range_end r' /\ range_start r' < range_end r.

Lemma no_order_overlaps k m : proper k = true -> proper (_range m) = true ->
  proper_key_less k m = false /\ proper_less_key m k = false <-> overlaps k (_range m).
Proof. intros Hk Hm. unfold overlaps. ranges. lia. Qed.

(** ** Address spaces in order *)

(** The mappings [l] in the order of their ranges; no mapping was released. *)
Record vas_rep (x : vas) (l : list (Z * vmo_mapping)) : Prop := {
  vr_state : avl_state proper_less (_mappings x) l;
  vr_proper a e : AvlTree.mem (_mappings x) !! a = Some e -> proper (_range (value e)) = true
}.

(** A change to the contents of a linked mapping. *)
Lemma wf_revalue (s : avl_tree vmo_mapping) c l a m bf r f :
  wf s c (Node l a m bf r) ->
  exists s', update_mapping a f s = Ok (tt, s') /\ wf s' c (Node l a (f m) bf r) /\ AvlTree._size s' = AvlTree._size s /\
    AvlTree.mem s' = <[a := mkElem (tag (cpar c) bf) (root l) (root r) (f m)]> (AvlTree.mem s).
Proof.
  intros W. pose proof (wf_cell W) as Hc. destruct W as [Hcr Ht Hn Hr]. unfold update_mapping.
  eexists. split; [unfold load, store, bind; rewrite Hc; cbn; rewrite Hc; reflexivity|].
  split; [|done]. open. close_wf.
Qed.

Lemma vas_rep_split x l a m : vas_rep x l -> (a, m) ∈ l ->
  exists l1 l2, l = l1 ++ (a, m) :: l2 /\ deref a (_mappings x) = Ok (m, _mappings x) /\ proper (_range m) = true /\
  forall f, (forall y, _range (f y) = _range y) ->
    exists t, update_mapping a f (_mappings x) = Ok (tt, t) /\ vas_rep (with_mappings t x) (l1 ++ (a, f m) :: l2).
Proof.
  intros [[(t & W & Ha & Hn) Hs Hz] Hp] (l1 & l2 & ->)%list_elem_of_split.
  exists l1, l2. split; [done|]. destruct (nodes_split _ _ _ _ _ Hn) as (c & lf & bf & rt & -> & -> & ->).
  apply (wf_plug _ c) in W. pose proof (wf_cell W) as Hc. split; [by apply (deref_some _ _ _ Hc)|].
  split; [by apply (Hp _ _ Hc)|]. intros f Hf.
  destruct (wf_revalue _ _ _ _ _ _ _ f W) as (s' & E & W' & Hsz & Hm). exists s'. split; [done|]. split.
  - split.
    + exists (plug c (Node lf a (f m) bf rt)). split; [by apply (wf_plug _ c) in W'|].
      split; [|rewrite nodes_plug; cbn; by norm_app].
      apply plug_avl in Ha as [Hca Ha]. apply plug_avl. by split.
    + clear -Hs Hf. unfold sorted_by in *. revert Hs. rewrite !sorted_app. intros (H1 & H2 & H3).
      apply StronglySorted_inv in H2 as [H2 H4]. split; [done|]. split.
      * constructor; [done|]. eapply Forall_impl; [exact H4|]. intros y. unfold proper_less, mapping_less. cbn. by rewrite Hf.
      * eapply Forall_impl; [exact H3|]. intros y [Hy1 Hy2]%Forall_cons. constructor; [|done].
        revert Hy1. unfold proper_less, mapping_less. cbn. by rewrite Hf.
    + cbn [_mappings with_mappings]. rewrite Hsz, Hz. by rewrite !length_app.
  - cbn [_mappings with_mappings]. intros b e. rewrite Hm. intros [[<- <-]|[_ He]]%lookup_insert_Some; [|by eapply Hp].
    cbn [value]. rewrite Hf. by apply (Hp _ _ Hc).
Qed.

Lemma mapping_nonzero x l p m : vas_rep x l -> (p, m) ∈ l -> p <> 0.
Proof.
  intros [[(t & W & _ & Hn) _ _] _] (l1 & l2 & ->)%list_elem_of_split.
  destruct (nodes_split _ _ _ _ _ Hn) as (c & lf & bf & rt & -> & _). apply (wf_plug _ c) in W. apply (wf_addr W).
Qed.

(** ** Finding *)

Lemma find_mapping x l k : vas_rep x l -> proper k = true ->
  exists p, find range_less_mapping mapping_less_range k (_mappings x) = Ok (p, _mappings x) /\
    ((exists m, (p, m) ∈ l /\ overlaps k (_range m)) \/ (p = 0 /\ forall a m, (a, m) ∈ l -> ~ overlaps k (_range m))).
Proof.
  intros R Hk. destruct R as [Hs Hp]. rewrite (find_ext _ proper_key_less _ proper_less_key).
  2: { intros a e He. specialize (Hp _ _ He). unfold proper_key_less, proper_less_key. by rewrite Hk, Hp. }
  destruct (find_some proper_less proper_key_less proper_less_key _ _ k Hs) as (p & E & Hm). exists p. split; [done|].
  assert (forall a m, (a, m) ∈ l -> proper (_range m) = true) as Hl.
  { intros a m Hin. by destruct (vas_rep_split x l a m (Build_vas_rep _ _ Hs Hp) Hin) as (_ & _ & _ & _ & ? & _). }
  destruct Hm as [(m & Hin & H1 & H2) | [-> H]].
  - left. exists m. split; [done|]. apply no_order_overlaps; [done|by eapply Hl|by split].
  - right. split; [done|]. intros a m Hin Ho. apply no_order_overlaps in Ho as [H1 H2]; [|done|by eapply Hl].
    destruct (H a m Hin); congruence.
Qed.

(** ** Locking *)

Lemma on_mappings_ok {A} self (m : M (avl_tree vmo_mapping) A) w x a t :
  vases w !! self = Some x -> m (_mappings x) = Ok (a, t) ->
  on_mappings self m w = Ok (a, set_vases (<[self := with_mappings t x]> (vases w)) w).
Proof. intros Hx E. unfold on_mappings. by rewrite Hx, E. Qed.
Lemma on_mappings_keep {A} self (m : M (avl_tree vmo_mapping) A) w x a :
  vases w !! self = Some x -> m (_mappings x) = Ok (a, _mappings x) -> on_mappings self m w = Ok (a, w).
Proof.
  intros Hx E. rewrite (on_mappings_ok _ _ _ x a (_mappings x)) by done.
  assert (with_mappings (_mappings x) x = x) as -> by (by destruct x). rewrite insert_id by done. by destruct w.
Qed.

(** Locking a range of addresses always returns.  It locks a mapping that
    overlaps the range, not one that contains it, and refuses exactly when no
    mapping overlaps it or, asked for writing, when the one it finds is read
    only; a refusal changes nothing, a lock only the count of the mapping. *)
Theorem lock_address_range_overlap self x l w start end_ rw :
  vases w !! self = Some x -> vas_rep x l -> start < end_ ->
  exists r w', lock_address_range self start end_ rw w = Ok (r, w') /\
    match r with
    | Some p => exists m l1 l2 x', l = l1 ++ (p, m) :: l2 /\ overlaps (mkRange start end_) (_range m) /\
        (rw = true -> has_flags m flags_read_only = false) /\
        vases w' = <[self := x']> (vases w) /\ vas_rep x' (l1 ++ (p, share m) :: l2)
    | None => w' = w /\
        ((forall a m, (a, m) ∈ l -> ~ overlaps (mkRange start end_) (_range m)) \/
         (rw = true /\ exists a m, (a, m) ∈ l /\ overlaps (mkRange start end_) (_range m) /\ has_flags m flags_read_only = true))
    end.
Proof.
  intros Hx R Hlt. unfold lock_address_range.
  destruct (find_mapping x l (mkRange start end_) R) as (p & E & Hm); [by apply Z.ltb_lt|].
  rewrite (bind_Ok _ _ _ _ _ (on_mappings_keep _ _ _ _ _ Hx E)).
  destruct Hm as [(m & Hin & Ho) | [-> Hno]]; [|exists None, w; split; [done|]; split; [done|by left]].
  destruct (vas_rep_split x l p m R Hin) as (l1 & l2 & -> & Ed & _ & Hu).
  rewrite (proj2 (Z.eqb_neq p 0)) by (by eapply mapping_nonzero). rewrite (bind_Ok _ _ _ _ _ (on_mappings_keep _ _ _ _ _ Hx Ed)).
  destruct (rw && has_flags m flags_read_only) eqn:Eb.
  - apply andb_prop in Eb as [-> Hro]. exists None, w. split; [done|]. split; [done|]. right. split; [done|]. by exists p, m.
  - destruct (Hu share) as (t & Et & R'); [done|].
    rewrite (bind_Ok _ _ _ _ _ (on_mappings_ok _ _ _ _ _ _ Hx Et)). eexists (Some p), _. split; [reflexivity|].
    exists m, l1, l2, (with_mappings t x). split; [done|]. split; [done|]. split; [|done].
    intros ->. done.
Qed.

(** ** Registering *)

Lemma avl_cell (s : avl_tree vmo_mapping) l a m : avl_state proper_less s l -> (a, m) ∈ l ->
  exists e, AvlTree.mem s !! a = Some e /\ value e = m.
Proof.
  intros [(t & W & _ & Hn) _ _] (l1 & l2 & ->)%list_elem_of_split.
  destruct (nodes_split _ _ _ _ _ Hn) as (c & lf & bf & rt & -> & _). apply (wf_plug _ c) in W.
  pose proof (wf_cell W) as Hc. by eexists.
Qed.

Definition with_cell (t : avl_tree vmo_mapping) (p : Z) (m : vmo_mapping) : avl_tree vmo_mapping :=
  AvlTree.set_mem (<[p := mkElem 0 0 0 m]> (AvlTree.mem t)) t.

Lemma insert_mapping x l p m :
  vas_rep x l -> p ∉ l.*1 -> addr_ok p -> proper (_range m) = true ->
  (forall a m', (a, m') ∈ l -> ~ overlaps (_range m) (_range m')) ->
  exists t l1 l2, insert mapping_less p (with_cell (_mappings x) p m) = Ok ((p, true), t) /\ l = l1 ++ l2 /\
    vas_rep (with_mappings t x) (l1 ++ (p, m) :: l2).
Proof.
  intros [Hs Hp] Hnew Ha Hm Hno. set (t0 := with_cell (_mappings x) p m).
  assert (forall a e, AvlTree.mem t0 !! a = Some e -> proper (_range (value e)) = true) as Hp0.
  { intros a e He. cbn in He. apply lookup_insert_Some in He as [[<- <-]|[_ He]]; [done|by eapply Hp]. }
  rewrite (insert_ext _ proper_less).
  2: { intros a b ea eb Hea Heb. unfold proper_less. by rewrite (Hp0 _ _ Hea), (Hp0 _ _ Heb). }
  assert (avl_state proper_less t0 l) as Hs0.
  { destruct Hs as [(t & W & Havl & Hn) Hsrt Hsz]. split; [|done|done]. exists t. split; [|done].
    eapply wf_ext; [exact W|done|]. intros b Hb. apply lookup_insert_ne. intros <-. apply Hnew. rewrite <- Hn.
    rewrite <- addrs_nodes. done. }
  destruct (insert_spec proper_less t0 l p m Hs0) as (s' & [(a & v & E & Hin & H1 & H2 & _) | (l1 & l2 & E & -> & Hs' & _ & Hf)]).
  { split; [apply lookup_insert_eq|done|done]. }
  - exfalso. apply (Hno a v Hin). destruct (avl_cell _ _ _ _ Hs Hin) as (e & He & <-). specialize (Hp _ _ He).
    unfold overlaps. clear -H1 H2 Hm Hp. ranges. lia.
  - exists s', l1, l2. split; [done|]. split; [done|]. split; [done|]. cbn [_mappings with_mappings].
    intros b e He. destruct (decide (b ∈ p :: (l1 ++ l2).*1)) as [Hb|Hb].
    + assert (exists v, (b, v) ∈ l1 ++ (p, m) :: l2 /\ proper (_range v) = true) as (v & Hv & Hpv).
      { apply elem_of_cons in Hb as [-> | Hb].
        - exists m. split; [|done]. apply elem_of_app. right. by left.
        - apply list_elem_of_fmap in Hb as ([b' v] & -> & Hb). exists v. split; [revert Hb; set_solver|].
          destruct (avl_cell _ _ _ _ Hs Hb) as (e' & He' & <-). by eapply Hp. }
      destruct (avl_cell _ _ _ _ Hs' Hv) as (e' & He' & <-). rewrite He in He'. by simplify_eq.
    + rewrite (Hf b Hb) in He. by eapply Hp0.
Qed.

(** ** Mapping pages *)

Lemma one_page_in_step I vs phys : vs mod 4096 = 0 -> in_step I vs (vs + 4096) phys.
Proof.
  intros Ha. induction I as [|I IH]; [done|]. cbn [in_step]. destruct I as [|I]; [by left|]. right. right. split; [|done].
  assert (exists k, es (S (S I)) = k * 4096 /\ 0 < k) as (k & Hk & Hk0).
  { destruct (es_divides 1 (S (S I))) as [k Hk]; [lia|]. rewrite es_1 in Hk. exists k. split; [done|].
    pose proof (es_pos (S (S I))). lia. }
  rewrite Hk. apply Z.mod_divide in Ha as [j ->]; [|lia].
  rewrite Z.mul_mod_distr_r by lia. pose proof (Z.mod_pos_bound j k Hk0). nia.
Qed.

Section mapping.
Context {ET : ElementTree}.
Implicit Types (s : vm_state pmm) (o : owners) (fr big : list Z).

(** The frames of a committed object, mapped one after the other. *)
Lemma map_elements_spec asid base fl fs off w o fr big B :
  address_space (pages w) o fr big asid -> block_base 4 B ->
  B <= base + off -> 0 <= off -> 0 <= base -> base + off + 4096 * Z.of_nat (length fs) <= B + 2 ^ 48 ->
  base + off + 4096 * Z.of_nat (length fs) < 2 ^ 64 -> (base + off) mod 4096 = 0 ->
  Forall (fun f => 0 <= f /\ f mod 4096 = 0 /\ f + 4096 <= 2 ^ 52) fs ->
  (forall v, base + off <= v < base + off + 4096 * Z.of_nat (length fs) -> translate (tables (pages w)) 4 asid v = None) ->
  3 * Z.of_nat (length fs) <= Z.of_nat (length fr) ->
  exists w' s' o' fr', map_elements asid base 4096 fl (committed 4096 off fs) w = Ok (tt, w') /\ w' = set_pages s' w /\
    address_space s' o' fr' big asid /\ rest_same (pages w) s' /\
    forall v, in_block 4 B v -> translate (tables s') 4 asid v =
      match fs !! Z.to_nat ((v - base - off) / 4096) with
      | Some f => if base + off <=? v then Some (f, has_flag fl flags_user) else translate (tables (pages w)) 4 asid v
      | None => translate (tables (pages w)) 4 asid v
      end.
Proof.
  revert off w o fr. induction fs as [|f fs IH]; intros off w o fr A HB Hlo Hoff Hbase Hhi H64 Ha Hf Hnone Hfr.
  { exists w, (pages w), o, fr. split; [done|]. split; [by destruct w|]. split; [done|]. split; [by repeat split|]. done. }
  apply Forall_cons in Hf as [(Hf0 & Hfa & Hf52) Hf]. cbn [length] in *. rewrite Nat2Z.inj_succ in *.
  cbn [committed map_elements backing_address offset].
  rewrite (u64_id (base + off)) by (unfold is_u64; lia). rewrite (u64_id (base + off + 4096)) by (unfold is_u64; lia).
  destruct (map_physical_spec (Some asid) (pages w) o fr big asid B (base + off) (base + off + 4096) f fl)
    as (s1 & o1 & fr1 & E1 & A1 & R1 & C1 & T1); try done; try lia.
  { rewrite <- (Z.mul_1_l 4096) at 1. by rewrite Z_mod_plus_full. }
  { by apply one_page_in_step. }
  { intros v Hv. apply Hnone. lia. }
  { replace (base + off + 4096 - (base + off)) with 4096 by lia. change (4096 / 4096) with 1. lia. }
  erewrite bind_Ok by (unfold on_pages; by rewrite E1).
  replace (base + off + 4096 - (base + off)) with 4096 in C1 by lia. change (4096 / 4096) with 1 in C1.
  assert (es 5 = 2 ^ 48) as H48 by done.
  destruct (IH (off + 4096) (set_pages s1 w) o1 fr1) as (w' & s' & o' & fr' & E & -> & A' & R' & T'); try done; try lia.
  { rewrite Z.add_assoc. rewrite <- (Z.mul_1_l 4096) at 1. by rewrite Z_mod_plus_full. }
  { intros v Hv. cbn [pages set_pages]. rewrite T1 by (unfold in_block; rewrite H48; lia).
    rewrite (proj2 (Z.ltb_ge v _)), andb_false_r by lia. apply Hnone. lia. }
  exists (set_pages s' w), s', o', fr'. split; [rewrite E; by destruct w|]. split; [done|]. split; [done|].
  split. { destruct R1 as (?&?&?&?), R' as (?&?&?&?). cbn [pages set_pages] in *. repeat split; congruence. }
  intros v Hv. rewrite T' by done. cbn [pages set_pages]. rewrite T1 by done. rewrite Z.add_assoc.
  destruct (decide (v < base + off)) as [Hlt|Hge].
  { rewrite (proj2 (Z.leb_gt (base + off + 4096) v)), (proj2 (Z.leb_gt (base + off) v)) by lia. cbn [andb]. by repeat case_match. }
  rewrite (proj2 (Z.leb_le (base + off) v)) by lia. cbn [andb].
  destruct (decide (v < base + off + 4096)) as [Hin|Hout].
  - rewrite (proj2 (Z.leb_gt (base + off + 4096) v)), (proj2 (Z.ltb_lt v (base + off + 4096))) by lia.
    rewrite (Z.div_small (v - base - off)) by lia. cbn [Z.to_nat lookup list_lookup].
    assert (v mod 4096 = v - (base + off)) as Hmod.
    { replace v with (v - (base + off) + (base + off)) by lia. apply Z.mod_divide in Ha as [j Hj]; [|lia].
      rewrite Hj at 2. rewrite Z_mod_plus_full, Z.mod_small by lia. lia. }
    rewrite Hmod. replace (f + (v - (v - (base + off)) - (base + off))) with f by lia. by case_match.
  - rewrite (proj2 (Z.leb_le (base + off + 4096) v)), (proj2 (Z.ltb_ge v (base + off + 4096))) by lia.
    replace (v - base - off) with (v - base - (off + 4096) + 1 * 4096) by lia. rewrite Z.div_add by lia.
    pose proof (Z.div_pos (v - base - (off + 4096)) 4096). rewrite Z2Nat.inj_add by lia. rewrite Nat.add_comm.
    change (Z.to_nat 1) with 1%nat. cbn [Nat.add lookup list_lookup]. done.
Qed.

(** The physical page behind an offset of an object. *)
Definition behind (o : vmo) (off : Z) : option Z :=
  match Vmo._type o with
  | physical => Some (_base o + (off - off mod 4096))
  | sparse => backings (elements o) !! Z.to_nat (off / 4096)
  end.

(** An object that can be mapped at [base]: whole pages, aligned, and either
    physical memory in step with the addresses or committed page by page. *)
Record object_ok (o : vmo) (base : Z) : Prop := {
  oo_length : 0 < _length o /\ _length o mod 4096 = 0;
  oo_level : (_aligned_to_page_level o < page_size_count)%nat;
  oo_aligned : base mod Pmm.page_size (_aligned_to_page_level o) = 0;
  oo_physical : Vmo._type o = physical ->
    0 <= _base o /\ _base o mod 4096 = 0 /\ _base o + _length o <= 2 ^ 52 /\ in_step 4 base (base + _length o) (_base o);
  oo_sparse : Vmo._type o = sparse -> _aligned_to_page_level o = 0%nat /\
    exists fs, elements o = committed 4096 0 fs /\ _length o = 4096 * Z.of_nat (length fs) /\
      Forall (fun f => 0 <= f /\ f mod 4096 = 0 /\ f + 4096 <= 2 ^ 52) fs
}.

Lemma page_aligned base i : (i < page_size_count)%nat -> base mod Pmm.page_size i = 0 -> base mod 4096 = 0.
Proof.
  intros Hi H. apply Z.mod_divide in H as [k ->]; [|destruct (page_size_bounds i Hi); lia].
  assert (4096 | Pmm.page_size i) as [j ->].
  { unfold page_size_count in Hi. do 3 (destruct i as [|i]; [apply Z.mod_divide; [lia|reflexivity]|]). lia. }
  rewrite Z.mul_assoc. by apply Z.mod_mul.
Qed.

(** The pages of the address space before and after. *)
Definition pages_mapped (asid B base len fl : Z) (o : vmo) s s' : Prop :=
  forall v, in_block 4 B v -> translate (tables s') 4 asid v =
    (if (base <=? v) && (v <? base + len) then (fun f => (f, has_flag fl flags_user)) <$> behind o (v - base)
     else translate (tables s) 4 asid v).

Lemma map_object_spec asid (o : vmo) base fl w ow fr big B :
  object_ok o base -> address_space (pages w) ow fr big asid -> block_base 4 B -> B <= base ->
  base + _length o <= B + 2 ^ 48 -> base + _length o < 2 ^ 64 ->
  (forall v, base <= v < base + _length o -> translate (tables (pages w)) 4 asid v = None) ->
  3 * (_length o / 4096) <= Z.of_nat (length fr) ->
  exists s' ow' fr', match Vmo._type o with
      | physical => match vmo_base o with
                    | Ok b => on_pages (map_physical (Some asid) base (u64 (base + _length o)) b fl)
                    | Err e => fail e
                    end
      | sparse => match sparse_elements o with
                  | Ok l => map_elements asid base (Pmm.page_size (_aligned_to_page_level o)) fl l
                  | Err e => fail e
                  end
      end w = Ok (tt, set_pages s' w) /\
    address_space s' ow' fr' big asid /\ pages_mapped asid B base (_length o) fl o (pages w) s'.
Proof.
  intros [[Hl Hlm] Hlev Hal Hph Hsp] A HB HBb Hhi H64 Hnone Hfr. pose proof (page_aligned _ _ Hlev Hal) as Ha.
  assert (0 <= base) by (destruct HB; lia). unfold pages_mapped, behind, vmo_base, sparse_elements.
  destruct (Vmo._type o) eqn:Et.
  - destruct (Hph eq_refl) as (Hb0 & Hba & Hb52 & Hst). rewrite (u64_id (base + _length o)) by (unfold is_u64; lia).
    destruct (map_physical_spec (Some asid) (pages w) ow fr big asid B base (base + _length o) (_base o) fl)
      as (s' & ow' & fr' & E & A' & _ & _ & T); try done; try lia.
    { rewrite Z.add_mod, Ha, Hlm by lia. done. }
    { by replace (base + _length o - base) with (_length o) by lia. }
    exists s', ow', fr'. split; [unfold on_pages; by rewrite E|]. split; [done|]. intros v Hv. rewrite T by done.
    destruct ((base <=? v) && (v <? base + _length o)); [|done]. cbn. do 2 f_equal.
    assert ((v - base) mod 4096 = v mod 4096) as ->; [|lia].
    apply Z.mod_divide in Ha as [k ->]; [|lia]. replace (v - k * 4096) with (v + (- k) * 4096) by lia. by rewrite Z_mod_plus_full.
  - destruct (Hsp eq_refl) as (H0 & fs & Hel & Hlen & Hfs). rewrite H0, Hel. change (Pmm.page_size 0) with 4096.
    rewrite backings_committed.
    destruct (map_elements_spec asid base fl fs 0 w ow fr big B) as (w' & s' & ow' & fr' & E & -> & A' & _ & T); try done; try lia.
    { by rewrite Z.add_0_r. }
    { intros v Hv. apply Hnone. lia. }
    { rewrite Hlen, (Z.mul_comm 4096), Z.div_mul in Hfr by lia. lia. }
    exists s', ow', fr'. split; [done|]. split; [done|]. intros v Hv. rewrite T by done. rewrite Z.add_0_r, Z.sub_0_r.
    destruct (Z.leb_spec base v); cbn [andb]; [|by case_match].
    destruct (Z.ltb_spec v (base + _length o)) as [Hv2|Hv2].
    + destruct (fs !! Z.to_nat ((v - base) / 4096)) eqn:Ef; [done|]. apply lookup_ge_None in Ef.
      assert ((v - base) / 4096 < Z.of_nat (length fs)) by (apply Z.div_lt_upper_bound; lia).
      pose proof (Z.div_pos (v - base) 4096). lia.
    + rewrite lookup_ge_None_2; [done|]. assert (Z.of_nat (length fs) <= (v - base) / 4096) by (apply Z.div_le_lower_bound; lia). lia.
Qed.
End mapping.

(** ** [map_vmo] *)

Lemma page_size_pow i : (i < page_size_count)%nat -> Pmm.page_size i = 2 ^ (12 + 9 * Z.of_nat i).
Proof. intros Hi. unfold page_size_count in Hi. do 3 (destruct i as [|i]; [reflexivity|]). lia. Qed.
Lemma alignment_test base i : (i < page_size_count)%nat -> 
  (Z.land base (Pmm.page_size i - 1) =? 0) = bool_decide (base mod Pmm.page_size i = 0).
Proof.
  intros Hi. rewrite (page_size_pow i Hi), land_low by lia.
  destruct (Z.eqb_spec (base mod 2 ^ (12 + 9 * Z.of_nat i)) 0); [by rewrite bool_decide_true | by rewrite bool_decide_false].
Qed.

Section map_vmo.
Context {ET : ElementTree}.
Context (w : memory) (self object : Z) (x : vas) (l : list (Z * vmo_mapping)) (o : vmo) (base fl : Z).
Hypothesis (Hself : vases w !! self = Some x) (Hrep : vas_rep x l) (Hobject : vmos w !! object = Some o).
Hypothesis (Hlevel : (_aligned_to_page_level o < page_size_count)%nat).

Abbreviation range := (mkRange base (base + _length o)).
Definition the_mapping : vmo_mapping := mkMapping range (Some object) (Some self) fl true 0.
(** The free ranges of the address space. *)
Definition unoccupied : Prop := forall a m, (a, m) ∈ l -> ~ overlaps range (_range m).

Lemma map_vmo_start : base mod Pmm.page_size (_aligned_to_page_level o) = 0 -> unoccupied ->
  0 <= base -> 0 < _length o -> base + _length o < 2 ^ 64 ->
  next_object w ∉ l.*1 -> addr_ok (next_object w) ->
  exists t l1 l2, l = l1 ++ l2 /\ vas_rep (with_mappings t x) (l1 ++ (next_object w, the_mapping) :: l2) /\
    map_vmo self object base fl w =
      (match Vmo._type o with
       | physical => match vmo_base o with
                     | Ok b => on_pages (map_physical (Some (_asid x)) base (u64 (base + _length o)) b fl)
                     | Err e => fail e
                     end
       | sparse => match sparse_elements o with
                   | Ok ls => map_elements (_asid x) base (Pmm.page_size (_aligned_to_page_level o)) fl ls
                   | Err e => fail e
                   end
       end ;;
       let* x := get_vas self in
       match _vdso_mapping x with
       | Some _ => ret tt
       | None =>
           let* v := get_vdso_vmo in
           if object =? v
           then put_vas self (mkVas (_asid x) (_was_claimed_for_process x) (_mappings x) (Some (next_object w)))
           else ret tt
       end ;;
       ret (next_object w))
      (mkMemory (pages w) (vmos w) (<[self := with_mappings t x]> (vases w)) (<[next_object w := self]> (mapping_home w))
         (next_object w + 64) (vdso_vmo w) (vm_space_top w)).
Proof using Hself Hrep Hobject Hlevel.
  intros Ha Hfree Hb Hl H64 Hnew Haddr.
  assert (proper range = true) as Hpr by (apply Z.ltb_lt; cbn; lia).
  destruct (insert_mapping x l (next_object w) the_mapping Hrep Hnew Haddr Hpr Hfree) as (t & l1 & l2 & E & El & R).
  exists t, l1, l2. split; [exact El|]. split; [done|].
  destruct (find_mapping x _ range Hrep Hpr) as (p & Ef & [(m & Hin & Ho) | [-> _]]); [by destruct (Hfree _ _ Hin)|].
  unfold map_vmo. erewrite (bind_Ok (get_vmo object)) by (unfold get_vmo; by rewrite Hobject).
  rewrite alignment_test by done. rewrite bool_decide_true by done. cbn [negb].
  rewrite (u64_id (base + _length o)) by (unfold is_u64; lia).
  rewrite (bind_Ok _ _ _ _ _ (on_mappings_keep _ _ _ _ _ Hself Ef)). cbn [negb Z.eqb].
  unfold make_mapping. rewrite bind_assoc. erewrite bind_Ok by reflexivity. rewrite bind_assoc. erewrite bind_Ok by reflexivity.
  rewrite bind_assoc.
  match goal with |- bind _ _ ?w1 = _ => assert (vases w1 !! self = Some x) as H1 by done end.
  rewrite (bind_Ok _ _ _ _ _ (on_mappings_ok _ _ _ _ _ _ H1 eq_refl)). erewrite bind_Ok by reflexivity.
  match goal with |- bind _ _ ?w2 = _ =>
    assert (vases w2 !! self = Some (with_mappings (with_cell (_mappings x) (next_object w) the_mapping) x)) as H2
      by (apply lookup_insert_eq) end.
  rewrite (bind_Ok _ _ _ _ _ (on_mappings_ok _ _ _ _ _ _ H2 E)).
  cbn [vases set_vases]. rewrite insert_insert_eq.
  match goal with |- bind _ _ ?w3 = _ => change w3 with
    (mkMemory (pages w) (vmos w) (<[self := with_mappings t x]> (vases w)) (<[next_object w := self]> (mapping_home w))
       (next_object w + 64) (vdso_vmo w) (vm_space_top w)) end.
  erewrite (bind_Ok (get_vas self)) by (unfold get_vas; cbn [vases]; by rewrite lookup_insert_eq). done.
Qed.

Lemma map_vmo_spec ow fr big B v :
  object_ok o base -> unoccupied -> vdso_vmo w = Some v ->
  next_object w ∉ l.*1 -> addr_ok (next_object w) ->
  address_space (pages w) ow fr big (_asid x) -> block_base 4 B -> B <= base ->
  base + _length o <= B + 2 ^ 48 -> base + _length o < 2 ^ 64 ->
  (forall a, base <= a < base + _length o -> translate (tables (pages w)) 4 (_asid x) a = None) ->
  3 * (_length o / 4096) <= Z.of_nat (length fr) ->
  exists w' x' l1 l2 ow' fr',
    map_vmo self object base fl w = Ok (next_object w, w') /\
    vases w' = <[self := x']> (vases w) /\ vmos w' = vmos w /\ l = l1 ++ l2 /\
    vas_rep x' (l1 ++ (next_object w, the_mapping) :: l2) /\ _asid x' = _asid x /\
    _vdso_mapping x' = (match _vdso_mapping x with Some p => Some p | None => if object =? v then Some (next_object w) else None end) /\
    address_space (pages w') ow' fr' big (_asid x) /\
    pages_mapped (_asid x) B base (_length o) fl o (pages w) (pages w').
Proof using Hself Hrep Hobject Hlevel.
  intros Hok Hfree Hv Hnew Haddr A HB HBb Hhi H64 Hnone Hfr.
  assert (0 <= base) as Hb0 by (destruct HB; lia). pose proof (oo_length _ _ Hok) as [Hlen _].
  destruct (map_vmo_start (oo_aligned _ _ Hok) Hfree Hb0 Hlen H64 Hnew Haddr) as (t & l1 & l2 & El & R & ->).
  set (w1 := mkMemory _ _ _ _ _ _ _).
  destruct (map_object_spec (_asid x) o base fl w1 ow fr big B Hok A HB HBb Hhi H64 Hnone Hfr)
    as (s' & ow' & fr' & E & A' & T).
  rewrite (bind_Ok _ _ _ _ _ E). clear E.
  erewrite (bind_Ok (get_vas self)) by (unfold get_vas; cbn [vases set_pages w1]; by rewrite lookup_insert_eq).
  cbn [_vdso_mapping with_mappings].
  destruct (_vdso_mapping x) as [q|] eqn:Eq; [|erewrite (bind_assoc get_vdso_vmo), (bind_Ok get_vdso_vmo) by (unfold get_vdso_vmo, bind, gets; cbn; by rewrite Hv); destruct (object =? v)];
    (erewrite bind_Ok by reflexivity); eexists _, _, l1, l2, ow', fr'; (split; [reflexivity|]); cbn [vases vmos pages set_vases set_pages w1];
    rewrite ?insert_insert_eq; (split; [reflexivity|]); (split; [done|]); (split; [exact El|]); (split; [exact R || (split; apply R)|]); done.
Qed.

(** Mapping an object at an aligned address into a range no mapping overlaps,
    with page tables that do not map the range and three free frames per page,
    always returns the new mapping: it is registered in order among the others,
    every address of the range translates to the page of the object behind it
    with the access asked for, every other address translates as before, and the
    address space remembers the first mapping of the vdso object. *)
Theorem map_vmo_maps ow fr big B v :
  object_ok o base -> unoccupied -> vdso_vmo w = Some v ->
  next_object w ∉ l.*1 -> addr_ok (next_object w) ->
  address_space (pages w) ow fr big (_asid x) -> block_base 4 B -> B <= base ->
  base + _length o <= B + 2 ^ 48 -> base + _length o < 2 ^ 64 ->
  (forall a, base <= a < base + _length o -> translate (tables (pages w)) 4 (_asid x) a = None) ->
  3 * (_length o / 4096) <= Z.of_nat (length fr) ->
  exists w' x' l1 l2 ow' fr',
    map_vmo self object base fl w = Ok (next_object w, w') /\
    vases w' = <[self := x']> (vases w) /\ vmos w' = vmos w /\ l = l1 ++ l2 /\
    vas_rep x' (l1 ++ (next_object w, the_mapping) :: l2) /\ _asid x' = _asid x /\
    _vdso_mapping x' = (match _vdso_mapping x with Some p => Some p | None => if object =? v then Some (next_object w) else None end) /\
    address_space (pages w') ow' fr' big (_asid x) /\
    pages_mapped (_asid x) B base (_length o) fl o (pages w) (pages w').
Proof using Hself Hrep Hobject Hlevel. apply map_vmo_spec. Qed.

(** A range that is taken, or an address that is not aligned to the pages of
    the object, is refused with a panic, and nothing else happens. *)
Theorem map_vmo_refuses :
  0 <= base -> 0 < _length o -> base + _length o < 2 ^ 64 ->
  base mod Pmm.page_size (_aligned_to_page_level o) <> 0 \/ ~ unoccupied ->
  exists msg, map_vmo self object base fl w = Err (Panic msg).
Proof using Hself Hrep Hobject Hlevel.
  intros Hb Hl H64 Hbad. unfold map_vmo. erewrite (bind_Ok (get_vmo object)) by (unfold get_vmo; by rewrite Hobject).
  rewrite alignment_test by done.
  destruct (decide (base mod Pmm.page_size (_aligned_to_page_level o) = 0)) as [Ha|Ha];
    [rewrite bool_decide_true by done | rewrite bool_decide_false by done; by eexists].
  cbn [negb]. rewrite (u64_id (base + _length o)) by (unfold is_u64; lia).
  destruct (find_mapping x l range Hrep) as (p & Ef & Hm); [apply Z.ltb_lt; cbn; lia|].
  rewrite (bind_Ok _ _ _ _ _ (on_mappings_keep _ _ _ _ _ Hself Ef)).
  destruct Hm as [(m & Hin & _) | [_ Hno]]; [|by destruct Hbad].
  rewrite (proj2 (Z.eqb_neq p 0)) by (by eapply mapping_nonzero). by eexists.
Qed.
End map_vmo.

(** ** Samples *)

(** One page of physical memory, and an address space without mappings. *)
Definition one_page : vmo := create_physical_vmo 0x5000 4096 0.
Definition empty_vas : vas := mkVas 0x8000 false (mkAvl ∅ 0 0 []) None.
Definition memory0 (v : vm_state pmm) : memory :=
  mkMemory v {[0x100 := one_page]} {[0x40 := empty_vas]} ∅ 0x1000 (Some 0x200) 0xfffffff000000000.

Lemma empty_rep : vas_rep empty_vas [].
Proof.
  split; [|by intros a e]. split; [|constructor|done]. exists Leaf. split; [|done]. by split; [..|constructor|].
Qed.

(** The address space with the page mapped, read only, at [0x400000]. *)
Definition page_mapping : vmo_mapping := mkMapping (mkRange 0x400000 0x401000) (Some 0x100) (Some 0x40) 3 true 0.
Definition one_mapped : vas := mkVas 0x8000 false (mkAvl {[0x1000 := mkElem 0 0 0 page_mapping]} 0x1000 1 []) None.
Definition memory1 : memory :=
  mkMemory space0 {[0x100 := one_page]} {[0x40 := one_mapped]} {[0x1000 := 0x40]} 0x1040 (Some 0x200) 0xfffffff000000000.

Lemma sample_addr : addr_ok 0x1000.
Proof. unfold addr_ok, par_ok, is_u64. repeat split; try lia. Qed.

Lemma one_rep : vas_rep one_mapped [(0x1000, page_mapping)].
Proof.
  split; [split; [|repeat constructor|done]|].
  - exists (Node Leaf 0x1000 page_mapping 0 Leaf). split; [|done].
    change (_mappings one_mapped) with (set_root 0x1000 (mkAvl {[0x1000 := mkElem 0 0 0 page_mapping]} 0 1 [])).
    apply wf_single.
    split; [apply lookup_singleton_eq|exact sample_addr|apply not_elem_of_nil].
  - intros a e. cbn. intros [<- <-]%lookup_singleton_Some. done.
Qed.

(** The page at the end of the range is not mapped; the lock is given anyway. *)
Lemma lock_address_range_overlap_witness :
  exists r w', lock_address_range 0x40 0x400800 0x500000 false memory1 = Ok (r, w') /\
    match r with
    | Some p => exists m l1 l2 x', [(0x1000, page_mapping)] = l1 ++ (p, m) :: l2 /\
        overlaps (mkRange 0x400800 0x500000) (_range m) /\
        (false = true -> has_flags m flags_read_only = false) /\
        vases w' = <[0x40 := x']> (vases memory1) /\ vas_rep x' (l1 ++ (p, share m) :: l2)
    | None => w' = memory1 /\
        ((forall a m, (a, m) ∈ [(0x1000, page_mapping)] -> ~ overlaps (mkRange 0x400800 0x500000) (_range m)) \/
         (false = true /\ exists a m, (a, m) ∈ [(0x1000, page_mapping)] /\
            overlaps (mkRange 0x400800 0x500000) (_range m) /\ has_flags m flags_read_only = true))
    end.
Proof.
  apply (lock_address_range_overlap 0x40 one_mapped [(0x1000, page_mapping)] memory1 0x400800 0x500000 false);
    [reflexivity | exact one_rep | lia].
Defined.
Example lock_given :
  match lock_address_range 0x40 0x400800 0x500000 false memory1, lock_address_range 0x40 0x400800 0x500000 true memory1 with
  | Ok (Some p, _), Ok (None, _) => p = 0x1000
  | _, _ => False
  end.
Proof. vm_compute. reflexivity. Qed.

Lemma map_vmo_refuses_witness : exists msg, map_vmo 0x40 0x100 0x400000 1 memory1 = Err (Panic msg).
Proof.
  apply (map_vmo_refuses memory1 0x40 0x100 one_mapped [(0x1000, page_mapping)] one_page 0x400000 1);
    [reflexivity | exact one_rep | reflexivity | vm_compute; lia | lia | vm_compute; reflexivity | vm_compute; reflexivity |].
  right. intros H. apply (H 0x1000 page_mapping); [by left|]. vm_compute. split; reflexivity.
Defined.

Lemma map_vmo_maps_witness :
  exists w' x' l1 l2 ow' fr',
    map_vmo 0x40 0x100 0x400000 1 (memory0 space0) = Ok (0x1000, w') /\
    vases w' = <[0x40 := x']> (vases (memory0 space0)) /\ vmos w' = vmos (memory0 space0) /\ [] = l1 ++ l2 /\
    vas_rep x' (l1 ++ (0x1000, the_mapping 0x40 0x100 one_page 0x400000 1) :: l2) /\ _asid x' = 0x8000 /\
    _vdso_mapping x' = None /\ address_space (pages w') ow' fr' [0x200000] 0x8000 /\
    pages_mapped 0x8000 0 0x400000 4096 1 one_page space0 (pages w').
Proof.
  apply (map_vmo_maps (memory0 space0) 0x40 0x100 empty_vas [] one_page 0x400000 1 eq_refl empty_rep eq_refl
    ltac:(vm_compute; lia) owners0 [0x3000; 0x2000; 0x1000] [0x200000] 0 0x200);
    [| intros a m []%elem_of_nil | reflexivity | apply not_elem_of_nil | exact sample_addr | exact space0_ok | exact low_half
     | lia | by vm_compute | reflexivity | | by vm_compute].
  - split; [by vm_compute | vm_compute; lia | reflexivity | | done]. intros _. repeat split; try by vm_compute.
    by apply (one_page_in_step 4 0x400000).
  - intros v Hv. by apply walk_new_empty; [|change (_length one_page) with 4096 in Hv; lia].
Defined.

(** ** Unmapping *)

(** Three pages mapped at [0x3000], [0x1000] and [0x5000]; the first mapping, at
    the root of the tree, is destroyed. *)
Definition unmap_first : M memory Z :=
  let* a := map_vmo 0x40 0x100 0x3000 1 in
  map_vmo 0x40 0x100 0x1000 1 ;;
  map_vmo 0x40 0x100 0x5000 1 ;;
  mapping_destroy a ;;
  ret a.
(** What an operation returns after that. *)
Definition after {A} (m : M memory A) : res A :=
  match (unmap_first ;; m) (memory0 (mkVm {[0x8000 := pmlt_init]} frames9 0x8000 [] [] false)) with
  | Ok (a, _) => Ok a
  | Err e => Err e
  end.

(** Destroying a mapping leaves it in the tree with the empty range [0, 0),
    which is below every other range wherever the mapping is linked.  Here the
    mapping at [0x1000] was not touched and its page still translates, but it
    cannot be found any more: its range cannot be locked, and mapping there again
    passes the check for a free range and panics in the page tables. *)
Example unmap_hides_mappings :
  after (on_pages (virt_to_phys (Some 0x8000) 0x1000)) = Ok 0x5000 /\
  after (lock_address_range 0x40 0x1000 0x2000 false) = Ok None /\
  after (lock_address_range 0x40 0x5000 0x6000 false) = Ok (Some 0x1080) /\
  after (map_vmo 0x40 0x100 0x1000 1) =
    Err (Panic "Tried to re-map page {:#018x} at level {}, existing mapping: {:#018x}!") /\
  after (mapping_destroy 0x1000) = Ok false.
Proof. repeat (split; [vm_compute; reflexivity|]). vm_compute. reflexivity. Qed.

(** ** Address ranges of the kernel *)

(** Consecutive allocations are below each other, whole pages, and big enough. *)
Lemma allocate_address_range_spec size w :
  0 <= size -> vm_space_top w mod 4096 = 0 -> size + 4095 <= vm_space_top w < 2 ^ 64 ->
  exists a w', allocate_address_range size w = Ok (a, w') /\ vm_space_top w' = a /\ a mod 4096 = 0 /\
    0 <= a /\ a + size <= vm_space_top w < a + size + 4096.
Proof.
  intros Hs Ht Hr. unfold allocate_address_range. erewrite bind_Ok by reflexivity. erewrite bind_Ok by reflexivity.
  eexists _, _. split; [reflexivity|]. cbn [vm_space_top]. split; [done|].
  rewrite (u64_id (size + 4095)) by (unfold is_u64; lia).
  pose proof (land_mask_down (size + 4095) 12 ltac:(unfold is_u64; lia) ltac:(lia)) as E.
  change (not64 (2 ^ 12 - 1)) with (not64 4095) in E. change (2 ^ 12) with 4096 in E. rewrite E.
  set (real := size + 4095 - (size + 4095) mod 4096).
  pose proof (Z.mod_pos_bound (size + 4095) 4096 ltac:(lia)).
  assert (real mod 4096 = 0) as Hm.
  { unfold real. rewrite Zminus_mod, Z.mod_mod, Z.sub_diag by lia. done. }
  assert (size <= real < size + 4096) by (unfold real; lia). rewrite u64_id by (unfold is_u64, real in *; lia).
  split; [rewrite Zminus_mod, Ht, Hm; done|]. unfold real in *. lia.
Qed.
