(* ===== verification/Scheduler.v ===== *)
(** * The scheduler of one core and the global one: kernel/scheduler/types.cpp

    An instance keeps the runnable threads of a core in a [tree_heap] ordered by
    the time they last stopped running; the aggregate hands a thread to the
    child with the lowest load.  The instance is proved against the interface
    [PriorityQueue] of the heap. *)
From S2P Require Import Prelude TreeHeap HeapOrder HeapTheorems.

(** What the scheduler reads of a thread: when it stopped running and the
    process it belongs to. *)
Record thread : Type := mkThread {
  timestamp : Z;
  container : Z
}.

(** What an instance does outside of its own state. *)
Inductive event : Type :=
| Ipi
| SetAsid (asid : Z)
| Arm (token : nat)
| Cancel (token : nat).

Record instance : Type := mkInstance {
  _threads : tree_heap thread;
  _idle_thread : Z;
  _current_thread : Z;
  _preemption_token : option nat;
  cls_current_thread : Z;
  ticks : nat;
  armed : nat;
  events : list event
}.

Definition thread_timestamp_compare (lhs rhs : thread) : bool := timestamp lhs <? timestamp rhs.

#[export] Instance timestamp_strict : StrictWeak thread_timestamp_compare.
Proof. split; intros *; unfold thread_timestamp_compare; rewrite ?Z.ltb_lt, ?Z.ltb_ge; lia. Qed.

Section instance.
(** The readings of the clock, the address space of a process and its root
    table, whether the instance belongs to the core that runs the code, and
    whether interrupts are disabled on it. *)
Context (clock : nat -> Z) (vas_of : Z -> Z) (asid_of : Z -> Z) (on_core interrupts_disabled : bool).
Abbreviation IM := (M instance).

Definition set_threads (h : tree_heap thread) (s : instance) : instance :=
  mkInstance h (_idle_thread s) (_current_thread s) (_preemption_token s) (cls_current_thread s) (ticks s) (armed s) (events s).
Definition set_current (p : Z) (s : instance) : instance :=
  mkInstance (_threads s) (_idle_thread s) p (_preemption_token s) (cls_current_thread s) (ticks s) (armed s) (events s).
Definition set_cls (p : Z) (s : instance) : instance :=
  mkInstance (_threads s) (_idle_thread s) (_current_thread s) (_preemption_token s) p (ticks s) (armed s) (events s).
Definition set_token (t : option nat) (s : instance) : instance :=
  mkInstance (_threads s) (_idle_thread s) (_current_thread s) t (cls_current_thread s) (ticks s) (armed s) (events s).
Definition emit (e : event) (s : instance) : instance :=
  mkInstance (_threads s) (_idle_thread s) (_current_thread s) (_preemption_token s) (cls_current_thread s) (ticks s) (armed s) (events s ++ [e]).

Definition on_heap {A} (m : M (tree_heap thread) A) : IM A := fun s =>
  match m (_threads s) with
  | Ok (a, h) => Ok (a, set_threads h s)
  | Err e => Err e
  end.

(** [time::get_high_precision_timer().now()] *)
Definition now : IM Z := fun s =>
  Ok (clock (ticks s), mkInstance (_threads s) (_idle_thread s) (_current_thread s) (_preemption_token s)
        (cls_current_thread s) (S (ticks s)) (armed s) (events s)).
(** [one_shot]: a fresh event token. *)
Definition one_shot : IM nat := fun s =>
  Ok (armed s, mkInstance (_threads s) (_idle_thread s) (_current_thread s) (_preemption_token s)
        (cls_current_thread s) (ticks s) (S (armed s)) (events s ++ [Arm (armed s)])).

Definition get_container (p : Z) : IM Z := let* t := on_heap (deref p) in ret (container t).
Definition set_timestamp (p z : Z) : IM unit :=
  on_heap (update p (fun x => mkNode (tree_parent x) (prev x) (next x) (mkThread z (container (value x))))).

Definition _setup_preemption : IM unit :=
  when (negb on_core) (modify (emit Ipi)) ;;
  let* n := gets (fun s => _size (_threads s)) in
  if n =? 0 then ret tt else
  let* tok := gets _preemption_token in
  match tok with
  | Some t => modify (emit (Cancel t)) ;; modify (set_token None)
  | None => ret tt
  end ;;
  let* t := one_shot in
  modify (set_token (Some t)).

(** The part of [_reschedule] after the current thread was put back. *)
Definition switch_thread : IM unit :=
  let* idle := gets _idle_thread in
  let* n := gets (fun s => _size (_threads s)) in
  (if negb (n =? 0) then
     let* p := on_heap (pop thread_timestamp_compare) in modify (set_current p)
   else modify (set_current idle)) ;;
  let* current := gets _current_thread in
  let* old_thread := gets cls_current_thread in
  modify (set_cls current) ;;
  let* old_process := get_container old_thread in
  let* process := get_container current in
  (if negb (vas_of old_process =? vas_of process) then modify (emit (SetAsid (asid_of (vas_of process)))) else ret tt) ;;
  _setup_preemption.

Definition _reschedule : IM unit :=
  if negb on_core then panic "_reschedule called on a scheduler instance not of the current core!" else
  let* current := gets _current_thread in
  let* idle := gets _idle_thread in
  (if negb (current =? 0) && negb (current =? idle) then
     let* t := now in
     set_timestamp current t ;;
     modify (set_current 0) ;;
     on_heap (push thread_timestamp_compare current)
   else ret tt) ;;
  switch_thread.

Definition average_load : IM Z := gets (fun s => u64 (_size (_threads s) * 100)).

Definition schedule (t : Z) : IM unit :=
  if negb interrupts_disabled
  then panic "scheduler::schedule called with interrupts enabled (it's meant to only be called in interrupt or syscall handlers)!"
  else
    let* current := gets _current_thread in
    if current =? t then panic "rescheduling the current thread!" else
    on_heap (push thread_timestamp_compare t) ;;
    _setup_preemption.

Definition deschedule : IM Z :=
  let* p := gets _current_thread in
  modify (set_current 0) ;;
  let* t := now in
  set_timestamp p t ;;
  _reschedule ;;
  ret p.

Definition scheduling_trigger : IM unit := _setup_preemption.
(** The callback of the preemption timer. *)
Definition preempt : IM unit := _reschedule.
Definition get_idle_thread : IM Z := gets _idle_thread.
Definition get_current_thread : IM Z := gets _current_thread.
End instance.

(** ** The aggregate *)

(** The schedulers below an aggregate: instances by number, or aggregates. *)
Inductive interface : Type :=
| Instance_ (id : nat)
| Aggregate (children : list interface).

(** [average_load] of a scheduler, from the loads of the instances; the division
    by the number of children faults when there is none. *)
Fixpoint interface_load (load : nat -> Z) (i : interface) : res Z :=
  match i with
  | Instance_ id => Ok (load id)
  | Aggregate children =>
      (fix go (l : list interface) (child_count total_load : Z) : res Z :=
         match l with
         | [] => if child_count =? 0 then Err Fault else Ok (total_load / child_count)
         | c :: l' =>
             match interface_load load c with
             | Ok x => go l' (u64 (child_count + 1)) (u64 (total_load + x))
             | Err e => Err e
             end
         end) children 0 0
  end.

(** The loop of [aggregate::schedule]: the first child whose load is below all
    before it; [lowest_al] starts at the largest value. *)
Fixpoint pick_child (load : nat -> Z) (l : list interface) (lowest : option interface) (lowest_al : Z)
    : res (option interface) :=
  match l with
  | [] => Ok lowest
  | c :: l' =>
      match interface_load load c with
      | Ok al => if al <? lowest_al then pick_child load l' (Some c) al else pick_child load l' lowest lowest_al
      | Err e => Err e
      end
  end.

(** [schedule] of a scheduler ends at an instance, whose number it gives. *)
Fixpoint interface_schedule (fuel : nat) (load : nat -> Z) (i : interface) : res nat :=
  match fuel, i with
  | O, _ => Err NoFuel
  | _, Instance_ id => Ok id
  | S n, Aggregate children =>
      match pick_child load children None (2 ^ 64 - 1) with
      | Ok (Some c) => interface_schedule n load c
      | Ok None => Err (Panic "didn't find any candidate children schedulers")
      | Err e => Err e
      end
  end.

(** [add_child] appends. *)
Definition add_child (children : list interface) (c : interface) : list interface := children ++ [c].
