(* ===== verification/SchedulerTheorems.v ===== *)
(** * What the scheduler promises *)
From S2P Require Import Prelude TreeHeap HeapLaws HeapOps HeapOrder HeapQueue HeapTheorems Scheduler.

(** A thread as the heap stores it. *)
Definition thread_at (s : instance) (p : Z) : option thread := value <$> (mem (_threads s) !! p).

Section laws.
Context (clock : nat -> Z) (vas_of asid_of : Z -> Z).
Context {holds : tree_heap thread -> list Z -> Prop} `{!PriorityQueue thread_timestamp_compare holds}.
Implicit Types (s : instance) (l : list Z).

(** The core runs one of the threads it knows, and its queue holds others. *)
Record running s l (c : Z) : Prop := {
  rn_queue : holds (_threads s) l;
  rn_current : _current_thread s = c;
  rn_cls : cls_current_thread s = c;
  rn_apart : c ∉ l;
  rn_null : mem (_threads s) !! 0 = None;
  rn_small : Z.of_nat (S (length l)) < 2 ^ 63;
  rn_thread : is_Some (thread_at s c);
  rn_idle : is_Some (thread_at s (_idle_thread s)) /\ _idle_thread s ∉ l
}.

Lemma on_heap_ok {A} (m : M (tree_heap thread) A) s a h :
  m (_threads s) = Ok (a, h) -> on_heap m s = Ok (a, set_threads h s).
Proof using Type. intros E. unfold on_heap. by rewrite E. Qed.

Lemma get_container_ok s p t : thread_at s p = Some t -> get_container p s = Ok (container t, s).
Proof using Type.
  unfold thread_at, get_container. intros H. destruct (mem (_threads s) !! p) as [x|] eqn:E; [|done]. cbn in H. simplify_eq.
  erewrite bind_Ok by (apply on_heap_ok, heap_deref_ok, E). unfold ret, set_threads. by destruct s.
Qed.

(** The preemption timer is armed whenever a thread waits, and at most one event
    of it is live. *)
Definition preemption_events s : list event :=
  (if _size (_threads s) =? 0 then []
   else (match _preemption_token s with Some t => [Cancel t] | None => [] end) ++ [Arm (armed s)]).
Lemma setup_preemption_ok s :
  exists s', _setup_preemption true s = Ok (tt, s') /\
    _threads s' = _threads s /\ _idle_thread s' = _idle_thread s /\ _current_thread s' = _current_thread s /\
    cls_current_thread s' = cls_current_thread s /\ events s' = events s ++ preemption_events s /\
    (_size (_threads s) <> 0 -> _preemption_token s' = Some (armed s)).
Proof using Type.
  unfold _setup_preemption, preemption_events. cbn [negb when]. erewrite bind_Ok by reflexivity. erewrite bind_Ok by reflexivity.
  destruct (Z.eqb_spec (_size (_threads s)) 0) as [E|E].
  { exists s. rewrite app_nil_r. done. }
  erewrite bind_Ok by reflexivity. destruct (_preemption_token s) as [t|];
    (eexists; split; [reflexivity|]); cbn; rewrite <- ?app_assoc; done.
Qed.

(** The outcome of a switch from the threads [l] waiting in [s]: the oldest of
    them runs next, the idle thread when there is none; the root table is loaded
    exactly when the address space changes; the preemption timer is armed when
    threads are left waiting. *)
Definition switched s l s' l' (p : Z) : Prop :=
  _current_thread s' = p /\ cls_current_thread s' = p /\ holds (_threads s') l' /\
    _idle_thread s' = _idle_thread s /\ (forall q, thread_at s' q = thread_at s q) /\
    (l = [] -> p = _idle_thread s /\ l' = []) /\
    (l <> [] -> l ≡ₚ p :: l' /\
       forall q t u, q ∈ l -> thread_at s q = Some t -> thread_at s p = Some u -> timestamp u <= timestamp t) /\
    (l' <> [] -> _preemption_token s' <> None) /\
    exists old new rest, thread_at s (cls_current_thread s) = Some old /\ thread_at s p = Some new /\
      events s' = events s ++
        (if vas_of (container old) =? vas_of (container new) then [] else [SetAsid (asid_of (vas_of (container new)))]) ++ rest /\
      Forall (fun e => forall a, e <> SetAsid a) rest.

Lemma preemption_no_asid s : Forall (fun e => forall a, e <> SetAsid a) (preemption_events s).
Proof using Type.
  unfold preemption_events. destruct (_ =? 0); [done|]. apply Forall_app. split; [|by repeat constructor].
  destruct (_preemption_token s); by repeat constructor.
Qed.

Lemma same_thread_at s h q : same_objects (_threads s) h -> thread_at (set_threads h s) q = thread_at s q.
Proof using Type. intros H. unfold thread_at. cbn. apply H. Qed.

(** The first half of a switch: the thread to run is taken out. *)
Lemma take_next s l :
  holds (_threads s) l -> is_Some (thread_at s (_idle_thread s)) ->
  exists p h l', (let* n := gets (fun s => _size (_threads s)) in
     if negb (n =? 0) then let* p := on_heap (pop thread_timestamp_compare) in modify (set_current p)
     else modify (set_current (_idle_thread s))) s = Ok (tt, set_current p (set_threads h s)) /\
    holds h l' /\ same_objects (_threads s) h /\ is_Some (thread_at s p) /\
    (l = [] -> p = _idle_thread s /\ l' = []) /\
    (l <> [] -> l ≡ₚ p :: l' /\
       forall q t u, q ∈ l -> thread_at s q = Some t -> thread_at s p = Some u -> timestamp u <= timestamp t).
Proof using PriorityQueue0.
  clear clock vas_of asid_of. intros Hq Hi. erewrite bind_Ok by reflexivity. rewrite (pq_size _ _ Hq). destruct l as [|q0 l0] eqn:El.
  - cbn [length Z.of_nat Z.eqb negb]. exists (_idle_thread s), (_threads s), []. split; [|split; [done|split; [done|split; [done|split; [done|done]]]]].
    by destruct s.
  - rewrite <- El in *. rewrite (proj2 (Z.eqb_neq _ 0)) by (subst l; cbn; lia). cbn [negb].
    assert (Hne : l <> []) by (by subst l).
    destruct (pq_peek _ _ Hq Hne) as (p & Ep & Hp & Hmin). destruct (pq_pop _ _ p Hq Hne Ep) as (h & l' & Epop & Hh & P & So).
    erewrite bind_Ok by (by apply on_heap_ok). exists p, h, l'. split; [reflexivity|].
    destruct (pq_object _ _ _ Hq Hp) as (v & Ev & _).
    assert (Hat : forall q w, thread_at s q = Some w -> deref q (_threads s) = Ok (w, _threads s)).
    { intros q w Hw. unfold thread_at in Hw. destruct (mem (_threads s) !! q) as [x|] eqn:E; [|done]. cbn in Hw. simplify_eq. by apply heap_deref_ok. }
    split; [done|]. split; [done|]. split.
    { unfold deref, load, bind in Ev. unfold thread_at. destruct (mem (_threads s) !! p); [by eexists|done]. }
    split; [done|]. intros _. split; [done|]. intros q t u Hql Ht Hu.
    specialize (Hmin q t u Hql (Hat _ _ Ht) (Hat _ _ Hu)). unfold thread_timestamp_compare in Hmin. by apply Z.ltb_ge in Hmin.
Qed.

Lemma switch_thread_ok s l :
  holds (_threads s) l -> is_Some (thread_at s (_idle_thread s)) -> is_Some (thread_at s (cls_current_thread s)) ->
  exists s' l' p, switch_thread vas_of asid_of true s = Ok (tt, s') /\ switched s l s' l' p.
Proof using PriorityQueue0.
  clear clock. intros Hq Hi [old Hold]. destruct (take_next s l Hq Hi) as (p & h & l' & E & Hh & So & [new Hnew] & H0 & H1).
  unfold switch_thread. erewrite bind_Ok by reflexivity. rewrite <- bind_assoc. erewrite bind_Ok by exact E. clear E.
  do 3 erewrite bind_Ok by reflexivity. cbn [_current_thread set_current cls_current_thread set_threads].
  set (s1 := set_cls p _).
  assert (Hat : forall q, thread_at s1 q = thread_at s q) by (intros q; by rewrite <- (same_thread_at s h q So)).
  erewrite bind_Ok by (apply get_container_ok; by rewrite Hat). erewrite bind_Ok by (apply get_container_ok; by rewrite Hat).
  set (s2 := if vas_of (container old) =? vas_of (container new) then s1 else emit (SetAsid (asid_of (vas_of (container new)))) s1).
  assert (E2 : forall (k : M instance unit), ((if negb (vas_of (container old) =? vas_of (container new))
    then modify (emit (SetAsid (asid_of (vas_of (container new))))) else ret tt) ;; k) s1 = k s2).
  { intros k. subst s2. destruct (_ =? _); done. }
  rewrite E2. destruct (setup_preemption_ok s2) as (s' & E & T1 & T2 & T3 & T4 & T5 & T6). exists s', l', p. split; [done|].
  assert (Hs2 : _threads s2 = h /\ _idle_thread s2 = _idle_thread s /\ _current_thread s2 = p /\ cls_current_thread s2 = p /\
    events s2 = events s ++ (if vas_of (container old) =? vas_of (container new) then [] else [SetAsid (asid_of (vas_of (container new)))])).
  { subst s2 s1. destruct (_ =? _); cbn; rewrite ?app_nil_r; done. }
  destruct Hs2 as (U1 & U2 & U3 & U4 & U5).
  split; [congruence|]. split; [congruence|]. split; [by rewrite T1, U1|]. split; [congruence|].
  split; [intros q; unfold thread_at; rewrite T1, U1; apply So|]. split; [done|]. split; [done|].
  split; [intros Hl'; rewrite T6; [done|rewrite U1, (pq_size _ _ Hh); destruct l'; [done|cbn; lia]]|].
  exists old, new, (preemption_events s2). split; [done|]. split; [done|]. split; [by rewrite T5, U5, <- app_assoc|].
  apply preemption_no_asid.
Qed.

(** [s] with the time [z] written into the thread [c], after one reading of the
    clock, and no current thread. *)
Definition stamp_node (z : Z) (x : hnode thread) : hnode thread :=
  mkNode (tree_parent x) (prev x) (next x) (mkThread z (container (value x))).
Definition stamped s (c z : Z) : instance :=
  set_current 0 (mkInstance (on_mem (alter (stamp_node z) c) (_threads s)) (_idle_thread s) (_current_thread s)
    (_preemption_token s) (cls_current_thread s) (S (ticks s)) (armed s) (events s)).

Lemma stamped_at s c z q :
  thread_at (stamped s c z) q = if decide (q = c) then (fun t => mkThread z (container t)) <$> thread_at s q else thread_at s q.
Proof using Type.
  unfold thread_at, stamped. cbn. case_decide as H; [subst; rewrite lookup_alter_eq|by rewrite lookup_alter_ne].
  by destruct (mem (_threads s) !! c).
Qed.
Lemma stamped_some s c z q : is_Some (thread_at s q) -> is_Some (thread_at (stamped s c z) q).
Proof using Type. rewrite stamped_at. case_decide; [|done]. by intros [t ->]. Qed.
Lemma stamped_queue s l c z : running s l c -> holds (_threads (stamped s c z)) l.
Proof using PriorityQueue0.
  intros [Hq _ _ Ha Hn _ _ _]. eapply pq_frame; [exact Hq|done|done|by apply alter_null|].
  intros p Hp. cbn. apply lookup_alter_ne. by intros ->.
Qed.
Lemma set_timestamp_ok s p z :
  is_Some (thread_at s p) -> set_timestamp p z s = Ok (tt, set_threads (on_mem (alter (stamp_node z) p) (_threads s)) s).
Proof using Type.
  intros H. unfold set_timestamp. apply on_heap_ok, update_ok. unfold thread_at in H.
  destruct (mem (_threads s) !! p); [by eexists|by destruct H].
Qed.

(** The threads after a switch are again one running and others waiting. *)
Lemma switched_running s l s' l' p :
  switched s l s' l' p -> NoDup l -> _idle_thread s ∉ l -> mem (_threads s) !! 0 = None -> Z.of_nat (length l) < 2 ^ 63 ->
  is_Some (thread_at s (_idle_thread s)) -> running s' l' p.
Proof using Type.
  intros (C1 & C2 & Hq & Ci & Hat & H0 & H1 & _ & old & new & rest & _ & Hn & _) Nd Hi Hz Hs Hid.
  assert (Hz' : mem (_threads s') !! 0 = None).
  { specialize (Hat 0). unfold thread_at in Hat. rewrite Hz in Hat. by destruct (mem (_threads s') !! 0). }
  destruct l as [|q0 l0] eqn:El.
  - destruct (H0 eq_refl) as [-> ->]. split; [exact Hq|done|done|apply not_elem_of_nil|done|cbn; lia|rewrite Hat; by exists new|].
    rewrite Ci, Hat. split; [done|apply not_elem_of_nil].
  - rewrite <- El in *. destruct (H1 ltac:(by subst l)) as [P _]. rewrite P in Nd, Hi. apply NoDup_cons in Nd as [Hp Nd].
    apply Permutation_length in P. cbn in P. split; [exact Hq|done|done|done|done|lia|rewrite Hat; by exists new|]. rewrite Ci, Hat.
    split; [done|]. intros Hx. apply Hi. by right.
Qed.

(** Blocking the running thread: [deschedule] gives it back, stamped with
    the time; the core then runs the thread that has waited longest, the idle
    thread when none waits, with its address space loaded when it differs, and
    the preemption timer armed when threads are left waiting. *)
Theorem deschedule_switches s l c :
  running s l c ->
  exists s' l' p, deschedule clock vas_of asid_of true s = Ok (c, s') /\
    switched (stamped s c (clock (ticks s))) l s' l' p /\ running s' l' p.
Proof using PriorityQueue0.
  intros H. pose proof H as [Hq Hc Hcls Ha Hz Hs Ht [Hi Hil]]. unfold deschedule. erewrite bind_Ok by reflexivity. rewrite Hc.
  erewrite bind_Ok by reflexivity. erewrite bind_Ok by reflexivity.
  erewrite bind_Ok by (apply set_timestamp_ok, Ht).
  match goal with |- context [bind _ _ ?x] => change x with (stamped s c (clock (ticks s))) end.
  set (s1 := stamped s c (clock (ticks s))).
  assert (E : _reschedule clock vas_of asid_of true s1 = switch_thread vas_of asid_of true s1) by reflexivity.
  destruct (switch_thread_ok s1 l) as (s' & l' & p & Es & Sw).
  { by apply stamped_queue. }
  { apply stamped_some, Hi. }
  { apply stamped_some. change (cls_current_thread s1) with (cls_current_thread s). by rewrite Hcls. }
  rewrite <- E in Es. erewrite bind_Ok by exact Es. exists s', l', p. split; [done|]. split; [done|].
  eapply switched_running; [exact Sw|by eapply pq_nodup|done|by apply alter_null|lia|by apply stamped_some].
Qed.

(** C35: at the end of its time slice the running thread, when it is not the idle
    one, goes back among the waiting ones stamped with the time, and the thread
    that has waited longest runs: another one whenever some thread has waited
    since before that time. *)
Theorem preempt_rotates s l c :
  running s l c -> c <> 0 -> c <> _idle_thread s ->
  (l = [] -> exists t, mem (_threads s) !! c = Some (mkNode 0 0 0 t)) ->
  exists s1 s' l' p, preempt clock vas_of asid_of true s = Ok (tt, s') /\
    (forall q, thread_at s1 q = thread_at (stamped s c (clock (ticks s))) q) /\
    switched s1 (c :: l) s' l' p /\ running s' l' p /\
    ((exists q t, q ∈ l /\ thread_at s q = Some t /\ timestamp t < clock (ticks s)) -> p <> c).
Proof using PriorityQueue0.
  intros H Hc0 Hci Hl. pose proof H as [Hq Hc Hcls Ha Hz Hs Ht [Hi Hil]]. unfold preempt, _reschedule. cbn [negb].
  do 2 erewrite bind_Ok by reflexivity. rewrite Hc, !(proj2 (Z.eqb_neq _ _)) by done. cbn [negb andb].
  rewrite !bind_assoc. erewrite bind_Ok by reflexivity. rewrite !bind_assoc. erewrite bind_Ok by (apply set_timestamp_ok, Ht).
  rewrite !bind_assoc. erewrite bind_Ok by reflexivity.
  match goal with |- context [bind (on_heap _) _ ?x] => change x with (stamped s c (clock (ticks s))) end.
  set (s0 := stamped s c (clock (ticks s))).
  assert (Hx : exists x, mem (_threads s0) !! c = Some x /\ (l = [] -> x = mkNode 0 0 0 (value x))).
  { unfold thread_at in Ht. destruct (mem (_threads s) !! c) as [x|] eqn:Ex; [|by destruct Ht].
    exists (stamp_node (clock (ticks s)) x). split; [cbn; by rewrite lookup_alter_eq, Ex|].
    intros El. destruct (Hl El) as [t Et]. by simplify_eq. }
  destruct Hx as (x & Hx & Hxl).
  destruct (pq_push (_threads s0) l c x) as (h & Eh & Hh & So); try done; [by apply stamped_queue|].
  erewrite bind_Ok by (by apply on_heap_ok). set (s1 := set_threads h s0).
  assert (Hat : forall q, thread_at s1 q = thread_at s0 q) by (intros q; by apply same_thread_at).
  destruct (switch_thread_ok s1 (c :: l)) as (s' & l' & p & Es & Sw).
  { done. }
  { rewrite Hat. apply stamped_some, Hi. }
  { rewrite Hat. apply stamped_some. change (cls_current_thread s1) with (cls_current_thread s). by rewrite Hcls. }
  exists s1, s', l', p. split; [done|]. split; [done|]. split; [done|].
  assert (Hz1 : mem (_threads s1) !! 0 = None).
  { specialize (So 0). cbn in So. rewrite alter_null in So by done. cbn. by destruct (mem h !! 0). }
  split.
  { eapply switched_running; [exact Sw|by eapply pq_nodup| |done|cbn [length]; lia|rewrite Hat; by apply stamped_some].
    change (_idle_thread s1) with (_idle_thread s). set_solver. }
  intros (q & t & Hql & Hqt & Hlt) ->.
  destruct Sw as (_ & _ & _ & _ & _ & _ & Sw & _). destruct (Sw ltac:(done)) as [_ Hmin].
  destruct Ht as [tc Htc].
  assert (Hle : clock (ticks s) <= timestamp t).
  { eapply (Hmin q t (mkThread (clock (ticks s)) (container tc))); [by right| |]; rewrite Hat; unfold s0; rewrite stamped_at.
    - rewrite decide_False; [done|]. intros ->. done.
    - rewrite decide_True by done. by rewrite Htc. }
  lia.
Qed.

(** [schedule] insists on disabled interrupts and on a thread other than the
    current one; otherwise the thread joins the waiting ones and the preemption
    timer is armed anew, its previous event cancelled. *)
Theorem schedule_enqueues s l c t :
  running s l c ->
  (schedule true false t s = panic "scheduler::schedule called with interrupts enabled (it's meant to only be called in interrupt or syscall handlers)!" s) /\
  schedule true true c s = panic "rescheduling the current thread!" s /\
  (t <> c -> t <> 0 -> t ∉ l -> (exists x, mem (_threads s) !! t = Some x /\ (l = [] -> x = mkNode 0 0 0 (value x))) ->
   exists s', schedule true true t s = Ok (tt, s') /\ holds (_threads s') (t :: l) /\
     (forall q, thread_at s' q = thread_at s q) /\ _current_thread s' = c /\ _preemption_token s' = Some (armed s) /\
     events s' = events s ++ (match _preemption_token s with Some k => [Cancel k] | None => [] end) ++ [Arm (armed s)]).
Proof using PriorityQueue0.
  clear clock vas_of asid_of. intros [Hq Hc Hcls Ha Hz Hs Ht [Hi Hil]]. split; [done|]. unfold schedule. cbn [negb]. split.
  { erewrite bind_Ok by reflexivity. by rewrite Hc, Z.eqb_refl. }
  intros Htc Ht0 Htl (x & Hx & Hxl). erewrite bind_Ok by reflexivity. rewrite Hc, (proj2 (Z.eqb_neq _ _)) by done.
  destruct (pq_push (_threads s) l t x) as (h & Eh & Hh & So); try done.
  erewrite bind_Ok by (by apply on_heap_ok). destruct (setup_preemption_ok (set_threads h s)) as (s' & E & T1 & T2 & T3 & T4 & T5 & T6).
  assert (Hsz : _size h <> 0) by (rewrite (pq_size _ _ Hh); cbn; lia).
  exists s'. split; [done|]. split; [by rewrite T1|]. split; [intros q; unfold thread_at; rewrite T1; apply So|].
  split; [by rewrite T3|]. split; [by apply T6|]. rewrite T5. unfold preemption_events. cbn. by rewrite (proj2 (Z.eqb_neq _ 0)).
Qed.
End laws.

(** ** The aggregate *)

Lemma pick_child_spec load l cs lowest al :
  Forall2 (fun c x => interface_load load c = Ok x) l cs ->
  exists r, pick_child load l lowest al = Ok r /\
    ((r = lowest /\ Forall (fun x => al <= x) cs) \/
     exists i c x, r = Some c /\ l !! i = Some c /\ cs !! i = Some x /\ x < al /\
       Forall (fun y => x <= y) cs /\ forall j y, (j < i)%nat -> cs !! j = Some y -> x < y).
Proof.
  intros H. revert lowest al. induction H as [|c x l cs Hc _ IH]; intros lowest al; cbn [pick_child].
  { exists lowest. split; [done|]. by left. }
  rewrite Hc. destruct (Z.ltb_spec x al) as [Hx|Hx].
  - destruct (IH (Some c) x) as (r & E & [[-> Hf]|(i & c' & x' & -> & Hl & Hcs & Hlt & Hf & Hj)]); (eexists; split; [exact E|]); right.
    + exists 0%nat, c, x. do 4 (split; [done|]). split; [by constructor|]. intros j y Hj. lia.
    + exists (S i), c', x'. do 3 (split; [done|]). split; [lia|]. split; [constructor; [lia|done]|].
      intros [|j] y Hji Hy; cbn in Hy; [simplify_eq; lia|]. apply (Hj j y); [lia|done].
  - destruct (IH lowest al) as (r & E & [[-> Hf]|(i & c' & x' & -> & Hl & Hcs & Hlt & Hf & Hj)]); (eexists; split; [exact E|]).
    + left. split; [done|]. by constructor.
    + right. exists (S i), c', x'. do 3 (split; [done|]). split; [done|]. split; [constructor; [lia|done]|].
      intros [|j] y Hji Hy; cbn in Hy; [simplify_eq; lia|]. apply (Hj j y); [lia|done].
Qed.

(** An aggregate whose children report the loads [cs] hands a thread to the
    first of the children with the lowest load; it panics exactly when no child
    reports a load below the largest value. *)
Theorem aggregate_picks_lowest load children cs n :
  Forall2 (fun c x => interface_load load c = Ok x) children cs ->
  (Forall (fun x => 2 ^ 64 - 1 <= x) cs ->
     interface_schedule (S n) load (Aggregate children) = Err (Panic "didn't find any candidate children schedulers")) /\
  (~ Forall (fun x => 2 ^ 64 - 1 <= x) cs ->
     exists i c x, children !! i = Some c /\ cs !! i = Some x /\ Forall (fun y => x <= y) cs /\
       (forall j y, (j < i)%nat -> cs !! j = Some y -> x < y) /\
       interface_schedule (S n) load (Aggregate children) = interface_schedule n load c).
Proof.
  intros H. destruct (pick_child_spec load children cs None (2 ^ 64 - 1) H) as (r & E & Hr). cbn [interface_schedule]. rewrite E. split.
  - intros Hf. destruct Hr as [[-> _]|(i & c & x & -> & _ & Hx & Hlt & _)]; [done|].
    rewrite Forall_lookup in Hf. specialize (Hf _ _ Hx). lia.
  - intros Hf. destruct Hr as [[-> Hf']|(i & c & x & -> & Hl & Hx & _ & Hmin & Hj)]; [done|]. exists i, c, x. done.
Qed.

(** ** Runs *)

(** The idle thread at 16, a thread at 32, two waiting ones at 48 and 64. *)
Definition sample_store : gmap Z (hnode thread) :=
  list_to_map [(16, mkNode 0 0 0 (mkThread 0 1)); (32, mkNode 0 0 0 (mkThread 9 2));
               (48, mkNode 0 0 0 (mkThread 5 2)); (64, mkNode 0 0 0 (mkThread 3 3))].
Definition heap_of (m : M (tree_heap thread) unit) : tree_heap thread :=
  match m (mkHeap sample_store 0 0) with Ok (_, h) => h | Err _ => mkHeap ∅ 0 0 end.
Definition sample_heap : tree_heap thread :=
  heap_of (push thread_timestamp_compare 48 ;; push thread_timestamp_compare 64).
Definition sample_core : instance := mkInstance sample_heap 16 32 None 32 0 0 [].
Definition sample_clock (n : nat) : Z := 10 + Z.of_nat n.

Lemma sample_holds : heap_holds thread_timestamp_compare sample_heap [64; 48].
Proof.
  eapply (push_holds _ (heap_of (push thread_timestamp_compare 48)) _ [48] 64).
  - eapply (push_holds _ (mkHeap sample_store 0 0) _ [] 48); [..|by vm_compute].
    + apply empty_holds; try done. constructor. exact (mkThread 0 0).
    + apply not_elem_of_nil.
    + lia.
    + cbn. lia.
    + by vm_compute.
    + done.
  - intros H%list_elem_of_singleton. lia.
  - lia.
  - cbn. lia.
  - by vm_compute.
  - done.
  - by vm_compute.
Qed.
Lemma sample_running : running (holds := heap_holds thread_timestamp_compare) sample_core [64; 48] 32.
Proof.
  split; [exact sample_holds|done|done|apply (bool_decide_unpack _); by vm_compute|by vm_compute|cbn; lia|by eexists; vm_compute|].
  split; [by eexists; vm_compute|apply (bool_decide_unpack _); by vm_compute].
Qed.

Lemma deschedule_switches_witness :
  exists s' l' p, deschedule sample_clock id id true sample_core = Ok (32, s') /\
    switched id id (holds := heap_holds thread_timestamp_compare) (stamped sample_core 32 10) [64; 48] s' l' p /\
    running (holds := heap_holds thread_timestamp_compare) s' l' p.
Proof. apply (deschedule_switches sample_clock id id sample_core [64; 48] 32 sample_running). Defined.

Lemma preempt_rotates_witness :
  exists s1 s' l' p, preempt sample_clock id id true sample_core = Ok (tt, s') /\
    (forall q, thread_at s1 q = thread_at (stamped sample_core 32 10) q) /\
    switched id id (holds := heap_holds thread_timestamp_compare) s1 [32; 64; 48] s' l' p /\
    running (holds := heap_holds thread_timestamp_compare) s' l' p /\
    ((exists q t, q ∈ [64; 48] /\ thread_at sample_core q = Some t /\ timestamp t < 10) -> p <> 32).
Proof.
  apply (preempt_rotates sample_clock id id sample_core [64; 48] 32 sample_running); [lia|cbn; lia|discriminate].
Defined.

Lemma schedule_enqueues_witness :
  exists s', schedule true true 48 (mkInstance (mkHeap sample_store 0 0) 16 32 (Some 4%nat) 32 0 5 []) = Ok (tt, s') /\
    heap_holds thread_timestamp_compare (_threads s') [48] /\ _preemption_token s' = Some 5%nat /\ events s' = [Cancel 4; Arm 5].
Proof.
  destruct (schedule_enqueues (mkInstance (mkHeap sample_store 0 0) 16 32 (Some 4%nat) 32 0 5 []) [] 32 48) as (_ & _ & H).
  - split; [|done|done|apply not_elem_of_nil|by vm_compute|cbn; lia|by eexists; vm_compute|].
    + apply empty_holds; try done. constructor. exact (mkThread 0 0).
    + split; [by eexists; vm_compute|apply not_elem_of_nil].
  - destruct H as (s' & E & Hh & _ & _ & Ht & He); [lia|lia|apply not_elem_of_nil|by eexists; split; [by vm_compute|]|].
    exists s'. split; [exact E|]. split; [exact Hh|]. split; [exact Ht|exact He].
Defined.

Lemma aggregate_picks_lowest_witness :
  (Forall (fun x => 2 ^ 64 - 1 <= x) [300; 100; 100] ->
     interface_schedule 2 (fun i => nth i [300; 100; 100] 0) (Aggregate [Instance_ 0; Instance_ 1; Instance_ 2]) =
       Err (Panic "didn't find any candidate children schedulers")) /\
  (~ Forall (fun x => 2 ^ 64 - 1 <= x) [300; 100; 100] ->
     exists i c x, [Instance_ 0; Instance_ 1; Instance_ 2] !! i = Some c /\ [300; 100; 100] !! i = Some x /\
       Forall (fun y => x <= y) [300; 100; 100] /\ (forall j y, (j < i)%nat -> [300; 100; 100] !! j = Some y -> x < y) /\
       interface_schedule 2 (fun i => nth i [300; 100; 100] 0) (Aggregate [Instance_ 0; Instance_ 1; Instance_ 2]) =
         interface_schedule 1 (fun i => nth i [300; 100; 100] 0) c).
Proof. apply aggregate_picks_lowest. repeat constructor. Defined.
Example schedule_lowest :
  interface_schedule 3 (fun i => nth i [300; 100; 100] 0) (Aggregate [Instance_ 0; Aggregate [Instance_ 1; Instance_ 2]]) = Ok 1%nat.
Proof. reflexivity. Qed.

(** The core runs 32; 64 and 48 wait.  Blocking 32 and then 64 lets 48 run with an
    empty queue; when 64 wakes, it brings the link to 48 it had on top of the
    queue, and 32, which wakes next, is put above it with that link: the thread
    the queue gives after 32 is 48, which is running, and 64 is lost. *)
Example woken_thread_is_lost :
  match (deschedule sample_clock id id true ;; deschedule sample_clock id id true ;;
         schedule true true 64 ;; schedule true true 32) sample_core with
  | Ok (_, s) =>
      _current_thread s = 48 /\ _size (_threads s) = 2 /\
      match (pop thread_timestamp_compare ;; pop thread_timestamp_compare) (_threads s) with
      | Ok (p, h) => p = 48 /\ _size h = 0
      | Err _ => False
      end
  | Err _ => False
  end.
Proof. vm_compute. auto. Qed.
