(* ===== verification/Timer.v ===== *)
(** * Timers: kernel/time/time.h and time.cpp

    A timer keeps the descriptors of its pending events in a [tree_heap] ordered
    by the time they are due.  The hardware is the two virtual functions of the
    class: a sequence of readings of the clock and the durations the one-shot
    counter was set to.  A callback is code outside of the timer that runs while
    the lock of the timer is not held, and a parameter here. *)
From S2P Require Import Prelude Text Bytes TreeHeap.

(** ** Data *)

(** [_timer_descriptor]; the callback is the pair of the trampoline and the
    pointer it casts back. *)
Record timer_descriptor : Type := mkDescriptor {
  id : Z;
  trigger_time : Z;
  callback : Z;
  erased_callback : Z;
  context : Z;
  valid : bool
}.
Definition new_descriptor : timer_descriptor := mkDescriptor 0 0 0 0 0 true.

Inductive _mode : Type := mode_one_shot | mode_periodic.

(** A timer with the object allocator its descriptors come from; [readings]
    counts the readings of the clock, [armed] are the durations the hardware was
    set to, [fired] the callbacks that ran. *)
Record timer : Type := mkTimer {
  _heap : tree_heap timer_descriptor;
  _lock : bool;
  _now : Z;
  _next_id : Z;
  next_object : Z;
  readings : nat;
  armed : list Z;
  fired : list (Z * Z * Z)
}.

Definition timer_descriptor_comparator (lhs rhs : timer_descriptor) : bool := trigger_time lhs <? trigger_time rhs.

(** [event_token]: the descriptor it owns a reference to. *)
Definition event_token : Type := option Z.

Section timer.
(** The readings of the clock and the code of the callbacks. *)
Context (clock : nat -> Z) (run : Z -> Z -> Z -> M timer unit).
Abbreviation TM := (M timer).

Definition set_heap (h : tree_heap timer_descriptor) (s : timer) : timer :=
  mkTimer h (_lock s) (_now s) (_next_id s) (next_object s) (readings s) (armed s) (fired s).
Definition set_lock (b : bool) (s : timer) : timer :=
  mkTimer (_heap s) b (_now s) (_next_id s) (next_object s) (readings s) (armed s) (fired s).
Definition set_next_id (n : Z) (s : timer) : timer :=
  mkTimer (_heap s) (_lock s) (_now s) n (next_object s) (readings s) (armed s) (fired s).
Definition log_fired (f e c : Z) (s : timer) : timer :=
  mkTimer (_heap s) (_lock s) (_now s) (_next_id s) (next_object s) (readings s) (armed s) (fired s ++ [(f, e, c)]).

Definition on_heap {A} (m : M (tree_heap timer_descriptor) A) : TM A := fun s =>
  match m (_heap s) with
  | Ok (a, h) => Ok (a, set_heap h s)
  | Err e => Err e
  end.

(** The mutex of the timer, which its owner cannot take twice. *)
Definition lock : TM unit :=
  let* b := gets _lock in if b then fail Deadlock else modify (set_lock true).
Definition unlock : TM unit := modify (set_lock false).

(** The virtual functions. *)
Definition _update_now : TM unit :=
  modify (fun s => mkTimer (_heap s) (_lock s) (clock (readings s)) (_next_id s) (next_object s)
                     (S (readings s)) (armed s) (fired s)).
Definition _one_shot_after (d : Z) : TM unit :=
  modify (fun s => mkTimer (_heap s) (_lock s) (_now s) (_next_id s) (next_object s)
                     (readings s) (armed s ++ [d]) (fired s)).

Definition now : TM Z :=
  lock ;;
  _update_now ;;
  let* t := gets _now in
  unlock ;;
  ret t.

(** [util::make_intrusive<_timer_descriptor>()] *)
Definition make_descriptor : TM Z := fun s =>
  let p := next_object s in
  let h := _heap s in
  Ok (p, mkTimer (mkHeap (<[p := mkNode 0 0 0 new_descriptor]> (mem h)) (_top h) (_size h))
           (_lock s) (_now s) (_next_id s) (p + 64) (readings s) (armed s) (fired s)).
Definition set_descriptor (p : Z) (f : timer_descriptor -> timer_descriptor) : TM unit :=
  on_heap (update p (fun x => mkNode (tree_parent x) (prev x) (next x) (f (value x)))).

(** Times are 64-bit signed counts of nanoseconds; their overflow is undefined. *)
Definition time_add (a b : Z) : TM Z :=
  if (- 2 ^ 63 <=? a + b) && (a + b <? 2 ^ 63) then ret (a + b) else fail Fault.

Definition periodic_bit : Z := 2 ^ 63.

(** The loop of [_schedule_next]: events that are due are taken out and run. *)
Fixpoint fire_due (fuel : nat) : TM unit :=
  match fuel with
  | O => fail NoFuel
  | S n =>
      let* top := on_heap peek in
      if top =? 0 then ret tt else
      let* d := on_heap (deref top) in
      let* t := gets _now in
      if trigger_time d <=? t then
        let* desc := on_heap (pop timer_descriptor_comparator) in
        unlock ;;
        let* d := on_heap (deref desc) in
        when (valid d) (run (callback d) (erased_callback d) (context d)) ;;
        lock ;;
        _update_now ;;
        let* d := on_heap (deref desc) in
        if negb (Z.land (id d) periodic_bit =? 0) then panic "implement periodic timer events already"
        else fire_due n
      else ret tt
  end.

Definition _schedule_next (fuel : nat) : TM unit :=
  lock ;;
  _update_now ;;
  fire_due fuel ;;
  let* top := on_heap peek in
  if top =? 0 then unlock else
  let* d := on_heap (deref top) in
  let* t := gets _now in
  _one_shot_after (trigger_time d - t) ;;
  unlock.

Definition handle (fuel : nat) : TM unit := _schedule_next fuel.

Definition _do (fuel : nat) (dur fptr erased_fptr ctx : Z) (mode : _mode) : TM event_token :=
  let* desc := make_descriptor in
  lock ;;
  _update_now ;;
  modify (fun s => set_next_id (u64 (_next_id s + 1)) s) ;;
  let* n := gets _next_id in
  let* t := gets _now in
  let* due := time_add t dur in
  let periodic := match mode with mode_periodic => 1 | mode_one_shot => 0 end in
  set_descriptor desc (fun d => mkDescriptor (Z.lor n (Z.shiftl periodic 63)) due fptr erased_fptr ctx (valid d)) ;;
  (if negb (Z.land n periodic_bit =? 0) then panic "Somehow, timer IDs have been exhausted!" else ret tt) ;;
  on_heap (push timer_descriptor_comparator desc) ;;
  unlock ;;
  _schedule_next fuel ;;
  ret (Some desc).

(** [event_token::cancel]: the token gives up its reference. *)
Definition cancel (token : event_token) : TM event_token :=
  match token with
  | None => fail Fault
  | Some p =>
      set_descriptor p (fun d => mkDescriptor (id d) (trigger_time d) (callback d) (erased_callback d) (context d) false) ;;
      ret None
  end.

(** The two overloads of [one_shot]: the trampolines are 1 and 2; the second
    copies the [n] bytes of its context into a word whose other bytes are what
    they were. *)
Definition one_shot (fuel : nat) (dur fptr : Z) : TM event_token := _do fuel dur 1 fptr 0 mode_one_shot.
Definition pack_context (n : nat) (ctx junk : Z) : Z := le_value (le_bytes n ctx ++ drop n (le_bytes 8 junk)).
Definition unpack_context (n : nat) (ctx_i : Z) : Z := le_value (take n (le_bytes 8 ctx_i)).
Definition one_shot_with (fuel : nat) (dur fptr : Z) (n : nat) (ctx junk : Z) : TM event_token :=
  _do fuel dur 2 fptr (pack_context n ctx junk) mode_one_shot.
End timer.

(** ** The timers of the system *)

Record time_state : Type := mkTime { hpt : option Z; per_core_hpt_available : bool }.

Section system.
(** What the architecture set up: the timer of the core and its preemption timer. *)
Context (timer_of_core preemption_timer : Z).

Definition initialize_multicore : M time_state unit := modify (fun s => mkTime (hpt s) true).
Definition register_high_precision_timer (t : Z) : M time_state unit :=
  let* h := gets hpt in
  match h with
  | Some _ => panic "Tried to register a high precision timer with another already registered!"
  | None => modify (fun s => mkTime (Some t) (per_core_hpt_available s))
  end.
Definition get_high_precision_timer (main : bool) : M time_state Z :=
  let* per_core := gets per_core_hpt_available in
  if negb main && per_core then ret timer_of_core else
  let* h := gets hpt in
  match h with
  | Some t => ret t
  | None => panic "Global high precision clock requested, but not registered!"
  end.
Definition get_preemption_timer : M time_state Z := ret preemption_timer.
End system.
