(* ===== verification/TimerTheorems.v ===== *)
(** * Timers fire what is due, in order, once

    Proved against the interface [PriorityQueue] of the heap: handling a timer
    runs the callbacks of the events that are due and not cancelled in the order
    they are due, keeps the others and what these callbacks armed, and sets the
    hardware to the first of them. *)
From S2P Require Import Prelude Text Bytes TreeHeap HeapOrder HeapTheorems Timer.

#[export] Instance trigger_strict : StrictWeak timer_descriptor_comparator.
Proof. split; intros *; unfold timer_descriptor_comparator; rewrite ?Z.ltb_lt, ?Z.ltb_ge; lia. Qed.

(** The descriptor at an address. *)
Definition obj (s : timer) (p : Z) : option timer_descriptor := value <$> (mem (_heap s) !! p).
Definition due_at (s : timer) (p : Z) : Z := from_option trigger_time 0 (obj s p).
(** What running the events of a list leaves behind. *)
Definition log_of (s : timer) (p : Z) : list (Z * Z * Z) :=
  match obj s p with
  | Some d => if valid d then [(callback d, erased_callback d, context d)] else []
  | None => []
  end.
Definition logs (s : timer) (l : list Z) : list (Z * Z * Z) := flat_map (log_of s) l.

Lemma deref_obj s p d : obj s p = Some d -> deref p (_heap s) = Ok (d, _heap s).
Proof.
  unfold obj, deref, load, bind. destruct (mem (_heap s) !! p); cbn; [|done]. by intros [= ->].
Qed.
Lemma obj_deref s p d : deref p (_heap s) = Ok (d, _heap s) -> obj s p = Some d.
Proof.
  unfold obj, deref, load, bind. destruct (mem (_heap s) !! p); cbn; [|done]. by intros [= ->].
Qed.

Section theorems.
Context (clock : nat -> Z) (run : Z -> Z -> Z -> M timer unit).
Context {holds : tree_heap timer_descriptor -> list Z -> Prop} `{PQ : !PriorityQueue timer_descriptor_comparator holds}.
(** The clock does not go back; in this section callbacks leave the timer alone. *)
Hypothesis clock_mono : forall n, clock n <= clock (S n).
Hypothesis quiet : forall f e c s, run f e c s = Ok (tt, log_fired f e c s).

Definition one_shots (s : timer) (l : list Z) : Prop :=
  forall p, p ∈ l -> exists d, obj s p = Some d /\ 0 <= id d < 2 ^ 63.

Lemma on_heap_keep {A} (m : M (tree_heap timer_descriptor) A) s a :
  m (_heap s) = Ok (a, _heap s) -> on_heap m s = Ok (a, s).
Proof. unfold on_heap. intros ->. by destruct s. Qed.

Lemma id_bit n : 0 <= n < 2 ^ 63 -> Z.land n periodic_bit =? 0 = true.
Proof.
  intros H. apply Z.eqb_eq. apply Z.bits_inj'. intros i Hi. rewrite Z.land_spec, Z.bits_0. unfold periodic_bit.
  rewrite Z.pow2_bits_eqb by lia. destruct (Z.eqb_spec 63 i) as [<-|]; [|by rewrite andb_false_r].
  rewrite <- (Z.mod_small n (2 ^ 63)), Z.mod_pow2_bits_high by lia. done.
Qed.

(** One event that is due. *)
Definition after_event (h : tree_heap timer_descriptor) (d : timer_descriptor) (s : timer) : timer :=
  mkTimer h true (clock (readings s)) (_next_id s) (next_object s) (S (readings s)) (armed s)
    (fired s ++ (if valid d then [(callback d, erased_callback d, context d)] else [])).

Lemma fire_one n s l p d h' l' :
  _lock s = true -> holds (_heap s) l -> peek (_heap s) = Ok (p, _heap s) -> p <> 0 -> obj s p = Some d ->
  trigger_time d <= _now s -> 0 <= id d < 2 ^ 63 ->
  pop timer_descriptor_comparator (_heap s) = Ok (p, h') -> holds h' l' -> same_objects (_heap s) h' ->
  fire_due clock run (S n) s = fire_due clock run n (after_event h' d s).
Proof using quiet.
  intros Hl Hh Hp H0 Hd Ht Hid Ep Hh' So. cbn [fire_due].
  rewrite (bind_Ok _ _ _ _ _ (on_heap_keep _ _ _ Hp)), (proj2 (Z.eqb_neq p 0)) by done.
  rewrite (bind_Ok _ _ _ _ _ (on_heap_keep _ _ _ (deref_obj _ _ _ Hd))). erewrite bind_Ok by reflexivity.
  rewrite (proj2 (Z.leb_le _ _)) by done.
  erewrite bind_Ok by (unfold on_heap; by rewrite Ep). erewrite bind_Ok by reflexivity.
  set (s1 := set_lock false (set_heap h' s)).
  assert (obj s1 p = Some d) as Hd1 by (rewrite <- Hd; apply So).
  rewrite (bind_Ok _ _ _ _ _ (on_heap_keep _ s1 _ (deref_obj _ _ _ Hd1))).
  assert (when (valid d) (run (callback d) (erased_callback d) (context d)) s1 =
    Ok (tt, mkTimer h' false (_now s) (_next_id s) (next_object s) (readings s) (armed s)
       (fired s ++ (if valid d then [(callback d, erased_callback d, context d)] else [])))) as Er.
  { unfold when. destruct (valid d); [rewrite quiet; done|]. by rewrite app_nil_r. }
  rewrite (bind_Ok _ _ _ _ _ Er). erewrite bind_Ok by reflexivity. erewrite bind_Ok by reflexivity.
  change (mkTimer _ _ _ _ _ _ _ _) with (after_event h' d s).
  assert (obj (after_event h' d s) p = Some d) as Hd2 by (rewrite <- Hd; apply So).
  rewrite (bind_Ok _ _ _ _ _ (on_heap_keep _ (after_event h' d s) _ (deref_obj _ _ _ Hd2))).
  by rewrite id_bit.
Qed.

(** What handling the events [l] leaves: [popped] ran, [rest] is still queued. *)
Record handled (s s' : timer) (l popped rest : list Z) : Prop := {
  hd_split : l ≡ₚ popped ++ rest;
  hd_holds : holds (_heap s') rest;
  hd_objects : same_objects (_heap s) (_heap s');
  hd_due p : p ∈ popped -> due_at s p <= _now s';
  hd_later p : p ∈ rest -> _now s' < due_at s p;
  hd_sorted : StronglySorted (fun p q => due_at s p <= due_at s q) popped;
  hd_fired : fired s' = fired s ++ logs s popped
}.

Lemma same_obj s s' p : same_objects (_heap s) (_heap s') -> obj s' p = obj s p.
Proof using. intros So. apply So. Qed.
Lemma same_due s s' p : same_objects (_heap s) (_heap s') -> due_at s' p = due_at s p.
Proof using. intros So. unfold due_at. by rewrite (same_obj s s'). Qed.
Lemma same_logs s s' l : same_objects (_heap s) (_heap s') -> logs s' l = logs s l.
Proof using.
  intros So. unfold logs. induction l as [|p l IH]; [done|]. cbn [flat_map].
  rewrite IH. unfold log_of. by rewrite (same_obj s s').
Qed.

(** The first event: the heap's top, due no later than any other. *)
Lemma peek_first s l : holds (_heap s) l -> l <> [] -> one_shots s l ->
  exists p d h' l', peek (_heap s) = Ok (p, _heap s) /\ p <> 0 /\ obj s p = Some d /\ 0 <= id d < 2 ^ 63 /\
    pop timer_descriptor_comparator (_heap s) = Ok (p, h') /\ holds h' l' /\ l ≡ₚ p :: l' /\
    same_objects (_heap s) h' /\ forall q, q ∈ l -> trigger_time d <= due_at s q.
Proof using PQ.
  intros Hh Hne Hos. destruct (pq_peek _ _ Hh Hne) as (p & Ep & Hp & Hmin).
  destruct (Hos p Hp) as (d & Hd & Hid). destruct (pq_pop _ _ p Hh Hne Ep) as (h' & l' & E & Hh' & P & So).
  exists p, d, h', l'. destruct (pq_object _ _ p Hh Hp) as (_ & _ & H0). repeat split; try done; [lia..|].
  intros q Hq. destruct (Hos q Hq) as (e & He & _). unfold due_at. rewrite He. cbn.
  specialize (Hmin q e d Hq (deref_obj _ _ _ He) (deref_obj _ _ _ Hd)).
  unfold timer_descriptor_comparator in Hmin. apply Z.ltb_ge in Hmin. done.
Qed.

Lemma fire_due_spec fuel s l :
  holds (_heap s) l -> one_shots s l -> _lock s = true -> _now s <= clock (readings s) -> (length l < fuel)%nat ->
  exists s' popped rest, fire_due clock run fuel s = Ok (tt, s') /\ handled s s' l popped rest /\
    _lock s' = true /\ armed s' = armed s /\ _now s <= _now s'.
Proof using clock_mono quiet PQ.
  revert s l. induction fuel as [|fuel IH]; intros s l Hh Hos Hl Hn Hf; [lia|].
  destruct (decide (l = [])) as [->|Hne].
  { exists s, [], []. cbn [fire_due]. rewrite (bind_Ok _ _ _ _ _ (on_heap_keep _ _ _ (pq_peek_empty _ Hh))). cbn [Z.eqb].
    split; [done|]. split; [|done]. split; try done; try (by intros p ?%elem_of_nil); [constructor|by rewrite app_nil_r]. }
  destruct (peek_first s l Hh Hne Hos) as (p & d & h' & l' & Ep & H0 & Hd & Hid & Epop & Hh' & P & So & Hmin).
  assert (due_at s p = trigger_time d) as Hdue by (unfold due_at; by rewrite Hd).
  destruct (decide (trigger_time d <= _now s)) as [Ht|Ht]; cycle 1.
  { exists s, [], l. cbn [fire_due]. rewrite (bind_Ok _ _ _ _ _ (on_heap_keep _ _ _ Ep)), (proj2 (Z.eqb_neq p 0)) by done.
    rewrite (bind_Ok _ _ _ _ _ (on_heap_keep _ _ _ (deref_obj _ _ _ Hd))). erewrite bind_Ok by reflexivity.
    rewrite (proj2 (Z.leb_gt _ _)) by lia. split; [done|]. split; [|done].
    split; try done; [by intros q ?%elem_of_nil | | constructor | by rewrite app_nil_r].
    intros q Hq. specialize (Hmin q Hq). lia. }
  rewrite (fire_one fuel s l p d h' l') by done.
  assert (same_objects (_heap s) (_heap (after_event h' d s))) as So' by done.
  destruct (IH (after_event h' d s) l') as (s' & popped & rest & E & [Hsp Hho Hob Hdu Hla Hso Hfi] & Hl' & Ha & Hn'); try done.
  { intros q Hq. destruct (Hos q) as (e & He & Hide); [rewrite P; by right|]. exists e. split; [|done]. by rewrite (same_obj s). }
  { cbn. apply clock_mono. }
  { apply Permutation_length in P. cbn in P. lia. }
  exists s', (p :: popped), rest. split; [done|]. cbn [_now after_event] in Hn'. split; [|split; [done|split; [done|lia]]].
  assert (forall q, q ∈ popped -> q ∈ l) as Hin by (intros q Hq; rewrite P; right; rewrite Hsp; apply elem_of_app; by left).
  split.
  - rewrite P. cbn. by rewrite Hsp.
  - done.
  - by transitivity (_heap (after_event h' d s)).
  - intros q [-> | Hq]%elem_of_cons; [lia|]. rewrite <- (same_due s _ q So'). by apply Hdu.
  - intros q Hq. rewrite <- (same_due s _ q So'). by apply Hla.
  - constructor.
    + eapply sorted_impl; [|exact Hso]. cbv beta. intros a b. by rewrite !(same_due s _ _ So').
    + apply Forall_forall. intros q Hq. rewrite Hdue. by apply Hmin, Hin.
  - rewrite Hfi, (same_logs s _ _ So'). cbn [fired after_event]. rewrite <- app_assoc. f_equal.
    unfold logs. cbn [flat_map]. f_equal. unfold log_of. by rewrite Hd.
Qed.

(** The state after the first reading of the clock, with the lock taken. *)
Definition entered (s : timer) : timer :=
  mkTimer (_heap s) true (clock (readings s)) (_next_id s) (next_object s) (S (readings s)) (armed s) (fired s).

(** The hardware is set to the first event that is left. *)
Definition rearmed (s s' : timer) (rest : list Z) : Prop :=
  (rest = [] -> armed s' = armed s) /\
  (rest <> [] -> exists p, p ∈ rest /\ (forall q, q ∈ rest -> due_at s p <= due_at s q) /\
     armed s' = armed s ++ [due_at s p - _now s'] /\ 0 < due_at s p - _now s').

Lemma schedule_next_spec fuel s l :
  holds (_heap s) l -> one_shots s l -> _lock s = false -> (length l < fuel)%nat ->
  exists s' popped rest, _schedule_next clock run fuel s = Ok (tt, s') /\ handled s s' l popped rest /\
    rearmed s s' rest /\ _lock s' = false /\ clock (readings s) <= _now s'.
Proof using clock_mono quiet PQ.
  intros Hh Hos Hl Hf. unfold _schedule_next, lock. erewrite bind_Ok by (unfold bind, gets; by rewrite Hl).
  erewrite bind_Ok by reflexivity. change (mkTimer _ _ _ _ _ _ _ _) with (entered s).
  destruct (fire_due_spec fuel (entered s) l) as (s1 & popped & rest & E & Hd & Hl1 & Ha & Hn); try done.
  { cbn. apply clock_mono. }
  rewrite (bind_Ok _ _ _ _ _ E). destruct (Hd) as [Hsp Hho Hob Hdu Hla Hso Hfi].
  destruct (decide (rest = [])) as [->|Hne].
  - rewrite (bind_Ok _ _ _ _ _ (on_heap_keep _ _ _ (pq_peek_empty _ Hho))). cbn [Z.eqb].
    exists (set_lock false s1), popped, []. split; [done|]. split; [by split|]. split; [by split|]. done.
  - assert (one_shots s1 rest) as Hos1.
    { intros q Hq. destruct (Hos q) as (d & Hd' & Hid); [rewrite Hsp; apply elem_of_app; by right|].
      exists d. split; [|done]. by rewrite (same_obj s). }
    destruct (peek_first s1 rest Hho Hne Hos1) as (p & d & h' & l' & Ep & H0 & Hd' & Hid & _ & _ & P & _ & Hmin).
    rewrite (bind_Ok _ _ _ _ _ (on_heap_keep _ _ _ Ep)), (proj2 (Z.eqb_neq p 0)) by done.
    rewrite (bind_Ok _ _ _ _ _ (on_heap_keep _ _ _ (deref_obj _ _ _ Hd'))). do 2 (erewrite bind_Ok by reflexivity).
    eexists _, popped, rest. split; [reflexivity|]. split; [by split|]. split; [|done].
    assert (due_at s p = trigger_time d) as Hdue.
    { rewrite <- (same_due s s1) by done. unfold due_at. by rewrite Hd'. }
    assert (p ∈ rest) as Hp by (rewrite P; by left).
    split; [done|]. intros _. exists p. split; [done|]. split.
    { intros q Hq. rewrite Hdue, <- (same_due s s1 q) by done. by apply Hmin. }
    specialize (Hla p Hp). cbn [armed _now set_lock]. rewrite Ha, Hdue. split; [done|].
    change (due_at (entered s) p) with (due_at s p) in Hla. lia.
Qed.

(** ** Cancelling *)

Definition cancelled (d : timer_descriptor) : timer_descriptor :=
  mkDescriptor (id d) (trigger_time d) (callback d) (erased_callback d) (context d) false.

Lemma cancel_spec s l p : holds (_heap s) l -> one_shots s l -> p ∈ l ->
  exists s1, cancel (Some p) s = Ok (None, s1) /\ holds (_heap s1) l /\ _lock s1 = _lock s /\ fired s1 = fired s /\
    readings s1 = readings s /\ armed s1 = armed s /\
    (forall q, obj s1 q = if decide (q = p) then cancelled <$> obj s p else obj s q).
Proof using PQ.
  intros Hh Hos Hp. destruct (Hos p Hp) as (d & Hd & _). unfold obj in Hd.
  destruct (mem (_heap s) !! p) as [x|] eqn:Ex; [|done]. cbn in Hd. injection Hd as <-.
  unfold cancel, set_descriptor. eexists. split.
  { erewrite bind_Ok; [reflexivity|]. unfold on_heap, update. rewrite Ex. reflexivity. }
  split; [by apply (pq_revalue _ _ p x); [..|intros w; split]|]. do 4 (split; [done|]).
  intros q. unfold obj at 1. cbn [_heap set_heap mem]. destruct (decide (q = p)) as [->|Hne].
  - rewrite lookup_insert_eq. unfold obj. by rewrite Ex.
  - by rewrite lookup_insert_ne.
Qed.

Lemma logs_cancelled s s1 p l :
  (forall q, obj s1 q = if decide (q = p) then cancelled <$> obj s p else obj s q) ->
  logs s1 l = logs s (filter (fun q => q <> p) l).
Proof using.
  intros Ho. induction l as [|q l IH]; [done|]. cbn [logs flat_map]. fold (logs s1 l). rewrite IH.
  unfold log_of at 1. rewrite Ho. destruct (decide (q = p)) as [->|Hne].
  - rewrite filter_cons_False by (intros H; by apply H). by destruct (obj s p).
  - by rewrite filter_cons_True.
Qed.

(** An event that is cancelled while it is pending never runs: handling the
    timer later takes it out when it is due, in its place, but runs the callbacks
    of the other events only, all of them as if nothing had been cancelled. *)
Theorem cancelled_event_silent fuel s l p :
  holds (_heap s) l -> one_shots s l -> _lock s = false -> (length l < fuel)%nat -> p ∈ l ->
  exists s1 s' popped rest,
    cancel (Some p) s = Ok (None, s1) /\ handle clock run fuel s1 = Ok (tt, s') /\
    l ≡ₚ popped ++ rest /\ holds (_heap s') rest /\
    (forall q, q ∈ popped -> due_at s q <= _now s') /\ (forall q, q ∈ rest -> _now s' < due_at s q) /\
    StronglySorted (fun a b => due_at s a <= due_at s b) popped /\
    fired s' = fired s ++ logs s (filter (fun q => q <> p) popped).
Proof using clock_mono quiet PQ.
  intros Hh Hos Hl Hf Hp. destruct (cancel_spec s l p Hh Hos Hp) as (s1 & E1 & Hh1 & Hl1 & Hf1 & _ & _ & Ho).
  assert (forall q, due_at s1 q = due_at s q) as Hdue.
  { intros q. unfold due_at. rewrite Ho. destruct (decide (q = p)) as [->|]; [by destruct (obj s p)|done]. }
  destruct (schedule_next_spec fuel s1 l Hh1) as (s' & popped & rest & E & [Hsp Hho _ Hdu Hla Hso Hfi] & _);
    [|by rewrite Hl1|done|].
  { intros q Hq. destruct (Hos q Hq) as (d & Hd & Hid). rewrite Ho. destruct (decide (q = p)) as [->|]; [|by exists d].
    rewrite Hd. by exists (cancelled d). }
  exists s1, s', popped, rest. do 4 (split; [done|]). split; [|split; [|split]].
  - intros q Hq. rewrite <- Hdue. by apply Hdu.
  - intros q Hq. rewrite <- Hdue. by apply Hla.
  - eapply sorted_impl; [|exact Hso]. cbv beta. intros a b. by rewrite !Hdue.
  - rewrite Hfi, Hf1. f_equal. by apply logs_cancelled.
Qed.

(** ** Registering *)

Definition described (s : timer) (dur fptr erased ctx : Z) : timer_descriptor :=
  mkDescriptor (_next_id s + 1) (clock (readings s) + dur) fptr erased ctx true.
(** The heap with the new descriptor in memory, not queued. *)
Definition with_object (h : tree_heap timer_descriptor) (p : Z) (d : timer_descriptor) : tree_heap timer_descriptor :=
  mkHeap (<[p := mkNode 0 0 0 d]> (mem h)) (_top h) (_size h).
Definition registered (s : timer) (h : tree_heap timer_descriptor) : timer :=
  mkTimer h false (clock (readings s)) (_next_id s + 1) (next_object s + 64) (S (readings s)) (armed s) (fired s).

Lemma do_register fuel s l dur fptr erased ctx :
  holds (_heap s) l -> _lock s = false -> Z.of_nat (S (length l)) < 2 ^ 63 ->
  next_object s ∉ l -> next_object s <> 0 -> mem (_heap s) !! 0 = None ->
  0 <= _next_id s < 2 ^ 63 - 1 -> - 2 ^ 63 <= clock (readings s) + dur < 2 ^ 63 ->
  exists h, holds h (next_object s :: l) /\
    same_objects (with_object (_heap s) (next_object s) (described s dur fptr erased ctx)) h /\
    _do clock run fuel dur fptr erased ctx mode_one_shot s =
      (let* _ := _schedule_next clock run fuel in ret (Some (next_object s))) (registered s h).
Proof using PQ.
  intros Hh Hl Hsz Hp H0 Hnull Hid Ht. set (p := next_object s) in *. set (d := described s dur fptr erased ctx).
  set (h1 := with_object (_heap s) p d).
  assert (holds h1 l) as Hh1.
  { apply (pq_frame (_heap s)); [done..| |]; cbn [mem h1 with_object]; [by rewrite lookup_insert_ne|].
    intros q Hq. apply lookup_insert_ne. intros ->. done. }
  destruct (pq_push h1 l p (mkNode 0 0 0 d) Hh1) as (h & Eh & Hh' & So); [done..|apply lookup_insert_eq|done|].
  exists h. split; [done|]. split; [done|].
  unfold _do. erewrite bind_Ok by reflexivity. erewrite bind_Ok by (unfold lock, bind, gets; cbn; by rewrite Hl).
  do 4 (erewrite bind_Ok by reflexivity). cbn [set_next_id _next_id _now readings set_lock].
  rewrite (u64_id (_next_id s + 1)) by (unfold is_u64; lia).
  erewrite bind_Ok by (unfold time_add; by rewrite (proj2 (Z.leb_le _ _)), (proj2 (Z.ltb_lt _ _)) by lia).
  set (s2 := mkTimer h1 true (clock (readings s)) (_next_id s + 1) (p + 64) (S (readings s)) (armed s) (fired s)).
  rewrite (bind_Ok _ _ _ tt s2); cycle 1.
  { unfold set_descriptor, on_heap, update. cbn [_heap set_next_id mem set_lock]. rewrite lookup_insert_eq.
    cbn [value tree_parent prev next new_descriptor valid _top _size]. rewrite insert_insert_eq.
    change (Z.shiftl 0 63) with 0. by rewrite Z.lor_0_r. }
  rewrite id_bit by lia. erewrite bind_Ok by reflexivity.
  erewrite bind_Ok by (unfold on_heap; change (_heap s2) with h1; fold p; by rewrite Eh). by erewrite bind_Ok by reflexivity.
Qed.

(** Registering a one-shot event always returns its token: the event is due
    [dur] after the reading of the clock, its identifier is the next one, and it
    is handled together with the events that were pending: it stays queued unless the clock has reached it. *)
Theorem one_shot_registers fuel s l dur fptr erased ctx :
  holds (_heap s) l -> one_shots s l -> _lock s = false -> (S (length l) < fuel)%nat -> Z.of_nat (S (length l)) < 2 ^ 63 ->
  next_object s ∉ l -> next_object s <> 0 -> mem (_heap s) !! 0 = None ->
  0 <= _next_id s < 2 ^ 63 - 1 -> - 2 ^ 63 <= clock (readings s) + dur < 2 ^ 63 ->
  exists s1 s' popped rest,
    _do clock run fuel dur fptr erased ctx mode_one_shot s = Ok (Some (next_object s), s') /\
    obj s1 (next_object s) = Some (described s dur fptr erased ctx) /\ (forall q, q ∈ l -> obj s1 q = obj s q) /\
    fired s1 = fired s /\ armed s1 = armed s /\ _next_id s1 = _next_id s + 1 /\
    handled s1 s' (next_object s :: l) popped rest /\ rearmed s1 s' rest /\ _lock s' = false /\
    (next_object s ∈ rest <-> _now s' < clock (readings s) + dur).
Proof using clock_mono quiet PQ.
  intros Hh Hos Hl Hf Hsz Hp H0 Hnull Hid Ht.
  destruct (do_register fuel s l dur fptr erased ctx) as (h & Hh' & So & E); [done..|]. rewrite E. clear E.
  set (s1 := registered s h).
  assert (forall q, obj s1 q = if decide (q = next_object s) then Some (described s dur fptr erased ctx) else obj s q) as Ho.
  { intros q. unfold obj at 1. cbn [_heap s1 registered]. rewrite So. cbn [mem with_object].
    destruct (decide (q = next_object s)) as [->|]; [by rewrite lookup_insert_eq | by rewrite lookup_insert_ne]. }
  assert (forall q, q ∈ l -> obj s1 q = obj s q) as Hsame.
  { intros q Hq. rewrite Ho, decide_False; [done|]. intros ->. done. }
  destruct (schedule_next_spec fuel s1 (next_object s :: l)) as (s' & popped & rest & E & Hd & Hr & Hl' & _); try done.
  { intros q [-> | Hq]%elem_of_cons; [|rewrite Hsame by done; by apply Hos].
    eexists. rewrite Ho, decide_True by done. split; [done|]. cbn. lia. }
  exists s1, s', popped, rest. rewrite (bind_Ok _ _ _ _ _ E). split; [done|]. split; [by rewrite Ho, decide_True|].
  do 4 (split; [done|]). do 3 (split; [done|]).
  assert (due_at s1 (next_object s) = clock (readings s) + dur) as Hdue by (unfold due_at; by rewrite Ho, decide_True).
  rewrite <- Hdue. split; [apply (hd_later _ _ _ _ _ Hd)|]. intros Hlt.
  assert (next_object s ∈ popped ++ rest) as [Hin | Hin]%elem_of_app; [|specialize (hd_due _ _ _ _ _ Hd _ Hin); lia|done].
  rewrite <- (hd_split _ _ _ _ _ Hd). by left.
Qed.
End theorems.

(** ** Callbacks that use the timer *)

(** A callback may arm further events of the same timer, which handles it again before
    the call returns, and cancel events, as the callback of preemption does. *)
Inductive action : Type := Arm (dur fptr erased ctx : Z) | Cancel (p : Z).

Section arming.
Context (clock : nat -> Z) (script : Z -> Z -> Z -> list action) (sfuel : nat).
Context {holds : tree_heap timer_descriptor -> list Z -> Prop} `{PQ : !PriorityQueue timer_descriptor_comparator holds}.

Fixpoint perform (run : Z -> Z -> Z -> M timer unit) (acts : list action) : M timer unit :=
  match acts with
  | [] => ret tt
  | Arm dur f e c :: acts => _do clock run sfuel dur f e c mode_one_shot ;; perform run acts
  | Cancel p :: acts => cancel (Some p) ;; perform run acts
  end.
(** Callbacks as their scripts say, nested at most [depth] times. *)
Fixpoint scripted (depth : nat) (f e c : Z) : M timer unit :=
  match depth with
  | O => fail NoFuel
  | S n => modify (log_fired f e c) ;; perform (scripted n) (script f e c)
  end.

Hypothesis clock_mono : forall n, clock n <= clock (S n).
Context (K : nat) (T : Z) (r0 : nat).
Hypothesis script_size : forall f e c, (length (script f e c) <= K)%nat.
Hypothesis start_time : - 2 ^ 63 <= clock r0.
Abbreviation w := (2 * K + 2)%nat.

Definition what (s : timer) (p : Z) : Z * Z * Z :=
  match obj s p with Some d => (callback d, erased_callback d, context d) | None => (0, 0, 0) end.
Definition asked (acts : list action) : list (Z * Z * Z) :=
  flat_map (fun a => match a with Arm _ f e c => [(f, e, c)] | Cancel _ => [] end) acts.
Definition asked_by (x : Z * Z * Z) : list (Z * Z * Z) := asked (script x.1.1 x.1.2 x.2).

(** An action of the callback of [p]: what it arms is due after [T], and it cancels no
    other event. *)
Definition polite (p : Z) (a : action) : Prop :=
  match a with
  | Arm dur _ _ _ => T < clock r0 + dur /\ T + dur < 2 ^ 63
  | Cancel q => q = p
  end.
Definition polite_event (s : timer) (p : Z) : Prop :=
  forall f e c, what s p = (f, e, c) -> Forall (polite p) (script f e c).

(** [old] and [new] are pending, [new] due after [T]; there is room for [m] more
    readings of the clock, identifiers and events. *)
Record pending (s : timer) (old new : list Z) (m : nat) : Prop := {
  pe_holds : holds (_heap s) (old ++ new);
  pe_shots : one_shots s (old ++ new);
  pe_new q : q ∈ new -> T < due_at s q;
  pe_fresh q : is_Some (mem (_heap s) !! q) -> 0 < q < next_object s;
  pe_pos : 0 < next_object s;
  pe_polite q : q ∈ old -> polite_event s q;
  pe_ids : 0 <= _next_id s /\ _next_id s + Z.of_nat m < 2 ^ 63 - 1;
  pe_size : Z.of_nat (length (old ++ new) + m) < 2 ^ 63;
  pe_reads : (r0 <= readings s)%nat /\ clock (readings s + m) <= T;
  pe_now : _now s <= clock (readings s)
}.

(** From [s] to [s1] the events [popped] were taken out, [added] came in. *)
Record step (s s1 : timer) (old new popped rest added : list Z) (extra : list (Z * Z * Z)) : Prop := {
  st_split : old ≡ₚ popped ++ rest;
  st_objs q : q ∈ rest ++ new -> obj s1 q = obj s q;
  st_kept q d : obj s q = Some d -> exists d', obj s1 q = Some d' /\ id d' = id d;
  st_fresh q : q ∈ added -> obj s q = None;
  st_due q : q ∈ popped -> due_at s q <= _now s1;
  st_sorted : StronglySorted (fun a b => due_at s a <= due_at s b) popped;
  st_order a b : a ∈ popped -> b ∈ rest -> due_at s a <= due_at s b;
  st_fired : fired s1 = fired s ++ logs s popped;
  st_added : what s1 <$> added ≡ₚ extra ++ flat_map asked_by (logs s popped);
  st_now : _now s <= _now s1;
  st_lock : _lock s1 = _lock s
}.

Lemma clock_le i j : (i <= j)%nat -> clock i <= clock j.
Proof using clock_mono. induction 1 as [|j _ IH]; [done|]. etransitivity; [exact IH|apply clock_mono]. Qed.

Lemma obj_due s s1 q : obj s1 q = obj s q -> due_at s1 q = due_at s q.
Proof using. intros H. unfold due_at. by rewrite H. Qed.
Lemma obj_what s s1 q : obj s1 q = obj s q -> what s1 q = what s q.
Proof using. intros H. unfold what. by rewrite H. Qed.
Lemma obj_logs s s1 l : (forall q, q ∈ l -> obj s1 q = obj s q) -> logs s1 l = logs s l.
Proof using.
  intros H. induction l as [|q l IH]; [done|]. cbn [logs flat_map]. unfold log_of at 1 3. rewrite (H q) by by left.
  f_equal. apply IH. intros x Hx. apply H. by right.
Qed.

Lemma step_refl s old new : step s s old new [] old [] [].
Proof using.
  split; try done; try (by intros q ?%elem_of_nil); [by intros q d Hd; exists d|constructor| |by rewrite app_nil_r].
  by intros a b ?%elem_of_nil.
Qed.
Lemma sorted_within {A} (R Q : A -> A -> Prop) l :
  StronglySorted R l -> (forall a b, a ∈ l -> b ∈ l -> R a b -> Q a b) -> StronglySorted Q l.
Proof using.
  induction 1 as [|x l _ IH Hx]; intros H; constructor.
  - apply IH. intros a b Ha Hb. apply H; by right.
  - rewrite Forall_forall in *. intros b Hb. apply H; [by left|by right|auto].
Qed.
Lemma sorted_join {A} (R : A -> A -> Prop) l1 l2 :
  StronglySorted R l1 -> StronglySorted R l2 -> (forall a b, a ∈ l1 -> b ∈ l2 -> R a b) -> StronglySorted R (l1 ++ l2).
Proof using.
  intros H1 H2 H. apply sorted_app. split; [done|]. split; [done|]. apply Forall_forall. intros a Ha. apply Forall_forall. auto.
Qed.
Lemma step_trans s s1 s2 old new p1 r1 a1 x1 p2 r2 a2 x2 :
  step s s1 old new p1 r1 a1 x1 -> step s1 s2 r1 (new ++ a1) p2 r2 a2 x2 ->
  step s s2 old new (p1 ++ p2) r2 (a1 ++ a2) (x1 ++ x2).
Proof using.
  intros [Sp1 Ob1 Ke1 Fr1 Du1 So1 Or1 Fi1 Ad1 No1 Lo1] [Sp2 Ob2 Ke2 Fr2 Du2 So2 Or2 Fi2 Ad2 No2 Lo2].
  assert (forall q, q ∈ p2 \/ q ∈ r2 -> q ∈ r1) as Hin by (intros q Hq; rewrite Sp2, elem_of_app; done).
  assert (forall q, q ∈ p2 \/ q ∈ r2 -> obj s1 q = obj s q) as Ho by (intros q Hq; apply Ob1, elem_of_app; left; auto).
  assert (forall q, q ∈ p2 \/ q ∈ r2 -> due_at s1 q = due_at s q) as Hd by (intros; apply obj_due; auto).
  assert (logs s1 p2 = logs s p2) as Hl by (apply obj_logs; auto).
  split.
  - by rewrite Sp1, Sp2, app_assoc.
  - intros q [Hq|Hq]%elem_of_app; (etransitivity; [apply Ob2|apply Ob1]); rewrite ?elem_of_app; auto.
  - intros q d Hd0. destruct (Ke1 q d Hd0) as (d1 & E1 & I1). destruct (Ke2 q d1 E1) as (d2 & E2 & I2).
    exists d2. split; [done|]. congruence.
  - intros q [Hq|Hq]%elem_of_app; [auto|]. specialize (Fr2 q Hq). destruct (obj s q) as [d|] eqn:E; [|done].
    destruct (Ke1 q d E) as (d' & E' & _). congruence.
  - intros q [Hq|Hq]%elem_of_app; [specialize (Du1 q Hq); lia|]. rewrite <- Hd by auto. auto.
  - apply sorted_join; [done| |].
    + eapply sorted_within; [exact So2|]. cbv beta. intros a b Ha Hb. by rewrite !Hd by auto.
    + intros a b Ha Hb. apply Or1; auto.
  - intros a b [Ha|Ha]%elem_of_app Hb; [apply Or1; auto|]. rewrite <- !Hd by auto. auto.
  - rewrite Fi2, Fi1, Hl, <- app_assoc. f_equal. unfold logs. by rewrite flat_map_app.
  - rewrite fmap_app. assert (what s2 <$> a1 = what s1 <$> a1) as ->.
    { apply list_fmap_ext. intros i q Hq%list_elem_of_lookup_2. apply obj_what, Ob2. rewrite !elem_of_app. auto. }
    rewrite Ad1, Ad2, Hl. unfold logs. rewrite !flat_map_app. solve_Permutation.
  - lia.
  - congruence.
Qed.

Lemma pending_mono s old new m m' : pending s old new m -> (m' <= m)%nat -> pending s old new m'.
Proof using clock_mono.
  intros [] Hm. pose proof (clock_le (readings s + m') (readings s + m)). split; try done; lia.
Qed.
(** The lock, the log and the hardware do not matter. *)
Lemma pending_same s s1 old new m :
  _heap s1 = _heap s -> next_object s1 = next_object s -> _next_id s1 = _next_id s -> readings s1 = readings s ->
  _now s1 = _now s -> pending s old new m -> pending s1 old new m.
Proof using.
  intros Eh Eo Ei Er En [H1 H2 H3 H4 H5 H6 H7 H8 H9 H10].
  assert (forall q, obj s1 q = obj s q) as Ho by (intros q; unfold obj; by rewrite Eh).
  split; rewrite ?Eh, ?Eo, ?Ei, ?Er, ?En; try done.
  - intros q Hq. rewrite Ho. by apply H2.
  - intros q Hq. rewrite (obj_due s) by done. by apply H3.
  - intros q Hq f e c. rewrite (obj_what s) by done. by apply H6.
Qed.
Lemma pending_read s old new m :
  pending s old new (S m) ->
  pending (mkTimer (_heap s) true (clock (readings s)) (_next_id s) (next_object s) (S (readings s)) (armed s) (fired s)) old new m.
Proof using clock_mono.
  intros [H1 H2 H3 H4 H5 H6 H7 H8 H9 H10]. replace (readings s + S m)%nat with (S (readings s) + m)%nat in H9 by lia.
  split; cbn [_heap next_object _next_id readings _now]; try done; try lia; apply clock_mono.
Qed.
Lemma pending_early s old new m : pending s old new m -> _now s <= T.
Proof using clock_mono. intros []. pose proof (clock_le (readings s) (readings s + m)). lia. Qed.

(** What the loop of a timer does with [n] events that may be due. *)
Definition fires (run : Z -> Z -> Z -> M timer unit) (k n : nat) : Prop :=
  forall s old new m, (length old <= n)%nat -> pending s old new (w * length old + m) -> _lock s = true ->
  exists s1 popped rest added, fire_due clock run k s = Ok (tt, s1) /\ step s s1 old new popped rest added [] /\
    pending s1 rest (new ++ added) (w * length rest + m) /\ (forall q, q ∈ rest -> _now s1 < due_at s q) /\
    (added = [] -> armed s1 = armed s).

(** The hardware is set to the first event of [l]. *)
Definition set_to (s : timer) (l : list Z) : Prop :=
  exists p, p ∈ l /\ (forall q, q ∈ l -> due_at s p <= due_at s q) /\
    last (armed s) = Some (due_at s p - _now s) /\ 0 < due_at s p - _now s.

Lemma step_unlocked s s1 s2 old new popped rest added extra b :
  step s s1 old new popped rest added extra ->
  _heap s2 = _heap s1 -> fired s2 = fired s1 -> _now s2 = _now s1 -> _lock s2 = b ->
  step (set_lock b s) s2 old new popped rest added extra.
Proof using.
  intros [] Eh Ef En El.
  assert (forall q, obj s2 q = obj s1 q) as Ho by (intros q; unfold obj; by rewrite Eh).
  split; try done; try (by rewrite ?Ef, ?En).
  - intros q Hq. rewrite Ho. by apply st_objs0.
  - intros q d Hd. rewrite Ho. by apply st_kept0.
  - by rewrite (list_fmap_ext (what s2) (what s1)) by (intros; by apply obj_what).
Qed.

Lemma schedules run k n s old new m :
  fires run k n -> (length old <= n)%nat -> pending s old new (S (w * length old + m)) -> _lock s = false ->
  exists s1 popped rest added, _schedule_next clock run k s = Ok (tt, s1) /\ step s s1 old new popped rest added [] /\
    pending s1 rest (new ++ added) (w * length rest + m) /\ (forall q, q ∈ rest -> _now s1 < due_at s q) /\
    clock (readings s) <= _now s1 /\
    (rest ++ new ++ added <> [] -> set_to s1 (rest ++ new ++ added)) /\ (rest ++ new ++ added = [] -> armed s1 = armed s).
Proof using clock_mono PQ.
  intros HF Hn Hp Hl. unfold _schedule_next, lock. erewrite bind_Ok by (unfold bind, gets; by rewrite Hl).
  erewrite bind_Ok by reflexivity. set (s0 := mkTimer _ _ _ _ _ _ _ _).
  pose proof (pending_read _ _ _ _ Hp) as Hp0.
  destruct (HF s0 old new m Hn Hp0) as (s1 & popped & rest & added & E & St & Hp1 & Hla & Har); [done|].
  rewrite (bind_Ok _ _ _ _ _ E).
  assert (forall s2, _heap s2 = _heap s1 -> fired s2 = fired s1 -> _now s2 = _now s1 -> _lock s2 = false ->
    step s s2 old new popped rest added []) as Hstep.
  { intros s2 Eh Ef En El. pose proof (step_unlocked s0 s1 s2 _ _ _ _ _ _ false St Eh Ef En El) as [].
    split; try done. pose proof (pe_now _ _ _ _ Hp). cbn in st_now0.
    - lia.
    - by rewrite El, Hl. }
  assert (clock (readings s) <= _now s1) as Hck by (apply (st_now _ _ _ _ _ _ _ _ St)).
  destruct (decide (rest ++ new ++ added = [])) as [Hnil|Hne].
  - pose proof (pe_holds _ _ _ _ Hp1) as Hh. rewrite Hnil in Hh.
    rewrite (bind_Ok _ _ _ _ _ (on_heap_keep _ _ _ (pq_peek_empty _ Hh))). cbn [Z.eqb].
    exists (set_lock false s1), popped, rest, added. split; [done|]. split; [by apply Hstep|].
    split; [by apply (pending_same s1)|]. do 2 (split; [done|]). split; [done|]. intros _.
    apply app_nil in Hnil as [_ [_ ->]%app_nil]. by apply Har.
  - destruct (peek_first s1 (rest ++ new ++ added) (pe_holds _ _ _ _ Hp1) Hne (pe_shots _ _ _ _ Hp1))
      as (p & d & h' & l' & Ep & H0 & Hd' & Hid & _ & _ & P & _ & Hmin).
    rewrite (bind_Ok _ _ _ _ _ (on_heap_keep _ _ _ Ep)), (proj2 (Z.eqb_neq p 0)) by done.
    rewrite (bind_Ok _ _ _ _ _ (on_heap_keep _ _ _ (deref_obj _ _ _ Hd'))). do 2 (erewrite bind_Ok by reflexivity).
    eexists _, popped, rest, added. split; [reflexivity|]. split; [by apply Hstep|].
    split; [by apply (pending_same s1)|]. do 2 (split; [done|]). split; [|done]. intros _.
    assert (due_at s1 p = trigger_time d) as Hdue by (unfold due_at; by rewrite Hd').
    assert (p ∈ rest ++ new ++ added) as Hpin by (rewrite P; by left).
    exists p. split; [done|]. rewrite <- Hdue in Hmin. split; [exact Hmin|].
    match goal with |- context [due_at ?x p] => change (due_at x p) with (due_at s1 p) end.
    cbn [armed _now set_lock]. rewrite last_snoc, Hdue. split; [done|].
    apply elem_of_app in Hpin as [Hpin|Hpin]; [|pose proof (pe_new _ _ _ _ Hp1 p Hpin); pose proof (pending_early _ _ _ _ Hp1); lia].
    pose proof (Hla p Hpin). rewrite <- Hdue, <- (obj_due s0 s1) in *; [lia|..].
    all: apply (st_objs _ _ _ _ _ _ _ _ St), elem_of_app; by left.
Qed.

(** A new event that is due after [T]. *)
Lemma registers s old new m dur f e c h :
  pending s old new (S m) -> _lock s = false -> polite 0 (Arm dur f e c) ->
  holds h (next_object s :: old ++ new) ->
  same_objects (with_object (_heap s) (next_object s) (described clock s dur f e c)) h ->
  pending (registered clock s h) old (new ++ [next_object s]) m /\
  step s (registered clock s h) old new [] old [next_object s] [(f, e, c)].
Proof using clock_mono PQ.
  intros [H1 H2 H3 H4 H5 H6 H7 H8 H9 H10] Hl [Hd Hd2] Hh So. set (p := next_object s) in *.
  assert (forall q, obj (registered clock s h) q = if decide (q = p) then Some (described clock s dur f e c) else obj s q) as Ho.
  { intros q. unfold obj at 1. cbn [_heap registered]. rewrite So. cbn [mem with_object].
    destruct (decide (q = p)) as [->|]; [by rewrite lookup_insert_eq | by rewrite lookup_insert_ne]. }
  assert (obj s p = None) as Hnone.
  { unfold obj. destruct (mem (_heap s) !! p) as [x|] eqn:E; [|done]. pose proof (H4 p ltac:(by rewrite E)). lia. }
  assert (forall q, q ∈ old ++ new -> q <> p) as Hne.
  { intros q Hq ->. destruct (H2 p Hq) as (d & Hd' & _). congruence. }
  assert (forall q, q ∈ old ++ new -> obj (registered clock s h) q = obj s q) as Hsame.
  { intros q Hq. by rewrite Ho, decide_False by auto. }
  pose proof (clock_le r0 (readings s) ltac:(lia)) as Hr0.
  split; split; try done.
  - cbn [_heap registered]. by rewrite app_assoc, <- Permutation_cons_append.
  - rewrite app_assoc. intros q [Hq | ->%list_elem_of_singleton]%elem_of_app; [rewrite Hsame by done; by apply H2|].
    eexists. rewrite Ho, decide_True by done. split; [done|]. cbn. lia.
  - intros q [Hq | ->%list_elem_of_singleton]%elem_of_app.
    + rewrite (obj_due s) by (apply Hsame, elem_of_app; by right). by apply H3.
    + unfold due_at. rewrite Ho, decide_True by done. cbn. lia.
  - intros q [x Hx]. cbn [_heap next_object registered] in *. pose proof (So q) as Hq. rewrite Hx in Hq. cbn [mem with_object] in Hq.
    destruct (decide (q = p)) as [->|Hqp]; [lia|]. rewrite lookup_insert_ne in Hq by done.
    destruct (mem (_heap s) !! q) as [y|] eqn:Ey; [|done]. pose proof (H4 q ltac:(by rewrite Ey)). lia.
  - cbn. lia.
  - intros q Hq f' e' c'. rewrite (obj_what s) by (apply Hsame, elem_of_app; by left). by apply H6.
  - cbn. lia.
  - rewrite app_assoc, length_app. cbn [length]. lia.
  - cbn [readings registered]. replace (S (readings s) + m)%nat with (readings s + S m)%nat by lia. split; [lia|apply H9].
  - cbn. apply clock_mono.
  - intros q d0 Hd0. exists d0. rewrite Ho, decide_False; [done|]. congruence.
  - by intros q ->%list_elem_of_singleton.
  - by intros q ?%elem_of_nil.
  - constructor.
  - by intros a b ?%elem_of_nil.
  - by rewrite app_nil_r.
  - cbn. unfold what. by rewrite Ho, decide_True.
Qed.

Lemma do_spec run n s old new m dur f e c :
  fires run sfuel n -> (length old <= n)%nat -> pending s old new (S (S (w * length old + m))) -> _lock s = false ->
  polite 0 (Arm dur f e c) ->
  exists s1 popped rest added, _do clock run sfuel dur f e c mode_one_shot s = Ok (Some (next_object s), s1) /\
    step s s1 old new popped rest (next_object s :: added) [(f, e, c)] /\
    pending s1 rest (new ++ next_object s :: added) (w * length rest + m).
Proof using clock_mono PQ start_time.
  intros HF Hn Hp Hl Hpol. destruct (Hp) as [H1 H2 H3 H4 H5 H6 H7 H8 H9 H10].
  pose proof (clock_le r0 (readings s) ltac:(lia)) as Hr0.
  pose proof (clock_le (readings s) (readings s + S (S (w * length old + m))) ltac:(lia)) as HrT.
  destruct (do_register clock run sfuel s (old ++ new) dur f e c) as (h & Hh & So & E); [done|done|lia| | | |lia| |].
  - intros Hq. destruct (H2 _ Hq) as (d & Hd & _). unfold obj in Hd.
    destruct (mem (_heap s) !! next_object s) eqn:Em; [|done]. pose proof (H4 (next_object s) ltac:(by rewrite Em)). lia.
  - lia.
  - destruct (mem (_heap s) !! 0) eqn:Em; [|done]. pose proof (H4 0 ltac:(by rewrite Em)). lia.
  - destruct Hpol. lia.
  - destruct (registers s old new (S (w * length old + m)) dur f e c h Hp Hl Hpol Hh So) as [Hp1 St1].
    destruct (schedules run sfuel n _ _ _ m HF Hn Hp1) as (s1 & popped & rest & added & E1 & St2 & Hp2 & _); [done|].
    exists s1, popped, rest, added. rewrite E, (bind_Ok _ _ _ _ _ E1). split; [done|]. split.
    + apply (step_trans _ _ _ _ _ [] old [next_object s] [(f, e, c)] popped rest added [] St1 St2).
    + by rewrite <- (assoc_L (++)) in Hp2.
Qed.

(** The callback of the event [p], which has been taken out. *)
Lemma cancel_own s old new m p :
  pending s old new m -> p ∉ old ++ new -> is_Some (obj s p) ->
  exists s1, cancel (Some p) s = Ok (None, s1) /\ pending s1 old new m /\ step s s1 old new [] old [] [] /\ armed s1 = armed s.
Proof using PQ.
  intros [H1 H2 H3 H4 H5 H6 H7 H8 H9 H10] Hp [d Hd]. unfold obj in Hd.
  destruct (mem (_heap s) !! p) as [x|] eqn:Ex; [|done]. cbn in Hd. injection Hd as <-.
  unfold cancel, set_descriptor. eexists. split.
  { erewrite bind_Ok; [reflexivity|]. unfold on_heap, update. rewrite Ex. reflexivity. }
  set (s1 := set_heap _ s).
  assert (forall q, obj s1 q = if decide (q = p) then cancelled <$> obj s p else obj s q) as Ho.
  { intros q. unfold obj at 1. cbn [_heap s1 set_heap mem]. destruct (decide (q = p)) as [->|Hne].
    - rewrite lookup_insert_eq. unfold obj. by rewrite Ex.
    - by rewrite lookup_insert_ne. }
  assert (forall q, q ∈ old ++ new -> q <> p) as Hne by (intros q Hq ->; done).
  assert (forall q, q ∈ old ++ new -> obj s1 q = obj s q) as Hsame by (intros q Hq; by rewrite Ho, decide_False by auto).
  assert (0 < p < next_object s) as Hpn by (apply H4; by rewrite Ex).
  split; [|split; [|done]]; split; try done.
  - apply (pq_frame (_heap s)); [done..| |]; cbn [mem s1 set_heap _heap].
    + rewrite lookup_insert_ne by lia. destruct (mem (_heap s) !! 0) eqn:E0; [|done]. pose proof (H4 0 ltac:(by rewrite E0)). lia.
    + intros q Hq. apply lookup_insert_ne. intros <-. by apply (Hne p).
  - intros q Hq. rewrite Hsame by done. by apply H2.
  - intros q Hq. rewrite (obj_due s) by (apply Hsame, elem_of_app; by right). by apply H3.
  - intros q Hq. cbn [mem s1 set_heap _heap next_object] in *. destruct (decide (q = p)) as [->|]; [done|].
    rewrite lookup_insert_ne in Hq by done. by apply H4.
  - intros q Hq f e c. rewrite (obj_what s) by (apply Hsame, elem_of_app; by left). by apply H6.
  - intros q d Hd. rewrite Ho. destruct (decide (q = p)) as [->|]; [|by exists d]. rewrite Hd. by exists (cancelled d).
  - by intros q ?%elem_of_nil.
  - by intros q ?%elem_of_nil.
  - constructor.
  - by intros a b ?%elem_of_nil.
  - by rewrite app_nil_r.
Qed.

Lemma perform_spec run n p acts :
  fires run sfuel n -> Forall (polite p) acts -> forall s old new m,
  (length old <= n)%nat -> pending s old new (2 * length acts + (w * length old + m)) -> _lock s = false ->
  p ∉ old ++ new -> is_Some (obj s p) ->
  exists s1 popped rest added, perform run acts s = Ok (tt, s1) /\ step s s1 old new popped rest added (asked acts) /\
    pending s1 rest (new ++ added) (w * length rest + m) /\ (added = [] -> armed s1 = armed s).
Proof using clock_mono PQ start_time.
  intros HF Hpol. induction Hpol as [|a acts Ha Hpol IH]; intros s old new m Hn Hp Hl Hni Hs; cbn [perform].
  { exists s, [], old, []. split; [done|]. split; [apply step_refl|]. by rewrite app_nil_r. }
  destruct a as [dur f e c|q].
  - destruct (do_spec run n s old new (2 * length acts + m) dur f e c HF Hn) as (s1 & popped & rest & added & E & St & Hp1); [|done|done|].
    { eapply pending_mono; [exact Hp|]. cbn [length]. lia. }
    assert (length rest <= length old)%nat as Hlen.
    { pose proof (Permutation_length (st_split _ _ _ _ _ _ _ _ St)) as H. rewrite length_app in H. lia. }
    destruct (IH s1 rest (new ++ next_object s :: added) m) as (s2 & popped2 & rest2 & added2 & E2 & St2 & Hp2 & _).
    + lia.
    + eapply pending_mono; [exact Hp1|]. lia.
    + by rewrite (st_lock _ _ _ _ _ _ _ _ St).
    + rewrite !elem_of_app. intros [Hq | [Hq|Hq]].
      * apply Hni, elem_of_app. left. rewrite (st_split _ _ _ _ _ _ _ _ St). apply elem_of_app. by right.
      * apply Hni, elem_of_app. by right.
      * pose proof (st_fresh _ _ _ _ _ _ _ _ St p Hq) as Hx. rewrite Hx in Hs. by destruct Hs.
    + destruct Hs as [d Hd]. destruct (st_kept _ _ _ _ _ _ _ _ St p d Hd) as (d' & Hd' & _). by exists d'.
    + exists s2, (popped ++ popped2), rest2, ((next_object s :: added) ++ added2). rewrite (bind_Ok _ _ _ _ _ E).
      split; [done|]. split; [apply (step_trans _ _ _ _ _ _ _ _ [(f, e, c)] _ _ _ _ St St2)|]. split; [|done].
      by rewrite <- (assoc_L (++)) in Hp2.
  - cbn in Ha. subst q. destruct (cancel_own s old new _ p Hp Hni Hs) as (s1 & E & Hp1 & St & Ea).
    destruct (IH s1 old new m Hn) as (s2 & popped2 & rest2 & added2 & E2 & St2 & Hp2 & Har).
    + eapply pending_mono; [exact Hp1|]. cbn [length]. lia.
    + by rewrite (st_lock _ _ _ _ _ _ _ _ St).
    + done.
    + destruct Hs as [d Hd]. destruct (st_kept _ _ _ _ _ _ _ _ St p d Hd) as (d' & Hd' & _). by exists d'.
    + exists s2, popped2, rest2, added2. rewrite (bind_Ok _ _ _ _ _ E). split; [done|]. split; [|split; [done|]].
      * rewrite <- (app_nil_r new) in St2. apply (step_trans _ _ _ _ _ [] old [] [] _ _ _ _ St St2).
      * intros H. by rewrite Har.
Qed.

(** The event [p] is taken out and runs; [s3] is read from the clock after it. *)
Lemma step_event s s1 s2 s3 old old' new p popped rest added :
  old ≡ₚ p :: old' -> (forall q, obj s1 q = obj s q) -> fired s1 = fired s ++ log_of s p -> _now s1 = _now s ->
  due_at s p <= _now s -> (forall q, q ∈ old' -> due_at s p <= due_at s q) ->
  step s1 s2 old' new popped rest added (flat_map asked_by (log_of s p)) ->
  _heap s3 = _heap s2 -> fired s3 = fired s2 -> _now s2 <= _now s3 -> _lock s3 = _lock s ->
  step s s3 old new (p :: popped) rest added [].
Proof using.
  intros P Ho Ef En Hdue Hmin [Sp Ob Ke Fr Du So Or Fi Ad No Lo] Eh3 Ef3 En3 El3.
  assert (forall q, due_at s1 q = due_at s q) as Hd by (intros; by apply obj_due).
  assert (logs s1 popped = logs s popped) as Hl by (apply obj_logs; auto).
  assert (forall q, obj s3 q = obj s2 q) as Ho3 by (intros q; unfold obj; by rewrite Eh3).
  assert (forall q, q ∈ popped \/ q ∈ rest -> q ∈ old') as Hin by (intros q Hq; by rewrite Sp, elem_of_app).
  split.
  - cbn. by rewrite P, Sp.
  - intros q Hq. by rewrite Ho3, Ob.
  - intros q d Hd0. rewrite Ho3. apply Ke. by rewrite Ho.
  - intros q Hq. rewrite <- Ho. auto.
  - intros q [-> | Hq]%elem_of_cons; [lia|]. specialize (Du q Hq). rewrite Hd in Du. lia.
  - constructor.
    + eapply sorted_within; [exact So|]. cbv beta. intros a b _ _. by rewrite !Hd.
    + apply Forall_forall. intros q Hq. apply Hmin. auto.
  - intros a b [-> | Ha]%elem_of_cons Hb; [apply Hmin; auto|]. rewrite <- !Hd. auto.
  - rewrite Ef3, Fi, Ef, Hl, <- (assoc_L (++)). done.
  - rewrite (list_fmap_ext (what s3) (what s2)) by (intros; by apply obj_what). rewrite Ad, Hl. cbn [logs flat_map app].
    by rewrite flat_map_app.
  - lia.
  - done.
Qed.

(** Running the callback of [p]. *)
Lemma callback_spec depth n s old new m p d :
  fires (scripted depth) sfuel n -> (length old <= n)%nat -> pending s old new (w * S (length old) + m) -> _lock s = false ->
  p ∉ old ++ new -> obj s p = Some d -> polite_event s p ->
  let x := (callback d, erased_callback d, context d) in
  exists s2 popped rest added,
    when (valid d) (scripted (S depth) (callback d) (erased_callback d) (context d)) s = Ok (tt, s2) /\
    step (if valid d then log_fired (callback d) (erased_callback d) (context d) s else s) s2 old new popped rest added
      (flat_map asked_by (log_of s p)) /\
    pending s2 rest (new ++ added) (w * length rest + S m) /\ (added = [] -> armed s2 = armed s).
Proof using clock_mono PQ script_size start_time.
  intros HF Hn Hp Hl Hni Hd Hpol x. unfold when, log_of. rewrite Hd. destruct (valid d).
  - cbn [scripted]. erewrite bind_Ok by reflexivity. set (s1 := log_fired _ _ _ s).
    pose proof (script_size (callback d) (erased_callback d) (context d)) as Hsz.
    destruct (perform_spec (scripted depth) n p (script (callback d) (erased_callback d) (context d)) HF)
      with (s := s1) (old := old) (new := new) (m := S m) as (s2 & popped & rest & added & E & St & Hp2 & Ha).
    + apply Hpol. unfold what. by rewrite Hd.
    + done.
    + apply (pending_same s); [done..|]. eapply pending_mono; [exact Hp|]. lia.
    + done.
    + done.
    + change (obj s1 p) with (obj s p). rewrite Hd. by eexists.
    + exists s2, popped, rest, added. split; [exact E|]. split; [|done]. cbn [flat_map]. by rewrite app_nil_r.
  - exists s, [], old, []. split; [done|]. split; [apply step_refl|]. rewrite app_nil_r.
    split; [eapply pending_mono; [exact Hp|lia]|done].
Qed.

Lemma fires_scripted n depth k : (n < depth)%nat -> (n < k)%nat -> (n < sfuel)%nat -> fires (scripted depth) k n.
Proof using clock_mono PQ script_size start_time.
  revert depth k. induction n as [n IH] using lt_wf_ind. intros depth k Hdep Hk Hsf s old new m Hlen Hp Hl.
  destruct k as [|k]; [lia|]. cbn [fire_due].
  destruct (decide (old ++ new = [])) as [Hnil|Hne].
  { pose proof (pe_holds _ _ _ _ Hp) as Hh. rewrite Hnil in Hh.
    rewrite (bind_Ok _ _ _ _ _ (on_heap_keep _ _ _ (pq_peek_empty _ Hh))). cbn [Z.eqb]. apply app_nil in Hnil as [-> ->].
    exists s, [], [], []. split; [done|]. split; [apply step_refl|]. split; [done|]. split; [by intros q ?%elem_of_nil|done]. }
  destruct (peek_first s (old ++ new) (pe_holds _ _ _ _ Hp) Hne (pe_shots _ _ _ _ Hp))
    as (p & d & h' & l' & Ep & H0 & Hd & Hid & Epop & Hh' & P & So & Hmin).
  rewrite (bind_Ok _ _ _ _ _ (on_heap_keep _ _ _ Ep)), (proj2 (Z.eqb_neq p 0)) by done.
  rewrite (bind_Ok _ _ _ _ _ (on_heap_keep _ _ _ (deref_obj _ _ _ Hd))). erewrite bind_Ok by reflexivity.
  assert (due_at s p = trigger_time d) as Hdue by (unfold due_at; by rewrite Hd).
  destruct (Z.leb_spec (trigger_time d) (_now s)) as [Ht|Ht]; cycle 1.
  { exists s, [], old, []. split; [done|]. split; [apply step_refl|]. rewrite app_nil_r. split; [done|]. split; [|done].
    intros q Hq. specialize (Hmin q). rewrite elem_of_app in Hmin. specialize (Hmin (or_introl Hq)). lia. }
  assert (p ∈ old) as Hold.
  { assert (p ∈ old ++ new) as [?|Hnew]%elem_of_app by (rewrite P; by left); [done|].
    pose proof (pe_new _ _ _ _ Hp p Hnew). pose proof (pending_early _ _ _ _ Hp). lia. }
  apply elem_of_Permutation in Hold as [old' Po].
  assert (l' ≡ₚ old' ++ new) as Pl.
  { apply (Permutation_cons_inv (a := p)). rewrite <- P, Po. done. }
  assert (p ∉ old' ++ new) as Hni.
  { pose proof (pq_nodup _ _ (pe_holds _ _ _ _ Hp)) as Hnd. rewrite Po in Hnd. cbn in Hnd. by apply NoDup_cons in Hnd as [? _]. }
  pose proof (Permutation_length Po) as Hlo. cbn [length] in Hlo.
  erewrite bind_Ok by (unfold on_heap; by rewrite Epop). erewrite bind_Ok by reflexivity.
  set (s1 := set_lock false (set_heap h' s)).
  assert (forall q, obj s1 q = obj s q) as Ho by (intros q; apply So).
  assert (obj s1 p = Some d) as Hd1 by (by rewrite Ho).
  rewrite (bind_Ok _ _ _ _ _ (on_heap_keep _ s1 _ (deref_obj _ _ _ Hd1))).
  assert (pending s1 old' new (w * S (length old') + m)) as Hp1.
  { rewrite <- Hlo. destruct Hp as [H1 H2 H3 H4 H5 H6 H7 H8 H9 H10]. split; try done.
    - cbn. by rewrite <- Pl.
    - intros q Hq. rewrite Ho. apply H2. rewrite Po. by right.
    - intros q Hq. rewrite (obj_due s) by done. by apply H3.
    - intros q [y Hy]. cbn in *. apply H4. specialize (So q). rewrite Hy in So. by destruct (mem (_heap s) !! q).
    - intros q Hq f e c. rewrite (obj_what s) by done. apply H6. rewrite Po. by right.
    - rewrite Po in H8. cbn in H8. lia. }
  destruct depth as [|depth]; [lia|].
  assert (fires (scripted depth) sfuel (length old')) as HF by (apply IH; lia).
  destruct (callback_spec depth (length old') s1 old' new m p d HF) as (s2 & popped & rest & added & E2 & St & Hp2 & Ha); try done.
  { intros f e c. rewrite (obj_what s) by done. apply (pe_polite _ _ _ _ Hp). rewrite Po. by left. }
  rewrite (bind_Ok _ _ _ _ _ E2).
  assert (_lock s2 = false) as Hl2 by (rewrite (st_lock _ _ _ _ _ _ _ _ St); by destruct (valid d)).
  unfold lock. erewrite (bind_Ok (bind _ _)) by (unfold bind, gets; by rewrite Hl2). erewrite bind_Ok by reflexivity.
  replace (w * length rest + S m)%nat with (S (w * length rest + m)) in Hp2 by lia.
  pose proof (pending_read _ _ _ _ Hp2) as Hp3. set (s3 := mkTimer _ _ _ _ _ _ _ _) in *.
  destruct (st_kept _ _ _ _ _ _ _ _ St p d) as (d' & Hd' & Hid'); [by destruct (valid d)|].
  assert (obj s3 p = Some d') as Hd3 by done.
  rewrite (bind_Ok _ _ _ _ _ (on_heap_keep _ s3 _ (deref_obj _ _ _ Hd3))), Hid', id_bit by done. cbn [negb].
  pose proof (Permutation_length (st_split _ _ _ _ _ _ _ _ St)) as Hlr. rewrite length_app in Hlr.
  destruct (IH (length old') ltac:(lia) (S depth) k ltac:(lia) ltac:(lia) ltac:(lia) s3 rest (new ++ added) m ltac:(lia) Hp3 eq_refl)
    as (s4 & popped4 & rest4 & added4 & E4 & St4 & Hp4 & Hla & Ha4).
  assert (step s s3 old new (p :: popped) rest added []) as St3.
  { assert (log_of s1 p = log_of s p) as Hlog by (unfold log_of; by rewrite Ho). rewrite Hlog in St.
    eapply step_event; [exact Po| | | |lia| |exact St|done|done| |done].
    - intros q. rewrite <- Ho. by destruct (valid d).
    - unfold log_of. rewrite Hd. destruct (valid d); cbn; [done|by rewrite app_nil_r].
    - by destruct (valid d).
    - intros q Hq. rewrite Hdue. apply Hmin. rewrite Po. cbn. right. apply elem_of_app. by left.
    - cbn [s3 _now]. apply (pe_now _ _ _ _ Hp2). }
  exists s4, (p :: popped ++ popped4), rest4, (added ++ added4). split; [exact E4|].
  split; [apply (step_trans _ _ _ _ _ _ _ _ [] _ _ _ [] St3 St4)|]. split; [by rewrite <- (assoc_L (++)) in Hp4|]. split.
  - intros q Hq. rewrite <- (obj_due s s3); [by apply Hla|]. apply (st_objs _ _ _ _ _ _ _ _ St3), elem_of_app. left.
    rewrite (st_split _ _ _ _ _ _ _ _ St4). apply elem_of_app. by right.
  - intros [-> ->]%app_nil. rewrite Ha4 by done. cbn [armed s3]. by apply Ha.
Qed.

(** What is left after the events of [l] that were due have run: [popped] are those,
    [rest] the others, [added] what the callbacks armed. *)
Record settled (s s' : timer) (l popped rest added : list Z) : Prop := {
  se_split : l ≡ₚ popped ++ rest;
  se_due p : p ∈ popped -> due_at s p <= _now s';
  se_later p : p ∈ rest -> _now s' < due_at s p;
  se_sorted : StronglySorted (fun p q => due_at s p <= due_at s q) popped;
  se_fired : fired s' = fired s ++ logs s popped;
  se_holds : holds (_heap s') (rest ++ added);
  se_rest p : p ∈ rest -> obj s' p = obj s p;
  se_added : what s' <$> added ≡ₚ flat_map asked_by (logs s popped);
  se_added_later p : p ∈ added -> T < due_at s' p;
  se_armed : (rest ++ added <> [] -> set_to s' (rest ++ added)) /\ (rest ++ added = [] -> armed s' = armed s);
  se_clock : clock (readings s) <= _now s' <= T;
  se_unlocked : _lock s' = false
}.
Lemma handle_settles s l depth :
  pending s l [] (S (w * length l)) -> _lock s = false -> (length l < depth)%nat -> (length l < sfuel)%nat ->
  exists s' popped rest added, handle clock (scripted depth) sfuel s = Ok (tt, s') /\ settled s s' l popped rest added.
Proof using clock_mono PQ script_size start_time.
  intros Hp Hl Hd Hf. unfold handle.
  destruct (schedules (scripted depth) sfuel (length l) s l [] 0) as (s' & popped & rest & added & E & St & Hp' & Hla & Hck & Ha1 & Ha2);
    [by apply fires_scripted|done| |done|].
  { by rewrite Nat.add_0_r. }
  exists s', popped, rest, added. split; [exact E|]. pose proof (pending_early _ _ _ _ Hp'). destruct St, Hp'.
  split; try done.
  - intros p Hq. apply st_objs0, elem_of_app. by left.
  - by rewrite st_lock0.
Qed.
End arming.
#[global] Arguments settled clock script {holds} T s s' l popped rest added.

(** C21: handling a timer ends, and runs what is due.  The callbacks may arm further
    events of the same timer, which handles it once more inside of them, and cancel the
    event they are of, as the callback of preemption does; they cancel no other one.
    [T] is a time the clock does not pass while the timer is handled and before which
    nothing they arm is due: handling is quicker than the shortest delay they ask for.
    Then exactly the events due by the last reading of the clock are taken out, in the
    order they are due; the callbacks of those that were not cancelled ran, each once,
    in that order; what is due later and what the callbacks armed is queued, and the
    hardware is set to the time left until the first of it, or not at all when nothing
    is.  (There is room in the heap, the identifiers and the 64 bits of a time.) *)
Theorem handle_fires_due {holds} {PQ : PriorityQueue timer_descriptor_comparator holds} clock script K T fuel s l :
  let m := S ((2 * K + 2) * length l) in
  (forall n, clock n <= clock (S n)) -> (forall f e c, (length (script f e c) <= K)%nat) ->
  holds (_heap s) l -> one_shots s l -> _lock s = false -> (length l < fuel)%nat ->
  (forall p, p ∈ l -> polite_event clock script T (readings s) s p) ->
  _now s <= clock (readings s) -> clock (readings s + m)%nat <= T -> - 2 ^ 63 <= clock (readings s) ->
  (forall q, is_Some (mem (_heap s) !! q) -> 0 < q < next_object s) -> 0 < next_object s ->
  0 <= _next_id s -> _next_id s + Z.of_nat m < 2 ^ 63 - 1 -> Z.of_nat (length l + m) < 2 ^ 63 ->
  exists s' popped rest added, handle clock (scripted clock script fuel fuel) fuel s = Ok (tt, s') /\
    settled (holds := holds) clock script T s s' l popped rest added.
Proof.
  intros m Hck Hsz Hh Hos Hl Hf Hpol Hnow HT H63 Hfr Hpos Hid1 Hid2 Hroom.
  apply (handle_settles clock script fuel Hck K T (readings s) Hsz H63); try done.
  split; try done; rewrite ?app_nil_r; try done. by intros q ?%elem_of_nil.
Qed.

(** ** A run *)

Definition sample_clock (n : nat) : Z := 100 * Z.of_nat n.
Definition log_only (f e c : Z) : M timer unit := fun s => Ok (tt, log_fired f e c s).
Definition timer0 : timer := mkTimer (mkHeap ∅ 0 0) false 0 0 64 0 [] [].

Lemma sample_clock_mono n : sample_clock n <= sample_clock (S n).
Proof. unfold sample_clock. lia. Qed.
Lemma timer0_holds : heap_holds timer_descriptor_comparator (_heap timer0) [].
Proof. apply empty_holds; [done..|]. exact (inhabits new_descriptor). Qed.

(** Two pending events, due at 50 and at 1000, while the clock is at 300. *)
Definition early : timer_descriptor := mkDescriptor 1 50 1 0x5000 7 true.
Definition late : timer_descriptor := mkDescriptor 2 1000 1 0x6000 8 true.
Definition loose_events : tree_heap timer_descriptor :=
  mkHeap {[64 := mkNode 0 0 0 early; 128 := mkNode 0 0 0 late]} 0 0.
Definition pushed (p : Z) (h : tree_heap timer_descriptor) : tree_heap timer_descriptor :=
  match push timer_descriptor_comparator p h with Ok (_, h') => h' | Err _ => h end.
Definition timer2 : timer := mkTimer (pushed 64 (pushed 128 loose_events)) false 0 2 192 3 [] [].

Lemma timer2_holds : heap_holds timer_descriptor_comparator (_heap timer2) [64; 128].
Proof.
  assert (heap_holds timer_descriptor_comparator (pushed 128 loose_events) [128]) as H1.
  { apply (push_holds timer_descriptor_comparator loose_events _ [] 128 (mkNode 0 0 0 late));
      [|by apply not_elem_of_nil|done|done|reflexivity|done|vm_compute; reflexivity].
    apply empty_holds; [reflexivity..|]. exact (inhabits new_descriptor). }
  apply (push_holds timer_descriptor_comparator (pushed 128 loose_events) _ [128] 64 (mkNode 0 0 0 early));
    [exact H1| |done|done|reflexivity|done|vm_compute; reflexivity].
  apply not_elem_of_cons. split; [done|]. apply not_elem_of_nil.
Qed.
Lemma timer2_one_shots : one_shots timer2 [64; 128].
Proof.
  intros p [-> | [-> |[]%elem_of_nil]%elem_of_cons]%elem_of_cons; eexists; (split; [vm_compute; reflexivity|]); cbn; lia.
Qed.

(** The early event is of a callback that gives up its token and arms itself again, as
    that of preemption does. *)
Definition again (f e c : Z) : list action := if e =? 0x5000 then [Cancel 64; Arm 10000000 f e c] else [].
Lemma handle_fires_due_witness :
  exists s' popped rest added, handle sample_clock (scripted sample_clock again 3 3) 3 timer2 = Ok (tt, s') /\
    settled (holds := heap_holds timer_descriptor_comparator) sample_clock again 1600 timer2 s' [64; 128] popped rest added.
Proof.
  apply (handle_fires_due sample_clock again 2 1600 3 timer2 [64; 128] sample_clock_mono);
    [|exact timer2_holds|exact timer2_one_shots|reflexivity|cbn; lia| |by vm_compute..| | | | |].
  - intros f e c. unfold again. destruct (e =? 0x5000); cbn; lia.
  - intros p [-> | [-> |[]%elem_of_nil]%elem_of_cons]%elem_of_cons f e c E; vm_compute in E; injection E as <- <- <-.
    + repeat constructor; by vm_compute.
    + constructor.
  - intros q Hq. destruct (decide (q = 64)) as [->|H1]; [by vm_compute|]. destruct (decide (q = 128)) as [->|H2]; [by vm_compute|].
    exfalso. destruct Hq as [x Hx]. apply elem_of_map_to_list in Hx. vm_compute in Hx. set_solver.
  - by vm_compute.
  - by vm_compute.
  - by vm_compute.
  - by vm_compute.
Defined.
(** The event armed again is queued, due [10000000] after the reading at [400]. *)
Example again_run :
  match handle sample_clock (scripted sample_clock again 3 3) 3 timer2 with
  | Ok (_, s') => fired s' = [(1, 0x5000, 7)] /\ armed s' = [500; 400] /\ due_at s' 192 = 10000400 /\ _size (_heap s') = 2
  | Err _ => False
  end.
Proof. vm_compute. auto. Qed.

Lemma cancelled_event_silent_witness :
  exists s1 s' popped rest,
    cancel (Some 64) timer2 = Ok (None, s1) /\ handle sample_clock log_only 3 s1 = Ok (tt, s') /\
    [64; 128] ≡ₚ popped ++ rest /\ heap_holds timer_descriptor_comparator (_heap s') rest /\
    (forall q, q ∈ popped -> due_at timer2 q <= _now s') /\ (forall q, q ∈ rest -> _now s' < due_at timer2 q) /\
    StronglySorted (fun a b => due_at timer2 a <= due_at timer2 b) popped /\
    fired s' = [] ++ logs timer2 (filter (fun q => q <> 64) popped).
Proof.
  apply (cancelled_event_silent sample_clock log_only sample_clock_mono ltac:(reflexivity) 3 timer2 [64; 128] 64 timer2_holds timer2_one_shots);
    [reflexivity | cbn; lia | by left].
Defined.

Lemma one_shot_registers_witness :
  exists s1 s' popped rest,
    _do sample_clock log_only 4 500 1 0x7000 9 mode_one_shot timer2 = Ok (Some 192, s') /\
    obj s1 192 = Some (mkDescriptor 3 800 1 0x7000 9 true) /\ (forall q, q ∈ [64; 128] -> obj s1 q = obj timer2 q) /\
    fired s1 = [] /\ armed s1 = [] /\ _next_id s1 = 3 /\
    handled (holds := heap_holds timer_descriptor_comparator) s1 s' [192; 64; 128] popped rest /\
    rearmed s1 s' rest /\ _lock s' = false /\ (192 ∈ rest <-> _now s' < 800).
Proof.
  apply (one_shot_registers sample_clock log_only sample_clock_mono ltac:(reflexivity) 4 timer2 [64; 128] 500 1 0x7000 9
    timer2_holds timer2_one_shots); [reflexivity | cbn; lia | reflexivity | | done | vm_compute; reflexivity | by vm_compute | by vm_compute].
  apply (bool_decide_unpack _). vm_compute. exact I.
Defined.

(** The run: the early event fires, the hardware is set to the late one. *)
Example handle_run :
  match handle sample_clock log_only 3 timer2 with
  | Ok (_, s') => fired s' = [(1, 0x5000, 7)] /\ armed s' = [600] /\ _size (_heap s') = 1
  | Err _ => False
  end.
Proof. vm_compute. auto. Qed.
(** A context of [n] bytes survives the way through the descriptor. *)
Lemma context_roundtrip n ctx junk : (n <= 8)%nat -> 0 <= ctx < 256 ^ Z.of_nat n -> 
  unpack_context n (pack_context n ctx junk) = ctx.
Proof.
  intros Hn Hc. unfold unpack_context, pack_context.
  set (bs := le_bytes n ctx ++ drop n (le_bytes 8 junk)).
  assert (length bs = 8%nat) as Hl by (unfold bs; rewrite length_app, length_drop, !le_bytes_length; lia).
  assert (byte_list bs) as Hb by (apply Forall_app; split; [apply le_bytes_ok | apply Forall_drop, le_bytes_ok]).
  assert (forall m l, length l = m -> byte_list l -> le_bytes m (le_value l) = l) as Hinv.
  { induction m as [|m IH]; intros l Hlen Hbl; [by apply nil_length_inv in Hlen as ->|]. destruct l as [|b l]; [done|].
    apply Forall_cons in Hbl as [Hb0 Hbl]. unfold is_byte in Hb0. cbn [le_value le_bytes]. rewrite (Z.mul_comm 256).
    rewrite Z_mod_plus_full, Z.mod_small, Z.div_add, Z.div_small, Z.add_0_l by lia. rewrite IH; [done| |done]. cbn in Hlen. lia. }
  rewrite (Hinv 8%nat bs Hl Hb). unfold bs. rewrite take_app_le by (rewrite le_bytes_length; lia).
  rewrite take_ge by (rewrite le_bytes_length; lia). by apply le_value_bytes.
Qed.
