(* ===== verification/Fifo.v ===== *)
(** * The intrusive queue of kernel/util/fifo.h

    A singly linked queue through the [next] pointers of the objects it holds.
    Mailboxes keep their messages and their waiting threads in such queues. *)
From S2P Require Import Prelude.

Record fifo : Type := mkFifo {
  links : gmap Z Z;
  _head : Z;
  _tail : Z;
  fifo_size : Z
}.

Section ops.
Abbreviation FM := (M fifo).

Definition get_next (p : Z) : FM Z := fun s =>
  match links s !! p with Some n => Ok (n, s) | None => Err Fault end.
Definition set_next (p n : Z) : FM unit := fun s =>
  match links s !! p with
  | Some _ => Ok (tt, mkFifo (<[p := n]> (links s)) (_head s) (_tail s) (fifo_size s))
  | None => Err Fault
  end.
Definition set_head (p : Z) : FM unit := modify (fun s => mkFifo (links s) p (_tail s) (fifo_size s)).
Definition set_tail (p : Z) : FM unit := modify (fun s => mkFifo (links s) (_head s) p (fifo_size s)).
Definition add_fifo_size (d : Z) : FM unit := modify (fun s => mkFifo (links s) (_head s) (_tail s) (u64 (fifo_size s + d))).

Definition empty : FM bool := gets (fun s => _head s =? 0).

Definition push_back (element : Z) : FM unit :=
  let* h := gets _head in
  if h =? 0 then
    set_head element ;;
    set_tail element ;;
    set_next element 0 ;;
    add_fifo_size 1
  else
    let* t := gets _tail in
    set_next t element ;;
    let* n := get_next t in
    set_next n 0 ;;
    let* n := get_next t in
    set_tail n ;;
    add_fifo_size 1.

(** 0 is the empty pointer. *)
Definition pop_front : FM Z :=
  let* e := empty in
  if e then ret 0 else
  add_fifo_size (-1) ;;
  let* r := gets _head in
  let* n := get_next r in
  set_head n ;;
  ret r.
End ops.

(** ** The queue as a list *)

(** The objects from [p] on are [l]. *)
Fixpoint linked (m : gmap Z Z) (p : Z) (l : list Z) : Prop :=
  match l with
  | [] => p = 0
  | x :: l' => p = x /\ x <> 0 /\ exists n, m !! x = Some n /\ linked m n l'
  end.

Record is_fifo (s : fifo) (l : list Z) : Prop := {
  ff_linked : linked (links s) (_head s) l;
  ff_nodup : NoDup l;
  ff_tail : forall l' x, l = l' ++ [x] -> _tail s = x;
  ff_size : fifo_size s = Z.of_nat (length l);
  ff_small : Z.of_nat (length l) < 2 ^ 63
}.

Lemma linked_frame m p l e n : e ∉ l -> linked m p l -> linked (<[e := n]> m) p l.
Proof.
  revert p. induction l as [|x l IH]; intros p He; cbn; [done|]. intros (-> & Hx & k & Hk & Hl).
  split; [done|]. split; [done|]. exists k. split; [rewrite lookup_insert_ne; set_solver|]. apply IH; set_solver.
Qed.
Lemma linked_append m p l x e :
  linked m p (l ++ [x]) -> NoDup (l ++ [x]) -> e ∉ l ++ [x] -> e <> 0 -> m !! e = Some 0 ->
  linked (<[x := e]> m) p (l ++ [x; e]).
Proof.
  revert p. induction l as [|y l IH]; intros p; cbn [app linked].
  - intros (-> & Hx & n & Hn & ->) _ He He0 Hm. split; [done|]. split; [done|]. exists e. rewrite lookup_insert_eq.
    split; [done|]. split; [done|]. split; [done|]. exists 0. rewrite lookup_insert_ne by set_solver. done.
  - intros (-> & Hy & n & Hn & Hl) [Hyl Nd]%NoDup_cons He He0 Hm. split; [done|]. split; [done|]. exists n.
    rewrite lookup_insert_ne by set_solver. split; [done|]. apply IH; [done|done|set_solver|done|done].
Qed.
Lemma linked_last m p l x : linked m p (l ++ [x]) -> m !! x = Some 0 /\ p <> 0 /\ x <> 0.
Proof.
  revert p. induction l as [|y l IH]; intros p; cbn [app linked].
  - intros (-> & Hx & n & Hn & ->). done.
  - intros (-> & Hy & n & Hn & Hl). by destruct (IH _ Hl) as (? & ? & ?).
Qed.

(** The queue is a list: pushing an object that is not queued puts it last,
    popping takes the first one (null when there is none), [empty] and the count
    say what the list says; an object pushed again after it was popped carries
    no link over. *)
Theorem fifo_refines s l e :
  is_fifo s l ->
  empty s = Ok (bool_decide (l = []), s) /\
  (exists s', pop_front s = Ok (hd 0 l, s') /\ is_fifo s' (tl l) /\ links s' = links s) /\
  (e <> 0 -> e ∉ l -> is_Some (links s !! e) -> Z.of_nat (S (length l)) < 2 ^ 63 ->
   exists s', push_back e s = Ok (tt, s') /\ is_fifo s' (l ++ [e]) /\ dom (links s') = dom (links s)).
Proof.
  intros H. pose proof H as [Hl Nd Ht Hz Hs]. split; [|split].
  - unfold empty, gets. do 2 f_equal. destruct l as [|x l]; cbn in Hl.
    + by rewrite Hl.
    + destruct Hl as (-> & Hx & _). by rewrite bool_decide_false, (proj2 (Z.eqb_neq _ _)).
  - unfold pop_front, empty. erewrite bind_Ok by reflexivity. destruct l as [|x l]; cbn in Hl.
    + rewrite Hl. exists s. done.
    + destruct Hl as (Eh & Hx & n & Hn & Hl). rewrite Eh, (proj2 (Z.eqb_neq _ _)) by done.
      erewrite bind_Ok by reflexivity. erewrite bind_Ok by reflexivity. cbn [_head]. rewrite Eh.
      unfold get_next. erewrite bind_Ok by (cbn; by rewrite Hn). eexists. split; [reflexivity|]. split; [|done].
      cbn in Hz, Hs. split; cbn; [done|by apply NoDup_cons in Nd as [_ ?]| |rewrite Hz, u64_id by (unfold is_u64; lia); lia|lia].
      intros l' y ->. by apply (Ht (x :: l')).
  - intros He0 Hel [k Hk] Hs'. unfold push_back. erewrite bind_Ok by reflexivity.
    destruct l as [|x l] using rev_ind; [|clear IHl].
    + cbn in Hl. rewrite Hl. cbn [Z.eqb]. unfold set_next. do 2 erewrite bind_Ok by reflexivity.
      erewrite bind_Ok by (cbn; by rewrite Hk). eexists. split; [reflexivity|]. split.
      * split; cbn; [split; [done|split; [done|exists 0; by rewrite lookup_insert_eq]]|apply NoDup_singleton| |by rewrite Hz|lia].
        intros l' y E. by apply (app_inj_tail [] l') in E as [_ ->].
      * cbn. apply dom_insert_lookup_L. by eexists.
    + destruct (linked_last _ _ _ _ Hl) as (Hx & Hh & Hx0). rewrite (proj2 (Z.eqb_neq _ _)) by done.
      erewrite bind_Ok by reflexivity. rewrite (Ht l x eq_refl).
      assert (Hxe : x <> e) by set_solver.
      unfold set_next, get_next. erewrite bind_Ok by (by rewrite Hx). erewrite bind_Ok by (cbn; by rewrite lookup_insert_eq).
      erewrite bind_Ok by (cbn; by rewrite lookup_insert_ne, Hk by done).
      erewrite bind_Ok by (cbn; by rewrite lookup_insert_ne, lookup_insert_eq by done).
      eexists. split; [reflexivity|]. cbn. split.
      * rewrite insert_insert_ne by done. split; cbn.
        -- rewrite <- app_assoc. apply linked_append; [by apply linked_frame|done|done|done|by rewrite lookup_insert_eq].
        -- rewrite Permutation_app_comm. cbn. by apply NoDup_cons.
        -- intros l' y E. by apply app_inj_tail in E as [_ ->].
        -- rewrite Hz, u64_id by (unfold is_u64; lia). rewrite !length_app. cbn. lia.
        -- rewrite !length_app in *. cbn in *. lia.
      * rewrite dom_insert_lookup_L; [by apply dom_insert_lookup_L; eexists|]. by rewrite lookup_insert_ne, Hk by done.
Qed.

Definition sample_fifo : fifo := mkFifo {[ 16 := 32; 32 := 0; 48 := 16 ]} 16 32 2.
Lemma fifo_refines_witness :
  exists s', push_back 48 sample_fifo = Ok (tt, s') /\ is_fifo s' [16; 32; 48] /\ dom (links s') = dom (links sample_fifo).
Proof.
  apply (fifo_refines sample_fifo [16; 32] 48); [|lia|apply (bool_decide_unpack _); by vm_compute|by eexists; vm_compute|cbn; lia].
  split; [|apply (bool_decide_unpack _); by vm_compute| |done|cbn; lia].
  - cbn. split; [done|]. split; [lia|]. exists 32. split; [done|]. split; [done|]. split; [lia|]. by exists 0.
  - intros [|? [|? [|]]] x E; by simplify_eq/=.
Defined.
