(* ===== verification/Ipc.v ===== *)
(** * Processes, handles and mailboxes

    kernel/scheduler/process.cpp, kernel/scheduler/mailbox.cpp and
    kernel/util/handle.h: a process holds handles under tokens of its own; a
    handle moves between processes in the message queue of a mailbox or as the
    bootstrap token of a new process.

    The tree of handles of a process is a finite map from tokens, the queues of a
    mailbox are lists ([AvlTheorems], [Fifo]).  The schedulers are a state with
    the operations of [SchedulerOps]; the permissions are generated code and
    given by their masks. *)
From S2P Require Import Prelude.

(** ** Handles *)

Inductive handle_type : Type := T_kernel_caps | T_process | T_vas | T_vmo | T_vmo_mapping | T_mailbox.
#[export] Instance handle_type_eq_dec : EqDecision handle_type.
Proof. solve_decision. Defined.

(** [h_id] is the address of the handle object. *)
Record handle : Type := mkHandle {
  h_id : Z;
  _type : handle_type;
  _payload : Z;
  _perms : Z
}.

Definition is_a (t : handle_type) (h : handle) : bool := bool_decide (_type h = t).
Definition has_permissions (h : handle) (perms : Z) : bool := Z.land perms (_perms h) =? perms.

(** The masks of the generated permissions. *)
Class Permissions : Type := {
  perm_read : Z;
  perm_write : Z;
  perm_transfer : Z;
  perm_clone : Z;
  perm_all : Z
}.

(** ** State *)

Record process : Type := mkProcess {
  _started : bool;
  _address_space : Z;
  _handles : gmap Z handle
}.

(** [mailbox_message::payload] *)
Inductive queued : Type :=
| QHandle (h : handle)
| QUser (data0 data1 : Z).

Record mailbox : Type := mkMailbox {
  _message_queue : list queued;
  _waiting_threads : list Z
}.

(** [rose::syscall::mailbox_message] in user memory: the token shares its word
    with the first word of a user message. *)
Record mailbox_message : Type := mkMessage { m_type : Z; data0 : Z; data1 : Z }.
Definition type_handle_token : Z := 0.
Definition type_user : Z := 1.

(** [enum result] *)
Inductive result : Type :=
| ok | invalid_token | invalid_handle | wrong_handle_type | not_allowed | invalid_pointers | invalid_arguments | not_ready.

(** What a new thread starts with. *)
Record start : Type := mkStart {
  st_thread : Z; st_process : Z; st_ip : Z; st_sp : Z; st_argument : Z
}.

Record kernel (S : Type) : Type := mkKernel {
  procs : gmap Z process;
  boxes : gmap Z mailbox;
  vases : gmap Z bool;
  sched : S;
  ticks : nat;
  next_address : Z;
  started : list start
}.
Arguments mkKernel {S} _ _ _ _ _ _ _.
Arguments procs {S} _.
Arguments boxes {S} _.
Arguments vases {S} _.
Arguments sched {S} _.
Arguments ticks {S} _.
Arguments next_address {S} _.
Arguments started {S} _.

(** What the handlers use of the schedulers: handing a thread over, blocking the
    current thread, and the process the current thread belongs to. *)
Class SchedulerOps (S : Type) : Type := {
  so_schedule : Z -> M S unit;
  so_deschedule : M S Z;
  so_container : S -> Z
}.

Section ops.
Context {S : Type} {SO : SchedulerOps S} {PM : Permissions} (clock : nat -> Z).
Abbreviation KM := (M (kernel S)).

Definition set_procs (p : gmap Z process) (k : kernel S) : kernel S :=
  mkKernel p (boxes k) (vases k) (sched k) (ticks k) (next_address k) (started k).
Definition set_boxes (b : gmap Z mailbox) (k : kernel S) : kernel S :=
  mkKernel (procs k) b (vases k) (sched k) (ticks k) (next_address k) (started k).

Definition get_process (p : Z) : KM process := fun k =>
  match procs k !! p with Some x => Ok (x, k) | None => Err Fault end.
Definition put_process (p : Z) (x : process) : KM unit := modify (fun k => set_procs (<[p := x]> (procs k)) k).
Definition get_mailbox (b : Z) : KM mailbox := fun k =>
  match boxes k !! b with Some x => Ok (x, k) | None => Err Fault end.
Definition put_mailbox (b : Z) (x : mailbox) : KM unit := modify (fun k => set_boxes (<[b := x]> (boxes k)) k).

Definition on_sched {A} (m : M S A) : KM A := fun k =>
  match m (sched k) with
  | Ok (a, s) => Ok (a, mkKernel (procs k) (boxes k) (vases k) s (ticks k) (next_address k) (started k))
  | Err e => Err e
  end.
(** [make_intrusive]: the address of a new object. *)
Definition allocate : KM Z := fun k =>
  Ok (next_address k, mkKernel (procs k) (boxes k) (vases k) (sched k) (ticks k) (next_address k + 64) (started k)).
(** [get_high_precision_timer().now()] *)
Definition now : KM Z := fun k =>
  Ok (clock (ticks k), mkKernel (procs k) (boxes k) (vases k) (sched k) (Nat.succ (ticks k)) (next_address k) (started k)).
Definition container : KM Z := gets (fun k => so_container (sched k)).

Definition create_handle (t : handle_type) (payload perms : Z) : KM handle :=
  let* a := allocate in ret (mkHandle a t payload perms).

(** ** Processes *)

(** [handle_token_t(self_uint ^ handle_uint ^ timestamp)] *)
Definition token_of (self : Z) (h : handle) (timestamp : Z) : Z :=
  Z.lxor (Z.lxor self (h_id h)) (u64 timestamp).

Definition with_handles (m : gmap Z handle) (x : process) : process := mkProcess (_started x) (_address_space x) m.

(** The loop draws tokens until one is not in use; the clock must not stand
    still, so that one more draw than there are handles is enough. *)
Fixpoint draw_token (fuel : nat) (self : Z) (h : handle) (m : gmap Z handle) : KM Z :=
  match fuel with
  | O => fail NoFuel
  | Datatypes.S n =>
      let* t := now in
      let token := token_of self h t in
      match m !! token with
      | None => ret token
      | Some _ => draw_token n self h m
      end
  end.

Definition register_for_token (self : Z) (h : handle) : KM Z :=
  let* x := get_process self in
  let* token := draw_token (Datatypes.S (size (_handles x))) self h (_handles x) in
  match _handles x !! token with
  | Some _ => panic "failed to insert a handle into handles tree!"
  | None => put_process self (with_handles (<[token := h]> (_handles x)) x) ;; ret token
  end.

Definition unregister_token (self token : Z) : KM unit :=
  let* x := get_process self in
  match _handles x !! token with
  | None => panic "tried to unregister a token that doesn't exit"
  | Some _ => put_process self (with_handles (delete token (_handles x)) x)
  end.

Definition get_handle (self token : Z) : KM (option handle) :=
  let* x := get_process self in ret (_handles x !! token).

Definition create_thread (self : Z) : KM Z :=
  let* x := get_process self in
  put_process self (mkProcess true (_address_space x) (_handles x)) ;;
  let* t := allocate in
  let* _ := now in
  ret t.

Definition syscall_rose_token_release_handler (token : Z) : KM result :=
  if token =? 0 then ret ok else
  let* p := container in
  unregister_token p token ;; ret ok.

(** [claim_for_process] and [create_process]; 0 is the null pointer. *)
Definition claim_for_process (vas : Z) : KM bool := fun k =>
  match vases k !! vas with
  | None => Err Fault
  | Some true => Ok (false, k)
  | Some false => Ok (true, mkKernel (procs k) (boxes k) (<[vas := true]> (vases k)) (sched k) (ticks k) (next_address k) (started k))
  end.
Definition create_process (vas : Z) : KM Z :=
  let* c := claim_for_process vas in
  if negb c then ret 0 else
  let* p := allocate in
  put_process p (mkProcess false vas ∅) ;; ret p.

Definition syscall_rose_process_create_handler (vas : Z) : KM (result * option Z) :=
  let* p := create_process vas in
  if p =? 0 then ret (invalid_arguments, None) else
  let* h := create_handle T_process p (Z.lor (Z.lor (Z.lor perm_read perm_write) perm_transfer) perm_clone) in
  let* c := container in
  let* token := register_for_token c h in
  ret (ok, Some token).

Definition syscall_rose_process_start_handler (process entrypoint top_of_stack bootstrap_token : Z) : KM result :=
  let* c := container in
  let* h := get_handle c bootstrap_token in
  match h with
  | None => ret invalid_token
  | Some h =>
      if negb (has_permissions h perm_transfer) then ret not_allowed else
      let* x := get_process process in
      if _started x then ret invalid_arguments else
      put_process process (mkProcess true (_address_space x) (_handles x)) ;;
      unregister_token c bootstrap_token ;;
      let* actual := register_for_token process h in
      let* thread := allocate in
      let* _ := now in
      modify (fun k => mkKernel (procs k) (boxes k) (vases k) (sched k) (ticks k) (next_address k)
                         (started k ++ [mkStart thread process entrypoint top_of_stack actual])) ;;
      on_sched (so_schedule thread) ;;
      ret ok
  end.

(** ** Mailboxes *)

Definition push_message (b : Z) (m : queued) : KM unit :=
  let* x := get_mailbox b in
  put_mailbox b (mkMailbox (_message_queue x ++ [m]) (_waiting_threads x)).
(** One waiting thread is woken. *)
Definition wake_one (b : Z) : KM unit :=
  let* x := get_mailbox b in
  match _waiting_threads x with
  | [] => ret tt
  | t :: ts =>
      put_mailbox b (mkMailbox (_message_queue x) ts) ;;
      on_sched (so_schedule t)
  end.

Definition _push (b : Z) (m : queued) : KM unit := push_message b m ;; wake_one b.
Definition send_handle (b : Z) (h : handle) : KM unit := _push b (QHandle h).
Definition send_user (b d0 d1 : Z) : KM unit := _push b (QUser d0 d1).

Definition create_mailbox : KM Z :=
  let* b := allocate in put_mailbox b (mkMailbox [] []) ;; ret b.

Definition syscall_rose_mailbox_create_handler : KM (result * Z * Z) :=
  let* c := container in
  let* b := create_mailbox in
  let* rh := create_handle T_mailbox b (Z.lor (Z.lor perm_read perm_transfer) perm_clone) in
  let* rt := register_for_token c rh in
  let* wh := create_handle T_mailbox b (Z.lor (Z.lor perm_write perm_transfer) perm_clone) in
  let* wt := register_for_token c wh in
  ret (ok, rt, wt).

(** [static_cast<std::uintptr_t>(-1)] *)
Definition no_wait : Z := 2 ^ 64 - 1.

(** The message at [target] after the call, when it was written: a token leaves the
    second word of the payload as it was.  No result ([std::nullopt]): the thread was
    blocked. *)
Definition syscall_rose_mailbox_read_handler (b timeout : Z) (target : mailbox_message) : KM (option (result * option mailbox_message)) :=
  let* x := get_mailbox b in
  if negb (timeout =? no_wait) && negb (timeout =? 0)
  then panic "TODO: support with mailbox read with a specified timeout" else
  match _message_queue x with
  | [] =>
      if timeout =? no_wait then ret (Some (not_ready, None)) else
      let* t := on_sched so_deschedule in
      put_mailbox b (mkMailbox [] (_waiting_threads x ++ [t])) ;;
      ret None
  | m :: ms =>
      put_mailbox b (mkMailbox ms (_waiting_threads x)) ;;
      match m with
      | QHandle h =>
          let* c := container in
          let* token := register_for_token c h in
          ret (Some (ok, Some (mkMessage type_handle_token token (data1 target))))
      | QUser d0 d1 => ret (Some (ok, Some (mkMessage type_user d0 d1)))
      end
  end.

Definition syscall_rose_mailbox_write_handler (b : Z) (source : mailbox_message) : KM result :=
  if m_type source =? type_handle_token then
    let* c := container in
    let* h := get_handle c (data0 source) in
    match h with
    | None => ret invalid_token
    | Some h =>
        if negb (has_permissions h perm_transfer) then ret not_allowed else
        unregister_token c (data0 source) ;;
        push_message b (QHandle h) ;;
        wake_one b ;;
        ret ok
    end
  else if m_type source =? type_user then
    push_message b (QUser (data0 source) (data1 source)) ;;
    wake_one b ;;
    ret ok
  else panic "rose_mailbox_write with a message containing an unimplemented payload type".
End ops.
