(* ===== verification/IpcTheorems.v ===== *)
(** * What processes and mailboxes promise *)
From S2P Require Import Prelude TreeHeap HeapTheorems Scheduler SchedulerTheorems Ipc.

(** A computation that ends gives its result. *)
Ltac ends H := unfold container, allocate, now, gets, put_process, put_mailbox, modify, ret in H; cbn in H; simplify_eq.

Section laws.
Context {S : Type} {SO : SchedulerOps S} {PM : Permissions} (clock : nat -> Z).
Implicit Types (k : kernel S) (h : handle) (x : process).

(** ** Tokens *)

(** The clock moves: [n] readings from now on are different. *)
Definition clock_moves (t n : nat) : Prop :=
  forall i j, (i < j < n)%nat -> u64 (clock (t + i)) <> u64 (clock (t + j)).

Lemma token_of_inj self h a b : token_of self h a = token_of self h b -> u64 a = u64 b.
Proof using Type.
  unfold token_of. generalize (Z.lxor self (h_id h)) as w. intros w E. apply (f_equal (Z.lxor w)) in E.
  by rewrite <- !Z.lxor_assoc, !Z.lxor_nilpotent, !Z.lxor_0_l in E.
Qed.

(** The first [n] tokens that would be drawn. *)
Definition draws (self : Z) h (t n : nat) : list Z := (fun i => token_of self h (clock (t + i))) <$> seq 0 n.
Lemma draws_NoDup self h t n : clock_moves t n -> NoDup (draws self h t n).
Proof using Type.
  intros H. apply NoDup_fmap_2_strong; [|apply NoDup_seq]. intros i j Hi%elem_of_seq Hj%elem_of_seq E%token_of_inj.
  destruct (Nat.lt_trichotomy i j) as [Hij|[|Hij]]; [|done|]; exfalso.
  - by apply (H i j); [lia|].
  - by apply (H j i); [lia|].
Qed.
(** Distinct draws cannot all be taken. *)
Lemma draws_free self h t (m : gmap Z handle) :
  clock_moves t (Datatypes.S (size m)) -> exists i, (i <= size m)%nat /\ m !! token_of self h (clock (t + i)) = None.
Proof using Type.
  intros H. destruct (decide (Forall (fun tok => tok ∈ dom m) (draws self h t (Datatypes.S (size m))))) as [Hf|Hf].
  - exfalso. pose proof (draws_NoDup self h _ _ H) as Nd.
    assert (Hs : (length (draws self h t (Datatypes.S (size m))) <= length (elements (dom m)))%nat).
    { apply submseteq_length, NoDup_submseteq; [done|]. intros y Hy. apply elem_of_elements. rewrite Forall_forall in Hf. by apply Hf. }
    unfold draws in Hs. rewrite length_fmap, length_seq in Hs. change (length (elements (dom m))) with (size (dom m)) in Hs.
    rewrite size_dom in Hs. lia.
  - apply not_Forall_Exists in Hf; [|apply _]. apply Exists_exists in Hf as (tok & Htok & Hn).
    unfold draws in Htok. apply list_elem_of_fmap in Htok as (i & -> & Hi%elem_of_seq). exists i. split; [lia|]. by apply not_elem_of_dom.
Qed.

Definition advanced k n : kernel S :=
  mkKernel (procs k) (boxes k) (vases k) (sched k) (n + ticks k) (next_address k) (started k).

Lemma draw_token_ok fuel self h (m : gmap Z handle) k i :
  (i < fuel)%nat -> m !! token_of self h (clock (ticks k + i)) = None ->
  exists n token, draw_token clock fuel self h m k = Ok (token, advanced k n) /\ m !! token = None /\ (n <= Datatypes.S i)%nat /\
    exists j, token = token_of self h (clock (ticks k + j)).
Proof using Type.
  revert k i. induction fuel as [|fuel IH]; intros k i Hi Hm; [lia|]. cbn [draw_token]. erewrite bind_Ok by reflexivity.
  destruct (m !! token_of self h (clock (ticks k))) eqn:E.
  - destruct i as [|i]; [rewrite Nat.add_0_r in Hm; congruence|].
    destruct (IH (advanced k 1) i) as (n & token & E2 & H2 & Hn & j & Hj); [lia| |].
    { cbn. by replace (Datatypes.S (ticks k + i)) with (ticks k + Datatypes.S i)%nat by lia. }
    exists (n + 1)%nat, token. split; [|split; [done|split; [lia|]]].
    + etrans; [exact E2|]. unfold advanced. cbn. do 3 f_equal. lia.
    + exists (Datatypes.S j). rewrite Hj. cbn. do 2 f_equal. lia.
  - exists 1%nat, (token_of self h (clock (ticks k))). split; [done|]. split; [done|]. split; [lia|]. exists 0%nat. by rewrite Nat.add_0_r.
Qed.

Lemma get_process_ok k p x : procs k !! p = Some x -> get_process p k = Ok (x, k).
Proof using Type. unfold get_process. by intros ->. Qed.
Lemma get_mailbox_ok k b mb : boxes k !! b = Some mb -> get_mailbox b k = Ok (mb, k).
Proof using Type. unfold get_mailbox. by intros ->. Qed.

Definition registered (self token : Z) h x k : kernel S :=
  set_procs (<[self := with_handles (<[token := h]> (_handles x)) x]> (procs k)) k.

Lemma register_within self h k x :
  procs k !! self = Some x -> clock_moves (ticks k) (Datatypes.S (size (_handles x))) ->
  exists token n, register_for_token clock self h k = Ok (token, registered self token h x (advanced k n)) /\
    _handles x !! token = None /\ (n <= Datatypes.S (size (_handles x)))%nat.
Proof using Type.
  intros Hx Hc. destruct (draws_free self h (ticks k) (_handles x) Hc) as (i & Hi & Hn).
  destruct (draw_token_ok (Datatypes.S (size (_handles x))) self h (_handles x) k i) as (n & token & E & Hm & Hni & _); [lia|done|].
  exists token, n. split; [|split; [done|lia]]. unfold register_for_token. erewrite bind_Ok by (by apply get_process_ok).
  erewrite bind_Ok by exact E. rewrite Hm. done.
Qed.
Lemma register_ok self h k x :
  procs k !! self = Some x -> clock_moves (ticks k) (Datatypes.S (size (_handles x))) ->
  exists token n, register_for_token clock self h k = Ok (token, registered self token h x (advanced k n)) /\
    _handles x !! token = None.
Proof using Type. intros Hx Hc. destruct (register_within self h k x Hx Hc) as (token & n & E & Hm & _). by exists token, n. Qed.

(** C32: as long as the clock moves, registering a handle ends with a token the
    process did not use: the process then finds the handle under that token,
    every other token as before, and nothing else has changed but the clock. *)
Theorem register_for_token_fresh self h k x :
  procs k !! self = Some x -> clock_moves (ticks k) (Datatypes.S (size (_handles x))) ->
  exists token k', register_for_token clock self h k = Ok (token, k') /\ _handles x !! token = None /\
    get_handle self token k' = Ok (Some h, k') /\
    (forall token', token' <> token -> get_handle self token' k' = Ok (_handles x !! token', k')) /\
    (forall p, p <> self -> procs k' !! p = procs k !! p) /\ boxes k' = boxes k /\ sched k' = sched k.
Proof using Type.
  intros Hx Hc. destruct (register_ok self h k x Hx Hc) as (token & n & E & Hm).
  eexists token, _. split; [exact E|]. split; [done|]. unfold get_handle.
  assert (Hp : get_process self (registered self token h x (advanced k n)) =
    Ok (with_handles (<[token := h]> (_handles x)) x, registered self token h x (advanced k n))).
  { apply get_process_ok. cbn. by rewrite lookup_insert_eq. }
  split; [erewrite bind_Ok by exact Hp; cbn; by rewrite lookup_insert_eq|].
  split; [intros t' Ht; erewrite bind_Ok by exact Hp; cbn; by rewrite lookup_insert_ne|].
  split; [|done]. intros p Hp'. cbn. by rewrite lookup_insert_ne.
Qed.

(** ** Conservation of handles *)

Definition queue_handles (q : list queued) : list handle :=
  omap (fun m => match m with QHandle h => Some h | QUser _ _ => None end) q.
Definition table_handles (m : gmap Z handle) : list handle := (map_to_list m).*2.
(** Every handle some process holds or some mailbox queues. *)
Definition all_handles k : list handle :=
  concat ((fun px : Z * process => table_handles (_handles px.2)) <$> map_to_list (procs k)) ++
  concat ((fun bx : Z * mailbox => queue_handles (_message_queue bx.2)) <$> map_to_list (boxes k)).

(** Replacing one entry of a map replaces its part of the whole. *)
Lemma map_focus {A B} (f : Z * A -> list B) (m : gmap Z A) i y :
  m !! i = Some y ->
  exists rest, concat (f <$> map_to_list m) ≡ₚ f (i, y) ++ rest /\
    forall z, concat (f <$> map_to_list (<[i := z]> m)) ≡ₚ f (i, z) ++ rest.
Proof using Type.
  intros H. exists (concat (f <$> map_to_list (delete i m))). split.
  - rewrite <- (map_to_list_delete m i y H). done.
  - intros z. rewrite <- insert_delete_eq, map_to_list_insert by apply lookup_delete_eq. done.
Qed.
Lemma table_insert m (t : Z) h : m !! t = None -> table_handles (<[t := h]> m) ≡ₚ h :: table_handles m.
Proof using Type. intros H. unfold table_handles. by rewrite map_to_list_insert. Qed.
Lemma table_delete m (t : Z) h : m !! t = Some h -> table_handles m ≡ₚ h :: table_handles (delete t m).
Proof using Type. intros H. unfold table_handles. by rewrite <- (map_to_list_delete m t h H). Qed.

Lemma handles_sched k k' :
  procs k' = procs k -> boxes k' = boxes k -> all_handles k' = all_handles k.
Proof using Type. unfold all_handles. by intros -> ->. Qed.
(** A table that is replaced. *)
Lemma handles_table k p x y :
  procs k !! p = Some x -> exists rest, all_handles k ≡ₚ table_handles (_handles x) ++ rest /\
    all_handles (set_procs (<[p := y]> (procs k)) k) ≡ₚ table_handles (_handles y) ++ rest.
Proof using Type.
  intros H. destruct (map_focus (fun px : Z * process => table_handles (_handles px.2)) _ _ _ H) as (rest & P & Q).
  eexists. unfold all_handles. cbn. rewrite P, Q, <- !app_assoc. done.
Qed.
(** A queue that is replaced. *)
Lemma handles_queue k b (mb : mailbox) q w :
  boxes k !! b = Some mb -> exists rest, all_handles k ≡ₚ queue_handles (_message_queue mb) ++ rest /\
    all_handles (set_boxes (<[b := mkMailbox q w]> (boxes k)) k) ≡ₚ queue_handles q ++ rest.
Proof using Type.
  intros H. destruct (map_focus (fun bx : Z * mailbox => queue_handles (_message_queue bx.2)) _ _ _ H) as (rest & P & Q).
  exists (concat ((fun px : Z * process => table_handles (_handles px.2)) <$> map_to_list (procs k)) ++ rest).
  unfold all_handles. cbn. rewrite P, Q. cbn. split; apply Permutation_app_swap_app.
Qed.

Lemma draw_token_inv fuel self h m k token k' :
  draw_token clock fuel self h m k = Ok (token, k') -> procs k' = procs k /\ boxes k' = boxes k /\ sched k' = sched k /\ m !! token = None.
Proof using Type.
  revert k. induction fuel as [|fuel IH]; intros k; cbn [draw_token]; [done|]. erewrite bind_Ok by reflexivity.
  destruct (m !! token_of self h (clock (ticks k))) eqn:E; [|intros [= <- <-]; done]. intros H. by apply IH in H.
Qed.
Lemma register_adds self h k token k' :
  register_for_token clock self h k = Ok (token, k') -> all_handles k' ≡ₚ h :: all_handles k /\ boxes k' = boxes k /\ sched k' = sched k.
Proof using Type.
  unfold register_for_token. intros (x & k1 & E1 & H)%bind_Ok_inv. unfold get_process in E1.
  destruct (procs k !! self) as [y|] eqn:Ex; [|done]. simplify_eq. apply bind_Ok_inv in H as (tok & k2 & E2 & H).
  apply draw_token_inv in E2 as (P1 & P2 & P3 & P4). rewrite P4 in H. apply bind_Ok_inv in H as (? & k3 & E3 & H). ends E3. ends H.
  destruct (handles_table k2 self x (with_handles (<[token := h]> (_handles x)) x)) as (rest & A & B); [by rewrite P1|].
  split; [|by split]. rewrite B. cbn. rewrite table_insert by done. rewrite <- (handles_sched _ _ P1 P2), A. done.
Qed.
Lemma unregister_removes self token k k' u :
  unregister_token self token k = Ok (u, k') ->
  exists x h, procs k !! self = Some x /\ _handles x !! token = Some h /\ all_handles k ≡ₚ h :: all_handles k' /\
    boxes k' = boxes k /\ sched k' = sched k /\ ticks k' = ticks k /\
    procs k' = <[self := with_handles (delete token (_handles x)) x]> (procs k).
Proof using Type.
  unfold unregister_token. intros (x & k1 & E1 & H)%bind_Ok_inv. unfold get_process in E1.
  destruct (procs k !! self) as [y|] eqn:Ex; [|done]. simplify_eq. destruct (_handles x !! token) as [h|] eqn:Eh; [|done].
  ends H. exists x, h. destruct (handles_table k1 self x (with_handles (delete token (_handles x)) x) Ex) as (rest & A & B).
  split; [done|]. split; [done|]. split; [|done]. rewrite A, B. cbn. by rewrite (table_delete _ _ _ Eh).
Qed.
Lemma push_message_adds b m k k' u :
  push_message b m k = Ok (u, k') -> all_handles k' ≡ₚ queue_handles [m] ++ all_handles k /\ procs k' = procs k.
Proof using Type.
  unfold push_message. intros (mb & k1 & E1 & H)%bind_Ok_inv. unfold get_mailbox in E1.
  destruct (boxes k !! b) as [y|] eqn:Ex; [|done]. simplify_eq. ends H. split; [|done].
  destruct (handles_queue k1 b mb (_message_queue mb ++ [m]) (_waiting_threads mb) Ex) as (rest & A & B).
  rewrite B, A. unfold queue_handles. rewrite omap_app, <- app_assoc. apply Permutation_app_swap_app.
Qed.
Lemma on_sched_keeps {A} (m : M S A) k a k' :
  on_sched m k = Ok (a, k') -> procs k' = procs k /\ boxes k' = boxes k /\ ticks k' = ticks k.
Proof using Type. unfold on_sched. destruct (m (sched k)) as [[? ?]|]; [|done]. intros [= <- <-]. done. Qed.
Lemma wake_one_keeps b k k' u : wake_one b k = Ok (u, k') -> all_handles k' ≡ₚ all_handles k.
Proof using Type.
  unfold wake_one. intros (mb & k1 & E1 & H)%bind_Ok_inv. unfold get_mailbox in E1.
  destruct (boxes k !! b) as [y|] eqn:Ex; [|done]. simplify_eq. destruct (_waiting_threads mb) as [|t ts]; [by ends H|].
  apply bind_Ok_inv in H as (u1 & k2 & E2 & H). ends E2. apply on_sched_keeps in H as (P1 & P2 & _).
  rewrite (handles_sched _ _ P1 P2). destruct (handles_queue k1 b mb (_message_queue mb) ts Ex) as (rest & A & B). by rewrite A, B.
Qed.

Lemma get_handle_inv self token k r k' :
  get_handle self token k = Ok (r, k') -> k' = k /\ exists x, procs k !! self = Some x /\ r = _handles x !! token.
Proof using Type.
  unfold get_handle. intros (x & k1 & E1 & H)%bind_Ok_inv. unfold get_process in E1.
  destruct (procs k !! self) as [y|] eqn:Ex; [|done]. simplify_eq. ends H. eauto.
Qed.
Lemma unregister_handle self token k k' u x h :
  unregister_token self token k = Ok (u, k') -> procs k !! self = Some x -> _handles x !! token = Some h ->
  all_handles k ≡ₚ h :: all_handles k'.
Proof using Type. intros (y & g & H1 & H2 & P & _)%unregister_removes Hx Hh. by simplify_eq. Qed.

Lemma write_conserves b src k r k' :
  syscall_rose_mailbox_write_handler b src k = Ok (r, k') -> all_handles k' ≡ₚ all_handles k.
Proof using Type.
  unfold syscall_rose_mailbox_write_handler. destruct (_ =? type_handle_token).
  - intros (c & k1 & E1 & H)%bind_Ok_inv. ends E1. apply bind_Ok_inv in H as (oh & k2 & E2 & H).
    apply get_handle_inv in E2 as (-> & x & Hx & ->). destruct (_handles x !! data0 src) as [h|] eqn:Eh; [|by ends H].
    destruct (negb _); [by ends H|]. apply bind_Ok_inv in H as (? & k3 & E3 & H). apply bind_Ok_inv in H as (? & k4 & E4 & H).
    apply bind_Ok_inv in H as (? & k5 & E5 & H). ends H. rewrite (wake_one_keeps _ _ _ _ E5).
    apply push_message_adds in E4 as [P _]. rewrite P. by rewrite (unregister_handle _ _ _ _ _ _ _ E3 Hx Eh).
  - destruct (_ =? type_user); [|done]. intros (? & k1 & E1 & H)%bind_Ok_inv. apply bind_Ok_inv in H as (? & k2 & E2 & H). ends H.
    rewrite (wake_one_keeps _ _ _ _ E2). by apply push_message_adds in E1 as [P _].
Qed.

Lemma read_conserves b timeout target k r k' :
  syscall_rose_mailbox_read_handler clock b timeout target k = Ok (r, k') -> all_handles k' ≡ₚ all_handles k.
Proof using Type.
  unfold syscall_rose_mailbox_read_handler. intros (mb & k1 & E1 & H)%bind_Ok_inv. unfold get_mailbox in E1.
  destruct (boxes k !! b) as [y|] eqn:Ex; [|done]. simplify_eq. destruct (_ && _); [done|].
  destruct (_message_queue mb) as [|m ms] eqn:Eq.
  - destruct (timeout =? no_wait); [by ends H|]. apply bind_Ok_inv in H as (t & k2 & E2 & H).
    apply on_sched_keeps in E2 as (P1 & P2 & _). apply bind_Ok_inv in H as (? & k3 & E3 & H). ends E3. ends H.
    rewrite <- (handles_sched _ _ P1 P2). destruct (handles_queue k2 b mb [] (_waiting_threads mb ++ [t])) as (rest & A & B); [by rewrite P2|].
    by rewrite A, B, Eq.
  - apply bind_Ok_inv in H as (? & k3 & E3 & H). ends E3.
    destruct (handles_queue k1 b mb ms (_waiting_threads mb) Ex) as (rest & A & B). rewrite Eq in A. destruct m as [h|d0 d1].
    + apply bind_Ok_inv in H as (c & k4 & E4 & H). ends E4. apply bind_Ok_inv in H as (tok & k5 & E5 & H). ends H.
      apply register_adds in E5 as [P _]. rewrite P, B, A. done.
    + ends H. by rewrite A, B.
Qed.

Lemma start_conserves proc ip sp token k r k' :
  syscall_rose_process_start_handler clock proc ip sp token k = Ok (r, k') -> all_handles k' ≡ₚ all_handles k.
Proof using Type.
  unfold syscall_rose_process_start_handler. intros (c & k1 & E1 & H)%bind_Ok_inv. ends E1.
  apply bind_Ok_inv in H as (oh & k2 & E2 & H). apply get_handle_inv in E2 as (-> & x & Hx & ->).
  destruct (_handles x !! token) as [h|] eqn:Eh; [|by ends H]. destruct (negb _); [by ends H|].
  apply bind_Ok_inv in H as (px & k3 & E3 & H). unfold get_process in E3. destruct (procs k1 !! proc) as [y|] eqn:Ey; [|done]. simplify_eq.
  destruct (_started px); [by ends H|]. apply bind_Ok_inv in H as (? & k4 & E4 & H). ends E4.
  apply bind_Ok_inv in H as (? & k5 & E5 & H). apply bind_Ok_inv in H as (actual & k6 & E6 & H).
  apply bind_Ok_inv in H as (th & k7 & E7 & H). ends E7. apply bind_Ok_inv in H as (? & k8 & E8 & H). ends E8.
  apply bind_Ok_inv in H as (? & k9 & E9 & H). ends E9. apply bind_Ok_inv in H as (? & k10 & E10 & H). ends H.
  apply on_sched_keeps in E10 as (P1 & P2 & _). rewrite (handles_sched _ _ P1 P2).
  apply register_adds in E6 as [P6 _]. transitivity (all_handles k6); [done|]. rewrite P6.
  set (k4 := set_procs _ k3) in E5. destruct (handles_table k3 proc px (mkProcess true (_address_space px) (_handles px)) Ey) as (rest & A & B).
  assert (Hc : exists x', procs k4 !! so_container (sched k3) = Some x' /\ _handles x' !! token = Some h).
  { subst k4. cbn. destruct (decide (proc = so_container (sched k3))) as [->|Hne].
    - rewrite lookup_insert_eq. eexists. split; [done|]. cbn. by simplify_eq.
    - rewrite lookup_insert_ne by done. by exists x. }
  destruct Hc as (x' & Hx' & Hh'). rewrite <- (unregister_handle _ _ _ _ _ _ _ E5 Hx' Hh'). subst k4. rewrite B, A. done.
Qed.

(** C30: handles are neither duplicated nor lost on their way: a write to a
    mailbox, a read from one and the start of a process, whatever they return,
    leave the handles held by processes and queued in mailboxes the same. *)
Theorem handles_conserved b src timeout target proc ip sp token k k' :
  (forall r, syscall_rose_mailbox_write_handler b src k = Ok (r, k') -> all_handles k' ≡ₚ all_handles k) /\
  (forall r, syscall_rose_mailbox_read_handler clock b timeout target k = Ok (r, k') -> all_handles k' ≡ₚ all_handles k) /\
  (forall r, syscall_rose_process_start_handler clock proc ip sp token k = Ok (r, k') -> all_handles k' ≡ₚ all_handles k).
Proof using Type.
  split; [|split]; intros r.
  - apply write_conserves.
  - apply read_conserves.
  - apply start_conserves.
Qed.

(** ** Delivery *)

Definition with_sched (w : S) k : kernel S :=
  mkKernel (procs k) (boxes k) (vases k) w (ticks k) (next_address k) (started k).

(** What waking does to the schedulers: nothing, or the first waiting thread is
    handed over. *)
Definition woken (ws : list Z) (w w' : S) : Prop :=
  match ws with
  | [] => w' = w
  | t :: _ => so_schedule t w = Ok (tt, w')
  end.

Lemma wake_one_ok b k q ws w' :
  boxes k !! b = Some (mkMailbox q ws) -> woken ws (sched k) w' ->
  wake_one b k = Ok (tt, with_sched w' (set_boxes (<[b := mkMailbox q (tl ws)]> (boxes k)) k)).
Proof using Type.
  intros Hb Hw. unfold wake_one. erewrite bind_Ok by (by apply get_mailbox_ok). destruct ws as [|t ts]; cbn [_waiting_threads tl] in *.
  - cbn in Hw. subst w'. unfold ret. do 2 f_equal. destruct k; cbn in *. unfold with_sched, set_boxes. cbn. by rewrite insert_id.
  - cbn in Hw. erewrite bind_Ok by reflexivity. unfold on_sched. cbn. by rewrite Hw.
Qed.
Lemma push_message_ok b m k q ws :
  boxes k !! b = Some (mkMailbox q ws) ->
  push_message b m k = Ok (tt, set_boxes (<[b := mkMailbox (q ++ [m]) ws]> (boxes k)) k).
Proof using Type. intros Hb. unfold push_message. by erewrite bind_Ok by (by apply get_mailbox_ok). Qed.
Lemma _push_ok b m k q ws w' :
  boxes k !! b = Some (mkMailbox q ws) -> woken ws (sched k) w' ->
  _push b m k = Ok (tt, with_sched w' (set_boxes (<[b := mkMailbox (q ++ [m]) (tl ws)]> (boxes k)) k)).
Proof using Type.
  intros Hb Hw. unfold _push. erewrite bind_Ok by (by apply push_message_ok).
  erewrite wake_one_ok; [|cbn; by rewrite lookup_insert_eq|exact Hw]. unfold set_boxes. cbn. by rewrite insert_insert_eq.
Qed.

(** Writing a message the sender may send. *)
Lemma write_user_ok b k q ws w' d0 d1 :
  boxes k !! b = Some (mkMailbox q ws) -> woken ws (sched k) w' ->
  syscall_rose_mailbox_write_handler b (mkMessage type_user d0 d1) k =
    Ok (ok, with_sched w' (set_boxes (<[b := mkMailbox (q ++ [QUser d0 d1]) (tl ws)]> (boxes k)) k)).
Proof using Type.
  intros Hb Hw. unfold syscall_rose_mailbox_write_handler. cbn [m_type data0 data1]. change (type_user =? type_handle_token) with false.
  change (type_user =? type_user) with true. cbv iota. rewrite <- bind_assoc.
  change (bind (bind (push_message b (QUser d0 d1)) (fun _ => wake_one b)) (fun _ => ret ok)) with
    (_push b (QUser d0 d1) ;; ret ok). erewrite bind_Ok by (by eapply _push_ok). done.
Qed.
Lemma write_handle_ok b k q ws w' x h token d1 :
  boxes k !! b = Some (mkMailbox q ws) -> woken ws (sched k) w' ->
  procs k !! so_container (sched k) = Some x -> _handles x !! token = Some h -> has_permissions h perm_transfer = true ->
  syscall_rose_mailbox_write_handler b (mkMessage type_handle_token token d1) k =
    Ok (ok, with_sched w' (set_boxes (<[b := mkMailbox (q ++ [QHandle h]) (tl ws)]> (boxes k))
              (set_procs (<[so_container (sched k) := with_handles (delete token (_handles x)) x]> (procs k)) k))).
Proof using Type.
  intros Hb Hw Hx Hh Hp. unfold syscall_rose_mailbox_write_handler. cbn [m_type data0]. change (type_handle_token =? type_handle_token) with true.
  cbv iota. erewrite bind_Ok by reflexivity. unfold get_handle at 1. rewrite bind_assoc.
  erewrite bind_Ok by (by apply get_process_ok). erewrite bind_Ok by reflexivity. rewrite Hh, Hp. cbn [negb].
  unfold unregister_token. rewrite bind_assoc. erewrite bind_Ok by (by apply get_process_ok). rewrite Hh.
  erewrite bind_Ok by reflexivity. rewrite <- bind_assoc.
  match goal with |- bind (bind ?a ?f) ?g ?s = _ => change (bind (bind a f) g s) with ((_push b (QHandle h) ;; ret ok) s) end.
  erewrite bind_Ok by (eapply _push_ok; [exact Hb|exact Hw]). done.
Qed.

(** ** Reading in order *)

(** Waiting reads into [target] that all return a message. *)
Fixpoint reads (n : nat) (b : Z) (target : mailbox_message) : M (kernel S) (list mailbox_message) :=
  match n with
  | O => ret []
  | Datatypes.S n =>
      let* r := syscall_rose_mailbox_read_handler clock b 0 target in
      match r with
      | Some (ok, Some m) => let* ms := reads n b target in ret (m :: ms)
      | _ => fail Fault
      end
  end.
(** The messages [ms] a process with the tokens of the first table gets for those of a
    queue, and the table it has then: a handle comes under a token the process does
    not use at that time. *)
Inductive arrives (target : mailbox_message) : gmap Z handle -> list queued -> list mailbox_message -> gmap Z handle -> Prop :=
| arrives_nil t : arrives target t [] [] t
| arrives_user t q ms t' d0 d1 :
    arrives target t q ms t' -> arrives target t (QUser d0 d1 :: q) (mkMessage type_user d0 d1 :: ms) t'
| arrives_handle t q ms t' h token :
    t !! token = None -> arrives target (<[token := h]> t) q ms t' ->
    arrives target t (QHandle h :: q) (mkMessage type_handle_token token (data1 target) :: ms) t'.

(** Enough readings of the clock to register [n] handles in a table of [s]. *)
Definition readings (s n : nat) : nat := n * (s + n).
Lemma clock_moves_le t n t' n' : clock_moves t n -> (t <= t')%nat -> (t' + n' <= t + n)%nat -> clock_moves t' n'.
Proof using Type.
  intros H H1 H2 i j Hij. pose proof (H (t' - t + i) (t' - t + j))%nat as G.
  replace (t + (t' - t + i))%nat with (t' + i)%nat in G by lia. replace (t + (t' - t + j))%nat with (t' + j)%nat in G by lia. apply G. lia.
Qed.

Lemma read_user_ok b k q ws d0 d1 target :
  boxes k !! b = Some (mkMailbox (QUser d0 d1 :: q) ws) ->
  syscall_rose_mailbox_read_handler clock b 0 target k =
    Ok (Some (ok, Some (mkMessage type_user d0 d1)), set_boxes (<[b := mkMailbox q ws]> (boxes k)) k).
Proof using Type. intros Hb. unfold syscall_rose_mailbox_read_handler. by erewrite bind_Ok by (by apply get_mailbox_ok). Qed.
Lemma read_handle_ok b k q ws h y target :
  boxes k !! b = Some (mkMailbox (QHandle h :: q) ws) -> procs k !! so_container (sched k) = Some y ->
  clock_moves (ticks k) (Datatypes.S (size (_handles y))) ->
  exists token n, syscall_rose_mailbox_read_handler clock b 0 target k =
      Ok (Some (ok, Some (mkMessage type_handle_token token (data1 target))),
          registered (so_container (sched k)) token h y (advanced (set_boxes (<[b := mkMailbox q ws]> (boxes k)) k) n)) /\
    _handles y !! token = None /\ (n <= Datatypes.S (size (_handles y)))%nat.
Proof using Type.
  intros Hb Hy Hm. set (k1 := set_boxes (<[b := mkMailbox q ws]> (boxes k)) k).
  destruct (register_within (so_container (sched k)) h k1 y) as (token & n & E & Hn & Hle); [done|done|]. exists token, n. split; [|done].
  unfold syscall_rose_mailbox_read_handler. erewrite bind_Ok by (by apply get_mailbox_ok).
  change (negb (0 =? no_wait) && negb (0 =? 0)) with false. cbv iota. cbn [_message_queue _waiting_threads].
  erewrite bind_Ok by reflexivity. erewrite bind_Ok by reflexivity. by erewrite bind_Ok by exact E.
Qed.

(** Reads return the messages of the queue in their order. *)
Lemma reads_ok b target ws rest q k r y :
  boxes k !! b = Some (mkMailbox (q ++ rest) ws) -> so_container (sched k) = r -> procs k !! r = Some y ->
  clock_moves (ticks k) (readings (size (_handles y)) (length q)) ->
  exists ms k' t', reads (length q) b target k = Ok (ms, k') /\ arrives target (_handles y) q ms t' /\
    procs k' = <[r := with_handles t' y]> (procs k) /\ boxes k' = <[b := mkMailbox rest ws]> (boxes k) /\ sched k' = sched k.
Proof using Type.
  revert k y. induction q as [|[h|d0 d1] q IH]; intros k y Hb Hr Hy Hm; cbn [length app reads] in *.
  - exists [], k, (_handles y). split; [done|]. split; [constructor|]. split; [|by rewrite insert_id].
    rewrite insert_id; [done|]. rewrite Hy. by destruct y.
  - subst r. destruct (read_handle_ok b k (q ++ rest) ws h y target Hb Hy) as (token & n & E & Hn & Hle).
    { eapply clock_moves_le; [exact Hm|lia|unfold readings; nia]. }
    set (k1 := registered _ _ _ _ _) in E. destruct (IH k1 (with_handles (<[token := h]> (_handles y)) y)) as (ms & k' & t' & E2 & A & P & B & W).
    + cbn. by rewrite lookup_insert_eq.
    + done.
    + cbn. by rewrite lookup_insert_eq.
    + cbn [_handles with_handles]. rewrite map_size_insert_None by done. eapply clock_moves_le; [exact Hm|cbn; lia|]. unfold readings. cbn. nia.
    + eexists _, k', t'. erewrite bind_Ok by exact E. cbv iota beta. erewrite bind_Ok by exact E2. split; [done|].
      split; [by constructor|]. rewrite P, B, W. cbn. by rewrite !insert_insert_eq.
  - destruct (IH (set_boxes (<[b := mkMailbox (q ++ rest) ws]> (boxes k)) k) y) as (ms & k' & t' & E2 & A & P & B & W).
    + cbn. by rewrite lookup_insert_eq.
    + done.
    + done.
    + eapply clock_moves_le; [exact Hm|cbn; lia|]. unfold readings. cbn. nia.
    + eexists _, k', t'. erewrite bind_Ok by (by eapply read_user_ok). cbv iota beta. erewrite bind_Ok by exact E2. split; [done|].
      split; [by constructor|]. rewrite P, B, W. cbn. by rewrite insert_insert_eq.
Qed.

(** C28: a handle sent by its token through a mailbox with any messages in it.  The
    sender needs the transfer permission and loses the token, the handle is queued
    behind the messages that are there and the thread that waits longest is woken.
    When a process, the sender or another one, then reads as many messages as there
    are, each read returns one, the earlier messages first and in their order and the
    handle last: a user message as it was sent, a handle under a token the process
    did not use then.  The process has gained exactly these handles, no other process
    and no other mailbox has changed, and the mailbox is empty.  A token the sender
    does not hold, or a handle it may not transfer, is refused and nothing changes. *)
Theorem mailbox_transfer b k q ws w' w2 x y c r token d1 target :
  let n := Datatypes.S (length q) in
  boxes k !! b = Some (mkMailbox q ws) -> woken ws (sched k) w' ->
  so_container (sched k) = c -> procs k !! c = Some x ->
  let procs1 := <[c := with_handles (delete token (_handles x)) x]> (procs k) in
  so_container w2 = r -> procs1 !! r = Some y -> clock_moves (ticks k) (readings (size (_handles y)) n) ->
  match _handles x !! token with
  | None => syscall_rose_mailbox_write_handler b (mkMessage type_handle_token token d1) k = Ok (invalid_token, k)
  | Some h =>
      if negb (has_permissions h perm_transfer)
      then syscall_rose_mailbox_write_handler b (mkMessage type_handle_token token d1) k = Ok (not_allowed, k)
      else exists k1 k2 ms t', syscall_rose_mailbox_write_handler b (mkMessage type_handle_token token d1) k = Ok (ok, k1) /\
        sched k1 = w' /\ procs k1 = procs1 /\ boxes k1 = <[b := mkMailbox (q ++ [QHandle h]) (tl ws)]> (boxes k) /\
        reads n b target (with_sched w2 k1) = Ok (ms, k2) /\ arrives target (_handles y) (q ++ [QHandle h]) ms t' /\
        procs k2 = <[r := with_handles t' y]> procs1 /\ boxes k2 = <[b := mkMailbox [] (tl ws)]> (boxes k)
  end.
Proof using Type.
  intros n Hb Hw Hc Hx procs1 Hr Hy Hm.
  assert (Hg : get_handle c token k = Ok (_handles x !! token, k)) by (unfold get_handle; by erewrite bind_Ok by (by apply get_process_ok)).
  destruct (_handles x !! token) as [h|] eqn:Eh.
  2:{ unfold syscall_rose_mailbox_write_handler. cbn [m_type data0]. change (type_handle_token =? type_handle_token) with true. cbv iota.
      erewrite bind_Ok by reflexivity. rewrite Hc. by erewrite bind_Ok by exact Hg. }
  destruct (has_permissions h perm_transfer) eqn:Ep; cbn [negb].
  2:{ unfold syscall_rose_mailbox_write_handler. cbn [m_type data0]. change (type_handle_token =? type_handle_token) with true. cbv iota.
      erewrite bind_Ok by reflexivity. rewrite Hc. erewrite bind_Ok by exact Hg. cbv iota beta. by rewrite Ep. }
  pose proof (write_handle_ok b k q ws w' x h token d1 Hb Hw) as E1. rewrite Hc in E1. specialize (E1 Hx Eh Ep).
  set (k1 := with_sched w' _) in E1. assert (El : length (q ++ [QHandle h]) = n) by (rewrite length_app; cbn; lia).
  destruct (reads_ok b target (tl ws) [] (q ++ [QHandle h]) (with_sched w2 k1) r y) as (ms & k2 & t' & E2 & A & P & B & _).
  - cbn. by rewrite lookup_insert_eq, app_nil_r.
  - done.
  - done.
  - by rewrite El.
  - rewrite El in E2. exists k1, k2, ms, t'. repeat (split; [done|]). rewrite B. cbn. by rewrite insert_insert_eq.
Qed.

(** Reading from a mailbox: a timeout that is neither 0 nor -1 panics; on an
    empty queue -1 reports that nothing is there and 0 blocks the current thread
    as the last of the waiting ones, without a result; otherwise the first
    message is taken, whatever the timeout, and a user message is given as it
    was sent.  A user message that is written joins the queue at its end and
    wakes the thread that has waited longest. *)
Theorem mailbox_branches b k q ws timeout target d0 d1 :
  boxes k !! b = Some (mkMailbox q ws) ->
  (timeout <> no_wait -> timeout <> 0 ->
     syscall_rose_mailbox_read_handler clock b timeout target k = Err (Panic "TODO: support with mailbox read with a specified timeout")) /\
  (q = [] -> syscall_rose_mailbox_read_handler clock b no_wait target k = Ok (Some (not_ready, None), k)) /\
  (forall t w, q = [] -> so_deschedule (sched k) = Ok (t, w) ->
     syscall_rose_mailbox_read_handler clock b 0 target k =
       Ok (None, with_sched w (set_boxes (<[b := mkMailbox [] (ws ++ [t])]> (boxes k)) k))) /\
  (forall e0 e1 q', q = QUser e0 e1 :: q' -> timeout = no_wait \/ timeout = 0 ->
     syscall_rose_mailbox_read_handler clock b timeout target k =
       Ok (Some (ok, Some (mkMessage type_user e0 e1)), set_boxes (<[b := mkMailbox q' ws]> (boxes k)) k)) /\
  (forall w', woken ws (sched k) w' ->
     syscall_rose_mailbox_write_handler b (mkMessage type_user d0 d1) k =
       Ok (ok, with_sched w' (set_boxes (<[b := mkMailbox (q ++ [QUser d0 d1]) (tl ws)]> (boxes k)) k))).
Proof using Type.
  intros Hb. assert (Hg := get_mailbox_ok k b _ Hb). unfold syscall_rose_mailbox_read_handler. split; [|split; [|split; [|split]]].
  - intros H1 H2. erewrite bind_Ok by exact Hg. rewrite !(proj2 (Z.eqb_neq _ _)) by done. done.
  - intros ->. erewrite bind_Ok by exact Hg. done.
  - intros t w -> Ed. erewrite bind_Ok by exact Hg. change (negb (0 =? no_wait) && negb (0 =? 0)) with false. cbv iota.
    cbn [_message_queue]. change (0 =? no_wait) with false. cbv iota.
    erewrite bind_Ok by (unfold on_sched; by rewrite Ed). done.
  - intros e0 e1 q' -> Ht. erewrite bind_Ok by exact Hg.
    replace (negb (timeout =? no_wait) && negb (timeout =? 0)) with false; [done|]. destruct Ht as [-> | ->]; reflexivity.
  - intros w' Hw. by apply write_user_ok.
Qed.
End laws.

(** ** The scheduler of a core as the scheduler of the handlers *)

#[export] Instance core_ops : SchedulerOps Scheduler.instance := {
  so_schedule := Scheduler.schedule true true;
  so_deschedule := Scheduler.deschedule sample_clock id id true;
  so_container s := match thread_at s (cls_current_thread s) with Some t => Scheduler.container t | None => 0 end
}.
#[export] Instance sample_permissions : Permissions := {
  perm_read := 1; perm_write := 2; perm_transfer := 4; perm_clone := 8; perm_all := 15
}.

(** Process 2 runs on the core and holds a mailbox and a read-only handle;
    process 3 holds nothing. *)
Definition mailbox_handle : handle := mkHandle 640 T_mailbox 1024 7.
Definition fixed_handle : handle := mkHandle 704 T_vas 2048 1.
Definition sample_table : gmap Z handle := {[ 77 := mailbox_handle; 78 := fixed_handle ]}.
Definition sample_process : process := mkProcess true 0 sample_table.
Definition empty_process : process := mkProcess true 0 ∅.
Definition sample_kernel : kernel Scheduler.instance :=
  mkKernel {[ 2 := sample_process; 3 := empty_process ]}
    {[ 1024 := mkMailbox [] [] ]} ∅ sample_core 0 4096 [].
(** The same core while it runs the thread of process 3. *)
Definition other_core : Scheduler.instance := set_cls 64 sample_core.

Lemma sample_clock_moves t n : Z.of_nat (t + n) < 1000 -> clock_moves sample_clock t n.
Proof. intros Hn i j Hij. unfold sample_clock. rewrite !u64_id by (unfold is_u64; lia). lia. Qed.

Lemma register_for_token_fresh_witness :
  exists token k', register_for_token sample_clock 2 fixed_handle sample_kernel = Ok (token, k') /\
    _handles sample_process !! token = None /\
    get_handle 2 token k' = Ok (Some fixed_handle, k') /\
    (forall token', token' <> token ->
       get_handle 2 token' k' = Ok (_handles sample_process !! token', k')) /\
    (forall p, p <> 2 -> procs k' !! p = procs sample_kernel !! p) /\ boxes k' = boxes sample_kernel /\ sched k' = sched sample_kernel.
Proof.
  apply (register_for_token_fresh sample_clock 2 fixed_handle sample_kernel sample_process); [reflexivity|apply sample_clock_moves; vm_compute; reflexivity].
Defined.

(** The same with two messages in the mailbox, one of them a handle. *)
Definition busy_kernel : kernel Scheduler.instance :=
  mkKernel {[ 2 := sample_process; 3 := empty_process ]}
    {[ 1024 := mkMailbox [QUser 8 9; QHandle fixed_handle] [] ]} ∅ sample_core 0 4096 [].
Lemma mailbox_transfer_witness :
  exists k1 k2 ms t', syscall_rose_mailbox_write_handler 1024 (mkMessage type_handle_token 77 0) busy_kernel = Ok (ok, k1) /\
    sched k1 = sample_core /\ procs k1 = <[2 := with_handles (delete 77 sample_table) sample_process]> (procs busy_kernel) /\
    boxes k1 = <[1024 := mkMailbox [QUser 8 9; QHandle fixed_handle; QHandle mailbox_handle] []]> (boxes busy_kernel) /\
    reads sample_clock 3 1024 (mkMessage 0 0 0) (with_sched other_core k1) = Ok (ms, k2) /\
    arrives (mkMessage 0 0 0) ∅ [QUser 8 9; QHandle fixed_handle; QHandle mailbox_handle] ms t' /\
    procs k2 = <[3 := with_handles t' empty_process]> (<[2 := with_handles (delete 77 sample_table) sample_process]> (procs busy_kernel)) /\
    boxes k2 = <[1024 := mkMailbox [] []]> (boxes busy_kernel).
Proof.
  assert (Eh : _handles sample_process !! 77 = Some mailbox_handle) by reflexivity.
  assert (Ep : has_permissions mailbox_handle perm_transfer = true) by reflexivity.
  pose proof (mailbox_transfer sample_clock 1024 busy_kernel [QUser 8 9; QHandle fixed_handle] [] sample_core other_core
    sample_process empty_process 2 3 77 0 (mkMessage 0 0 0)) as H. cbv zeta in H. rewrite Eh, Ep in H.
  apply H; [reflexivity|reflexivity|reflexivity|reflexivity|reflexivity|reflexivity|apply sample_clock_moves; vm_compute; reflexivity].
Defined.

Lemma mailbox_branches_witness :
  syscall_rose_mailbox_read_handler sample_clock 1024 no_wait (mkMessage 0 0 0) sample_kernel = Ok (Some (not_ready, None), sample_kernel).
Proof. apply (mailbox_branches sample_clock 1024 sample_kernel [] [] 0 (mkMessage 0 0 0) 0 0); reflexivity. Defined.

(** Reading the empty mailbox blocks the thread 32; a message written by the next
    thread makes it runnable again. *)
Example block_and_wake :
  match syscall_rose_mailbox_read_handler sample_clock 1024 0 (mkMessage 0 0 0) sample_kernel with
  | Ok (None, k1) =>
      _waiting_threads <$> boxes k1 !! 1024 = Some [32] /\ _current_thread (sched k1) = 64 /\
      match syscall_rose_mailbox_write_handler 1024 (mkMessage type_user 8 9) k1 with
      | Ok (ok, k2) => boxes k2 !! 1024 = Some (mkMailbox [QUser 8 9] []) /\ _size (_threads (sched k2)) = 2
      | _ => False
      end
  | _ => False
  end.
Proof. vm_compute. auto. Qed.
Example not_transferable :
  syscall_rose_mailbox_write_handler 1024 (mkMessage type_handle_token 78 0) sample_kernel = Ok (not_allowed, sample_kernel).
Proof. vm_compute. reflexivity. Qed.
Lemma handles_conserved_witness :
  exists k', syscall_rose_mailbox_write_handler 1024 (mkMessage type_handle_token 77 0) sample_kernel = Ok (ok, k') /\
    all_handles k' ≡ₚ all_handles sample_kernel.
Proof.
  eexists. split; [vm_compute; reflexivity|].
  apply (proj1 (handles_conserved sample_clock 1024 (mkMessage type_handle_token 77 0) 0 (mkMessage 0 0 0) 0 0 0 0 sample_kernel _) ok).
  vm_compute. reflexivity.
Defined.
