(* ===== verification/Algorithm.v ===== *)
(** * The algorithms of libraries/rosestd/include that the loader uses

    [std::find] and [std::rotate] on pointers into an array, and the greatest
    common divisor of ratio.  A range is given by positions in the array. *)
From S2P Require Import Prelude.

(** [std::find]: the position of the first equal element, or the length. *)
Fixpoint std_find (l : list Z) (v : Z) : nat :=
  match l with
  | [] => 0
  | x :: l' => if x =? v then 0 else S (std_find l' v)
  end.

(** [__gcd] *)
Fixpoint std_gcd (fuel : nat) (a b : Z) : res Z :=
  match fuel with
  | O => Err NoFuel
  | S n => if b =? 0 then Ok a else std_gcd n b (Z.rem a b)
  end.

Definition iter_swap (i j : nat) (l : list Z) : res (list Z) :=
  match l !! i, l !! j with
  | Some x, Some y => Ok (<[j := x]> (<[i := y]> l))
  | _, _ => Err Fault
  end.

(** The inner loop of [__rotate_random_access]; positions count from [first]. *)
Fixpoint rotate_cycle (fuel first curr_loc curr tail_count total_count : nat) (l : list Z) : res (list Z) :=
  match fuel with
  | O => Err NoFuel
  | S n =>
      let target := (curr + tail_count)%nat in
      let target := if (total_count <=? target)%nat then (target - total_count)%nat else target in
      if (curr =? target)%nat then Ok l
      else match iter_swap (first + curr_loc) (first + target) l with
           | Ok l' => rotate_cycle n first curr_loc target tail_count total_count l'
           | Err e => Err e
           end
  end.

(** The outer loop: [i] of [divisor] rounds are left. *)
Fixpoint rotate_rounds (fuel first i divisor tail_count total_count : nat) (l : list Z) : res (list Z) :=
  match i with
  | O => Ok l
  | S i' =>
      match rotate_cycle fuel first (divisor - i) (divisor - i) tail_count total_count l with
      | Ok l' => rotate_rounds fuel first i' divisor tail_count total_count l'
      | Err e => Err e
      end
  end.

Definition rotate_random_access (fuel first middle last : nat) (l : list Z) : res (list Z) :=
  let total_count := (last - first)%nat in
  let tail_count := (last - middle)%nat in
  match std_gcd (S (S tail_count)) (Z.of_nat total_count) (Z.of_nat tail_count) with
  | Ok d => rotate_rounds fuel first (Z.to_nat d) (Z.to_nat d) tail_count total_count l
  | Err e => Err e
  end.

(** [std::rotate] on pointers, whose category is [random_access_iterator_tag]. *)
Definition rotate (fuel first middle last : nat) (l : list Z) : res (list Z) :=
  if (first =? middle)%nat then Ok l
  else if (middle =? last)%nat then Ok l
  else rotate_random_access fuel first middle last l.

(** ** Lemmas *)

Lemma std_find_not_in l v : v ∉ l -> std_find l v = length l.
Proof.
  induction l as [|x l IH]; intros H; [done|]. apply not_elem_of_cons in H as [Hx Hl]. cbn.
  rewrite (proj2 (Z.eqb_neq x v)) by done. by rewrite IH.
Qed.
Lemma std_find_lookup l v : v ∈ l -> l !! std_find l v = Some v.
Proof.
  induction l as [|x l IH]; [by intros ?%elem_of_nil|]. cbn. intros [-> | H]%elem_of_cons.
  - by rewrite Z.eqb_refl.
  - destruct (Z.eqb_spec x v) as [-> |]; [done|]. by apply IH.
Qed.

(** The divisor the code computes is the greatest common one. *)
Lemma std_gcd_spec n a b : 0 <= a -> 0 <= b < Z.of_nat n -> std_gcd n a b = Ok (Z.gcd a b).
Proof.
  revert a b. induction n as [|n IH]; intros a b Ha Hb; [lia|]. cbn [std_gcd]. destruct (Z.eqb_spec b 0) as [-> |].
  - by rewrite Z.gcd_0_r, Z.abs_eq.
  - rewrite Z.rem_mod_nonneg by lia. pose proof (Z.mod_pos_bound a b ltac:(lia)).
    rewrite IH by lia. f_equal. rewrite (Z.gcd_comm b), Z.gcd_mod by lia. apply Z.gcd_comm.
Qed.

Lemma iter_swap_ok i j l : (i < length l)%nat -> (j < length l)%nat -> exists l', iter_swap i j l = Ok l' /\ length l' = length l.
Proof.
  intros [x Hx]%lookup_lt_is_Some [y Hy]%lookup_lt_is_Some. unfold iter_swap. rewrite Hx, Hy.
  eexists. split; [done|]. by rewrite !length_insert.
Qed.

(** The inner loop leaves only when it stays in place, which a step by a part of
    the range never does. *)
Lemma rotate_cycle_never_ends fuel first loc curr tail total l :
  (0 < tail < total)%nat -> (loc < total)%nat -> (curr < total)%nat -> (first + total <= length l)%nat ->
  rotate_cycle fuel first loc curr tail total l = Err NoFuel.
Proof.
  revert curr l. induction fuel as [|n IH]; intros curr l Ht Hl Hc Hlen; [done|]. cbn [rotate_cycle].
  set (target := if (total <=? curr + tail)%nat then (curr + tail - total)%nat else (curr + tail)%nat).
  assert (target <> curr /\ (target < total)%nat) as [Hne Hlt].
  { unfold target. destruct (Nat.leb_spec total (curr + tail)); lia. }
  rewrite (proj2 (Nat.eqb_neq curr target)) by done.
  destruct (iter_swap_ok (first + loc) (first + target) l) as (l' & -> & E); [lia..|]. apply IH; lia.
Qed.

Lemma rotate_stuck fuel first middle last l :
  (first < middle < last)%nat -> (last <= length l)%nat -> rotate fuel first middle last l = Err NoFuel.
Proof.
  intros H Hl. unfold rotate, rotate_random_access.
  rewrite !(proj2 (Nat.eqb_neq _ _)) by lia. rewrite std_gcd_spec by lia.
  assert (0 < Z.gcd (Z.of_nat (last - first)) (Z.of_nat (last - middle))) as Hg.
  { pose proof (Z.gcd_nonneg (Z.of_nat (last - first)) (Z.of_nat (last - middle))).
    assert (Z.gcd (Z.of_nat (last - first)) (Z.of_nat (last - middle)) <> 0) by (intros [? ?]%Z.gcd_eq_0; lia). lia. }
  destruct (Z.to_nat (Z.gcd _ _)) as [|d] eqn:E; [lia|]. cbn [rotate_rounds]. rewrite Nat.sub_diag.
  rewrite rotate_cycle_never_ends by lia. done.
Qed.

(** On a range that has something to move, [std::rotate] on pointers does not
    end, whatever the number of steps it is given. *)
Theorem rotate_never_ends first middle last l :
  (first < middle < last)%nat -> (last <= length l)%nat -> forall fuel, rotate fuel first middle last l = Err NoFuel.
Proof. intros H Hl fuel. by apply rotate_stuck. Qed.
Lemma rotate_never_ends_witness : rotate 1000 0 2 3 [1; 2; 3] = Err NoFuel.
Proof. apply (rotate_never_ends 0 2 3 [1; 2; 3]); cbn; lia. Defined.
(** A single element already in front is left there. *)
Lemma rotate_front fuel first last l : rotate fuel first first last l = Ok l.
Proof. unfold rotate. by rewrite Nat.eqb_refl. Qed.
