(* ===== verification/Loader.v ===== *)
(** * The loader of the first process: kernel/bootinit/process.cpp

    A program and the shared objects it needs form a tree: an image owns the
    images it was the first to need and points to the others.  Over that tree the
    loader searches symbols, orders the initialisers and sends them to the new
    process, which runs them (libraries/rosert/src/init.cpp).

    Images are identified by the address they are at; a pointer is followed by
    looking for that address below the root.  The system calls are generated code
    and a parameter, [Syscalls]. *)
From S2P Require Import Prelude Ipc Text Bytes Cpio ElfTypes Elf Algorithm.

(** ** Data *)

(** [segment_mapping] with its [allocate_array_result]; [storage] is the memory of
    the array. *)
Record segment_mapping : Type := mkSegment {
  storage : bytes;
  storage_vmo_token : Z;
  storage_mapping_token : Z;
  target_mapping_token : Z
}.

(** [loaded_elf] and [std::variant<loaded_elf, const loaded_elf *>]; an image that
    was not loaded yet has no [elf]. *)
Inductive loaded_elf : Type :=
| mkLoaded (self : Z) (filename image : bytes) (elf : option elf_image)
    (segment_mappings : list segment_mapping) (dependencies : list dependency) (elf_base : Z)
with dependency : Type :=
| owned (e : loaded_elf)
| shared (p : Z).

Definition self (e : loaded_elf) : Z := let 'mkLoaded p _ _ _ _ _ _ := e in p.
Definition filename (e : loaded_elf) : bytes := let 'mkLoaded _ f _ _ _ _ _ := e in f.
Definition image (e : loaded_elf) : bytes := let 'mkLoaded _ _ i _ _ _ _ := e in i.
Definition elf (e : loaded_elf) : option elf_image := let 'mkLoaded _ _ _ x _ _ _ := e in x.
Definition segment_mappings (e : loaded_elf) : list segment_mapping := let 'mkLoaded _ _ _ _ s _ _ := e in s.
Definition dependencies (e : loaded_elf) : list dependency := let 'mkLoaded _ _ _ _ _ d _ := e in d.
Definition elf_base (e : loaded_elf) : Z := let 'mkLoaded _ _ _ _ _ _ b := e in b.

(** What a default constructed element of an array of dependencies holds. *)
Definition no_image (p : Z) : loaded_elf := mkLoaded p [] [] None [] [] 0.

(** The address a dependency stands for. *)
Definition target (d : dependency) : Z := match d with owned e => self e | shared p => p end.

(** ** Iteration over dependencies *)

(** [owned_dependencies]: the increment skips pointers, [begin] does not; a pointer
    read as an image is undefined. *)
Section owned.
Context {A : Type} (f : A -> loaded_elf -> res A).

Fixpoint owned_next (acc : A) (l : list dependency) : res A :=
  match l with
  | [] => Ok acc
  | shared _ :: l' => owned_next acc l'
  | owned e :: l' => match f acc e with Ok acc' => owned_next acc' l' | Err x => Err x end
  end.
Definition owned_dependencies (acc : A) (l : list dependency) : res A :=
  match l with
  | shared _ :: _ => Err Fault
  | _ => owned_next acc l
  end.
End owned.

(** [is_shared_object_prepared] reads every dependency as an image. *)
Fixpoint is_shared_object_prepared (name : bytes) (e : loaded_elf) : res (option Z) :=
  match e with
  | mkLoaded p fn _ _ _ deps _ =>
      if sv_eq fn name then Ok (Some p)
      else
        (fix search (l : list dependency) : res (option Z) :=
           match l with
           | [] => Ok None
           | shared _ :: _ => Err Fault
           | owned d :: l' =>
               match is_shared_object_prepared name d with
               | Ok None => search l'
               | r => r
               end
           end) deps
  end.

Fixpoint depth (e : loaded_elf) : res nat :=
  match e with
  | mkLoaded _ _ _ _ _ deps _ =>
      match owned_dependencies (fun acc d => match depth d with Ok n => Ok (acc `max` n)%nat | Err x => Err x end) 0%nat deps with
      | Ok n => Ok (n + 1)%nat
      | Err x => Err x
      end
  end.

Fixpoint count (e : loaded_elf) : res nat :=
  match e with
  | mkLoaded _ _ _ _ _ deps _ =>
      owned_dependencies (fun acc d => match count d with Ok n => Ok (acc + n)%nat | Err x => Err x end) 1%nat deps
  end.

(** ** The order of initialisation *)

(** The array and how many of its elements, at the front, are not filled yet. *)
Definition order_state : Type := list Z * nat.

(** [init_order_array[--init_order_remaining] = p] *)
Definition put_front (p : Z) (s : order_state) : res order_state :=
  match s with
  | (_, O) => Err Fault
  | (arr, S n) => if (n <? length arr)%nat then Ok (<[n := p]> arr, n) else Err Fault
  end.

(** One dependency: a new one is put in front, a known one moved there. *)
Definition place (fuel : nat) (p : Z) (s : order_state) : res order_state :=
  let '(arr, remaining) := s in
  let it := (remaining + std_find (drop remaining arr) p)%nat in
  if (it =? length arr)%nat then put_front p s
  else match rotate fuel remaining it (it + 1) arr with
       | Ok arr' => Ok (arr', remaining)
       | Err x => Err x
       end.
Fixpoint place_all (fuel : nat) (l : list dependency) (s : order_state) : res order_state :=
  match l with
  | [] => Ok s
  | d :: l' => match place fuel (target d) s with Ok s' => place_all fuel l' s' | Err x => Err x end
  end.

Fixpoint compute_init_order_at_depth (fuel depth : nat) (e : loaded_elf) (s : order_state) : res order_state :=
  match depth with
  | O => place_all fuel (dependencies e) s
  | S n => owned_dependencies (fun s' d => compute_init_order_at_depth fuel n d s') s (dependencies e)
  end.

(** The loop over the depths [i], [i + 1], ... of which [n] are left. *)
Fixpoint order_depths (fuel n i : nat) (e : loaded_elf) (s : order_state) : res order_state :=
  match n with
  | O => Ok s
  | S n' =>
      match compute_init_order_at_depth fuel i e s with
      | Ok s' => order_depths fuel n' (S i) e s'
      | Err x => Err x
      end
  end.

(** [compute_init_order(depth)] on the array [arr] it allocated, whose elements
    are not initialised. *)
Definition fill_init_order (fuel depth : nat) (e : loaded_elf) (arr : list Z) : res (list Z) :=
  match put_front (self e) (arr, length arr) with
  | Err x => Err x
  | Ok s =>
      match order_depths fuel depth 0 e s with
      | Err x => Err x
      | Ok (arr', remaining) =>
          if negb (remaining =? 0)%nat then Err (Panic "load_all did not fill the entire init order array!") else Ok arr'
      end
  end.

(** ** Initialisers *)

Definition get_elf (e : loaded_elf) : res elf_image := match elf e with Some x => Ok x | None => Err Fault end.

(** [preinit_count], [init_count] and [fini_count] differ in the table [get]. *)
Fixpoint table_count (get : elf_image -> option function_table_descriptor) (e : loaded_elf) : res nat :=
  match e with
  | mkLoaded _ _ _ x _ deps _ =>
      match x with
      | None => Err Fault
      | Some x =>
          owned_dependencies (fun acc d => match table_count get d with Ok n => Ok (acc + n)%nat | Err x => Err x end)
            (if decide (is_Some (get x)) then 1 else 0)%nat deps
      end
  end.

(** All images below and including [e]. *)
Fixpoint images (e : loaded_elf) : list loaded_elf :=
  match e with
  | mkLoaded _ _ _ _ _ deps _ =>
      e :: (fix below (l : list dependency) : list loaded_elf :=
              match l with
              | [] => []
              | shared _ :: l' => below l'
              | owned d :: l' => images d ++ below l'
              end) deps
  end.

(** The image at an address. *)
Definition resolve (root : loaded_elf) (p : Z) : res loaded_elf :=
  match List.find (fun e => self e =? p) (images root) with Some e => Ok e | None => Err Fault end.

(** The range of one table: [elf_base + offset], [elf_base + offset + byte_size]. *)
Definition table_range (get : elf_image -> option function_table_descriptor) (e : loaded_elf) : res (option (Z * Z)) :=
  match get_elf e with
  | Err x => Err x
  | Ok x =>
      Ok ((fun t => (u64 (elf_base e + ft_offset t), u64 (u64 (elf_base e + ft_offset t) + ft_byte_size t))) <$> get x)
  end.

(** [visit_all_preinits] and [visit_all_inits]; [visit_all_finis] goes through
    the array from its end. *)
Section visit.
Context {W : Type} (root : loaded_elf) (vis : Z -> Z -> M W unit).
Fixpoint visit_tables (get : elf_image -> option function_table_descriptor) (order : list Z) : M W unit :=
  match order with
  | [] => ret tt
  | p :: order' =>
      match resolve root p with
      | Err x => fail x
      | Ok e =>
          match table_range get e with
          | Err x => fail x
          | Ok None => ret tt
          | Ok (Some (b, l)) => vis b l
          end
      end ;;
      visit_tables get order'
  end.
Definition visit_all_preinits (order : list Z) : M W unit := visit_tables _preinit_desc order.
Definition visit_all_inits (order : list Z) : M W unit := visit_tables _init_desc order.
Definition visit_all_finis (order : list Z) : M W unit := visit_tables _fini_desc (reverse order).
End visit.

(** ** Symbols *)

(** The loop over the symbols of one image. *)
Fixpoint find_symbol (fuel : nat) (name : bytes) (it last : symbol_iterator) : M bytes (option Z) :=
  match fuel with
  | O => fail NoFuel
  | S n =>
      if decide (it = last) then ret None
      else
        match symbol_deref it with
        | None => fail Fault
        | Some s =>
            let* nm := wrapper_name s in
            let* d := if sv_eq nm name then is_defined s else ret false in
            if (d : bool) then let* v := wrapper_value s in ret (Some v)
            else find_symbol n name (symbol_next it) last
        end
  end.
Definition symbol_definition (fuel : nat) (name : bytes) (e : loaded_elf) : res (option Z) :=
  match get_elf e with
  | Err x => Err x
  | Ok x =>
      match find_symbol fuel name (symbols_begin (image_symbols x)) (symbols_end (image_symbols x)) (image e) with
      | Ok (r, _) => Ok ((fun v => u64 (elf_base e + v)) <$> r)
      | Err y => Err y
      end
  end.

(** [all_dependencies]: pointers are followed. *)
Section symbols.
Context (fuel : nat) (root : loaded_elf) (name : bytes).

Definition follow (d : dependency) : res loaded_elf :=
  match d with owned e => Ok e | shared p => resolve root p end.
Fixpoint first_of (f : loaded_elf -> res (option Z)) (l : list dependency) : res (option Z) :=
  match l with
  | [] => Ok None
  | d :: l' =>
      match follow d with
      | Err x => Err x
      | Ok e => match f e with Ok None => first_of f l' | r => r end
      end
  end.
Fixpoint find_symbol_definition_at_depth (depth : nat) (e : loaded_elf) : res (option Z) :=
  match depth with
  | O => symbol_definition fuel name e
  | S n => first_of (find_symbol_definition_at_depth n) (dependencies e)
  end.
(** The loop over the depths [i], [i + 1], ... of which [n] are left. *)
Fixpoint find_depths (n i : nat) (e : loaded_elf) : res (option Z) :=
  match n with
  | O => Ok None
  | S n' => match find_symbol_definition_at_depth i e with Ok None => find_depths n' (S i) e | r => r end
  end.
Definition find_symbol_definition (depth : nat) (e : loaded_elf) : res (option Z) := find_depths depth 0 e.
End symbols.

(** ** System calls and the state of the loader *)

(** The generated stubs; a token the call returns comes with the result. *)
Class Syscalls (W : Type) : Type := {
  rose_vmo_create : Z -> Z -> M W (result * Z);
  rose_mapping_create : Z -> Z -> Z -> Z -> M W (result * Z);
  rose_token_release : Z -> M W result;
  rose_vas_create : Z -> M W (result * Z * (Z * Z));
  rose_process_create : Z -> Z -> M W (result * Z);
  rose_process_start : Z -> Z -> Z -> Z -> M W result;
  rose_mailbox_create : M W (result * Z * Z);
  rose_mailbox_write : Z -> mailbox_message -> M W result;
  rose_mailbox_read : Z -> Z -> M W (result * mailbox_message)
}.

#[global] Instance result_eq_dec : EqDecision result.
Proof. solve_decision. Defined.

Record boot (W : Type) : Type := mkBoot { world : W; top_of_image : Z }.
Arguments mkBoot {W} _ _.
Arguments world {W} _.
Arguments top_of_image {W} _.

(** [bootinit::facts], with the bytes of the vdso and the archive, and what memory
    that was not written to holds. *)
Record facts : Type := mkFacts {
  kernel_caps_token : Z;
  self_vas_token : Z;
  vdso : bytes;
  initrd_data : bytes;
  initrd : cpio;
  uninitialised : Z -> Z;
  sizeof_segment_mapping : Z;
  sizeof_dependency : Z
}.

Section loader.
Context {W : Type} {SC : Syscalls W} (F : facts).
Abbreviation BM := (M (boot W)).

Definition sys {A} (m : M W A) : BM A := fun s =>
  match m (world s) with Ok (a, w) => Ok (a, mkBoot w (top_of_image s)) | Err e => Err e end.
Definition lift {A} (r : res A) : BM A := match r with Ok a => ret a | Err e => fail e end.
Definition in_image {A} (data : bytes) (m : M bytes A) : BM A :=
  match m data with Ok (a, _) => ret a | Err e => fail e end.
Definition expect_ok (r : result) (msg : string) : BM unit := if decide (r = ok) then ret tt else panic msg.

(** [allocate_array_result] *)
Record allocated : Type := mkAllocated { ptr : Z; arr_mapping_token : Z; arr_vmo_token : Z }.
(** [allocate_array] of [size] bytes. *)
Definition allocate_array (size : Z) : BM allocated :=
  let* (r, vmo_token) := sys (rose_vmo_create size 0) in
  expect_ok r "failed to create a VMO!" ;;
  let* top := gets top_of_image in
  let* (r, mapping_token) := sys (rose_mapping_create (self_vas_token F) vmo_token top 0) in
  expect_ok r "failed to map a VMO!" ;;
  let next := u64 (Z.land (u64 (u64 (top + size) + (4096 - 1))) (not64 (4096 - 1)) + 4096) in
  modify (fun s => mkBoot (world s) next) ;;
  ret (mkAllocated top mapping_token vmo_token).
(** The contents of a new array. *)
Definition contents_at (p : Z) (n : nat) : bytes := (fun i => uninitialised F (p + Z.of_nat i)) <$> seq 0 n.

(** ** Loading *)

(** The number of LOAD segments. *)
Fixpoint count_load_segments (fuel : nat) (it last : program_header_iterator) (n : Z) : M bytes Z :=
  match fuel with
  | O => fail NoFuel
  | S k =>
      if decide (it = last) then ret n
      else
        let* type := segment_type_of (program_header_deref it) in
        count_load_segments k (program_header_next it) last
          (match type with segment_types.load => u64 (n + 1) | _ => n end)
  end.

(** [memcpy] of the file's part, [memset] of the rest of the segment. *)
Definition segment_contents (data : bytes) (offset file_size size : Z) (new : bytes) : res bytes :=
  match read_bytes data (u64 offset) file_size with
  | Err e => Err e
  | Ok bs =>
      match write_bytes new 0 bs with
      | Err e => Err e
      | Ok new' => write_bytes new' file_size (replicate (Z.to_nat (u64 (size - file_size))) 0)
      end
  end.

(** One LOAD segment: its mappings and the end of it in the process. *)
Definition load_segment (vas_token binary_base : Z) (data : bytes) (p : Z) : BM (segment_mapping * Z) :=
  let* segment_size := in_image data (segment_size p) in
  let* segment_base := in_image data (segment_virtual_address p) in
  let segment_end := u64 (segment_base + segment_size) in
  let page_mask := not64 (4096 - 1) in
  let segment_end_aligned := Z.land (u64 (segment_end + 4096 - 1)) page_mask in
  let segment_vmo_size := u64 (segment_end_aligned - segment_base) in
  let* a := allocate_array segment_vmo_size in
  let* file_size := in_image data (segment_file_size p) in
  let* offset := in_image data (segment_offset p) in
  let* bs := lift (segment_contents data offset file_size segment_size (contents_at (ptr a) (Z.to_nat segment_vmo_size))) in
  let* (r, target_mapping) := sys (rose_mapping_create vas_token (arr_vmo_token a) (u64 (binary_base + segment_base)) 0) in
  expect_ok r "failed to map segment #{}'s VMO in the target VAS: {}!" ;;
  ret (mkSegment bs (arr_vmo_token a) (arr_mapping_token a) target_mapping, u64 (binary_base + segment_end_aligned)).

(** The loop over the segments; [final_segment_end] has no value before the first. *)
Fixpoint load_segments (fuel : nat) (vas_token binary_base : Z) (data : bytes) (it last : program_header_iterator)
    (segs : list segment_mapping) (final_segment_end : option Z) : BM (list segment_mapping * option Z) :=
  match fuel with
  | O => fail NoFuel
  | S k =>
      if decide (it = last) then ret (segs, final_segment_end)
      else
        let* type := in_image data (segment_type_of (program_header_deref it)) in
        match type with
        | segment_types.load =>
            let* (seg, e) := load_segment vas_token binary_base data (program_header_deref it) in
            load_segments k vas_token binary_base data (program_header_next it) last (segs ++ [seg]) (Some e)
        | _ => load_segments k vas_token binary_base data (program_header_next it) last segs final_segment_end
        end
  end.

(** The number of NEEDED entries. *)
Fixpoint count_needed (fuel : nat) (it last : dynamic_entry_iterator) (n : Z) : M bytes Z :=
  match fuel with
  | O => fail NoFuel
  | S k =>
      if decide (it = last) then ret n
      else
        match dynamic_deref it with
        | None => fail Fault
        | Some d =>
            let* type := dynamic_type d in
            count_needed k (dynamic_next it) last (match type with dynamic_entry_types.needed => u64 (n + 1) | _ => n end)
        end
  end.

Definition set_dependency (i : nat) (d : dependency) (e : loaded_elf) : loaded_elf :=
  let 'mkLoaded p fn im x segs deps b := e in mkLoaded p fn im x segs (<[i := d]> deps) b.

(** The loop over the dependencies: [e] is the image so far, [root] the image the
    loader began with if that is another one, [load] the recursive call. *)
Section dependencies.
Context (load : bytes -> Z -> loaded_elf -> Z -> BM (loaded_elf * Z)).
Fixpoint load_dependencies (fuel : nat) (data : bytes) (it last : dynamic_entry_iterator) (slots : Z) (i : nat)
    (root : option loaded_elf) (binary_base : Z) (e : loaded_elf) : BM (loaded_elf * Z) :=
  match fuel with
  | O => fail NoFuel
  | S k =>
      if decide (it = last) then ret (e, binary_base)
      else
        let* d := lift (match dynamic_deref it with Some d => Ok d | None => Err Fault end) in
        let* type := in_image data (dynamic_type d) in
        match type with
        | dynamic_entry_types.needed =>
            let* name := in_image data (needed_name d) in
            let* found := lift (is_shared_object_prepared name (default e root)) in
            match found with
            | Some p =>
                load_dependencies k data (dynamic_next it) last slots (S i) root binary_base (set_dependency i (shared p) e)
            | None =>
                let* (x, binary_base') := load name (u64 (slots + Z.of_nat i * sizeof_dependency F)) (default e root) binary_base in
                load_dependencies k data (dynamic_next it) last slots (S i) root binary_base' (set_dependency i (owned x) e)
            end
        | _ => load_dependencies k data (dynamic_next it) last slots i root binary_base e
        end
  end.
End dependencies.

Definition libvdso : bytes := text "libvdso.so".

Fixpoint load_elf_with_dependencies (fuel : nat) (vdso_preload vas_token : Z) (root : option loaded_elf)
    (name : bytes) (p binary_base : Z) : BM (loaded_elf * Z) :=
  match fuel with
  | O => fail NoFuel
  | S n =>
      let* im := if sv_eq name libvdso then ret (Some (vdso F)) else lift (cpio_lookup (initrd_data F) (initrd F) name) in
      match im with
      | None => panic "{} not found in the initrd image!"
      | Some data =>
          let* parsed := lift (try_parse data) in
          match parsed_image parsed with
          | None => panic "failed to parse ELF image: {}, offset: {:#018x}"
          | Some x =>
              if sv_eq name libvdso then ret (mkLoaded p name data (Some x) [] [] vdso_preload, binary_base)
              else
                let ph := image_program_headers x in
                let steps := parse_fuel data in
                let* load_count := in_image data (count_load_segments steps (program_headers_begin ph) (program_headers_end ph) 0) in
                let* _ := allocate_array (u64 (sizeof_segment_mapping F * load_count)) in
                let* (segs, final_segment_end) :=
                  load_segments steps vas_token binary_base data (program_headers_begin ph) (program_headers_end ph) [] None in
                match final_segment_end with
                | None => fail Fault
                | Some final =>
                    let binary_base' := u64 (final + 4096) in
                    let de := image_dynamic_entries x in
                    let* dependency_count := in_image data (count_needed steps (dynamic_entries_begin de) (dynamic_entries_end de) 0) in
                    if dependency_count =? 0 then ret (mkLoaded p name data (Some x) segs [] binary_base, binary_base')
                    else
                      let* a := allocate_array (u64 (sizeof_dependency F * dependency_count)) in
                      let slot i := u64 (ptr a + Z.of_nat i * sizeof_dependency F) in
                      let empty := (fun i => owned (no_image (slot i))) <$> seq 0 (Z.to_nat dependency_count) in
                      load_dependencies
                        (fun name' p' root' base' => load_elf_with_dependencies n vdso_preload vas_token (Some root') name' p' base')
                        steps data (dynamic_entries_begin de) (dynamic_entries_end de) (ptr a) 0 root binary_base'
                        (mkLoaded p name data (Some x) segs empty binary_base)
                end
          end
      end
  end.

(** ** Relocations *)

(** The LOAD segment an offset is in: its index and its address. *)
Fixpoint find_load_segment (fuel : nat) (off : Z) (it last : program_header_iterator) (index : nat) : M bytes (option (nat * Z)) :=
  match fuel with
  | O => fail NoFuel
  | S k =>
      if decide (it = last) then ret None
      else
        let p := program_header_deref it in
        let* type := segment_type_of p in
        match type with
        | segment_types.load =>
            let* vaddr := segment_virtual_address p in
            let* size := segment_size p in
            if (vaddr <=? off) && (off <? u64 (vaddr + size)) then ret (Some (index, vaddr))
            else find_load_segment k off (program_header_next it) last (S index)
        | _ => find_load_segment k off (program_header_next it) last index
        end
  end.

Definition with_storage (bs : bytes) (m : segment_mapping) : segment_mapping :=
  mkSegment bs (storage_vmo_token m) (storage_mapping_token m) (target_mapping_token m).

(** [reloc_visitor] on one relocation of the image [e], whose segments are [segs]. *)
Definition apply_relocation (fuel : nat) (root : loaded_elf) (depth : nat) (e : loaded_elf) (x : elf_image)
    (r : relocation) (segs : list segment_mapping) : res (list segment_mapping) :=
  let data := image e in
  let ph := image_program_headers x in
  let m : M bytes (list segment_mapping) :=
    let* needs := needs_symbol r in
    let* symbol_value :=
      (if (needs : bool) then
         let* name := symbol_name r in
         match find_symbol_definition fuel root name depth root with
         | Ok (Some v) => ret v
         | Ok None => panic "failed to resolve symbol '{}' in {}!"
         | Err y => fail y
         end
       else ret 0) in
    let* off := reloc_offset r in
    let* found := find_load_segment (parse_fuel data) off (program_headers_begin ph) (program_headers_end ph) 0 in
    match found with
    | None => panic "could not find a load segment corresponding to a relocation at {:#018x}"
    | Some (i, vbase) =>
        match segs !! i with
        | None => fail Fault
        | Some seg =>
            let* (_, bs) := calculate_and_write r symbol_value (elf_base e) vbase (storage seg) in
            ret (<[i := with_storage bs seg]> segs)
        end
    end in
  match m data with Ok (segs', _) => Ok segs' | Err y => Err y end.

(** The loop over the relocations of an image. *)
Fixpoint apply_relocations (fuel : nat) (root : loaded_elf) (depth : nat) (e : loaded_elf) (x : elf_image) (n : nat)
    (it last : relocation_iterator) (segs : list segment_mapping) : res (list segment_mapping) :=
  match n with
  | O => Err NoFuel
  | S k =>
      if decide (it = last) then Ok segs
      else match apply_relocation fuel root depth e x (relocation_deref it) segs with
           | Ok segs' => apply_relocations fuel root depth e x k (relocation_next it) last segs'
           | Err y => Err y
           end
  end.

(** [visit_all_relocations] with that visitor, on the image and the ones it owns;
    a pointer in the first place is read as an image. *)
Fixpoint visit_all_relocations (fuel : nat) (root : loaded_elf) (depth : nat) (e : loaded_elf) : res loaded_elf :=
  match e with
  | mkLoaded p fn im x segs deps base =>
      match x with
      | None => Err Fault
      | Some x' =>
          let rs := image_relocations x' in
          match apply_relocations fuel root depth e x' fuel (relocations_begin rs) (relocations_end rs) segs with
          | Err y => Err y
          | Ok segs' =>
              match deps with
              | shared _ :: _ => Err Fault
              | _ =>
                  match (fix below (l : list dependency) : res (list dependency) :=
                           match l with
                           | [] => Ok []
                           | shared q :: l' => match below l' with Ok l'' => Ok (shared q :: l'') | Err y => Err y end
                           | owned d :: l' =>
                               match visit_all_relocations fuel root depth d with
                               | Err y => Err y
                               | Ok d' => match below l' with Ok l'' => Ok (owned d' :: l'') | Err y => Err y end
                               end
                           end) deps with
                  | Ok deps' => Ok (mkLoaded p fn im x segs' deps' base)
                  | Err y => Err y
                  end
              end
          end
      end
  end.

(** ** Initialisation of the process *)

Definition user_message (d0 d1 : Z) : mailbox_message := mkMessage type_user d0 d1.
Definition handle_message (token : Z) : mailbox_message := mkMessage type_handle_token token 0.

Definition send (mailbox : Z) (m : mailbox_message) (msg : string) : BM unit :=
  let* r := sys (rose_mailbox_write mailbox m) in expect_ok r msg.

(** [compute_init_order()] for an image whose order was not computed. *)
Definition compute_init_order (fuel : nat) (e : loaded_elf) : BM (list Z) :=
  let* d := lift (depth e) in
  let* image_count := lift (count e) in
  let* a := allocate_array (u64 (8 * Z.of_nat image_count)) in
  lift (fill_init_order fuel d e (contents_at (ptr a) image_count)).

Definition send_runtime_initialization (fuel : nat) (e : loaded_elf) (protocol_mailbox : Z) : BM unit :=
  let* order := compute_init_order fuel e in
  let* (res, runtime_mailbox) := sys rose_mailbox_create in
  let (r, runtime_mailbox_read) := (res : result * Z) in
  expect_ok r "failed to create a runtime init mailbox!" ;;
  let visitor b l := send runtime_mailbox (user_message b l) "failed to send a message on the runtime init mailbox!" in
  let* preinits := lift (table_count _preinit_desc e) in
  let* inits := lift (table_count _init_desc e) in
  send runtime_mailbox (user_message (Z.of_nat (preinits + inits)) 0) "failed to send a message on the runtime init mailbox!" ;;
  visit_all_preinits e visitor order ;;
  visit_all_inits e visitor order ;;
  let* finis := lift (table_count _fini_desc e) in
  send runtime_mailbox (user_message (Z.of_nat finis) 0) "failed to send a message on the runtime init mailbox!" ;;
  visit_all_finis e visitor order ;;
  send protocol_mailbox (handle_message runtime_mailbox_read) "failed to send a handle to the runtime init mailbox!" ;;
  let* _ := sys (rose_token_release runtime_mailbox) in
  ret tt.

(** [create_process_result] *)
Record create_process_result : Type := mkCreated { process_token : Z; vas_token : Z; protocol_mailbox_token : Z }.

(** [address] is where the local variable of the root image is. *)
Definition create_process (fuel : nat) (address : Z) (name : bytes) : BM create_process_result :=
  let* (res, vdso_info) := sys (rose_vas_create (kernel_caps_token F)) in
  let (r, vas) := (res : result * Z) in
  expect_ok r "failed to create a new virtual address space!" ;;
  let binary_base_c := 0x400000 in
  let* (loaded, _) := load_elf_with_dependencies fuel (fst (vdso_info : Z * Z)) vas None name address binary_base_c in
  let* d := lift (depth loaded) in
  let* loaded := lift (visit_all_relocations fuel loaded d loaded) in
  let* (r, process) := sys (rose_process_create (kernel_caps_token F) vas) in
  expect_ok r "failed to create a process!" ;;
  let* (r, stack_token) := sys (rose_vmo_create (31 * 4096) 0) in
  expect_ok r "failed to create a stack VMO!" ;;
  let top_of_stack := 0x80000000 in
  let* (r, stack_mapping) := sys (rose_mapping_create vas stack_token (top_of_stack - 31 * 4096) 0) in
  expect_ok r "failed to map a stack VMO!" ;;
  let* _ := sys (rose_token_release stack_token) in
  let* _ := sys (rose_token_release stack_mapping) in
  let* (res, protocol_mailbox) := sys rose_mailbox_create in
  let (r, read_endpoint) := (res : result * Z) in
  expect_ok r "failed to create a protocol mailbox!" ;;
  send_runtime_initialization fuel loaded protocol_mailbox ;;
  let* x := lift (get_elf loaded) in
  let* r := sys (rose_process_start process (u64 (binary_base_c + get_entry_point x)) top_of_stack read_endpoint) in
  expect_ok r "failed to start the process!" ;;
  ret (mkCreated process vas protocol_mailbox).
End loader.

(** ** The other side: libraries/rosert/src/init.cpp *)

Section rosert.
Context {W : Type} {SC : Syscalls W} (call : Z -> M W unit).

(** The panic of the runtime is a write through the null pointer. *)
Definition read_user_message (mailbox timeout : Z) : M W (Z * Z) :=
  let* (r, m) := rose_mailbox_read mailbox timeout in
  if decide (r = ok) then
    if m_type m =? type_user then ret (data0 m, data1 m) else fail Fault
  else fail Fault.

(** The constructors of one table; [call] reads the pointer there and calls it. *)
Fixpoint run_table (fuel : nat) (ctor_i last : Z) : M W unit :=
  match fuel with
  | O => fail NoFuel
  | S n => if ctor_i <? last then call ctor_i ;; run_table n (u64 (ctor_i + 8)) last else ret tt
  end.
Definition table_fuel (begin last : Z) : nat := S (Z.to_nat ((last - begin + 7) / 8)).
Fixpoint run_tables (init_count : nat) (mailbox : Z) : M W unit :=
  match init_count with
  | O => ret tt
  | S n =>
      let* (begin, last) := read_user_message mailbox 0 in
      run_table (table_fuel begin last) begin last ;;
      run_tables n mailbox
  end.
Definition rosert_init (mailbox : Z) : M W unit :=
  let* (init_count, _) := read_user_message mailbox 0 in
  run_tables (Z.to_nat init_count) mailbox.
End rosert.
