(* ===== verification/LoaderTheorems.v ===== *)
(** * The tree of loaded images: initialisation order and symbol search

    Level by level: [level i e] are the images owned at depth [i].  The order of
    initialisation is the reverse of the levels, and a symbol is searched level by
    level. *)
From S2P Require Import Prelude Text Bytes ElfTypes Elf Algorithm Loader.

(** ** Trees *)

Definition child (d : dependency) : option loaded_elf := match d with owned e => Some e | shared _ => None end.
Definition children (e : loaded_elf) : list loaded_elf := omap child (dependencies e).
Definition is_owned (d : dependency) : Prop := match d with owned _ => True | shared _ => False end.
#[global] Instance is_owned_dec d : Decision (is_owned d).
Proof. destruct d; apply _. Defined.

(** No image points to another one's dependency. *)
Definition pure_tree (e : loaded_elf) : Prop := Forall (fun x => Forall is_owned (dependencies x)) (images e).
#[global] Instance pure_tree_dec e : Decision (pure_tree e) := _.

Lemma loaded_elf_induction (P : loaded_elf -> Prop) :
  (forall e, Forall P (children e) -> P e) -> forall e, P e.
Proof.
  intros H. fix IH 1. intros [p fn im x segs deps b]. apply H. unfold children. cbn [dependencies].
  induction deps as [|[d|q] deps IHd]; cbn [omap child]; [constructor | constructor; [apply IH|exact IHd] | exact IHd].
Qed.

Lemma images_eq e : images e = e :: (children e ≫= images).
Proof.
  destruct e as [p fn im x segs deps b]. cbn [images children dependencies]. f_equal. unfold children. cbn [dependencies].
  induction deps as [|[d|q] deps IH]; cbn [omap child mbind list_bind]; [done | by rewrite IH | exact IH].
Qed.
Lemma images_self e : e ∈ images e.
Proof. rewrite images_eq. by left. Qed.
Lemma images_child e c x : c ∈ children e -> x ∈ images c -> x ∈ images e.
Proof. intros Hc Hx. rewrite images_eq. right. apply list_elem_of_bind. eauto. Qed.
Lemma pure_tree_eq e : pure_tree e <-> Forall is_owned (dependencies e) /\ Forall pure_tree (children e).
Proof.
  unfold pure_tree at 1. rewrite images_eq, Forall_cons. apply and_iff_compat_l.
  induction (children e) as [|c cs IH]; cbn; [by split; constructor|]. rewrite Forall_app, Forall_cons, IH. done.
Qed.
Lemma owned_all deps : Forall is_owned deps -> target <$> deps = self <$> omap child deps.
Proof. induction 1 as [|[d|q] deps H _ IH]; cbn; [done | by rewrite IH | done]. Qed.

(** Loops over the owned dependencies are loops over the children. *)
Fixpoint fold_res {A B} (f : A -> B -> res A) (acc : A) (l : list B) : res A :=
  match l with
  | [] => Ok acc
  | x :: l' => match f acc x with Ok acc' => fold_res f acc' l' | Err e => Err e end
  end.
Lemma fold_res_app {A B} (f : A -> B -> res A) acc l1 l2 :
  fold_res f acc (l1 ++ l2) = match fold_res f acc l1 with Ok a => fold_res f a l2 | Err e => Err e end.
Proof. revert acc. induction l1 as [|x l1 IH]; intros acc; cbn; [done|]. by destruct (f acc x). Qed.

Lemma owned_next_eq {A} (f : A -> loaded_elf -> res A) acc l : owned_next f acc l = fold_res f acc (omap child l).
Proof. revert acc. induction l as [|[d|q] l IH]; intros acc; cbn; [done | by destruct (f acc d) | apply IH]. Qed.
Lemma owned_eq {A} (f : A -> loaded_elf -> res A) acc e :
  Forall is_owned (dependencies e) -> owned_dependencies f acc (dependencies e) = fold_res f acc (children e).
Proof.
  intros H. unfold children. rewrite <- owned_next_eq. destruct (dependencies e) as [|[d|q] l]; [done..|]. by apply Forall_cons in H as [? _].
Qed.
Lemma owned_Ok {A} (f : A -> loaded_elf -> res A) acc e r :
  owned_dependencies f acc (dependencies e) = Ok r -> fold_res f acc (children e) = Ok r.
Proof. unfold children. rewrite <- owned_next_eq. by destruct (dependencies e) as [|[d|q] l]. Qed.

(** ** Levels *)

Fixpoint level (i : nat) (e : loaded_elf) : list loaded_elf :=
  match i with O => [e] | S n => children e ≫= level n end.
(** The levels [i], ..., [i + n - 1]. *)
Definition levels (i n : nat) (e : loaded_elf) : list loaded_elf := seq i n ≫= (fun j => level j e).

Fixpoint tree_depth (e : loaded_elf) : nat :=
  match e with
  | mkLoaded _ _ _ _ _ deps _ =>
      S ((fix deepest (l : list dependency) : nat :=
            match l with [] => 0 | shared _ :: l' => deepest l' | owned d :: l' => tree_depth d `max` deepest l' end)%nat deps)
  end.
Lemma tree_depth_eq e : tree_depth e = S (foldr (fun c n => tree_depth c `max` n)%nat 0%nat (children e)).
Proof.
  destruct e as [p fn im x segs deps b]. cbn [tree_depth children dependencies]. f_equal. unfold children. cbn [dependencies].
  induction deps as [|[d|q] deps IH]; cbn [omap child foldr]; [done | by rewrite IH | exact IH].
Qed.
Lemma deepest_child e c : c ∈ children e -> (tree_depth c < tree_depth e)%nat.
Proof.
  rewrite (tree_depth_eq e). induction (children e) as [|d cs IH]; [by intros ?%elem_of_nil|]. cbn [foldr].
  intros [-> | H]%elem_of_cons; [lia|]. specialize (IH H). lia.
Qed.

Lemma fold_max (g : loaded_elf -> nat) cs acc :
  fold_res (fun acc d => Ok (acc `max` g d)%nat) acc cs = Ok (acc `max` foldr (fun c n => g c `max` n)%nat 0%nat cs)%nat.
Proof. revert acc. induction cs as [|c cs IH]; intros acc; cbn; [f_equal; lia|]. rewrite IH. f_equal. lia. Qed.
Lemma fold_res_ext {A B} (f g : A -> B -> res A) acc l :
  Forall (fun x => forall a, f a x = g a x) l -> fold_res f acc l = fold_res g acc l.
Proof. intros H. revert acc. induction H as [|x l Hx _ IH]; intros acc; cbn; [done|]. rewrite Hx. by destruct (g acc x). Qed.

Lemma depth_unfold e :
  depth e = match owned_dependencies (fun acc d => match depth d with Ok n => Ok (acc `max` n)%nat | Err x => Err x end) 0%nat (dependencies e) with
            | Ok n => Ok (n + 1)%nat
            | Err x => Err x
            end.
Proof. by destruct e. Qed.
Lemma count_unfold e :
  count e = owned_dependencies (fun acc d => match count d with Ok n => Ok (acc + n)%nat | Err x => Err x end) 1%nat (dependencies e).
Proof. by destruct e. Qed.

Lemma depth_pure e : pure_tree e -> depth e = Ok (tree_depth e).
Proof.
  induction e as [e IH] using loaded_elf_induction. intros [Ho Hc]%pure_tree_eq. rewrite depth_unfold, owned_eq by done.
  rewrite (fold_res_ext _ (fun acc d => Ok (acc `max` tree_depth d)%nat)).
  - rewrite fold_max, tree_depth_eq. f_equal. lia.
  - rewrite Forall_forall in *. intros x Hx a. by rewrite (IH x Hx (Hc x Hx)).
Qed.
Lemma count_pure e : pure_tree e -> count e = Ok (length (images e)).
Proof.
  induction e as [e IH] using loaded_elf_induction. intros [Ho Hc]%pure_tree_eq. rewrite count_unfold, owned_eq by done.
  rewrite images_eq. cbn [length].
  enough (forall acc, fold_res (fun acc d => match count d with Ok n => Ok (acc + n)%nat | Err x => Err x end) acc (children e) =
    Ok (acc + length (children e ≫= images))%nat) as H by apply H.
  induction (children e) as [|c cs IHc]; intros acc; cbn [fold_res mbind list_bind]; [f_equal; cbn; lia|].
  apply Forall_cons in IH as [IHx IH], Hc as [Hx Hc]. rewrite (IHx Hx), (IHc IH Hc), length_app. f_equal. lia.
Qed.

(** The depth is right whenever it is computed, also with shared images. *)
Lemma depth_Ok e n : depth e = Ok n -> n = tree_depth e.
Proof.
  revert n. induction e as [e IH] using loaded_elf_induction. intros n. rewrite depth_unfold.
  destruct (owned_dependencies _ _ _) as [m|] eqn:E; [|done]. intros [= <-]. apply owned_Ok in E. rewrite tree_depth_eq.
  enough (forall acc, fold_res (fun acc d => match depth d with Ok n => Ok (acc `max` n)%nat | Err x => Err x end) acc (children e) = Ok m ->
    m = (acc `max` foldr (fun c n => tree_depth c `max` n)%nat 0%nat (children e))%nat) as H by (rewrite (H _ E); lia).
  clear E. induction IH as [|c cs Hc _ IHc]; intros acc; cbn [fold_res foldr]; [intros [= <-]; lia|].
  destruct (depth c) as [k|]; [|done]. intros E. rewrite (IHc _ E), (Hc k eq_refl). lia.
Qed.

Lemma bind_app_perm {A B} (f g : A -> list B) l : l ≫= (fun y => f y ++ g y) ≡ₚ (l ≫= f) ++ (l ≫= g).
Proof. induction l as [|x l IH]; cbn; [done|]. rewrite IH. rewrite <- !(assoc_L (++)). f_equiv. rewrite !(assoc_L (++)). f_equiv. apply Permutation_app_comm. Qed.
Lemma bind_swap {A B C} (f : A -> B -> list C) l1 l2 : l1 ≫= (fun x => l2 ≫= f x) ≡ₚ l2 ≫= (fun y => l1 ≫= (fun x => f x y)).
Proof.
  induction l1 as [|x l1 IH]; cbn; [|by rewrite IH, bind_app_perm].
  induction l2 as [|y l2 IH]; cbn; done.
Qed.
Lemma bind_perm {A B} (f g : A -> list B) l : Forall (fun x => f x ≡ₚ g x) l -> l ≫= f ≡ₚ l ≫= g.
Proof. induction 1 as [|x l Hx _ IH]; cbn; [done|]. by rewrite Hx, IH. Qed.

Lemma levels_S n e : levels 0 (S n) e = e :: (seq 0 n ≫= (fun j => children e ≫= level j)).
Proof. unfold levels. cbn [seq mbind list_bind level app]. f_equal. rewrite <- seq_shift. induction (seq 0 n) as [|j l IH]; cbn; [done|]. by rewrite IH. Qed.
Lemma levels_app i n m e : levels i (n + m) e = levels i n e ++ levels (i + n) m e.
Proof. unfold levels. by rewrite seq_app, bind_app. Qed.

(** The levels have all images, each once. *)
Lemma images_levels e n : (tree_depth e <= n)%nat -> images e ≡ₚ levels 0 n e.
Proof.
  revert n. induction e as [e IH] using loaded_elf_induction. intros [|n] Hn; [rewrite tree_depth_eq in Hn; lia|].
  rewrite images_eq, levels_S. f_equiv. rewrite bind_swap. apply bind_perm.
  rewrite Forall_forall in *. intros c Hc. apply (IH c Hc). pose proof (deepest_child e c Hc). lia.
Qed.
Lemma level_beyond e i : (tree_depth e <= i)%nat -> level i e = [].
Proof.
  revert i. induction e as [e IH] using loaded_elf_induction. intros [|i] Hi; [rewrite tree_depth_eq in Hi; lia|]. cbn [level].
  assert (forall c, c ∈ children e -> level i c = []) as H.
  { intros c Hc. rewrite Forall_forall in IH. apply (IH c Hc). pose proof (deepest_child e c Hc). lia. }
  induction (children e) as [|c cs IHc]; [done|]. cbn. rewrite (H c) by (by left).
  apply Forall_cons in IH as [_ IH]. apply (IHc IH). intros d Hd. apply H. by right.
Qed.
Lemma images_level e x : x ∈ images e -> exists i, (i < tree_depth e)%nat /\ x ∈ level i e.
Proof.
  rewrite (images_levels e (tree_depth e)) by lia. unfold levels. intros (i & Hi & Hx)%list_elem_of_bind.
  apply elem_of_seq in Hx. exists i. split; [lia|done].
Qed.
Lemma level_step i e x y : x ∈ level i e -> y ∈ children x -> y ∈ level (S i) e.
Proof.
  revert e. induction i as [|i IH]; intros e; cbn [level].
  - intros ->%list_elem_of_singleton Hy. apply list_elem_of_bind. exists y. split; [by apply list_elem_of_singleton|done].
  - intros (c & Hx & Hc)%list_elem_of_bind Hy. apply list_elem_of_bind. exists c. split; [by apply (IH c)|done].
Qed.

(** ** The order of initialisation *)

(** The dependencies of a level are put in front one after the other. *)
Definition places (fuel : nat) (s : order_state) (l : list Z) : res order_state := fold_res (fun s p => place fuel p s) s l.

Lemma places_app fuel s l1 l2 :
  places fuel s (l1 ++ l2) = match places fuel s l1 with Ok s' => places fuel s' l2 | Err e => Err e end.
Proof. apply fold_res_app. Qed.

Lemma place_all_eq fuel deps s : place_all fuel deps s = places fuel s (target <$> deps).
Proof. revert s. induction deps as [|d deps IH]; intros s; cbn; [done|]. destruct (place fuel (target d) s); [apply IH|done]. Qed.
Lemma at_depth_places fuel i e s :
  pure_tree e -> compute_init_order_at_depth fuel i e s = places fuel s (self <$> level (S i) e).
Proof.
  revert e s. induction i as [|i IH]; intros e s [Ho Hc]%pure_tree_eq; cbn [compute_init_order_at_depth].
  - rewrite place_all_eq, owned_all by done. f_equal. cbn [level]. fold (children e).
    induction (children e) as [|c cs IHc]; [done|]. cbn in *. f_equal. apply IHc. by apply Forall_cons in Hc as [_ ?].
  - rewrite owned_eq by done. change (level (S (S i)) e) with (children e ≫= level (S i)). revert s. induction (children e) as [|c cs IHc]; intros s; [done|].
    apply Forall_cons in Hc as [Hx Hc]. cbn [fold_res]. rewrite bind_cons, fmap_app, places_app, (IH c s Hx).
    destruct (places _ _ _) as [s'|]; [|done]. apply (IHc Hc).
Qed.
Lemma order_depths_places fuel n i e s :
  pure_tree e -> order_depths fuel n i e s = places fuel s (self <$> levels (S i) n e).
Proof.
  intros H. revert i s. induction n as [|n IH]; intros i s; [done|]. cbn [order_depths].
  rewrite at_depth_places by done. unfold levels. cbn [seq]. rewrite bind_cons, fmap_app, places_app.
  destruct (places _ _ _) as [s'|]; [|done]. apply IH.
Qed.

Lemma put_front_new a x p t : put_front p (a ++ x :: t, S (length a)) = Ok (a ++ p :: t, length a).
Proof.
  unfold put_front. rewrite length_mid, length_app. rewrite (proj2 (Nat.ltb_lt _ _)) by lia. 
  rewrite insert_app_r_alt, Nat.sub_diag by lia. done.
Qed.
Lemma place_new fuel a x p t : p ∉ t -> place fuel p (a ++ x :: t, S (length a)) = Ok (a ++ p :: t, length a).
Proof.
  intros Hp. unfold place.
  replace (drop (S (length a)) (a ++ x :: t)) with t by (rewrite cons_middle, (assoc_L (++)), drop_app_length' by (rewrite length_app; cbn; lia); done).
  rewrite std_find_not_in by done. rewrite length_mid, length_app. rewrite (proj2 (Nat.eqb_eq _ _)) by lia. apply put_front_new.
Qed.
(** New addresses fill the array from the back. *)
Lemma places_new fuel l a t :
  NoDup (l ++ t) -> (length l <= length a)%nat ->
  exists a', length a' = (length a - length l)%nat /\ places fuel (a ++ t, length a) l = Ok (a' ++ reverse l ++ t, length a').
Proof.
  revert a t. induction l as [|p l IH]; intros a t Hd Hl.
  { exists a. split; [cbn; lia|done]. }
  cbn [length app] in *. apply NoDup_cons in Hd as [Hp Hd]. destruct a as [|x a _] using rev_ind; [cbn in Hl; lia|].
  rewrite length_app in *. cbn [length] in *. unfold places. cbn [fold_res]. rewrite <- (assoc_L (++)), Nat.add_1_r. cbn [app].
  rewrite place_new by set_solver. destruct (IH a (p :: t)) as (a' & E1 & E2); [|lia|].
  - rewrite <- Permutation_middle. by constructor.
  - exists a'. split; [lia|]. unfold places in E2. rewrite E2, reverse_cons, <- (assoc_L (++)). done.
Qed.

(** The array in the end: the levels from the deepest to the root. *)
Lemma fill_init_order_levels fuel e arr :
  pure_tree e -> NoDup (self <$> images e) -> length arr = length (images e) ->
  fill_init_order fuel (tree_depth e) e arr = Ok (reverse (self <$> levels 0 (tree_depth e) e)).
Proof.
  intros Hp Hd Hl. unfold fill_init_order.
  set (d := tree_depth e). assert (levels 0 (S d) e = levels 0 d e) as Elast.
  { rewrite <- Nat.add_1_r, levels_app. unfold levels at 2. cbn. rewrite (level_beyond e d) by done. by rewrite app_nil_r. }
  assert (levels 0 (S d) e = e :: levels 1 d e) as Efirst by (rewrite (levels_app 0 1 d); done).
  assert (images e ≡ₚ e :: levels 1 d e) as Ei by (rewrite <- Efirst, Elast; by apply images_levels).
  rewrite Ei in Hd, Hl. cbn [length fmap list_fmap] in Hl, Hd. destruct arr as [|x a _] using rev_ind; [done|].
  rewrite length_app in *. cbn [length] in *. rewrite Nat.add_1_r, put_front_new, order_depths_places by done.
  destruct (places_new fuel (self <$> levels 1 d e) a [self e]) as (a' & E1 & ->).
  { rewrite Permutation_app_comm. done. }
  { rewrite length_fmap. lia. }
  rewrite length_fmap in E1. assert (a' = []) as -> by (apply nil_length_inv; lia). cbn [length Nat.eqb negb app].
  by rewrite <- Elast, Efirst, fmap_cons, reverse_cons.
Qed.

(** Every image comes after its dependencies. *)
Lemma levels_dependencies_first e x y :
  x ∈ images e -> owned y ∈ dependencies x -> exists l1 l2 l3, reverse (levels 0 (tree_depth e) e) = l1 ++ y :: l2 ++ x :: l3.
Proof.
  intros Hx Hy. destruct (images_level e x Hx) as (i & Hi & Hxi).
  assert (y ∈ level (S i) e) as Hyi. { apply (level_step i e x y Hxi). unfold children. apply list_elem_of_omap. by exists (owned y). }
  assert (S i < tree_depth e)%nat as HSi.
  { destruct (decide (S i < tree_depth e)%nat) as [|Hn]; [done|]. rewrite level_beyond in Hyi by lia. by apply elem_of_nil in Hyi. }
  replace (tree_depth e) with (i + (1 + (1 + (tree_depth e - S (S i)))))%nat by lia.
  rewrite !levels_app. unfold levels at 2 3. cbn [seq mbind list_bind]. rewrite !app_nil_r, Nat.add_1_r, Nat.add_0_l.
  apply list_elem_of_split in Hxi as (a1 & a2 & E1), Hyi as (b1 & b2 & E2). rewrite E1, E2.
  generalize (levels 0 i e) (levels (S i + 1) (tree_depth e - S (S i)) e). intros before below.
  exists (reverse (b2 ++ below)), (reverse (a2 ++ b1)), (reverse (before ++ a1)).
  rewrite !reverse_app, !reverse_cons, <- !(assoc_L (++)). cbn [app]. done.
Qed.

(** C26: for a program whose shared objects are each needed by one image only, the
    order of initialisation is computed without a panic whatever the array held,
    contains every image once, and has every image after all its dependencies. *)
Theorem init_order_dependencies_first fuel e :
  pure_tree e -> NoDup (self <$> images e) ->
  exists d n order, depth e = Ok d /\ count e = Ok n /\
    (forall arr, length arr = n -> fill_init_order fuel d e arr = Ok order) /\
    order ≡ₚ self <$> images e /\
    forall x y, x ∈ images e -> owned y ∈ dependencies x -> exists l1 l2 l3, order = l1 ++ self y :: l2 ++ self x :: l3.
Proof.
  intros Hp Hd. exists (tree_depth e), (length (images e)), (reverse (self <$> levels 0 (tree_depth e) e)).
  split; [by apply depth_pure|]. split; [by apply count_pure|]. split; [intros arr; by apply fill_init_order_levels|]. split.
  { rewrite (reverse_Permutation (self <$> _)). apply fmap_Permutation. symmetry. by apply images_levels. }
  intros x y Hx Hy. destruct (levels_dependencies_first e x y Hx Hy) as (l1 & l2 & l3 & E).
  exists (self <$> l1), (self <$> l2), (self <$> l3). by rewrite <- fmap_reverse, E, fmap_app, fmap_cons, fmap_app, fmap_cons.
Qed.

(** ** Symbol search *)

Section search.
Context (fuel : nat) (root : loaded_elf) (name : bytes).

(** Every pointer below the root points below the root. *)
Definition closed : Prop :=
  Forall (fun x => Forall (fun d => match d with owned _ => True | shared p => p ∈ self <$> images root end) (dependencies x)) (images root).
(** The symbol tables of all images can be read. *)
Definition readable : Prop := Forall (fun x => exists r, symbol_definition fuel name x = Ok r) (images root).

Definition ok_or {A} (r : res (option A)) : option A := match r with Ok o => o | Err _ => None end.
(** What an image defines the name as. *)
Definition definition (x : loaded_elf) : option Z := ok_or (symbol_definition fuel name x).
Definition followed (d : dependency) : option loaded_elf := match follow root d with Ok x => Some x | Err _ => None end.
(** The images [i] dependencies away. *)
Fixpoint reached (i : nat) (e : loaded_elf) : list loaded_elf :=
  match i with O => [e] | S n => omap followed (dependencies e) ≫= reached n end.

Lemma resolve_in p : p ∈ self <$> images root -> exists x, resolve root p = Ok x /\ x ∈ images root /\ self x = p.
Proof using.
  intros (x & -> & Hx)%list_elem_of_fmap. unfold resolve.
  destruct (List.find _ _) as [y|] eqn:E.
  - apply find_some in E as [Hy E]. exists y. split; [done|]. split; [by apply list_elem_of_In|]. by apply Z.eqb_eq.
  - apply list_elem_of_In in Hx. pose proof (find_none _ _ E x Hx) as E'. cbn in E'. by rewrite Z.eqb_refl in E'.
Qed.
Lemma child_in x c : x ∈ images root -> c ∈ children x -> c ∈ images root.
Proof using.
  revert x c. induction root as [e IH] using loaded_elf_induction. intros x c Hx Hc. rewrite images_eq in Hx.
  apply elem_of_cons in Hx as [-> | (d & Hx & Hd)%list_elem_of_bind].
  - apply (images_child e c); [done|apply images_self].
  - apply (images_child e d); [done|]. rewrite Forall_forall in IH. by apply (IH d Hd x).
Qed.
Context (Hclosed : closed).
Lemma follow_in x d : x ∈ images root -> d ∈ dependencies x -> exists y, follow root d = Ok y /\ y ∈ images root.
Proof using Hclosed.
  intros Hx Hd. unfold closed in Hclosed. rewrite Forall_forall in Hclosed. specialize (Hclosed x Hx).
  rewrite Forall_forall in Hclosed. specialize (Hclosed d Hd). destruct d as [c|p]; cbn [follow].
  - exists c. split; [done|]. apply (child_in x c Hx). unfold children. apply list_elem_of_omap. by exists (owned c).
  - destruct (resolve_in p Hclosed) as (y & E & Hy & _). eauto.
Qed.

Context (Hread : readable).
Lemma definition_in x : x ∈ images root -> symbol_definition fuel name x = Ok (definition x).
Proof using Hread.
  intros Hx. unfold readable in Hread. rewrite Forall_forall in Hread. unfold definition. by destruct (Hread x Hx) as [r ->].
Qed.

Lemma at_depth_first i x :
  x ∈ images root ->
  find_symbol_definition_at_depth fuel root name i x = Ok (head (omap definition (reached i x))).
Proof using Hclosed Hread.
  revert x. induction i as [|i IH]; intros x Hx; cbn [find_symbol_definition_at_depth reached].
  { rewrite definition_in by done. cbn. by destruct (definition x). }
  assert (forall d, d ∈ dependencies x -> exists y, follow root d = Ok y /\ y ∈ images root) as Hf by (intros d; by apply follow_in).
  induction (dependencies x) as [|d deps IHd]; [done|]. cbn [first_of].
  destruct (Hf d) as (y & E & Hy); [by left|].
  assert (omap followed (d :: deps) = y :: omap followed deps) as -> by (cbn; unfold followed at 1; by rewrite E).
  rewrite E, (IH y Hy), bind_cons, omap_app. destruct (omap definition (reached i y)) as [|v vs]; cbn [head app]; [|done].
  apply IHd. intros d' Hd'. apply Hf. by right.
Qed.

(** The images the search looks at, in order. *)
Definition search_order (n : nat) : list loaded_elf := seq 0 n ≫= (fun i => reached i root).

Lemma find_depths_first n i :
  find_depths fuel root name n i root = Ok (head (omap definition (seq i n ≫= (fun j => reached j root)))).
Proof using Hclosed Hread.
  revert i. induction n as [|n IH]; intros i; [done|]. cbn [find_depths seq].
  rewrite at_depth_first by apply images_self. rewrite bind_cons, omap_app.
  destruct (omap definition (reached i root)) as [|v vs]; cbn [head app]; [apply IH|done].
Qed.

Lemma level_reached i x y : y ∈ level i x -> y ∈ reached i x.
Proof using.
  revert x. induction i as [|i IH]; intros x; cbn [level reached]; [done|].
  intros (c & Hy & Hc)%list_elem_of_bind. apply list_elem_of_bind. exists c. split; [by apply IH|].
  unfold children in Hc. apply list_elem_of_omap in Hc as (d & Hd & Ed). apply list_elem_of_omap. exists d. split; [done|].
  by destruct d; simplify_eq/=.
Qed.
End search.

Lemma head_search (f : loaded_elf -> option Z) (g : nat -> list loaded_elf) n i v :
  head (omap f (seq i n ≫= g)) = Some v ->
  exists j y, (i <= j)%nat /\ y ∈ g j /\ f y = Some v /\ forall k z, (i <= k < j)%nat -> z ∈ g k -> f z = None.
Proof.
  revert i. induction n as [|n IH]; intros i; [done|]. cbn [seq]. rewrite bind_cons, omap_app.
  destruct (omap f (g i)) as [|w ws] eqn:E; cbn [head app].
  - intros (j & y & Hj & Hy & Hv & Hz)%IH. exists j, y. repeat split; [lia|done..|].
    intros k z Hk Hin. destruct (decide (k = i)) as [-> |]; [|apply (Hz k z); [lia|done]].
    destruct (f z) as [w|] eqn:Ez; [|done]. assert (w ∈ omap f (g i)) as Hw by (apply list_elem_of_omap; eauto).
    rewrite E in Hw. by apply elem_of_nil in Hw.
  - intros [= ->]. assert (v ∈ omap f (g i)) as (y & Hy & Hv)%list_elem_of_omap by (rewrite E; by left).
    exists i, y. repeat split; [lia|done..|]. intros k z Hk. lia.
Qed.

(** The search for a symbol returns; what it finds is the definition in some
    image, the name having no definition in an image fewer dependencies away from
    the program, and it finds nothing only when no image of the program defines
    the name. *)
Theorem symbol_search_nearest fuel root name n :
  closed root -> readable fuel root name -> depth root = Ok n ->
  exists r, find_symbol_definition fuel root name n root = Ok r /\
    match r with
    | Some v => exists i y, y ∈ reached root i root /\ definition fuel name y = Some v /\
        forall j z, (j < i)%nat -> z ∈ reached root j root -> definition fuel name z = None
    | None => forall x, x ∈ images root -> definition fuel name x = None
    end.
Proof.
  intros Hc Hr ->%depth_Ok. unfold find_symbol_definition. rewrite find_depths_first by done. eexists. split; [done|].
  destruct (head _) as [v|] eqn:E.
  - apply head_search in E as (j & y & Hj & Hy & Hv & Hz). exists j, y. repeat split; [done..|]. intros k z Hk. apply Hz. lia.
  - intros x (i & Hi & Hx)%images_level. destruct (definition fuel name x) as [v|] eqn:Ev; [|done].
    apply head_None in E. assert (v ∈ omap (definition fuel name) (seq 0 (tree_depth root) ≫= (fun j => reached root j root))) as H.
    { apply list_elem_of_omap. exists x. split; [|done]. apply list_elem_of_bind. exists i. split; [by apply level_reached|].
      apply elem_of_seq. lia. }
    rewrite E in H. by apply elem_of_nil in H.
Qed.

(** ** Samples *)

(** An image with one symbol, [f], at [0x1000] if it is defined: the symbol table
    at 0, the names at 48. *)
Definition symbol_bytes (value : Z) : bytes :=
  replicate 24 0 ++ [1; 0; 0; 0; 0; 0; 0; 0; 0; value; 0; 0; 0; 0; 0; 0] ++ replicate 8 0 ++ [0; 102; 0].
Definition symbol_elf : elf_image :=
  mkImage (mkHeader [] 3 62 1 0 0 0 0 64 56 0 64 0 0) None 0 (Some 48) (rel_ptr None) 0 (Some 0) 2 None
    (Some (mkFunctionTable 0x100 16)) None.
Definition sample_image (p base value : Z) (deps : list dependency) : loaded_elf :=
  mkLoaded p [p] (symbol_bytes value) (Some symbol_elf) [] deps base.

(** The program 1 needs 2 and 3, and 2 needs 4. *)
Definition sample_tree : loaded_elf :=
  sample_image 1 0x10000 0 [owned (sample_image 2 0x20000 0 [owned (sample_image 4 0x40000 0x10 [])]);
                            owned (sample_image 3 0x30000 0x10 [])].

Lemma sample_tree_pure : pure_tree sample_tree.
Proof. apply (bool_decide_unpack _). vm_compute. exact I. Qed.
Lemma sample_tree_distinct : NoDup (self <$> images sample_tree).
Proof. apply (bool_decide_unpack _). vm_compute. exact I. Qed.

Lemma init_order_dependencies_first_witness :
  exists d n order, depth sample_tree = Ok d /\ count sample_tree = Ok n /\
    (forall arr, length arr = n -> fill_init_order 0 d sample_tree arr = Ok order) /\
    order ≡ₚ self <$> images sample_tree /\
    forall x y, x ∈ images sample_tree -> owned y ∈ dependencies x -> exists l1 l2 l3, order = l1 ++ self y :: l2 ++ self x :: l3.
Proof. apply (init_order_dependencies_first 0 sample_tree sample_tree_pure sample_tree_distinct). Defined.
Example sample_order : fill_init_order 0 3 sample_tree [7; 7; 7; 7] = Ok [4; 3; 2; 1].
Proof. vm_compute. reflexivity. Qed.

(** The program needs 2 and 3, and 3 needs 5 and 2: it points to 2, and 5 is in
    front when 2 is met again. *)
Definition sample_shared : loaded_elf :=
  sample_image 1 0x10000 0 [owned (sample_image 2 0x20000 0 []);
                            owned (sample_image 3 0x30000 0 [owned (sample_image 5 0x50000 0x10 []); shared 2])].

(** With an image two others need, the computation of the order does not end. *)
Example shared_order_never_ends fuel arr :
  length arr = 4%nat -> depth sample_shared = Ok 3%nat /\ count sample_shared = Ok 4%nat /\
  fill_init_order fuel 3 sample_shared arr = Err NoFuel.
Proof.
  intros H. split; [reflexivity|]. split; [reflexivity|]. destruct arr as [|a [|b [|c [|d [|]]]]]; try done. cbn -[rotate].
  by rewrite rotate_stuck by (cbn; lia).
Qed.
(** A pointer before all owned dependencies is read as if it were an image. *)
Example shared_first_faults : depth (sample_image 1 0 0 [shared 2]) = Err Fault.
Proof. reflexivity. Qed.

Lemma symbol_search_nearest_witness :
  exists r, find_symbol_definition 3 sample_shared [102] 3 sample_shared = Ok r /\
    match r with
    | Some v => exists i y, y ∈ reached sample_shared i sample_shared /\ definition 3 [102] y = Some v /\
        forall j z, (j < i)%nat -> z ∈ reached sample_shared j sample_shared -> definition 3 [102] z = None
    | None => forall x, x ∈ images sample_shared -> definition 3 [102] x = None
    end.
Proof.
  apply (symbol_search_nearest 3 sample_shared [102] 3); [| |reflexivity].
  - unfold closed. repeat constructor; cbn; set_solver.
  - unfold readable. repeat constructor; eexists; vm_compute; reflexivity.
Defined.
Example sample_found : find_symbol_definition 3 sample_shared [102] 3 sample_shared = Ok (Some 0x51000).
Proof. vm_compute. reflexivity. Qed.

(** ** Segments *)

(** A segment is loaded with the bytes of the file, then zeros up to its size in
    memory; what is left of its last page is not written. *)
Theorem segment_contents_loaded data offset file_size size new :
  is_u64 offset -> 0 <= file_size <= size -> size < 2 ^ 64 -> offset + file_size <= Z.of_nat (length data) ->
  size <= Z.of_nat (length new) ->
  exists file rest, segment_contents data offset file_size size new = Ok (file ++ replicate (Z.to_nat (size - file_size)) 0 ++ rest) /\
    file = take (Z.to_nat file_size) (drop (Z.to_nat offset) data) /\ Z.of_nat (length file) = file_size /\
    rest = drop (Z.to_nat size) new.
Proof.
  intros Ho Hf Hs Hd Hn. unfold segment_contents. rewrite !u64_id by (unfold is_u64 in *; lia).
  unfold read_bytes. rewrite !(proj2 (Z.leb_le _ _)) by (unfold is_u64 in *; lia). cbn [andb].
  set (file := take _ _). assert (length file = Z.to_nat file_size) as Hl.
  { unfold file. rewrite length_take, length_drop. unfold is_u64 in *. lia. }
  exists file, (drop (Z.to_nat size) new). split; [|split; [done|split; [lia|done]]].
  unfold write_bytes at 1. rewrite !(proj2 (Z.leb_le _ _)) by lia. cbn [andb Z.to_nat take app].
  unfold write_bytes. rewrite !length_app, length_drop, length_replicate, !(proj2 (Z.leb_le _ _)) by lia. cbn [andb].
  change (Z.to_nat 0) with 0%nat. rewrite !take_0, !app_nil_l, (take_app_length' file) by (symmetry; exact Hl). do 3 f_equal.
  rewrite drop_app_ge by lia. rewrite drop_drop. f_equal. lia.
Qed.
Lemma segment_contents_loaded_witness :
  exists file rest, segment_contents [1; 2; 3; 4] 1 2 3 [9; 9; 9; 9; 9] = Ok (file ++ replicate (Z.to_nat (3 - 2)) 0 ++ rest) /\
    file = take (Z.to_nat 2) (drop (Z.to_nat 1) [1; 2; 3; 4]) /\ Z.of_nat (length file) = 2 /\
    rest = drop (Z.to_nat 3) [9; 9; 9; 9; 9].
Proof. apply (segment_contents_loaded [1; 2; 3; 4] 1 2 3 [9; 9; 9; 9; 9]); unfold is_u64; cbn; lia. Defined.
