(* ===== verification/RuntimeInit.v ===== *)
(** * The initialisation protocol of a new process

    The loader sends the tables of initialisers of all images through a mailbox
    (kernel/bootinit/process.cpp, [send_runtime_initialization]); the runtime of
    the new process reads them and calls what they point to
    (libraries/rosert/src/init.cpp, [__init]).  Both sides are put together here,
    over any system calls with the laws of [RuntimeLaws]. *)
From S2P Require Import Prelude Ipc Text Bytes Cpio ElfTypes Elf Algorithm Loader LoaderTheorems.

(** ** What the two sides rely on *)

(** Tokens name endpoints of mailboxes; a mailbox is a queue.  Memory can be had,
    a mailbox can be created and is empty, writing appends, reading takes the
    first message; a constructor returns and leaves the mailboxes alone. *)
Class RuntimeLaws (W : Type) `{Syscalls W} (call : Z -> M W unit) : Type := {
  endpoint : W -> Z -> option Z;
  queue : W -> Z -> list mailbox_message;
  called : W -> list Z;
  same (w w' : W) : Prop := (forall t, endpoint w' t = endpoint w t) /\ (forall b, queue w' b = queue w b);
  vmo_create_ok : forall n w, exists t w', rose_vmo_create n 0 w = Ok ((ok, t), w') /\ same w w';
  mapping_create_ok : forall v o a w, exists t w', rose_mapping_create v o a 0 w = Ok ((ok, t), w') /\ same w w';
  mailbox_create_ok : forall w, exists rt wt b w', rose_mailbox_create w = Ok ((ok, rt, wt), w') /\
    endpoint w' rt = Some b /\ endpoint w' wt = Some b /\ queue w' b = [] /\
    (forall t c, endpoint w t = Some c -> c <> b /\ endpoint w' t = Some c) /\ (forall c, c <> b -> queue w' c = queue w c);
  write_message_ok : forall w t b d0 d1, endpoint w t = Some b ->
    exists w', rose_mailbox_write t (user_message d0 d1) w = Ok (ok, w') /\ (forall t', endpoint w' t' = endpoint w t') /\
      queue w' b = queue w b ++ [user_message d0 d1] /\ forall c, c <> b -> queue w' c = queue w c;
  write_token_ok : forall w t b token c, endpoint w t = Some b -> endpoint w token = Some c ->
    exists w', rose_mailbox_write t (handle_message token) w = Ok (ok, w') /\
      queue w' b = queue w b ++ [handle_message token] /\ forall b', b' <> b -> queue w' b' = queue w b';
  release_ok : forall w t, exists r w', rose_token_release t w = Ok (r, w') /\ forall b, queue w' b = queue w b;
  read_ok : forall w t b m q, endpoint w t = Some b -> queue w b = m :: q -> m_type m = type_user ->
    exists w', rose_mailbox_read t 0 w = Ok ((ok, m), w') /\ (forall t', endpoint w' t' = endpoint w t') /\ queue w' b = q /\
      called w' = called w;
  call_ok : forall w z, exists w', call z w = Ok (tt, w') /\ same w w' /\ called w' = called w ++ [z]
}.

(** ** Tables *)

Definition range_of (get : elf_image -> option function_table_descriptor) (e : loaded_elf) : option (Z * Z) :=
  ok_or (table_range get e).
(** The tables of some images, and the messages they are sent as. *)
Definition tables (get : elf_image -> option function_table_descriptor) (xs : list loaded_elf) : list (Z * Z) := omap (range_of get) xs.
Definition table_message (r : Z * Z) : mailbox_message := user_message r.1 r.2.
(** The places of the pointers of a table. *)
Definition slots (r : Z * Z) : list Z := (fun i => r.1 + 8 * Z.of_nat i) <$> seq 0 (Z.to_nat ((r.2 - r.1 + 7) / 8)).

(** Every image was parsed. *)
Definition parsed (e : loaded_elf) : Prop := Forall (fun x => is_Some (elf x)) (images e).

Lemma table_range_ok get x : is_Some (elf x) -> table_range get x = Ok (range_of get x).
Proof. intros [y E]. unfold range_of, table_range, get_elf. by rewrite E. Qed.
Lemma range_of_some get x y : elf x = Some y -> is_Some (range_of get x) <-> is_Some (get y).
Proof. intros E. unfold range_of, table_range, get_elf. rewrite E. cbn. by rewrite fmap_is_Some. Qed.

Lemma table_count_ok get e : pure_tree e -> parsed e -> table_count get e = Ok (length (tables get (images e))).
Proof.
  induction e as [e IH] using loaded_elf_induction. intros [Ho Hc]%pure_tree_eq Hp. unfold parsed in Hp.
  rewrite images_eq in *. apply Forall_cons in Hp as [[y Ey] Hp].
  assert (table_count get e = owned_dependencies (fun acc d => match table_count get d with Ok n => Ok (acc + n)%nat | Err x => Err x end)
    (if decide (is_Some (get y)) then 1 else 0)%nat (dependencies e)) as -> by (destruct e; cbn in *; by rewrite Ey).
  rewrite owned_eq by done. unfold tables. cbn [omap list_omap].
  enough (forall acc, fold_res (fun acc d => match table_count get d with Ok n => Ok (acc + n)%nat | Err x => Err x end) acc (children e) =
    Ok (acc + length (tables get (children e ≫= images)))%nat) as ->.
  { f_equal. pose proof (range_of_some get e y Ey) as Hs. fold (tables get (children e ≫= images)).
    destruct (range_of get e), (decide (is_Some (get y))); cbn; try done; exfalso; [by apply n, Hs|].
    destruct (proj2 Hs i) as [? ?]. done. }
  induction (children e) as [|c cs IHc]; intros acc; cbn [fold_res]; [cbn; f_equal; lia|].
  rewrite bind_cons in *. apply Forall_app in Hp as [Hp1 Hp]. apply Forall_cons in IH as [IHx IH], Hc as [Hx Hc].
  rewrite (IHx Hx Hp1), (IHc IH Hc Hp). unfold tables. rewrite omap_app, length_app. f_equal. lia.
Qed.

Lemma resolve_self e x : NoDup (self <$> images e) -> x ∈ images e -> resolve e (self x) = Ok x.
Proof.
  intros Hd Hx. destruct (resolve_in e (self x)) as (y & E & Hy & Hs); [apply list_elem_of_fmap; eauto|]. rewrite E. f_equal.
  revert Hd Hx Hy. generalize (images e). intros l. induction l as [|z l IH]; [by intros _ ?%elem_of_nil|]. cbn.
  intros [Hz Hd]%NoDup_cons [-> | Hx]%elem_of_cons [-> | Hy]%elem_of_cons; [done | | | by apply IH];
    exfalso; apply Hz; apply list_elem_of_fmap; eauto.
Qed.

Section protocol.
Context {W : Type} {SC : Syscalls W} {call : Z -> M W unit} {RL : RuntimeLaws W call} (F : facts).
Implicit Types (s : boot W) (w : W).

(** ** The sender *)

Lemma allocate_array_ok n s : exists a s', allocate_array F n s = Ok (a, s') /\ same (world s) (world s').
Proof using RL.
  unfold allocate_array. destruct (vmo_create_ok n (world s)) as (t & w1 & E1 & S1).
  unfold bind at 1, sys at 1. rewrite E1. unfold expect_ok at 1. rewrite decide_True by done.
  erewrite bind_Ok by reflexivity. erewrite bind_Ok by reflexivity. cbn [top_of_image].
  destruct (mapping_create_ok (self_vas_token F) t (top_of_image s) w1) as (t' & w2 & E2 & S2).
  unfold bind at 1, sys at 1. cbn [world]. rewrite E2. unfold expect_ok. rewrite decide_True by done.
  erewrite bind_Ok by reflexivity. erewrite bind_Ok by reflexivity. eexists _, _. split; [reflexivity|]. cbn [world].
  destruct S1 as [Sa Sb], S2 as [Sc Sd]. split; intros x; congruence.
Qed.

(** Some messages were appended to the mailbox [b]. *)
Definition sent s s' (b : Z) (ms : list mailbox_message) : Prop :=
  (forall t, endpoint (world s') t = endpoint (world s) t) /\ queue (world s') b = queue (world s) b ++ ms /\
  forall c, c <> b -> queue (world s') c = queue (world s) c.
Lemma sent_nil s b : sent s s b [].
Proof using. split; [done|]. split; [by rewrite app_nil_r|done]. Qed.
Lemma sent_trans s1 s2 s3 b m1 m2 : sent s1 s2 b m1 -> sent s2 s3 b m2 -> sent s1 s3 b (m1 ++ m2).
Proof using.
  intros (A1 & B1 & C1) (A2 & B2 & C2). split; [intros t; by rewrite A2, A1|].
  split; [by rewrite B2, B1, (assoc_L (++))|]. intros c Hc. by rewrite C2, C1.
Qed.

Lemma send_ok s t b d0 d1 msg :
  endpoint (world s) t = Some b -> exists s', send t (user_message d0 d1) msg s = Ok (tt, s') /\ sent s s' b [user_message d0 d1].
Proof using RL.
  intros Ht. destruct (write_message_ok (world s) t b d0 d1 Ht) as (w' & E & A & B & C).
  exists (mkBoot w' (top_of_image s)). unfold send, bind, sys. rewrite E. unfold expect_ok. rewrite decide_True by done. done.
Qed.

Lemma visit_ok e t b msg get xs s :
  NoDup (self <$> images e) -> Forall (fun x => x ∈ images e /\ is_Some (elf x)) xs -> endpoint (world s) t = Some b ->
  exists s', visit_tables e (fun x y => send t (user_message x y) msg) get (self <$> xs) s = Ok (tt, s') /\
    sent s s' b (table_message <$> tables get xs).
Proof using RL.
  intros Hd Hx. revert s. induction Hx as [|x xs [Hi He] _ IH]; intros s Ht.
  { exists s. split; [done|apply sent_nil]. }
  cbn [visit_tables fmap list_fmap]. rewrite resolve_self by done. rewrite table_range_ok by done.
  unfold tables. cbn [omap list_omap]. fold (tables get xs). destruct (range_of get x) as [[x1 x2]|].
  - destruct (send_ok s t b x1 x2 msg Ht) as (s1 & E1 & S1). erewrite bind_Ok by exact E1.
    destruct (IH s1) as (s2 & E2 & S2); [destruct S1 as [A _]; by rewrite A|]. exists s2. split; [done|].
    by apply (sent_trans s s1 s2 b [_]).
  - erewrite bind_Ok by reflexivity. by apply IH.
Qed.

(** The messages the new process gets for the images [xs]. *)
Definition init_tables (xs : list loaded_elf) : list (Z * Z) := tables _preinit_desc xs ++ tables _init_desc xs.
Definition fini_messages (xs : list loaded_elf) : list mailbox_message :=
  user_message (Z.of_nat (length (tables _fini_desc xs))) 0 :: (table_message <$> tables _fini_desc (reverse xs)).
Definition runtime_messages (xs : list loaded_elf) : list mailbox_message :=
  user_message (Z.of_nat (length (init_tables xs))) 0 :: (table_message <$> init_tables xs) ++ fini_messages xs.

Lemma tables_count get xs ys : xs ≡ₚ ys -> length (tables get xs) = length (tables get ys).
Proof using. intros E. unfold tables. by rewrite E. Qed.

Lemma compute_init_order_ok fuel e s :
  pure_tree e -> NoDup (self <$> images e) ->
  exists s', compute_init_order F fuel e s = Ok (self <$> reverse (levels 0 (tree_depth e) e), s') /\ same (world s) (world s').
Proof using RL.
  intros Hp Hd. unfold compute_init_order. rewrite depth_pure, count_pure by done.
  erewrite bind_Ok by reflexivity. erewrite bind_Ok by reflexivity.
  destruct (allocate_array_ok (u64 (8 * Z.of_nat (length (images e)))) s) as (a & s' & E & S). erewrite bind_Ok by exact E.
  exists s'. split; [|done]. rewrite fill_init_order_levels; [by rewrite fmap_reverse|done..|].
  unfold contents_at. by rewrite length_fmap, length_seq.
Qed.

Lemma send_runtime_ok fuel e protocol pb s :
  pure_tree e -> NoDup (self <$> images e) -> parsed e -> endpoint (world s) protocol = Some pb ->
  exists s' b rt, send_runtime_initialization F fuel e protocol s = Ok (tt, s') /\
    queue (world s') b = runtime_messages (reverse (levels 0 (tree_depth e) e)) /\
    queue (world s') pb = queue (world s) pb ++ [handle_message rt].
Proof using RL.
  intros Hp Hd He Hpb. set (xs := reverse (levels 0 (tree_depth e) e)).
  assert (xs ≡ₚ images e) as Hxs by (unfold xs; rewrite reverse_Permutation; symmetry; by apply images_levels).
  assert (Forall (fun x => x ∈ images e /\ is_Some (elf x)) xs) as Hin.
  { rewrite Hxs. unfold parsed in He. rewrite Forall_forall in *. auto. }
  destruct (compute_init_order_ok fuel e s Hp Hd) as (s1 & E1 & A1 & B1). fold xs in E1.
  unfold send_runtime_initialization. erewrite bind_Ok by exact E1.
  destruct (mailbox_create_ok (world s1)) as (rt & wt & b & w2 & E2 & Hrt & Hwt & Hq & Hold & Hoth).
  set (s2 := mkBoot w2 (top_of_image s1)). rewrite (bind_Ok _ _ s1 (ok, rt, wt) s2) by (unfold sys; by rewrite E2).
  unfold expect_ok at 1. rewrite decide_True by done. erewrite bind_Ok by reflexivity.
  rewrite !table_count_ok by done. do 2 erewrite bind_Ok by reflexivity.
  rewrite <- !(tables_count _ xs (images e) Hxs).
  destruct (send_ok s2 wt b (Z.of_nat (length (tables _preinit_desc xs) + length (tables _init_desc xs))) 0
    "failed to send a message on the runtime init mailbox!" Hwt) as (s3 & E3 & S3). erewrite bind_Ok by exact E3.
  unfold visit_all_preinits, visit_all_inits, visit_all_finis.
  destruct (visit_ok e wt b "failed to send a message on the runtime init mailbox!" _preinit_desc xs s3 Hd Hin) as (s4 & E4 & S4);
    [destruct S3 as [-> _]; done|]. erewrite bind_Ok by exact E4. pose proof (sent_trans _ _ _ _ _ _ S3 S4) as T4.
  destruct (visit_ok e wt b "failed to send a message on the runtime init mailbox!" _init_desc xs s4 Hd Hin) as (s5 & E5 & S5);
    [destruct T4 as [-> _]; done|]. erewrite bind_Ok by exact E5. pose proof (sent_trans _ _ _ _ _ _ T4 S5) as T5.
  erewrite bind_Ok by reflexivity.
  destruct (send_ok s5 wt b (Z.of_nat (length (tables _fini_desc xs))) 0
    "failed to send a message on the runtime init mailbox!") as (s6 & E6 & S6); [destruct T5 as [-> _]; done|].
  erewrite bind_Ok by exact E6. pose proof (sent_trans _ _ _ _ _ _ T5 S6) as T6. rewrite <- fmap_reverse.
  destruct (visit_ok e wt b "failed to send a message on the runtime init mailbox!" _fini_desc (reverse xs) s6 Hd) as (s7 & E7 & S7);
    [by rewrite reverse_Permutation | destruct T6 as [-> _]; done|].
  erewrite bind_Ok by exact E7. destruct (sent_trans _ _ _ _ _ _ T6 S7) as (A7 & B7 & C7).
  destruct (Hold protocol pb) as [Hne Hp2]; [by rewrite A1|].
  destruct (write_token_ok (world s7) protocol pb rt b) as (w8 & E8 & B8 & C8); [by rewrite A7|by rewrite A7|].
  set (s8 := mkBoot w8 (top_of_image s7)).
  erewrite bind_Ok; [|unfold send; rewrite (bind_Ok _ _ s7 ok s8) by (unfold sys; by rewrite E8); unfold expect_ok; by rewrite decide_True].
  destruct (release_ok w8 wt) as (r & w9 & E9 & B9).
  rewrite (bind_Ok _ _ s8 r (mkBoot w9 (top_of_image s8))) by (unfold sys; cbn [world s8]; by rewrite E9).
  eexists _, b, rt. split; [reflexivity|]. cbn [world]. rewrite !B9, B8, (C8 b), B7, (C7 pb) by done.
  change (world s2) with w2. rewrite Hq, (Hoth pb), B1 by done. split; [|done]. unfold runtime_messages, init_tables, fini_messages.
  rewrite length_app, fmap_app, <- !(assoc_L (++)). done.
Qed.

(** ** The receiver *)

Lemma read_user_message_ok w t b d0 d1 q :
  endpoint w t = Some b -> queue w b = user_message d0 d1 :: q ->
  exists w', read_user_message t 0 w = Ok ((d0, d1), w') /\ (forall t', endpoint w' t' = endpoint w t') /\ queue w' b = q /\
    called w' = called w.
Proof using RL.
  intros Ht Hq. destruct (read_ok w t b _ q Ht Hq eq_refl) as (w' & E & H). exists w'. split; [|done].
  unfold read_user_message. by rewrite (bind_Ok _ _ _ _ _ E).
Qed.

(** A table that does not reach the end of the address space. *)
Definition in_memory (r : Z * Z) : Prop := 0 <= r.1 /\ r.2 + 8 <= 2 ^ 64.

Lemma run_table_ok n x last w :
  0 <= x -> last + 8 <= 2 ^ 64 -> n = Z.to_nat ((last - x + 7) / 8) ->
  exists w', run_table call (S n) x last w = Ok (tt, w') /\ same w w' /\
    called w' = called w ++ ((fun i => x + 8 * Z.of_nat i) <$> seq 0 n).
Proof using RL.
  revert x w. induction n as [|n IH]; intros x w Hx Hl Hn.
  - assert (last <= x) by (destruct (decide (last <= x)); [done|]; pose proof (Z.div_le_lower_bound (last - x + 7) 8 1); lia).
    exists w. cbn [run_table]. rewrite (proj2 (Z.ltb_ge _ _)) by done. cbn. by rewrite app_nil_r.
  - assert (x < last) by (destruct (decide (x < last)); [done|]; pose proof (Z.div_lt_upper_bound (last - x + 7) 8 1); lia).
    destruct (call_ok w x) as (w1 & E1 & [A1 B1] & C1). cbn [run_table]. rewrite (proj2 (Z.ltb_lt _ _)) by done.
    erewrite bind_Ok by exact E1. rewrite u64_id by (unfold is_u64; lia).
    destruct (IH (x + 8) w1) as (w2 & E2 & [A2 B2] & C2); [lia..| |].
    { replace (last - (x + 8) + 7) with (last - x + 7 + -1 * 8) by lia. rewrite Z.div_add by lia. lia. }
    exists w2. split; [exact E2|]. split; [split; intros; congruence|]. rewrite C2, C1, <- (assoc_L (++)). f_equal. cbn [seq fmap list_fmap app].
    f_equal; [lia|]. rewrite <- seq_shift, <- list_fmap_compose. apply list_fmap_ext. intros i k _. cbn. lia.
Qed.

Lemma run_tables_ok rs q t b w :
  Forall in_memory rs -> endpoint w t = Some b -> queue w b = (table_message <$> rs) ++ q ->
  exists w', run_tables call (length rs) t w = Ok (tt, w') /\ queue w' b = q /\ called w' = called w ++ (rs ≫= slots).
Proof using RL.
  intros Hr. revert w. induction Hr as [|[x y] rs [Hx Hy] _ IH]; intros w Ht Hq.
  { exists w. cbn. by rewrite app_nil_r. }
  cbn [fst snd] in *. destruct (read_user_message_ok w t b x y _ Ht Hq) as (w1 & E1 & A1 & B1 & C1).
  destruct (run_table_ok _ x y w1 Hx Hy eq_refl) as (w2 & E2 & [A2 B2] & C2).
  destruct (IH w2) as (w3 & E3 & Q3 & C3); [by rewrite A2, A1|by rewrite B2|].
  exists w3. cbn [run_tables length]. erewrite bind_Ok by exact E1. unfold table_fuel. erewrite bind_Ok by exact E2.
  split; [exact E3|]. split; [done|]. by rewrite C3, C2, C1, bind_cons, (assoc_L (++)).
Qed.
End protocol.

(** C15: sending the initialisation of a program and receiving it, when no shared
    object is needed by two images (with one that is, the order is never computed:
    [shared_order_never_ends] and [shared_first_faults] of [LoaderTheorems]), the images
    are different objects, every
    image has been parsed and no table of functions reaches the end of the address
    space: the loader sends without a panic and hands the reading end over, and whoever reads that mailbox
    with [__init] calls the functions of all tables of the program, once each,
    preinitialisers before initialisers and within both the dependencies of an
    image before it; left in the mailbox are the tables for the end, in reverse. *)
Theorem runtime_initialization {W} {SC : Syscalls W} {call} {RL : RuntimeLaws W call} (F : facts) fuel e protocol pb s :
  pure_tree e -> NoDup (self <$> images e) -> parsed e -> Forall in_memory (init_tables (images e)) ->
  endpoint (world s) protocol = Some pb ->
  exists xs s' b rt, xs ≡ₚ images e /\
    (forall x y, x ∈ images e -> owned y ∈ dependencies x -> exists l1 l2 l3, xs = l1 ++ y :: l2 ++ x :: l3) /\
    send_runtime_initialization F fuel e protocol s = Ok (tt, s') /\
    queue (world s') pb = queue (world s) pb ++ [handle_message rt] /\
    forall w t, endpoint w t = Some b -> queue w b = queue (world s') b ->
      exists w', rosert_init call t w = Ok (tt, w') /\
        called w' = called w ++ (tables _preinit_desc xs ≫= slots) ++ (tables _init_desc xs ≫= slots) /\
        queue w' b = fini_messages xs.
Proof.
  intros Hp Hd He Hm Hpb. destruct (send_runtime_ok F fuel e protocol pb s Hp Hd He Hpb) as (s' & b & rt & E & Q & P).
  assert (reverse (levels 0 (tree_depth e) e) ≡ₚ images e) as Hxs by (rewrite reverse_Permutation; symmetry; by apply images_levels).
  exists (reverse (levels 0 (tree_depth e) e)), s', b, rt. split; [done|]. split; [by apply levels_dependencies_first|].
  split; [done|]. split; [done|]. intros w t Ht Hq. rewrite Q in Hq. unfold runtime_messages in Hq.
  destruct (read_user_message_ok w t b _ _ _ Ht Hq) as (w1 & E1 & A1 & B1 & C1).
  destruct (run_tables_ok (init_tables (reverse (levels 0 (tree_depth e) e))) (fini_messages (reverse (levels 0 (tree_depth e) e))) t b w1) as (w2 & E2 & Q2 & C2); [| by rewrite A1 | exact B1 |].
  { revert Hm. unfold init_tables, tables. by rewrite Hxs. }
  exists w2. unfold rosert_init. erewrite bind_Ok by exact E1. cbn beta iota. rewrite Nat2Z.id. split; [exact E2|]. split; [|done].
  unfold init_tables in C2. by rewrite C2, C1, bind_app.
Qed.

(** ** A sample of system calls *)

(** The mailbox of the tokens [2 b] and [2 b + 1] is [b]. *)
Record sample_world : Type := mkSample { sw_boxes : gmap Z (list mailbox_message); sw_next : nat; sw_called : list Z }.
Definition sample_endpoint (w : sample_world) (t : Z) : option Z :=
  if decide (0 <= t < 2 * Z.of_nat (sw_next w)) then Some (t / 2) else None.
Definition sample_queue (w : sample_world) (b : Z) : list mailbox_message := default [] (sw_boxes w !! b).
Definition set_queue (b : Z) (q : list mailbox_message) (w : sample_world) : sample_world :=
  mkSample (<[b := q]> (sw_boxes w)) (sw_next w) (sw_called w).

#[global] Instance sample_syscalls : Syscalls sample_world := {
  rose_vmo_create _ _ := ret (ok, 0);
  rose_mapping_create _ _ _ _ := ret (ok, 0);
  rose_token_release _ := ret ok;
  rose_vas_create _ := ret (ok, 0, (0, 0));
  rose_process_create _ _ := ret (ok, 0);
  rose_process_start _ _ _ _ := ret ok;
  rose_mailbox_create := fun w =>
    let b := Z.of_nat (sw_next w) in
    Ok ((ok, 2 * b, 2 * b + 1), mkSample (<[b := []]> (sw_boxes w)) (S (sw_next w)) (sw_called w));
  rose_mailbox_write t m := fun w =>
    match sample_endpoint w t with
    | Some b => Ok (ok, set_queue b (sample_queue w b ++ [m]) w)
    | None => Ok (invalid_token, w)
    end;
  rose_mailbox_read t _ := fun w =>
    match sample_endpoint w t with
    | Some b => match sample_queue w b with m :: q => Ok ((ok, m), set_queue b q w) | [] => Ok ((not_ready, user_message 0 0), w) end
    | None => Ok ((invalid_token, user_message 0 0), w)
    end
}.
Definition sample_call (z : Z) : M sample_world unit :=
  modify (fun w => mkSample (sw_boxes w) (sw_next w) (sw_called w ++ [z])).

Lemma set_queue_eq b q w : sample_queue (set_queue b q w) b = q.
Proof. unfold sample_queue, set_queue. cbn. by rewrite lookup_insert_eq. Qed.
Lemma set_queue_ne b c q w : c <> b -> sample_queue (set_queue b q w) c = sample_queue w c.
Proof. intros. unfold sample_queue, set_queue. cbn. by rewrite lookup_insert_ne by done. Qed.

#[global] Instance sample_laws : RuntimeLaws sample_world sample_call.
Proof.
  refine {| endpoint := sample_endpoint; queue := sample_queue; called := sw_called |}; cbn [rose_vmo_create rose_mapping_create
    rose_token_release rose_mailbox_create rose_mailbox_write rose_mailbox_read sample_syscalls].
  - intros n w. by exists 0, w.
  - intros v o a w. by exists 0, w.
  - intros w. set (b := Z.of_nat (sw_next w)). exists (2 * b), (2 * b + 1), b. eexists. split; [reflexivity|]. repeat split.
    + unfold sample_endpoint. cbn [sw_next]. rewrite decide_True by lia. f_equal. symmetry. apply (Z.div_unique _ _ _ 0); lia.
    + unfold sample_endpoint. cbn [sw_next]. rewrite decide_True by lia. f_equal. symmetry. apply (Z.div_unique _ _ _ 1); lia.
    + unfold sample_queue. cbn. by rewrite lookup_insert_eq.
    + unfold sample_endpoint in H. case_decide as Ht; [|done]. injection H as <-.
      assert (t / 2 < b) by (apply Z.div_lt_upper_bound; lia). lia.
    + unfold sample_endpoint in *. cbn [sw_next]. case_decide; [|done]. by rewrite decide_True by lia.
    + intros c Hc. unfold sample_queue. cbn. by rewrite lookup_insert_ne by done.
  - intros w t b d0 d1 ->. eexists. split; [reflexivity|]. split; [done|]. split; [by rewrite set_queue_eq|]. intros c. apply set_queue_ne.
  - intros w t b token c -> _. eexists. split; [reflexivity|]. split; [by rewrite set_queue_eq|]. intros b'. apply set_queue_ne.
  - intros w t. by exists ok, w.
  - intros w t b m q -> -> _. eexists. split; [reflexivity|]. split; [done|]. split; [by rewrite set_queue_eq|done].
  - intros w z. eexists. split; [reflexivity|]. done.
Defined.

Definition sample_facts : facts := mkFacts 0 0 [] [] (mkCpio 0 0 0) (fun _ => 0) 0 0.
(** One mailbox, number 0, for the protocol. *)
Definition sample_boot : boot sample_world := mkBoot (mkSample {[0 := []]} 1 []) 0x80001000.

Lemma runtime_initialization_witness :
  exists xs s' b rt, xs ≡ₚ images sample_tree /\
    (forall x y, x ∈ images sample_tree -> owned y ∈ dependencies x -> exists l1 l2 l3, xs = l1 ++ y :: l2 ++ x :: l3) /\
    send_runtime_initialization sample_facts 0 sample_tree 1 sample_boot = Ok (tt, s') /\
    queue (world s') 0 = queue (world sample_boot) 0 ++ [handle_message rt] /\
    forall w t, endpoint w t = Some b -> queue w b = queue (world s') b ->
      exists w', rosert_init sample_call t w = Ok (tt, w') /\
        called w' = called w ++ (tables _preinit_desc xs ≫= slots) ++ (tables _init_desc xs ≫= slots) /\
        queue w' b = fini_messages xs.
Proof.
  apply (runtime_initialization sample_facts 0 sample_tree 1 0 sample_boot sample_tree_pure sample_tree_distinct);
    [| |reflexivity].
  - unfold parsed. repeat constructor; eexists; reflexivity.
  - unfold in_memory. repeat constructor; vm_compute; discriminate.
Defined.
(** The run of that: the table of each image has two functions. *)
Example sample_runtime_run :
  match (let* _ := send_runtime_initialization sample_facts 0 sample_tree 1 in sys (rosert_init sample_call 2)) sample_boot with
  | Ok (_, s) => sw_called (world s)
  | Err _ => []
  end = [0x40100; 0x40108; 0x30100; 0x30108; 0x20100; 0x20108; 0x10100; 0x10108].
Proof. vm_compute. reflexivity. Qed.
