(* ===== verification/ThornLexer.v ===== *)
(** * The lexer of the interface compiler: toolchain/thorn/lexer.h

    thorn reads the description of the system calls and prints the code on both
    sides of them.  Its lexer is an iterator over the file; one token is ready at
    any time.  A message on the error stream followed by [std::exit(1)] is a
    [Panic].  Characters are bytes; [char] is signed, and the end of the file
    reads as -1. *)
From S2P Require Import Prelude Text.

(** ** Tokens *)

Inductive token_type : Type :=
| syscall | enum_ | struct_ | union_ | open_paren | close_paren | colon | comma | semicolon | scope
| token_ | permissions | for_ | direction | ptr | identifier | arrow | dollar | include | header_name | blocking.
#[global] Instance token_type_eq_dec : EqDecision token_type.
Proof. solve_decision. Defined.

(** [symbol_types] *)
Definition symbol_types : list (Z * token_type) :=
  [(40, open_paren); (41, close_paren); (44, comma); (59, semicolon); (36, dollar)].
Definition keywords : list (bytes * token_type) :=
  [(text "syscall", syscall); (text "enum", enum_); (text "struct", struct_); (text "union", union_);
   (text "token", token_); (text "permissions", permissions); (text "for", for_); (text "in", direction);
   (text "out", direction); (text "ptr", ptr); (text "include", include); (text "blocking", blocking)].
(** [find] of an unordered map given by its entries. *)
Fixpoint map_find `{EqDecision K} {V} (k : K) (l : list (K * V)) : option V :=
  match l with
  | [] => None
  | (k', v) :: l' => if decide (k = k') then Some v else map_find k l'
  end.

Record token : Type := mkToken { line : Z; column : Z; contents : bytes; type : token_type }.

(** ** The state of the iterator *)

(** [_input] is what is left to read and [at_eof] its [eof()]; the type of the
    current token has no value before the first one. *)
Record tokenizer : Type := mkTokenizer {
  _input : bytes;
  at_eof : bool;
  _current : token;
  _line : Z;
  _column : Z
}.
Abbreviation TM := (M tokenizer).

Definition set_current (t : token) (s : tokenizer) : tokenizer := mkTokenizer (_input s) (at_eof s) t (_line s) (_column s).

(** ** Characters *)

Definition end_of_file : Z := -1.
Definition isspace (c : Z) : bool := (c =? 32) || (9 <=? c) && (c <=? 13).
Definition isalpha (c : Z) : bool := (65 <=? c) && (c <=? 90) || (97 <=? c) && (c <=? 122).
Definition isalnum (c : Z) : bool := isalpha c || (48 <=? c) && (c <=? 57).

(** [_input.peek()]: looking past the end sets [eof()]. *)
Definition _peek : TM Z := fun s =>
  match _input s with
  | c :: _ => Ok (s8 c, s)
  | [] => Ok (end_of_file, mkTokenizer [] true (_current s) (_line s) (_column s))
  end.
Definition _get : TM Z := fun s =>
  match _input s with
  | c :: rest =>
      if s8 c =? 10 then Ok (s8 c, mkTokenizer rest (at_eof s) (_current s) (_line s + 1) 1)
      else Ok (s8 c, mkTokenizer rest (at_eof s) (_current s) (_line s) (_column s + 1))
  | [] => Ok (end_of_file, mkTokenizer [] true (_current s) (_line s) (_column s + 1))
  end.
Definition set_type (t : token_type) : TM unit :=
  modify (fun s => set_current (mkToken (line (_current s)) (column (_current s)) (contents (_current s)) t) s).
Definition _append : TM unit :=
  let* c := _get in
  modify (fun s => set_current (mkToken (line (_current s)) (column (_current s)) (contents (_current s) ++ [c]) (type (_current s))) s).

(** ** [_generate] *)

Fixpoint skip_space (fuel : nat) : TM unit :=
  match fuel with
  | O => fail NoFuel
  | S n => let* c := _peek in if isspace c then _get ;; skip_space n else ret tt
  end.
Fixpoint read_header_name (fuel : nat) : TM unit :=
  match fuel with
  | O => fail NoFuel
  | S n =>
      let* c := _peek in
      if c =? 62 then ret tt
      else
        let* e := gets at_eof in
        if e then panic "unternimated header-name" else _append ;; read_header_name n
  end.
Fixpoint read_word (fuel : nat) : TM unit :=
  match fuel with
  | O => fail NoFuel
  | S n => let* c := _peek in if isalnum c || (c =? 95) then _append ;; read_word n else ret tt
  end.

(** A loop over the rest of the file takes at most one step per character. *)
Definition steps : TM nat := gets (fun s => S (length (_input s))).

(** The token that starts with the character [c]. *)
Definition generate_token (c : Z) : TM unit :=
  if c =? 58 then
    _append ;;
    set_type colon ;;
    let* c := _peek in
    if c =? 58 then _append ;; set_type scope else ret tt
  else if c =? 45 then
    _append ;;
    let* c := _peek in
    if negb (c =? 62) then panic "expected '>', got " else
    _append ;;
    set_type arrow
  else if c =? 60 then
    _get ;;
    let* n := steps in
    read_header_name n ;;
    set_type header_name ;;
    _get ;;
    ret tt
  else
    match map_find c symbol_types with
    | Some t => _append ;; set_type t
    | None =>
        if isalpha c then
          _append ;;
          let* n := steps in
          read_word n ;;
          let* t := gets _current in
          set_type (default identifier (map_find (contents t) keywords))
        else panic "unexpected character: '"
    end.

Definition _generate : TM unit :=
  let* n := steps in
  skip_space n ;;
  let* e := gets at_eof in
  if e then ret tt else
  modify (fun s => set_current (mkToken (_line s) (_column s) [] (type (_current s))) s) ;;
  let* c := _peek in
  generate_token c.

(** ** The iterator *)

(** The constructor, on a file that could be opened. *)
Definition tokenize (file : bytes) : res tokenizer :=
  match _generate (mkTokenizer file false (mkToken 0 0 [] identifier) 1 1) with
  | Ok (_, s) => Ok s
  | Err e => Err e
  end.
(** [operator==] with the sentinel. *)
Definition at_sentinel : TM bool := gets at_eof.
Definition operator_incr : TM unit := _generate.
Definition current : TM token := gets _current.
