(* ===== verification/ThornParser.v ===== *)
(** * The parser of the interface compiler: toolchain/thorn/parser.cpp

    A recursive descent parser over the iterator of [ThornLexer]. *)
From S2P Require Import Prelude Text ThornLexer.

(** ** Syntax *)

Record qualified_name : Type := mkName { in_generated_scope : bool; name_elements : list bytes }.
Record permissions_definition : Type := mkPermissions { object_type : option qualified_name; pd_permissions : list bytes }.
Record parameter : Type := mkParameter {
  p_name : bytes;
  p_in : bool;
  p_out : bool;
  token_permissions : option (list bytes);
  type_spec : qualified_name
}.
Record parsed_syscall : Type := mkSyscall {
  sc_scope : qualified_name;
  sc_blocking : bool;
  sc_name : bytes;
  sc_parameters : list parameter;
  sc_return_type : option qualified_name
}.
Record parsed_enum : Type := mkEnum { e_name : bytes; enumerations : list bytes }.
Record union_member : Type := mkUnionMember { um_name : bytes; um_type : qualified_name }.
Record parsed_union : Type := mkUnion { u_members : list union_member }.
(** [std::variant<qualified_name, parsed_union>] *)
Inductive member_type : Type :=
| MName (q : qualified_name)
| MUnion (u : parsed_union).
Record struct_member : Type := mkMember { sm_name : bytes; sm_type : member_type }.
Record parsed_struct : Type := mkStruct { s_name : bytes; s_members : list struct_member }.
Record parsed_include : Type := mkInclude { i_header_name : bytes }.

(** ** Parsing *)

Definition expect (t : token_type) : TM bytes :=
  let* c := current in
  if decide (type c = t) then operator_incr ;; ret (contents c)
  else panic "expected ".
Definition next_is (t : token_type) : TM bool := let* c := current in ret (bool_decide (type c = t)).

(** The lists of the grammar: one [item], then, while the token is not a closing
    parenthesis, a comma and another one.  An iteration reads two tokens, so that
    the characters that are left bound their number. *)
Definition loop_fuel : TM nat := gets (fun s => S (S (length (_input s)))).
Section lists.
Context {A : Type} (item : TM A).
Fixpoint more_items (fuel : nat) (acc : list A) : TM (list A) :=
  match fuel with
  | O => fail NoFuel
  | S n =>
      let* c := next_is close_paren in
      if c then ret acc
      else
        expect comma ;;
        let* a := item in
        more_items n (acc ++ [a])
  end.
Definition items : TM (list A) :=
  let* a := item in
  let* n := loop_fuel in
  more_items n [a].
End lists.

Fixpoint more_segments (fuel : nat) (acc : list bytes) : TM (list bytes) :=
  match fuel with
  | O => fail NoFuel
  | S n =>
      let* c := next_is scope in
      if c then
        expect scope ;;
        let* a := expect identifier in
        more_segments n (acc ++ [a])
      else ret acc
  end.
Definition parse_qualified_name : TM qualified_name :=
  let* g := next_is dollar in
  (if g then expect dollar ;; expect scope ;; ret tt else ret tt) ;;
  let* a := expect identifier in
  let* n := loop_fuel in
  let* l := more_segments n [a] in
  if g && negb (length l =? 1)%nat
  then panic "a qualified name referencing generated scope contains more than one nested name segment"
  else ret (mkName g l).

Definition parse_permissions : TM permissions_definition :=
  expect permissions ;;
  let* c := next_is open_paren in
  let* o := if negb c then expect for_ ;; let* q := parse_qualified_name in ret (Some q) else ret None in
  expect open_paren ;;
  let* l := items (expect identifier) in
  expect close_paren ;;
  expect semicolon ;;
  ret (mkPermissions o l).

(** The loop over the directions, given how often it may run. *)
Fixpoint directions (fuel : nat) (i o : bool) : TM (bool * bool) :=
  match fuel with
  | O => fail NoFuel
  | S n =>
      let* c := current in
      if decide (type c = direction) then
        let i' := i || bool_decide (contents c = text "in") in
        let o' := o || bool_decide (contents c = text "out") in
        expect direction ;;
        directions n i' o'
      else ret (i, o)
  end.
Definition parse_parameter : TM parameter :=
  let* name := expect identifier in
  expect colon ;;
  let* n := loop_fuel in
  let* (i, o) := directions n false false in
  (if i || o then expect ptr ;; ret tt else ret tt) ;;
  let* t := next_is token_ in
  let* perms :=
    if t then
      expect token_ ;;
      expect open_paren ;;
      let* l := items (expect identifier) in
      expect close_paren ;;
      ret (Some l)
    else ret None in
  let* ts := parse_qualified_name in
  ret (mkParameter name i o perms ts).

Definition parse_syscall : TM parsed_syscall :=
  expect syscall ;;
  expect open_paren ;;
  let* sc := parse_qualified_name in
  let* c := next_is comma in
  (if c then expect comma ;; expect blocking ;; ret tt else ret tt) ;;
  expect close_paren ;;
  let* name := expect identifier in
  expect open_paren ;;
  let* ps := items parse_parameter in
  expect close_paren ;;
  let* a := next_is arrow in
  let* r := if a then expect arrow ;; let* q := parse_qualified_name in ret (Some q) else ret None in
  expect semicolon ;;
  ret (mkSyscall sc c name ps r).

Definition parse_enum : TM parsed_enum :=
  expect enum_ ;;
  let* name := expect identifier in
  expect open_paren ;;
  let* l := items (expect identifier) in
  expect close_paren ;;
  expect semicolon ;;
  ret (mkEnum name l).

Definition parse_union_member : TM union_member :=
  let* name := expect identifier in
  expect colon ;;
  let* q := parse_qualified_name in
  ret (mkUnionMember name q).
Definition parse_union : TM parsed_union :=
  expect union_ ;;
  expect open_paren ;;
  let* l := items parse_union_member in
  expect close_paren ;;
  ret (mkUnion l).

Definition parse_struct_member : TM struct_member :=
  let* name := expect identifier in
  expect colon ;;
  let* u := next_is union_ in
  let* t := if u then let* x := parse_union in ret (MUnion x) else let* q := parse_qualified_name in ret (MName q) in
  ret (mkMember name t).
(** The members of a structure may be none, and may end with a comma. *)
Fixpoint struct_members (fuel : nat) (acc : list struct_member) : TM (list struct_member) :=
  match fuel with
  | O => fail NoFuel
  | S n =>
      let* c := next_is close_paren in
      if c then ret acc
      else
        let* m := parse_struct_member in
        let* c := next_is close_paren in
        (if negb c then expect comma ;; ret tt else ret tt) ;;
        struct_members n (acc ++ [m])
  end.
Definition parse_struct : TM parsed_struct :=
  expect struct_ ;;
  let* name := expect identifier in
  expect open_paren ;;
  let* n := loop_fuel in
  let* l := struct_members n [] in
  expect close_paren ;;
  expect semicolon ;;
  ret (mkStruct name l).

Definition parse_include : TM parsed_include :=
  expect include ;;
  let* h := expect header_name in
  expect semicolon ;;
  ret (mkInclude h).
