(* ===== verification/ThornContext.v ===== *)
(** * The symbol table of the interface compiler: toolchain/thorn/context.cpp

    The declarations of a file are parsed and entered one by one into the tables
    of [context], with the checks that make up the typing rules of the language;
    then system calls and permissions get their numbers. *)
From S2P Require Import Prelude Text ThornLexer ThornParser.

(** ** What is generated: toolchain/thorn/generator.h *)

Record permission_description : Type := mkPermission { perm_name : bytes; flag_bit : Z }.
Record enum_description : Type := mkEnumDesc { ed_enumerations : list (bytes * Z) }.
Record union_description : Type := mkUnionDesc { ud_members : list (bytes * bytes) }.
Inductive member_description : Type :=
| DName (type_name : bytes)
| DUnion (u : union_description).
Record struct_description : Type := mkStructDesc { sd_members : list (bytes * member_description) }.
Record handle_token : Type := mkHandleToken { required_permissions : list bytes; ht_deref_type : bytes }.
Record pointer : Type := mkPointer { ptr_in : bool; ptr_out : bool; ptr_deref_type : bytes }.
Inductive parameter_description : Type :=
| PType (type_name : bytes)
| PHandle (h : handle_token)
| PPointer (p : pointer).
(** [id] has no value before [output]. *)
Record syscall_description : Type := mkSyscallDesc {
  implementation_scope : bytes;
  parameters : list (bytes * parameter_description);
  return_type : option bytes;
  id : option Z;
  sd_blocking : bool
}.
Inductive description : Type :=
| Enum (d : enum_description)
| Struct (d : struct_description)
| Syscall (d : syscall_description).
Record symbol : Type := mkSymbol { module : bytes; sym_description : description }.

(** [arch_registers_for_args]; [at] throws for another architecture. *)
Definition arch_registers_for_args (arch : bytes) : option (list bytes) :=
  if decide (arch = text "amd64")
  then Some [text "rdi"; text "rsi"; text "r8"; text "r9"; text "r10"; text "r12"]
  else None.

(** ** State *)

Record context_args : Type := mkArgs { arg_scope : bytes; arg_arch : bytes }.
Record context : Type := mkContext {
  _symbols : gmap bytes symbol;
  _module_deps : gmap bytes (gset bytes);
  _module_includes : gmap bytes (gset bytes);
  _syscalls : list bytes;
  _symbols_in_order : list bytes;
  _permissions : gmap bytes (list bytes);
  _global_permissions : option (list bytes)
}.
Definition empty_context : context := mkContext ∅ ∅ ∅ [] [] ∅ None.

Section ops.
Context (args : context_args).
Abbreviation CM := (M context).

(** The elements joined by [::]; [front] of no elements is undefined. *)
Definition sep : bytes := text "::".
Definition join_elements (l : list bytes) : res bytes :=
  match l with
  | [] => Err Fault
  | x :: l' => Ok (foldl (fun acc y => acc ++ sep ++ y) x l')
  end.
Definition lift {A} (r : res A) : CM A := match r with Ok a => ret a | Err e => fail e end.
(** [back()] *)
Definition back (l : list bytes) : res bytes := match last l with Some x => Ok x | None => Err Fault end.

Definition add_dep (m dep : bytes) (c : context) : context :=
  mkContext (_symbols c) (<[m := {[dep]} ∪ default ∅ (_module_deps c !! m)]> (_module_deps c)) (_module_includes c)
    (_syscalls c) (_symbols_in_order c) (_permissions c) (_global_permissions c).

Definition _process_qualified_name (m : bytes) (ast : qualified_name) : CM (option bytes) :=
  if in_generated_scope ast then
    let* b := lift (back (name_elements ast)) in
    let* c := get in
    match _symbols c !! b with
    | None => ret None
    | Some s =>
        (if decide (m = module s) then ret tt else modify (add_dep m (module s))) ;;
        ret (Some (arg_scope args ++ sep ++ b))
    end
  else
    let* r := lift (join_elements (name_elements ast)) in
    ret (Some r).

(** A name that must be known. *)
Definition processed (m : bytes) (q : qualified_name) : CM bytes :=
  let* r := _process_qualified_name m q in
  match r with
  | Some t => ret t
  | None => panic "which was not defined when its definition was processed"
  end.

Definition _insert_symbol (name : bytes) (s : symbol) : CM unit :=
  let* c := get in
  match _symbols c !! name with
  | Some _ => panic "thorn: error: duplicate symbol '"
  | None =>
      modify (fun c => mkContext (<[name := s]> (_symbols c)) (_module_deps c) (_module_includes c) (_syscalls c)
                         (_symbols_in_order c ++ [name]) (_permissions c) (_global_permissions c))
  end.

Definition _insert_enum (m : bytes) (ast : parsed_enum) : CM unit :=
  _insert_symbol (e_name ast) (mkSymbol m (Enum (mkEnumDesc (imap (fun i x => (x, Z.of_nat i)) (enumerations ast))))).

(** [f] on every element of a list, in order. *)
Fixpoint for_each {A B} (f : A -> CM B) (l : list A) : CM (list B) :=
  match l with
  | [] => ret []
  | x :: l' => let* y := f x in let* ys := for_each f l' in ret (y :: ys)
  end.

Definition describe_member (m : bytes) (x : struct_member) : CM (bytes * member_description) :=
  match sm_type x with
  | MName q => let* t := processed m q in ret (sm_name x, DName t)
  | MUnion u =>
      let* us := for_each (fun y => let* t := processed m (um_type y) in ret (um_name y, t)) (u_members u) in
      ret (sm_name x, DUnion (mkUnionDesc us))
  end.
Definition _insert_struct (m : bytes) (ast : parsed_struct) : CM unit :=
  let* ms := for_each (describe_member m) (s_members ast) in
  _insert_symbol (s_name ast) (mkSymbol m (Struct (mkStructDesc ms))).

(** The check of one permission of a token. *)
Definition check_permission (deref : bytes) (perm : bytes) : CM bytes :=
  let* c := get in
  if bool_decide (perm ∈ default [] (_global_permissions c)) || bool_decide (perm ∈ default [] (_permissions c !! deref))
  then ret perm
  else panic "which is not a valid permission for a kernel object of type '".

(** One parameter, with the flag [has_token_with_permissions], which is computed
    from the token description before its permissions are entered. *)
Definition describe_parameter (m : bytes) (param : parameter) : CM (bytes * parameter_description * bool) :=
  if bool_decide (is_Some (token_permissions param)) && in_generated_scope (type_spec param)
  then panic "defined as a token to a type in the generated scope, which is invalid" else
  if p_in param || p_out param then
    let* t := processed m (type_spec param) in
    ret (p_name param, PPointer (mkPointer (p_in param) (p_out param) t), false)
  else
    match token_permissions param with
    | Some perms =>
        let flag := negb (bool_decide ((@nil bytes) = [])) in
        let* deref := lift (join_elements (name_elements (type_spec param))) in
        let* l := for_each (check_permission deref) perms in
        ret (p_name param, PHandle (mkHandleToken l deref), flag)
    | None =>
        let* t := processed m (type_spec param) in
        ret (p_name param, PType t, false)
    end.

Definition add_syscall (name : bytes) (c : context) : context :=
  mkContext (_symbols c) (_module_deps c) (_module_includes c) (_syscalls c ++ [name]) (_symbols_in_order c)
    (_permissions c) (_global_permissions c).

Definition _insert_syscall (m : bytes) (ast : parsed_syscall) : CM unit :=
  match arch_registers_for_args (arg_arch args) with
  | None => fail (Uncaught "std::out_of_range")
  | Some regs =>
      if (length regs <? length (sc_parameters ast))%nat
      then panic "accepts more parameters than supposed on "
      else
        let* sc := lift (join_elements (name_elements (sc_scope ast))) in
        let* ps := for_each (describe_parameter m) (sc_parameters ast) in
        let has_token_with_permissions := existsb snd ps in
        let* r := match sc_return_type ast with
                  | Some q => let* t := processed m q in ret (Some t)
                  | None => ret None
                  end in
        if has_token_with_permissions && negb (bool_decide (r = Some (arg_scope args ++ text "::result")))
        then panic "accepts a handle token parameter with specified permissions, but does not return the generated result type"
        else
          _insert_symbol (sc_name ast) (mkSymbol m (Syscall (mkSyscallDesc sc (fst <$> ps) r None (sc_blocking ast)))) ;;
          modify (add_syscall (sc_name ast))
  end.

Definition _insert_include (m : bytes) (ast : parsed_include) : CM unit :=
  modify (fun c => mkContext (_symbols c) (_module_deps c)
    (<[m := {[i_header_name ast]} ∪ default ∅ (_module_includes c !! m)]> (_module_includes c))
    (_syscalls c) (_symbols_in_order c) (_permissions c) (_global_permissions c)).

(** The permissions of a kernel object, or of all of them.  A type of the generated
    scope that was not declared is not looked for: [value()] of the empty result throws. *)
Definition _insert_permissions (m : bytes) (ast : permissions_definition) : CM unit :=
  match object_type ast with
  | Some q =>
      let* r := _process_qualified_name m q in
      match r with
      | None => fail (Uncaught "std::bad_optional_access")
      | Some type_name =>
          let* c := get in
          match _permissions c !! type_name with
          | Some _ => panic "specified more than once"
          | None =>
              modify (fun c => mkContext (_symbols c) (_module_deps c) (_module_includes c) (_syscalls c) (_symbols_in_order c)
                                 (<[type_name := pd_permissions ast]> (_permissions c)) (_global_permissions c))
          end
      end
  | None =>
      let* c := get in
      match _global_permissions c with
      | Some _ => panic "global permissions enum specified more than once"
      | None =>
          modify (fun c => mkContext (_symbols c) (_module_deps c) (_module_includes c) (_syscalls c) (_symbols_in_order c)
                             (_permissions c) (Some (pd_permissions ast)))
      end
  end.

(** ** [process] *)

Inductive declaration : Type :=
| DPermissions (d : permissions_definition)
| DEnum (d : parsed_enum)
| DStruct (d : parsed_struct)
| DSyscall (d : parsed_syscall)
| DInclude (d : parsed_include).

Definition parse_declaration : TM declaration :=
  let* c := current in
  match type c with
  | permissions => let* d := parse_permissions in ret (DPermissions d)
  | enum_ => let* d := parse_enum in ret (DEnum d)
  | struct_ => let* d := parse_struct in ret (DStruct d)
  | syscall => let* d := parse_syscall in ret (DSyscall d)
  | include => let* d := parse_include in ret (DInclude d)
  | _ => panic "expected declaration, got '"
  end.
Definition insert_declaration (m : bytes) (d : declaration) : CM unit :=
  match d with
  | DPermissions d => _insert_permissions m d
  | DEnum d => _insert_enum m d
  | DStruct d => _insert_struct m d
  | DSyscall d => _insert_syscall m d
  | DInclude d => _insert_include m d
  end.

(** The loop over the declarations; each takes up some of the file. *)
Fixpoint process_loop (fuel : nat) (m : bytes) (it : tokenizer) (c : context) : res context :=
  match fuel with
  | O => Err NoFuel
  | S n =>
      if at_eof it then Ok c
      else
        match parse_declaration it with
        | Err e => Err e
        | Ok (d, it') =>
            match insert_declaration m d c with
            | Err e => Err e
            | Ok (_, c') => process_loop n m it' c'
            end
        end
  end.
Definition process (m file : bytes) (c : context) : res context :=
  match tokenize file with
  | Err e => Err e
  | Ok it => process_loop (S (S (length file))) m it c
  end.

(** ** [output] *)

(** The shuffled list of the system calls is given. *)
Definition set_id (i : nat) (s : symbol) : res symbol :=
  match sym_description s with
  | Syscall d =>
      Ok (mkSymbol (module s) (Syscall (mkSyscallDesc (implementation_scope d) (parameters d) (return_type d) (Some (Z.of_nat i)) (sd_blocking d))))
  | _ => Err Fault
  end.
Fixpoint number_syscalls (i : nat) (l : list bytes) (symbols : gmap bytes symbol) : res (gmap bytes symbol) :=
  match l with
  | [] => Ok symbols
  | name :: l' =>
      match symbols !! name with
      | None => Err Fault
      | Some s =>
          match set_id i s with
          | Ok s' => number_syscalls (S i) l' (<[name := s']> symbols)
          | Err e => Err e
          end
      end
  end.

(** [set_known_permissions]: the permissions of the objects in the order the map
    [_permissions] is iterated in. *)
Definition number_permissions (global : option (list bytes)) (objects : list (list bytes)) : list permission_description :=
  imap (fun i perm => mkPermission perm (Z.of_nat i)) (default [] global) ++
  (objects ≫= fun perms => (fun perm => mkPermission perm (64 + 0)) <$> perms).
End ops.
