(* ===== verification/ThornLayout.v ===== *)
(** * Reading back the tokens of a file

    A file is a layout of tokens: each written out, with white space between them
    where they would otherwise run together.  The lexer delivers exactly these
    tokens. *)
From S2P Require Import Prelude Text ThornLexer.

(** ** Written tokens *)

(** A token without its position. *)
Definition tok : Type := token_type * bytes.
Definition word_char (c : Z) : bool := isalnum c || (c =? 95).

(** The tokens of the language and how they are written. *)
Inductive lexeme : tok -> bytes -> Prop :=
| lexeme_symbol c t : map_find c symbol_types = Some t -> lexeme (t, [c]) [c]
| lexeme_colon : lexeme (colon, [58]) [58]
| lexeme_scope : lexeme (scope, [58; 58]) [58; 58]
| lexeme_arrow : lexeme (arrow, [45; 62]) [45; 62]
| lexeme_header h : Forall (fun c => 0 <= c < 128 /\ c <> 62) h -> lexeme (header_name, h) (60 :: h ++ [62])
| lexeme_word c w t :
    isalpha c = true -> Forall (fun x => word_char x = true) w -> t = default identifier (map_find (c :: w) keywords) ->
    lexeme (t, c :: w) (c :: w).

Definition spaces (ws : bytes) : Prop := Forall (fun c => isspace c = true) ws.

(** A token ends where the character [c] follows: a word before a character of
    another kind, a colon before anything but another. *)
Definition ends (w : bytes) (c : Z) : Prop :=
  0 <= c < 128 /\ (w = [58] -> c <> 58) /\ (forall x, last w = Some x -> word_char x = true -> word_char c = false).

(** The rest of a file that holds the tokens [ts]. *)
Inductive layout : list tok -> bytes -> Prop :=
| layout_nil ws : spaces ws -> layout [] ws
| layout_cons ws t w c rest ts :
    spaces ws -> lexeme t w -> ends w c -> layout ts (c :: rest) -> layout (t :: ts) (ws ++ w ++ c :: rest).

(** The iterator has the tokens [ts] to give; none of them is at the very end of
    the file. *)
Fixpoint delivers (s : tokenizer) (ts : list tok) : Prop :=
  match ts with
  | [] => at_eof s = true
  | t :: ts' =>
      at_eof s = false /\ type (_current s) = t.1 /\ contents (_current s) = t.2 /\ (length ts' <= length (_input s))%nat /\
      exists s', _generate s = Ok (tt, s') /\ delivers s' ts'
  end.

(** ** Characters *)

Lemma isspace_range c : isspace c = true -> 9 <= c <= 32.
Proof. unfold isspace. rewrite orb_true_iff, andb_true_iff, Z.eqb_eq, !Z.leb_le. lia. Qed.
Lemma isalpha_range c : isalpha c = true -> 65 <= c <= 122 /\ c <> 95.
Proof. unfold isalpha. rewrite orb_true_iff, !andb_true_iff, !Z.leb_le. lia. Qed.
Lemma word_char_range c : word_char c = true -> 48 <= c <= 122.
Proof.
  unfold word_char, isalnum. rewrite !orb_true_iff, andb_true_iff, !Z.leb_le, Z.eqb_eq.
  intros [[H%isalpha_range | ] | ]; lia.
Qed.

(** ** Steps of the lexer *)

Section steps.
Implicit Types (s : tokenizer).

(** The part of the state that the lexer's decisions depend on. *)
Definition at_input (s : tokenizer) (i : bytes) (cs : bytes) : Prop :=
  _input s = i /\ at_eof s = false /\ contents (_current s) = cs.

Lemma peek_at s c i cs : at_input s (c :: i) cs -> 0 <= c < 128 -> _peek s = Ok (c, s).
Proof. intros (E & _) Hc. unfold _peek. by rewrite E, s8_small. Qed.
Lemma get_at s c i cs : at_input s (c :: i) cs -> 0 <= c < 128 -> exists s', _get s = Ok (c, s') /\ at_input s' i cs.
Proof.
  intros (E & Ee & Ec) Hc. unfold _get. rewrite E, s8_small by done.
  destruct (c =? 10); eexists; (split; [reflexivity|]); by split.
Qed.
Lemma append_at s c i cs :
  at_input s (c :: i) cs -> 0 <= c < 128 -> exists s', _append s = Ok (tt, s') /\ at_input s' i (cs ++ [c]).
Proof.
  intros H Hc. destruct (get_at s c i cs H Hc) as (s1 & E1 & (A & B & C)). unfold _append. erewrite bind_Ok by exact E1.
  eexists. split; [reflexivity|]. cbn. rewrite C. by split.
Qed.
Lemma set_type_at s t i cs :
  at_input s i cs -> exists s', set_type t s = Ok (tt, s') /\ at_input s' i cs /\ type (_current s') = t.
Proof. intros (A & B & C). eexists. split; [reflexivity|]. by repeat split. Qed.

Lemma skip_space_at ws n s c i cs :
  spaces ws -> isspace c = false -> 0 <= c < 128 -> (length ws < n)%nat -> at_input s (ws ++ c :: i) cs ->
  exists s', skip_space n s = Ok (tt, s') /\ at_input s' (c :: i) cs.
Proof.
  intros Hw Hc Hr. revert n s. induction Hw as [|w ws Hw _ IH]; intros [|n] s Hn H; cbn in Hn; try lia.
  - exists s. split; [|done]. cbn [skip_space]. erewrite bind_Ok by (eapply peek_at; done). by rewrite Hc.
  - pose proof (isspace_range w Hw). cbn [skip_space]. erewrite bind_Ok by (eapply peek_at; [exact H|lia]). rewrite Hw.
    destruct (get_at s w _ cs H) as (s1 & E1 & H1); [lia|]. erewrite bind_Ok by exact E1. apply IH; [lia|done].
Qed.
Lemma skip_space_end ws n s cs :
  spaces ws -> (length ws < n)%nat -> at_input s ws cs -> exists s', skip_space n s = Ok (tt, s') /\ at_eof s' = true.
Proof.
  intros Hw. revert n s. induction Hw as [|w ws Hw _ IH]; intros [|n] s Hn H; cbn in Hn; try lia.
  - cbn [skip_space]. unfold bind, _peek. destruct H as (-> & _ & _). eexists. by split.
  - pose proof (isspace_range w Hw). cbn [skip_space]. erewrite bind_Ok by (eapply peek_at; [exact H|lia]). rewrite Hw.
    destruct (get_at s w _ cs H) as (s1 & E1 & H1); [lia|]. erewrite bind_Ok by exact E1. apply IH; [lia|done].
Qed.
Lemma read_word_at w n s c i cs :
  Forall (fun x => word_char x = true) w -> word_char c = false -> 0 <= c < 128 -> (length w < n)%nat -> at_input s (w ++ c :: i) cs ->
  exists s', read_word n s = Ok (tt, s') /\ at_input s' (c :: i) (cs ++ w).
Proof.
  intros Hw Hc Hr. revert n s cs. induction Hw as [|x w Hx _ IH]; intros [|n] s cs Hn H; cbn in Hn; try lia.
  - exists s. rewrite app_nil_r. split; [|done]. cbn [read_word]. erewrite bind_Ok by (eapply peek_at; done).
    change (isalnum c || (c =? 95)) with (word_char c). by rewrite Hc.
  - pose proof (word_char_range x Hx). cbn [read_word]. erewrite bind_Ok by (eapply peek_at; [exact H|lia]).
    change (isalnum x || (x =? 95)) with (word_char x). rewrite Hx.
    destruct (append_at s x _ cs H) as (s1 & E1 & H1); [lia|]. erewrite bind_Ok by exact E1.
    destruct (IH n s1 (cs ++ [x])) as (s2 & E2 & H2); [lia|done|]. exists s2. split; [done|]. by rewrite <- (assoc_L (++)) in H2.
Qed.
Lemma read_header_at h n s i cs :
  Forall (fun c => 0 <= c < 128 /\ c <> 62) h -> (length h < n)%nat -> at_input s (h ++ 62 :: i) cs ->
  exists s', read_header_name n s = Ok (tt, s') /\ at_input s' (62 :: i) (cs ++ h).
Proof.
  intros Hh. revert n s cs. induction Hh as [|x h [Hx Hne] _ IH]; intros [|n] s cs Hn H; cbn in Hn; try lia.
  - exists s. rewrite app_nil_r. split; [|done]. cbn [read_header_name]. erewrite bind_Ok by (eapply peek_at; [exact H|lia]). done.
  - cbn [read_header_name]. erewrite bind_Ok by (eapply peek_at; [exact H|lia]). rewrite (proj2 (Z.eqb_neq _ _)) by done.
    erewrite bind_Ok by reflexivity. destruct H as (A & B & C). rewrite B.
    destruct (append_at s x (h ++ 62 :: i) cs) as (s1 & E1 & H1); [by split|lia|]. erewrite bind_Ok by exact E1.
    destruct (IH n s1 (cs ++ [x])) as (s2 & E2 & H2); [lia|done|]. exists s2. split; [done|]. by rewrite <- (assoc_L (++)) in H2.
Qed.
End steps.

(** ** Tokens *)

Lemma generate_starts s ws c i cs :
  spaces ws -> isspace c = false -> 0 <= c < 128 -> at_input s (ws ++ c :: i) cs ->
  exists s1, at_input s1 (c :: i) [] /\ _generate s = generate_token c s1.
Proof.
  intros Hw Hc Hr H. unfold _generate. erewrite bind_Ok by reflexivity.
  destruct (skip_space_at ws (S (length (_input s))) s c i cs Hw Hc Hr) as (s1 & E1 & H1); [|done|].
  { destruct H as (-> & _). rewrite length_app. cbn. lia. }
  erewrite bind_Ok by exact E1. erewrite bind_Ok by reflexivity. destruct H1 as (A & B & C). rewrite B.
  erewrite bind_Ok by reflexivity.
  match goal with |- context [bind _peek _ ?x] => set (s2 := x) end.
  assert (at_input s2 (c :: i) []) as H2 by (by repeat split).
  exists s2. split; [done|]. by erewrite bind_Ok by (eapply peek_at; done).
Qed.

Lemma symbol_type_range c t : map_find c symbol_types = Some t -> c = 40 \/ c = 41 \/ c = 44 \/ c = 59 \/ c = 36.
Proof. cbn. repeat case_decide; subst; auto 10. done. Qed.

Lemma lexeme_first t w : lexeme t w -> exists c w', w = c :: w' /\ isspace c = false /\ 0 <= c < 128.
Proof.
  destruct 1 as [c t H%symbol_type_range| | | |h Hh|c w t Ha Hw ->]; eexists _, _; (split; [reflexivity|]).
  1: (destruct H as [-> | [-> | [-> | [-> | ->]]]]; (split; [done|lia])).
  1-4: (split; [done|lia]).
  apply isalpha_range in Ha as [Ha _]. split; [|lia]. destruct (isspace c) eqn:E; [|done]. apply isspace_range in E. lia.
Qed.

(** One appended character after another. *)
Ltac take_char H :=
  lazymatch type of H with
  | at_input ?s (?c :: ?i) ?cs =>
      let s' := fresh "s" in let E := fresh "E" in
      destruct (append_at s c i cs H ltac:(lia)) as (s' & E & ?); erewrite bind_Ok by exact E; clear E
  end.

Lemma generate_token_at t w c i s :
  lexeme t w -> ends w c -> at_input s (w ++ c :: i) [] ->
  exists s', generate_token (hd 0 w) s = Ok (tt, s') /\ at_input s' (c :: i) t.2 /\ type (_current s') = t.1.
Proof.
  intros Hl (Hr & Hcolon & Hword) H.
  destruct Hl as [x t E| | | |h Hh|x w t Ha Hw ->]; cbn [hd app fst snd] in *.
  - assert (generate_token x s = (_append ;; set_type t) s) as ->.
    { destruct (symbol_type_range x t E) as [-> | [-> | [-> | [-> | ->]]]]; by injection E as <-. }
    apply symbol_type_range in E. take_char H. by apply set_type_at.
  - unfold generate_token. change (58 =? 58) with true. cbn iota. take_char H. destruct (set_type_at s0 colon _ _ H0) as (s1 & E1 & H1 & T1).
    erewrite bind_Ok by exact E1. erewrite bind_Ok by (eapply peek_at; [exact H1|lia]). rewrite (proj2 (Z.eqb_neq _ _)) by (by apply Hcolon). by exists s1.
  - unfold generate_token. change (58 =? 58) with true. cbn iota. take_char H. destruct (set_type_at s0 colon _ _ H0) as (s1 & E1 & H1 & T1).
    erewrite bind_Ok by exact E1. erewrite bind_Ok by (eapply peek_at; [exact H1|lia]). change (58 =? 58) with true. cbn iota.
    take_char H1. by apply set_type_at.
  - unfold generate_token. change (45 =? 58) with false. change (45 =? 45) with true. cbn iota. take_char H.
    erewrite bind_Ok by (eapply peek_at; [exact H0|lia]). change (negb (62 =? 62)) with false. cbn iota. take_char H0. by apply set_type_at.
  - unfold generate_token. change (60 =? 58) with false. change (60 =? 45) with false. change (60 =? 60) with true. cbn iota.
    destruct (get_at s 60 _ _ H) as (s1 & E1 & H1); [lia|]. erewrite bind_Ok by exact E1. erewrite bind_Ok by reflexivity.
    rewrite <- (assoc_L (++)) in H1. cbn [app] in H1.
    destruct (read_header_at h (S (length (_input s1))) s1 (c :: i) [] Hh) as (s2 & E2 & H2); [|done|].
    { destruct H1 as (-> & _). rewrite length_app. cbn. lia. }
    erewrite bind_Ok by exact E2. destruct (set_type_at s2 header_name _ _ H2) as (s3 & E3 & H3 & T3). erewrite bind_Ok by exact E3.
    destruct (get_at s3 62 _ _ H3) as (s4 & E4 & H4); [lia|]. erewrite bind_Ok by exact E4. exists s4. split; [done|]. split; [done|].
    unfold _get in E4. destruct H3 as (A & _ & _). rewrite A in E4. by injection E4 as <-.
  - pose proof (isalpha_range x Ha) as [Hx _].
    assert (generate_token x s = (_append ;; let* n := steps in read_word n ;; let* t := gets _current in
              set_type (default identifier (map_find (contents t) keywords))) s) as ->.
    { unfold generate_token. rewrite !(proj2 (Z.eqb_neq x _)) by lia.
      replace (map_find x symbol_types) with (@None token_type); [by rewrite Ha|].
      destruct (map_find x symbol_types) eqn:E; [|done]. apply symbol_type_range in E. lia. }
    take_char H. erewrite bind_Ok by reflexivity.
    assert (word_char c = false) as Hc.
    { destruct (last (x :: w)) as [y|] eqn:E; [|by apply last_None in E]. apply (Hword y); [done|].
      apply last_Some_elem_of, elem_of_cons in E as [-> | E]; [|by eapply Forall_forall in E; [|exact Hw]].
      unfold word_char, isalnum. by rewrite Ha. }
    destruct (read_word_at w (S (length (_input s0))) s0 c i [x] Hw Hc) as (s2 & E2 & H2); [lia| |done|].
    { destruct H0 as (-> & _). rewrite length_app. cbn. lia. }
    erewrite bind_Ok by exact E2. erewrite bind_Ok by reflexivity. destruct H2 as (A & B & C). rewrite C.
    apply set_type_at. by split.
Qed.

(** The lexer delivers the tokens of a layout. *)
Lemma layout_length ts f : layout ts f -> (length ts <= length f)%nat.
Proof.
  induction 1 as [|ws t w c rest ts _ Hl _ _ IH]; cbn; [lia|]. destruct (lexeme_first t w Hl) as (x & w' & -> & _).
  rewrite !length_app. cbn in *. lia.
Qed.
Lemma layout_delivers ts f s cs :
  layout ts f -> at_input s f cs -> exists s', _generate s = Ok (tt, s') /\ delivers s' ts.
Proof.
  intros Hl. revert s cs. induction Hl as [ws Hw|ws t w c rest ts Hw Hx Hc Hl IH]; intros s cs H.
  - unfold _generate. erewrite bind_Ok by reflexivity.
    destruct (skip_space_end ws (S (length (_input s))) s cs Hw) as (s1 & E1 & H1); [|done|].
    { destruct H as (-> & _). lia. }
    erewrite bind_Ok by exact E1. erewrite bind_Ok by reflexivity. rewrite H1. by exists s1.
  - destruct (lexeme_first t w Hx) as (x & w' & -> & Hns & Hr).
    destruct (generate_starts s ws x (w' ++ c :: rest) cs Hw Hns Hr H) as (s1 & H1 & ->).
    destruct (generate_token_at t (x :: w') c rest s1 Hx Hc H1) as (s2 & E2 & H2 & T2). cbn [hd] in E2.
    exists s2. split; [done|]. destruct (IH s2 t.2 H2) as (s3 & E3 & H3). destruct H2 as (A & B & C).
    cbn [delivers]. repeat split; [done..| |eauto]. rewrite A. by apply layout_length.
Qed.

(** A file that is laid out from tokens is read back as these tokens. *)
Theorem tokenize_layout ts f : layout ts f -> exists s, tokenize f = Ok s /\ delivers s ts.
Proof.
  intros H. unfold tokenize.
  destruct (layout_delivers ts f (mkTokenizer f false (mkToken 0 0 [] identifier) 1 1) [] H) as (s & -> & Hd); [by repeat split|].
  eauto.
Qed.

(** ** Writing tokens out *)

(** Each token followed by a blank; which tokens can be written. *)
Definition written (t : tok) : bytes := match t.1 with header_name => 60 :: t.2 ++ [62] | _ => t.2 end.
Definition spaced (ts : list tok) : bytes := ts ≫= fun t => written t ++ [32].
Definition writable (t : tok) : bool :=
  match t.1, t.2 with
  | header_name, h => forallb (fun c => (0 <=? c) && (c <? 128) && negb (c =? 62)) h
  | colon, w => bool_decide (w = [58])
  | scope, w => bool_decide (w = [58; 58])
  | arrow, w => bool_decide (w = [45; 62])
  | ty, [] => false
  | ty, c :: w =>
      bool_decide (w = [] /\ map_find c symbol_types = Some ty) ||
      isalpha c && forallb word_char w && bool_decide (ty = default identifier (map_find (c :: w) keywords))
  end.

Lemma writable_lexeme t : writable t = true -> lexeme t (written t).
Proof.
  destruct t as [ty w]. unfold writable, written. cbn [fst snd].
  assert (forall c w', bool_decide (w' = [] /\ map_find c symbol_types = Some ty) ||
      isalpha c && forallb word_char w' && bool_decide (ty = default identifier (map_find (c :: w') keywords)) = true -> lexeme (ty, c :: w') (c :: w')) as Hw.
  { intros c w'. rewrite orb_true_iff, !andb_true_iff, !bool_decide_eq_true. intros [[-> E] | [[Ha Hf] E]]; [by constructor|].
    apply lexeme_word; [done| |done]. by apply Forall_forall; intros x Hx; apply (proj1 (forallb_forall _ _) Hf), list_elem_of_In. }
  destruct ty; try (destruct w as [|c w]; [done|]; apply Hw); intros H.
  - apply bool_decide_eq_true in H as ->. apply lexeme_colon.
  - apply bool_decide_eq_true in H as ->. apply lexeme_scope.
  - apply bool_decide_eq_true in H as ->. apply lexeme_arrow.
  - apply lexeme_header, Forall_forall. intros x Hx%list_elem_of_In. apply (proj1 (forallb_forall _ _) H) in Hx.
    rewrite !andb_true_iff, negb_true_iff, Z.eqb_neq, Z.leb_le, Z.ltb_lt in Hx. tauto.
Qed.
Lemma blank_ends w : ends w 32.
Proof. split; [lia|]. by split. Qed.
Lemma blank_layout ts f : layout ts f -> layout ts (32 :: f).
Proof.
  destruct 1 as [ws Hw|ws t w c rest ts Hw Hl Hc Hts]; [by repeat constructor|].
  apply (layout_cons (32 :: ws)); [by constructor|done..].
Qed.
(** Tokens that can be written have a layout. *)
Lemma spaced_layout ts : Forall (fun t => writable t = true) ts -> layout ts (spaced ts).
Proof.
  induction 1 as [|t ts Ht _ IH]; [by repeat constructor|]. unfold spaced. rewrite bind_cons, <- (assoc_L (++)). fold (spaced ts).
  apply (layout_cons []); [constructor|by apply writable_lexeme|apply blank_ends|]. by apply blank_layout.
Qed.
