(* ===== verification/ThornRoundtrip.v ===== *)
(** * Reading back declarations

    The tokens a declaration is written with, and that the parser makes the same
    declaration of them, whatever follows. *)
From S2P Require Import Prelude Text ThornLexer ThornParser ThornContext ThornLayout.

(** ** The tokens of declarations *)

Definition sym (t : token_type) (s : string) : tok := (t, text s).
Definition ident (x : bytes) : tok := (identifier, x).
Definition t_open : tok := sym open_paren "(".
Definition t_close : tok := sym close_paren ")".
Definition t_comma : tok := sym comma ",".
Definition t_colon : tok := sym colon ":".
Definition t_semi : tok := sym semicolon ";".
Definition t_scope : tok := sym scope "::".

(** One or more elements with commas between them. *)
Definition separated {A} (f : A -> list tok) (l : list A) : list tok :=
  match l with
  | [] => []
  | x :: l' => f x ++ (l' ≫= fun y => t_comma :: f y)
  end.

Definition name_tokens (q : qualified_name) : list tok :=
  (if in_generated_scope q then [sym dollar "$"; t_scope] else []) ++
  match name_elements q with
  | [] => []
  | x :: l => ident x :: (l ≫= fun y => [t_scope; ident y])
  end.
Definition permissions_tokens (d : permissions_definition) : list tok :=
  sym permissions "permissions" :: match object_type d with Some q => sym for_ "for" :: name_tokens q | None => [] end ++
  t_open :: separated (fun x => [ident x]) (pd_permissions d) ++ [t_close; t_semi].
Definition parameter_tokens (p : parameter) : list tok :=
  ident (p_name p) :: t_colon ::
  (if p_in p then [sym direction "in"] else []) ++ (if p_out p then [sym direction "out"] else []) ++
  (if p_in p || p_out p then [sym ptr "ptr"] else []) ++
  match token_permissions p with
  | Some l => sym token_ "token" :: t_open :: separated (fun x => [ident x]) l ++ [t_close]
  | None => []
  end ++ name_tokens (type_spec p).
Definition syscall_tokens (d : parsed_syscall) : list tok :=
  sym syscall "syscall" :: t_open :: name_tokens (sc_scope d) ++
  (if sc_blocking d then [t_comma; sym blocking "blocking"] else []) ++
  t_close :: ident (sc_name d) :: t_open :: separated parameter_tokens (sc_parameters d) ++
  t_close :: match sc_return_type d with Some q => sym arrow "->" :: name_tokens q | None => [] end ++ [t_semi].
Definition enum_tokens (d : parsed_enum) : list tok :=
  sym enum_ "enum" :: ident (e_name d) :: t_open :: separated (fun x => [ident x]) (enumerations d) ++ [t_close; t_semi].
Definition union_member_tokens (m : union_member) : list tok := ident (um_name m) :: t_colon :: name_tokens (um_type m).
Definition member_tokens (m : struct_member) : list tok :=
  ident (sm_name m) :: t_colon ::
  match sm_type m with
  | MName q => name_tokens q
  | MUnion u => sym union_ "union" :: t_open :: separated union_member_tokens (u_members u) ++ [t_close]
  end.
Definition struct_tokens (d : parsed_struct) : list tok :=
  sym struct_ "struct" :: ident (s_name d) :: t_open :: separated member_tokens (s_members d) ++ [t_close; t_semi].
Definition include_tokens (d : parsed_include) : list tok :=
  [sym include "include"; (header_name, i_header_name d); t_semi].
Definition declaration_tokens (d : declaration) : list tok :=
  match d with
  | DPermissions d => permissions_tokens d
  | DEnum d => enum_tokens d
  | DStruct d => struct_tokens d
  | DSyscall d => syscall_tokens d
  | DInclude d => include_tokens d
  end.

(** What the grammar can express: names have elements, a generated one exactly
    one, and only the members of a structure may be none. *)
Definition name_ok (q : qualified_name) : Prop :=
  name_elements q <> [] /\ (in_generated_scope q = true -> length (name_elements q) = 1%nat).
Definition parameter_ok (p : parameter) : Prop := token_permissions p <> Some [] /\ name_ok (type_spec p).
Definition member_ok (m : struct_member) : Prop :=
  match sm_type m with MName q => name_ok q | MUnion u => u_members u <> [] /\ Forall (fun y => name_ok (um_type y)) (u_members u) end.
Definition declaration_ok (d : declaration) : Prop :=
  match d with
  | DPermissions d => pd_permissions d <> [] /\ (forall q, object_type d = Some q -> name_ok q)
  | DEnum d => enumerations d <> []
  | DStruct d => Forall member_ok (s_members d)
  | DSyscall d => name_ok (sc_scope d) /\ sc_parameters d <> [] /\ Forall parameter_ok (sc_parameters d) /\
                  (forall q, sc_return_type d = Some q -> name_ok q)
  | DInclude _ => True
  end.

(** ** Parsers of token sequences *)

#[local] Arguments delivers : simpl never.
#[local] Arguments expect : simpl never.
#[local] Arguments next_is : simpl never.

(** A sequence of tokens that does not go on with [::]. *)
Definition stops (ts : list tok) : Prop := exists t ts', ts = t :: ts' /\ t.1 <> scope.
Definition parses {A} (p : TM A) (ts : list tok) (a : A) : Prop :=
  forall s rest, delivers s (ts ++ rest) -> stops rest -> exists s', p s = Ok (a, s') /\ delivers s' rest.

(** ... and does so whatever follows. *)
Definition reads {A} (p : TM A) (ts : list tok) (a : A) : Prop :=
  forall s rest, delivers s (ts ++ rest) -> exists s', p s = Ok (a, s') /\ delivers s' rest.

Lemma stops_cons t ts : t.1 <> scope -> stops (t :: ts).
Proof. intros. by exists t, ts. Qed.
Lemma expect_ok t x s rest : delivers s ((t, x) :: rest) -> exists s', expect t s = Ok (x, s') /\ delivers s' rest.
Proof.
  intros (_ & T & C & _ & s' & E & D). exists s'. split; [|done]. unfold expect. erewrite bind_Ok by reflexivity.
  rewrite decide_True by done. erewrite bind_Ok by exact E. by rewrite C.
Qed.
Lemma next_is_ok t x y s rest : delivers s ((y, x) :: rest) -> next_is t s = Ok (bool_decide (y = t), s).
Proof. intros (_ & T & _). unfold next_is. erewrite bind_Ok by reflexivity. by rewrite T. Qed.
Lemma expect_parses t x : parses (expect t) [(t, x)] x.
Proof. intros s rest D _. by apply (expect_ok t x). Qed.

(** The fuel of the loops. *)
Lemma delivers_fuel s t ts : delivers s (t :: ts) -> (length ts <= length (_input s))%nat.
Proof. by intros (_ & _ & _ & H & _). Qed.

Section lists.
Context {A : Type} (item : TM A) (f : A -> list tok).

Lemma more_items_parses l n acc s rest :
  Forall (fun x => parses item (f x) x) l -> (length l < n)%nat ->
  delivers s ((l ≫= fun y => t_comma :: f y) ++ t_close :: rest) ->
  exists s', more_items item n acc s = Ok (acc ++ l, s') /\ delivers s' (t_close :: rest).
Proof using.
  intros Hl. revert n acc s. induction Hl as [|x l Hx Hl IH]; intros [|n] acc s Hn D; cbn in Hn; try lia; cbn [more_items].
  - cbn in D. erewrite bind_Ok by (eapply next_is_ok; exact D). cbn. rewrite app_nil_r. by exists s.
  - cbn [mbind list_bind app] in D. erewrite bind_Ok by (eapply next_is_ok; exact D).
    change (bool_decide (comma = close_paren)) with false. cbn iota.
    destruct (expect_ok _ _ _ _ D) as (s1 & E1 & D1). erewrite bind_Ok by exact E1. rewrite <- (assoc_L (++)) in D1.
    destruct (Hx s1 _ D1) as (s2 & E2 & D2).
    { destruct l as [|y l]; cbn; by apply stops_cons. }
    erewrite bind_Ok by exact E2. destruct (IH n (acc ++ [x]) s2) as (s3 & E3 & D3); [lia|done|].
    exists s3. split; [|done]. rewrite E3. by rewrite <- (assoc_L (++)).
Qed.
Lemma items_parses l s rest :
  l <> [] -> Forall (fun x => parses item (f x) x) l -> delivers s (separated f l ++ t_close :: rest) ->
  exists s', items item s = Ok (l, s') /\ delivers s' (t_close :: rest).
Proof using.
  intros Hne Hl D. destruct Hl as [|x l Hx Hl]; [done|]. cbn [separated] in D. rewrite <- (assoc_L (++)) in D.
  unfold items. destruct (Hx s _ D) as (s1 & E1 & D1). { destruct l as [|y l]; cbn; by apply stops_cons. }
  erewrite bind_Ok by exact E1. erewrite bind_Ok by reflexivity.
  destruct (more_items_parses l (S (S (length (_input s1)))) [x] s1 rest Hl) as (s2 & E2 & D2); [|done|by exists s2].
  assert (length l <= length (l ≫= fun y => t_comma :: f y))%nat as Hlen.
  { clear. induction l as [|y l IH]; cbn; [lia|]. rewrite length_app. lia. }
  destruct ((l ≫= fun y => t_comma :: f y) ++ t_close :: rest) as [|t ts] eqn:E.
  - destruct (l ≫= _); done.
  - apply delivers_fuel in D1. apply (f_equal length) in E. rewrite length_app in E. cbn in E. lia.
Qed.
End lists.

(** ** Each construct *)

(** The next step of a parser is to read the first token of the hypothesis [D]. *)
Ltac eat D :=
  let s := fresh "s" in let E := fresh "E" in let D' := fresh "D" in
  destruct (expect_ok _ _ _ _ D) as (s & E & D'); erewrite bind_Ok by exact E; clear E D; rename D' into D.
(** ... or to look at it. *)
Ltac look D :=
  erewrite bind_Ok by (eapply next_is_ok; exact D);
  match goal with
  | |- context [@bool_decide (?a = ?b) ?d] => let v := eval vm_compute in (@bool_decide (a = b) d) in change (@bool_decide (a = b) d) with v
  end; cbn [negb andb orb]; cbn iota.
(** ... or to run a parser whose tokens come first. *)
Ltac run_parser L D :=
  let s := fresh "s" in let E := fresh "E" in let D' := fresh "D" in
  destruct (L _ _ D) as (s & E & D'); [|erewrite bind_Ok by exact E; clear E D; rename D' into D].

Lemma more_segments_parses l n acc s rest :
  (length l < n)%nat -> delivers s ((l ≫= fun y => [t_scope; ident y]) ++ rest) -> stops rest ->
  exists s', more_segments n acc s = Ok (acc ++ l, s') /\ delivers s' rest.
Proof.
  revert n acc s. induction l as [|x l IH]; intros [|n] acc s Hn D Hs; cbn in Hn; try lia; cbn [more_segments].
  - cbn in D. destruct Hs as ([y z] & ts & -> & Hy). erewrite bind_Ok by (eapply next_is_ok; exact D).
    rewrite bool_decide_eq_false_2 by done. rewrite app_nil_r. by exists s.
  - cbn [mbind list_bind app] in D. look D. eat D. eat D.
    destruct (IH n (acc ++ [x]) s1) as (s2 & E2 & D2); [lia|done..|]. exists s2. rewrite E2, <- (assoc_L (++)). done.
Qed.

Lemma name_parses q : name_ok q -> parses parse_qualified_name (name_tokens q) q.
Proof.
  intros [Hne Hg] s rest D Hs. destruct q as [g [|x l]]; [done|]. cbn [in_generated_scope name_elements] in *.
  assert (forall s1, delivers s1 ((ident x :: (l ≫= fun y => [t_scope; ident y])) ++ rest) ->
    exists s', (let* a := expect identifier in let* n := loop_fuel in let* l := more_segments n [a] in
       if g && negb (length l =? 1)%nat
       then panic "a qualified name referencing generated scope contains more than one nested name segment"
       else ret (mkName g l)) s1 = Ok (mkName g (x :: l), s') /\ delivers s' rest) as Htail.
  { intros s1 D1. cbn [app] in D1. eat D1. erewrite bind_Ok by reflexivity.
    destruct (more_segments_parses l (S (S (length (_input s0)))) [x] s0 rest) as (s2 & E2 & D2); [|done..|].
    - assert (length l <= length (l ≫= fun y => [t_scope; ident y]))%nat as Hlen.
      { clear. induction l as [|y l IH]; cbn; [lia|]. lia. }
      destruct Hs as (t & ts & -> & _). destruct ((l ≫= fun y => [t_scope; ident y]) ++ t :: ts) as [|t' ts'] eqn:E; [by destruct (l ≫= _)|].
      apply delivers_fuel in D1. apply (f_equal length) in E. rewrite length_app in E. cbn in E. lia.
    - erewrite bind_Ok by exact E2. exists s2. split; [|done]. destruct g; [|done]. cbn [app length andb].
      specialize (Hg eq_refl). cbn [length] in Hg. by rewrite Hg. }
  unfold parse_qualified_name. destruct g; cbn [name_tokens in_generated_scope name_elements app] in D.
  - look D. rewrite bind_assoc. eat D. rewrite bind_assoc. eat D. erewrite bind_Ok by reflexivity. by apply Htail.
  - look D. erewrite bind_Ok by reflexivity. by apply Htail.
Qed.

Lemma ident_parses x : parses (expect identifier) [ident x] x.
Proof. apply expect_parses. Qed.
Lemma idents_parse (l : list bytes) : Forall (fun x => parses (expect identifier) [ident x] x) l.
Proof. apply Forall_true. apply ident_parses. Qed.

Lemma union_member_parses m : name_ok (um_type m) -> parses parse_union_member (union_member_tokens m) m.
Proof.
  intros Hm s rest D Hs. destruct m as [x q]. unfold parse_union_member. cbn in D. eat D. eat D.
  run_parser (name_parses q Hm) D; [done|]. by exists s2.
Qed.
Lemma member_parses m : member_ok m -> parses parse_struct_member (member_tokens m) m.
Proof.
  intros Hm s rest D Hs. destruct m as [x [q|[us]]]; unfold parse_struct_member; unfold member_tokens in D; cbn [app sm_name sm_type] in *.
  - eat D. eat D.
    assert (exists y ts, name_tokens q ++ rest = y :: ts /\ y.1 <> union_) as ([y1 y2] & ts & Ey & Hy).
    { destruct q as [[] [|z zs]], Hm as [Hm _]; try done; eexists _, _; (split; [reflexivity|done]). }
    pose proof D as D'. rewrite Ey in D'. erewrite bind_Ok by (eapply next_is_ok; exact D').
    rewrite bool_decide_eq_false_2 by done. cbn iota. rewrite bind_assoc. run_parser (name_parses q Hm) D; [done|].
    erewrite bind_Ok by reflexivity. by exists s2.
  - destruct Hm as [Hne Hu]. eat D. eat D. look D. rewrite !bind_assoc. unfold parse_union. rewrite !bind_assoc. eat D. rewrite bind_assoc.
    eat D. rewrite bind_assoc. rewrite <- (assoc_L (++)) in D. cbn [app u_members] in D.
    assert (Forall (fun y => parses parse_union_member (union_member_tokens y) y) us) as Hp.
    { eapply Forall_impl; [exact Hu|]. intros y Hy. by apply union_member_parses. }
    destruct (items_parses _ _ us _ _ Hne Hp D) as (s4 & E4 & D4).
    erewrite bind_Ok by exact E4. rewrite bind_assoc. eat D4. do 2 erewrite bind_Ok by reflexivity. by exists s5.
Qed.

Lemma enum_parses d : enumerations d <> [] -> reads parse_enum (enum_tokens d) d.
Proof.
  intros Hne s rest D. destruct d as [x l]. unfold parse_enum. unfold enum_tokens in D. cbn [app e_name enumerations] in *.
  eat D. eat D. eat D. rewrite <- (assoc_L (++)) in D. cbn [app] in D.
  destruct (items_parses _ _ l _ _ Hne (idents_parse l) D) as (s3 & E3 & D3). erewrite bind_Ok by exact E3. eat D3. eat D3. by exists s5.
Qed.
Lemma include_parses d : reads parse_include (include_tokens d) d.
Proof. intros s rest D. destruct d as [h]. unfold parse_include. cbn in D. eat D. eat D. eat D. by exists s2. Qed.
Lemma permissions_parses d :
  pd_permissions d <> [] -> (forall q, object_type d = Some q -> name_ok q) -> reads parse_permissions (permissions_tokens d) d.
Proof.
  intros Hne Hq s rest D. destruct d as [o l]. unfold parse_permissions. unfold permissions_tokens in D.
  cbn [object_type pd_permissions] in *.
  assert (forall s1, delivers s1 (t_open :: (separated (fun x => [ident x]) l ++ [t_close; t_semi]) ++ rest) ->
    exists s', (expect open_paren ;; let* l := items (expect identifier) in expect close_paren ;; expect semicolon ;; ret (mkPermissions o l)) s1 =
      Ok (mkPermissions o l, s') /\ delivers s' rest) as Htail.
  { intros s1 D1. eat D1. rewrite <- (assoc_L (++)) in D1. cbn [app] in D1.
    destruct (items_parses _ _ l _ _ Hne (idents_parse l) D1) as (s3 & E3 & D3). erewrite bind_Ok by exact E3. eat D3. eat D3. by exists s4. }
  cbn [app] in D. eat D. destruct o as [q|]; cbn [app] in D.
  - look D. rewrite bind_assoc. eat D. rewrite bind_assoc. rewrite <- (assoc_L (++)) in D.
    run_parser (name_parses q (Hq q eq_refl)) D; [by apply stops_cons|]. erewrite bind_Ok by reflexivity. by apply Htail.
  - look D. erewrite bind_Ok by reflexivity. by apply Htail.
Qed.

Lemma struct_members_parses l n acc s rest :
  Forall member_ok l -> (length l < n)%nat -> delivers s (separated member_tokens l ++ t_close :: rest) ->
  exists s', struct_members n acc s = Ok (acc ++ l, s') /\ delivers s' (t_close :: rest).
Proof.
  intros Hl. revert n acc s. induction Hl as [|x l Hx Hl IH]; intros [|n] acc s Hn D; cbn in Hn; try lia; cbn [struct_members].
  - cbn in D. look D. rewrite app_nil_r. by exists s.
  - cbn [separated] in D. rewrite <- (assoc_L (++)) in D.
    assert (exists ts, member_tokens x ++ (l ≫= fun y => t_comma :: member_tokens y) ++ t_close :: rest = ident (sm_name x) :: ts) as [ts Ets]
      by (unfold member_tokens; eexists; reflexivity).
    pose proof D as D'. rewrite Ets in D'. look D'.
    run_parser (member_parses x Hx) D; [destruct l as [|y l]; cbn; by apply stops_cons|].
    destruct l as [|y l].
    + cbn [mbind list_bind app] in D. look D. erewrite bind_Ok by reflexivity.
      destruct n as [|n]; [lia|]. cbn [struct_members]. look D. by exists s0.
    + cbn [mbind list_bind app] in D. look D. rewrite bind_assoc. eat D. erewrite bind_Ok by reflexivity.
      destruct (IH n (acc ++ [x]) s1) as (s2 & E2 & D2); [cbn; cbn in Hn; lia|exact D|]. exists s2. rewrite E2, <- (assoc_L (++)). done.
Qed.
Lemma struct_parses d : Forall member_ok (s_members d) -> reads parse_struct (struct_tokens d) d.
Proof.
  intros Hm s rest D. destruct d as [x l]. unfold parse_struct. unfold struct_tokens in D. cbn [app s_name s_members] in *.
  eat D. eat D. eat D. erewrite bind_Ok by reflexivity. rewrite <- (assoc_L (++)) in D. cbn [app] in D.
  destruct (struct_members_parses l (S (S (length (_input s2)))) [] s2 (t_semi :: rest) Hm) as (s3 & E3 & D3); [|done|].
  - assert (length l <= length (separated member_tokens l))%nat as Hlen.
    { clear. destruct l as [|y l]; cbn; [lia|]. rewrite length_app. induction l as [|z l IH]; cbn in *; [lia|]. rewrite length_app. lia. }
    destruct (separated member_tokens l ++ t_close :: t_semi :: rest) as [|t ts] eqn:E; [by destruct (separated member_tokens l)|].
    apply delivers_fuel in D. apply (f_equal length) in E. rewrite length_app in E. cbn in E. lia.
  - erewrite bind_Ok by exact E3. eat D3. eat D3. by exists s5.
Qed.

(** The directions of a parameter, [in] before [out]. *)
Definition direction_tokens (i o : bool) : list tok :=
  (if i then [sym direction "in"] else []) ++ (if o then [sym direction "out"] else []).
Lemma directions_step n i o x s rest :
  delivers s ((direction, x) :: rest) ->
  exists s', directions (S n) i o s = directions n (i || bool_decide (x = text "in")) (o || bool_decide (x = text "out")) s' /\ delivers s' rest.
Proof.
  intros D. destruct (expect_ok _ _ _ _ D) as (s' & E & D'). exists s'. split; [|done]. destruct D as (_ & T & C & _).
  cbn [directions]. erewrite bind_Ok by reflexivity. rewrite decide_True by done. erewrite bind_Ok by exact E. by rewrite C.
Qed.
Lemma directions_stop n i o t x s rest : t <> direction -> delivers s ((t, x) :: rest) -> directions (S n) i o s = Ok ((i, o), s).
Proof. intros Ht (_ & T & _). cbn [directions]. erewrite bind_Ok by reflexivity. by rewrite decide_False by (by rewrite T). Qed.
Lemma directions_parse n i o t x s rest :
  t <> direction -> (2 < n)%nat -> delivers s (direction_tokens i o ++ (t, x) :: rest) ->
  exists s', directions n false false s = Ok ((i, o), s') /\ delivers s' ((t, x) :: rest).
Proof.
  intros Ht Hn D. destruct n as [|[|[|n]]]; try lia. destruct i, o; cbn [direction_tokens app] in D.
  - destruct (directions_step (S (S n)) false false _ _ _ D) as (s1 & -> & D1).
    destruct (directions_step (S n) (false || bool_decide (text "in" = text "in")) (false || bool_decide (text "in" = text "out")) _ _ _ D1) as (s2 & -> & D2).
    exists s2. split; [|done]. by rewrite (directions_stop _ _ _ t x _ rest Ht D2).
  - destruct (directions_step (S (S n)) false false _ _ _ D) as (s1 & -> & D1).
    exists s1. split; [|done]. by rewrite (directions_stop _ _ _ t x _ rest Ht D1).
  - destruct (directions_step (S (S n)) false false _ _ _ D) as (s1 & -> & D1).
    exists s1. split; [|done]. by rewrite (directions_stop _ _ _ t x _ rest Ht D1).
  - exists s. split; [|done]. by rewrite (directions_stop _ _ _ t x _ rest Ht D).
Qed.

Lemma name_tokens_first q : name_ok q -> exists t x ts, name_tokens q = (t, x) :: ts /\ (t = identifier \/ t = dollar).
Proof. destruct q as [[] [|z zs]]; intros [Hne _]; try done; eexists _, _, _; (split; [reflexivity|auto]). Qed.

Lemma token_permissions_parse o q s rest :
  o <> Some [] -> name_ok q ->
  delivers s (match o with Some l => sym token_ "token" :: t_open :: separated (fun x => [ident x]) l ++ [t_close] | None => [] end ++ name_tokens q ++ rest) ->
  exists s', (let* t := next_is token_ in
       if t then expect token_ ;; expect open_paren ;; let* l := items (expect identifier) in expect close_paren ;; ret (Some l)
       else ret None) s = Ok (o, s') /\ delivers s' (name_tokens q ++ rest).
Proof.
  intros Ho Hq D. destruct o as [l|]; cbn [app] in D.
  - look D. eat D. eat D. rewrite <- (assoc_L (++)) in D. cbn [app] in D.
    assert (l <> []) as Hl by congruence. destruct (items_parses _ _ l _ _ Hl (idents_parse l) D) as (s2 & E2 & D2).
    erewrite bind_Ok by exact E2. eat D2. by exists s3.
  - destruct (name_tokens_first q Hq) as (t & x & ts & E & Ht). pose proof D as D'. rewrite E in D'. cbn [app] in D'.
    erewrite bind_Ok by (eapply next_is_ok; exact D'). rewrite bool_decide_eq_false_2 by (by destruct Ht as [-> | ->]). by exists s.
Qed.

Lemma parameter_parses p : parameter_ok p -> parses parse_parameter (parameter_tokens p) p.
Proof.
  intros [Hp Hq] s rest D Hs. destruct p as [x i o perms q]. unfold parse_parameter. unfold parameter_tokens in D.
  cbn [app p_name p_in p_out token_permissions type_spec] in *. eat D. eat D. erewrite bind_Ok by reflexivity.
  rewrite <- !(assoc_L (++)) in D.
  set (dirs := if i || o then [sym ptr "ptr"] else []) in D.
  set (perm := match perms with Some l => _ | None => [] end) in D.
  assert (exists t y ts, dirs ++ perm ++ name_tokens q ++ rest = (t, y) :: ts /\ t <> direction) as (t & y & ts & Et & Ht).
  { unfold dirs, perm. destruct (i || o); [by eexists _, _, _|]. destruct perms as [l|]; [by eexists _, _, _|].
    destruct (name_tokens_first q Hq) as (t & y & ts & -> & Ht). eexists _, _, _. split; [reflexivity|]. by destruct Ht as [-> | ->]. }
  assert (delivers s1 (direction_tokens i o ++ (t, y) :: ts)) as D1.
  { rewrite <- Et. unfold direction_tokens. by rewrite <- (assoc_L (++)). }
  destruct (directions_parse (S (S (length (_input s1)))) i o t y s1 ts Ht) as (s2 & E2 & D2); [|done|].
  { assert (1 <= length ts)%nat as H1.
    { apply (f_equal length) in Et. rewrite !length_app in Et. cbn in Et. destruct Hs as (z & zs & -> & _).
      destruct (name_tokens_first q Hq) as (? & ? & ? & Eq & _). rewrite Eq in Et. cbn in Et. unfold tok in *. lia. }
    destruct (direction_tokens i o ++ (t, y) :: ts) as [|z zs] eqn:E; [by destruct (direction_tokens i o)|].
    apply delivers_fuel in D1. apply (f_equal length) in E. rewrite length_app in E. cbn in E. unfold tok in *. lia. }
  erewrite bind_Ok by exact E2. rewrite <- Et in D2. cbn beta iota.
  assert (exists s3, (if i || o then expect ptr ;; ret tt else ret tt) s2 = Ok (tt, s3) /\ delivers s3 (perm ++ name_tokens q ++ rest)) as (s3 & E3 & D3).
  { unfold dirs in D2. destruct (i || o); [cbn [app] in D2; eat D2; by exists s3|by exists s2]. }
  erewrite bind_Ok by exact E3. destruct (token_permissions_parse perms q s3 rest Hp Hq D3) as (s4 & E4 & D4).
  rewrite <- bind_assoc. erewrite bind_Ok by exact E4. run_parser (name_parses q Hq) D4; [done|]. by exists s5.
Qed.

Lemma return_type_parses o s rest :
  (forall q, o = Some q -> name_ok q) -> delivers s (match o with Some q => sym arrow "->" :: name_tokens q | None => [] end ++ t_semi :: rest) ->
  exists s', (let* a := next_is arrow in
     if a then expect arrow ;; let* q := parse_qualified_name in ret (Some q) else ret None) s = Ok (o, s') /\ delivers s' (t_semi :: rest).
Proof.
  intros Ho D. destruct o as [q|]; cbn [app] in D; look D; [|by exists s]. eat D.
  run_parser (name_parses q (Ho q eq_refl)) D; [by apply stops_cons|]. by exists s1.
Qed.

Lemma syscall_parses d : declaration_ok (DSyscall d) -> reads parse_syscall (syscall_tokens d) d.
Proof.
  intros (Hsc & Hne & Hps & Hr) s rest D. destruct d as [sc b x ps r]. unfold parse_syscall. unfold syscall_tokens in D.
  cbn [app sc_scope sc_blocking sc_name sc_parameters sc_return_type] in *. eat D. eat D. rewrite <- !(assoc_L (++)) in D.
  run_parser (name_parses sc Hsc) D; [destruct b; cbn; by apply stops_cons|].
  assert (exists s3, (let* c := next_is comma in (if c then expect comma ;; expect blocking ;; ret tt else ret tt) ;; ret c) s2 = Ok (b, s3) /\
    delivers s3 ((t_close :: ident x :: t_open :: separated parameter_tokens ps ++
      t_close :: match r with Some q => sym arrow "->" :: name_tokens q | None => [] end ++ [t_semi]) ++ rest)) as (s3 & E3 & D3).
  { destruct b; cbn [app] in D.
    - look D. rewrite bind_assoc. eat D. rewrite bind_assoc. eat D. erewrite bind_Ok by reflexivity. by exists s4.
    - look D. erewrite bind_Ok by reflexivity. by exists s2. }
  apply bind_Ok_inv in E3 as (b' & s2' & E3 & E3'). apply bind_Ok_inv in E3' as (u & s3' & E3' & [= -> ->]).
  erewrite bind_Ok by exact E3. erewrite bind_Ok by exact E3'. cbn [app] in D3. eat D3. eat D3. eat D3.
  rewrite <- (assoc_L (++)) in D3. cbn [app] in D3.
  assert (Forall (fun y => parses parse_parameter (parameter_tokens y) y) ps) as Hp.
  { eapply Forall_impl; [exact Hps|]. apply parameter_parses. }
  destruct (items_parses _ _ ps _ _ Hne Hp D3) as (s7 & E7 & D7). erewrite bind_Ok by exact E7. eat D7.
  rewrite <- (assoc_L (++)) in D7. cbn [app] in D7. destruct (return_type_parses r _ rest Hr D7) as (s9 & E9 & D9).
  rewrite <- bind_assoc. erewrite bind_Ok by exact E9. eat D9. eexists. by split.
Qed.

(** A declaration is read back from its tokens. *)
Lemma declaration_reads d : declaration_ok d -> reads parse_declaration (declaration_tokens d) d.
Proof.
  intros Hd s rest D. unfold parse_declaration. erewrite bind_Ok by reflexivity.
  assert (exists t x ts, declaration_tokens d = (t, x) :: ts) as (t & x & ts & E) by (destruct d; eexists _, _, _; reflexivity).
  assert (type (_current s) = t) as ->. { rewrite E in D. by destruct D as (_ & ? & _). }
  destruct d as [d|d|d|d|d]; injection E as <- _ _; cbn [declaration_tokens] in D.
  - destruct Hd as [H1 H2]. destruct (permissions_parses d H1 H2 s rest D) as (s' & E' & D'). erewrite bind_Ok by exact E'. by exists s'.
  - destruct (enum_parses d Hd s rest D) as (s' & E' & D'). erewrite bind_Ok by exact E'. by exists s'.
  - destruct (struct_parses d Hd s rest D) as (s' & E' & D'). erewrite bind_Ok by exact E'. by exists s'.
  - destruct (syscall_parses d Hd s rest D) as (s' & E' & D'). erewrite bind_Ok by exact E'. by exists s'.
  - destruct (include_parses d s rest D) as (s' & E' & D'). erewrite bind_Ok by exact E'. by exists s'.
Qed.
