(* ===== verification/ThornTypes.v ===== *)
(** * The typing rules of the interface language

    A declarative account of well typed interfaces, and how what thorn accepts
    compares with it: one rule is not enforced, all others are; with
    [ThornRoundtrip], from the text of the file on.  Then the numbers of the
    system calls and of the permissions. *)
From S2P Require Import Prelude Text ThornLexer ThornParser ThornContext ThornLayout ThornRoundtrip.

(** ** Rules *)

(** What the rules know: the names declared so far and the permissions. *)
Record env : Type := mkEnv { names : gset bytes; object_perms : gmap bytes (list bytes); global_perms : option (list bytes) }.

Section rules.
Context (sc : bytes).

(** A name of the generated scope was declared before. *)
Definition resolves (G : env) (q : qualified_name) : Prop :=
  in_generated_scope q = true -> exists x, last (name_elements q) = Some x /\ x ∈ names G.
(** How a name is written in the generated code. *)
Definition joined (l : list bytes) : bytes := match l with [] => [] | x :: l' => foldl (fun acc y => acc ++ sep ++ y) x l' end.
Definition spelled (q : qualified_name) : bytes :=
  if in_generated_scope q then sc ++ sep ++ default [] (last (name_elements q)) else joined (name_elements q).

Definition permission_known (G : env) (object perm : bytes) : Prop :=
  perm ∈ default [] (global_perms G) \/ perm ∈ default [] (object_perms G !! object).

Definition member_typed (G : env) (m : struct_member) : Prop :=
  match sm_type m with MName q => resolves G q | MUnion u => Forall (fun y => resolves G (um_type y)) (u_members u) end.

(** A token names a kernel object and permissions it can have; what is not a token
    or comes with a direction has a type that resolves. *)
Inductive parameter_typed (G : env) (p : parameter) : Prop :=
| typed_pointer :
    p_in p || p_out p = true -> (is_Some (token_permissions p) -> in_generated_scope (type_spec p) = false) ->
    resolves G (type_spec p) -> parameter_typed G p
| typed_token perms :
    p_in p || p_out p = false -> token_permissions p = Some perms -> in_generated_scope (type_spec p) = false ->
    Forall (permission_known G (joined (name_elements (type_spec p)))) perms -> parameter_typed G p
| typed_value :
    p_in p || p_out p = false -> token_permissions p = None -> resolves G (type_spec p) -> parameter_typed G p.

(** A system call that takes a token with specified permissions has a check that can
    fail, so it returns the generated result type. *)
Definition token_with_permissions (p : parameter) : Prop :=
  p_in p || p_out p = false /\ exists perm perms, token_permissions p = Some (perm :: perms).
Definition returns_result (d : declaration) : Prop :=
  match d with
  | DSyscall d => Exists token_with_permissions (sc_parameters d) ->
      exists q, sc_return_type d = Some q /\ spelled q = sc ++ text "::result"
  | _ => True
  end.

Definition declare (x : bytes) (G : env) : env := mkEnv ({[x]} ∪ names G) (object_perms G) (global_perms G).

(** The rules, but for [returns_result]. *)
Inductive lenient : env -> declaration -> env -> Prop :=
| typed_global G l :
    global_perms G = None -> lenient G (DPermissions (mkPermissions None l)) (mkEnv (names G) (object_perms G) (Some l))
| typed_object G q l :
    resolves G q -> object_perms G !! spelled q = None ->
    lenient G (DPermissions (mkPermissions (Some q) l)) (mkEnv (names G) (<[spelled q := l]> (object_perms G)) (global_perms G))
| typed_enum G d : e_name d ∉ names G -> lenient G (DEnum d) (declare (e_name d) G)
| typed_struct G d : Forall (member_typed G) (s_members d) -> s_name d ∉ names G -> lenient G (DStruct d) (declare (s_name d) G)
| typed_syscall G d :
    (length (sc_parameters d) <= 6)%nat -> Forall (parameter_typed G) (sc_parameters d) ->
    (forall q, sc_return_type d = Some q -> resolves G q) -> sc_name d ∉ names G ->
    lenient G (DSyscall d) (declare (sc_name d) G)
| typed_include G d : lenient G (DInclude d) G.

(** All rules. *)
Definition typed (G : env) (d : declaration) (G' : env) : Prop := lenient G d G' /\ returns_result d.

(** The declarations of a file one after another. *)
Inductive all_by (R : env -> declaration -> env -> Prop) : env -> list declaration -> env -> Prop :=
| all_nil G : all_by R G [] G
| all_cons G G' G'' d ds : R G d G' -> all_by R G' ds G'' -> all_by R G (d :: ds) G''.
End rules.

Definition env_of (c : context) : env := mkEnv (dom (_symbols c)) (_permissions c) (_global_permissions c).

(** ** Checks *)

(** A check that succeeds with the value [g] exactly when [P], and otherwise stops
    with a message; it records dependencies between modules and nothing else. *)
Definition same_tables (c c' : context) : Prop :=
  _symbols c' = _symbols c /\ _module_includes c' = _module_includes c /\ _syscalls c' = _syscalls c /\
  _symbols_in_order c' = _symbols_in_order c /\ _permissions c' = _permissions c /\ _global_permissions c' = _global_permissions c.
Definition checked {B} (m : M context B) (P : Prop) (c : context) (g : B) : Prop :=
  (P /\ exists c', m c = Ok (g, c') /\ same_tables c c') \/ (~ P /\ exists msg, m c = Err (Panic msg)).

#[global] Instance same_tables_equivalence : Equivalence same_tables.
Proof.
  split; [by intros c | intros c d (? & ? & ? & ? & ? & ?); by repeat split |].
  intros c d e (? & ? & ? & ? & ? & ?) (? & ? & ? & ? & ? & ?). repeat split; congruence.
Qed.
Lemma same_env c c' : same_tables c c' -> env_of c' = env_of c.
Proof. intros (A & _ & _ & _ & B & C). unfold env_of. by rewrite A, B, C. Qed.

Lemma checked_ret {B} c (g : B) : checked (ret g) True c g.
Proof. left. split; [done|]. by exists c. Qed.
Lemma checked_bind {A B} (m : M context A) (k : A -> M context B) (P Q : Prop) c a b :
  checked m P c a -> (forall c', same_tables c c' -> checked (k a) Q c' b) -> checked (bind m k) (P /\ Q) c b.
Proof.
  intros [(HP & c' & E & S) | (HP & msg & E)] Hk; unfold checked, bind; rewrite E.
  - destruct (Hk c' S) as [(HQ & c'' & E' & S') | (HQ & msg & E')]; rewrite E'; [left|right; split; [tauto|eauto]].
    split; [done|]. exists c''. split; [done|]. by etransitivity.
  - right. split; [tauto|eauto].
Qed.
Lemma checked_iff {B} (m : M context B) (P Q : Prop) c b : (P <-> Q) -> checked m P c b -> checked m Q c b.
Proof. unfold checked. intros H [[? ?] | [? ?]]; [left|right]; tauto. Qed.
Lemma checked_panic {B} (P : Prop) msg c (b : B) : ~ P -> checked (panic msg) P c b.
Proof. intros. right. split; [done|]. by exists msg. Qed.

Lemma checked_map {A B} (m : M context A) (f : A -> B) P c a : checked m P c a -> checked (bind m (fun x => ret (f x))) P c (f a).
Proof.
  intros H. apply (checked_iff _ (P /\ True)); [tauto|]. eapply checked_bind; [exact H|]. intros c1 _. apply checked_ret.
Qed.

Lemma checked_for_each {A B} (f : A -> M context B) (P : A -> Prop) (g : A -> B) l c0 c :
  Forall (fun x => forall c', same_tables c0 c' -> checked (f x) (P x) c' (g x)) l -> same_tables c0 c ->
  checked (for_each f l) (Forall P l) c (g <$> l).
Proof.
  intros H. revert c. induction H as [|x l Hx _ IH]; intros c S; cbn [for_each fmap list_fmap].
  { eapply checked_iff; [|apply checked_ret]. split; [constructor|done]. }
  eapply checked_iff; [symmetry; apply Forall_cons|]. eapply checked_bind; [by apply Hx|]. intros c1 S1.
  apply (checked_map _ (fun ys => g x :: ys)). apply IH. by etransitivity.
Qed.

Lemma checked_for_each_same {A} (f : A -> M context A) (P : A -> Prop) l c0 c :
  (forall x c', same_tables c0 c' -> checked (f x) (P x) c' x) -> same_tables c0 c -> checked (for_each f l) (Forall P l) c l.
Proof.
  intros H S. pose proof (checked_for_each f P (fun x => x) l c0 c) as H'.
  replace ((fun x => x) <$> l) with l in H' by (symmetry; apply list_fmap_id). apply H'; [|done]. by apply Forall_true.
Qed.

Section checks.
Context (args : context_args) (m : bytes).

Lemma join_ok l : l <> [] -> join_elements l = Ok (joined l).
Proof using. by destruct l. Qed.
Lemma last_ok (l : list bytes) : l <> [] -> exists x, last l = Some x.
Proof using. intros H. destruct (last l) as [x|] eqn:E; [eauto|]. by apply last_None in E. Qed.

Lemma processed_checked q c :
  name_ok q -> checked (processed args m q) (resolves (env_of c) q) c (spelled (arg_scope args) q).
Proof using.
  intros [Hne _]. unfold processed, _process_qualified_name, resolves, spelled, checked.
  destruct (in_generated_scope q).
  - destruct (last_ok _ Hne) as [x Ex]. rewrite Ex. unfold back. rewrite Ex. cbn [lift default].
    unfold bind, ret, get, modify, panic, fail. cbn. destruct (_symbols c !! x) as [s|] eqn:E.
    + left. split. { intros _. exists x. split; [done|]. apply elem_of_dom. eauto. }
      destruct (decide (m = module s)); (eexists; split; [reflexivity|]); by repeat split.
    + right. split; [|eauto]. intros H. destruct (H eq_refl) as (y & [= <-] & Hy%elem_of_dom). rewrite E in Hy. by destruct Hy.
  - rewrite join_ok by done. left. split; [done|]. exists c. by split.
Qed.
Lemma processed_same q c0 c :
  name_ok q -> same_tables c0 c -> checked (processed args m q) (resolves (env_of c0) q) c (spelled (arg_scope args) q).
Proof using. intros Hq S. rewrite <- (same_env c0 c S). by apply processed_checked. Qed.

(** What the members and parameters are described as. *)
Definition member_desc (x : struct_member) : bytes * member_description :=
  (sm_name x,
   match sm_type x with
   | MName q => DName (spelled (arg_scope args) q)
   | MUnion u => DUnion (mkUnionDesc ((fun y => (um_name y, spelled (arg_scope args) (um_type y))) <$> u_members u))
   end).
Definition parameter_desc (p : parameter) : bytes * parameter_description * bool :=
  (p_name p,
   if p_in p || p_out p then PPointer (mkPointer (p_in p) (p_out p) (spelled (arg_scope args) (type_spec p)))
   else match token_permissions p with
        | Some perms => PHandle (mkHandleToken perms (joined (name_elements (type_spec p))))
        | None => PType (spelled (arg_scope args) (type_spec p))
        end, false).

Lemma describe_member_checked x c0 c :
  member_ok x -> same_tables c0 c -> checked (describe_member args m x) (member_typed (env_of c0) x) c (member_desc x).
Proof using.
  unfold member_ok, describe_member, member_typed, member_desc. destruct (sm_type x) as [q|u]; intros Hx S.
  - apply (checked_map _ (fun t => (sm_name x, DName t))). by apply processed_same.
  - destruct Hx as [_ Hx].
    apply (checked_map _ (fun us => (sm_name x, DUnion (mkUnionDesc us)))).
    apply (checked_for_each _ (fun y => resolves (env_of c0) (um_type y)) (fun y => (um_name y, spelled (arg_scope args) (um_type y))) _ c0); [|done].
    eapply Forall_impl; [exact Hx|]. intros y Hy c1 S1. apply (checked_map _ (fun t => (um_name y, t))). by apply processed_same.
Qed.

Lemma check_permission_checked deref perm c0 c :
  same_tables c0 c -> checked (check_permission deref perm) (permission_known (env_of c0) deref perm) c perm.
Proof using.
  intros S. rewrite <- (same_env c0 c S). unfold check_permission, permission_known, checked. cbn [env_of global_perms object_perms].
  unfold bind, get. destruct (bool_decide_reflect (perm ∈ default [] (_global_permissions c))) as [H|H];
    [left; split; [tauto|by exists c]|].
  destruct (bool_decide_reflect (perm ∈ default [] (_permissions c !! deref))) as [H'|H']; [left; split; [tauto|by exists c]|].
  right. split; [tauto|]. by eexists.
Qed.

Lemma describe_parameter_checked p c0 c :
  parameter_ok p -> same_tables c0 c -> checked (describe_parameter args m p) (parameter_typed (env_of c0) p) c (parameter_desc p).
Proof using.
  intros [Hp Hq] S. unfold describe_parameter, parameter_desc.
  destruct (bool_decide_reflect (is_Some (token_permissions p))) as [Ht|Ht]; destruct (in_generated_scope (type_spec p)) eqn:Eg; cbn [andb].
  1: { apply checked_panic. intros [? H|perms ? ? H|? H]; [rewrite H in Eg by done| |rewrite H in Ht; by destruct Ht]; congruence. }
  all: destruct (p_in p || p_out p) eqn:Eio.
  1,3,5: eapply checked_iff; [|apply (checked_map _ (fun t => (p_name p, PPointer (mkPointer (p_in p) (p_out p) t), false))); by apply (processed_same _ c0)];
    split; [intros H; by apply typed_pointer|intros [? ? ?|perms ? ? ?|? ?]; first [done | congruence]].
  - destruct (token_permissions p) as [perms|] eqn:Ep; [|by destruct Ht].
    rewrite join_ok by (by destruct Hq). cbn [lift]. unfold bind at 1, ret at 1. change (negb (bool_decide ((@nil bytes) = []))) with false.
    eapply checked_iff; [|apply (checked_map _ (fun l => (p_name p, PHandle (mkHandleToken l (joined (name_elements (type_spec p)))), false)));
      apply (checked_for_each_same _ (permission_known (env_of c0) (joined (name_elements (type_spec p)))) _ c0); [|done]].
    + split; [intros H; by eapply typed_token|intros [? ? ?|perms' ? E ? H|? E]; first [done | congruence]].
    + intros x c1 S1. by apply check_permission_checked.
  - destruct (token_permissions p) as [perms|] eqn:Ep; [by destruct Ht|].
    eapply checked_iff; [|apply (checked_map _ (fun t => (p_name p, PType t, false))); by apply (processed_same _ c0)].
    split; [intros H; by apply typed_value|intros [? ? ?|perms' ? E ? H|? E]; first [done | congruence]].
  - destruct (token_permissions p) as [perms|] eqn:Ep; [by destruct Ht|].
    eapply checked_iff; [|apply (checked_map _ (fun t => (p_name p, PType t, false))); by apply (processed_same _ c0)].
    split; [intros H; by apply typed_value|intros [? ? ?|perms' ? E ? H|? E]; first [done | congruence]].
Qed.
End checks.

(** ** Declarations *)

(** A step that succeeds exactly when [P] and then leads to what [G] describes, and
    otherwise fails with an error of [R]. *)
Definition with_message (e : error) : Prop := exists msg, e = Panic msg.
Definition declares (k : M context unit) (P : Prop) (c : context) (G : env) (R : error -> Prop) : Prop :=
  (P /\ exists c', k c = Ok (tt, c') /\ env_of c' = G) \/ (~ P /\ exists e, k c = Err e /\ R e).

(** How a declaration that breaks a rule is refused: with a message, but for
    permissions of a type that was not declared, where an exception ends the program. *)
Definition refusal (G : env) (d : declaration) (e : error) : Prop :=
  match d with
  | DPermissions (mkPermissions (Some q) _) =>
      (resolves G q -> with_message e) /\ (~ resolves G q -> e = Uncaught "std::bad_optional_access")
  | _ => with_message e
  end.

Lemma declares_iff k (P Q : Prop) c G R : (P <-> Q) -> declares k P c G R -> declares k Q c G R.
Proof. unfold declares. intros H [[? ?] | [? ?]]; [left|right]; tauto. Qed.
Lemma checked_declares {A} (k : M context A) (f : A -> M context unit) (P Q : Prop) c a G :
  checked k P c a -> (forall c', same_tables c c' -> declares (f a) Q c' G with_message) ->
  declares (bind k f) (P /\ Q) c G with_message.
Proof.
  intros [(HP & c' & E & S) | (HP & msg & E)] Hk; unfold declares, bind; rewrite E.
  - destruct (Hk c' S) as [(HQ & c'' & E' & S') | (HQ & e & E' & He)]; rewrite E'; [left|right]; split; eauto. tauto.
  - right. split; [tauto|]. eexists. split; [done|]. by eexists.
Qed.
Lemma insert_symbol_declares n s c0 c :
  same_tables c0 c -> declares (_insert_symbol n s) (n ∉ names (env_of c0)) c (declare n (env_of c0)) with_message.
Proof.
  intros S. rewrite <- (same_env _ _ S). unfold declares, _insert_symbol, bind, get, modify, panic, fail. cbn.
  destruct (_symbols c !! n) as [s'|] eqn:E.
  - right. split; [intros H; apply H, elem_of_dom; eauto|]. eexists. split; [done|]. by eexists.
  - left. split; [by apply not_elem_of_dom|]. eexists. split; [reflexivity|]. unfold env_of, declare. cbn. by rewrite dom_insert_L.
Qed.

Section declarations.
Context (args : context_args) (m : bytes).

Lemma name_no_panic q c msg : name_ok q -> _process_qualified_name args m q c <> Err (Panic msg).
Proof using.
  intros [Hne _]. unfold _process_qualified_name. destruct (in_generated_scope q).
  - destruct (last_ok _ Hne) as [x Ex]. unfold back. rewrite Ex. unfold bind, get, lift, ret, modify. cbn.
    destruct (_symbols c !! x) as [s|]; [|done]. by destruct (decide (m = module s)).
  - by rewrite join_ok.
Qed.
Abbreviation Lenient := (lenient (arg_scope args)).

Lemma permissions_declares d c :
  declaration_ok (DPermissions d) ->
  exists P G', declares (_insert_permissions args m d) P c G' (refusal (env_of c) (DPermissions d)) /\ forall G, Lenient (env_of c) (DPermissions d) G <-> P /\ G = G'.
Proof using.
  destruct d as [[q|] l]; intros [_ Hq]; unfold _insert_permissions; cbn [object_type pd_permissions].
  - pose proof (processed_checked args m q c (Hq q eq_refl)) as Hp. set (t := spelled (arg_scope args) q) in *.
    exists (resolves (env_of c) q /\ _permissions c !! t = None),
      (mkEnv (names (env_of c)) (<[t := l]> (_permissions c)) (_global_permissions c)). split.
    + unfold checked, processed, declares in *. unfold bind in *.
      destruct (_process_qualified_name args m q c) as [[[t'|] c1]|e] eqn:Ep.
      * destruct Hp as [(Hr & c' & [= -> ->] & S) | (_ & msg & [=])]. cbn. destruct S as (Es & _ & _ & _ & Ep' & Eg). rewrite Ep'.
        destruct (_permissions c !! t); [right; split; [by intros [_ ?]|]; eexists; split; [done|]; split; [by eexists|done]|left; split; [done|]].
        eexists. split; [reflexivity|]. unfold env_of. cbn. by rewrite Es, Ep', Eg.
      * destruct Hp as [(_ & c' & [=] & _) | (Hr & _)]. right. split; [tauto|]. eexists. by split.
      * exfalso. destruct Hp as [(_ & c' & [=] & _) | (Hr & msg & [= ->])]. by eapply name_no_panic, Ep; apply Hq.
    + intros G. split; [by inversion 1|]. intros ((H1 & H2) & ->). by apply (typed_object (arg_scope args) (env_of c)).
  - exists (_global_permissions c = None), (mkEnv (names (env_of c)) (_permissions c) (Some l)). split.
    + unfold declares, bind, get. cbn. destruct (_global_permissions c); [right; split; [done|]; eexists; split; [done|by eexists]|left; split; [done|by eexists]].
    + intros G. split; [by inversion 1|]. intros [H ->]. by apply (typed_global (arg_scope args) (env_of c)).
Qed.

Lemma enum_declares d c :
  exists P G', declares (_insert_enum m d) P c G' with_message /\ forall G, Lenient (env_of c) (DEnum d) G <-> P /\ G = G'.
Proof using.
  eexists _, _. split; [by apply (insert_symbol_declares _ _ c)|]. intros G. split; [by inversion 1|].
  intros [H ->]. by apply typed_enum.
Qed.
Lemma struct_declares d c :
  declaration_ok (DStruct d) ->
  exists P G', declares (_insert_struct args m d) P c G' with_message /\ forall G, Lenient (env_of c) (DStruct d) G <-> P /\ G = G'.
Proof using.
  intros Hd. eexists _, _. split.
  - eapply checked_declares; [|intros c' S; by apply (insert_symbol_declares _ _ c)].
    apply (checked_for_each _ (member_typed (env_of c)) (member_desc args) _ c); [|done].
    eapply Forall_impl; [exact Hd|]. intros x Hx c1 S1. by apply describe_member_checked.
  - intros G. split; [by inversion 1|]. intros [[H1 H2] ->]. by apply typed_struct.
Qed.

Lemma return_type_checked (r : option qualified_name) c0 c :
  (forall q, r = Some q -> name_ok q) -> same_tables c0 c ->
  checked (match r with Some q => let* t := processed args m q in ret (Some t) | None => ret None end)
    (forall q, r = Some q -> resolves (env_of c0) q) c (spelled (arg_scope args) <$> r).
Proof using.
  intros Hr S. destruct r as [q|]; cbn.
  - eapply checked_iff; [|apply (checked_map _ Some), (processed_same args m q c0); [by apply Hr|done]].
    split; [by intros H ? [= <-]|eauto].
  - eapply checked_iff; [|apply checked_ret]. done.
Qed.
Lemma no_token_flag (ps : list parameter) : existsb snd (parameter_desc args <$> ps) = false.
Proof using. by induction ps. Qed.

Lemma syscall_declares d c :
  arg_arch args = text "amd64" -> declaration_ok (DSyscall d) ->
  exists P G', declares (_insert_syscall args m d) P c G' with_message /\ forall G, Lenient (env_of c) (DSyscall d) G <-> P /\ G = G'.
Proof using.
  intros Ha ([Hsc _] & _ & Hps & Hr).
  exists ((length (sc_parameters d) <= 6)%nat /\ Forall (parameter_typed (env_of c)) (sc_parameters d) /\
    (forall q, sc_return_type d = Some q -> resolves (env_of c) q) /\ sc_name d ∉ names (env_of c)), (declare (sc_name d) (env_of c)). split.
  - unfold _insert_syscall. rewrite Ha. change (arch_registers_for_args (text "amd64")) with
      (Some [text "rdi"; text "rsi"; text "r8"; text "r9"; text "r10"; text "r12"]). cbv iota.
    change (length [text "rdi"; text "rsi"; text "r8"; text "r9"; text "r10"; text "r12"]) with 6%nat.
    destruct (6 <? length (sc_parameters d))%nat eqn:E6; [apply Nat.ltb_lt in E6|apply Nat.ltb_ge in E6].
    { right. split; [lia|]. eexists. split; [done|by eexists]. }
    rewrite join_ok by done. cbn [lift].
    eapply declares_iff; [|eapply (checked_declares (ret _) _ True); [apply checked_ret|]; intros c1 S1;
      eapply checked_declares; [apply (checked_for_each _ (parameter_typed (env_of c)) (parameter_desc args) _ c); [|done]|]; [|intros c2 S2;
      eapply (checked_declares _ _ _ (sc_name d ∉ names (env_of c))); [apply (return_type_checked _ c); [done|by etransitivity]|]]].
    1: tauto.
    { eapply Forall_impl; [exact Hps|]. intros x Hx c2 S2. by apply describe_parameter_checked. }
    intros c3 S3. cbv beta zeta. rewrite no_token_flag. cbn [andb].
    match goal with |- declares (bind (_insert_symbol ?n ?s) _) _ _ _ _ => pose proof (insert_symbol_declares n s c c3) as H end.
    unfold declares, bind in *. destruct H as [(Hn & c' & -> & Ee) | (Hn & e & -> & He)]; [by do 2 (etransitivity; [done|])|left|right; eauto].
    split; [done|]. eexists. by split.
  - intros G. split; [by inversion 1|]. intros [(H1 & H2 & H3 & H4) ->]. by apply typed_syscall.
Qed.
Lemma include_declares d c :
  exists P G', declares (_insert_include m d) P c G' with_message /\ forall G, Lenient (env_of c) (DInclude d) G <-> P /\ G = G'.
Proof using.
  exists True, (env_of c). split; [left; split; [done|by eexists]|]. intros G. split; [by inversion 1|]. intros [_ ->]. constructor.
Qed.

(** A declaration is accepted exactly when it obeys the rules but [returns_result]. *)
Lemma declaration_declares d c :
  arg_arch args = text "amd64" -> declaration_ok d ->
  exists P G', declares (insert_declaration args m d) P c G' (refusal (env_of c) d) /\ forall G, Lenient (env_of c) d G <-> P /\ G = G'.
Proof using.
  intros Ha Hd. destruct d as [d|d|d|d|d]; cbn [insert_declaration].
  - by apply permissions_declares.
  - by apply enum_declares.
  - by apply struct_declares.
  - by apply syscall_declares.
  - by apply include_declares.
Qed.

(** The declarations of a file one after another. *)
Fixpoint insert_all (ds : list declaration) (c : context) : res context :=
  match ds with
  | [] => Ok c
  | d :: ds' => match insert_declaration args m d c with Ok (_, c') => insert_all ds' c' | Err e => Err e end
  end.

(** Where a list of declarations is stopped: the first one that breaks a rule. *)
Definition stopped (G : env) (ds : list declaration) (e : error) : Prop :=
  exists ds1 d ds2 G1, ds = ds1 ++ d :: ds2 /\ all_by Lenient G ds1 G1 /\ (forall G2, ~ Lenient G1 d G2) /\ refusal G1 d e.

Lemma insert_all_lenient ds c :
  arg_arch args = text "amd64" -> Forall declaration_ok ds ->
  (exists c', insert_all ds c = Ok c' /\ forall G, all_by Lenient (env_of c) ds G <-> G = env_of c') \/
  (exists e, insert_all ds c = Err e /\ stopped (env_of c) ds e /\ forall G, ~ all_by Lenient (env_of c) ds G).
Proof using.
  intros Ha Hds. revert c. induction Hds as [|d ds Hd Hds IH]; intros c; cbn [insert_all].
  { left. exists c. split; [done|]. intros G. split; [by inversion 1|intros ->; constructor]. }
  destruct (declaration_declares d c Ha Hd) as (P & G' & Hdec & HG).
  assert (forall G, all_by Lenient (env_of c) (d :: ds) G <-> P /\ all_by Lenient G' ds G) as Hcons.
  { intros G. split.
    - inversion 1 as [|? G1 ? ? ? H1 H2]; subst. apply HG in H1 as [? ->]. done.
    - intros [HP HT]. econstructor; [|exact HT]. by apply HG. }
  destruct Hdec as [(HP & c' & -> & <-) | (HP & e & -> & He)].
  - destruct (IH c') as [(c'' & -> & H) | (e & -> & Hs & H)]; [left|right].
    + exists c''. split; [done|]. intros G. rewrite Hcons, H. tauto.
    + exists e. split; [done|]. split; [|intros G [_ HT]%Hcons; by apply (H G)].
      destruct Hs as (ds1 & d1 & ds2 & G1 & -> & H1 & H2 & H3). exists (d :: ds1), d1, ds2, G1. split; [done|].
      split; [|done]. econstructor; [by apply HG|done].
  - right. exists e. split; [done|]. split; [|intros G [? _]%Hcons; done].
    exists [], d, ds, (env_of c). split; [done|]. split; [constructor|]. split; [|done]. intros G2 [? _]%HG. done.
Qed.
End declarations.

(** Well typed is what obeys the other rules and [returns_result]. *)
Lemma all_typed sc ds G G' :
  all_by (typed sc) G ds G' <-> all_by (lenient sc) G ds G' /\ Forall (returns_result sc) ds.
Proof.
  split.
  - induction 1 as [|G G1 G2 d ds [H1 H2] _ [IH1 IH2]]; [split; constructor|]. split; [by econstructor|by constructor].
  - intros [H Hr]. induction H as [|G G1 G2 d ds H1 _ IH]; [constructor|]. apply Forall_cons in Hr as [Hd Hr].
    econstructor; [by split|by apply IH].
Qed.
