(* ===== verification/ThornTheorems.v ===== *)
(** * What the interface compiler guarantees

    From the text of a file to the numbers of the system calls: files are read
    back as the declarations they are written from, the declarations are accepted
    exactly when the typing rules hold, one excepted that is not enforced, and the
    tables stay consistent. *)
From S2P Require Import Prelude Text ThornLexer ThornParser ThornContext ThornLayout ThornRoundtrip ThornTypes.

(** ** From text to declarations *)

Section texts.
Context (args : context_args) (m : bytes).

Lemma process_loop_reads ds n it c :
  Forall declaration_ok ds -> (length ds < n)%nat -> delivers it (ds ≫= declaration_tokens) ->
  process_loop args n m it c = insert_all args m ds c.
Proof using.
  intros Hds. revert n it c. induction Hds as [|d ds Hd _ IH]; intros [|n] it c Hn D; cbn in Hn; try lia; cbn [process_loop insert_all].
  - cbn in D. by rewrite D.
  - rewrite bind_cons in D. destruct (declaration_reads d Hd it _ D) as (it' & E & D').
    assert (at_eof it = false) as ->.
    { assert (exists t ts, declaration_tokens d = t :: ts) as (t & ts & E1) by (destruct d; eexists _, _; reflexivity).
      rewrite E1 in D. by destruct D. }
    rewrite E. destruct (insert_declaration args m d c) as [[u c']|e]; [|done]. apply IH; [lia|done].
Qed.
Lemma declarations_length ds : (length ds <= length (ds ≫= declaration_tokens))%nat.
Proof using. induction ds as [|d ds IH]; [done|]. rewrite bind_cons, length_app. destruct d; cbn in *; lia. Qed.

Lemma process_reads ds f c :
  layout (ds ≫= declaration_tokens) f -> Forall declaration_ok ds -> process args m f c = insert_all args m ds c.
Proof using.
  intros Hl Hds. unfold process. destruct (tokenize_layout _ _ Hl) as (it & -> & D). apply process_loop_reads; [done| |done].
  pose proof (layout_length _ _ Hl). pose proof (declarations_length ds). lia.
Qed.
End texts.

(** ** Consistent tables *)

(** A step that at most records dependencies between modules. *)
Definition keeps {B} (k : M context B) : Prop := forall c b c', k c = Ok (b, c') -> same_tables c c'.
Lemma keeps_ret {B} (b : B) : keeps (ret b).
Proof. by intros c b' c' [= <- <-]. Qed.
Lemma keeps_get : keeps get.
Proof. by intros c b' c' [= <- <-]. Qed.
Lemma keeps_panic {B} msg : keeps (panic msg : M context B).
Proof. by intros c b' c' [=]. Qed.
Lemma keeps_lift {B} (r : res B) : keeps (lift r).
Proof. destruct r; [apply keeps_ret|by intros c b' c' [=]]. Qed.
Lemma keeps_bind {A B} (k : M context A) (f : A -> M context B) : keeps k -> (forall a, keeps (f a)) -> keeps (bind k f).
Proof.
  intros Hk Hf c b c'. unfold bind. destruct (k c) as [[a c1]|e] eqn:E; [|done]. intros E'.
  etransitivity; [by eapply Hk|by eapply Hf].
Qed.
Lemma keeps_for_each {A B} (f : A -> M context B) l : (forall a, keeps (f a)) -> keeps (for_each f l).
Proof.
  intros Hf. induction l as [|x l IH]; cbn; [apply keeps_ret|]. apply keeps_bind; [apply Hf|]. intros y.
  apply keeps_bind; [done|]. intros ys. apply keeps_ret.
Qed.
Create HintDb keeps.
#[export] Hint Resolve keeps_ret keeps_get keeps_panic keeps_lift keeps_bind keeps_for_each : keeps.

(** The tables agree: every symbol is listed once in the order of declaration, and
    the list of system calls has the symbols that are system calls, once each, and
    there is a register for every parameter. *)
Definition is_syscall (c : context) (n : bytes) : Prop := exists mo d, _symbols c !! n = Some (mkSymbol mo (Syscall d)).
Record tables_ok (args : context_args) (c : context) : Prop := mkTablesOk {
  order_nodup : NoDup (_symbols_in_order c);
  order_dom n : n ∈ _symbols_in_order c <-> n ∈ dom (_symbols c);
  syscalls_nodup : NoDup (_syscalls c);
  syscalls_are n : n ∈ _syscalls c <-> is_syscall c n;
  syscalls_fit n mo d regs :
    _symbols c !! n = Some (mkSymbol mo (Syscall d)) -> arch_registers_for_args (arg_arch args) = Some regs ->
    (length (parameters d) <= length regs)%nat
}.
#[global] Arguments order_nodup {args c} _.
#[global] Arguments order_dom {args c} _ _.
#[global] Arguments syscalls_nodup {args c} _.
#[global] Arguments syscalls_are {args c} _ _.
#[global] Arguments syscalls_fit {args c} _ _ _ _ _ _ _.

Lemma tables_ok_same args c c' : same_tables c c' -> tables_ok args c -> tables_ok args c'.
Proof. intros (A & _ & B & C & _) [H1 H2 H3 H4 H5]. split; unfold is_syscall in *; rewrite ?A, ?B, ?C; done. Qed.

Section tables.
Context (args : context_args) (m : bytes).

Lemma keeps_process_name q : keeps (_process_qualified_name args m q).
Proof using.
  unfold _process_qualified_name. destruct (in_generated_scope q); [|auto with keeps].
  apply keeps_bind; [auto with keeps|]. intros b. apply keeps_bind; [auto with keeps|]. intros c.
  destruct (_symbols c !! b); [|auto with keeps]. apply keeps_bind; [|auto with keeps].
  case_decide; [auto with keeps|]. intros c1 u c' [= _ <-]. by repeat split.
Qed.
Lemma keeps_processed q : keeps (processed args m q).
Proof using. apply keeps_bind; [apply keeps_process_name|]. intros [t|]; auto with keeps. Qed.
#[local] Hint Resolve keeps_processed keeps_process_name : keeps.
Lemma keeps_describe_member x : keeps (describe_member args m x).
Proof using. unfold describe_member. destruct (sm_type x); auto 6 with keeps. Qed.
Lemma keeps_describe_parameter x : keeps (describe_parameter args m x).
Proof using.
  unfold describe_parameter. destruct (_ && _); [auto with keeps|]. destruct (_ || _); [auto with keeps|].
  destruct (token_permissions x); [|auto with keeps]. cbv zeta. apply keeps_bind; [auto with keeps|]. intros t.
  apply keeps_bind; [|auto with keeps]. apply keeps_for_each. intros p. apply keeps_bind; [auto with keeps|].
  intros c. destruct (_ || _); auto with keeps.
Qed.

(** Inserting a symbol; a system call enters its list afterwards. *)
Lemma insert_symbol_tables n s c u c' :
  _insert_symbol n s c = Ok (u, c') ->
  n ∉ dom (_symbols c) /\ _symbols c' = <[n := s]> (_symbols c) /\ _symbols_in_order c' = _symbols_in_order c ++ [n] /\ _syscalls c' = _syscalls c.
Proof using.
  unfold _insert_symbol, bind, get. destruct (_symbols c !! n) eqn:E; [done|]. intros [= _ <-]. cbn.
  split; [by apply not_elem_of_dom|done].
Qed.
Lemma order_insert c n (s : symbol) :
  n ∉ dom (_symbols c) -> tables_ok args c ->
  NoDup (_symbols_in_order c ++ [n]) /\ forall x, x ∈ _symbols_in_order c ++ [n] <-> x ∈ dom (<[n := s]> (_symbols c)).
Proof using.
  intros Hn [H1 H2 _ _ _]. split.
  - apply NoDup_app. split; [done|]. split; [|apply NoDup_singleton]. intros x Hx%H2 ->%list_elem_of_singleton. done.
  - intros x. rewrite elem_of_app, list_elem_of_singleton, dom_insert_L, H2. set_solver.
Qed.
Lemma insert_other_ok n s c u c' :
  (forall d, sym_description s <> Syscall d) -> tables_ok args c -> _insert_symbol n s c = Ok (u, c') -> tables_ok args c'.
Proof using.
  intros Hs Hc (Hn & E1 & E2 & E3)%insert_symbol_tables. destruct (order_insert c n s Hn Hc). destruct Hc as [_ _ H3 H4 H5].
  split; unfold is_syscall in *; rewrite ?E1, ?E2, ?E3; [done..| |].
  2: { intros x mo d regs Hx. destruct (decide (x = n)) as [-> | Hxn].
    - rewrite lookup_insert_eq in Hx. injection Hx as ->. by destruct (Hs d).
    - rewrite lookup_insert_ne in Hx by done. by eapply H5. }
  intros x. rewrite H4. split; intros (mo & d & E).
  - exists mo, d. rewrite lookup_insert_ne; [done|]. intros ->. by apply not_elem_of_dom in Hn; rewrite E in Hn.
  - destruct (decide (x = n)) as [-> | Hx]; [|rewrite lookup_insert_ne in E by done; eauto].
    rewrite lookup_insert_eq in E. injection E as ->. by destruct (Hs d).
Qed.
Lemma insert_syscall_ok n mo d c u c' :
  (forall regs, arch_registers_for_args (arg_arch args) = Some regs -> (length (parameters d) <= length regs)%nat) -> tables_ok args c -> _insert_symbol n (mkSymbol mo (Syscall d)) c = Ok (u, c') -> tables_ok args (add_syscall n c').
Proof using.
  intros Hfit Hc (Hn & E1 & E2 & E3)%insert_symbol_tables. destruct (order_insert c n (mkSymbol mo (Syscall d)) Hn Hc).
  destruct Hc as [_ _ H3 H4 H5].
  assert (n ∉ _syscalls c) as Hn'. { intros (mo' & d' & E)%H4. apply not_elem_of_dom in Hn. by rewrite E in Hn. }
  split; unfold is_syscall, add_syscall in *; cbn; rewrite ?E1, ?E2, ?E3; [done..| | |].
  - apply NoDup_app. split; [done|]. split; [|apply NoDup_singleton]. by intros x Hx ->%list_elem_of_singleton.
  - intros x. rewrite elem_of_app, list_elem_of_singleton, H4. destruct (decide (x = n)) as [-> | Hx].
    + rewrite lookup_insert_eq. split; eauto.
    + rewrite lookup_insert_ne by done. split; [by intros [? | ?]|auto].
  - intros x mo' d' regs. destruct (decide (x = n)) as [-> | Hx].
    + rewrite lookup_insert_eq. intros [= <- <-]. apply Hfit.
    + rewrite lookup_insert_ne by done. by apply H5.
Qed.
Lemma for_each_length {A B} (f : A -> M context B) l c ys c' : for_each f l c = Ok (ys, c') -> length ys = length l.
Proof using.
  revert c ys c'. induction l as [|x l IH]; intros c ys c'; cbn [for_each]; [by intros [= <- _]|].
  intros (y & c1 & _ & (ys' & c2 & E2 & [= <- _])%bind_Ok_inv)%bind_Ok_inv. cbn. f_equal. by eapply IH.
Qed.

Lemma insert_declaration_ok d c u c' : tables_ok args c -> insert_declaration args m d c = Ok (u, c') -> tables_ok args c'.
Proof using.
  intros Hc. destruct d as [d|d|d|d|d]; cbn [insert_declaration].
  - unfold _insert_permissions. destruct (object_type d) as [q|].
    + unfold bind. destruct (_process_qualified_name args m q c) as [[[t|] c1]|e] eqn:E; [|done..].
      apply keeps_process_name in E. apply (tables_ok_same _ _ _ E) in Hc. cbn. destruct (_permissions c1 !! t); [done|].
      intros [= _ <-]. by destruct Hc; split.
    + unfold bind, get. destruct (_global_permissions c); [done|]. intros [= _ <-]. by destruct Hc; split.
  - by apply insert_other_ok.
  - unfold _insert_struct, bind. destruct (for_each _ _ c) as [[ms c1]|e] eqn:E; [|done].
    apply keeps_for_each in E; [|apply keeps_describe_member]. apply insert_other_ok; [done|by eapply tables_ok_same].
  - unfold _insert_syscall. destruct (arch_registers_for_args _) as [regs|] eqn:Ea; [|done].
    destruct (length regs <? length (sc_parameters d))%nat eqn:El; [done|]. apply Nat.ltb_ge in El.
    intros (sc & c1 & E1 & (ps & c2 & E2 & (r & c3 & E3 & E4)%bind_Ok_inv)%bind_Ok_inv)%bind_Ok_inv.
    pose proof (for_each_length _ _ _ _ _ E2) as Hps. apply keeps_lift in E1. apply keeps_for_each in E2; [|apply keeps_describe_parameter].
    assert (same_tables c2 c3) as S3.
    { revert E3. destruct (sc_return_type d); [|by intros [= _ <-]]. apply keeps_bind; auto with keeps. }
    destruct (_ && _); [done|]. apply bind_Ok_inv in E4 as (u4 & c4 & E4 & [= _ <-]).
    eapply insert_syscall_ok, E4.
    { intros regs' [= <-]%(eq_trans (eq_sym Ea)). cbn. rewrite length_fmap. lia. }
    eapply tables_ok_same; [|exact Hc]. etransitivity; [exact E1|]. by etransitivity.
  - intros [= _ <-]. by destruct Hc.
Qed.
Lemma process_loop_ok n it c c' : tables_ok args c -> process_loop args n m it c = Ok c' -> tables_ok args c'.
Proof using.
  revert it c. induction n as [|n IH]; intros it c Hc; cbn [process_loop]; [done|]. destruct (at_eof it); [by intros [= <-]|].
  destruct (parse_declaration it) as [[d it']|e]; [|done].
  destruct (insert_declaration args m d c) as [[u c1]|e] eqn:E; [|done]. apply IH. by eapply insert_declaration_ok.
Qed.
End tables.

Lemma tables_ok_empty args : tables_ok args empty_context.
Proof.
  split; [constructor| |constructor| |done]; intros n; cbn.
  - by rewrite dom_empty_L, elem_of_nil, elem_of_empty.
  - split; [by intros ?%elem_of_nil|]. intros (mo & d & [=]).
Qed.
Lemma process_ok args m f c c' : tables_ok args c -> process args m f c = Ok c' -> tables_ok args c'.
Proof. unfold process. destruct (tokenize f) as [it|e]; [|done]. apply process_loop_ok. Qed.

(** ** Theorems *)

(** C27: the text of a file that is laid out from the declarations [ds] is processed as
    these declarations, one after another, whatever tables it is processed into. *)
Theorem file_read_back args m ds f c :
  layout (ds ≫= declaration_tokens) f -> Forall declaration_ok ds -> process args m f c = insert_all args m ds c.
Proof. apply process_reads. Qed.

(** C13: a file laid out from declarations is well typed, where it stands, exactly when
    it is accepted and every system call that takes a token with specified permissions
    returns the generated result type, which the program means to check and does not;
    the tables then have what the rules say.  An accepted file obeys all other rules,
    with the same tables; one that is not accepted has a first
    declaration that breaks another rule, and is refused with a message, or, at
    permissions for a type that was not declared, by an exception nobody catches. *)
Theorem accepted_iff_typed args m ds f c :
  arg_arch args = text "amd64" -> layout (ds ≫= declaration_tokens) f -> Forall declaration_ok ds ->
  (forall G, all_by (typed (arg_scope args)) (env_of c) ds G <->
     (exists c', process args m f c = Ok c' /\ env_of c' = G) /\ Forall (returns_result (arg_scope args)) ds) /\
  ((exists c', process args m f c = Ok c' /\ all_by (lenient (arg_scope args)) (env_of c) ds (env_of c')) \/
   exists e, process args m f c = Err e /\ stopped args (env_of c) ds e).
Proof.
  intros Ha Hl Hds. rewrite (process_reads args m ds f c Hl Hds).
  destruct (insert_all_lenient args m ds c Ha Hds) as [(c' & -> & H) | (e & -> & Hs & H)].
  - split; [|left; exists c'; split; [done|by apply H]]. intros G. rewrite all_typed, H. split; intros [? ?]; (split; [|done]); [subst; eauto|by naive_solver].
  - split; [|eauto]. intros G. rewrite all_typed. split; [intros [HT _]; by destruct (H G)|by intros [(? & [=] & _) _]].
Qed.

(** Whatever the text of a file, a run that accepts it keeps the tables consistent:
    every symbol is in the order of declaration once, the system calls are listed
    once each, and each has registers for its parameters. *)
Theorem tables_stay_consistent args m f c c' : tables_ok args c -> process args m f c = Ok c' -> tables_ok args c'.
Proof. apply process_ok. Qed.

(** The iterator stays where it is at the end of the file. *)
Lemma generate_at_end s : _input s = [] -> exists s', _generate s = Ok (tt, s') /\ _input s' = [] /\ _current s' = _current s.
Proof.
  intros E. unfold _generate, steps, gets. unfold bind at 1. rewrite E. cbn. unfold bind, _peek. rewrite E. cbn. eexists. by split.
Qed.
(** The loop over the directions of a parameter never ends when the file ends after
    a direction, since the iterator then stays at that token. *)
Theorem direction_at_end_loops n i o s :
  _input s = [] -> type (_current s) = direction -> directions n i o s = Err NoFuel.
Proof.
  revert i o s. induction n as [|n IH]; intros i o s Hi Ht; cbn [directions]; [done|]. erewrite bind_Ok by reflexivity.
  rewrite decide_True by done. cbv zeta. unfold expect. rewrite bind_assoc. erewrite bind_Ok by reflexivity. rewrite decide_True by done.
  destruct (generate_at_end s Hi) as (s' & E & Hi' & Hc). rewrite bind_assoc. erewrite bind_Ok by exact E. erewrite bind_Ok by reflexivity.
  apply IH; [done|]. by rewrite Hc.
Qed.

(** ** Witnesses *)

Definition small_args : context_args := mkArgs (text "rose") (text "amd64").
Definition small_decls : list declaration :=
  [DEnum (mkEnum (text "result") [text "ok"; text "bad"]);
   DSyscall (mkSyscall (mkName false [text "k"]) false (text "go") [mkParameter (text "x") false true None (mkName true [text "result"])] (Some (mkName true [text "result"])))].
Definition small_file : bytes := spaced (small_decls ≫= declaration_tokens).

Lemma small_layout : layout (small_decls ≫= declaration_tokens) small_file.
Proof. apply spaced_layout. apply (bool_decide_unpack _). vm_compute. exact I. Qed.
Lemma small_ok : Forall declaration_ok small_decls.
Proof. repeat constructor; cbn; try done; intros; naive_solver. Qed.

Lemma file_read_back_witness :
  process small_args (text "meta") small_file empty_context = insert_all small_args (text "meta") small_decls empty_context /\
  exists c, insert_all small_args (text "meta") small_decls empty_context = Ok c.
Proof. split; [apply file_read_back; [exact small_layout|exact small_ok]|]. eexists. vm_compute. reflexivity. Defined.

Lemma accepted_iff_typed_witness :
  exists G, all_by (typed (text "rose")) (env_of empty_context) small_decls G.
Proof.
  destruct (accepted_iff_typed small_args (text "meta") small_decls small_file empty_context eq_refl small_layout small_ok) as [H _].
  eexists. apply H. split; [eexists; split; [|reflexivity]; vm_compute; reflexivity|].
  constructor; [done|]. constructor; [|done]. intros [(_ & perm & perms & [=])|H0%Exists_nil]%Exists_cons. done.
Defined.

(** A system call with a token and specified permissions that returns nothing is not
    well typed, and is accepted. *)
Definition silent_decls : list declaration :=
  [DPermissions (mkPermissions None [text "read"]);
   DSyscall (mkSyscall (mkName false [text "k"]) false (text "go")
     [mkParameter (text "x") false false (Some [text "read"]) (mkName false [text "k"; text "box"])] None)].
Example silent_accepted :
  (exists c, process small_args (text "meta") (spaced (silent_decls ≫= declaration_tokens)) empty_context = Ok c) /\
  forall G, ~ all_by (typed (text "rose")) (env_of empty_context) silent_decls G.
Proof.
  split; [eexists; vm_compute; reflexivity|]. intros G HT. apply all_typed in HT as [_ HF].
  apply Forall_cons in HF as [_ HF]. apply Forall_cons in HF as [Hr _].
  destruct Hr as (q & [=] & _). apply Exists_cons_hd. split; [done|]. by eexists _, _.
Qed.
(** Permissions for a type that was not declared. *)
Example undeclared_object :
  process small_args (text "meta") (spaced ([DPermissions (mkPermissions (Some (mkName true [text "box"])) [text "read"])] ≫= declaration_tokens)) empty_context
    = Err (Uncaught "std::bad_optional_access").
Proof. vm_compute. reflexivity. Qed.

Lemma tables_stay_consistent_witness :
  exists c, process small_args (text "meta") small_file empty_context = Ok c /\ tables_ok small_args c.
Proof.
  assert (exists c, process small_args (text "meta") small_file empty_context = Ok c) as [c Hc] by (eexists; vm_compute; reflexivity).
  exists c. split; [exact Hc|]. apply (tables_stay_consistent small_args (text "meta") small_file empty_context c); [apply tables_ok_empty|exact Hc].
Defined.

(** In a file that ends with the text [c: in], for any number of steps. *)
Lemma direction_at_end_loops_witness :
  exists s s1 s2, tokenize (text "c: in") = Ok s /\ expect identifier s = Ok (text "c", s1) /\ expect colon s1 = Ok (text ":", s2) /\
    forall n, directions n false false s2 = Err NoFuel.
Proof.
  eexists _, _, _. split; [vm_compute; reflexivity|]. split; [vm_compute; reflexivity|]. split; [vm_compute; reflexivity|].
  intros n. apply direction_at_end_loops; reflexivity.
Defined.
