(* ===== verification/ThornGenerator.v ===== *)
(** * The code generator of the interface compiler: toolchain/thorn/generator.cpp

    What is written to the generated files: the user header, the stubs of the vdso
    and the handlers of the kernel.  The code of a handler is a list of statements
    with the text each is written as, so that what the statements do can be stated
    in [ThornHandlers]. *)
From stdpp Require Import pretty.
From S2P Require Import Prelude Text ThornLexer ThornParser ThornContext.

(** ** Text *)

Definition nl : bytes := [10].
Definition quote : bytes := [34].
Definition decimal (z : Z) : bytes := text (pretty z).
Definition line (l : list bytes) : bytes := mjoin l ++ nl.

(** [path(module).replace_extension(ext)]: the extension starts at the last period of
    the last component, unless the component starts with its only period. *)
Definition last_component (m : bytes) : bytes * bytes :=
  match list_find (fun c => c = 47) (rev m) with
  | Some (i, _) => (take (length m - i) m, drop (length m - i) m)
  | None => ([], m)
  end.
Definition strip_extension (f : bytes) : bytes :=
  if decide (f = text "." \/ f = text "..") then f
  else match list_find (fun c => c = 46) (rev f) with
       | Some (i, _) => if decide (length f - i - 1 = 0)%nat then f else take (length f - i - 1) f
       | None => f
       end.
Definition replace_extension (m ext : bytes) : bytes := (last_component m).1 ++ strip_extension (last_component m).2 ++ ext.

(** ** State *)

Inductive _stream_kind : Type := kernel | vdso | user.

(** The open files by module; sets of headers are lists in the order they are
    iterated in. *)
Record gen_context : Type := mkGen {
  _dependencies : gmap bytes (list bytes);
  _includes : gmap bytes (list bytes);
  _output_kernel_files : gmap bytes bytes;
  _output_vdso_files : gmap bytes bytes;
  _output_user_files : gmap bytes bytes;
  _output_kernel_header : bytes;
  _id_names : list (Z * bytes)
}.

Definition _get_stream_map (k : _stream_kind) (g : gen_context) : gmap bytes bytes :=
  match k with kernel => _output_kernel_files g | vdso => _output_vdso_files g | user => _output_user_files g end.
Definition _get_extension (k : _stream_kind) : bytes := match k with kernel | vdso => text ".cpp" | user => text ".h" end.
Definition set_files (k : _stream_kind) (f : gmap bytes bytes) (g : gen_context) : gen_context :=
  match k with
  | kernel => mkGen (_dependencies g) (_includes g) f (_output_vdso_files g) (_output_user_files g) (_output_kernel_header g) (_id_names g)
  | vdso => mkGen (_dependencies g) (_includes g) (_output_kernel_files g) f (_output_user_files g) (_output_kernel_header g) (_id_names g)
  | user => mkGen (_dependencies g) (_includes g) (_output_kernel_files g) (_output_vdso_files g) f (_output_kernel_header g) (_id_names g)
  end.
Definition set_id_names (l : list (Z * bytes)) (g : gen_context) : gen_context :=
  mkGen (_dependencies g) (_includes g) (_output_kernel_files g) (_output_vdso_files g) (_output_user_files g) (_output_kernel_header g) l.

(** [std::map::operator[]] and an assignment *)
Fixpoint assign (k : Z) (v : bytes) (l : list (Z * bytes)) : list (Z * bytes) :=
  match l with
  | [] => [(k, v)]
  | (k', v') :: l' => if k <? k' then (k, v) :: l else if k' <? k then (k', v') :: assign k v l' else (k, v) :: l'
  end.

(** The kernel register of each argument, and the moves from the registers of the
    calling convention. *)
Definition arch_arg_register_translation (arch : bytes) : option (list (bytes * bytes)) :=
  if decide (arch = text "amd64")
  then Some [(text "r9", text "r12"); (text "r8", text "r10"); (text "rcx", text "r9"); (text "rdx", text "r8")]
  else None.
Definition _get_arch_register_for_arg (arch : bytes) (i : nat) : option bytes :=
  match arch_registers_for_args arch with Some regs => regs !! i | None => None end.

Section generator.
Context (_scope _arch : bytes).

(** The constructor, with the output directories in place. *)
Definition make_generator : gen_context :=
  mkGen ∅ ∅ ∅ ∅ ∅
    (line [text "/** THIS IS A GENERATED FILE, DO NOT MODIFY MANUALLY **/"] ++ nl ++
     line [text "namespace kernel::"; _arch; text "::syscalls"] ++ line [text "{"]) [].
Definition set_dependencies (deps : gmap bytes (list bytes)) (g : gen_context) : gen_context :=
  mkGen deps (_includes g) (_output_kernel_files g) (_output_vdso_files g) (_output_user_files g) (_output_kernel_header g) (_id_names g).
Definition set_includes (includes : gmap bytes (list bytes)) (g : gen_context) : gen_context :=
  mkGen (_dependencies g) includes (_output_kernel_files g) (_output_vdso_files g) (_output_user_files g) (_output_kernel_header g) (_id_names g).

(** What a new file starts with. *)
Definition preamble (k : _stream_kind) (module : bytes) (g : gen_context) : bytes :=
  line [text "/** THIS IS A GENERATED FILE, DO NOT MODIFY MANUALLY **/"] ++ nl ++
  match k with
  | user =>
      line [text "#pragma once"] ++ nl ++
      (if decide (module = text "types") then line [text "#include <utility>"]
       else line [text "#include "; quote; text "types.h"; quote]) ++
      line [text "#include <cstdint>"]
  | vdso | kernel => line [text "#include "; quote; text "../user/"; replace_extension module (_get_extension user); quote]
  end ++ nl ++
  match k with
  | kernel =>
      line [text "#include <arch/"; _arch; text "/cpu/core.h>"] ++ line [text "#include <arch/"; _arch; text "/cpu/syscalls.h>"] ++
      line [text "#include <arch/"; _arch; text "/memory/vm.h>"] ++ line [text "#include <util/handle.h>"] ++
      line [text "#include <scheduler/thread.h>"] ++ nl ++
      (default [] (_includes g !! module) ≫= fun header => line [text "#include <"; header; text ">"]) ++ nl ++
      line [text "namespace kernel::"; _arch; text "::syscalls"]
  | vdso => line [text "namespace "; _scope]
  | user =>
      (default [] (_dependencies g !! module) ≫= fun header => line [text "#include "; quote; header; quote]) ++ nl ++
      line [text "namespace "; _scope]
  end ++ line [text "{"] ++ nl.
Definition _get_stream (module : bytes) (k : _stream_kind) (g : gen_context) : gen_context :=
  match _get_stream_map k g !! module with
  | Some _ => g
  | None => set_files k (<[module := preamble k module g]> (_get_stream_map k g)) g
  end.
(** Text for an open file. *)
Definition write (module : bytes) (k : _stream_kind) (t : bytes) (g : gen_context) : gen_context :=
  match _get_stream_map k g !! module with
  | Some f => set_files k (<[module := f ++ t]> (_get_stream_map k g)) g
  | None => g
  end.

Definition permissions_text (perms : list permission_description) : bytes :=
  line [text "enum class permissions : std::uint128_t"] ++ line [text "{"] ++
  (perms ≫= fun p => line [text "    "; perm_name p; text " = static_cast<std::uint128_t>(1) << "; decimal (flag_bit p); text ","]) ++
  line [text "    all = ~static_cast<std::uint128_t>(0)"] ++ text "}" ++ nl ++ nl ++ text ";" ++
  ([text "|"; text "&"] ≫= fun op =>
     line [text "inline permissions operator"; op; text "(permissions lhs, permissions rhs)"] ++ line [text "{"] ++
     line [text "    return static_cast<permissions>(std::to_underlying(lhs) "; op; text " std::to_underlying(rhs));"] ++
     line [text "}"] ++ nl).
Definition set_known_permissions (perms : list permission_description) (g : gen_context) : gen_context :=
  write (text "types") user (permissions_text perms) (_get_stream (text "types") user g).

(** ** Enumerations and structures *)

Definition enum_text (name : bytes) (d : enum_description) : bytes :=
  line [text "enum class "; name; text " : std::uintptr_t"] ++ line [text "{"] ++
  (ed_enumerations d ≫= fun e => line [text "    "; e.1; text " = "; decimal e.2; text ","]) ++ line [text "};"] ++ nl.
Definition struct_text (name : bytes) (d : struct_description) : bytes :=
  line [text "struct "; name] ++ line [text "{"] ++
  (sd_members d ≫= fun mem =>
     match mem.2 with
     | DName type_name => line [text "    ::"; type_name; text " "; mem.1; text ";"]
     | DUnion u =>
         line [text "    union {"] ++
         (ud_members u ≫= fun um => line [text "        ::"; um.2; text " "; um.1; text ";"]) ++
         line [text "    } "; mem.1; text ";"]
     end) ++ line [text "};"] ++ nl.

(** ** The stub of a system call *)

Definition user_parameter (p : bytes * parameter_description) : bytes :=
  match p.2 with
  | PType t => mjoin [text "    ::"; t; text " "; p.1]
  | PHandle _ => mjoin [text "    ::std::uintptr_t "; p.1]
  | PPointer d => mjoin [text "    "; if ptr_out d then [] else text "const "; text "::"; ptr_deref_type d; text " * "; p.1]
  end.
Definition vdso_parameter (p : bytes * parameter_description) : bytes :=
  match p.2 with
  | PType t => mjoin [text "    ::"; t]
  | PHandle _ => text "    ::std::uintptr_t"
  | PPointer d => mjoin [text "    "; if ptr_out d then [] else text "const "; text "::"; ptr_deref_type d; text " *"]
  end.
Fixpoint comma_lines (l : list bytes) : bytes :=
  match l with
  | [] => []
  | [x] => x
  | x :: l' => x ++ text "," ++ nl ++ comma_lines l'
  end.
Definition return_text (d : syscall_description) : bytes := default (text "void") (return_type d).
Definition user_text (name : bytes) (d : syscall_description) : bytes :=
  line [text "extern "; quote; text "C"; quote; text " "; return_text d; text " "; name; text "("] ++
  comma_lines (user_parameter <$> parameters d) ++ nl ++ line [text ");"] ++ nl.

(** The moves a stub makes; the first index wraps around when there are more
    parameters than registers. *)
Definition moves (d : syscall_description) : option (list (bytes * bytes)) :=
  match arch_arg_register_translation _arch, arch_registers_for_args _arch with
  | Some t, Some regs =>
      let i := wrapu 64 (Z.of_nat (length regs) - Z.of_nat (length (parameters d))) in
      Some (if i <? Z.of_nat (length t) then drop (Z.to_nat i) t else [])
  | _, _ => None
  end.
Definition vdso_text (name : bytes) (d : syscall_description) (i : Z) (ms : list (bytes * bytes)) : bytes :=
  line [return_text d; text " "; name; text "("] ++ comma_lines (vdso_parameter <$> parameters d) ++ nl ++ line [text ")"] ++ line [text "{"] ++
  match return_type d with Some t => line [text "    ::"; t; text " ret;"] | None => [] end ++
  line [text "    asm volatile(R"; quote; text "("] ++
  line [text "        mov $"; decimal i; text ", %%rax"] ++
  (ms ≫= fun r => line [text "        mov %%"; r.1; text ", %%"; r.2]) ++
  line [text "        .globl __rose_syscall_"; decimal i] ++ line [text "        __rose_syscall_"; decimal i; text ":"] ++
  line [text "        syscall"] ++
  line [text "    )"; quote; text " : "; quote; text "=a"; quote; text "(ret) :: "; quote; text "r11"; quote; text ", "; quote; text "memory"; quote; text ");"] ++
  match return_type d with Some _ => line [text "    return ret;"] | None => [] end ++
  line [text "}"] ++ nl.

(** ** The handler of a system call *)

(** What a handler does, one constructor for each piece of text. *)
Inductive failure : Type := invalid_token | wrong_handle_type | not_allowed | invalid_pointers.
Inductive stmt : Type :=
| SState (name : bytes)
| SCurrentThread
| SReturnRegister
| SValue (p type_name reg : bytes)
| SGetHandle (p reg : bytes)
| SCheckToken (p : bytes)
| SCheckType (p type_name : bytes)
| SCheckPermission (p perm : bytes)
| SGetAs (p type_name : bytes)
| SAddress (p type_name reg : bytes)
| SLock (p : bytes) (out : bool)
| SStorage (p type_name : bytes)
| SCopyIn (p type_name : bytes)
| SCall (impl_scope name : bytes) (ps : list (bytes * bool))
| SUnfinished
| SResult
| SContinuation (name : bytes)
| SCopyOut (p type_name : bytes).

Definition failure_name (f : failure) : bytes :=
  match f with
  | invalid_token => text "invalid_token"
  | wrong_handle_type => text "wrong_handle_type"
  | not_allowed => text "not_allowed"
  | invalid_pointers => text "invalid_pointers"
  end.
(** The block that ends a handler. *)
Definition failing (f : failure) (ret : bytes) : bytes :=
  line [text "    {"] ++ line [text "        return_register = std::to_underlying(::"; _scope; text "::result::"; failure_name f; text ");"] ++
  line [text "        "; ret] ++ line [text "    }"] ++ nl.

Definition print (blocking : bool) (s : stmt) : bytes :=
  let st := if blocking then text "state." else [] in
  match s with
  | SState name => line [text "    syscall_"; name; text "_state state;"] ++ nl
  | SCurrentThread =>
      line [text "    "; if blocking then text "state." else text "[[maybe_unused]] auto ";
            text "current_thread = cpu::get_core_local_storage()->current_thread.get();"] ++ nl
  | SReturnRegister => line [text "    auto & return_register = ctx.rax;"] ++ nl
  | SValue p t reg =>
      line [if blocking then text "    state." else text "    " ++ t ++ text " "; p; text " = ctx."; reg; text ";"] ++ nl
  | SGetHandle p reg =>
      line [text "    handle_token_t "; p; text "_token{ctx."; reg; text "};"] ++
      line [text "    auto "; p; text "_handle = "; st; text "current_thread->get_container()->get_handle("; p; text "_token);"] ++ nl
  | SCheckToken p => line [text "    if (!"; p; text "_handle)"] ++ failing invalid_token (text "return;")
  | SCheckType p t => line [text "    if (!"; p; text "_handle->is_a<"; t; text ">())"] ++ failing wrong_handle_type (text "return;")
  | SCheckPermission p perm =>
      line [text "    if (!"; p; text "_handle->has_permissions("; _scope; text "::permissions::"; perm; text "))"] ++
      failing not_allowed (text "return;")
  | SGetAs p t =>
      (if blocking then mjoin [text "    state."; p; text "_holder = util::intrusive_ptr("] else mjoin [text "    auto "; p; text " = ("]) ++
      line [p; text "_handle->get_as<"; t; text ">());"] ++
      (if blocking then line [text "    state."; p; text " = state."; p; text "_holder.get();"] else []) ++ nl
  | SAddress p t reg =>
      line [if blocking then text "    state." else text "    auto "; p; text "_addr = reinterpret_cast<"; t; text " *>(ctx."; reg; text ");"] ++ nl
  | SLock p out =>
      line [text "    auto "; p; text "_guard = "; st; text "current_thread->get_container()->get_vas()->lock_array_mapping("; st; p;
            text "_addr, 1, "; if out then text "true" else text "false"; text ");"] ++
      line [text "    if (!"; p; text "_guard)"] ++ failing invalid_pointers (if blocking then text "return true;" else text "return;")
  | SStorage p t => line [text "    "; t; text " "; p; text "_storage;"] ++ line [text "    auto "; p; text " = &"; p; text "_storage;"] ++ nl
  | SCopyIn p t => line [text "    std::memcpy(&"; p; text "_storage, "; st; p; text "_addr, sizeof("; t; text "));"] ++ nl
  | SCall impl_scope name ps =>
      line [text "    auto result = "; impl_scope; text "::syscall_"; name; text "_handler("] ++
      mjoin (imap (fun i q => line [text "        "; if blocking && negb q.2 then text "state." else []; q.1;
                                    if (Z.of_nat i =? Z.of_nat (length ps) - 1) then [] else text ","]) ps) ++
      line [text "    );"] ++ nl
  | SUnfinished => line [text "    if (!result)"] ++ line [text "    {"] ++ line [text "        return false;"] ++ line [text "    }"] ++ nl
  | SResult =>
      line [text "    return_register = std::to_underlying("; if blocking then text "*" else []; text "result);"] ++
      line [text "    if (result != ::"; _scope; text "::result::ok)"] ++ line [text "    {"] ++
      line [text "        return"; if blocking then text " true" else []; text ";"] ++ line [text "    }"] ++ nl
  | SContinuation name =>
      line [text "    auto finished = syscall_"; name; text "_continuation(return_register, static_cast<void "; text "*>(&state));"] ++
      line [text "    if (!finished)"] ++ line [text "    {"] ++
      line [text "        state.current_thread->set_continuation(syscall_"; name; text "_continuation, std::move(state));"] ++ line [text "    }"]
  | SCopyOut p t => line [text "    std::memcpy("; st; p; text "_addr, &"; p; text "_storage, sizeof("; t; text "));"] ++ nl
  end.

(** The statements for the [i]th parameter, each with whether it goes to the action
    stream. *)
Definition parameter_stmts (i : nat) (p : bytes * parameter_description) : option (list (bool * stmt)) :=
  match _get_arch_register_for_arg _arch i with
  | None => None
  | Some reg =>
      let n := p.1 in
      Some match p.2 with
      | PType t => [(false, SValue n t reg)]
      | PHandle h =>
          (false, SGetHandle n reg) :: (false, SCheckToken n) :: (false, SCheckType n (ht_deref_type h)) ::
          ((fun perm => (false, SCheckPermission n perm)) <$> required_permissions h) ++ [(false, SGetAs n (ht_deref_type h))]
      | PPointer d =>
          (false, SAddress n (ptr_deref_type d) reg) :: (true, SLock n (ptr_out d)) :: (true, SStorage n (ptr_deref_type d)) ::
          (if ptr_in d then [(true, SCopyIn n (ptr_deref_type d))] else [])
      end
  end.
Fixpoint parameters_stmts (i : nat) (ps : list (bytes * parameter_description)) : option (list (bool * stmt)) :=
  match ps with
  | [] => Some []
  | p :: ps' => match parameter_stmts i p, parameters_stmts (S i) ps' with Some a, Some b => Some (a ++ b) | _, _ => None end
  end.
Definition is_pointer (p : parameter_description) : bool := match p with PPointer _ => true | _ => false end.
Definition copy_outs (ps : list (bytes * parameter_description)) : list (bool * stmt) :=
  ps ≫= fun p => match p.2 with PPointer d => if ptr_out d then [(true, SCopyOut p.1 (ptr_deref_type d))] else [] | _ => [] end.
Definition handler_stmts (name : bytes) (d : syscall_description) : option (list (bool * stmt)) :=
  match parameters_stmts 0 (parameters d) with
  | None => None
  | Some l =>
      Some ((if sd_blocking d then [(false, SState name)] else []) ++ (false, SCurrentThread) :: (false, SReturnRegister) :: l ++
        (true, SCall (implementation_scope d) name ((fun p => (p.1, is_pointer p.2)) <$> parameters d)) ::
        (if sd_blocking d then [(true, SUnfinished)] else []) ++ (true, SResult) ::
        (if sd_blocking d then [(false, SContinuation name)] else []) ++ copy_outs (parameters d))
  end.
(** The action stream is the continuation of a blocking call and else the handler. *)
Definition handler_body (d : syscall_description) (l : list (bool * stmt)) : list stmt :=
  snd <$> (if sd_blocking d then filter (fun x => x.1 = false) l else l).
Definition continuation_body (d : syscall_description) (l : list (bool * stmt)) : list stmt :=
  snd <$> (if sd_blocking d then filter (fun x => x.1 = true) l else []).

Definition state_struct_text (name : bytes) (d : syscall_description) : bytes :=
  if sd_blocking d then
    line [text "struct syscall_"; name; text "_state"] ++ line [text "{"] ++ line [text "    scheduler::thread * current_thread;"] ++
    (parameters d ≫= fun p =>
       match p.2 with
       | PType t => line [text "    "; t; text " "; p.1; text ";"]
       | PHandle h =>
           line [text "    util::intrusive_ptr<"; ht_deref_type h; text "> "; p.1; text "_holder;"] ++
           line [text "    "; ht_deref_type h; text " * "; p.1; text ";"]
       | PPointer q => line [text "    "; ptr_deref_type q; text " * "; p.1; text "_addr;"]
       end) ++ line [text "};"] ++ nl
  else [].
Definition kernel_text (name : bytes) (d : syscall_description) (l : list (bool * stmt)) : bytes :=
  state_struct_text name d ++
  (if sd_blocking d then
     line [text "bool syscall_"; name; text "_continuation(std::uintptr_t & return_register, void * state_ptr)"] ++ line [text "{"] ++
     line [text "    auto & state = *reinterpret_cast<syscall_"; name; text "_state *>(state_ptr);"] ++ nl ++
     (continuation_body d l ≫= print true) ++ line [text "    return true;"] ++ line [text "}"] ++ nl
   else []) ++
  line [text "void handle_syscall_"; name; text "(context & ctx)"] ++ line [text "{"] ++
  (handler_body d l ≫= print (sd_blocking d)) ++ line [text "}"] ++ nl.

(** ** [generate_symbol] *)

Definition open_streams (module : bytes) (g : gen_context) : gen_context :=
  _get_stream module kernel (_get_stream module vdso (_get_stream module user g)).
Definition generate_symbol (name : bytes) (symb : symbol) (g : gen_context) : res gen_context :=
  let mo := module symb in
  let g := open_streams mo g in
  match sym_description symb with
  | Enum d => Ok (write mo user (enum_text name d) g)
  | Struct d => Ok (write mo user (struct_text name d) g)
  | Syscall d =>
      match id d with
      | None => Err Fault
      | Some i =>
          match moves d, handler_stmts name d with
          | Some ms, Some l =>
              let g := set_id_names (assign i name (_id_names g)) g in
              let g := write mo user (user_text name d) g in
              let g := write mo vdso (vdso_text name d i ms) g in
              let g := if decide (mo = text "meta") then g
                       else write mo kernel (line [text "void handle_syscall_"; name; text "(context & ctx);"]) g in
              Ok (write mo kernel (kernel_text name d l) g)
          | _, _ => Err (Uncaught "std::out_of_range")
          end
      end
  end.
Fixpoint generate_symbols (l : list bytes) (symbols : gmap bytes symbol) (g : gen_context) : res gen_context :=
  match l with
  | [] => Ok g
  | name :: l' =>
      match symbols !! name with
      | None => Err Fault
      | Some s => match generate_symbol name s g with Ok g' => generate_symbols l' symbols g' | Err e => Err e end
      end
  end.

(** The destructor: the table of the handlers in the order of the numbers. *)
Definition handler_type : bytes := text "using syscall_handler_t = void(" ++ text "*)(context &);".
Definition table_text (l : list (Z * bytes)) : bytes :=
  line [handler_type] ++ line [text "const std::size_t syscall_count = "; decimal (Z.of_nat (length l)); text ";"] ++
  line [text "syscall_handler_t syscall_table[syscall_count] = {"] ++
  (l ≫= fun e => line [text "    &handle_syscall_"; e.2; text ","]) ++ line [text "};"] ++ nl.
Definition close_files (f : gmap bytes bytes) : gmap bytes bytes := (fun t => t ++ line [text "}"]) <$> f.
Definition destroy_generator (g : gen_context) : gen_context :=
  let g := set_files user (close_files (_output_user_files g)) g in
  let g := set_files vdso (close_files (_output_vdso_files g)) g in
  let g := write (text "meta") kernel (table_text (_id_names g)) g in
  let g := set_files kernel (close_files (_output_kernel_files g)) g in
  mkGen (_dependencies g) (_includes g) (_output_kernel_files g) (_output_vdso_files g) (_output_user_files g)
    (_output_kernel_header g ++ nl ++ line [handler_type] ++
     line [text "extern const std::size_t syscall_count = "; decimal (Z.of_nat (length (_id_names g))); text ";"] ++
     line [text "extern syscall_handler_t syscall_table[syscall_count];"] ++ line [text "}"]) (_id_names g).
End generator.

(** ** [output] *)

(** The whole of [context::output]; the shuffled system calls, the order the object
    permissions are iterated in and the iterated sets are given. *)
Definition output (args : context_args) (shuffled : list bytes) (objects : list (list bytes)) (c : context) : res gen_context :=
  match number_syscalls 0 shuffled (_symbols c) with
  | Err e => Err e
  | Ok symbols =>
      let g := make_generator (arg_arch args) in
      let g := set_dependencies (elements <$> _module_deps c) g in
      let g := set_includes (elements <$> _module_includes c) g in
      let g := set_known_permissions (arg_scope args) (arg_arch args) (number_permissions (_global_permissions c) objects) g in
      match generate_symbols (arg_scope args) (arg_arch args) (_symbols_in_order c) symbols g with
      | Err e => Err e
      | Ok g' => Ok (destroy_generator g')
      end
  end.

(** ** [main] *)

Record options : Type := mkOptions { input_path : bytes; output_path : bytes; opt_scope : bytes; opt_arch : bytes }.

Definition is_option (arg short long : bytes) : bool := bool_decide (arg = short) || bool_decide (arg = long).
(** The loop over the arguments; an option takes the argument after it. *)
Fixpoint read_options (argv : list bytes) (o : options) {struct argv} : res options :=
  match argv with
  | [] => Ok o
  | arg :: rest =>
      if is_option arg (text "-i") (text "--input") then
        match rest with
        | [] => Err (Panic "thorn: no input path provided after ")
        | v :: rest' => read_options rest' (mkOptions v (output_path o) (opt_scope o) (opt_arch o))
        end
      else if is_option arg (text "-o") (text "--output") then
        match rest with
        | [] => Err (Panic "thorn: no output path provided after ")
        | v :: rest' => read_options rest' (mkOptions (input_path o) v (opt_scope o) (opt_arch o))
        end
      else if is_option arg (text "-s") (text "--scope") then
        match rest with
        | [] => Err (Panic "thorn: no generated scope provided after ")
        | v :: rest' => read_options rest' (mkOptions (input_path o) (output_path o) v (opt_arch o))
        end
      else if is_option arg (text "-a") (text "--arch") then
        match rest with
        | [] => Err (Panic "thorn: no target arch provided after ")
        | v :: rest' => read_options rest' (mkOptions (input_path o) (output_path o) (opt_scope o) v)
        end
      else Err (Panic "thorn: unknown command line argument '")
  end.
Definition check_options (o : options) : res options :=
  if decide (input_path o = []) then Err (Panic "thorn: no input path provided")
  else if decide (output_path o = []) then Err (Panic "thorn: no output path provided")
  else if decide (opt_scope o = []) then Err (Panic "thorn: no generated scope provided")
  else if decide (opt_arch o = []) then Err (Panic "thorn: no target arch provided")
  else Ok o.
(** The program on a file system that opens files by directory and name, with the
    order [shuffle] puts the system calls in and the order the permissions are
    iterated in. *)
Definition thorn_main (open : bytes -> bytes -> option bytes) (shuffle : list bytes -> list bytes)
    (iterate : gmap bytes (list bytes) -> list (list bytes)) (argv : list bytes) : res gen_context :=
  match read_options argv (mkOptions [] [] [] []) with
  | Err e => Err e
  | Ok o =>
      match check_options o with
      | Err e => Err e
      | Ok o =>
          let args := mkArgs (opt_scope o) (opt_arch o) in
          match open (input_path o) (text "meta" ++ text ".thorn") with
          | None => Err (Panic "thorn: failed to open input file ")
          | Some file =>
              match process args (text "meta") file empty_context with
              | Err e => Err e
              | Ok c => output args (shuffle (_syscalls c)) (iterate (_permissions c)) c
              end
          end
      end
  end.
