(* ===== verification/ThornHandlers.v ===== *)
(** * What generated handlers do

    The meaning of the statements of a handler over the kernel's operations, and
    that a handler makes the checks its declaration asks for, in order, before the
    implementation of the system call is entered; with the moves of the stub, from
    the registers of the caller on. *)
From S2P Require Import Prelude Text ThornLexer ThornParser ThornContext ThornGenerator.

(** ** The kernel, seen from a handler *)

(** [K] is the kernel's state, [H] its handles, [V] what a structure in memory
    holds.  An implementation gets the arguments and gives its result, none when it
    has to wait, and what it left in the storage of each pointer argument. *)
Inductive value (V : Type) : Type :=
| VWord (w : Z)
| VObject (o : Z)
| VStorage (v : V).
Arguments VWord {V} _.
Arguments VObject {V} _.
Arguments VStorage {V} _.

Class KernelOps (K H V : Type) : Type := {
  k_get_handle : K -> Z -> option H;
  k_is_a : H -> bytes -> bool;
  k_has_permission : H -> bytes -> bool;
  k_get_as : H -> Z;
  k_lock : K -> Z -> bool -> bool;
  k_load : K -> Z -> bytes -> V;
  k_store : Z -> bytes -> V -> K -> K;
  k_uninit : bytes -> V;
  k_ok : Z;
  k_code : failure -> Z
}.

Section handlers.
Context {K H V : Type} `{KernelOps K H V}.
Context (impl : K -> list (value V) -> K * option Z * (nat -> V)).

(** ** Execution *)

Record frame : Type := mkFrame {
  f_regs : bytes -> Z;
  return_register : Z;
  f_vals : gmap bytes (value V);
  f_handles : gmap bytes (option H);
  f_addrs : gmap bytes Z;
  f_storages : gmap bytes V;
  f_result : option Z;
  f_kernel : K
}.
Definition set_return (r : Z) (f : frame) : frame :=
  mkFrame (f_regs f) r (f_vals f) (f_handles f) (f_addrs f) (f_storages f) (f_result f) (f_kernel f).
Definition set_val (p : bytes) (v : value V) (f : frame) : frame :=
  mkFrame (f_regs f) (return_register f) (<[p := v]> (f_vals f)) (f_handles f) (f_addrs f) (f_storages f) (f_result f) (f_kernel f).
Definition set_handle (p : bytes) (h : option H) (f : frame) : frame :=
  mkFrame (f_regs f) (return_register f) (f_vals f) (<[p := h]> (f_handles f)) (f_addrs f) (f_storages f) (f_result f) (f_kernel f).
Definition set_addr (p : bytes) (a : Z) (f : frame) : frame :=
  mkFrame (f_regs f) (return_register f) (f_vals f) (f_handles f) (<[p := a]> (f_addrs f)) (f_storages f) (f_result f) (f_kernel f).
Definition set_storage (p : bytes) (v : V) (f : frame) : frame :=
  mkFrame (f_regs f) (return_register f) (f_vals f) (f_handles f) (f_addrs f) (<[p := v]> (f_storages f)) (f_result f) (f_kernel f).
Definition set_called (r : option Z) (k : K) (f : frame) : frame :=
  mkFrame (f_regs f) (return_register f) (f_vals f) (f_handles f) (f_addrs f) (f_storages f) r k.
Definition set_kernel (k : K) (f : frame) : frame :=
  mkFrame (f_regs f) (return_register f) (f_vals f) (f_handles f) (f_addrs f) (f_storages f) (f_result f) k.

(** Going on, a [return] or [return true], and a [return false]. *)
Inductive flow : Type := Next | Stop | Suspend.

Definition failed (e : failure) (f : frame) : option (flow * frame) := Some (Stop, set_return (k_code e) f).
(** The handle of a parameter; a null pointer must not be used. *)
Definition handle_of (p : bytes) (f : frame) : option H := mjoin (f_handles f !! p).
Definition argument (f : frame) (q : bytes * bool) : option (value V) :=
  if q.2 then VStorage <$> f_storages f !! q.1 else f_vals f !! q.1.
(** What the implementation leaves in the storages. *)
Fixpoint update_storages (i : nat) (ps : list (bytes * bool)) (outs : nat -> V) (f : frame) : frame :=
  match ps with
  | [] => f
  | q :: ps' => update_storages (S i) ps' outs (if q.2 then set_storage q.1 (outs i) f else f)
  end.

Definition exec (s : stmt) (f : frame) : option (flow * frame) :=
  match s with
  | SState _ | SCurrentThread | SReturnRegister => Some (Next, f)
  | SValue p _ reg => Some (Next, set_val p (VWord (f_regs f reg)) f)
  | SGetHandle p reg => Some (Next, set_handle p (k_get_handle (f_kernel f) (f_regs f reg)) f)
  | SCheckToken p =>
      match f_handles f !! p with None => None | Some None => failed invalid_token f | Some (Some _) => Some (Next, f) end
  | SCheckType p t =>
      match handle_of p f with None => None | Some h => if k_is_a h t then Some (Next, f) else failed wrong_handle_type f end
  | SCheckPermission p perm =>
      match handle_of p f with None => None | Some h => if k_has_permission h perm then Some (Next, f) else failed not_allowed f end
  | SGetAs p _ => match handle_of p f with None => None | Some h => Some (Next, set_val p (VObject (k_get_as h)) f) end
  | SAddress p _ reg => Some (Next, set_addr p (f_regs f reg) f)
  | SLock p out =>
      match f_addrs f !! p with
      | None => None
      | Some a => if k_lock (f_kernel f) a out then Some (Next, f) else failed invalid_pointers f
      end
  | SStorage p t => Some (Next, set_storage p (k_uninit t) f)
  | SCopyIn p t => match f_addrs f !! p with None => None | Some a => Some (Next, set_storage p (k_load (f_kernel f) a t) f) end
  | SCall _ _ ps =>
      match mapM (argument f) ps with
      | None => None
      | Some vs => let '(k, r, outs) := impl (f_kernel f) vs in Some (Next, update_storages 0 ps outs (set_called r k f))
      end
  | SUnfinished => match f_result f with None => Some (Suspend, f) | Some _ => Some (Next, f) end
  | SResult => match f_result f with None => None | Some r => Some (if r =? k_ok then Next else Stop, set_return r f) end
  | SContinuation _ => None
  | SCopyOut p t =>
      match f_addrs f !! p, f_storages f !! p with
      | Some a, Some v => Some (Next, set_kernel (k_store a t v (f_kernel f)) f)
      | _, _ => None
      end
  end.
Fixpoint exec_all (l : list stmt) (f : frame) : option (flow * frame) :=
  match l with
  | [] => Some (Next, f)
  | s :: l' => match exec s f with Some (Next, f') => exec_all l' f' | r => r end
  end.
(** A handler with its continuation, which works on the state the handler has
    filled in and on the same return register. *)
Fixpoint exec_handler (continuation : list stmt) (l : list stmt) (f : frame) : option (flow * frame) :=
  match l with
  | [] => Some (Next, f)
  | SContinuation _ :: l' =>
      match exec_all continuation f with
      | Some (Suspend, f') => Some (Suspend, f')
      | Some (_, f') => exec_handler continuation l' f'
      | None => None
      end
  | s :: l' => match exec s f with Some (Next, f') => exec_handler continuation l' f' | r => r end
  end.

(** ** What is promised *)

Implicit Types (p : bytes * parameter_description).

Definition token_check (k : K) (h : handle_token) (w : Z) : option failure :=
  match k_get_handle k w with
  | None => Some invalid_token
  | Some x =>
      if negb (k_is_a x (ht_deref_type h)) then Some wrong_handle_type
      else if forallb (k_has_permission x) (required_permissions h) then None else Some not_allowed
  end.
(** Why a parameter with the value [w] is refused, if it is. *)
Definition check (k : K) (pw : bytes * parameter_description * Z) : option failure :=
  match pw.1.2 with
  | PType _ => None
  | PHandle h => token_check k h pw.2
  | PPointer d => if k_lock k pw.2 (ptr_out d) then None else Some invalid_pointers
  end.
(** ... and what the implementation gets for it otherwise. *)
Definition passed (k : K) (p : bytes * parameter_description) (w : Z) : value V :=
  match p.2 with
  | PType _ => VWord w
  | PHandle _ => match k_get_handle k w with Some x => VObject (k_get_as x) | None => VWord w end
  | PPointer d => VStorage (if ptr_in d then k_load k w (ptr_deref_type d) else k_uninit (ptr_deref_type d))
  end.

Definition first_failure (k : K) (l : list (bytes * parameter_description * Z)) : option failure := head (omap (check k) l).
(** A blocking call looks at its pointers when the implementation runs. *)
Definition check_order (blocking : bool) (l : list (bytes * parameter_description * Z)) : list (bytes * parameter_description * Z) :=
  if blocking then filter (fun x => is_pointer x.1.2 = false) l ++ filter (fun x => is_pointer x.1.2 = true) l else l.

Fixpoint copy_back (i : nat) (l : list (bytes * parameter_description * Z)) (outs : nat -> V) (k : K) : K :=
  match l with
  | [] => k
  | (p, w) :: l' =>
      copy_back (S i) l' outs
        match p.2 with PPointer d => if ptr_out d then k_store w (ptr_deref_type d) (outs i) k else k | _ => k end
  end.

(** What is left to do when the implementation returns. *)
Definition finish (l : list (bytes * parameter_description * Z)) (k : K) (r : option Z) (outs : nat -> V) : option Z * K :=
  match r with
  | Some r => (Some r, if r =? k_ok then copy_back 0 l outs k else k)
  | None => (None, k)
  end.
(** The result of a call, none when it waits, and the kernel after it. *)
Definition serve (d : syscall_description) (ws : list Z) (k : K) : option Z * K :=
  let l := zip (parameters d) ws in
  match first_failure k (check_order (sd_blocking d) l) with
  | Some e => (Some (k_code e), k)
  | None =>
      let '(k', r, outs) := impl k (zip_with (passed k) (parameters d) ws) in finish l k' r outs
  end.
(** A handler started in [f] has ended in [f'] with this outcome. *)
Definition ended (f : frame) (fl : flow) (f' : frame) (o : option Z * K) : Prop :=
  f_kernel f' = o.2 /\
  match o.1 with
  | Some r => fl <> Suspend /\ return_register f' = r
  | None => fl = Suspend /\ return_register f' = return_register f
  end.

(** ** Lists of statements *)

(** Running [l] either gets through, and then [Q], or fails with [e]. *)
Definition runs (l : list stmt) (f : frame) (e : option failure) (Q : frame -> Prop) : Prop :=
  match e with
  | None => exists f', exec_all l f = Some (Next, f') /\ Q f'
  | Some e => exists f', exec_all l f = Some (Stop, f') /\ return_register f' = k_code e /\ f_kernel f' = f_kernel f
  end.
Definition or_else (e1 e2 : option failure) : option failure := match e1 with Some e => Some e | None => e2 end.

Lemma exec_all_app l1 l2 f :
  exec_all (l1 ++ l2) f = match exec_all l1 f with Some (Next, f') => exec_all l2 f' | r => r end.
Proof using. revert f. induction l1 as [|s l1 IH]; intros f; cbn; [done|]. destruct (exec s f) as [[[] f']|]; done. Qed.
Lemma runs_nil f (Q : frame -> Prop) : Q f -> runs [] f None Q.
Proof using. intros. by exists f. Qed.
Lemma runs_app l1 l2 f e1 e2 (Q1 Q2 : frame -> Prop) :
  runs l1 f e1 Q1 -> (forall f', Q1 f' -> f_kernel f' = f_kernel f /\ runs l2 f' e2 Q2) -> runs (l1 ++ l2) f (or_else e1 e2) Q2.
Proof using.
  unfold runs. destruct e1 as [e|]; cbn.
  - intros (f1 & E1 & H1) _. exists f1. by rewrite exec_all_app, E1.
  - intros (f1 & E1 & H1) H2. destruct (H2 f1 H1) as [Ek H2']. destruct e2 as [e|].
    + destruct H2' as (f2 & E2 & A & B). exists f2. rewrite exec_all_app, E1. split; [done|]. by rewrite B.
    + destruct H2' as (f2 & E2 & A). exists f2. by rewrite exec_all_app, E1.
Qed.
Lemma runs_impl l f e (Q Q' : frame -> Prop) : (forall f', Q f' -> Q' f') -> runs l f e Q -> runs l f e Q'.
Proof using. intros HQ. unfold runs. destruct e; [done|]. intros (f' & ? & ?). eauto. Qed.

(** Only variables of the parameters [xs] change. *)
Definition extends (xs : list bytes) (f f' : frame) : Prop :=
  f_regs f' = f_regs f /\ f_kernel f' = f_kernel f /\ return_register f' = return_register f /\
  forall x, x ∉ xs -> f_vals f' !! x = f_vals f !! x /\ f_addrs f' !! x = f_addrs f !! x /\ f_storages f' !! x = f_storages f !! x.
Lemma extends_refl xs f : extends xs f f.
Proof using. by repeat split. Qed.
Lemma extends_trans xs ys f g h : extends xs f g -> extends ys g h -> extends (xs ++ ys) f h.
Proof using.
  intros (A & B & C & D) (A' & B' & C' & D'). split; [congruence|]. split; [congruence|]. split; [congruence|].
  intros x [Hx Hy]%not_elem_of_app. destruct (D x Hx) as (<- & <- & <-). by apply D'.
Qed.

(** The statements of one parameter after another. *)
Fixpoint chunks (sts : nat -> bytes * parameter_description -> list stmt) (i : nat) (ps : list (bytes * parameter_description)) : list stmt :=
  match ps with [] => [] | p :: ps' => sts i p ++ chunks sts (S i) ps' end.

Section chunks.
Context (k : K) (sts : nat -> bytes * parameter_description -> list stmt) (chk : bytes * parameter_description * Z -> option failure).
Context (Pre : frame -> nat -> bytes * parameter_description -> Z -> Prop) (B : frame -> bytes * parameter_description -> Z -> Prop).
Context (Hone : forall i p w f, f_kernel f = k -> Pre f i p w -> runs (sts i p) f (chk (p, w)) (fun f' => extends [p.1] f f' /\ B f' p w)).
Context (HB : forall xs f f' p w, B f p w -> extends xs f f' -> p.1 ∉ xs -> B f' p w).
Context (HPre : forall xs f f' i p w, Pre f i p w -> extends xs f f' -> p.1 ∉ xs -> Pre f' i p w).

Lemma chunks_run ps ws i f :
  NoDup ps.*1 -> length ps = length ws -> f_kernel f = k ->
  (forall j p w, ps !! j = Some p -> ws !! j = Some w -> Pre f (i + j) p w) ->
  runs (chunks sts i ps) f (head (omap chk (zip ps ws))) (fun f' => extends ps.*1 f f' /\ Forall2 (B f') ps ws).
Proof using Hone HB HPre.
  revert ws i f. induction ps as [|p ps IH]; intros [|w ws] i f Hnd Hlen Hk Hpre; try done; cbn [chunks zip zip_with].
  { apply runs_nil. split; [apply extends_refl|constructor]. }
  cbn [fmap list_fmap] in Hnd. apply NoDup_cons in Hnd as [Hp Hnd].
  replace (head (omap chk ((p, w) :: zip ps ws))) with (or_else (chk (p, w)) (head (omap chk (zip ps ws)))) by (cbn; by destruct (chk (p, w))).
  eapply runs_app.
  { apply Hone; [done|]. specialize (Hpre 0%nat p w eq_refl eq_refl). by rewrite Nat.add_0_r in Hpre. }
  intros f1 [E1 B1]. split; [apply E1|]. eapply runs_impl; [|apply (IH ws (S i))]; [|done|by injection Hlen| |].
  - intros f2 [E2 B2]. split; [by eapply (extends_trans [p.1])|]. constructor; [|done]. by eapply HB.
  - destruct E1 as (_ & -> & _). done.
  - intros j q x Hq Hx. eapply HPre; [|exact E1|].
    + rewrite Nat.add_succ_comm. by apply Hpre.
    + intros Hin%list_elem_of_singleton. apply Hp. rewrite <- Hin. apply list_elem_of_fmap. exists q. split; [done|].
      by eapply list_elem_of_lookup_2.
Qed.
End chunks.

(** ** Parameters *)

Lemma filter_all {A} (P : A -> Prop) `{!forall x, Decision (P x)} (l : list A) : Forall P l -> filter P l = l.
Proof using. induction 1 as [|x l Hx _ IH]; [done|]. rewrite filter_cons_True by done. by rewrite IH. Qed.
Lemma filter_none {A} (P : A -> Prop) `{!forall x, Decision (P x)} (l : list A) : Forall (fun x => ~ P x) l -> filter P l = [].
Proof using. induction 1 as [|x l Hx _ IH]; [done|]. by rewrite filter_cons_False by done. Qed.

Section parameters.
Context (arch : bytes) (k : K).

Definition plain (i : nat) (p : bytes * parameter_description) : list stmt :=
  snd <$> filter (fun x => x.1 = false) (default [] (parameter_stmts arch i p)).
Definition actions (i : nat) (p : bytes * parameter_description) : list stmt :=
  snd <$> filter (fun x => x.1 = true) (default [] (parameter_stmts arch i p)).
Definition plain_check (x : bytes * parameter_description * Z) : option failure := if is_pointer x.1.2 then None else check k x.
Definition action_check (x : bytes * parameter_description * Z) : option failure := if is_pointer x.1.2 then check k x else None.

Definition in_register (f : frame) (i : nat) (_ : bytes * parameter_description) (w : Z) : Prop :=
  exists reg, _get_arch_register_for_arg arch i = Some reg /\ f_regs f reg = w.
(** What the variables of a parameter hold. *)
Definition bound1 (f : frame) (p : bytes * parameter_description) (w : Z) : Prop :=
  if is_pointer p.2 then f_addrs f !! p.1 = Some w else f_vals f !! p.1 = Some (passed k p w).
Definition bound2 (f : frame) (p : bytes * parameter_description) (w : Z) : Prop :=
  is_pointer p.2 = true -> VStorage <$> f_storages f !! p.1 = Some (passed k p w).

Lemma bound1_extends xs f f' p w : bound1 f p w -> extends xs f f' -> p.1 ∉ xs -> bound1 f' p w.
Proof using. intros Hb (_ & _ & _ & E) Hx. unfold bound1 in *. destruct (E _ Hx) as (-> & -> & _). done. Qed.
Lemma bound2_extends xs f f' p w : bound2 f p w -> extends xs f f' -> p.1 ∉ xs -> bound2 f' p w.
Proof using. intros Hb (_ & _ & _ & E) Hx Hp. destruct (E _ Hx) as (_ & _ & ->). auto. Qed.
Lemma in_register_extends xs f f' i p w : in_register f i p w -> extends xs f f' -> p.1 ∉ xs -> in_register f' i p w.
Proof using. intros (reg & ? & ?) (E & _) _. exists reg. by rewrite E. Qed.

Lemma extends_one n f f' :
  f_regs f' = f_regs f -> f_kernel f' = f_kernel f -> return_register f' = return_register f ->
  (forall x, x <> n -> f_vals f' !! x = f_vals f !! x /\ f_addrs f' !! x = f_addrs f !! x /\ f_storages f' !! x = f_storages f !! x) ->
  extends [n] f f'.
Proof using. intros A B C D. split; [done|]. split; [done|]. split; [done|]. intros x Hx%not_elem_of_cons. apply D. by destruct Hx. Qed.

Lemma permissions_run n perms h f :
  handle_of n f = Some h ->
  runs (SCheckPermission n <$> perms) f (if forallb (k_has_permission h) perms then None else Some not_allowed) (fun f' => f' = f).
Proof using.
  intros Hh. induction perms as [|q perms IH]; cbn [fmap list_fmap forallb]; [by apply runs_nil|].
  unfold runs in *. cbn [exec_all exec]. rewrite Hh. destruct (k_has_permission h q); cbn; [|by eexists].
  destruct (forallb _ _); destruct IH as (f' & -> & ?); eauto.
Qed.

Lemma plain_token n i reg h :
  _get_arch_register_for_arg arch i = Some reg ->
  plain i (n, PHandle h) =
    [SGetHandle n reg; SCheckToken n; SCheckType n (ht_deref_type h)] ++ (SCheckPermission n <$> required_permissions h) ++ [SGetAs n (ht_deref_type h)].
Proof using.
  intros Er. unfold plain, parameter_stmts. rewrite Er. cbn [snd fst default from_option Datatypes.id]. rewrite filter_all.
  - cbn. do 3 f_equal. rewrite fmap_app. f_equal. by rewrite <- list_fmap_compose.
  - rewrite !Forall_cons, Forall_app, Forall_fmap. repeat split; [by apply Forall_true|]. by apply Forall_singleton.
Qed.
Lemma token_runs n i reg h w f :
  _get_arch_register_for_arg arch i = Some reg -> f_regs f reg = w -> f_kernel f = k ->
  runs (plain i (n, PHandle h)) f (token_check k h w)
    (fun f' => extends [n] f f' /\ f_vals f' !! n = Some (passed k (n, PHandle h) w)).
Proof using.
  intros Er Ew Ek. rewrite (plain_token n i reg) by done. unfold token_check, passed. cbn [snd fst].
  set (f1 := set_handle n (k_get_handle k w) f).
  destruct (k_get_handle k w) as [x|] eqn:Eh.
  2: { exists (set_return (k_code invalid_token) f1). cbn [app exec_all exec]. rewrite Ek, Ew, Eh. fold f1.
       cbn. rewrite lookup_insert_eq. by rewrite <- Ek. }
  assert (handle_of n f1 = Some x) as Hx. { unfold handle_of, f1. cbn. by rewrite lookup_insert_eq. }
  assert (forall l, exec_all ([SGetHandle n reg; SCheckToken n; SCheckType n (ht_deref_type h)] ++ l) f =
    if k_is_a x (ht_deref_type h) then exec_all l f1 else Some (Stop, set_return (k_code wrong_handle_type) f1)) as Hpre.
  { intros l. cbn [app exec_all exec]. rewrite Ek, Ew, Eh. fold f1. unfold f1 at 1. cbn [f_handles set_handle]. rewrite lookup_insert_eq.
    cbn [exec_all exec]. rewrite Hx. by destruct (k_is_a x _). }
  destruct (k_is_a x (ht_deref_type h)) eqn:Ea; cbn [negb].
  2: { exists (set_return (k_code wrong_handle_type) f1). rewrite Hpre. done. }
  pose proof (permissions_run n (required_permissions h) x f1 Hx) as Hp. unfold runs in *. destruct (forallb _ _).
  - destruct Hp as (f2 & E2 & ->). exists (set_val n (VObject (k_get_as x)) f1). rewrite Hpre, exec_all_app, E2. cbn [exec_all exec]. rewrite Hx.
    split; [done|]. split; [|cbn; by rewrite lookup_insert_eq]. apply extends_one; [done..|]. intros y Hy. cbn.
    by rewrite lookup_insert_ne by done.
  - destruct Hp as (f2 & E2 & ? & ?). exists f2. rewrite Hpre, exec_all_app, E2. done.
Qed.

Lemma plain_runs i p w f :
  f_kernel f = k -> in_register f i p w -> runs (plain i p) f (plain_check (p, w)) (fun f' => extends [p.1] f f' /\ bound1 f' p w).
Proof using.
  intros Ek (reg & Er & Ew). destruct p as [n [t|h|d]]; unfold plain_check, bound1, check; cbn [fst snd is_pointer].
  - unfold plain, parameter_stmts. rewrite Er. cbn. eexists. split; [reflexivity|]. cbn. rewrite lookup_insert_eq, Ew. split; [|done].
    apply extends_one; [done..|]. intros y Hy. cbn. by rewrite lookup_insert_ne by done.
  - by apply (token_runs n i reg).
  - assert (plain i (n, PPointer d) = [SAddress n (ptr_deref_type d) reg]) as ->.
    { unfold plain, parameter_stmts. rewrite Er. cbn. by destruct (ptr_in d). }
    cbn. eexists. split; [reflexivity|]. cbn. rewrite lookup_insert_eq, Ew. split; [|done].
    apply extends_one; [done..|]. intros y Hy. cbn. by rewrite lookup_insert_ne by done.
Qed.

Lemma actions_of i reg p :
  _get_arch_register_for_arg arch i = Some reg ->
  actions i p = match p.2 with
                | PPointer d => [SLock p.1 (ptr_out d); SStorage p.1 (ptr_deref_type d)] ++ (if ptr_in d then [SCopyIn p.1 (ptr_deref_type d)] else [])
                | _ => []
                end.
Proof using.
  intros Er. unfold actions, parameter_stmts. rewrite Er.
  destruct p as [n [t|h|d]]; cbn [snd fst default from_option Datatypes.id]; [done| |cbn; by destruct (ptr_in d)].
  rewrite filter_none; [done|]. rewrite !Forall_cons, Forall_app, Forall_fmap. repeat split; [done..|by apply Forall_true|]. by apply Forall_singleton.
Qed.
Lemma actions_run i p w f :
  f_kernel f = k -> in_register f i p w /\ bound1 f p w ->
  runs (actions i p) f (action_check (p, w)) (fun f' => extends [p.1] f f' /\ bound1 f' p w /\ bound2 f' p w).
Proof using.
  intros Ek [(reg & Er & _) Hb]. rewrite (actions_of i reg) by done. unfold action_check, check, bound2, bound1 in *.
  destruct p as [n [t|h|d]]; cbn [fst snd is_pointer] in *; [by apply runs_nil; split; [apply extends_refl|]..|].
  unfold runs. cbn [app exec_all exec]. rewrite Hb, Ek. destruct (k_lock k w (ptr_out d)).
  2: { eexists. split; [reflexivity|]. cbn. by rewrite Ek. }
  destruct (ptr_in d) eqn:Ei; cbn [exec_all exec]; cbn [set_storage f_addrs f_kernel]; rewrite ?Hb, ?Ek;
    (eexists; split; [reflexivity|]; cbn; rewrite lookup_insert_eq; split; [|unfold passed; cbn; by rewrite ?Ei]);
    (apply extends_one; [done..|]); intros y Hy; cbn; by rewrite ?lookup_insert_ne by done.
Qed.
End parameters.

(** ** Handlers *)

Section whole.
Context (arch : bytes).

Lemma parameters_stmts_chunks ps i l :
  parameters_stmts arch i ps = Some l ->
  snd <$> l = chunks (fun i p => plain arch i p ++ actions arch i p) i ps /\
  snd <$> filter (fun x => x.1 = false) l = chunks (plain arch) i ps /\
  snd <$> filter (fun x => x.1 = true) l = chunks (actions arch) i ps.
Proof using.
  revert i l. induction ps as [|p ps IH]; intros i l; cbn [parameters_stmts chunks]; [by intros [= <-]|].
  destruct (parameter_stmts arch i p) as [a|] eqn:Ea; [|done]. destruct (parameters_stmts arch (S i) ps) as [b|] eqn:Eb; [|done].
  intros [= <-]. destruct (IH (S i) b Eb) as (E1 & E2 & E3). rewrite !filter_app, !fmap_app, E1, E2, E3.
  split; [|unfold plain, actions; by rewrite Ea].
  f_equal. unfold plain, actions. rewrite Ea. cbn. revert Ea. unfold parameter_stmts.
  destruct (_get_arch_register_for_arg arch i) as [reg|] eqn:Er; [|done]. intros [= <-].
  pose proof (actions_of arch i reg p Er) as Ha. unfold actions, parameter_stmts in Ha. rewrite Er in Ha.
  cbn [default from_option Datatypes.id] in Ha. destruct p as [n [t|h|d]]; cbn [snd fst] in *; [done| |cbn; by destruct (ptr_in d)].
  rewrite Ha, app_nil_r. f_equal. symmetry. apply filter_all.
  rewrite !Forall_cons, Forall_app, Forall_fmap. repeat split; [by apply Forall_true|]. by apply Forall_singleton.
Qed.

Lemma first_failure_app k a b : first_failure k (a ++ b) = or_else (first_failure k a) (first_failure k b).
Proof using. unfold first_failure. rewrite omap_app. by destruct (omap (check k) a). Qed.
(** Failures among the elements that [P] selects. *)
Lemma failure_filter k (P : bytes * parameter_description * Z -> Prop) `{!forall x, Decision (P x)} chk l :
  (forall x, chk x = if decide (P x) then check k x else None) -> head (omap chk l) = first_failure k (filter P l).
Proof using.
  intros Hc. unfold first_failure. f_equal. induction l as [|x l IH]; [done|]. cbn [omap list_omap]. rewrite Hc. case_decide.
  - rewrite filter_cons_True by done. cbn [omap list_omap]. by destruct (check k x); rewrite <- ?IH.
  - by rewrite filter_cons_False by done.
Qed.
Lemma plain_failure k l : head (omap (plain_check k) l) = first_failure k (filter (fun x => is_pointer x.1.2 = false) l).
Proof using. apply failure_filter. intros x. unfold plain_check. by destruct (is_pointer x.1.2). Qed.
Lemma action_failure k l : head (omap (action_check k) l) = first_failure k (filter (fun x => is_pointer x.1.2 = true) l).
Proof using. apply failure_filter. intros x. unfold action_check. by destruct (is_pointer x.1.2). Qed.

(** All parameters, when pointers wait for the implementation and when not. *)
Definition registers_hold (f : frame) (ws : list Z) : Prop :=
  forall j w, ws !! j = Some w -> exists reg, _get_arch_register_for_arg arch j = Some reg /\ f_regs f reg = w.

Lemma plain_parameters k ps ws l f :
  parameters_stmts arch 0 ps = Some l -> NoDup ps.*1 -> length ps = length ws -> f_kernel f = k -> registers_hold f ws ->
  runs (snd <$> filter (fun x => x.1 = false) l) f (first_failure k (filter (fun x => is_pointer x.1.2 = false) (zip ps ws)))
    (fun f' => extends ps.*1 f f' /\ Forall2 (bound1 k f') ps ws).
Proof using.
  intros El Hnd Hlen Hk Hr. destruct (parameters_stmts_chunks _ _ _ El) as (_ & -> & _). rewrite <- plain_failure.
  eapply (chunks_run k _ _ (in_register arch)); [by intros; apply plain_runs|by apply bound1_extends|by apply in_register_extends|done..|].
  intros j p w _ Hw. by apply Hr.
Qed.
Lemma action_parameters k ps ws l f :
  parameters_stmts arch 0 ps = Some l -> NoDup ps.*1 -> length ps = length ws -> f_kernel f = k -> registers_hold f ws ->
  Forall2 (bound1 k f) ps ws ->
  runs (snd <$> filter (fun x => x.1 = true) l) f (first_failure k (filter (fun x => is_pointer x.1.2 = true) (zip ps ws)))
    (fun f' => extends ps.*1 f f' /\ Forall2 (fun p w => bound1 k f' p w /\ bound2 k f' p w) ps ws).
Proof using.
  intros El Hnd Hlen Hk Hr Hb. destruct (parameters_stmts_chunks _ _ _ El) as (_ & _ & ->). rewrite <- action_failure.
  eapply (chunks_run k _ _ (fun f i p w => in_register arch f i p w /\ bound1 k f p w)).
  - by intros; apply actions_run.
  - intros xs f1 f2 p w [? ?] ? ?. split; [by eapply bound1_extends|by eapply bound2_extends].
  - intros xs f1 f2 i p w [? ?] ? ?. split; [by eapply in_register_extends|by eapply bound1_extends].
  - done.
  - done.
  - done.
  - intros j p w Hp Hw. split; [by apply Hr|]. by apply (Forall2_lookup_lr _ _ _ j p w Hb).
Qed.
Lemma all_parameters k ps ws l f :
  parameters_stmts arch 0 ps = Some l -> NoDup ps.*1 -> length ps = length ws -> f_kernel f = k -> registers_hold f ws ->
  runs (snd <$> l) f (first_failure k (zip ps ws))
    (fun f' => extends ps.*1 f f' /\ Forall2 (fun p w => bound1 k f' p w /\ bound2 k f' p w) ps ws).
Proof using.
  intros El Hnd Hlen Hk Hr. destruct (parameters_stmts_chunks _ _ _ El) as (-> & _ & _).
  eapply (chunks_run k _ (check k) (in_register arch)).
  - intros i p w f1 Hk1 Hp. replace (check k (p, w)) with (or_else (plain_check k (p, w)) (action_check k (p, w))).
    2: { unfold plain_check, action_check. cbn. destruct (is_pointer p.2); [done|]. by destruct (check k (p, w)). }
    eapply runs_app; [by apply plain_runs|]. intros f2 [E2 B2]. split; [apply E2|].
    eapply runs_impl; [|apply (actions_run arch k i p w f2); [|split; [|done]]].
    + intros f3 [E3 B3]. split; [|done]. destruct E2 as (? & ? & ? & E2), E3 as (? & ? & ? & E3).
      split; [congruence|]. split; [congruence|]. split; [congruence|]. intros x Hx. destruct (E2 x Hx) as (<- & <- & <-). by apply E3.
    + destruct E2 as (_ & -> & _). done.
    + destruct Hp as (reg & ? & ?). exists reg. destruct E2 as (-> & _). done.
  - intros xs f1 f2 p w [? ?] ? ?. split; [by eapply bound1_extends|by eapply bound2_extends].
  - by apply in_register_extends.
  - done.
  - done.
  - done.
  - intros j p w Hp Hw. by apply Hr.
Qed.

(** *** The call and what follows it *)

Definition argument_names (ps : list (bytes * parameter_description)) : list (bytes * bool) := (fun p => (p.1, is_pointer p.2)) <$> ps.

Lemma arguments_passed k f ps ws :
  Forall2 (fun p w => bound1 k f p w /\ bound2 k f p w) ps ws -> mapM (argument f) (argument_names ps) = Some (zip_with (passed k) ps ws).
Proof using.
  intros Hb. unfold argument_names. induction Hb as [|p w ps ws [H1 H2] _ IH]; [done|]. cbn [fmap list_fmap mapM zip_with].
  assert (argument f (p.1, is_pointer p.2) = Some (passed k p w)) as ->.
  { unfold argument, bound1, bound2 in *. cbn. destruct (is_pointer p.2); [by apply H2|done]. }
  cbn. by rewrite IH.
Qed.

Lemma update_storages_other i qs outs f :
  f_addrs (update_storages i qs outs f) = f_addrs f /\ f_kernel (update_storages i qs outs f) = f_kernel f /\
  f_result (update_storages i qs outs f) = f_result f /\ return_register (update_storages i qs outs f) = return_register f.
Proof using.
  revert i f. induction qs as [|q qs IH]; intros i f; cbn [update_storages]; [done|].
  destruct (IH (S i) (if q.2 then set_storage q.1 (outs i) f else f)) as (-> & -> & -> & ->). by destruct q.2.
Qed.
Lemma update_storages_ne i qs outs f x : x ∉ qs.*1 -> f_storages (update_storages i qs outs f) !! x = f_storages f !! x.
Proof using.
  revert i f. induction qs as [|q qs IH]; intros i f; cbn [update_storages]; [done|]. cbn. intros [Hx Hn]%not_elem_of_cons.
  rewrite IH by done. destruct q.2; [|done]. cbn. by rewrite lookup_insert_ne by done.
Qed.
Lemma update_storages_eq i qs outs f j x :
  NoDup qs.*1 -> qs !! j = Some (x, true) -> f_storages (update_storages i qs outs f) !! x = Some (outs (i + j)%nat).
Proof using.
  revert i j f. induction qs as [|q qs IH]; intros i j f; [done|]. cbn [fmap list_fmap]. intros [Hq Hnd]%NoDup_cons. destruct j as [|j].
  - intros [= ->]. cbn [update_storages fst snd]. rewrite update_storages_ne by done. cbn. by rewrite lookup_insert_eq, Nat.add_0_r.
  - intros Hj. cbn [update_storages]. rewrite (IH (S i) j) by done. do 2 f_equal. lia.
Qed.

Lemma copy_outs_run ps ws i outs f :
  length ps = length ws ->
  (forall j p w, ps !! j = Some p -> ws !! j = Some w -> is_pointer p.2 = true ->
     f_addrs f !! p.1 = Some w /\ f_storages f !! p.1 = Some (outs (i + j)%nat)) ->
  exec_all (snd <$> copy_outs ps) f = Some (Next, set_kernel (copy_back i (zip ps ws) outs (f_kernel f)) f).
Proof using.
  revert ws i f. induction ps as [|p ps IH]; intros [|w ws] i f Hlen Hp; try done.
  { by destruct f. }
  injection Hlen as Hlen. unfold copy_outs. rewrite bind_cons, fmap_app. fold (copy_outs ps). cbn [zip zip_with copy_back].
  assert (forall j q x, ps !! j = Some q -> ws !! j = Some x -> is_pointer q.2 = true ->
     f_addrs f !! q.1 = Some x /\ f_storages f !! q.1 = Some (outs (S i + j)%nat)) as Hrest.
  { intros j q x Hq Hx. rewrite Nat.add_succ_comm. by apply (Hp (S j)). }
  destruct p as [n [t|h|d]]; cbn [snd fst]; [by apply IH..|]. destruct (ptr_out d); [|by apply IH].
  destruct (Hp 0%nat _ w eq_refl eq_refl eq_refl) as [Ha Hs]. cbn [fst] in *. rewrite Nat.add_0_r in Hs.
  cbn [fmap list_fmap app exec_all exec snd]. rewrite Ha, Hs. rewrite (IH ws (S i)) by done. done.
Qed.

(** The end of a handler, from the call of the implementation on. *)
Definition ending (blocking : bool) (sc name : bytes) (ps : list (bytes * parameter_description)) : list stmt :=
  SCall sc name (argument_names ps) :: (if blocking then [SUnfinished] else []) ++ SResult :: (snd <$> copy_outs ps).
Lemma ending_run blocking sc name ps ws f k' r outs :
  NoDup ps.*1 -> length ps = length ws -> Forall2 (fun p w => bound1 (f_kernel f) f p w /\ bound2 (f_kernel f) f p w) ps ws ->
  impl (f_kernel f) (zip_with (passed (f_kernel f)) ps ws) = (k', r, outs) -> (blocking = false -> r <> None) ->
  exists fl f', exec_all (ending blocking sc name ps) f = Some (fl, f') /\ ended f fl f' (finish (zip ps ws) k' r outs).
Proof using.
  intros Hnd Hlen Hb Ei Hr. unfold ending, ended, finish. cbn [exec_all exec]. rewrite (arguments_passed _ _ _ _ Hb), Ei.
  set (f1 := update_storages 0 (argument_names ps) outs (set_called r k' f)).
  destruct (update_storages_other 0 (argument_names ps) outs (set_called r k' f)) as (E1 & E2 & E3 & E4). fold f1 in E1, E2, E3, E4. cbn in E1, E2, E3, E4.
  destruct r as [r|]; [|destruct blocking; [|by destruct (Hr eq_refl)]].
  2: { cbn [app exec_all exec]. rewrite E3. eexists _, _. by split. }
  assert (exec_all ((if blocking then [SUnfinished] else []) ++ SResult :: (snd <$> copy_outs ps)) f1 =
    exec_all (SResult :: (snd <$> copy_outs ps)) f1) as ->. { destruct blocking; [|done]. cbn [app exec_all exec]. by rewrite !E3. }
  cbn [exec_all exec]. rewrite E3. destruct (r =? k_ok).
  - rewrite (copy_outs_run ps ws 0 outs); [|done|].
    + eexists _, _. split; [reflexivity|]. cbn. by rewrite E2.
    + intros j p w Hp Hw Hptr. cbn. rewrite E1. split.
      * destruct (Forall2_lookup_lr _ _ _ j p w Hb Hp Hw) as [H1 _]. unfold bound1 in H1. by rewrite Hptr in H1.
      * apply (update_storages_eq 0 (argument_names ps)).
        -- unfold argument_names. rewrite <- list_fmap_compose. cbn. done.
        -- unfold argument_names. rewrite list_lookup_fmap, Hp. cbn. by rewrite Hptr.
  - eexists _, _. split; [reflexivity|]. by cbn.
Qed.

Lemma exec_handler_app c l1 l2 f fl f' :
  exec_all l1 f = Some (fl, f') ->
  exec_handler c (l1 ++ l2) f = match fl with Next => exec_handler c l2 f' | _ => Some (fl, f') end.
Proof using.
  revert f. induction l1 as [|s l1 IH]; intros f; cbn [app exec_all].
  { by intros [= <- <-]. }
  intros E. destruct (exec s f) as [[fl1 f1]|] eqn:Es; [|done].
  assert (exec_handler c (s :: l1 ++ l2) f = match fl1 with Next => exec_handler c (l1 ++ l2) f1 | _ => Some (fl1, f1) end) as ->.
  { destruct s; try done; cbn [exec_handler]; rewrite Es; by destruct fl1. }
  destruct fl1; [by apply IH|by injection E as <- <-..].
Qed.
Lemma copy_outs_actions ps : Forall (fun x => x.1 = true) (copy_outs ps).
Proof using.
  induction ps as [|p ps IH]; [constructor|]. unfold copy_outs. rewrite bind_cons. apply Forall_app. split; [|done].
  destruct p.2 as [t|h|d]; [constructor..|]. destruct (ptr_out d); by repeat constructor.
Qed.
Lemma copy_outs_none ps : filter (fun x => x.1 = false) (copy_outs ps) = [].
Proof using. apply filter_none. eapply Forall_impl; [apply copy_outs_actions|]. intros x ->. done. Qed.

Lemma bodies name d L :
  handler_stmts arch name d = Some L ->
  exists l, parameters_stmts arch 0 (parameters d) = Some l /\
    if sd_blocking d
    then handler_body d L = [SState name; SCurrentThread; SReturnRegister] ++ (snd <$> filter (fun x => x.1 = false) l) ++ [SContinuation name] /\
         continuation_body d L = (snd <$> filter (fun x => x.1 = true) l) ++ ending true (implementation_scope d) name (parameters d)
    else handler_body d L = [SCurrentThread; SReturnRegister] ++ (snd <$> l) ++ ending false (implementation_scope d) name (parameters d).
Proof using.
  unfold handler_stmts. destruct (parameters_stmts arch 0 (parameters d)) as [l|]; [|done]. intros [= <-]. exists l. split; [done|].
  unfold handler_body, continuation_body, ending. destruct (sd_blocking d); cbn [app].
  - rewrite !filter_cons, !filter_app, !filter_cons, copy_outs_none.
    rewrite (filter_all (fun x : bool * stmt => x.1 = true) (copy_outs (parameters d)) (copy_outs_actions _)).
    cbn [fst]. repeat first [rewrite decide_True by done | rewrite decide_False by done]. 
    split; [rewrite !fmap_cons, fmap_app|rewrite fmap_app, !fmap_cons]; reflexivity.
  - rewrite !fmap_cons, fmap_app, !fmap_cons. reflexivity.
Qed.

(** A handler does what is promised. *)
Lemma handler_serves name d L ws f :
  handler_stmts arch name d = Some L -> NoDup (parameters d).*1 -> length (parameters d) = length ws -> registers_hold f ws ->
  (sd_blocking d = false -> forall k vs, (impl k vs).1.2 <> None) ->
  exists fl f', exec_handler (continuation_body d L) (handler_body d L) f = Some (fl, f') /\ ended f fl f' (serve d ws (f_kernel f)).
Proof using.
  intros (l & El & Hbody)%bodies Hnd Hlen Hr Himpl. unfold serve, check_order. set (k := f_kernel f). set (ps := parameters d) in *.
  destruct (impl k (zip_with (passed k) ps ws)) as [[k' r] outs] eqn:Ei.
  assert (sd_blocking d = false -> r <> None) as Hsome.
  { intros Hb. specialize (Himpl Hb k (zip_with (passed k) ps ws)). by rewrite Ei in Himpl. }
  destruct (sd_blocking d).
  - destruct Hbody as [-> ->]. rewrite first_failure_app. pose proof (plain_parameters k ps ws l f El Hnd Hlen eq_refl Hr) as Hp.
    cbn [app exec_handler exec]. unfold runs in Hp. destruct (first_failure k (filter (fun x => is_pointer x.1.2 = false) _)) as [e|]; cbn [or_else].
    + destruct Hp as (f1 & E1 & A & B). rewrite (exec_handler_app _ _ _ _ _ _ E1). by exists Stop, f1.
    + destruct Hp as (f1 & E1 & X1 & B1). rewrite (exec_handler_app _ _ _ _ _ _ E1). cbn [exec_handler]. rewrite exec_all_app.
      assert (f_kernel f1 = k) as Hk1 by apply X1.
      assert (registers_hold f1 ws) as Hr1. { intros j w Hw. destruct X1 as (-> & _). by apply Hr. }
      pose proof (action_parameters k ps ws l f1 El Hnd Hlen Hk1 Hr1 B1) as Ha. unfold runs in Ha.
      destruct (first_failure k (filter (fun x => is_pointer x.1.2 = true) _)) as [e|].
      * destruct Ha as (f2 & -> & A & B). exists Next, f2. unfold ended. cbn. by rewrite B.
      * destruct Ha as (f2 & -> & X2 & B2). assert (f_kernel f2 = k) as Hk2 by (destruct X2 as (_ & -> & _); done).
        destruct (ending_run true (implementation_scope d) name ps ws f2 k' r outs) as (fl & f3 & -> & H3); rewrite ?Hk2; try done.
        assert (ended f fl f3 (finish (zip ps ws) k' r outs)) as He.
        { unfold ended in *. destruct X1 as (_ & _ & <- & _), X2 as (_ & _ & <- & _). done. }
        destruct fl; (eexists _, f3; split; [reflexivity|]); unfold ended in *; destruct (finish _ _ _ _) as [[|] ?]; naive_solver.
  - rewrite Hbody. pose proof (all_parameters k ps ws l f El Hnd Hlen eq_refl Hr) as Hp. unfold runs in Hp. cbn [app exec_handler exec].
    destruct (first_failure k (zip ps ws)) as [e|].
    + destruct Hp as (f1 & E1 & A & B). rewrite (exec_handler_app _ _ _ _ _ _ E1). by exists Stop, f1.
    + destruct Hp as (f1 & E1 & X1 & B1). rewrite (exec_handler_app _ _ _ _ _ _ E1).
      assert (f_kernel f1 = k) as Hk1 by apply X1.
      destruct (ending_run false (implementation_scope d) name ps ws f1 k' r outs) as (fl & f3 & E3 & H3); rewrite ?Hk1; try done.
      rewrite <- (app_nil_r (ending _ _ _ _)), (exec_handler_app _ _ _ _ _ _ E3). exists fl, f3.
      split; [by destruct fl|]. unfold ended in *. by destruct X1 as (_ & _ & <- & _).
Qed.
End whole.
End handlers.
