(* ===== verification/ThornOutput.v ===== *)
(** * From the declaration of a system call to its handler

    The numbers [output] gives, the table of handlers it writes, and the way of a
    call: the stub leaves the number and the arguments where the kernel looks for
    them, and the handler at that number does what the declaration promises. *)
From stdpp Require Import sorting.
From S2P Require Import Prelude Text ThornLexer ThornParser ThornContext ThornLayout ThornRoundtrip ThornTypes ThornGenerator ThornHandlers ThornTheorems.

(** ** Numbers *)

Definition with_id (i : nat) (d : syscall_description) : syscall_description :=
  mkSyscallDesc (implementation_scope d) (parameters d) (return_type d) (Some (Z.of_nat i)) (sd_blocking d).

Lemma number_syscalls_spec l i symbols :
  NoDup l -> (forall n, n ∈ l -> exists mo d, symbols !! n = Some (mkSymbol mo (Syscall d))) ->
  exists symbols', number_syscalls i l symbols = Ok symbols' /\ (forall n, n ∉ l -> symbols' !! n = symbols !! n) /\
    forall j n, l !! j = Some n ->
      exists mo d, symbols !! n = Some (mkSymbol mo (Syscall d)) /\ symbols' !! n = Some (mkSymbol mo (Syscall (with_id (i + j) d))).
Proof.
  revert i symbols. induction l as [|x l IH]; intros i symbols Hnd Hs; cbn [number_syscalls]; [by exists symbols|].
  apply NoDup_cons in Hnd as [Hx Hnd]. destruct (Hs x) as (mo & d & Ex); [by left|]. rewrite Ex. cbn [set_id sym_description module].
  fold (with_id i d). destruct (IH (S i) (<[x := mkSymbol mo (Syscall (with_id i d))]> symbols) Hnd) as (symbols' & E & Hout & Hin).
  { intros n Hn. rewrite lookup_insert_ne by (by intros ->). apply Hs. by right. }
  exists symbols'. split; [done|]. split.
  - intros n [Hne Hn]%not_elem_of_cons. rewrite Hout by done. by rewrite lookup_insert_ne by done.
  - intros [|j] n; cbn; [intros [= <-]; exists mo, d; rewrite Hout by done; by rewrite lookup_insert_eq, Nat.add_0_r|].
    intros Hj. destruct (Hin j n Hj) as (mo' & d' & E1 & E2). exists mo', d'. rewrite Nat.add_succ_comm in E2. split; [|done].
    rewrite lookup_insert_ne in E1; [done|]. intros ->. apply Hx. by eapply list_elem_of_lookup_2.
Qed.

(** ** The table *)

Definition key_lt (a b : Z * bytes) : Prop := a.1 < b.1.
#[global] Instance key_lt_antisymm : AntiSymm eq key_lt.
Proof. intros a b. unfold key_lt. lia. Qed.

Lemma assign_elem k v l x : StronglySorted key_lt l -> x ∈ assign k v l <-> x = (k, v) \/ (x ∈ l /\ x.1 <> k).
Proof.
  induction 1 as [|[k' v'] l Hl IH Hall]; cbn [assign]; [rewrite list_elem_of_singleton, elem_of_nil; tauto|].
  assert (forall y, y ∈ l -> k' < y.1) as Hk. { intros y Hy. by apply (proj1 (Forall_forall _ _) Hall). }
  destruct (Z.ltb_spec k k') as [Hlt|Hge]; [|destruct (Z.ltb_spec k' k) as [Hlt|Heq]]; rewrite !elem_of_cons, ?IH.
  - split; [|tauto]. intros [-> | [-> | Hx]]; [tauto|right; cbn; split; [tauto|lia]|]. right. split; [tauto|]. apply Hk in Hx. lia.
  - split; [|tauto]. intros [-> | [-> | Hx]]; [right; cbn; split; [tauto|lia]|tauto|tauto].
  - assert (k = k') as -> by lia. split; [intros [-> | Hx]; [tauto|]|].
    + right. split; [tauto|]. apply Hk in Hx. lia.
    + intros [-> | [[-> | Hx] Hne]]; [tauto|by cbn in Hne|tauto].
Qed.
Lemma assign_sorted k v l : StronglySorted key_lt l -> StronglySorted key_lt (assign k v l).
Proof.
  induction 1 as [|[k' v'] l Hl IH Hall]; cbn [assign]; [by repeat constructor|].
  destruct (Z.ltb_spec k k') as [Hlt|Hge]; [|destruct (Z.ltb_spec k' k) as [Hlt|Heq]]; constructor; try done.
  - by constructor.
  - constructor; [done|]. eapply Forall_impl; [exact Hall|]. unfold key_lt. cbn. lia.
  - apply Forall_forall. intros x Hx. apply assign_elem in Hx as [-> | [Hx _]]; [done| |done].
    by apply (proj1 (Forall_forall _ _) Hall).
  - assert (k = k') as -> by lia. done.
Qed.
Lemma sorted_nodup l : StronglySorted key_lt l -> NoDup l.
Proof.
  induction 1 as [|x l Hl IH Hall]; constructor; [|done]. intros Hx. apply (proj1 (Forall_forall _ _) Hall) in Hx. unfold key_lt in Hx. lia.
Qed.
Lemma sorted_ext l l' : StronglySorted key_lt l -> StronglySorted key_lt l' -> (forall x, x ∈ l <-> x ∈ l') -> l = l'.
Proof.
  intros Hl Hl' He. apply (StronglySorted_unique key_lt); [done..|]. apply NoDup_Permutation; [by apply sorted_nodup..|done].
Qed.

(** Positions as keys. *)
Definition numbered (l : list bytes) : list (Z * bytes) := imap (fun i n => (Z.of_nat i, n)) l.
Lemma numbered_elem l x : x ∈ numbered l <-> exists i, x.1 = Z.of_nat i /\ l !! i = Some x.2.
Proof.
  unfold numbered. rewrite list_elem_of_lookup. split.
  - intros [i Hi]. exists i. rewrite list_lookup_imap in Hi. destruct (l !! i) as [n|]; [|done]. by injection Hi as <-.
  - intros (i & E & Hi). exists i. rewrite list_lookup_imap, Hi. cbn. rewrite <- E. by destruct x.
Qed.
Lemma numbered_sorted l : StronglySorted key_lt (numbered l).
Proof.
  unfold numbered. assert (forall k, StronglySorted key_lt (imap (fun i n => (Z.of_nat (k + i), n)) l)) as H; [|apply (H 0%nat)].
  induction l as [|x l IH]; intros k; cbn; [constructor|]. constructor.
  - specialize (IH (S k)). erewrite imap_ext; [exact IH|]. intros i y _. cbn. do 2 f_equal. lia.
  - apply Forall_forall. intros [z n] Hz. apply list_elem_of_lookup in Hz as [j Hj]. rewrite list_lookup_imap in Hj.
    destruct (l !! j); [|done]. injection Hj as <- _. unfold key_lt. cbn. lia.
Qed.

(** The generator's other writes keep the names. *)
Lemma get_stream_names sc arch mo kd g : _id_names (_get_stream sc arch mo kd g) = _id_names g.
Proof. unfold _get_stream. destruct (_get_stream_map kd g !! mo); [done|]. by destruct kd. Qed.
Lemma write_names mo kd t g : _id_names (write mo kd t g) = _id_names g.
Proof. unfold write. destruct (_get_stream_map kd g !! mo); [|done]. by destruct kd. Qed.

(** The number of a symbol. *)
Definition number_of (symbols : gmap bytes symbol) (n : bytes) : option Z :=
  match symbols !! n with Some (mkSymbol _ (Syscall d)) => id d | _ => None end.

Section generated.
Context (sc arch : bytes) (symbols : gmap bytes symbol).
(** Every system call has a number and can be generated. *)
Context (Hgen : forall n mo d, symbols !! n = Some (mkSymbol mo (Syscall d)) ->
  is_Some (id d) /\ is_Some (moves arch d) /\ is_Some (handler_stmts arch n d)).

Lemma generate_symbol_names n s g :
  symbols !! n = Some s ->
  exists g', generate_symbol sc arch n s g = Ok g' /\
    _id_names g' = match number_of symbols n with Some k => assign k n (_id_names g) | None => _id_names g end.
Proof using Hgen.
  intros Es. unfold generate_symbol, number_of. rewrite Es. destruct s as [mo [d|d|d]]; cbn [sym_description module].
  - eexists. split; [reflexivity|]. rewrite write_names. unfold open_streams. by rewrite !get_stream_names.
  - eexists. split; [reflexivity|]. rewrite write_names. unfold open_streams. by rewrite !get_stream_names.
  - destruct (Hgen n mo d Es) as ([i ->] & [ms ->] & [L ->]). eexists. split; [reflexivity|]. rewrite write_names.
    case_decide; rewrite ?write_names; cbn; unfold open_streams; by rewrite !get_stream_names.
Qed.

Lemma generate_symbols_names l g done :
  (forall n, n ∈ l -> is_Some (symbols !! n)) ->
  (forall n n' k, number_of symbols n = Some k -> number_of symbols n' = Some k -> n = n') ->
  StronglySorted key_lt (_id_names g) -> (forall x, x ∈ _id_names g <-> x.2 ∈ done /\ number_of symbols x.2 = Some x.1) ->
  exists g', generate_symbols sc arch l symbols g = Ok g' /\ StronglySorted key_lt (_id_names g') /\
    forall x, x ∈ _id_names g' <-> x.2 ∈ done ++ l /\ number_of symbols x.2 = Some x.1.
Proof using Hgen.
  intros Hl Hinj. revert g done. induction l as [|n l IH]; intros g dn Hs Hx; cbn [generate_symbols].
  { exists g. by rewrite app_nil_r. }
  destruct (Hl n) as [s Es]; [by left|]. rewrite Es. destruct (generate_symbol_names n s g Es) as (g1 & -> & E1).
  destruct (IH ltac:(intros; apply Hl; by right) g1 (dn ++ [n])) as (g2 & E2 & S2 & X2).
  - rewrite E1. destruct (number_of symbols n); [by apply assign_sorted|done].
  - intros x. rewrite E1, elem_of_app, list_elem_of_singleton. destruct (number_of symbols n) as [k|] eqn:En.
    + rewrite assign_elem, Hx by done. split.
      * intros [-> | [[? ?] ?]]; cbn; auto.
      * intros [[Hd | Hd] Hk]; [|left; rewrite Hd in Hk; destruct x; cbn in *; congruence].
        destruct (decide (x.1 = k)) as [<- | Hne]; [left|auto]. rewrite (Hinj _ _ _ En Hk). by destruct x.
    + rewrite Hx. split; [intuition|]. intros [[? | Hd] Hk]; [done|]. rewrite Hd in Hk. congruence.
  - exists g2. split; [done|]. split; [done|]. intros x. rewrite X2. by rewrite <- (assoc_L (++)).
Qed.
End generated.

(** ** The stub *)

(** The registers of the calling convention, and what the moves of a stub do. *)
Definition calling_convention : list bytes := [text "rdi"; text "rsi"; text "rdx"; text "rcx"; text "r8"; text "r9"].
Definition set_register (r : bytes) (w : Z) (regs : bytes -> Z) : bytes -> Z := fun x => if decide (x = r) then w else regs x.
Definition stub_registers (i : Z) (ms : list (bytes * bytes)) (regs : bytes -> Z) : bytes -> Z :=
  foldl (fun regs mv => set_register mv.2 (regs mv.1) regs) (set_register (text "rax") i regs) ms.

Lemma arguments_arrive d i ms regs ws :
  moves (text "amd64") d = Some ms -> length ws = length (parameters d) -> (length (parameters d) <= 6)%nat ->
  (forall j w r, ws !! j = Some w -> calling_convention !! j = Some r -> regs r = w) ->
  stub_registers i ms regs (text "rax") = i /\
  forall j w, ws !! j = Some w -> exists reg, _get_arch_register_for_arg (text "amd64") j = Some reg /\ stub_registers i ms regs reg = w.
Proof.
  intros Em Hlen H6 Hregs. unfold moves in Em. rewrite <- Hlen in Em, H6. clear Hlen.
  destruct ws as [|a [|b [|c [|d' [|e [|f [|g ws]]]]]]]; cbn [length] in H6; [..|lia]; injection Em as <-;
    (split; [reflexivity|]); intros j w Hj.
  all: destruct j as [|[|[|[|[|[|j]]]]]]; try discriminate Hj; injection Hj as <-; eexists; (split; [reflexivity|]).
  all: first [exact (Hregs 0%nat _ _ eq_refl eq_refl) | exact (Hregs 1%nat _ _ eq_refl eq_refl) | exact (Hregs 2%nat _ _ eq_refl eq_refl)
             | exact (Hregs 3%nat _ _ eq_refl eq_refl) | exact (Hregs 4%nat _ _ eq_refl eq_refl) | exact (Hregs 5%nat _ _ eq_refl eq_refl)].
Qed.

(** Everything is there to generate a system call of up to six parameters. *)
Lemma parameters_stmts_some ps i :
  (i + length ps <= 6)%nat -> is_Some (parameters_stmts (text "amd64") i ps).
Proof.
  revert i. induction ps as [|p ps IH]; intros i Hi; cbn [parameters_stmts]; [eauto|]. cbn in Hi.
  destruct (IH (S i)) as [l ->]; [lia|]. unfold parameter_stmts.
  assert (is_Some (_get_arch_register_for_arg (text "amd64") i)) as [r ->]; [|eauto].
  change (_get_arch_register_for_arg (text "amd64") i) with ([text "rdi"; text "rsi"; text "r8"; text "r9"; text "r10"; text "r12"] !! i).
  apply lookup_lt_is_Some_2. cbn. lia.
Qed.
Lemma handler_stmts_some n d : (length (parameters d) <= 6)%nat -> is_Some (handler_stmts (text "amd64") n d).
Proof. intros Hd. unfold handler_stmts. destruct (parameters_stmts_some (parameters d) 0) as [l ->]; [done|eauto]. Qed.
Lemma moves_some d : is_Some (moves (text "amd64") d).
Proof. by eexists. Qed.

(** The table is the end of the file of the module that [main] processes. *)
Section table_file.
Context (sc arch : bytes).
Definition opened (mo : bytes) (g : gen_context) : Prop := is_Some (_output_kernel_files g !! mo).

Lemma get_stream_opened mo mo' kd g : opened mo g -> opened mo (_get_stream sc arch mo' kd g).
Proof using.
  unfold opened, _get_stream. intros H. destruct (_get_stream_map kd g !! mo') eqn:E; [done|]. destruct kd; cbn in *; try done.
  destruct (decide (mo = mo')) as [-> | Hne]; [by rewrite lookup_insert_eq|by rewrite lookup_insert_ne].
Qed.
Lemma write_opened mo mo' kd t g : opened mo g -> opened mo (write mo' kd t g).
Proof using.
  unfold opened, write. intros H. destruct (_get_stream_map kd g !! mo') eqn:E; [|done]. destruct kd; cbn in *; try done.
  destruct (decide (mo = mo')) as [-> | Hne]; [by rewrite lookup_insert_eq|by rewrite lookup_insert_ne].
Qed.
Lemma open_streams_opened mo g : opened mo (open_streams sc arch mo g).
Proof using.
  unfold opened, open_streams. set (g' := _get_stream sc arch mo vdso _). unfold _get_stream. cbn.
  destruct (_output_kernel_files g' !! mo) eqn:E; [by rewrite E|]. cbn. by rewrite lookup_insert_eq.
Qed.
Lemma generate_symbol_opened n s g g' : generate_symbol sc arch n s g = Ok g' -> opened (module s) g' /\ forall mo, opened mo g -> opened mo g'.
Proof using.
  unfold generate_symbol. pose proof (open_streams_opened (module s) g) as Ho.
  assert (forall mo, opened mo g -> opened mo (open_streams sc arch (module s) g)) as Hk.
  { intros mo H. unfold open_streams. by do 3 apply get_stream_opened. }
  destruct (sym_description s) as [d|d|d].
  - intros [= <-]. split; [by apply write_opened|]. intros mo H. by apply write_opened, Hk.
  - intros [= <-]. split; [by apply write_opened|]. intros mo H. by apply write_opened, Hk.
  - destruct (id d) as [i|]; [|done]. destruct (moves arch d), (handler_stmts arch n d); try done. intros [= <-].
    assert (forall mo, opened mo (open_streams sc arch (module s) g) ->
      opened mo (set_id_names (assign i n (_id_names (open_streams sc arch (module s) g))) (open_streams sc arch (module s) g))) as Hn by done.
    split; [|intros mo H]; apply write_opened; case_decide; repeat apply write_opened; auto.
Qed.
Lemma generate_symbols_opened l symbols g g' :
  generate_symbols sc arch l symbols g = Ok g' ->
  (forall n s, n ∈ l -> symbols !! n = Some s -> opened (module s) g') /\ forall mo, opened mo g -> opened mo g'.
Proof using.
  revert g. induction l as [|x l IH]; intros g; cbn [generate_symbols].
  { intros [= <-]. split; [by intros n s ?%elem_of_nil|done]. }
  destruct (symbols !! x) as [s|] eqn:Es; [|done]. destruct (generate_symbol sc arch x s g) as [g1|] eqn:E1; [|done].
  intros E2. destruct (generate_symbol_opened x s g g1 E1) as [A B]. destruct (IH g1 E2) as [C D]. split; [|auto].
  intros n s' [-> | Hn]%elem_of_cons Hs; [|by eapply C]. rewrite Es in Hs. injection Hs as <-. auto.
Qed.
End table_file.
Lemma destroy_table g : opened (text "meta") g ->
  exists pre, _output_kernel_files (destroy_generator g) !! text "meta" = Some (pre ++ table_text (_id_names g) ++ line [text "}"]).
Proof.
  intros [t Ht]. exists t. unfold destroy_generator. cbn [_output_kernel_files set_files]. unfold close_files. rewrite lookup_fmap.
  unfold write. cbn [_get_stream_map _output_kernel_files set_files]. rewrite Ht. cbn [_output_kernel_files set_files].
  rewrite lookup_insert_eq. cbn. by rewrite <- (assoc_L (++)).
Qed.

(** ** [output] *)

Section output.
Context (args : context_args) (c : context) (shuffled : list bytes) (objects : list (list bytes)).
Context (Harch : arg_arch args = text "amd64") (Hc : tables_ok args c) (Hsh : shuffled ≡ₚ _syscalls c).

Lemma shuffled_nodup : NoDup shuffled.
Proof using Hc Hsh. rewrite Hsh. apply Hc. Qed.
Lemma shuffled_elem n : n ∈ shuffled <-> is_syscall c n.
Proof using Hc Hsh. rewrite Hsh. apply Hc. Qed.

(** The numbered symbols. *)
Lemma numbered_symbols :
  exists symbols, number_syscalls 0 shuffled (_symbols c) = Ok symbols /\
    (forall n, is_Some (symbols !! n) <-> n ∈ _symbols_in_order c) /\
    (forall n k, number_of symbols n = Some k <-> exists i, k = Z.of_nat i /\ shuffled !! i = Some n) /\
    (forall n mo d, symbols !! n = Some (mkSymbol mo (Syscall d)) -> is_Some (id d) /\ (length (parameters d) <= 6)%nat) /\
    (forall n s, _symbols c !! n = Some s -> exists s', symbols !! n = Some s' /\ module s' = module s) /\
    (forall i n, shuffled !! i = Some n -> exists mo d, _symbols c !! n = Some (mkSymbol mo (Syscall d)) /\ symbols !! n = Some (mkSymbol mo (Syscall (with_id i d)))).
Proof using Harch Hc Hsh.
  destruct (number_syscalls_spec shuffled 0 (_symbols c) shuffled_nodup) as (symbols & E & Hout & Hin).
  { intros n Hn. by apply shuffled_elem. }
  exists symbols. split; [done|].
  assert (forall n mo d, symbols !! n = Some (mkSymbol mo (Syscall d)) ->
    exists i d', shuffled !! i = Some n /\ d = with_id i d' /\ _symbols c !! n = Some (mkSymbol mo (Syscall d'))) as Hsys.
  { intros n mo d Es. destruct (decide (n ∈ shuffled)) as [Hn|Hn].
    - apply list_elem_of_lookup in Hn as [i Hi]. destruct (Hin i n Hi) as (mo' & d' & E1 & E2). rewrite Es in E2. injection E2 as -> ->. eauto.
    - rewrite Hout in Es by done. destruct Hn. apply shuffled_elem. by exists mo, d. }
  split; [|split; [|split; [|split; [|exact Hin]]]].
  - intros n. rewrite (order_dom Hc), elem_of_dom. destruct (decide (n ∈ shuffled)) as [Hn|Hn]; [|by rewrite Hout].
    apply list_elem_of_lookup in Hn as [i Hi]. destruct (Hin i n Hi) as (mo' & d' & -> & ->). by split; eauto.
  - intros n k. unfold number_of. split.
    + destruct (symbols !! n) as [[mo [d|d|d]]|] eqn:Es; [done|done| |done]. destruct (Hsys n mo d Es) as (i & d' & Hi & -> & _).
      cbn. intros [= <-]. eauto.
    + intros (i & -> & Hi). destruct (Hin i n Hi) as (mo & d & _ & ->). done.
  - intros n mo d Es. destruct (Hsys n mo d Es) as (i & d' & Hi & -> & E'). split; [by eexists|]. cbn.
    apply (syscalls_fit Hc _ _ _ [text "rdi"; text "rsi"; text "r8"; text "r9"; text "r10"; text "r12"] E'). by rewrite Harch.
  - intros n s Es. destruct (decide (n ∈ shuffled)) as [Hn|Hn]; [|rewrite Hout by done; eauto].
    apply list_elem_of_lookup in Hn as [i Hi]. destruct (Hin i n Hi) as (mo & d & E1 & ->). rewrite Es in E1. injection E1 as ->. by eexists.
Qed.

Lemma output_table :
  exists g, output args shuffled objects c = Ok g /\ _id_names g = numbered shuffled /\
    forall n s, _symbols c !! n = Some s -> module s = text "meta" ->
      exists pre, _output_kernel_files g !! text "meta" = Some (pre ++ table_text (numbered shuffled) ++ line [text "}"]).
Proof using Harch Hc Hsh.
  destruct numbered_symbols as (symbols & E & Hdom & Hnum & Hfit & Hmod & _). unfold output. rewrite E, Harch.
  match goal with |- context [generate_symbols _ _ _ _ ?x] => set (g0 := x) end.
  assert (_id_names g0 = []) as E0 by reflexivity.
  destruct (generate_symbols_names (arg_scope args) (text "amd64") symbols) with (l := _symbols_in_order c) (g := g0) (done := @nil bytes)
    as (g & Eg & Hs & Hx).
  - intros n mo d Es. destruct (Hfit n mo d Es). split; [done|]. split; [apply moves_some|by apply handler_stmts_some].
  - intros n Hn. by apply Hdom.
  - intros n n' k (i & -> & Hi)%Hnum (i' & Hk & Hi')%Hnum. apply Nat2Z.inj in Hk. congruence.
  - rewrite E0. constructor.
  - rewrite E0. intros x. split; [by intros ?%elem_of_nil|]. by intros [?%elem_of_nil _].
  - assert (_id_names g = numbered shuffled) as En.
    { apply sorted_ext; [done|apply numbered_sorted|]. intros x. rewrite Hx, numbered_elem, Hnum. cbn. split; [naive_solver|].
      intros (i & E1 & Hi). split; [|eauto]. apply Hdom.
      destruct (decide (is_Some (symbols !! x.2))) as [?|Hn]; [done|]. exfalso.
      assert (number_of symbols x.2 = Some x.1) as Hk by (apply Hnum; eauto). unfold number_of in Hk. apply Hn. by destruct (symbols !! x.2). }
    rewrite Eg. eexists. split; [reflexivity|]. split.
    + unfold destroy_generator. cbn [_id_names set_files]. rewrite write_names. cbn [_id_names set_files]. done.
    + intros n s Es Em. rewrite <- En. apply destroy_table. destruct (Hmod n s Es) as (s' & Es' & Em'). rewrite Em in Em'. rewrite <- Em'.
      destruct (generate_symbols_opened _ _ _ _ _ _ Eg) as [Hop _]. apply (Hop n s'); [apply Hdom; by eexists|done].
Qed.
End output.

(** ** Theorems *)

(** Entering the kernel: the registers of the caller, and nothing of a handler yet. *)
Definition entry {K H V} (regs : bytes -> Z) (k : K) : @frame K H V := mkFrame regs (regs (text "rax")) ∅ ∅ ∅ ∅ None k.

(** C9: a call reaches its implementation.  In what is generated for consistent tables,
    the table has the handlers in the order of the numbers; the stub of the [i]th leaves
    [i] in [rax] and each argument in the register its handler reads; and the handler
    makes the checks of the declaration in order, enters the implementation only when
    they pass, and copies results back only when it succeeds. *)
Theorem call_served {K H V} `{KernelOps K H V} impl args c shuffled objects i name :
  arg_arch args = text "amd64" -> tables_ok args c -> shuffled ≡ₚ _syscalls c -> shuffled !! i = Some name ->
  exists g symbols mo d ms L,
    output args shuffled objects c = Ok g /\ _id_names g = numbered shuffled /\
    number_syscalls 0 shuffled (_symbols c) = Ok symbols /\ symbols !! name = Some (mkSymbol mo (Syscall d)) /\ id d = Some (Z.of_nat i) /\
    moves (arg_arch args) d = Some ms /\ handler_stmts (arg_arch args) name d = Some L /\
    forall regs ws k,
      length ws = length (parameters d) ->
      (forall j w r, ws !! j = Some w -> calling_convention !! j = Some r -> regs r = w) ->
      NoDup (parameters d).*1 -> (sd_blocking d = false -> forall k vs, (impl k vs).1.2 <> None) ->
      let f := entry (stub_registers (Z.of_nat i) ms regs) k in
      f_regs f (text "rax") = Z.of_nat i /\
      exists fl f', exec_handler impl (continuation_body d L) (handler_body d L) f = Some (fl, f') /\ ended f fl f' (serve impl d ws k).
Proof.
  intros Harch Hc Hsh Hi. destruct (output_table args c shuffled objects Harch Hc Hsh) as (g & Eg & En & _).
  destruct (numbered_symbols args c shuffled Harch Hc Hsh) as (symbols & E & _ & _ & Hfit & _ & Hin).
  destruct (Hin i name Hi) as (mo & d & _ & Es). destruct (Hfit _ _ _ Es) as [_ H6]. rewrite Harch.
  destruct (moves_some (with_id i d)) as [ms Ems]. destruct (handler_stmts_some name (with_id i d) H6) as [L EL].
  exists g, symbols, mo, (with_id i d), ms, L. repeat (split; [done|]). intros regs ws k Hlen Hregs Hnd Himpl f.
  destruct (arguments_arrive (with_id i d) (Z.of_nat i) ms regs ws Ems Hlen H6 Hregs) as [Hrax Harr]. split; [exact Hrax|].
  apply (handler_serves impl (text "amd64") name (with_id i d) L ws f); try done.
Qed.

(** The program as a whole: on amd64, with options that are complete, whenever the file
    [meta.thorn] is accepted the output is generated without an exception, and the file
    of the kernel ends with the table of the handlers in the order of their numbers. *)
Theorem main_generates open shuffle iterate argv o file c :
  read_options argv (mkOptions [] [] [] []) = Ok o -> check_options o = Ok o -> opt_arch o = text "amd64" ->
  open (input_path o) (text "meta.thorn") = Some file ->
  process (mkArgs (opt_scope o) (opt_arch o)) (text "meta") file empty_context = Ok c -> (forall l, shuffle l ≡ₚ l) ->
  exists g, thorn_main open shuffle iterate argv = Ok g /\ _id_names g = numbered (shuffle (_syscalls c)) /\
    forall n s, _symbols c !! n = Some s -> module s = text "meta" ->
      exists pre, _output_kernel_files g !! text "meta" = Some (pre ++ table_text (numbered (shuffle (_syscalls c))) ++ line [text "}"]).
Proof.
  intros E1 E2 Ha Ef Ep Hsh. unfold thorn_main. rewrite E1, E2. change (text "meta" ++ text ".thorn") with (text "meta.thorn"). rewrite Ef, Ep.
  apply output_table; [done| |done]. eapply process_ok; [|exact Ep]. apply tables_ok_empty.
Qed.

(** The permissions of one kind of kernel object all get the bit 64. *)
Lemma object_permissions_share_bit global objects perms p q :
  perms ∈ objects -> p ∈ perms -> q ∈ perms ->
  mkPermission p 64 ∈ number_permissions global objects /\ mkPermission q 64 ∈ number_permissions global objects.
Proof.
  intros Ho Hp Hq. unfold number_permissions. split; apply elem_of_app; right; apply list_elem_of_bind; exists perms; (split; [|done]);
    apply list_elem_of_fmap; eauto.
Qed.

(** ** Witnesses *)

(** A kernel with one handle and memory that is always mapped; the implementation adds
    its arguments up. *)
#[local] Instance toy_kernel : KernelOps (list Z) unit Z := {
  k_get_handle _ t := if t =? 1 then Some tt else None;
  k_is_a _ _ := true;
  k_has_permission _ _ := true;
  k_get_as _ := 7;
  k_lock _ _ _ := true;
  k_load _ a _ := a;
  k_store a _ v k := k ++ [a; v];
  k_uninit _ := 0;
  k_ok := 0;
  k_code e := match e with invalid_token => 1 | wrong_handle_type => 3 | not_allowed => 4 | invalid_pointers => 5 end
}.
Definition toy_impl (k : list Z) (vs : list (value Z)) : list Z * option Z * (nat -> Z) := (k ++ [100], Some 0, fun _ => 42).

Lemma call_served_witness :
  exists c, process small_args (text "meta") small_file empty_context = Ok c /\
    exists g (symbols : gmap bytes symbol) mo d ms L, output small_args (_syscalls c) [] c = Ok g /\ _id_names g = [(0, text "go")] /\
      symbols !! text "go" = Some (mkSymbol mo (Syscall d)) /\ handler_stmts (text "amd64") (text "go") d = Some L /\
      exists fl f', exec_handler toy_impl (continuation_body d L) (handler_body d L)
          (entry (stub_registers 0 ms (fun r => if decide (r = text "rdi") then 77 else 0)) []) = Some (fl, f') /\
        ended (entry (stub_registers 0 ms (fun r => if decide (r = text "rdi") then 77 else 0)) []) fl f' (Some 0, [100; 77; 42]).
Proof.
  assert (exists c, process small_args (text "meta") small_file empty_context = Ok c /\ _syscalls c = [text "go"]) as (c & Hc & Hs)
    by (eexists; split; vm_compute; reflexivity).
  exists c. split; [exact Hc|]. pose proof (process_ok _ _ _ _ _ (tables_ok_empty small_args) Hc) as Hok.
  destruct (call_served toy_impl small_args c (_syscalls c) [] 0 (text "go") eq_refl Hok ltac:(reflexivity)) as (g & symbols & mo & d & ms & L & Eg & En & Ens & Es & Ei & Em & EL & Hcall).
  { by rewrite Hs. }
  exists g, symbols, mo, d, ms, L. split; [exact Eg|]. split; [rewrite En, Hs; reflexivity|]. split; [exact Es|]. split; [exact EL|].
  assert (parameters d = [(text "x", PPointer (mkPointer false true (text "rose::result")))] /\ sd_blocking d = false) as [Ep Eb].
  { revert Hc Ens Es. vm_compute. intros [= <-] [= <-] [= <- <-]. by split. }
  destruct (Hcall (fun r => if decide (r = text "rdi") then 77 else 0) [77] []) as (_ & fl & f' & Hexec & Hend).
  - by rewrite Ep.
  - intros [|j] w r; cbn; [intros [= <-] [= <-]; reflexivity|done].
  - rewrite Ep. apply (bool_decide_unpack _). vm_compute. exact I.
  - done.
  - exists fl, f'. split; [exact Hexec|]. revert Hend. unfold serve. rewrite Ep, Eb. done.
Defined.

Lemma main_generates_witness :
  exists c g, process small_args (text "meta") small_file empty_context = Ok c /\
    thorn_main (fun _ _ => Some small_file) (fun l => rev l) (fun _ => []) [text "-i"; text "in"; text "--output"; text "out"; text "-s"; text "rose"; text "-a"; text "amd64"] = Ok g /\
    _id_names g = [(0, text "go")].
Proof.
  assert (exists c, process small_args (text "meta") small_file empty_context = Ok c /\ _syscalls c = [text "go"]) as (c & Hc & Hs)
    by (eexists; split; vm_compute; reflexivity).
  destruct (main_generates (fun _ _ => Some small_file) (fun l => rev l) (fun _ => [])
    [text "-i"; text "in"; text "--output"; text "out"; text "-s"; text "rose"; text "-a"; text "amd64"]
    (mkOptions (text "in") (text "out") (text "rose") (text "amd64")) small_file c) as (g & Eg & En & _).
  - vm_compute. reflexivity.
  - vm_compute. reflexivity.
  - reflexivity.
  - reflexivity.
  - exact Hc.
  - intros l. symmetry. apply Permutation_rev.
  - exists c, g. split; [exact Hc|]. split; [exact Eg|]. rewrite En, Hs. reflexivity.
Defined.
