(* ===== verification/ThornMeta.v ===== *)
(** * The interface of the kernel: kernel/vdso/meta.thorn

    The description in the repository, run through the compiler. *)
From S2P Require Import Prelude Text ThornLexer ThornParser ThornContext ThornGenerator ThornTheorems ThornOutput.

Definition meta_thorn : bytes := text "include <scheduler/mailbox.h>;

permissions(
    read,
    write,
    transfer,
    clone
);

permissions for kernel::kernel_caps_t(
    create_vas,
    create_process
);

permissions for kernel::vm::vmo(
    map
);

permissions for kernel::vm::vas(
    create_mapping
);

permissions for kernel::vm::vmo_mapping(
    unmap,
    destroy
);

enum result(
    ok,
    invalid_token,
    invalid_handle,
    wrong_handle_type,
    not_allowed,
    invalid_pointers,
    invalid_arguments,
    not_ready
);

syscall(kernel::scheduler::process) rose_token_release(
    token_: std::uintptr_t
) -> $::result;

enum mailbox_message_type(
    handle_token,
    user
);

struct mailbox_user_message(
    data0: std::uintptr_t,
    data1: std::uintptr_t
);

struct mailbox_message(
    type: $::mailbox_message_type,
    payload: union(
        handle_token: std::uintptr_t,
        user: $::mailbox_user_message
    )
);

syscall(kernel::ipc::mailbox) rose_mailbox_create(
    read_token: out ptr std::uintptr_t,
    write_token: out ptr std::uintptr_t
) -> $::result;

syscall(kernel::ipc::mailbox, blocking) rose_mailbox_read(
    mailbox: token(read) kernel::ipc::mailbox,
    timeout_ns: std::uintptr_t,
    message: out ptr $::mailbox_message
) -> $::result;

syscall(kernel::ipc::mailbox) rose_mailbox_write(
    mailbox: token(write) kernel::ipc::mailbox,
    message: in ptr $::mailbox_message
) -> $::result;

syscall(kernel::vm::vmo) rose_vmo_create(
    size: std::uintptr_t,
    flags: std::uintptr_t,
    vmo_token: out ptr std::uintptr_t
) -> $::result;

struct vdso_mapping_info(
    base: std::uintptr_t,
    length: std::size_t
);

syscall(kernel::vm::vas) rose_vas_create(
    kernel_caps: token(create_vas) kernel::kernel_caps_t,
    vas: out ptr std::uintptr_t,
    vdso_info: out ptr $::vdso_mapping_info
) -> $::result;

syscall(kernel::vm::vas) rose_mapping_create(
    vas: token(create_mapping) kernel::vm::vas,
    vmo: token(map) kernel::vm::vmo,
    address: std::uintptr_t,
    flags: std::uintptr_t,
    mapping_token: out ptr std::uintptr_t
) -> $::result;

syscall(kernel::vm::vmo_mapping) rose_mapping_destroy(
    mapping: token(destroy) kernel::vm::vmo_mapping
) -> $::result;

syscall(kernel::scheduler::process) rose_process_create(
    kernel_caps: token(create_process) kernel::kernel_caps_t,
    vas: token(write) kernel::vm::vas,
    process_token: out ptr std::uintptr_t
) -> $::result;

syscall(kernel::scheduler::process) rose_process_start(
    process: token(write) kernel::scheduler::process,
    entrypoint: std::uintptr_t,
    top_of_stack: std::uintptr_t,
    bootstrap_token: std::uintptr_t
) -> $::result;

".
Definition meta_args : context_args := mkArgs (text "rose::syscall") (text "amd64").

(** The system calls of a table with the names of their parameters. *)
Definition signatures (c : context) : list (bytes * list bytes) :=
  (fun n => (n, match _symbols c !! n with Some (mkSymbol _ (Syscall d)) => (parameters d).*1 | _ => [] end)) <$> _syscalls c.

(** What is expected of the outcome, as checks on it. *)
Definition expected_syscalls : list bytes :=
  text <$> ["rose_token_release"; "rose_mailbox_create"; "rose_mailbox_read"; "rose_mailbox_write"; "rose_vmo_create";
    "rose_vas_create"; "rose_mapping_create"; "rose_mapping_destroy"; "rose_process_create"; "rose_process_start"]%string.
Definition declares_syscalls (r : res context) : bool :=
  match r with
  | Ok c => bool_decide (_syscalls c = expected_syscalls) && bool_decide (Forall (fun s => NoDup s.2) (signatures c))
  | Err _ => false
  end.
Definition bit_of (p : bytes) (l : list permission_description) : option Z :=
  flag_bit <$> (snd <$> list_find (fun x => perm_name x = p) l).
Definition caps_bits (r : res context) : option (option Z * option Z) :=
  match r with
  | Ok c =>
      match _permissions c !! text "kernel::kernel_caps_t" with
      | Some perms =>
          let l := number_permissions (_global_permissions c) [perms] in Some (bit_of (text "create_vas") l, bit_of (text "create_process") l)
      | None => None
      end
  | Err _ => None
  end.

(** It is accepted; it declares these system calls, with distinct names of parameters. *)
Example meta_accepted : declares_syscalls (process meta_args (text "meta") meta_thorn empty_context) = true.
Proof. vm_compute. reflexivity. Qed.

(** Both permissions of the kernel capabilities are the same bit. *)
Example create_permissions_collide : caps_bits (process meta_args (text "meta") meta_thorn empty_context) = Some (Some 64, Some 64).
Proof. vm_compute. reflexivity. Qed.
