(* ===== verification/Acpi.v ===== *)
(** * ACPI tables: kernel/arch/common/acpi/acpi.cpp

    Finding the tables the firmware left in memory and reading from them the
    processors of the machine and the address of the event timer.  Physical memory
    is the list of its bytes from address 0 on; a [phys_ptr_t] is a physical
    address, and reading past the end of memory is a fault.  Also the lookup of
    processors in kernel/arch/amd64/cpu/cpu.cpp. *)
From S2P Require Import Prelude Text Bytes.

(** ** State *)

(** [core], as far as the tables fill it in: kernel/arch/amd64/cpu/core.h *)
Record core : Type := mkCore {
  _is_valid : bool;
  _nmi_valid : bool;
  _apic_id : Z;
  _acpi_id : Z;
  _nmi_vector : Z;
  _nmi_flags : Z
}.
Definition no_core : core := mkCore false false 0 0 0 0.
Definition initialize_ids (apic acpi : Z) (c : core) : core :=
  mkCore true (_nmi_valid c) apic acpi (_nmi_vector c) (_nmi_flags c).
Definition set_nmi (interrupt flags : Z) (c : core) : core :=
  mkCore (_is_valid c) true (_apic_id c) (_acpi_id c) interrupt flags.

(** The root tables ([None] while the pointer is null) and the array of processors. *)
Record acpi_state : Type := mkAcpi { root_rsdt : option Z; root_xsdt : option Z; cores_storage : list core }.
Abbreviation AM := (M acpi_state).

Record madt_result : Type := mkMadt { core_count : Z; lapic_base : Z }.
Record hpet_result : Type := mkHpet { hpet_base : Z; min_tick : Z }.

Section acpi.
Context (mem : bytes).

Definition rd (a n : Z) : AM Z := fun s =>
  match read_bytes mem a n with Ok bs => Ok (le_value bs, s) | Err e => Err e end.
Definition rd_bytes (a n : Z) : AM bytes := fun s =>
  match read_bytes mem a n with Ok bs => Ok (bs, s) | Err e => Err e end.

(** ** Checksums *)

Fixpoint sum_bytes (n : nat) (a sum : Z) : AM Z :=
  match n with
  | O => ret sum
  | S n' => let* b := rd a 1 in sum_bytes n' (a + 1) (wrapu 8 (sum + b))
  end.
(** [description_header::validate] *)
Definition validate (p : Z) (sign : bytes) : AM bool :=
  let* sg := rd_bytes p 4 in
  if negb (bool_decide (sg = sign)) then ret false
  else
    let* len := rd (p + 4) 4 in
    let* sum := sum_bytes (Z.to_nat len) p 0 in
    ret (sum =? 0).
(** [rsdp::validate] *)
Definition rsdp_validate (p : Z) : AM bool :=
  let* sg := rd_bytes p 8 in
  if negb (bool_decide (sg = text "RSD PTR ")) then ret false
  else
    let* sum := sum_bytes 20 p 0 in
    if negb (sum =? 0) then ret false
    else
      let* revision := rd (p + 15) 1 in
      if revision =? 0 then ret true
      else
        let* len := rd (p + 20) 4 in
        let* sum := sum_bytes (Z.to_nat len) p 0 in
        ret (sum =? 0).

(** ** Root tables *)

(** [find_table(root)] with entries of [width] bytes; 0 when there is none. *)
Fixpoint table_loop (n : nat) (i root width : Z) (sign : bytes) : AM Z :=
  match n with
  | O => ret 0
  | S n' =>
      let* table_ptr := rd (root + 36 + i * width) width in
      let* ok := validate table_ptr sign in
      if ok then ret table_ptr else table_loop n' (i + 1) root width sign
  end.
Definition find_table_in (root width : Z) (sign : bytes) : AM Z :=
  let* len := rd (root + 4) 4 in
  table_loop (Z.to_nat (wrapu 32 (len - 36) / width)) 0 root width sign.
Definition find_table (sign : bytes) : AM Z :=
  let* s := get in
  match root_xsdt s, root_rsdt s with
  | Some root, _ => find_table_in root 8 sign
  | None, Some root => find_table_in root 4 sign
  | None, None => fail Fault
  end.

Definition acpi_initialize (acpi_root : Z) : AM unit :=
  let* ok := rsdp_validate acpi_root in
  if negb ok then panic "RSDP {} does not validate!" else
  let* revision := rd (acpi_root + 15) 1 in
  let* x := if 2 <=? revision then let* xsdt := rd (acpi_root + 24) 8 in validate xsdt (text "XSDT") else ret false in
  if x then
    let* xsdt := rd (acpi_root + 24) 8 in
    modify (fun s => mkAcpi (root_rsdt s) (Some xsdt) (cores_storage s))
  else
    let* rsdt := rd (acpi_root + 16) 4 in
    let* r := validate rsdt (text "RSDT") in
    if r then modify (fun s => mkAcpi (Some rsdt) (root_xsdt s) (cores_storage s))
    else panic "Did not find valid ACPI root structures! RDSP: {}.".

(** ** Processors *)

(** [cores_storage[i]], and an operation on it. *)
Definition update_core (i : nat) (f : core -> core) : AM unit := fun s =>
  match cores_storage s !! i with
  | Some c => Ok (tt, mkAcpi (root_rsdt s) (root_xsdt s) (<[i := f c]> (cores_storage s)))
  | None => Err Fault
  end.
Definition read_core (i : nat) : AM core := fun s =>
  match cores_storage s !! i with Some c => Ok (c, s) | None => Err Fault end.

(** One entry in the first loop: the processors seen so far and the address of the
    local interrupt controller. *)
Definition first_entry (entry : Z) (detected : nat) (lapic_address : Z) : AM (nat * Z) :=
  let* type := rd entry 1 in
  if type =? 0 then
    let* flags := rd (entry + 4) 4 in
    if negb (Z.land flags 1 =? 0) then
      let* apic_id := rd (entry + 3) 1 in
      let* acpi_id := rd (entry + 2) 1 in
      update_core detected (initialize_ids apic_id acpi_id) ;;
      ret (S detected, lapic_address)
    else ret (detected, lapic_address)
  else if type =? 5 then
    let* base := rd (entry + 4) 8 in
    ret (detected, base)
  else if type =? 9 then
    let* flags := rd (entry + 8) 4 in
    if negb (Z.land flags 1 =? 0) then
      let* apic_id := rd (entry + 4) 4 in
      let* acpi_id := rd (entry + 12) 4 in
      update_core detected (initialize_ids apic_id acpi_id) ;;
      ret (S detected, lapic_address)
    else ret (detected, lapic_address)
  else ret (detected, lapic_address).
Fixpoint first_loop (fuel : nat) (madt entry : Z) (detected : nat) (lapic_address : Z) : AM (nat * Z) :=
  match fuel with
  | O => fail NoFuel
  | S n =>
      let* len := rd (madt + 4) 4 in
      if wrapu 64 (entry - madt) <? len then
        let* (d, l) := first_entry entry detected lapic_address in
        let* elen := rd (entry + 1) 1 in
        first_loop n madt (entry + elen) d l
      else ret (detected, lapic_address)
  end.

(** The loops over the processors: [k] of them are left, from [i] on. *)
Fixpoint nmi_for_all (k i : nat) (interrupt flags : Z) : AM unit :=
  match k with
  | O => ret tt
  | S k' => update_core i (set_nmi interrupt flags) ;; nmi_for_all k' (S i) interrupt flags
  end.
Fixpoint nmi_for_one (k i : nat) (acpi_id interrupt flags : Z) : AM unit :=
  match k with
  | O => ret tt
  | S k' =>
      let* c := read_core i in
      if _acpi_id c =? acpi_id then update_core i (set_nmi interrupt flags)
      else nmi_for_one k' (S i) acpi_id interrupt flags
  end.
Definition nmi_entry (detected : nat) (acpi_id interrupt flags : Z) : AM unit :=
  if acpi_id =? 255 then nmi_for_all detected 0 interrupt flags else nmi_for_one detected 0 acpi_id interrupt flags.
Definition second_entry (entry : Z) (detected : nat) : AM unit :=
  let* type := rd entry 1 in
  if type =? 4 then
    let* acpi_id := rd (entry + 2) 1 in
    let* flags := rd (entry + 3) 2 in
    let* interrupt := rd (entry + 5) 1 in
    nmi_entry detected acpi_id interrupt flags
  else if type =? 10 then
    let* flags := rd (entry + 2) 2 in
    let* acpi_id := rd (entry + 4) 4 in
    let* interrupt := rd (entry + 8) 1 in
    nmi_entry detected acpi_id interrupt flags
  else ret tt.
Fixpoint second_loop (fuel : nat) (madt entry : Z) (detected : nat) : AM unit :=
  match fuel with
  | O => fail NoFuel
  | S n =>
      let* len := rd (madt + 4) 4 in
      if wrapu 64 (entry - madt) <? len then
        second_entry entry detected ;;
        let* elen := rd (entry + 1) 1 in
        second_loop n madt (entry + elen) detected
      else ret tt
  end.

(** An entry takes up at least a byte of the table when the loops end at all. *)
Definition parse_madt (max_core_count : Z) : AM madt_result :=
  let* madt := find_table (text "APIC") in
  if madt =? 0 then panic "Failed to find MADT!" else
  let* lapic_address := rd (madt + 36) 4 in
  let* len := rd (madt + 4) 4 in
  let* (detected, lapic_address) := first_loop (S (Z.to_nat len)) madt (madt + 44) 0 lapic_address in
  second_loop (S (Z.to_nat len)) madt (madt + 44) detected ;;
  if max_core_count <? Z.of_nat detected then ret (mkMadt max_core_count lapic_address)
  else ret (mkMadt (Z.of_nat detected) lapic_address).

(** ** The event timer *)

Definition parse_hpet : AM hpet_result :=
  let* p := find_table (text "HPET") in
  let* space := rd (p + 40) 1 in
  if space =? 1 then panic "Found HPET, but in system I/O space, not in system memory!" else
  let* base := rd (p + 44) 8 in
  let* tick := rd (p + 53) 2 in
  ret (mkHpet base tick).

(** ** Lookups: kernel/arch/amd64/cpu/cpu.cpp *)

Fixpoint core_loop (k i : nat) (apic : Z) : AM nat :=
  match k with
  | O => panic "Requested a core for an unknown APIC ID {}!"
  | S k' => let* c := read_core i in if _apic_id c =? apic then ret i else core_loop k' (S i) apic
  end.
Definition get_core_by_apic_id (count : nat) (apic : Z) : AM nat := core_loop count 0 apic.
Definition get_core_by_id (count id : Z) : AM Z :=
  if id <? count then ret id else panic "Requested a core for an unknown core ID {}!".
End acpi.
