(* ===== verification/AcpiTheorems.v ===== *)
(** * What is read from the ACPI tables

    The table of the interrupt controllers as the firmware lays it out, entry by
    entry, and that the kernel reads from it the processors, the address of the
    local controller and the non-maskable interrupts it describes. *)
From S2P Require Import Prelude Text Bytes Acpi.

(** ** Tables in memory *)

Definition placed (mem : bytes) (a : Z) (bs : bytes) : Prop := exists pre post, mem = pre ++ bs ++ post /\ a = Z.of_nat (length pre).
Abbreviation size l := (Z.of_nat (length l)).

Lemma placed_app mem a b1 b2 : placed mem a (b1 ++ b2) -> placed mem a b1 /\ placed mem (a + size b1) b2.
Proof.
  intros (pre & post & -> & ->). split.
  - exists pre, (b2 ++ post). by rewrite <- (assoc_L (++)).
  - exists (pre ++ b1), post. rewrite <- !(assoc_L (++)). split; [done|]. rewrite length_app. lia.
Qed.
Lemma rd_placed mem a x y z off n s :
  placed mem a (x ++ y ++ z) -> off = size x -> n = size y -> rd mem (a + off) n s = Ok (le_value y, s).
Proof.
  intros H -> ->. apply placed_app in H as [_ H]. apply placed_app in H as [(pre & post & -> & E) _].
  unfold rd. by rewrite (read_at _ pre y post).
Qed.
(** A field of a table. *)
Lemma rd_field mem a x k v z off n s :
  placed mem a (x ++ le_bytes k v ++ z) -> 0 <= v < 256 ^ Z.of_nat k -> off = size x -> n = Z.of_nat k -> rd mem (a + off) n s = Ok (v, s).
Proof.
  intros H Hv Ho ->. rewrite (rd_placed mem a x (le_bytes k v) z off (Z.of_nat k) s H Ho) by (by rewrite le_bytes_length).
  by rewrite le_value_bytes.
Qed.
Lemma rd_byte mem a x v z off s :
  placed mem a (x ++ v :: z) -> off = size x -> rd mem (a + off) 1 s = Ok (v, s).
Proof. intros H Ho. rewrite (rd_placed mem a x [v] z off 1 s H Ho) by done. cbn. do 2 f_equal. lia. Qed.
Lemma rd_first mem a v z s : placed mem a (v :: z) -> rd mem a 1 s = Ok (v, s).
Proof. intros H. rewrite <- (Z.add_0_r a). by apply (rd_byte mem a [] v z). Qed.

(** ** Entries *)

Inductive madt_entry : Type :=
| Lapic (acpi_id apic_id flags : Z)
| LapicBase (base : Z)
| X2apic (apic_id flags acpi_id : Z)
| LapicNmi (acpi_id flags interrupt : Z)
| X2apicNmi (flags acpi_id interrupt : Z)
| OtherEntry (type : Z) (payload : bytes).

Definition entry_type (e : madt_entry) : Z :=
  match e with Lapic _ _ _ => 0 | LapicBase _ => 5 | X2apic _ _ _ => 9 | LapicNmi _ _ _ => 4 | X2apicNmi _ _ _ => 10 | OtherEntry t _ => t end.
Definition entry_payload (e : madt_entry) : bytes :=
  match e with
  | Lapic acpi apic flags => [acpi; apic] ++ le_bytes 4 flags
  | LapicBase base => [0; 0] ++ le_bytes 8 base
  | X2apic apic flags acpi => [0; 0] ++ le_bytes 4 apic ++ le_bytes 4 flags ++ le_bytes 4 acpi
  | LapicNmi acpi flags interrupt => [acpi] ++ le_bytes 2 flags ++ [interrupt]
  | X2apicNmi flags acpi interrupt => le_bytes 2 flags ++ le_bytes 4 acpi ++ [interrupt; 0; 0; 0]
  | OtherEntry _ payload => payload
  end.
Definition entry_bytes (e : madt_entry) : bytes := entry_type e :: 2 + size (entry_payload e) :: entry_payload e.
Definition word k v : Prop := 0 <= v < 256 ^ Z.of_nat k.
Definition entry_ok (e : madt_entry) : Prop :=
  match e with
  | Lapic acpi apic flags => word 4 flags
  | LapicBase base => word 8 base
  | X2apic apic flags acpi => word 4 apic /\ word 4 flags /\ word 4 acpi
  | LapicNmi acpi flags interrupt => word 2 flags
  | X2apicNmi flags acpi interrupt => word 2 flags /\ word 4 acpi
  | OtherEntry t _ => t <> 0 /\ t <> 4 /\ t <> 5 /\ t <> 9 /\ t <> 10
  end.

(** What an entry means: a processor that is enabled, another address of the local
    controller, a non-maskable interrupt. *)
Definition entry_core (e : madt_entry) : option (Z * Z) :=
  match e with
  | Lapic acpi apic flags => if Z.land flags 1 =? 0 then None else Some (apic, acpi)
  | X2apic apic flags acpi => if Z.land flags 1 =? 0 then None else Some (apic, acpi)
  | _ => None
  end.
Definition entry_base (base : Z) (e : madt_entry) : Z := match e with LapicBase b => b | _ => base end.
Fixpoint set_first (acpi : Z) (f : core -> core) (l : list core) : list core :=
  match l with
  | [] => []
  | c :: l' => if _acpi_id c =? acpi then f c :: l' else c :: set_first acpi f l'
  end.
Definition deliver_nmi (acpi interrupt flags : Z) (l : list core) : list core :=
  if acpi =? 255 then set_nmi interrupt flags <$> l else set_first acpi (set_nmi interrupt flags) l.
Definition entry_nmi (l : list core) (e : madt_entry) : list core :=
  match e with
  | LapicNmi acpi flags interrupt => deliver_nmi acpi interrupt flags l
  | X2apicNmi flags acpi interrupt => deliver_nmi acpi interrupt flags l
  | _ => l
  end.

(** ** The loops *)

Section loops.
Context (mem : bytes) (madt len : Z).
Context (Hlen : forall s, rd mem (madt + 4) 4 s = Ok (len, s)) (Hmax : len < 2 ^ 32).
Implicit Types (s : acpi_state) (es : list madt_entry) (l : list core).

Definition with_cores s l : acpi_state := mkAcpi (root_rsdt s) (root_xsdt s) l.

Lemma entry_length a e s : placed mem a (entry_bytes e) -> rd mem (a + 1) 1 s = Ok (size (entry_bytes e), s).
Proof using.
  intros H. rewrite (rd_byte mem a [entry_type e] (2 + size (entry_payload e)) (entry_payload e)); [|exact H|done].
  do 2 f_equal. unfold entry_bytes. cbn [length]. lia.
Qed.
Lemma update_core_at s a c l f :
  cores_storage s = a ++ c :: l -> update_core (length a) f s = Ok (tt, with_cores s (a ++ f c :: l)).
Proof using. intros E. unfold update_core. rewrite E, list_lookup_middle by done. by rewrite insert_app_r_alt, Nat.sub_diag by lia. Qed.
Lemma update_core_end s a f : cores_storage s = a -> update_core (length a) f s = Err Fault.
Proof using. intros E. unfold update_core. rewrite E. by rewrite lookup_ge_None_2. Qed.

(** The next processor is entered, or there is no room for it. *)
Definition enter (x : option (Z * Z)) (dn l : list core) (base : Z) s : res (nat * Z * acpi_state) :=
  match x, l with
  | None, _ => Ok ((length dn, base), with_cores s (dn ++ l))
  | Some (apic, acpi), c :: l' => Ok ((S (length dn), base), with_cores s (dn ++ initialize_ids apic acpi c :: l'))
  | Some _, [] => Err Fault
  end.
Lemma enter_core dn l base apic acpi s :
  cores_storage s = dn ++ l ->
  (update_core (length dn) (initialize_ids apic acpi) ;; ret (S (length dn), base)) s = enter (Some (apic, acpi)) dn l base s.
Proof using.
  intros E. unfold bind. destruct l as [|c l]; cbn.
  - rewrite app_nil_r in E. by rewrite (update_core_end s dn).
  - by rewrite (update_core_at s dn c l).
Qed.

Lemma first_entry_at a e dn l base s :
  placed mem a (entry_bytes e) -> entry_ok e -> cores_storage s = dn ++ l ->
  first_entry mem a (length dn) base s = enter (entry_core e) dn l (entry_base base e) s.
Proof using.
  intros H He E. unfold first_entry. unfold entry_bytes in H. erewrite bind_Ok by (eapply rd_first; exact H).
  assert (s = with_cores s (dn ++ l)) as Es by (rewrite <- E; by destruct s).
  destruct e as [acpi apic flags|b|apic flags acpi|acpi flags i|flags acpi i|t pl]; cbn [entry_type entry_payload] in *.
  - change (0 =? 0) with true. cbn iota. set (ln := 2 + _) in H.
    erewrite bind_Ok by (apply (rd_field mem a [0; ln; acpi; apic] 4 flags []); [by rewrite app_nil_r|done|done|done]).
    cbn [entry_core]. destruct (Z.land flags 1 =? 0); cbn [negb]; [cbn; by rewrite <- Es|].
    erewrite bind_Ok by (apply (rd_byte mem a [0; ln; acpi] apic (le_bytes 4 flags)); [exact H|done]).
    erewrite bind_Ok by (apply (rd_byte mem a [0; ln] acpi (apic :: le_bytes 4 flags)); [exact H|done]).
    by apply enter_core.
  - change (5 =? 0) with false. change (5 =? 5) with true. cbn iota. set (ln := 2 + _) in H.
    erewrite bind_Ok by (apply (rd_field mem a [5; ln; 0; 0] 8 b []); [by rewrite app_nil_r|done|done|done]).
    cbn. by rewrite <- Es.
  - change (9 =? 0) with false. change (9 =? 5) with false. change (9 =? 9) with true. cbn iota. set (ln := 2 + _) in H.
    destruct He as (H1 & H2 & H3).
    erewrite bind_Ok by (apply (rd_field mem a ([9; ln; 0; 0] ++ le_bytes 4 apic) 4 flags (le_bytes 4 acpi));
      [exact H|done|by rewrite length_app, le_bytes_length|done]).
    cbn [entry_core]. destruct (Z.land flags 1 =? 0); cbn [negb]; [cbn; by rewrite <- Es|].
    erewrite bind_Ok by (apply (rd_field mem a [9; ln; 0; 0] 4 apic (le_bytes 4 flags ++ le_bytes 4 acpi)); [exact H|done|done|done]).
    erewrite bind_Ok by (apply (rd_field mem a ([9; ln; 0; 0] ++ le_bytes 4 apic ++ le_bytes 4 flags) 4 acpi []);
      [rewrite app_nil_r, <- !(assoc_L (++)); exact H|done|by rewrite !length_app, !le_bytes_length|done]).
    by apply enter_core.
  - cbn. by rewrite <- Es.
  - cbn. by rewrite <- Es.
  - destruct He as (H0 & H4 & H5 & H9 & H10). rewrite !(proj2 (Z.eqb_neq t _)) by done. cbn. by rewrite <- Es.
Qed.

(** The array with the processors [ids] entered. *)
Definition init_cores (ids : list (Z * Z)) l : list core :=
  zip_with (fun x c => initialize_ids x.1 x.2 c) ids l ++ drop (length ids) l.

Lemma in_table a e es :
  madt <= a -> a + size ((e :: es) ≫= entry_bytes) = madt + len -> wrapu 64 (a - madt) <? len = true.
Proof using Hmax.
  intros H1 H2. rewrite bind_cons, length_app in H2. apply Z.ltb_lt. unfold wrapu.
  assert (2 <= size (entry_bytes e)) by (unfold entry_bytes; cbn [length]; lia). rewrite Z.mod_small; lia.
Qed.
Lemma past_table a : a = madt + len -> 0 <= len -> wrapu 64 (a - madt) <? len = false.
Proof using Hmax. intros -> ?. apply Z.ltb_ge. unfold wrapu. rewrite Z.mod_small; lia. Qed.

Lemma first_loop_reads es fuel a dn l base s :
  Forall entry_ok es -> (length es < fuel)%nat -> placed mem a (es ≫= entry_bytes) -> 0 <= len -> madt <= a ->
  a + size (es ≫= entry_bytes) = madt + len -> cores_storage s = dn ++ l ->
  first_loop mem fuel madt a (length dn) base s =
    if (length (omap entry_core es) <=? length l)%nat
    then Ok ((length dn + length (omap entry_core es))%nat, foldl entry_base base es, with_cores s (dn ++ init_cores (omap entry_core es) l))
    else Err Fault.
Proof using Hlen Hmax.
  intros Hes. revert fuel a dn l base s. induction Hes as [|e es He _ IH]; intros [|n] a dn l base s Hf Hp H0 Ha Hend Hs; cbn in Hf; try lia.
  - cbn [first_loop]. erewrite bind_Ok by apply Hlen. rewrite past_table by (cbn in Hend; lia). cbn. rewrite Nat.add_0_r.
    unfold init_cores. cbn. rewrite drop_0, <- Hs. by destruct s.
  - cbn [first_loop]. erewrite bind_Ok by apply Hlen. erewrite in_table by done.
    rewrite bind_cons in Hp. apply placed_app in Hp as [Hp1 Hp2]. unfold bind at 1. rewrite (first_entry_at a e dn l base s Hp1 He Hs).
    rewrite bind_cons, length_app in Hend.
    assert (forall dn' l' s', cores_storage s' = dn' ++ l' -> (let* elen := rd mem (a + 1) 1 in first_loop mem n madt (a + elen) (length dn') (entry_base base e)) s' =
      if (length (omap entry_core es) <=? length l')%nat
      then Ok ((length dn' + length (omap entry_core es))%nat, foldl entry_base (entry_base base e) es, with_cores s' (dn' ++ init_cores (omap entry_core es) l'))
      else Err Fault) as Hrest.
    { intros dn' l' s' Hs'. erewrite bind_Ok by (by apply (entry_length a e)). apply IH; [lia|done|done|lia|lia|done]. }
    cbn [omap list_omap foldl]. destruct (entry_core e) as [[apic acpi]|]; cbn [enter].
    + destruct l as [|c l]; [done|].
      replace (S (length dn)) with (length (dn ++ [initialize_ids apic acpi c])) by (rewrite length_app; cbn; lia).
      rewrite (Hrest (dn ++ [initialize_ids apic acpi c]) l) by (cbn; by rewrite <- (assoc_L (++))). cbn [length Nat.leb].
      destruct (_ <=? _)%nat; [|done]. unfold init_cores. rewrite length_app, <- !(assoc_L (++)). cbn. by rewrite <- Nat.add_assoc.
    + by rewrite (Hrest dn l) by done.
Qed.

(** The non-maskable interrupts: [dn] before the processors [l] that are left. *)
Lemma nmi_for_all_at dn l rest i f s :
  cores_storage s = dn ++ l ++ rest -> nmi_for_all (length l) (length dn) i f s = Ok (tt, with_cores s (dn ++ (set_nmi i f <$> l) ++ rest)).
Proof using.
  revert dn s. induction l as [|c l IH]; intros dn s Hs; cbn [nmi_for_all length fmap list_fmap].
  - cbn in *. rewrite <- Hs. by destruct s.
  - erewrite bind_Ok by (apply (update_core_at s dn c (l ++ rest)); exact Hs).
    replace (S (length dn)) with (length (dn ++ [set_nmi i f c])) by (rewrite length_app; cbn; lia).
    rewrite IH by (cbn; by rewrite <- (assoc_L (++))). cbn. by rewrite <- (assoc_L (++)).
Qed.
Lemma nmi_for_one_at dn l rest acpi i f s :
  cores_storage s = dn ++ l ++ rest ->
  nmi_for_one (length l) (length dn) acpi i f s = Ok (tt, with_cores s (dn ++ set_first acpi (set_nmi i f) l ++ rest)).
Proof using.
  revert dn s. induction l as [|c l IH]; intros dn s Hs; cbn [nmi_for_one length set_first].
  - cbn in *. rewrite <- Hs. by destruct s.
  - assert (read_core (length dn) s = Ok (c, s)) as E. { unfold read_core. rewrite Hs. cbn. by rewrite list_lookup_middle. }
    erewrite bind_Ok by exact E. destruct (_acpi_id c =? acpi).
    + by rewrite (update_core_at s dn c (l ++ rest)).
    + replace (S (length dn)) with (length (dn ++ [c])) by (rewrite length_app; cbn; lia).
      rewrite IH by (cbn; by rewrite <- (assoc_L (++))). cbn. by rewrite <- (assoc_L (++)).
Qed.
Lemma nmi_entry_at l rest acpi i f s :
  cores_storage s = l ++ rest -> nmi_entry (length l) acpi i f s = Ok (tt, with_cores s (deliver_nmi acpi i f l ++ rest)).
Proof using.
  intros Hs. unfold nmi_entry, deliver_nmi. destruct (acpi =? 255); [by apply (nmi_for_all_at [])|by apply (nmi_for_one_at [])].
Qed.
Lemma entry_nmi_length l e : length (entry_nmi l e) = length l.
Proof using.
  assert (forall acpi i f, length (deliver_nmi acpi i f l) = length l) as H.
  { intros. unfold deliver_nmi. destruct (acpi =? 255); [by rewrite length_fmap|]. induction l as [|c l' IH]; cbn; [done|].
    destruct (_acpi_id c =? acpi); cbn; by rewrite ?IH. }
  destruct e; cbn; done.
Qed.

Lemma second_entry_at a e l rest s :
  placed mem a (entry_bytes e) -> entry_ok e -> cores_storage s = l ++ rest ->
  second_entry mem a (length l) s = Ok (tt, with_cores s (entry_nmi l e ++ rest)).
Proof using.
  intros H He Hs. unfold second_entry. unfold entry_bytes in H. erewrite bind_Ok by (eapply rd_first; exact H).
  assert (s = with_cores s (l ++ rest)) as Es by (rewrite <- Hs; by destruct s).
  destruct e as [acpi apic flags|b|apic flags acpi|acpi flags i|flags acpi i|t pl]; cbn [entry_type entry_payload entry_nmi] in *;
    try (cbn; by rewrite <- Es).
  - change (4 =? 4) with true. cbn iota. set (ln := 2 + _) in H.
    erewrite bind_Ok by (apply (rd_byte mem a [4; ln] acpi (le_bytes 2 flags ++ [i])); [exact H|done]).
    erewrite bind_Ok by (apply (rd_field mem a [4; ln; acpi] 2 flags [i]); [exact H|done|done|done]).
    erewrite bind_Ok by (apply (rd_byte mem a ([4; ln; acpi] ++ le_bytes 2 flags) i []); [exact H|by rewrite length_app, le_bytes_length]).
    by apply nmi_entry_at.
  - change (10 =? 4) with false. change (10 =? 10) with true. cbn iota. set (ln := 2 + _) in H. destruct He as [H1 H2].
    erewrite bind_Ok by (apply (rd_field mem a [10; ln] 2 flags (le_bytes 4 acpi ++ [i; 0; 0; 0])); [exact H|done|done|done]).
    erewrite bind_Ok by (apply (rd_field mem a ([10; ln] ++ le_bytes 2 flags) 4 acpi [i; 0; 0; 0]);
      [exact H|done|by rewrite length_app, le_bytes_length|done]).
    erewrite bind_Ok by (apply (rd_byte mem a ([10; ln] ++ le_bytes 2 flags ++ le_bytes 4 acpi) i [0; 0; 0]);
      [rewrite <- !(assoc_L (++)); exact H|by rewrite !length_app, !le_bytes_length]).
    by apply nmi_entry_at.
  - destruct He as (H0 & H4 & H5 & H9 & H10). rewrite !(proj2 (Z.eqb_neq t _)) by done. cbn. by rewrite <- Es.
Qed.
Lemma second_loop_reads es fuel a l rest s :
  Forall entry_ok es -> (length es < fuel)%nat -> placed mem a (es ≫= entry_bytes) -> 0 <= len -> madt <= a ->
  a + size (es ≫= entry_bytes) = madt + len -> cores_storage s = l ++ rest ->
  second_loop mem fuel madt a (length l) s = Ok (tt, with_cores s (foldl entry_nmi l es ++ rest)).
Proof using Hlen Hmax.
  intros Hes. revert fuel a l s. induction Hes as [|e es He _ IH]; intros [|n] a l s Hf Hp H0 Ha Hend Hs; cbn in Hf; try lia.
  - cbn [second_loop]. erewrite bind_Ok by apply Hlen. rewrite past_table by (cbn in Hend; lia). cbn. rewrite <- Hs. by destruct s.
  - cbn [second_loop]. erewrite bind_Ok by apply Hlen. erewrite in_table by done.
    rewrite bind_cons in Hp. apply placed_app in Hp as [Hp1 Hp2]. erewrite bind_Ok by (by apply (second_entry_at a e l rest s)).
    erewrite bind_Ok by (by apply (entry_length a e)). rewrite bind_cons, length_app in Hend. rewrite <- (entry_nmi_length l e).
    rewrite (IH n (a + size (entry_bytes e)) (entry_nmi l e)); [done|lia|done|done|lia|lia|done].
Qed.
End loops.

(** ** The whole table *)

(** The header of a table of [n] bytes, and the table of the interrupt controllers. *)
Definition header_ok (hdr : bytes) (n : Z) : Prop := length hdr = 36%nat /\ take 4 (drop 4 hdr) = le_bytes 4 n.
Definition madt_bytes (hdr : bytes) (lapic flags : Z) (es : list madt_entry) : bytes :=
  hdr ++ le_bytes 4 lapic ++ le_bytes 4 flags ++ (es ≫= entry_bytes).

Lemma header_length mem p hdr n rest s :
  placed mem p (hdr ++ rest) -> header_ok hdr n -> word 4 n -> rd mem (p + 4) 4 s = Ok (n, s).
Proof.
  intros H [H1 H2] Hn. apply (rd_field mem p (take 4 hdr) 4 n (drop 8 hdr ++ rest)); [|done| |done].
  - rewrite <- H2. replace (take 4 hdr ++ take 4 (drop 4 hdr) ++ drop 8 hdr ++ rest) with (hdr ++ rest); [done|].
    rewrite !(assoc_L (++)). f_equal. rewrite <- (assoc_L (++)). change 8%nat with (4 + 4)%nat. rewrite <- drop_drop. by rewrite !take_drop.
  - rewrite length_take. lia.
Qed.
Lemma entries_length es : (length es <= length (es ≫= entry_bytes))%nat.
Proof. induction es as [|e es IH]; [done|]. rewrite bind_cons, length_app. unfold entry_bytes at 1. cbn [length]. lia. Qed.

Lemma parse_madt_spec mem p hdr lapic flags es max s :
  find_table mem (text "APIC") s = Ok (p, s) -> p <> 0 -> placed mem p (madt_bytes hdr lapic flags es) ->
  header_ok hdr (size (madt_bytes hdr lapic flags es)) -> size (madt_bytes hdr lapic flags es) < 2 ^ 32 ->
  word 4 lapic -> Forall entry_ok es ->
  let ids := omap entry_core es in
  parse_madt mem max s =
    if (length ids <=? length (cores_storage s))%nat
    then Ok (mkMadt (if max <? size ids then max else size ids) (foldl entry_base lapic es),
             with_cores s (foldl entry_nmi (take (length ids) (init_cores ids (cores_storage s))) es ++ drop (length ids) (cores_storage s)))
    else Err Fault.
Proof.
  intros Hf Hp Hpl Hhdr Hsz Hl Hes ids. set (len := size (madt_bytes hdr lapic flags es)) in *. destruct Hhdr as [H36 Hh].
  assert (len = 44 + size (es ≫= entry_bytes)) as Elen.
  { unfold len, madt_bytes. rewrite !length_app, !le_bytes_length, H36. lia. }
  assert (forall s, rd mem (p + 4) 4 s = Ok (len, s)) as Hrd.
  { intros s'. unfold madt_bytes in Hpl. by eapply header_length; [exact Hpl| |split; lia]. }
  unfold parse_madt. erewrite bind_Ok by exact Hf. rewrite (proj2 (Z.eqb_neq p 0)) by done.
  erewrite bind_Ok by (apply (rd_field mem p hdr 4 lapic (le_bytes 4 flags ++ (es ≫= entry_bytes))); [exact Hpl|done|lia|done]).
  erewrite bind_Ok by apply Hrd.
  assert (placed mem (p + 44) (es ≫= entry_bytes)) as He.
  { unfold madt_bytes in Hpl. rewrite !(assoc_L (++)) in Hpl. apply placed_app in Hpl as [_ Hpl]. rewrite !length_app, !le_bytes_length, H36 in Hpl. exact Hpl. }
  pose proof (entries_length es) as Hlen.
  unfold bind at 1. rewrite (first_loop_reads mem p len Hrd ltac:(lia) es _ (p + 44) [] (cores_storage s) lapic s); [|done|lia|done|lia|lia|lia|done].
  fold ids. destruct (length ids <=? length (cores_storage s))%nat eqn:Eids; [|done]. apply Nat.leb_le in Eids. cbn [app length Nat.add].
  assert (length (zip_with (fun x c => initialize_ids x.1 x.2 c) ids (cores_storage s)) = length ids) as Hz by (rewrite length_zip_with; lia).
  assert (take (length ids) (init_cores ids (cores_storage s)) = zip_with (fun x c => initialize_ids x.1 x.2 c) ids (cores_storage s)) as Et.
  { unfold init_cores. rewrite take_app_le by lia. by rewrite take_ge by lia. }
  erewrite bind_Ok.
  2: { rewrite <- Hz at 1. apply (second_loop_reads mem p len Hrd ltac:(lia) es _ (p + 44) _ (drop (length ids) (cores_storage s))); [done|lia|done|lia|lia|lia|done]. }
  rewrite Et. by destruct (max <? size ids).
Qed.

(** ** Finding tables *)

(** A table with its length in its header, and whether it is the one looked for. *)
Definition table_at (mem : bytes) (t : Z) (bs : bytes) : Prop :=
  exists hdr rest, bs = hdr ++ rest /\ header_ok hdr (size bs) /\ placed mem t bs /\ word 4 (size bs).
Definition is_table (sign bs : bytes) : bool := bool_decide (take 4 bs = sign) && (foldr Z.add 0 bs mod 256 =? 0).

Lemma sum_bytes_placed mem bs a sum s :
  placed mem a bs -> 0 <= sum < 256 -> sum_bytes mem (length bs) a sum s = Ok ((sum + foldr Z.add 0 bs) mod 256, s).
Proof.
  revert a sum. induction bs as [|b bs IH]; intros a sum H Hs; cbn [sum_bytes length foldr].
  { rewrite Z.add_0_r, Z.mod_small by lia. done. }
  erewrite bind_Ok by (eapply rd_first; exact H). apply (placed_app _ _ [b]) in H as [_ H]. cbn [length] in H.
  rewrite (IH (a + 1)); [|exact H|apply Z.mod_pos_bound; lia].
  unfold wrapu. change (2 ^ 8) with 256. rewrite Z.add_mod_idemp_l by lia. do 3 f_equal. lia.
Qed.
Lemma validate_at mem t bs sign s : table_at mem t bs -> validate mem t sign s = Ok (is_table sign bs, s).
Proof.
  intros (hdr & rest & -> & Hh & Hp & Hw). pose proof Hh as [H36 _]. unfold validate, is_table.
  assert (rd_bytes mem t 4 s = Ok (take 4 (hdr ++ rest), s)) as E.
  { unfold rd_bytes. destruct Hp as (pre & post & -> & ->).
    rewrite (read_at _ pre (take 4 (hdr ++ rest)) (drop 4 (hdr ++ rest) ++ post)); [done| |done|].
    - by rewrite (assoc_L (++) (take _ _)), take_drop.
    - rewrite length_take, length_app. lia. }
  erewrite bind_Ok by exact E. destruct (bool_decide (take 4 (hdr ++ rest) = sign)); cbn [negb andb]; [|done].
  erewrite bind_Ok by (by eapply header_length). rewrite Nat2Z.id.
  erewrite bind_Ok by (by apply sum_bytes_placed). by rewrite Z.add_0_l.
Qed.

(** The first table of a list that is the one looked for. *)
Fixpoint first_table (sign : bytes) (ts : list (Z * bytes)) : Z :=
  match ts with
  | [] => 0
  | (t, bs) :: ts' => if is_table sign bs then t else first_table sign ts'
  end.
Definition root_bytes (hdr : bytes) (width : nat) (ts : list (Z * bytes)) : bytes := hdr ++ (ts ≫= fun t => le_bytes width t.1).

Lemma find_loop_first mem root width sign ts i s :
  placed mem (root + 36 + i * Z.of_nat width) (ts ≫= fun t => le_bytes width t.1) -> Forall (fun t => word width t.1 /\ table_at mem t.1 t.2) ts ->
  table_loop mem (length ts) i root (Z.of_nat width) sign s = Ok (first_table sign ts, s).
Proof.
  revert i. induction ts as [|[t bs] ts IH]; intros i Hp Hts; cbn [table_loop first_table length]; [done|].
  apply Forall_cons in Hts as [[Hw Ht] Hts]. rewrite bind_cons in Hp. cbn [fst snd] in *. apply placed_app in Hp as [Hp1 Hp2].
  erewrite bind_Ok.
  2: { rewrite <- (Z.add_0_r (root + 36 + i * Z.of_nat width)). apply (rd_field mem _ [] width t []); [by rewrite app_nil_r|done..]. }
  erewrite bind_Ok by (by apply validate_at). destruct (is_table sign bs); [done|]. apply IH; [|done].
  rewrite le_bytes_length in Hp2. replace (root + 36 + (i + 1) * Z.of_nat width) with (root + 36 + i * Z.of_nat width + Z.of_nat width) by lia. done.
Qed.
Lemma find_table_in_first mem root width hdr sign ts s :
  (0 < width)%nat -> placed mem root (root_bytes hdr width ts) -> header_ok hdr (size (root_bytes hdr width ts)) ->
  size (root_bytes hdr width ts) < 2 ^ 32 -> Forall (fun t => word width t.1 /\ table_at mem t.1 t.2) ts ->
  find_table_in mem root (Z.of_nat width) sign s = Ok (first_table sign ts, s).
Proof.
  intros Hw0 Hp Hh Hsz Hts. pose proof Hh as [H36 _]. unfold find_table_in. unfold root_bytes in Hp.
  erewrite bind_Ok by (eapply header_length; [exact Hp|exact Hh|split; lia]).
  assert (size (ts ≫= fun t => le_bytes width t.1) = size ts * Z.of_nat width) as El.
  { clear. induction ts as [|t ts IH]; [done|]. rewrite bind_cons, length_app, le_bytes_length. cbn [length]. lia. }
  assert (size (root_bytes hdr width ts) = 36 + size ts * Z.of_nat width) as Er by (unfold root_bytes; rewrite length_app, H36; lia).
  rewrite Er. replace (36 + size ts * Z.of_nat width - 36) with (size ts * Z.of_nat width) by lia.
  unfold wrapu. rewrite Z.mod_small by lia. rewrite Z.div_mul, Nat2Z.id by lia. apply find_loop_first; [|done].
  apply placed_app in Hp as [_ Hp]. rewrite H36 in Hp. by rewrite Z.mul_0_l, Z.add_0_r.
Qed.

(** ** Theorems *)

(** C22: from the root table on, the processors are read as the firmware describes them:
    the enabled ones are entered in order, the interrupts go to those they name, the
    last address given for the local controller counts; when there are more processors
    than room, the array is overrun. *)
Theorem processors_read mem root rhdr ts p hdr lapic flags es max s :
  root_xsdt s = Some root -> placed mem root (root_bytes rhdr 8 ts) -> header_ok rhdr (size (root_bytes rhdr 8 ts)) ->
  size (root_bytes rhdr 8 ts) < 2 ^ 32 -> Forall (fun t => word 8 t.1 /\ table_at mem t.1 t.2) ts ->
  first_table (text "APIC") ts = p -> p <> 0 -> placed mem p (madt_bytes hdr lapic flags es) ->
  header_ok hdr (size (madt_bytes hdr lapic flags es)) -> size (madt_bytes hdr lapic flags es) < 2 ^ 32 ->
  word 4 lapic -> Forall entry_ok es ->
  let ids := omap entry_core es in
  parse_madt mem max s =
    if (length ids <=? length (cores_storage s))%nat
    then Ok (mkMadt (if max <? size ids then max else size ids) (foldl entry_base lapic es),
             with_cores s (foldl entry_nmi (take (length ids) (init_cores ids (cores_storage s))) es ++ drop (length ids) (cores_storage s)))
    else Err Fault.
Proof.
  intros Hr Hp Hh Hsz Hts <- Hne Hpl Hhdr Hsize Hl Hes. eapply parse_madt_spec; [|exact Hne|exact Hpl|done..].
  unfold find_table. erewrite bind_Ok by reflexivity. rewrite Hr. apply (find_table_in_first mem root 8 rhdr); [lia|done..].
Qed.

(** An entry of length 0, of a type the first loop passes over, is looked at forever. *)
Lemma empty_entry_loops mem madt entry len t fuel d l s :
  rd mem (madt + 4) 4 s = Ok (len, s) -> wrapu 64 (entry - madt) < len -> rd mem entry 1 s = Ok (t, s) ->
  t <> 0 /\ t <> 5 /\ t <> 9 -> rd mem (entry + 1) 1 s = Ok (0, s) -> first_loop mem fuel madt entry d l s = Err NoFuel.
Proof.
  intros Hlen Hin Ht (H0 & H5 & H9) Hl. induction fuel as [|n IH]; [done|]. cbn [first_loop]. erewrite bind_Ok by exact Hlen.
  rewrite (proj2 (Z.ltb_lt _ _)) by done.
  assert (first_entry mem entry d l s = Ok ((d, l), s)) as E.
  { unfold first_entry. erewrite bind_Ok by exact Ht. rewrite (proj2 (Z.eqb_neq t 0) H0), (proj2 (Z.eqb_neq t 5) H5), (proj2 (Z.eqb_neq t 9) H9). done. }
  erewrite bind_Ok by exact E. cbv beta iota. erewrite bind_Ok by exact Hl. rewrite Z.add_0_r. exact IH.
Qed.

(** ** Witness *)

(** A machine with two processors, one of them disabled, and an interrupt for all. *)
Definition sample_entries : list madt_entry :=
  [Lapic 1 0 1; Lapic 2 1 0; OtherEntry 1 [7; 7]; X2apic 300 1 9; LapicNmi 255 5 1; LapicBase 4276092928].
Definition sample_madt : bytes := madt_bytes (text "APIC" ++ le_bytes 4 98 ++ replicate 28 0) 4276092928 1 sample_entries.
Definition checksummed (bs : bytes) : bytes := <[9%nat := (- foldr Z.add 0 bs) mod 256]> bs.
Definition sample_root : bytes := text "XSDT" ++ le_bytes 4 44 ++ replicate 28 0 ++ le_bytes 8 64.
Definition sample_mem : bytes := sample_root ++ replicate 20 0 ++ checksummed sample_madt.
Definition sample_state : acpi_state := mkAcpi None (Some 0) (replicate 4 no_core).

Lemma processors_read_witness :
  parse_madt sample_mem 4 sample_state =
    Ok (mkMadt 2 4276092928,
        with_cores sample_state [mkCore true true 0 1 1 5; mkCore true true 300 9 1 5; no_core; no_core]).
Proof.
  assert (checksummed sample_madt = madt_bytes (take 36 (checksummed sample_madt)) 4276092928 1 sample_entries) as E by (vm_compute; reflexivity).
  assert (placed sample_mem 64 (checksummed sample_madt)) as Hp.
  { exists (sample_root ++ replicate 20 0), []. split; [rewrite app_nil_r, <- (assoc_L (++)); reflexivity|reflexivity]. }
  assert (header_ok (take 36 (checksummed sample_madt)) 98) as Hh by (split; vm_compute; reflexivity).
  rewrite (processors_read sample_mem 0 (text "XSDT" ++ le_bytes 4 44 ++ replicate 28 0) [(64, checksummed sample_madt)] 64
    (take 36 (checksummed sample_madt)) 4276092928 1 sample_entries 4 sample_state).
  - vm_compute. reflexivity.
  - reflexivity.
  - exists [], (replicate 20 0 ++ checksummed sample_madt). split; [vm_compute; reflexivity|reflexivity].
  - split; vm_compute; reflexivity.
  - vm_compute. reflexivity.
  - apply Forall_singleton. split; [split; vm_compute; congruence|].
    exists (take 36 (checksummed sample_madt)), (drop 36 (checksummed sample_madt)). rewrite take_drop.
    split; [reflexivity|]. split; [exact Hh|]. split; [exact Hp|]. split; vm_compute; congruence.
  - vm_compute. reflexivity.
  - done.
  - rewrite <- E. exact Hp.
  - rewrite <- E. exact Hh.
  - vm_compute. reflexivity.
  - split; vm_compute; congruence.
  - repeat constructor; vm_compute; congruence.
Defined.
