(* ===== verification/Syscalls.v ===== *)
(** * System calls that make objects: kernel/memory/vmo.cpp and vas.cpp

    The handlers that create memory objects, address spaces and mappings and give
    the calling process a token for them: the memory of [Vas] and the processes of
    [Ipc] together. *)
From S2P Require Import Prelude AvlTree AvlSpec AvlRep AvlTheorems Pmm PageTable PageTableLaws PageMap PageTheorems Vmo Vas VasTheorems.
From S2P Require Ipc IpcTheorems.

(** ** State *)

(** The two halves of the kernel's state; whether an address space was claimed for a
    process is part of both. *)
Record whole (S : Type) : Type := mkWhole { w_memory : memory; w_kernel : Ipc.kernel S }.
Arguments mkWhole {S} _ _.
Arguments w_memory {S} _.
Arguments w_kernel {S} _.

Section ops.
Context {ET : ElementTree} {S : Type} {SO : Ipc.SchedulerOps S} {PM : Ipc.Permissions} (clock : nat -> Z) (perm_create_mapping : Z).
Abbreviation WM := (M (whole S)).

Definition claims (m : memory) : gmap Z bool := _was_claimed_for_process <$> vases m.
Definition with_claims (c : gmap Z bool) (k : Ipc.kernel S) : Ipc.kernel S :=
  Ipc.mkKernel (Ipc.procs k) (Ipc.boxes k) c (Ipc.sched k) (Ipc.ticks k) (Ipc.next_address k) (Ipc.started k).
Definition on_memory {A} (m : M memory A) : WM A := fun w =>
  match m (w_memory w) with Ok (a, v) => Ok (a, mkWhole v (with_claims (claims v) (w_kernel w))) | Err e => Err e end.
Definition on_kernel {A} (m : M (Ipc.kernel S) A) : WM A := fun w =>
  match m (w_kernel w) with Ok (a, k) => Ok (a, mkWhole (w_memory w) k) | Err e => Err e end.
Definition on_pmm {A} (m : M pmm A) : M memory A := on_pages (fun v =>
  match m (frames v) with Ok (a, f) => Ok (a, set_frames f v) | Err e => Err e end).

(** [make_intrusive<vmo>] *)
Definition make_vmo (o : vmo) : M memory Z := fun s =>
  Ok (next_object s, mkMemory (pages s) (<[next_object s := o]> (vmos s)) (vases s) (mapping_home s) (next_object s + 64) (vdso_vmo s) (vm_space_top s)).
(** [vmo->commit_all()] *)
Definition commit_object (p : Z) : M memory unit :=
  let* o := get_vmo p in
  let* o' := on_pmm (commit_all o) in
  put_vmo p o'.

(** A handle for the process of the current thread. *)
Definition give_handle (t : Ipc.handle_type) (payload perms : Z) : M (Ipc.kernel S) Z :=
  let* h := Ipc.create_handle t payload perms in
  let* c := Ipc.container in
  Ipc.register_for_token clock c h.

(** ** Handlers *)

(** Results are the result code and what is written through the pointers. *)
Definition syscall_rose_vmo_create_handler (size flags : Z) : WM (Ipc.result * Z) :=
  if negb (flags =? 0) then panic "TODO: rose_vmo_create: non zero flags" else
  let* p := on_memory (make_vmo (create_sparse_vmo size 0)) in
  let* token := on_kernel (give_handle Ipc.T_vmo p Ipc.perm_all) in
  ret (Ipc.ok, token).

Definition syscall_rose_vas_create_handler (vdso_info : bool) : WM (Ipc.result * Z * option (Z * Z)) :=
  let* new_vas := on_memory (create_vas vdso_info) in
  let* info :=
    if vdso_info then
      let* maybe_base := on_memory (let* x := get_vas new_vas in get_vdso_base x) in
      match maybe_base with
      | None => panic "couldn't find the base of vdso mapping in a VAS created with a random vdso mapping"
      | Some base =>
          let* len := on_memory (let* v := get_vdso_vmo in let* o := get_vmo v in ret (_length o)) in
          ret (Some (base, len))
      end
    else ret None in
  let* token := on_kernel (give_handle Ipc.T_vas new_vas
    (Z.lor (Z.lor (Z.lor (Z.lor Ipc.perm_read Ipc.perm_write) Ipc.perm_transfer) Ipc.perm_clone) perm_create_mapping)) in
  ret (Ipc.ok, token, info).

Definition syscall_rose_mapping_create_handler (self object address flags : Z) : WM (Ipc.result * Z) :=
  if negb (flags =? 0) then panic "TODO: rose_mapping_create: non zero flags" else
  on_memory (commit_object object) ;;
  let* mapping := on_memory (map_vmo self object address flags_user) in
  let* token := on_kernel (give_handle Ipc.T_vmo_mapping mapping Ipc.perm_all) in
  ret (Ipc.ok, token).

(** The handler of a mapping's destruction: kernel/memory/vmo_mapping.cpp *)
Definition syscall_rose_mapping_destroy_handler (mapping : Z) : WM Ipc.result :=
  let* valid := on_memory (mapping_destroy mapping) in
  ret (if valid then Ipc.ok else Ipc.invalid_handle).

(** ** Lemmas *)

Lemma give_handle_ok t payload perms k x :
  Ipc.procs k !! Ipc.so_container (Ipc.sched k) = Some x ->
  IpcTheorems.clock_moves clock (Ipc.ticks k) (Datatypes.S (base.size (Ipc._handles x))) ->
  exists token k', give_handle t payload perms k = Ok (token, k') /\ Ipc._handles x !! token = None /\
    Ipc.procs k' = <[Ipc.so_container (Ipc.sched k) :=
       Ipc.with_handles (<[token := Ipc.mkHandle (Ipc.next_address k) t payload perms]> (Ipc._handles x)) x]> (Ipc.procs k) /\
    Ipc.boxes k' = Ipc.boxes k /\ Ipc.vases k' = Ipc.vases k /\ Ipc.sched k' = Ipc.sched k.
Proof using Type.
  intros Hx Hc. unfold give_handle, Ipc.create_handle. rewrite bind_assoc. erewrite bind_Ok by reflexivity.
  erewrite bind_Ok by reflexivity. erewrite bind_Ok by reflexivity.
  match goal with |- context [Ipc.register_for_token _ _ ?h ?k1] =>
    destruct (IpcTheorems.register_ok clock (Ipc.so_container (Ipc.sched k)) h k1 x) as (token & n & E & Hn); [done|done|] end.
  eexists token, _. split; [exact E|]. done.
Qed.

(** Committing an object whose pages are of the smallest size takes frames from those
    that are free; the page tables stay. *)
Lemma commit_object_ok m object o ow fs tail big asid :
  vmos m !! object = Some o -> vmo_ok o -> _aligned_to_page_level o = 0%nat ->
  Z.of_nat (length fs + length (backings (elements o))) * 4096 = _length o ->
  address_space (pages m) ow (fs ++ tail) big asid ->
  exists m' gs, commit_object object m = Ok (tt, m') /\ gs ≡ₚ fs ++ backings (elements o) /\ Forall frame_ok fs /\
    vmos m' = <[object := set_elements o (committed 4096 0 gs)]> (vmos m) /\ vases m' = vases m /\ mapping_home m' = mapping_home m /\
    next_object m' = next_object m /\ vdso_vmo m' = vdso_vmo m /\ tables (pages m') = tables (pages m) /\
    address_space (pages m') ow tail big asid.
Proof using Type.
  intros Ho Hok Hl Hlen [[Hs Hf Hd] Hu Hroot Huser]. destruct Hf as (l1 & l2 & R & ->).
  destruct (commit_all_spec o (frames (pages m)) [fs ++ tail; l1; l2] fs tail Hok R) as (f' & gs & E & R' & P & _).
  { by rewrite Hl. }
  { by rewrite Hl. }
  rewrite Hl in E, R'. cbn in R'.
  assert (Forall frame_ok fs) as Hfs.
  { pose proof (rep_frames _ _ R) as HF. cbn in HF. rewrite !Forall_app in HF. tauto. }
  unfold commit_object. erewrite bind_Ok by (unfold get_vmo; by rewrite Ho).
  assert (on_pmm (commit_all o) m = Ok (set_elements o (committed 4096 0 gs), set_pages (set_frames f' (pages m)) m)) as Eo.
  { unfold on_pmm, on_pages. by rewrite E. }
  erewrite bind_Ok by exact Eo. eexists _, gs. split; [reflexivity|]. do 8 (split; [done|]). split; [split|..]; try done.
  - by exists l1, l2.
  - intros q Hq Hin. apply (Hd q Hq). rewrite !elem_of_app in *. tauto.
Qed.

(** The committed object can be mapped. *)
Lemma committed_ok o gs base :
  vmo_ok o -> _aligned_to_page_level o = 0%nat -> base mod 4096 = 0 -> Forall frame_ok gs -> Z.of_nat (length gs) * 4096 = _length o ->
  object_ok (set_elements o (committed 4096 0 gs)) base.
Proof using Type.
  intros [Ht Hl Hn _] Hl0 Hb Hg Hlen. split; cbn; rewrite ?Hl0.
  - rewrite <- Hlen. split; [lia|]. apply Z.mod_mul. lia.
  - rewrite <- Hl0. done.
  - done.
  - by rewrite Ht.
  - intros _. split; [done|]. exists gs. split; [done|]. split; [lia|]. eapply Forall_impl; [exact Hg|].
    intros f [[H0 H1] H2]. split; [done|]. split; [done|].
    apply Z.div_exact in H2; [|lia]. change (2 ^ 52) with (4096 * 2 ^ 40) in *. nia.
Qed.
End ops.

(** ** Theorems *)

Section theorems.
Context {ET : ElementTree} {S : Type} {SO : Ipc.SchedulerOps S} {PM : Ipc.Permissions} (clock : nat -> Z).
Implicit Types (w : whole S).

(** The process of the current thread, with a clock that moves. *)
Definition caller w (x : Ipc.process) : Prop :=
  Ipc.procs (w_kernel w) !! Ipc.so_container (Ipc.sched (w_kernel w)) = Some x /\
  IpcTheorems.clock_moves clock (Ipc.ticks (w_kernel w)) (Datatypes.S (base.size (Ipc._handles x))).
(** In [w'] it has in addition a handle of this kind under [token]. *)
Definition given w w' (x : Ipc.process) (token : Z) (t : Ipc.handle_type) (payload : Z) : Prop :=
  Ipc._handles x !! token = None /\
  exists h, Ipc._type h = t /\ Ipc._payload h = payload /\ Ipc._perms h = Ipc.perm_all /\
    Ipc.procs (w_kernel w') = <[Ipc.so_container (Ipc.sched (w_kernel w)) := Ipc.with_handles (<[token := h]> (Ipc._handles x)) x]> (Ipc.procs (w_kernel w)).

Lemma give_in_whole w m x t payload :
  caller w x ->
  exists token w', on_kernel (give_handle clock t payload Ipc.perm_all) (mkWhole m (with_claims (claims m) (w_kernel w))) = Ok (token, w') /\
    w_memory w' = m /\ given w w' x token t payload.
Proof using Type.
  intros [Hx Hc]. destruct (give_handle_ok clock t payload Ipc.perm_all (with_claims (claims m) (w_kernel w)) x Hx Hc)
    as (token & k' & E & Hn & Hp & _). exists token, (mkWhole m k'). unfold on_kernel. cbn [w_kernel w_memory]. rewrite E.
  split; [done|]. split; [done|]. split; [done|]. exists (Ipc.mkHandle (Ipc.next_address (w_kernel w)) t payload Ipc.perm_all). by repeat split.
Qed.

(** Creating an object: it is sparse, without frames, of the size rounded up to pages,
    and the process has a handle to it with all permissions. *)
Theorem vmo_create_gives_object w size x :
  caller w x ->
  exists token w', syscall_rose_vmo_create_handler clock size 0 w = Ok ((Ipc.ok, token), w') /\
    given w w' x token Ipc.T_vmo (next_object (w_memory w)) /\
    vmos (w_memory w') = <[next_object (w_memory w) := create_sparse_vmo size 0]> (vmos (w_memory w)).
Proof using Type.
  intros Hc. unfold syscall_rose_vmo_create_handler. change (negb (0 =? 0)) with false. cbn iota. erewrite bind_Ok by reflexivity.
  match goal with |- context [mkWhole ?m (with_claims _ (w_kernel w))] => destruct (give_in_whole w m x Ipc.T_vmo (next_object (w_memory w)) Hc) as (token & w' & E & Em & Hg) end.
  exists token, w'. erewrite bind_Ok by exact E. split; [done|]. split; [done|]. by rewrite Em.
Qed.

(** C17: mapping an object of small pages through its token.  When the range is free
    and there are frames for the missing pages and three per page for the tables, the
    handler commits the object, maps it and returns a fresh token: the process then
    has a handle to the new mapping, which has joined the others of the address space
    in order; every address of the range translates to the page of the object behind
    it, open to user mode by the bits of all four levels, every other address of the
    same half translates as before, the tables still form an address space, and the
    other memory objects and the other address-space objects stay. *)
Theorem mapping_create_maps w x self object address xv l o ow fs tail big B v :
  let m := w_memory w in
  caller w x -> vases m !! self = Some xv -> vas_rep xv l -> vmos m !! object = Some o ->
  vmo_ok o -> _aligned_to_page_level o = 0%nat -> Forall frame_ok (backings (elements o)) ->
  Z.of_nat (length fs + length (backings (elements o))) * 4096 = _length o ->
  address_space (pages m) ow (fs ++ tail) big (_asid xv) -> 3 * (_length o / 4096) <= Z.of_nat (length tail) ->
  address mod 4096 = 0 -> unoccupied l o address -> vdso_vmo m = Some v -> next_object m ∉ l.*1 -> addr_ok (next_object m) ->
  block_base 4 B -> B <= address -> address + _length o <= B + 2 ^ 48 -> address + _length o < 2 ^ 64 ->
  (forall a, address <= a < address + _length o -> translate (tables (pages m)) 4 (_asid xv) a = None) ->
  exists token w' gs,
    syscall_rose_mapping_create_handler clock self object address 0 w = Ok ((Ipc.ok, token), w') /\
    given w w' x token Ipc.T_vmo_mapping (next_object m) /\
    gs ≡ₚ fs ++ backings (elements o) /\ vmos (w_memory w') = <[object := set_elements o (committed 4096 0 gs)]> (vmos m) /\
    pages_mapped (_asid xv) B address (_length o) flags_user (set_elements o (committed 4096 0 gs)) (pages m) (pages (w_memory w')) /\
    (exists ow' fr', address_space (pages (w_memory w')) ow' fr' big (_asid xv)) /\
    exists xv' l1 l2, vases (w_memory w') = <[self := xv']> (vases m) /\ _asid xv' = _asid xv /\ l = l1 ++ l2 /\
      vas_rep xv' (l1 ++ (next_object m, the_mapping self object o address flags_user) :: l2).
Proof using Type.
  intros m Hc Hself Hrep Ho Hok Hl Hbk Hlen Has H3 Hal Hfree Hv Hnew Haddr HB HBa Hhi H64 Hnone.
  destruct (commit_object_ok m object o ow fs tail big (_asid xv) Ho Hok Hl Hlen Has)
    as (m1 & gs & E1 & P & Hfs & Hvm & Hva & Hmh & Hno & Hvd & Htb & Has1).
  assert (Forall frame_ok gs) as Hgs by (rewrite P; by apply Forall_app).
  assert (Z.of_nat (length gs) * 4096 = _length o) as Hglen by (rewrite P, length_app; exact Hlen).
  set (o' := set_elements o (committed 4096 0 gs)) in *.
  destruct (map_vmo_spec m1 self object xv l o' address flags_user) with (ow := ow) (fr := tail) (big := big) (B := B) (v := v)
    as (m2 & x2 & l1 & l2 & ow' & fr' & E2 & Hva2 & Hvm2 & Hl12 & Hrep2 & Hasid2 & _ & Has2 & Hpm); try done.
  - by rewrite Hva.
  - rewrite Hvm. by apply lookup_insert_eq.
  - cbn. rewrite Hl. unfold page_size_count. lia.
  - by apply committed_ok.
  - by rewrite Hvd.
  - by rewrite Hno.
  - by rewrite Hno.
  - intros a Ha. rewrite Htb. by apply Hnone.
  - destruct (give_in_whole w m2 x Ipc.T_vmo_mapping (next_object m) Hc) as (token & w' & E3 & Em & Hg).
    exists token, w', gs. split; [|split; [done|]; split; [done|]; rewrite Em; split; [by rewrite Hvm2|];
      split; [|split; [by exists ow', fr'|]]].
    + unfold syscall_rose_mapping_create_handler. change (negb (0 =? 0)) with false. cbn iota.
      erewrite bind_Ok by (unfold on_memory; fold m; rewrite E1; reflexivity).
      erewrite bind_Ok by (unfold on_memory; cbn [w_memory w_kernel]; rewrite E2; reflexivity).
      rewrite Hno. erewrite bind_Ok by exact E3. done.
    + intros a Ha. rewrite (Hpm a Ha). by rewrite Htb.
    + exists x2, l1, l2. rewrite Hva2, Hva. rewrite Hno in Hrep2. done.
Qed.
End theorems.

(** ** Witness *)

(** Four free frames, an empty address space, and an object of a page that a process
    has just created. *)
Definition four : pmm :=
  mkPmm (list_to_map [(0x4000, 0x3000); (0x3000, 0x2000); (0x2000, 0x1000); (0x1000, null_repr)])
    [mkStack false 0x4000 4; mkStack false null_repr 0; mkStack false null_repr 0] 0 0 [4; 0; 0] [0; 0; 0].
Lemma four_rep : pmm_rep four [[0x4000; 0x3000; 0x2000; 0x1000]; []; []].
Proof. concrete_pmm. Qed.
Definition space4 : vm_state pmm := mkVm {[0x8000 := pmlt_init]} four 0x8000 [] [] false.
Lemma space4_ok : address_space space4 owners0 [0x4000; 0x3000; 0x2000; 0x1000] [] 0x8000.
Proof.
  destruct space0_ok as [[Hs _ _] Hu Hr Hus]. split; [split| |done|done].
  - exact Hs.
  - exists [], []. split; [apply four_rep|done].
  - intros q [y Hy]. unfold owners0 in Hy. apply lookup_singleton_Some in Hy as [<- _]. by apply (bool_decide_unpack _).
  - exact Hu.
Qed.
Definition fresh_page : vmo := create_sparse_vmo 4000 0.
Definition whole0 : whole Scheduler.instance :=
  mkWhole (mkMemory space4 {[0x100 := fresh_page]} {[0x40 := empty_vas]} ∅ 0x1000 (Some 0x200) 0xfffffff000000000) IpcTheorems.sample_kernel.

#[local] Existing Instance IpcTheorems.core_ops.
#[local] Existing Instance IpcTheorems.sample_permissions.
#[local] Existing Instance exact_tree.

Lemma mapping_create_maps_witness :
  exists token w' gs,
    syscall_rose_mapping_create_handler SchedulerTheorems.sample_clock 0x40 0x100 0x400000 0 whole0 = Ok ((Ipc.ok, token), w') /\
    given whole0 w' IpcTheorems.sample_process token Ipc.T_vmo_mapping 0x1000 /\
    gs ≡ₚ [0x4000] /\ vmos (w_memory w') = <[0x100 := set_elements fresh_page (committed 4096 0 gs)]> (vmos (w_memory whole0)) /\
    pages_mapped 0x8000 0 0x400000 4096 flags_user (set_elements fresh_page (committed 4096 0 gs)) space4 (pages (w_memory w')) /\
    (exists ow' fr', address_space (pages (w_memory w')) ow' fr' [] 0x8000) /\
    exists xv' l1 l2, vases (w_memory w') = <[0x40 := xv']> (vases (w_memory whole0)) /\ _asid xv' = _asid empty_vas /\ [] = l1 ++ l2 /\
      vas_rep xv' (l1 ++ (0x1000, the_mapping 0x40 0x100 fresh_page 0x400000 flags_user) :: l2).
Proof.
  apply (mapping_create_maps SchedulerTheorems.sample_clock whole0 IpcTheorems.sample_process 0x40 0x100 0x400000 empty_vas [] fresh_page owners0
    [0x4000] [0x3000; 0x2000; 0x1000] [] 0 0x200).
  - split; [reflexivity|]. apply IpcTheorems.sample_clock_moves. vm_compute. reflexivity.
  - reflexivity.
  - exact empty_rep.
  - reflexivity.
  - split; [done|unfold page_size_count; cbn; lia|change (_length fresh_page) with 4096; lia|]. split; [done|]. exists 1%nat. split; [lia|]. by split.
  - reflexivity.
  - constructor.
  - reflexivity.
  - exact space4_ok.
  - by vm_compute.
  - reflexivity.
  - intros a m []%elem_of_nil.
  - reflexivity.
  - apply not_elem_of_nil.
  - exact sample_addr.
  - exact low_half.
  - lia.
  - by vm_compute.
  - reflexivity.
  - intros v Hv. apply walk_new_empty; [reflexivity|]. change (_length fresh_page) with 4096 in Hv. lia.
Defined.
