(* ===== verification/UefiMemory.v ===== *)
(** * The memory map of the UEFI loader: loaders/uefi/efi/efi.cpp

    How the loader turns the firmware's list of memory regions into the map it hands
    to the kernel, and how it marks its stack in it.  The map is an array of which the
    first [size] entries count; an access outside of the array is a fault, and a
    message followed by [halt] a panic.  The firmware is a parameter. *)
From S2P Require Import Prelude Text Pmm.

(** ** Regions of the firmware *)

Inductive EFI_MEMORY_TYPE : Type :=
| efi_reserved_memory_type | efi_loader_code | efi_loader_data | efi_boot_services_code | efi_boot_services_data
| efi_runtime_services_code | efi_runtime_services_data | efi_conventional_memory | efi_unusable_memory
| efi_acpi_reclaim_memory | efi_acpi_memory_nvs | efi_memory_mapped_io | efi_memory_mapped_io_port_space
| efi_pal_code | efi_persistent_memory | efi_max_memory_type
| reaveros_kernel | reaveros_initrd | reaveros_paging | reaveros_memory_map | reaveros_log_buffer | reaveros_backbuffer
| efi_other (value : Z).
Record EFI_MEMORY_DESCRIPTOR : Type := mkDescriptor { efi_type : EFI_MEMORY_TYPE; efi_physical_start : Z; number_of_pages : Z }.

(** The type of an entry; what is not known is unusable. *)
Definition translate_type (t : EFI_MEMORY_TYPE) : memory_type :=
  match t with
  | efi_reserved_memory_type => unusable
  | efi_loader_code | efi_loader_data => loader
  | efi_boot_services_code | efi_boot_services_data => free
  | efi_runtime_services_code | efi_runtime_services_data => preserve
  | efi_conventional_memory => free
  | efi_unusable_memory => unusable
  | efi_acpi_reclaim_memory => acpi_reclaimable
  | efi_acpi_memory_nvs => preserve
  | efi_memory_mapped_io | efi_memory_mapped_io_port_space => unusable
  | efi_pal_code => preserve
  | efi_persistent_memory => persistent
  | reaveros_kernel => kernel
  | reaveros_initrd => initrd
  | reaveros_paging => paging
  | reaveros_memory_map => memory_map
  | reaveros_backbuffer => backbuffer
  | reaveros_log_buffer => log_buffer
  | efi_max_memory_type | efi_other _ => unusable
  end.
Definition translate_entry (d : EFI_MEMORY_DESCRIPTOR) : memory_map_entry :=
  mkEntry (efi_physical_start d) (u64 (number_of_pages d * 4096)) (translate_type (efi_type d)) 0.

(** [memory_map] *)
Record map : Type := mkMap { entries : list memory_map_entry; map_size : nat }.
Abbreviation MM := (M map).

(** [allocate_pages]: [alloc] is the firmware's, given a number of pages. *)
Definition num_pages (size : Z) : Z := if size =? 0 then 1 else u64 (size + 4095) / 4096.
Definition allocate_pages {A} (alloc : Z -> option A) (size : Z) : res A :=
  match alloc (num_pages size) with Some p => Ok p | None => Err (Panic "Error allocating pages") end.

(** One call of the firmware's [get_memory_map]. *)
Record reply : Type := mkReply { status : Z; bytes_used : Z; descriptor_size : Z; descriptors : list EFI_MEMORY_DESCRIPTOR }.
Definition EFI_SUCCESS : Z := 0.
Definition EFI_BUFFER_TOO_SMALL : Z := Z.lor 5 (2 ^ 63).
Definition sizeof_entry : Z := 24.

Fixpoint fill (k i : nat) (ds : list EFI_MEMORY_DESCRIPTOR) (m : map) : res map :=
  match k with
  | O => Ok m
  | S k' =>
      match ds !! i with
      | Some d =>
          if (i <? length (entries m))%nat
          then fill k' (S i) ds (mkMap (<[i := translate_entry d]> (entries m)) (map_size m))
          else Err Fault
      | None => Err Fault
      end
  end.
(** [get_memory_map]: the array has room for ten entries more than the firmware first
    reported; [alloc] gives fresh pages, as an array of entries. *)
Definition get_memory_map (alloc : Z -> option (list memory_map_entry)) (first second : reply) : res map :=
  if negb (status first =? EFI_BUFFER_TOO_SMALL) then Err (Panic "Error getting memory map size")
  else if descriptor_size first =? 0 then Err Fault
  else
    let size := bytes_used first / descriptor_size first + 10 in
    match allocate_pages alloc (u64 (descriptor_size first * size)) with
    | Err e => Err e
    | Ok _ =>
        match allocate_pages alloc (u64 (sizeof_entry * size)) with
        | Err e => Err e
        | Ok room =>
            if negb (status second =? EFI_SUCCESS) then Err (Panic "Error getting the memory map")
            else if descriptor_size second =? 0 then Err Fault
            else
              let size := Z.to_nat (bytes_used second / descriptor_size second) in
              fill size 0 (descriptors second) (mkMap room size)
        end
    end.

(** ** [account_for_stack] *)

Definition entry_at (i : nat) : MM memory_map_entry := fun m =>
  match entries m !! i with Some e => Ok (e, m) | None => Err Fault end.
Definition set_entry (i : nat) (e : memory_map_entry) : MM unit := fun m =>
  if (i <? length (entries m))%nat then Ok (tt, mkMap (<[i := e]> (entries m)) (map_size m)) else Err Fault.
Definition get_size : MM nat := gets map_size.
Definition set_size (n : nat) : MM unit := modify (fun m => mkMap (entries m) n).

(** Two entries that are one region. *)
Definition mergeable (a b : memory_map_entry) : bool :=
  bool_decide (type a = type b) && (attributes a =? attributes b) && (u64 (physical_start a + entry_length a) =? physical_start b).
Definition join (a b : memory_map_entry) : memory_map_entry :=
  mkEntry (physical_start a) (u64 (entry_length a + entry_length b)) (type a) (attributes a).

(** [entries[j] = entries[j + 1]] for [k] entries from [j] on. *)
Fixpoint shift_down (k j : nat) : MM unit :=
  match k with
  | O => ret tt
  | S k' => let* e := entry_at (S j) in set_entry j e ;; shift_down k' (S j)
  end.
(** The inner loop: entries after [i] are merged into it; each leaves the map. *)
Fixpoint absorb (fuel i : nat) : MM unit :=
  match fuel with
  | O => fail NoFuel
  | S n =>
      let* size := get_size in
      if (i + 1 <? size)%nat then
        let* a := entry_at i in
        let* b := entry_at (i + 1) in
        if mergeable a b then
          set_entry i (join a b) ;;
          shift_down (size - 1 - (i + 1)) (i + 1) ;;
          set_size (size - 1) ;;
          absorb n i
        else ret tt
      else ret tt
  end.
Fixpoint merge_loop (fuel i : nat) : MM unit :=
  match fuel with
  | O => fail NoFuel
  | S n =>
      let* size := get_size in
      if (i <? size)%nat then absorb (S size) i ;; merge_loop n (S i) else ret tt
  end.

(** [entries[j] = entries[j - 2]], from [j] down, [k] times. *)
Fixpoint shift_up (k j : nat) : MM unit :=
  match k with
  | O => ret tt
  | S k' => let* e := entry_at (j - 2) in set_entry j e ;; shift_up k' (j - 1)
  end.
Definition split_entry (i : nat) (begin_ end_ : Z) : MM unit :=
  let* size := get_size in
  shift_up (size + 1 - (i + 2)) (size + 1) ;;
  let* e := entry_at i in
  let* e2 := entry_at (i + 2) in
  set_entry (i + 2) (mkEntry end_ (u64 (entry_length e - (end_ - physical_start e))) free (attributes e2)) ;;
  let* e1 := entry_at (i + 1) in
  set_entry (i + 1) (mkEntry begin_ (u64 (end_ - begin_)) working_stack (attributes e1)) ;;
  set_entry i (mkEntry (physical_start e) (u64 (begin_ - physical_start e)) (type e) (attributes e)) ;;
  set_size (S size).
Fixpoint stack_loop (k i : nat) (begin_ end_ : Z) : MM unit :=
  match k with
  | O => ret tt
  | S k' =>
      let* e := entry_at i in
      if (physical_start e <=? begin_) && (end_ <=? u64 (physical_start e + entry_length e)) then
        if negb (bool_decide (type e = free)) then panic "The approximate loader stack is NOT within a free memory map entry."
        else if physical_start e =? begin_ then
          set_entry i (mkEntry end_ (u64 (entry_length e - (end_ - begin_))) (type e) (attributes e))
        else if u64 (physical_start e + entry_length e) =? end_ then
          set_entry i (mkEntry (physical_start e) (u64 (entry_length e - (end_ - begin_))) (type e) (attributes e))
        else split_entry i begin_ end_
      else stack_loop k' (S i) begin_ end_
  end.
Definition page_down (a : Z) : Z := Z.land a (not64 4095).
Definition account_for_stack (begin_ end_ : Z) : MM unit :=
  let* size := get_size in
  merge_loop (S size) 0 ;;
  let* size := get_size in
  stack_loop size 0 (page_down begin_) (page_down (u64 (end_ + 4095))).
