(* ===== verification/UefiMap.v ===== *)
(** * What the loader's memory map says of every address

    Merging keeps the type of every address, in place, as a pass over a list would;
    marking the stack splits its region into three.  The entries are those the firmware
    gave; a region does not wrap around the end of the address space. *)
From S2P Require Import Prelude Text Pmm UefiMemory.

(** ** Regions *)

Definition region_end (e : memory_map_entry) : Z := physical_start e + entry_length e.
Definition covers (a : Z) (e : memory_map_entry) : bool := (physical_start e <=? a) && (a <? region_end e).
Definition regular (e : memory_map_entry) : Prop := 0 <= physical_start e /\ 0 <= entry_length e /\ region_end e < 2 ^ 64.
(** The type of an address: that of the first entry that has it. *)
Definition type_at (l : list memory_map_entry) (a : Z) : option memory_type := type ∘ snd <$> list_find (fun e => covers a e = true) l.
(** The entries that count. *)
Definition live (m : map) : list memory_map_entry := take (map_size m) (entries m).

(** ** Merging as a pass over a list *)

Fixpoint merge_from (a : memory_map_entry) (l : list memory_map_entry) : list memory_map_entry :=
  match l with
  | [] => [a]
  | b :: l' => if mergeable a b then merge_from (join a b) l' else a :: merge_from b l'
  end.
Definition merged (l : list memory_map_entry) : list memory_map_entry :=
  match l with [] => [] | a :: l' => merge_from a l' end.

Lemma type_at_cons e l a : type_at (e :: l) a = if covers a e then Some (type e) else type_at l a.
Proof.
  unfold type_at. cbn [list_find]. destruct (covers a e) eqn:C.
  - by destruct (decide _).
  - destruct (decide _) as [|_]; [done|]. by destruct (list_find _ l) as [[]|].
Qed.
Lemma type_at_app l1 l2 a : type_at (l1 ++ l2) a = match type_at l1 a with Some t => Some t | None => type_at l2 a end.
Proof. induction l1 as [|e l1 IH]; [done|]. rewrite <- app_comm_cons, !type_at_cons. by destruct (covers a e). Qed.

Lemma join_regular a b : regular a -> regular b -> mergeable a b = true -> regular (join a b).
Proof.
  unfold mergeable, join, regular, region_end. intros (A1 & A2 & A3) (B1 & B2 & B3) [[_ _]%andb_true_iff E%Z.eqb_eq]%andb_true_iff.
  cbn. rewrite u64_id in E by (unfold is_u64; lia). rewrite u64_id by (unfold is_u64; lia). lia.
Qed.
Lemma join_covers a b x :
  regular a -> regular b -> mergeable a b = true -> covers x (join a b) = covers x a || covers x b.
Proof.
  unfold mergeable, join, regular, region_end, covers. intros (A1 & A2 & A3) (B1 & B2 & B3) [[_ _]%andb_true_iff E%Z.eqb_eq]%andb_true_iff.
  unfold region_end. cbn. rewrite u64_id in E by (unfold is_u64; lia). rewrite u64_id by (unfold is_u64; lia).
  apply eq_bool_prop_intro. rewrite !Is_true_true, orb_true_iff, !andb_true_iff, !Z.leb_le, !Z.ltb_lt. lia.
Qed.
Lemma mergeable_type a b : mergeable a b = true -> type a = type b.
Proof. unfold mergeable. by intros [[H%bool_decide_eq_true _]%andb_true_iff _]%andb_true_iff. Qed.

Lemma merge_from_regular l : forall a, regular a -> Forall regular l -> Forall regular (merge_from a l).
Proof.
  induction l as [|b l IH]; intros a Ha Hl; cbn; [by constructor|]. apply Forall_cons in Hl as [Hb Hl].
  destruct (mergeable a b) eqn:E; [apply IH; [by apply join_regular|done]|]. constructor; auto.
Qed.
Lemma merged_regular l : Forall regular l -> Forall regular (merged l).
Proof. destruct l as [|a l]; [done|]. intros [? ?]%Forall_cons. by apply merge_from_regular. Qed.
Lemma merge_from_type l x : forall a, regular a -> Forall regular l -> type_at (merge_from a l) x = type_at (a :: l) x.
Proof.
  induction l as [|b l IH]; intros a Ha Hl; cbn [merge_from]; [done|]. apply Forall_cons in Hl as [Hb Hl].
  destruct (mergeable a b) eqn:E.
  - rewrite IH by eauto using join_regular. rewrite !type_at_cons, join_covers by done.
    rewrite (mergeable_type _ _ E) by done. cbn [join type].
    destruct (covers x a), (covers x b); cbn; by rewrite ?(mergeable_type _ _ E).
  - rewrite (type_at_cons a (merge_from b l)), IH by done. by rewrite (type_at_cons a (b :: l)).
Qed.
(** Merging changes the type of no address. *)
Lemma merged_type l x : Forall regular l -> type_at (merged l) x = type_at l x.
Proof. destruct l as [|a l]; [done|]. intros [? ?]%Forall_cons. by apply merge_from_type. Qed.
Lemma merge_from_length l : forall a, (length (merge_from a l) <= S (length l))%nat.
Proof. induction l as [|b l IH]; intros a; cbn; [lia|]. destruct (mergeable a b); cbn; [etrans; [apply IH|lia]|]. pose proof (IH b). lia. Qed.
Lemma merged_length l : (length (merged l) <= length l)%nat.
Proof. destruct l; [done|]. apply merge_from_length. Qed.

(** ** The array *)

Lemma entry_at_mid l1 e l2 n i :
  i = length l1 -> entry_at i (mkMap (l1 ++ e :: l2) n) = Ok (e, mkMap (l1 ++ e :: l2) n).
Proof. intros ->. unfold entry_at. cbn. by rewrite list_lookup_middle by done. Qed.
Lemma set_entry_mid l1 e e' l2 n i :
  i = length l1 -> set_entry i e' (mkMap (l1 ++ e :: l2) n) = Ok (tt, mkMap (l1 ++ e' :: l2) n).
Proof.
  intros ->. unfold set_entry. cbn [entries map_size]. destruct (Nat.ltb_spec (length l1) (length (l1 ++ e :: l2))) as [_|H].
  2:{ rewrite length_app in H. cbn in H. lia. }
  do 3 f_equal. rewrite insert_app_r_alt by done. by rewrite Nat.sub_diag.
Qed.
Lemma get_size_eq l n : get_size (mkMap l n) = Ok (n, mkMap l n). Proof. done. Qed.
Lemma set_size_eq l n k : set_size k (mkMap l n) = Ok (tt, mkMap l k). Proof. done. Qed.
#[export] Hint Resolve get_size_eq set_size_eq : reaver.

Lemma shift_down_eq ys : forall l1 x rest n,
  exists r, shift_down (length ys) (length l1) (mkMap (l1 ++ x :: ys ++ rest) n) = Ok (tt, mkMap (l1 ++ ys ++ r) n) /\ length r = S (length rest).
Proof.
  induction ys as [|y ys IH]; intros l1 x rest n.
  - exists (x :: rest). done.
  - cbn [shift_down length].
    erewrite bind_Ok; [|replace (l1 ++ x :: (y :: ys) ++ rest) with ((l1 ++ [x]) ++ y :: ys ++ rest) by (by rewrite <- (assoc_L (++)));
      apply entry_at_mid; rewrite length_app; cbn; lia].
    cbv beta. rewrite <- (assoc_L (++)). cbn [app].
    erewrite bind_Ok; [|by apply set_entry_mid]. cbv beta.
    destruct (IH (l1 ++ [y]) y rest n) as (r & E & L). exists r. split; [|done].
    rewrite length_app, Nat.add_1_r, <- !(assoc_L (++)) in E. exact E.
Qed.

(** One round of the outer loop: what follows [i] is merged into it. *)
Fixpoint absorbed (a : memory_map_entry) (l : list memory_map_entry) : memory_map_entry * list memory_map_entry :=
  match l with
  | b :: l' => if mergeable a b then absorbed (join a b) l' else (a, l)
  | [] => (a, [])
  end.
Lemma merge_from_absorbed l : forall a, merge_from a l = (absorbed a l).1 :: merged (absorbed a l).2.
Proof. induction l as [|b l IH]; intros a; cbn; [done|]. by destruct (mergeable a b). Qed.
Lemma absorbed_length l : forall a, (length (absorbed a l).2 <= length l)%nat.
Proof. induction l as [|b l IH]; intros a; cbn; [done|]. destruct (mergeable a b); [etrans; [apply IH|lia]|done]. Qed.

Lemma absorb_eq l : forall fuel l1 a rest,
  (length l < fuel)%nat ->
  exists r, absorb fuel (length l1) (mkMap (l1 ++ a :: l ++ rest) (length l1 + 1 + length l))
          = Ok (tt, mkMap (l1 ++ (absorbed a l).1 :: (absorbed a l).2 ++ r) (length l1 + 1 + length (absorbed a l).2))
          /\ length (l1 ++ (absorbed a l).1 :: (absorbed a l).2 ++ r) = length (l1 ++ a :: l ++ rest).
Proof.
  induction l as [|b l IH]; intros [|fuel] l1 a rest Hf; [cbn in *; lia| |cbn in *; lia|]; cbn [absorb]; run1; cbn [map_size].
  - destruct (Nat.ltb_spec (length l1 + 1) (length l1 + 1 + length (@nil memory_map_entry))) as [H|_]; [cbn in H; lia|]. by exists rest.
  - destruct (Nat.ltb_spec (length l1 + 1) (length l1 + 1 + length (b :: l))) as [_|H]; [|cbn in H; lia].
    erewrite bind_Ok; [|by apply entry_at_mid]. cbv beta.
    replace (l1 ++ a :: (b :: l) ++ rest) with ((l1 ++ [a]) ++ b :: l ++ rest) by (by rewrite <- (assoc_L (++))).
    erewrite bind_Ok; [|apply entry_at_mid; rewrite length_app; cbn; lia]. cbv beta. rewrite <- (assoc_L (++)). cbn [app absorbed].
    destruct (mergeable a b).
    + erewrite bind_Ok; [|by apply set_entry_mid]. cbv beta.
      destruct (shift_down_eq l (l1 ++ [join a b]) b rest (length l1 + 1 + S (length l))) as (r & E & L).
      rewrite length_app, <- !(assoc_L (++)) in E. cbn [length app] in E.
      replace (length l1 + 1 + length (b :: l) - 1 - (length l1 + 1))%nat with (length l) by (cbn; lia).
      erewrite bind_Ok; [|exact E]. cbv beta. erewrite bind_Ok; [|apply set_size_eq]. cbv beta.
      replace (length l1 + 1 + length (b :: l) - 1)%nat with (length l1 + 1 + length l)%nat by (cbn; lia).
      destruct (IH fuel l1 (join a b) r) as (r' & -> & L'); [cbn in Hf; lia|].
      exists r'. split; [done|]. rewrite L', !length_app. cbn. rewrite !length_app. lia.
    + exists rest. done.
Qed.

Lemma merge_loop_eq fuel : forall l l1 rest,
  (length l < fuel)%nat ->
  exists r, merge_loop fuel (length l1) (mkMap (l1 ++ l ++ rest) (length l1 + length l))
          = Ok (tt, mkMap (l1 ++ merged l ++ r) (length l1 + length (merged l)))
          /\ length (l1 ++ merged l ++ r) = length (l1 ++ l ++ rest).
Proof.
  induction fuel as [|fuel IH]; intros l l1 rest Hf; [lia|]. cbn [merge_loop]. run1. cbn [map_size].
  destruct l as [|a l].
  - rewrite Nat.add_0_r, Nat.ltb_irrefl. exists rest. by rewrite Nat.add_0_r.
  - destruct (Nat.ltb_spec (length l1) (length l1 + length (a :: l))) as [_|H]; [|cbn in H; lia].
    destruct (absorb_eq l (S (length l1 + length (a :: l))) l1 a rest) as (r & E & L); [cbn; lia|].
    replace (length l1 + 1 + length l)%nat with (length l1 + length (a :: l))%nat in E by (cbn; lia).
    erewrite bind_Ok; [|exact E]. cbv beta. cbn [merged]. rewrite merge_from_absorbed.
    destruct (IH (absorbed a l).2 (l1 ++ [(absorbed a l).1]) r) as (r' & E' & L').
    { pose proof (absorbed_length l a). cbn in Hf. lia. }
    rewrite length_app, Nat.add_1_r, <- !(assoc_L (++)) in E'. cbn [app] in E'.
    replace (length l1 + 1 + length (absorbed a l).2)%nat with (S (length l1) + length (absorbed a l).2)%nat by lia.
    exists r'. rewrite E'. split; [cbn [length]; by rewrite <- plus_n_Sm|].
    rewrite <- !(assoc_L (++)) in L'. cbn [app] in L'. cbn [app]. by rewrite <- L, <- L'.
Qed.

(** ** The stack *)

Definition holds (b e : Z) (x : memory_map_entry) : bool := (physical_start x <=? b) && (e <=? region_end x).
(** The three parts of a split region. *)
Definition before_stack (b : Z) (x : memory_map_entry) : memory_map_entry :=
  mkEntry (physical_start x) (b - physical_start x) (type x) (attributes x).
Definition stack_part (b e at_ : Z) : memory_map_entry := mkEntry b (e - b) working_stack at_.
Definition after_stack (e at_ : Z) (x : memory_map_entry) : memory_map_entry := mkEntry e (region_end x - e) free at_.

Lemma holds_loop x b e : regular x -> (physical_start x <=? b) && (e <=? u64 (physical_start x + entry_length x)) = holds b e x.
Proof. intros (? & ? & ?). unfold holds, region_end in *. by rewrite u64_id by (unfold is_u64; lia). Qed.

Lemma stack_loop_skip k l1 l2 b e n :
  Forall regular l1 -> Forall (fun x => holds b e x = false) l1 ->
  stack_loop (length l1 + k) 0 b e (mkMap (l1 ++ l2) n) = stack_loop k (length l1) b e (mkMap (l1 ++ l2) n).
Proof.
  intros R H.
  assert (forall p q, l1 = p ++ q -> stack_loop (length q + k) (length p) b e (mkMap (l1 ++ l2) n)
            = stack_loop k (length l1) b e (mkMap (l1 ++ l2) n)) as G; [|by apply (G [] l1)].
  intros p q. revert p. induction q as [|x q IH]; intros p E.
  - subst. by rewrite app_nil_r.
  - cbn [stack_loop length Nat.add].
    assert (entry_at (length p) (mkMap (l1 ++ l2) n) = Ok (x, mkMap (l1 ++ l2) n)) as Ex.
    { subst. rewrite <- (assoc_L (++)). cbn [app]. by apply entry_at_mid. }
    erewrite bind_Ok; [|exact Ex]. cbv beta. subst l1.
    apply Forall_app in R as [_ [Rx _]%Forall_cons]. apply Forall_app in H as [_ [Hx _]%Forall_cons].
    rewrite holds_loop, Hx by done. specialize (IH (p ++ [x])). rewrite <- (assoc_L (++)) in IH. specialize (IH eq_refl).
    by rewrite length_app, Nat.add_1_r in IH.
Qed.

Lemma shift_up_eq ys : forall l1 a b rest n i,
  i = (length l1 + 1 + length ys)%nat ->
  shift_up (length ys) i (mkMap (l1 ++ ys ++ a :: b :: rest) n) = Ok (tt, mkMap (l1 ++ take 2 (ys ++ [a; b]) ++ ys ++ rest) n).
Proof.
  induction ys as [|y ys IH] using rev_ind; intros l1 a b rest n i ->; [done|].
  rewrite length_app, Nat.add_1_r. cbn [shift_up].
  rewrite <- (assoc_L (++)). cbn [app].
  replace (length l1 + 1 + S (length ys) - 2)%nat with (length (l1 ++ ys)) by (rewrite length_app; lia).
  rewrite (assoc_L (++) l1). erewrite bind_Ok; [|by apply entry_at_mid]. cbv beta.
  replace ((l1 ++ ys) ++ y :: a :: b :: rest) with (((l1 ++ ys) ++ [y; a]) ++ b :: rest) by (by rewrite <- !(assoc_L (++))).
  erewrite bind_Ok; [|apply set_entry_mid; rewrite !length_app; cbn; lia]. cbv beta.
  rewrite <- !(assoc_L (++)). cbn [app].
  rewrite IH by (cbn; lia). do 3 f_equal.
  destruct ys as [|y1 [|y2 ys]]; cbn; by rewrite <- ?(assoc_L (++)).
Qed.

(** What the region [x] becomes: without the stack at one of its ends, or in three parts. *)
Definition inside (b e : Z) (x : memory_map_entry) : bool := negb (physical_start x =? b) && negb (region_end x =? e).
Definition carve (b e at1 at2 : Z) (x : memory_map_entry) : list memory_map_entry :=
  if physical_start x =? b then [after_stack e (attributes x) x]
  else if region_end x =? e then [before_stack b x]
  else [before_stack b x; stack_part b e at1; after_stack e at2 x].

Lemma split_entry_eq pre x post p q rest b e :
  regular x -> physical_start x <= b -> b <= e -> e <= region_end x ->
  exists at1 at2, split_entry (length pre) b e (mkMap (pre ++ x :: post ++ p :: q :: rest) (length pre + 1 + length post))
    = Ok (tt, mkMap (pre ++ before_stack b x :: stack_part b e at1 :: after_stack e at2 x :: post ++ rest) (length pre + 2 + length post)).
Proof.
  intros (R1 & R2 & R3) Hb Hbe He. unfold split_entry. run1. cbn [map_size].
  pose proof (shift_up_eq post (pre ++ [x]) p q rest (length pre + 1 + length post) (length pre + 1 + length post + 1)) as E.
  rewrite length_app, <- !(assoc_L (++)) in E. cbn [length app] in E.
  replace (length pre + 1 + length post + 1 - (length pre + 2))%nat with (length post) by lia.
  erewrite bind_Ok; [|apply E; lia]. cbv beta. clear E.
  assert (exists c1 c2, take 2 (post ++ [p; q]) = [c1; c2]) as (c1 & c2 & ->) by (destruct post as [|? [|? ?]]; cbn; eauto).
  exists (attributes c1), (attributes c2). cbn [app].
  erewrite bind_Ok; [|by apply entry_at_mid]. cbv beta.
  replace (pre ++ x :: c1 :: c2 :: post ++ rest) with ((pre ++ [x; c1]) ++ c2 :: post ++ rest) by (by rewrite <- (assoc_L (++))).
  erewrite bind_Ok; [|apply entry_at_mid; rewrite length_app; cbn; lia]. cbv beta.
  erewrite bind_Ok; [|apply set_entry_mid; rewrite length_app; cbn; lia]. cbv beta. rewrite <- (assoc_L (++)). cbn [app].
  lazymatch goal with |- context [pre ++ x :: c1 :: ?t] => replace (pre ++ x :: c1 :: t) with ((pre ++ [x]) ++ c1 :: t) by (by rewrite <- (assoc_L (++))) end.
  erewrite bind_Ok; [|apply entry_at_mid; rewrite length_app; cbn; lia]. cbv beta.
  erewrite bind_Ok; [|apply set_entry_mid; rewrite length_app; cbn; lia]. cbv beta. rewrite <- (assoc_L (++)). cbn [app].
  erewrite bind_Ok; [|by apply set_entry_mid]. cbv beta. rewrite set_size_eq.
  unfold before_stack, stack_part, after_stack, region_end in *. rewrite !u64_id by (unfold is_u64; lia).
  repeat (lia || f_equal).
Qed.

Lemma stack_loop_found pre x post p q rest b e :
  Forall regular pre -> regular x -> Forall (fun y => holds b e y = false) pre ->
  holds b e x = true -> b <= e -> type x = free ->
  exists at1 at2 l', stack_loop (length pre + 1 + length post) 0 b e (mkMap (pre ++ x :: post ++ p :: q :: rest) (length pre + 1 + length post))
    = Ok (tt, mkMap ((pre ++ carve b e at1 at2 x ++ post) ++ l')
                    ((if inside b e x then 2 else 1) + length pre + length post)).
Proof.
  intros Rp Rx Hp Hx Hbe Ht. rewrite <- Nat.add_assoc, stack_loop_skip by done. cbn [stack_loop Nat.add].
  erewrite bind_Ok; [|by apply entry_at_mid]. cbv beta. rewrite holds_loop, Hx by done.
  unfold holds in Hx. apply andb_true_iff in Hx as [H1%Z.leb_le H2%Z.leb_le]. pose proof Rx as (R1 & R2 & R3).
  rewrite bool_decide_true by done. cbn [negb]. unfold inside, carve.
  rewrite (u64_id (physical_start x + entry_length x)) by (unfold is_u64, region_end in *; lia). fold (region_end x).
  destruct (Z.eqb_spec (physical_start x) b) as [E|N]; cbn [negb andb].
  - exists 0, 0, (p :: q :: rest). rewrite (set_entry_mid _ x) by done. rewrite <- !(assoc_L (++)). cbn [app].
    unfold after_stack, region_end in *. rewrite u64_id by (unfold is_u64; lia). rewrite Ht. repeat (lia || f_equal).
  - destruct (Z.eqb_spec (region_end x) e) as [E|N']; cbn [negb andb].
    + exists 0, 0, (p :: q :: rest). rewrite (set_entry_mid _ x) by done. rewrite <- !(assoc_L (++)). cbn [app].
      unfold before_stack, region_end in *. rewrite u64_id by (unfold is_u64; lia). repeat (lia || f_equal).
    + destruct (split_entry_eq pre x post p q rest b e) as (at1 & at2 & E); [done..|].
      exists at1, at2, rest. replace (length pre + S (length post))%nat with (length pre + 1 + length post)%nat by lia. rewrite E. rewrite <- !(assoc_L (++)). cbn [app]. repeat (lia || f_equal).
Qed.

Lemma carve_type b e at1 at2 x a :
  holds b e x = true -> b <= e -> type x = free ->
  type_at (carve b e at1 at2 x) a
  = if (b <=? a) && (a <? e) then if inside b e x then Some working_stack else None
    else type_at [x] a.
Proof.
  unfold holds, carve, inside. intros [H1%Z.leb_le H2%Z.leb_le]%andb_true_iff Hbe Ht.
  destruct (Z.eqb_spec (physical_start x) b) as [E1|N1]; [|destruct (Z.eqb_spec (region_end x) e) as [E2|N2]]; cbn [negb andb];
    rewrite !type_at_cons; unfold covers, type_at, after_stack, before_stack, stack_part, region_end in *; cbn; rewrite Ht;
    repeat lazymatch goal with
    | |- context [Z.leb ?u ?v] => destruct (Z.leb_spec u v)
    | |- context [Z.ltb ?u ?v] => destruct (Z.ltb_spec u v)
    end; cbn; done || lia.
Qed.
Lemma carve_length b e at1 at2 x : length (carve b e at1 at2 x) = if inside b e x then 3%nat else 1%nat.
Proof. unfold carve, inside. by destruct (physical_start x =? b), (region_end x =? e). Qed.

(** The map after merging, with the rest of the array. *)
Lemma merge_live m :
  (map_size m <= length (entries m))%nat ->
  exists r, merge_loop (S (map_size m)) 0 m = Ok (tt, mkMap (merged (live m) ++ r) (length (merged (live m))))
         /\ length (merged (live m) ++ r) = length (entries m).
Proof.
  destruct m as [l n]. unfold live. cbn. intros H.
  destruct (merge_loop_eq (S n) (take n l) [] (drop n l)) as (r & E & L); [rewrite length_take; lia|].
  cbn in E, L. rewrite take_drop, length_take, Nat.min_l in E by done. rewrite take_drop in L. eauto.
Qed.
Lemma live_regular m : Forall regular (live m) -> Forall regular (merged (live m)).
Proof. apply merged_regular. Qed.

Section account.
Context (m : map) (begin_ end_ : Z).
Let b := page_down begin_.
Let e := page_down (u64 (end_ + 4095)).

(** A stack outside of every region leaves the merged map; one in a region that is not free stops the loader. *)
Lemma stack_nowhere :
  (map_size m <= length (entries m))%nat -> Forall regular (live m) -> Forall (fun y => holds b e y = false) (merged (live m)) ->
  exists m', account_for_stack begin_ end_ m = Ok (tt, m') /\ live m' = merged (live m).
Proof.
  intros H R F. destruct (merge_live m H) as (r & E & _). unfold account_for_stack. run1. erewrite bind_Ok; [|exact E]. cbv beta. run1.
  pose proof (stack_loop_skip 0 (merged (live m)) r b e (length (merged (live m))) (live_regular m R) F) as S.
  rewrite Nat.add_0_r in S. eexists. split; [exact S|].
  unfold live at 1. cbn. apply take_app_length.
Qed.
Lemma stack_not_free pre x post :
  (map_size m <= length (entries m))%nat -> Forall regular (live m) -> merged (live m) = pre ++ x :: post ->
  Forall (fun y => holds b e y = false) pre -> holds b e x = true -> type x <> free ->
  exists msg, account_for_stack begin_ end_ m = Err (Panic msg).
Proof.
  intros H R EL F Hx Ht. destruct (merge_live m H) as (r & E & _). apply live_regular in R. rewrite EL in R, E.
  apply Forall_app in R as [Rp [Rx _]%Forall_cons].
  unfold account_for_stack. run1. erewrite bind_Ok; [|exact E]. cbv beta. run1.
  cbn [map_size]. rewrite length_app. cbn [length]. rewrite <- (assoc_L (++)). rewrite stack_loop_skip by done. cbn [stack_loop].
  erewrite bind_Ok; [|by apply entry_at_mid]. cbv beta. fold b e. rewrite holds_loop, Hx, bool_decide_false by done. eauto.
Qed.

Lemma stack_found pre x post :
  (map_size m + 2 <= length (entries m))%nat -> Forall regular (live m) -> merged (live m) = pre ++ x :: post ->
  Forall (fun y => holds b e y = false) pre -> holds b e x = true -> b <= e -> type x = free ->
  exists m' full, account_for_stack begin_ end_ m = Ok (tt, m')
    /\ live m' = take (length (merged (live m)) + if inside b e x then 1 else 0) full
    /\ length full = (length (merged (live m)) + if inside b e x then 2 else 0)%nat
    /\ forall a, type_at full a
       = if (b <=? a) && (a <? e)
         then match type_at pre a with Some t => Some t | None => if inside b e x then Some working_stack else type_at post a end
         else type_at (live m) a.
Proof.
  intros H R EL F Hx Hbe Ht. destruct (merge_live m) as (r & E & L); [lia|]. pose proof (merged_length (live m)) as ML.
  pose proof (live_regular m R) as R'. rewrite EL in R', E, L, ML |- *.
  apply Forall_app in R' as [Rp [Rx _]%Forall_cons].
  assert (length (live m) <= map_size m)%nat as LL by (unfold live; rewrite length_take; lia).
  destruct r as [|p [|q rest]]; [rewrite app_nil_r in L; lia|rewrite length_app in L; cbn in L; lia|].
  destruct (stack_loop_found pre x post p q rest b e) as (at1 & at2 & l' & E'); [done..|].
  exists (mkMap ((pre ++ carve b e at1 at2 x ++ post) ++ l') ((if inside b e x then 2 else 1) + length pre + length post)),
    (pre ++ carve b e at1 at2 x ++ post).
  repeat split.
  - unfold account_for_stack. run1. erewrite bind_Ok; [|exact E]. cbv beta. run1. cbn [map_size]. fold b e.
    rewrite <- (assoc_L (++)), length_mid, length_app. cbn [app].
    replace (S (length pre + length post)) with (length pre + 1 + length post)%nat by lia. exact E'.
  - unfold live. cbn [map_size entries]. rewrite length_mid, length_app.
    replace ((if inside b e x then 2 else 1) + length pre + length post)%nat
      with (S (length pre + length post) + (if inside b e x then 1 else 0))%nat by (case_match; lia).
    rewrite take_app_le; [done|]. rewrite !length_app, carve_length. case_match; lia.
  - rewrite length_mid, !length_app, carve_length. case_match; lia.
  - intros a. rewrite !type_at_app, carve_type by done. rewrite <- (merged_type (live m)), EL by done.
    rewrite type_at_app. change (x :: post) with ([x] ++ post). rewrite type_at_app. by repeat case_match.
Qed.
End account.

(** ** From the firmware's list *)

Lemma fill_eq ds2 : forall ds1 l n,
  (length ds1 + length ds2 <= length l)%nat ->
  fill (length ds2) (length ds1) (ds1 ++ ds2) (mkMap ((translate_entry <$> ds1) ++ drop (length ds1) l) n)
  = Ok (mkMap ((translate_entry <$> ds1 ++ ds2) ++ drop (length ds1 + length ds2) l) n).
Proof.
  induction ds2 as [|d ds2 IH]; intros ds1 l n H; cbn [fill length]; [by rewrite app_nil_r, Nat.add_0_r|].
  rewrite list_lookup_middle by done. cbn [entries map_size].
  cbn in H. destruct (drop (length ds1) l) as [|x l'] eqn:D; [apply (f_equal length) in D; rewrite length_drop in D; cbn in D; lia|].
  destruct (Nat.ltb_spec (length ds1) (length ((translate_entry <$> ds1) ++ x :: l'))) as [_|N];
    [|rewrite length_app, length_fmap in N; cbn in N; lia].
  rewrite insert_app_r_alt, length_fmap, Nat.sub_diag by (by rewrite length_fmap). cbn [insert list_insert].
  specialize (IH (ds1 ++ [d]) l n). rewrite length_app, <- (assoc_L (++)), fmap_app, <- (assoc_L (++)) in IH. cbn [app length fmap list_fmap] in IH.
  replace (drop (length ds1 + 1) l) with l' in IH by (by rewrite <- drop_drop, D).
  rewrite Nat.add_1_r in IH. change (fmap translate_entry [d]) with [translate_entry d] in IH. cbn [app] in IH.
  rewrite IH by lia. by rewrite <- plus_n_Sm.
Qed.

(** The replies of a firmware that reports [ds] and whose list did not outgrow the array. *)
Definition well_served (alloc : Z -> option (list memory_map_entry)) (first second : reply) : Prop :=
  status first = EFI_BUFFER_TOO_SMALL /\ status second = EFI_SUCCESS /\ 0 < descriptor_size first /\ 0 < descriptor_size second
  /\ bytes_used second = descriptor_size second * Z.of_nat (length (descriptors second))
  /\ is_Some (alloc (num_pages (u64 (descriptor_size first * (bytes_used first / descriptor_size first + 10)))))
  /\ exists room, alloc (num_pages (u64 (sizeof_entry * (bytes_used first / descriptor_size first + 10)))) = Some room
     /\ (length (descriptors second) + 2 <= length room)%nat.
Definition descriptor_ok (d : EFI_MEMORY_DESCRIPTOR) : Prop :=
  0 <= efi_physical_start d /\ 0 <= number_of_pages d /\ efi_physical_start d + number_of_pages d * 4096 < 2 ^ 64.

Lemma translate_regular d : descriptor_ok d -> regular (translate_entry d).
Proof. intros (? & ? & ?). unfold regular, region_end, translate_entry. cbn. rewrite u64_id by (unfold is_u64; lia). lia. Qed.

Lemma get_memory_map_eq alloc first second :
  well_served alloc first second ->
  exists m, get_memory_map alloc first second = Ok m /\ live m = translate_entry <$> descriptors second
         /\ (map_size m + 2 <= length (entries m))%nat.
Proof.
  intros (S1 & S2 & D1 & D2 & B & [p Ep] & room & Er & L). unfold get_memory_map, allocate_pages. rewrite S1, S2, !Z.eqb_refl. cbn [negb].
  destruct (Z.eqb_spec (descriptor_size first) 0); [lia|]. destruct (Z.eqb_spec (descriptor_size second) 0); [lia|].
  rewrite Ep, Er, B, Z.mul_comm, Z.div_mul, Nat2Z.id by lia.
  pose proof (fill_eq (descriptors second) [] room (length (descriptors second))) as E. cbn [app length drop Nat.add fmap list_fmap] in E.
  rewrite drop_0 in E. rewrite E by lia. eexists. split; [done|]. unfold live. cbn [map_size entries].
  split; [by rewrite take_app_length' by (by rewrite length_fmap)|]. rewrite length_app, length_fmap, length_drop. lia.
Qed.

(** C33: The map the loader hands over.  The regions the firmware reports, merged, with a stack that
    lies in a free one of them: after [get_memory_map] and [account_for_stack] the stack is marked, or
    gone from the map when it touches an end of its region, and every other address has the type the
    firmware gave it, in a list [full]; when the stack is inside its region, two entries are added but
    the size of the map grows by one, so that the last entry of [full] is not handed over. *)
Theorem map_handed_over alloc first second begin_ end_ pre x post
  (b := page_down begin_) (e := page_down (u64 (end_ + 4095))) (given := translate_entry <$> descriptors second) :
  well_served alloc first second -> Forall descriptor_ok (descriptors second) ->
  merged given = pre ++ x :: post -> Forall (fun y => holds b e y = false) pre ->
  holds b e x = true -> b <= e -> type x = free ->
  exists m m' full, get_memory_map alloc first second = Ok m /\ account_for_stack begin_ end_ m = Ok (tt, m')
    /\ live m' = take (length (merged given) + if inside b e x then 1 else 0) full
    /\ length full = (length (merged given) + if inside b e x then 2 else 0)%nat
    /\ forall a, type_at full a
       = if (b <=? a) && (a <? e)
         then match type_at pre a with Some t => Some t | None => if inside b e x then Some working_stack else type_at post a end
         else type_at given a.
Proof.
  intros W D EL F Hx Hbe Ht. destruct (get_memory_map_eq alloc first second W) as (m & Em & El & L).
  destruct (stack_found m begin_ end_ pre x post) as (m' & full & H); rewrite ?El; try done.
  - apply Forall_fmap. eapply Forall_impl; [exact D|]. apply translate_regular.
  - exists m, m', full. split; [done|]. by rewrite El in H.
Qed.

Definition example_descriptors : list EFI_MEMORY_DESCRIPTOR :=
  [mkDescriptor efi_conventional_memory 0x1000 16; mkDescriptor efi_boot_services_data 0x11000 16;
   mkDescriptor efi_reserved_memory_type 0x80000 4; mkDescriptor efi_conventional_memory 0x100000 256].
Definition example_pages (n : Z) : option (list memory_map_entry) := Some $ replicate (Z.to_nat (n * 4096 / sizeof_entry)) (mkEntry 0 0 unusable 0).
Definition example_first : reply := mkReply EFI_BUFFER_TOO_SMALL 96 48 [].
Definition example_second : reply := mkReply EFI_SUCCESS 192 48 example_descriptors.
Lemma map_handed_over_witness :
  exists m m' full, get_memory_map example_pages example_first example_second = Ok m
    /\ account_for_stack 0x8123 0xbf00 m = Ok (tt, m') /\ live m' = take 4 full /\ length full = 5%nat
    /\ type_at full 0x8800 = Some working_stack /\ type_at full 0x100000 = Some free.
Proof.
  destruct (map_handed_over example_pages example_first example_second 0x8123 0xbf00 []
    (mkEntry 0x1000 0x20000 free 0) (drop 2 (translate_entry <$> example_descriptors))) as (m & m' & full & E1 & E2 & E3 & E4 & E5);
    [split_and!; [reflexivity..|eexists; reflexivity|eexists; split; [reflexivity|apply Nat.leb_le; reflexivity]]|by repeat constructor|reflexivity|constructor|reflexivity|done|reflexivity|].
  exists m, m', full. split_and!; [exact E1|exact E2|exact E3|exact E4|rewrite E5; reflexivity|rewrite E5; reflexivity].
Defined.
