(* ===== verification/UefiConfig.v ===== *)
(** * The configuration file and the video mode of the UEFI loader

    [config::operator[]] of loaders/uefi/config/config.cpp with the parts of
    [std::string_view] it uses, and [choose_mode] and [set_mode] of
    loaders/uefi/efi/video_mode.cpp.  A view is a pair of 64-bit numbers, the offset of
    its first character in the buffer of the file and its size; a read outside of the
    buffer is a fault.  The firmware is a parameter. *)
From S2P Require Import Prelude Text Bytes Pmm UefiMemory.

(** ** [std::string_view] *)

Record view : Type := mkView { vdata : Z; vsize : Z }.
Definition npos : Z := 2 ^ 64 - 1.

Definition char_at (a : Z) : M bytes Z := fun buf =>
  if a <? Z.of_nat (length buf) then match buf !! Z.to_nat a with Some c => Ok (c, buf) | None => Err Fault end else Err Fault.
(** [char_traits::length] *)
Fixpoint traits_length (fuel : nat) (s n : Z) : M bytes Z :=
  match fuel with
  | O => fail NoFuel
  | S f => let* c := char_at s in if c =? 0 then ret n else traits_length f (u64 (s + 1)) (u64 (n + 1))
  end.
Definition view_of_buffer : M bytes view := fun buf => bind (traits_length (S (length buf)) 0 0) (fun n => ret (mkView 0 n)) buf.

Definition remove_prefix (n : Z) (v : view) : view := mkView (u64 (vdata v + n)) (u64 (vsize v - n)).
Definition remove_suffix (n : Z) (v : view) : view := mkView (vdata v) (u64 (vsize v - n)).
Definition sv_substr (v : view) (pos n : Z) : view :=
  let rem := u64 (vsize v - pos) in mkView (u64 (vdata v + pos)) (if n <? rem then n else rem).
Fixpoint sv_find_loop (fuel : nat) (v : view) (stop : Z -> bool) (i : Z) : M bytes Z :=
  match fuel with
  | O => fail NoFuel
  | S f =>
      if i <? vsize v then
        let* c := char_at (u64 (vdata v + i)) in
        if stop c then ret i else sv_find_loop f v stop (u64 (i + 1))
      else ret npos
  end.
Definition sv_find (v : view) (c pos : Z) : M bytes Z := fun buf => sv_find_loop (S (length buf)) v (fun x => x =? c) pos buf.
Definition sv_find_first_not_of (v : view) (c pos : Z) : M bytes Z := fun buf =>
  sv_find_loop (S (length buf)) v (fun x => negb (traits_eq x c)) pos buf.
(** The characters of a view. *)
Definition chars (v : view) : M bytes bytes := fun buf =>
  match read_bytes buf (vdata v) (vsize v) with Ok bs => Ok (bs, buf) | Err e => Err e end.

(** ** [config] *)

(** The [substr] of config.cpp. *)
Definition substr (v : view) (pos num : Z) : view :=
  let v := remove_prefix pos v in
  if negb (num =? npos) then remove_suffix (u64 (vsize v - num)) v else v.
Fixpoint config_loop (fuel : nat) (key : bytes) (config : view) : M bytes view :=
  match fuel with
  | O => fail NoFuel
  | S f =>
      let* pos := sv_find config 10 0 in
      if pos =? npos then panic "Failed to find a value for the key in the config file."
      else
        let line := substr config 0 pos in
        let config := remove_prefix (u64 (pos + 1)) config in
        let* colon := sv_find line 58 0 in
        if colon =? npos then panic "Malformed config file detected!"
        else
          let* name := chars (substr line 0 colon) in
          if sv_eq name key then
            let* start := sv_find_first_not_of line 32 (u64 (colon + 1)) in
            ret (substr line start npos)
          else config_loop f key config
  end.
Definition config_at (key : bytes) : M bytes view := fun buf =>
  bind view_of_buffer (fun config => config_loop (S (length buf)) key config) buf.

(** ** [choose_mode] *)

Fixpoint parse_int_loop (input : bytes) (r : Z) : option Z :=
  match input with
  | [] => Some r
  | c :: input' =>
      if (s8 c <? 48) || (57 <? s8 c) then None
      else
        let new_ret := u32 (r * 10 + (s8 c - 48)) in
        if new_ret <? r then None else parse_int_loop input' new_ret
  end.
Definition parse_int (v : view) : M bytes Z :=
  let* input := chars v in
  match parse_int_loop input 0 with
  | Some r => ret r
  | None => panic "the max-resolution is not a valid unsigned decimal integer that fits in 32 bits!"
  end.
Definition max_resolution : M bytes (Z * Z) :=
  let* preference := config_at (text "max-resolution") in
  let* x_pos := sv_find preference 120 0 in
  if x_pos =? npos then panic "max-resolution does not contain an 'x'!"
  else
    let* h := parse_int (sv_substr preference 0 x_pos) in
    let* v := parse_int (sv_substr preference (u64 (x_pos + 1)) npos) in
    ret (h, v).

Inductive pixel_format_t : Type := pixel_rgb | pixel_bgr | pixel_bit_mask | pixel_blt_only | pixel_format_max.
#[global] Instance pixel_format_eq_dec : EqDecision pixel_format_t.
Proof. solve_decision. Defined.
Record mode_information : Type := mkModeInfo {
  horizontal_resolution : Z; vertical_resolution : Z; pixel_format : pixel_format_t;
  red_mask : Z; green_mask : Z; blue_mask : Z; pixels_per_scan_line : Z }.

(** The loader's state: the file, and which of the firmware's answers are still allocated;
    [info] is the pointer to the last one. *)
Record loader : Type := mkLoader { config_file : bytes; allocated : list nat; answers : nat; info : option nat }.
Abbreviation LM := (M loader).
Definition on_config {A} (f : M bytes A) : LM A := fun s =>
  match f (config_file s) with Ok (a, b) => Ok (a, mkLoader b (allocated s) (answers s) (info s)) | Err e => Err e end.

Section firmware.
(** [query_mode]'s status and answer; what [free_pool] says of memory that is not allocated. *)
Context (max_mode : Z) (query : Z -> Z * mode_information) (free_stale : Z).

Definition query_mode (i : Z) : LM (Z * mode_information) := fun s =>
  let r := query i in
  if r.1 =? EFI_SUCCESS
  then Ok (r, mkLoader (config_file s) (answers s :: allocated s) (S (answers s)) (Some (answers s)))
  else Ok (r, s).
(** [operator delete] *)
Definition delete_info : LM unit := fun s =>
  match info s with
  | None => Ok (tt, s)
  | Some a =>
      if bool_decide (a ∈ allocated s)
      then Ok (tt, mkLoader (config_file s) (filter (fun x => x <> a) (allocated s)) (answers s) (info s))
      else if free_stale =? EFI_SUCCESS then Ok (tt, s) else Err (Panic "Error freeing memory")
  end.

(** What the loop has found. *)
Record choice : Type := mkChoice { preferred_horizontal : Z; preferred_vertical : Z; preferred_index : Z; found_exact_match : bool }.
Definition no_index : Z := 2 ^ 32 - 1.

Definition consider (mh mv i : Z) (m : mode_information) (c : choice) : choice :=
  let h := horizontal_resolution m in
  let v := vertical_resolution m in
  if (mh =? h) && (mv =? v) then mkChoice (preferred_horizontal c) (preferred_vertical c) i true
  else if (preferred_horizontal c <? h) || ((preferred_horizontal c =? h) && (preferred_vertical c <? v))
  then mkChoice h v i (found_exact_match c) else c.
Definition too_large (mh mv : Z) (m : mode_information) : bool :=
  negb ((mh =? horizontal_resolution m) && (mv =? vertical_resolution m))
  && ((mh <? horizontal_resolution m) || (mv <? vertical_resolution m)).
Fixpoint mode_loop (k : nat) (mh mv i : Z) (c : choice) : LM choice :=
  match k with
  | O => ret c
  | S k' =>
      if found_exact_match c then ret c
      else
        let* r := query_mode i in
        if r.1 =? EFI_SUCCESS then
          if bool_decide (pixel_format r.2 = pixel_blt_only) then delete_info ;; mode_loop k' mh mv (i + 1) c
          else if too_large mh mv r.2 then mode_loop k' mh mv (i + 1) c
          else delete_info ;; mode_loop k' mh mv (i + 1) (consider mh mv i r.2 c)
        else delete_info ;; mode_loop k' mh mv (i + 1) c
  end.
(** [present] says whether the firmware has the graphics protocol; the result is the
    index of the mode of a valid [video_mode]. *)
Definition choose_mode (present : bool) : LM (option Z) :=
  if negb present then ret None
  else
    let* hv := on_config max_resolution in
    let* c := mode_loop (Z.to_nat max_mode) hv.1 hv.2 0 (mkChoice 0 0 no_index false) in
    if preferred_index c =? no_index then ret None
    else
      query_mode (preferred_index c) ;;
      let* s := get in
      (* the message about the mode reads the answer *)
      match info s with
      | Some a => if bool_decide (a ∈ allocated s) then delete_info ;; ret (Some (preferred_index c)) else fail Fault
      | None => fail Fault
      end.
End firmware.

(** ** [set_mode] *)

Inductive boot_pixel_format : Type := rgb | bgr | mask.
Record video_mode : Type := mkVideoMode {
  valid : bool; mode_number : Z; framebuffer_base : Z; framebuffer_size : Z; vx : Z; vy : Z; ppl : Z;
  format : boot_pixel_format; masks : Z * Z * Z }.
Definition set_mode (status : Z) (i : mode_information) (base size : Z) (m : video_mode) : res video_mode :=
  if status =? EFI_SUCCESS then
    let done f k := Ok (mkVideoMode (valid m) (mode_number m) base size (horizontal_resolution i) (vertical_resolution i)
                          (pixels_per_scan_line i) f k) in
    match pixel_format i with
    | pixel_rgb => done rgb (masks m)
    | pixel_bgr => done bgr (masks m)
    | pixel_bit_mask => done mask (red_mask i, green_mask i, blue_mask i)
    | pixel_blt_only | pixel_format_max => Err (Panic "Video mode with invalid pixel format chosen!")
    end
  else Ok (mkVideoMode false (mode_number m) (framebuffer_base m) (framebuffer_size m) (vx m) (vy m) (ppl m) (format m) (masks m)).

(** ** [find_acpi_root] *)

Record EFI_GUID : Type := mkGuid { data1 : Z; data2 : Z; data3 : Z; data4 : list Z }.
#[global] Instance guid_eq_dec : EqDecision EFI_GUID.
Proof. solve_decision. Defined.
Definition acpi_guids : list (EFI_GUID * Z) :=
  [(mkGuid 0x8868e871 0xe4f1 0x11d3 [0xbc; 0x22; 0x00; 0x80; 0xc7; 0x3c; 0x88; 0x81], 20);
   (mkGuid 0xeb9d2d30 0x2d88 0x11d3 [0x9a; 0x16; 0x00; 0x90; 0x27; 0x3f; 0xc1; 0x4d], 10)].
Fixpoint find_vendor (g : EFI_GUID) (tables : list (EFI_GUID * Z)) : option Z :=
  match tables with
  | [] => None
  | (g', t) :: tables' => if bool_decide (g' = g) then Some t else find_vendor g tables'
  end.
Fixpoint find_root (guids tables : list (EFI_GUID * Z)) : res (Z * Z) :=
  match guids with
  | [] => Err (Panic "Failed to find ACPI root!")
  | (g, revision) :: guids' => match find_vendor g tables with Some t => Ok (revision, t) | None => find_root guids' tables end
  end.
Definition find_acpi_root (tables : list (EFI_GUID * Z)) : res (Z * Z) := find_root acpi_guids tables.

(** * What is read back

    A configuration file written as lines of a name, a colon, spaces and a value reads
    back line by line; numbers read back from their digits; the mode chosen is the
    largest that the configuration allows. *)

(** ** Views of a part of the buffer *)

Abbreviation size l := (Z.of_nat (length l)).
Definition spans (buf : bytes) (v : view) (s : bytes) : Prop :=
  exists pre post, buf = pre ++ s ++ post /\ v = mkView (size pre) (size s).
Definition fits (buf : bytes) : Prop := size buf < 2 ^ 63.

Lemma spans_chars buf v s : spans buf v s -> chars v buf = Ok (s, buf).
Proof. intros (pre & post & E & ->). unfold chars. cbn. by rewrite (read_at buf pre s post). Qed.
Lemma spans_size buf v s : spans buf v s -> fits buf -> vsize v = size s /\ is_u64 (size s).
Proof. intros (pre & post & E & ->) F. unfold fits, is_u64 in *. subst. rewrite !length_app in F. cbn. lia. Qed.

Lemma char_at_mid pre c post : char_at (size pre) (pre ++ c :: post) = Ok (c, pre ++ c :: post).
Proof.
  unfold char_at. rewrite length_app. cbn [length]. rewrite (proj2 (Z.ltb_lt _ _)) by lia. by rewrite Nat2Z.id, list_lookup_middle.
Qed.
Lemma char_at_view buf v s1 c s2 :
  spans buf v (s1 ++ c :: s2) -> fits buf -> char_at (u64 (vdata v + size s1)) buf = Ok (c, buf).
Proof.
  intros (pre & post & -> & ->) F. unfold fits in F. cbn [vdata]. rewrite !length_app in F. cbn in F.
  rewrite u64_id by (unfold is_u64; lia). replace (size pre + size s1) with (size (pre ++ s1)) by (rewrite length_app; lia).
  replace (pre ++ (s1 ++ c :: s2) ++ post) with ((pre ++ s1) ++ c :: s2 ++ post) by (by rewrite <- !(assoc_L (++))).
  apply char_at_mid.
Qed.

Section search.
Context (buf : bytes) (v : view) (stop : Z -> bool) (F : fits buf).

(** The first character after [s1] that stops the search, if there is one. *)
Lemma sv_find_loop_eq s2 : forall fuel s1,
  spans buf v (s1 ++ s2) -> (length s2 < fuel)%nat ->
  sv_find_loop fuel v stop (size s1) buf
  = Ok (match list_find (fun c => stop c = true) s2 with Some (i, _) => size s1 + Z.of_nat i | None => npos end, buf).
Proof.
  induction s2 as [|c s2 IH]; intros [|fuel] s1 H Hf; [cbn in Hf; lia| |cbn in Hf; lia|]; cbn [sv_find_loop list_find].
  - rewrite app_nil_r in H. apply spans_size in H as [-> _]; [|done]. by rewrite Z.ltb_irrefl.
  - pose proof (spans_size _ _ _ H F) as [E U]. rewrite E, (proj2 (Z.ltb_lt _ _)) by (rewrite length_app; cbn; lia).
    erewrite bind_Ok; [|by eapply char_at_view]. cbv beta. destruct (stop c) eqn:Sc.
    + destruct (decide _) as [_|]; [|done]. by rewrite Z.add_0_r.
    + destruct (decide _) as [|_]; [done|].
      unfold is_u64 in U. rewrite length_app in U. cbn in U. rewrite u64_id by (unfold is_u64; lia).
      specialize (IH fuel (s1 ++ [c])). rewrite <- (assoc_L (++)) in IH. rewrite length_app in IH. cbn [length app] in IH.
      replace (size s1 + 1) with (Z.of_nat (length s1 + 1)) by lia. cbn in Hf. rewrite IH by (done || lia).
      destruct (list_find _ s2) as [[i x]|]; [|done]. cbn. do 2 f_equal. lia.
Qed.
Lemma sv_find_loop_stops s1 mid c s2 :
  spans buf v (s1 ++ mid ++ c :: s2) -> Forall (fun x => stop x = false) mid -> stop c = true ->
  sv_find_loop (S (length buf)) v stop (size s1) buf = Ok (size s1 + size mid, buf).
Proof.
  intros H Hm Hc. rewrite (sv_find_loop_eq (mid ++ c :: s2)); [|done|].
  2:{ destruct H as (pre & post & -> & _). rewrite !length_app. cbn. lia. }
  assert (list_find (fun x => stop x = true) (mid ++ c :: s2) = Some (length mid, c)) as ->; [|done].
  apply list_find_Some. split_and!; [by apply list_lookup_middle|done|].
  intros j y Hj Hl. rewrite lookup_app_l in Hj by done. rewrite Forall_lookup in Hm. by rewrite (Hm j y).
Qed.
Lemma sv_find_loop_none s1 s2 :
  spans buf v (s1 ++ s2) -> Forall (fun x => stop x = false) s2 ->
  sv_find_loop (S (length buf)) v stop (size s1) buf = Ok (npos, buf).
Proof.
  intros H Hm. rewrite (sv_find_loop_eq s2); [|done|].
  2:{ destruct H as (pre & post & -> & _). rewrite !length_app. lia. }
  assert (list_find (fun x => stop x = true) s2 = None) as ->; [|done].
  apply list_find_None. eapply Forall_impl; [exact Hm|]. cbn. by intros x ->.
Qed.
End search.

Lemma spans_prefix buf v s1 s2 : spans buf v (s1 ++ s2) -> fits buf -> spans buf (substr v 0 (size s1)) s1.
Proof.
  intros (pre & post & -> & ->) F. unfold fits in F. rewrite !length_app in F.
  exists pre, (s2 ++ post). split; [by rewrite <- (assoc_L (++))|].
  unfold substr, remove_prefix, remove_suffix, npos. cbn [vdata vsize]. rewrite length_app.
  destruct (Z.eqb_spec (size s1) (2 ^ 64 - 1)); [lia|]. cbn [negb vdata vsize]. rewrite !u64_id; unfold is_u64; try lia. f_equal; lia.
  all: rewrite ?u64_id; unfold is_u64; lia.
Qed.
Lemma spans_suffix buf v s1 s2 : spans buf v (s1 ++ s2) -> fits buf -> spans buf (remove_prefix (size s1) v) s2.
Proof.
  intros (pre & post & -> & ->) F. unfold fits in F. rewrite !length_app in F.
  exists (pre ++ s1), post. split; [by rewrite <- !(assoc_L (++))|].
  unfold remove_prefix. cbn [vdata vsize]. rewrite !length_app. rewrite !u64_id by (unfold is_u64; lia). f_equal; lia.
Qed.
Lemma substr_to_end v n : substr v n npos = remove_prefix n v.
Proof. unfold substr. by rewrite Z.eqb_refl. Qed.

(** ** The file as it is written *)

Record config_line : Type := mkLine { name : bytes; spaces : nat; value_first : Z; value_rest : bytes }.
Definition value (l : config_line) : bytes := value_first l :: value_rest l.
Definition line_body (l : config_line) : bytes := name l ++ 58 :: replicate (spaces l) 32 ++ value l.
Definition line_text (l : config_line) : bytes := line_body l ++ [10].
(** The file. *)
Abbreviation file_text ls := (mbind (M := list) line_text ls).
(** Names have no colon, values do not begin with a space, neither has an end of line or a terminator. *)
Definition line_ok (l : config_line) : Prop :=
  byte_list (line_body l) /\ Forall (fun c => c <> 58) (name l) /\ Forall (fun c => c <> 10 /\ c <> 0) (line_body l) /\ value_first l <> 32.

Lemma line_value_start l buf v rest :
  line_ok l -> fits buf -> spans buf v (line_body l ++ rest) -> 
  sv_find_first_not_of v 32 (size (name l ++ [58])) buf = Ok (size (name l ++ 58 :: replicate (spaces l) 32), buf).
Proof.
  intros (B & _ & _ & N) F H. unfold sv_find_first_not_of, line_body, value in *.
  rewrite (sv_find_loop_stops buf v _ F (name l ++ [58]) (replicate (spaces l) 32) (value_first l) (value_rest l ++ rest)).
  - rewrite !length_app. cbn [length]. do 2 f_equal. lia.
  - rewrite <- !(assoc_L (++)) in *. cbn [app] in *. by rewrite <- !(assoc_L (++)) in H.
  - apply Forall_replicate. unfold traits_eq. done.
  - apply Forall_app in B as [_ [_ [_ [B _]%Forall_cons]%Forall_app]%Forall_cons].
    rewrite traits_eq_bytes by (done || (unfold is_byte; lia)). by destruct (Z.eqb_spec (value_first l) 32).
Qed.

(** One line of the file: its value, or on to the next. *)
Lemma config_step l key rest buf v fuel :
  line_ok l -> fits buf -> spans buf v (line_text l ++ rest) ->
  exists v', spans buf v' rest /\
    if sv_eq (name l) key
    then exists w, config_loop (S fuel) key v buf = Ok (w, buf) /\ chars w buf = Ok (value l, buf)
    else config_loop (S fuel) key v buf = config_loop fuel key v' buf.
Proof.
  intros Hl F H. pose proof Hl as (B & C & N & V).
  assert (spans buf (substr v 0 (size (line_body l))) (line_body l)) as Hb.
  { unfold line_text in H. rewrite <- (assoc_L (++)) in H. by eapply spans_prefix. }
  pose proof (spans_size _ _ _ H F) as [_ U]. unfold is_u64 in U. rewrite length_app in U.
  exists (remove_prefix (size (line_text l)) v). split; [by eapply spans_suffix|].
  cbn [config_loop]. unfold sv_find.
  erewrite bind_Ok; [|apply (sv_find_loop_stops buf v _ F [] (line_body l) 10 rest)]; cycle 1.
  { unfold line_text in H. by rewrite <- (assoc_L (++)) in H. }
  { eapply Forall_impl; [exact N|]. cbn. intros c [? _]. by apply Z.eqb_neq. }
  { done. }
  cbv beta. cbn [length]. rewrite Z.add_0_l. unfold line_text in U. rewrite length_app in U. cbn in U.
  destruct (Z.eqb_spec (size (line_body l)) npos) as [X|_]; [unfold npos in X; lia|].
  assert (size (line_body l) + 1 = size (line_text l)) as -> by (unfold line_text; rewrite length_app; cbn; lia).
  erewrite bind_Ok; [|apply (sv_find_loop_stops buf _ _ F [] (name l) 58 (replicate (spaces l) 32 ++ value l))]; cycle 1.
  { exact Hb. }
  { eapply Forall_impl; [exact C|]. cbn. intros c ?. by apply Z.eqb_neq. }
  { done. }
  cbv beta. cbn [length]. rewrite Z.add_0_l.
  assert (size (name l) + 1 + size (value l) <= size (line_body l)) as L by (unfold line_body; rewrite length_app; cbn; rewrite length_app; cbn; lia).
  destruct (Z.eqb_spec (size (name l)) npos) as [X|_]; [unfold npos in X; lia|].
  erewrite bind_Ok; [|apply spans_chars; eapply spans_prefix; [exact Hb|done]]. cbv beta.
  destruct (sv_eq (name l) key).
  - rewrite !u64_id by (unfold is_u64; lia).
    replace (size (name l) + 1) with (size (name l ++ [58])) by (rewrite length_app; cbn; lia).
    erewrite bind_Ok; [|eapply (line_value_start l _ _ []); [done|done|by rewrite app_nil_r]]. cbv beta.
    rewrite substr_to_end. eexists. split; [done|]. apply spans_chars. eapply spans_suffix; [|done].
    unfold line_body in Hb. by rewrite <- (assoc_L (++)), <- app_comm_cons.
  - by rewrite u64_id by (unfold is_u64, line_text; rewrite length_app; cbn; lia).
Qed.

Lemma traits_length_eq s2 junk : forall s1 fuel buf,
  buf = s1 ++ s2 ++ 0 :: junk -> fits buf -> Forall (fun c => c <> 0) s2 -> (length s2 < fuel)%nat ->
  traits_length fuel (size s1) (size s1) buf = Ok (size (s1 ++ s2), buf).
Proof.
  induction s2 as [|c s2 IH]; intros s1 [|fuel] buf E F N Hf; [cbn in Hf; lia| |cbn in Hf; lia|]; cbn [traits_length].
  - subst. erewrite bind_Ok; [|apply char_at_mid]. by rewrite app_nil_r.
  - apply Forall_cons in N as [Nc N]. subst buf. erewrite bind_Ok; [|apply char_at_mid]. cbv beta.
    destruct (Z.eqb_spec c 0); [done|]. unfold fits in F. rewrite !length_app in F. cbn in F. rewrite ?length_app in F. cbn in F.
    rewrite !u64_id by (unfold is_u64; lia).
    specialize (IH (s1 ++ [c]) fuel (s1 ++ (c :: s2) ++ 0 :: junk)). rewrite <- !(assoc_L (++)) in IH. rewrite length_app in IH. cbn [length app] in IH.
    replace (size s1 + 1) with (Z.of_nat (length s1 + 1)) by lia. cbn in Hf. apply IH; [done| |done|lia].
    unfold fits. rewrite length_app. cbn. rewrite length_app. cbn. lia.
Qed.

Lemma config_loop_eq key : forall ls fuel buf v,
  Forall line_ok ls -> fits buf -> spans buf v (file_text ls) -> (length ls < fuel)%nat ->
  match list_find (fun l => sv_eq (name l) key = true) ls with
  | Some (_, l) => exists w, config_loop fuel key v buf = Ok (w, buf) /\ chars w buf = Ok (value l, buf)
  | None => exists msg, config_loop fuel key v buf = Err (Panic msg)
  end.
Proof.
  induction ls as [|l ls IH]; intros [|fuel] buf v Hl F H Hf; [cbn in Hf; lia| |cbn in Hf; lia|].
  - cbn [list_find config_loop]. unfold sv_find. erewrite bind_Ok; [|apply (sv_find_loop_none buf v _ F [] []); [exact H|constructor]].
    eauto.
  - apply Forall_cons in Hl as [Hl Hls]. destruct (config_step l key (file_text ls) buf v fuel Hl F H) as (v' & H' & S).
    cbn [list_find]. destruct (sv_eq (name l) key).
    + by destruct (decide _).
    + destruct (decide _) as [|_]; [done|]. rewrite S. cbn in Hf. specialize (IH fuel buf v' Hls F H').
      destruct (list_find _ ls) as [[i l']|]; cbn; apply IH; lia.
Qed.
Lemma lines_length (ls : list config_line) : (length ls <= length (file_text ls))%nat.
Proof. induction ls as [|l ls IH]; [done|]. rewrite bind_cons, length_app. assert (1 <= length (line_text l))%nat by (unfold line_text; rewrite length_app; cbn; lia). cbn. lia. Qed.

Lemma config_at_eq ls key junk (buf := (file_text ls) ++ 0 :: junk) :
  Forall line_ok ls -> fits buf ->
  match list_find (fun l => sv_eq (name l) key = true) ls with
  | Some (_, l) => exists w, config_at key buf = Ok (w, buf) /\ chars w buf = Ok (value l, buf)
  | None => exists msg, config_at key buf = Err (Panic msg)
  end.
Proof.
  intros Hl F. unfold config_at, view_of_buffer.
  assert (Forall (fun c => c <> 0) (file_text ls)) as N.
  { clear F. induction Hl as [|l ls (_ & _ & N & _) _ IH]; [constructor|]. rewrite bind_cons. apply Forall_app. split; [|done].
    apply Forall_app. split; [|by repeat constructor]. eapply Forall_impl; [exact N|]. by intros c [_ ?]. }
  assert (length (file_text ls) < S (length buf))%nat as L by (unfold buf; rewrite length_app; lia).
  pose proof (traits_length_eq (file_text ls) junk [] (S (length buf)) buf eq_refl F N L) as E. cbn [length app] in E.
  assert (spans buf (mkView 0 (size (file_text ls))) (file_text ls)) as V by (by exists [], (0 :: junk)).
  pose proof (config_loop_eq key ls (S (length buf)) buf _ Hl F V) as H. pose proof (lines_length ls).
  destruct (list_find _ ls) as [[i l]|]; (destruct H as [w H]; [lia|]); exists w;
    (erewrite bind_Ok; [exact H|]); (erewrite bind_Ok; [|exact E]); done.
Qed.

(** ** Numbers *)

Definition digits_value (r : Z) (ds : bytes) : Z := fold_left (fun r c => r * 10 + (c - 48)) ds r.
Definition is_digit (c : Z) : Prop := 48 <= c <= 57.
Lemma digits_value_le ds : forall r, 0 <= r -> Forall is_digit ds -> r <= digits_value r ds.
Proof.
  induction ds as [|c ds IH]; intros r Hr H; [done|]. apply Forall_cons in H as [Hc H]. unfold is_digit in Hc.
  cbn. etrans; [|apply IH; [lia|done]]. lia.
Qed.
(** Digits are read as the number they write, when it fits in 32 bits. *)
Lemma parse_int_loop_eq ds : forall r,
  0 <= r -> Forall is_digit ds -> digits_value r ds < 2 ^ 32 -> parse_int_loop ds r = Some (digits_value r ds).
Proof.
  induction ds as [|c ds IH]; intros r Hr H Hv; [done|]. apply Forall_cons in H as [Hc H]. unfold is_digit in Hc.
  cbn [digits_value fold_left] in Hv. fold (digits_value (r * 10 + (c - 48)) ds) in Hv.
  pose proof (digits_value_le ds (r * 10 + (c - 48)) ltac:(lia) H).
  cbn [parse_int_loop]. rewrite s8_small by lia. rewrite !(proj2 (Z.ltb_ge _ _)) by lia. cbn [orb].
  unfold u32, wrapu. rewrite Z.mod_small by lia. rewrite (proj2 (Z.ltb_ge _ _)) by lia. by rewrite IH by (done || lia).
Qed.
(** A larger number can be taken for a smaller one. *)
Example large_number_accepted : parse_int_loop (text "5000000000") 0 = Some 705032704.
Proof. reflexivity. Qed.
Example no_digits_is_zero : parse_int_loop [] 0 = Some 0.
Proof. reflexivity. Qed.

(** ** The resolution of the configuration *)

Lemma chars_spans buf v s : chars v buf = Ok (s, buf) -> spans buf v s.
Proof.
  unfold chars. destruct v as [d n]. cbn. destruct (read_bytes buf d n) as [b|] eqn:E; [|done]. intros [= ->].
  pose proof (read_bytes_inv _ _ _ _ E) as (H1 & H2 & H3 & H4). unfold read_bytes in E. case_match; [|done]. injection E as E.
  exists (take (Z.to_nat d) buf), (drop (Z.to_nat n) (drop (Z.to_nat d) buf)).
  rewrite <- E at 1. rewrite take_drop, take_drop. split; [done|]. rewrite length_take, Nat.min_l, Z2Nat.id by lia. by rewrite H4.
Qed.
Lemma sv_substr_prefix buf v s1 s2 : spans buf v (s1 ++ s2) -> fits buf -> spans buf (sv_substr v 0 (size s1)) s1.
Proof.
  intros (pre & post & -> & ->) F. unfold fits in F. rewrite !length_app in F. exists pre, (s2 ++ post).
  split; [by rewrite <- (assoc_L (++))|]. unfold sv_substr. cbn [vdata vsize]. rewrite length_app, !u64_id by (unfold is_u64; lia).
  f_equal; [lia|]. destruct (Z.ltb_spec (size s1) (Z.of_nat (length s1 + length s2) - 0)); lia.
Qed.
Lemma sv_substr_suffix buf v s1 s2 : spans buf v (s1 ++ s2) -> fits buf -> spans buf (sv_substr v (size s1) npos) s2.
Proof.
  intros (pre & post & -> & ->) F. unfold fits in F. rewrite !length_app in F. exists (pre ++ s1), post.
  split; [by rewrite <- !(assoc_L (++))|]. unfold sv_substr, npos. cbn [vdata vsize]. rewrite !length_app, !u64_id by (unfold is_u64; lia).
  f_equal; [lia|]. destruct (Z.ltb_spec (2 ^ 64 - 1) (Z.of_nat (length s1 + length s2) - size s1)); lia.
Qed.

(** A decimal number that fits in 32 bits, and a value [<h>x<v>]. *)
Definition decimal (ds : bytes) (n : Z) : Prop := Forall is_digit ds /\ digits_value 0 ds = n /\ n < 2 ^ 32.
Lemma parse_int_eq buf v ds n : spans buf v ds -> decimal ds n -> parse_int v buf = Ok (n, buf).
Proof.
  intros H (D & <- & L). unfold parse_int. erewrite bind_Ok; [|by apply spans_chars]. cbv beta. by rewrite parse_int_loop_eq by done.
Qed.
Lemma max_resolution_eq ls junk l i ds1 ds2 h v (buf := (file_text ls) ++ 0 :: junk) :
  Forall line_ok ls -> fits buf -> list_find (fun l => sv_eq (name l) (text "max-resolution") = true) ls = Some (i, l) ->
  value l = ds1 ++ 120 :: ds2 -> decimal ds1 h -> decimal ds2 v -> max_resolution buf = Ok ((h, v), buf).
Proof.
  intros Hl F Hf Hv D1 D2. pose proof (config_at_eq ls (text "max-resolution") junk Hl F) as H. rewrite Hf in H.
  destruct H as (w & E & C). apply chars_spans in C. fold buf in C, E. rewrite Hv in C.
  unfold max_resolution. erewrite bind_Ok; [|exact E]. cbv beta. unfold sv_find.
  erewrite bind_Ok; [|apply (sv_find_loop_stops buf w _ F [] ds1 120 ds2 C); [|done]]; cycle 1.
  { eapply Forall_impl; [exact (proj1 D1)|]. intros c Hc. unfold is_digit in Hc. cbn. apply Z.eqb_neq. lia. }
  cbv beta. cbn [length]. rewrite Z.add_0_l. pose proof (spans_size _ _ _ C F) as [_ U]. unfold is_u64 in U. rewrite length_app in U. cbn in U.
  assert (size ds1 < 2 ^ 63) as B.
  { destruct C as (pre & post & Eb & _). unfold fits in F. rewrite Eb, !length_app in F. lia. }
  destruct (Z.eqb_spec (size ds1) npos) as [X|_]; [unfold npos in X; lia|].
  erewrite bind_Ok; [|eapply parse_int_eq; [|exact D1]; by eapply sv_substr_prefix]. cbv beta.
  rewrite u64_id by (unfold is_u64; lia). replace (size ds1 + 1) with (size (ds1 ++ [120])) by (rewrite length_app; cbn; lia).
  erewrite bind_Ok; [|eapply parse_int_eq; [|exact D2]; eapply sv_substr_suffix; [by rewrite <- (assoc_L (++))|done]]. done.
Qed.

(** ** The best mode *)

Section modes.
Context (max_mode : Z) (query : Z -> Z * mode_information) (free_stale mh mv : Z).
Context (Hmax : 0 <= max_mode < 2 ^ 32).
Context (Hres : forall i, 0 <= horizontal_resolution (query i).2 /\ 0 <= vertical_resolution (query i).2).
(** No answer fails, or the firmware accepts to free the last answer again. *)
Context (Hfree : free_stale = EFI_SUCCESS \/ forall i, 0 <= i < max_mode -> (query i).1 = EFI_SUCCESS).

Definition resolution (i : Z) : Z * Z := (horizontal_resolution (query i).2, vertical_resolution (query i).2).
Definition lex_le (a b : Z * Z) : Prop := a.1 < b.1 \/ a.1 = b.1 /\ a.2 <= b.2.
(** A mode the loader may use. *)
Definition candidate (i : Z) : Prop :=
  0 <= i < max_mode /\ (query i).1 = EFI_SUCCESS /\ pixel_format (query i).2 <> pixel_blt_only
  /\ (resolution i).1 <= mh /\ (resolution i).2 <= mv.

Definition pass (i : Z) (c : choice) : choice :=
  if found_exact_match c then c
  else if ((query i).1 =? EFI_SUCCESS) && negb (bool_decide (pixel_format (query i).2 = pixel_blt_only)) && negb (too_large mh mv (query i).2)
  then consider mh mv i (query i).2 c else c.
Fixpoint passes (k : nat) (i : Z) (c : choice) : choice :=
  match k with O => c | S k' => passes k' (i + 1) (pass i c) end.

Lemma delete_fresh s : forall a, info s = Some a -> a ∈ allocated s -> exists s', delete_info free_stale s = Ok (tt, s') /\ config_file s' = config_file s.
Proof. intros a E H. unfold delete_info. rewrite E, bool_decide_true by done. eauto. Qed.
Lemma delete_any s : free_stale = EFI_SUCCESS -> exists s', delete_info free_stale s = Ok (tt, s') /\ config_file s' = config_file s.
Proof. intros E. unfold delete_info. rewrite E. destruct (info s); [|by eauto]. rewrite Z.eqb_refl. case_bool_decide; eauto. Qed.
Lemma passes_found k : forall i c, found_exact_match c = true -> passes k i c = c.
Proof. induction k as [|k IH]; intros i c H; [done|]. cbn. unfold pass at 1. rewrite H. by apply IH. Qed.

Lemma mode_loop_passes k : forall i c s,
  0 <= i -> i + Z.of_nat k <= max_mode ->
  exists s', mode_loop query free_stale k mh mv i c s = Ok (passes k i c, s') /\ config_file s' = config_file s.
Proof.
  induction k as [|k IH]; intros i c s Hi Hk; cbn [mode_loop]; [by exists s|].
  destruct (found_exact_match c) eqn:Fc; [exists s; by rewrite passes_found|].
  cbn [passes]. unfold pass at 1. rewrite Fc. unfold query_mode, bind at 1.
  destruct (Z.eqb_spec (query i).1 EFI_SUCCESS) as [E|N]; cbn [andb].
  - set (s1 := mkLoader _ _ _ _). rewrite E, Z.eqb_refl.
    destruct (delete_fresh s1 (answers s)) as (s2 & Ed & Ec); [done|cbn; left|].
    case_bool_decide; cbn [negb andb].
    + erewrite bind_Ok; [|exact Ed]. destruct (IH (i + 1) c s2) as (s3 & E3 & C3); [lia|lia|]. exists s3. by rewrite E3, C3, Ec.
    + destruct (too_large mh mv (query i).2); cbn [negb andb].
      * destruct (IH (i + 1) c s1) as (s3 & E3 & C3); [lia|lia|]. exists s3. by rewrite E3, C3.
      * erewrite bind_Ok; [|exact Ed]. destruct (IH (i + 1) (consider mh mv i (query i).2 c) s2) as (s3 & E3 & C3); [lia|lia|].
        exists s3. by rewrite E3, C3, Ec.
  - destruct Hfree as [Hs|Ha]; [|by destruct N; apply Ha; lia]. destruct (delete_any s Hs) as (s2 & Ed & Ec).
    rewrite (proj2 (Z.eqb_neq _ _)) by done. erewrite bind_Ok; [|exact Ed].
    destruct (IH (i + 1) c s2) as (s3 & E3 & C3); [lia|lia|]. exists s3. by rewrite E3, C3, Ec.
Qed.

(** What holds when the modes before [i] have been looked at. *)
Definition first_with (r : Z * Z) (n idx : Z) : Prop :=
  candidate idx /\ idx < n /\ resolution idx = r /\ forall j, candidate j -> j < n -> resolution j = r -> idx <= j.
Definition good (i : Z) (c : choice) : Prop :=
  if found_exact_match c then first_with (mh, mv) i (preferred_index c)
  else (forall j, candidate j -> j < i -> lex_le (resolution j) (preferred_horizontal c, preferred_vertical c) /\ resolution j <> (mh, mv))
    /\ (preferred_index c = no_index /\ preferred_horizontal c = 0 /\ preferred_vertical c = 0
        \/ first_with (preferred_horizontal c, preferred_vertical c) i (preferred_index c)).

Lemma considered i :
  0 <= i < max_mode ->
  ((query i).1 =? EFI_SUCCESS) && negb (bool_decide (pixel_format (query i).2 = pixel_blt_only)) && negb (too_large mh mv (query i).2) = true <-> candidate i.
Proof.
  intros Hi. unfold candidate, resolution, too_large. cbn [fst snd].
  rewrite !andb_true_iff, !negb_true_iff, Z.eqb_eq, bool_decide_eq_false, andb_false_iff, negb_false_iff, andb_true_iff, orb_false_iff, !Z.eqb_eq, !Z.ltb_ge.
  split; [intros [[E P] T]; split_and!; try done; lia|].
  intros (_ & E & P & Th & Tv). split_and!; [done|done|by right].
Qed.
Lemma first_with_weaken r i n : first_with r i n -> first_with r (i + 1) n.
Proof.
  intros (C & L & R & M). split_and!; [done|lia|done|]. intros j Cj Hj Rj.
  destruct (Z.eq_dec j i) as [->|]; [lia|]. apply M; [done|lia|done].
Qed.

Lemma pass_good i c : 0 <= i < max_mode -> good i c -> good (i + 1) (pass i c).
Proof.
  intros Hi G. unfold good, pass in *. destruct (found_exact_match c) eqn:Fc; [rewrite Fc; by apply first_with_weaken|].
  destruct G as [G1 G2]. destruct (_ && _) eqn:Cd.
  - apply considered in Cd; [|done]. unfold consider. pose proof (Hres i) as [Rh Rv].
    destruct (Z.eqb_spec mh (horizontal_resolution (query i).2)) as [Eh|Nh];
    [destruct (Z.eqb_spec mv (vertical_resolution (query i).2)) as [Ev|Nv]|]; cbn [andb].
    { cbn. split_and!; [done|lia|unfold resolution; congruence|]. intros j Cj Hj Rj.
      destruct (Z.eq_dec j i) as [->|]; [lia|]. by destruct (G1 j) as [_ []]; [done|lia|]. }
    all: assert (resolution i <> (mh, mv)) as Nr by (unfold resolution; congruence).
    all: destruct (_ || _) eqn:B; cbn; rewrite ?Fc.
    1, 3: split; [|right].
    1, 3: intros j Cj Hj; destruct (Z.eq_dec j i) as [->|]; [split; [right; unfold resolution; cbn; lia|done]|];
      destruct (G1 j) as [L N]; [done|lia|]; split; [|done]; revert L B; unfold lex_le; cbn;
      rewrite orb_true_iff, andb_true_iff, !Z.ltb_lt, Z.eqb_eq; lia.
    1, 2: split_and!; [done|lia|done|]; intros j Cj Hj Rj; destruct (Z.eq_dec j i) as [->|]; [lia|]; exfalso;
      destruct (G1 j) as [L _]; [done|lia|]; revert L B; rewrite Rj; unfold lex_le; cbn;
      rewrite orb_true_iff, andb_true_iff, !Z.ltb_lt, Z.eqb_eq; lia.
    all: split; [|destruct G2 as [G2|G2]; [by left|right; by apply first_with_weaken]].
    all: intros j Cj Hj; destruct (Z.eq_dec j i) as [->|]; [|by apply G1; [done|lia]]; split; [|done]; revert B; unfold lex_le, resolution; cbn;
      rewrite orb_false_iff, andb_false_iff, !Z.ltb_ge, Z.eqb_neq; lia.
  - assert (~ candidate i) as Nc by (rewrite <- considered by done; by rewrite Cd). rewrite Fc. split.
    + intros j Cj Hj. destruct (Z.eq_dec j i) as [->|]; [done|]. apply G1; [done|lia].
    + destruct G2 as [G2|G2]; [by left|]. right. by apply first_with_weaken.
Qed.
Lemma passes_good k : forall i c, 0 <= i -> i + Z.of_nat k <= max_mode -> good i c -> good (i + Z.of_nat k) (passes k i c).
Proof.
  induction k as [|k IH]; intros i c Hi Hk G; [by rewrite Z.add_0_r|]. cbn [passes].
  replace (i + Z.of_nat (S k)) with (i + 1 + Z.of_nat k) by lia. apply IH; [lia|lia|]. apply pass_good; [lia|done].
Qed.

(** The best: the first of the largest. *)
Definition best (i : Z) : Prop :=
  candidate i /\ forall j, candidate j -> lex_le (resolution j) (resolution i) /\ (resolution j = resolution i -> i <= j).
Lemma good_none c : good max_mode c -> preferred_index c = no_index -> forall j, candidate j -> resolution j = (0, 0) /\ resolution j <> (mh, mv).
Proof.
  unfold good. intros G E j Cj. assert (forall r, ~ first_with r max_mode (preferred_index c)) as N.
  { intros r (_ & L & _). rewrite E in L. unfold no_index in L. lia. }
  destruct (found_exact_match c); [by apply N in G|]. destruct G as [G [(_ & Eh & Ev)|F]]; [|by apply N in F].
  destruct (G j Cj) as [L R]; [unfold candidate in Cj; lia|]. split; [|done]. pose proof (Hres j).
  rewrite Eh, Ev in L. revert L. unfold lex_le, resolution. cbn. intros L. f_equal; lia.
Qed.
Lemma good_some c : good max_mode c -> preferred_index c <> no_index -> best (preferred_index c).
Proof.
  unfold good, best. intros G N. assert (forall j, candidate j -> j < max_mode) as B by (unfold candidate; lia).
  destruct (found_exact_match c).
  - destruct G as (C & _ & R & F). split; [done|]. intros j Cj. rewrite R. split; [|by apply F; auto].
    unfold lex_le. unfold candidate in Cj. cbn [fst snd]. lia.
  - destruct G as [G [(E & _)|(C & _ & R & F)]]; [done|]. split; [done|]. intros j Cj. rewrite R.
    split; [by apply G; auto|by apply F; auto].
Qed.
Lemma choose_mode_eq s hv :
  max_resolution (config_file s) = Ok (hv, config_file s) -> hv = (mh, mv) ->
  exists r s', choose_mode max_mode query free_stale true s = Ok (r, s')
    /\ match r with
       | Some i => best i
       | None => forall j, candidate j -> resolution j = (0, 0) /\ resolution j <> (mh, mv)
       end.
Proof.
  intros Hc ->. unfold choose_mode. cbn [negb].
  assert (on_config max_resolution s = Ok ((mh, mv), s)) as Ec by (unfold on_config; rewrite Hc; by destruct s).
  erewrite bind_Ok; [|exact Ec]. cbv beta. cbn [fst snd].
  set (c0 := mkChoice 0 0 no_index false).
  destruct (mode_loop_passes (Z.to_nat max_mode) 0 c0 s) as (s1 & E1 & C1); [lia|lia|].
  pose proof (passes_good (Z.to_nat max_mode) 0 c0 ltac:(lia) ltac:(lia)) as G.
  rewrite Z2Nat.id, Z.add_0_l in G by lia. erewrite bind_Ok; [|exact E1]. cbv beta.
  set (c := passes _ 0 c0) in *. assert (good max_mode c) as G' by (apply G; split; [unfold candidate; lia|by left]).
  destruct (Z.eqb_spec (preferred_index c) no_index) as [E|N].
  - exists None, s1. split; [done|]. by apply (good_none c).
  - pose proof (good_some c G' N) as B. exists (Some (preferred_index c)).
    pose proof (proj1 (proj2 (proj1 B))) as Q. unfold query_mode, bind at 1. rewrite Q, Z.eqb_refl.
    unfold bind at 1, get. cbn [info allocated answers]. rewrite bool_decide_true by left.
    set (s2 := mkLoader _ _ _ _). destruct (delete_fresh s2 (answers s1)) as (s3 & E3 & _); [done|left|].
    exists s3. split; [|done]. erewrite bind_Ok; [|exact E3]. done.
Qed.
End modes.

(** The mode the loader chooses.  The file holds lines as [line_text] writes them, the first of
    which that names the key gives the largest resolution allowed as two decimal numbers; the loader
    then reads the file, asks the firmware for its modes and returns: a mode that can be used
    and is allowed, of the largest width, then of the largest height, and the first such; it goes
    without graphics only if no mode that can be used is allowed, but for modes of size zero. *)
Theorem mode_chosen ls junk l i ds1 ds2 h v max_mode query free_stale s :
  config_file s = (file_text ls) ++ 0 :: junk -> Forall line_ok ls -> fits (config_file s) ->
  list_find (fun l => sv_eq (name l) (text "max-resolution") = true) ls = Some (i, l) ->
  value l = ds1 ++ 120 :: ds2 -> decimal ds1 h -> decimal ds2 v ->
  0 <= max_mode < 2 ^ 32 ->
  (forall i, 0 <= horizontal_resolution (query i).2 /\ 0 <= vertical_resolution (query i).2) ->
  free_stale = EFI_SUCCESS \/ (forall i, 0 <= i < max_mode -> (query i).1 = EFI_SUCCESS) ->
  exists r s', choose_mode max_mode query free_stale true s = Ok (r, s')
    /\ match r with
       | Some n => best max_mode query h v n
       | None => forall j, candidate max_mode query h v j -> resolution query j = (0, 0) /\ resolution query j <> (h, v)
       end.
Proof.
  intros Es Hl F Hf Hv D1 D2 Hm Hr Hs. rewrite Es in F.
  eapply choose_mode_eq; [done|done|done| |done]. rewrite Es. by eapply max_resolution_eq.
Qed.

(** The configuration the project ships, on a firmware of four modes. *)
Definition shipped_line (k v : string) : config_line :=
  match text v with c :: r => mkLine (text k) 1 c r | [] => mkLine (text k) 1 0 [] end.
Definition shipped_config : list config_line :=
  [shipped_line "kernel" "\reaver\kernel.img"; shipped_line "initrd" "\reaver\initrd.img"; shipped_line "max-resolution" "1920x1080"].
Definition example_modes (i : Z) : Z * mode_information :=
  let mode h v f := mkModeInfo h v f 0 0 0 h in
  (EFI_SUCCESS,
   if i =? 0 then mode 640 480 pixel_bgr else if i =? 1 then mode 1600 1200 pixel_bgr
   else if i =? 2 then mode 1280 1024 pixel_bgr else mode 1280 720 pixel_rgb).
Definition example_loader : loader := mkLoader ((file_text shipped_config) ++ [0]) [] 0 None.
Lemma mode_chosen_witness :
  exists r s', choose_mode 4 example_modes 2 true example_loader = Ok (r, s')
    /\ match r with
       | Some n => best 4 example_modes 1920 1080 n
       | None => forall j, candidate 4 example_modes 1920 1080 j -> resolution example_modes j = (0, 0) /\ resolution example_modes j <> (1920, 1080)
       end.
Proof.
  apply (mode_chosen shipped_config [] (shipped_line "max-resolution" "1920x1080") 2 (text "1920") (text "1080")); try done.
  - apply (bool_decide_unpack _). vm_compute. exact I.
  - split_and!; [|done|done]. unfold is_digit. by repeat constructor.
  - split_and!; [|done|done]. unfold is_digit. by repeat constructor.
  - intros i. unfold example_modes. cbn. repeat case_match; cbn; lia.
  - by right.
Defined.
Example mode_chosen_value : exists s', choose_mode 4 example_modes 2 true example_loader = Ok (Some 2, s').
Proof. eexists. vm_compute. reflexivity. Qed.

(** A query that fails after one that succeeded frees the same answer twice. *)
Example failed_query_frees_twice :
  choose_mode 2 (fun i => (i, (example_modes i).2)) 2 true example_loader = Err (Panic "Error freeing memory").
Proof. vm_compute. reflexivity. Qed.
(** A key without a value reads as its line, with the end of the one before. *)
Example empty_value_reads_back : forall w, config_at (text "b") (text "a: 1
b:
" ++ [0]) = Ok (w, text "a: 1
b:
" ++ [0]) -> chars w (text "a: 1
b:
" ++ [0]) = Ok (text "
b:", text "a: 1
b:
" ++ [0]).
Proof. vm_compute. intros w [= <-]. reflexivity. Qed.
(** A name matches every key it begins. *)
Example prefix_name_matches : sv_eq (text "max") (text "max-resolution") = true.
Proof. reflexivity. Qed.

(** A mode that is chosen can be set, when its format is one of the firmware's. *)
Lemma chosen_mode_set max_mode query h v n status base size m :
  best max_mode query h v n -> pixel_format (query n).2 <> pixel_format_max -> exists m', set_mode status (query n).2 base size m = Ok m'.
Proof.
  intros [(_ & _ & P & _) _] N. unfold set_mode. destruct (status =? EFI_SUCCESS); [|by eauto]. destruct (pixel_format (query n).2); eauto; done.
Qed.
