(* ===== verification/UefiPaging.v ===== *)
(** * The page tables the UEFI loader builds: loaders/uefi/cpu/amd64/paging.cpp

    Tables are allocated by the code that stores them in an entry, and nowhere else, so
    that they form a tree: an entry that is present leads to its own table or to a page.
    A page found where a table is looked for is a fault, and so is an entry past the end
    of a table. *)
From S2P Require Import Prelude.

Inductive entry : Type :=
| Absent
| Page (address : Z)
| Table (entries : list entry).

(** The fields of a fresh table. *)
Definition empty_table : list entry := replicate 512 Absent.
Definition entry_size (I : nat) : Z := Z.shiftl 1 (Z.of_nat I * 9 + 3).
Definition table_index (I : nat) (virt : Z) : Z := Z.land (Z.shiftr virt (Z.of_nat I * 9 + 3)) 511.
(** The end of the part of a range that one entry maps. *)
Definition next_end (I : nat) (virt_start virt_end : Z) : Z :=
  let e := Z.land (u64 (virt_start + entry_size I)) (not64 (entry_size I - 1)) in
  if (u64 (e - 1) <? virt_end) && negb (e =? 0) then e else virt_end.
(** The 40 bits of the address of an entry. *)
Definition page_of (phys : Z) : Z := Z.land (Z.shiftr phys 12) (2 ^ 40 - 1).

Section level.
Context (I : nat) (lowest : bool) (down : list entry -> Z -> Z -> Z -> res (list entry)).

Fixpoint entry_loop (fuel index : nat) (table : list entry) (virt_start virt_end phys : Z) : res (list entry) :=
  match fuel with
  | O => Err NoFuel
  | S f =>
      if virt_start <? virt_end then
        let e := next_end I virt_start virt_end in
        let phys' := Z.land (u64 (phys + entry_size I)) (not64 (entry_size I - 1)) in
        match table !! index with
        | None => Err Fault
        | Some x =>
            if lowest then
              match x with
              | Absent => entry_loop f (S index) (<[index := Page (page_of phys)]> table) e virt_end phys'
              | _ => Err (Panic "Tried to re-map page")
              end
            else
              let sub := match x with Absent => Ok empty_table | Table t => Ok t | Page _ => Err Fault end in
              match sub with
              | Err er => Err er
              | Ok t =>
                  match down t virt_start e phys with
                  | Err er => Err er
                  | Ok t' => entry_loop f (S index) (<[index := Table t']> table) e virt_end phys'
                  end
              end
        end
      else Ok table
  end.
End level.

(** [_vm_map<I, Lowest>] *)
Fixpoint _vm_map (I Lowest : nat) (table : list entry) (virt_start virt_end phys : Z) : res (list entry) :=
  match I with
  | O => Err Fault
  | S I' =>
      entry_loop I (I =? Lowest)%nat (_vm_map I' Lowest) 513 (Z.to_nat (table_index I virt_start)) table virt_start virt_end phys
  end.

(** [vm_map], [vm_map_large] and [vm_map_huge] differ in the level of their pages. *)
Definition map_range (Lowest : nat) (pml4 : list entry) (phys size virt : Z) : res (list entry) :=
  if size =? 0 then Ok pml4
  else
    let page_mask := not64 (entry_size Lowest - 1) in
    let virt_start := Z.land virt page_mask in
    let virt_end := Z.land (u64 (virt_start + size + entry_size Lowest - 1)) page_mask in
    _vm_map 4 Lowest pml4 virt_start virt_end (Z.land phys page_mask).
Definition vm_map := map_range 1.
Definition vm_map_large := map_range 2.
Definition vm_map_huge := map_range 3.
Definition prepare_paging : list entry := empty_table.

(** ** What the processor reads *)

Fixpoint walk (I : nat) (t : list entry) (a : Z) : option Z :=
  match I with
  | O => None
  | S I' =>
      match t !! Z.to_nat (table_index I a) with
      | Some (Page p) => Some (p * 4096 + a mod entry_size I)
      | Some (Table t') => walk I' t' a
      | _ => None
      end
  end.

(** Nothing is in the way of a page of level [Lowest] at [a]. *)
Fixpoint clear (I Lowest : nat) (t : list entry) (a : Z) : Prop :=
  match I with
  | O => False
  | S I' =>
      match t !! Z.to_nat (table_index I a) with
      | Some Absent => True
      | Some (Table t') => (Lowest < I)%nat /\ clear I' Lowest t' a
      | _ => False
      end
  end.
Fixpoint full_tables (I : nat) (t : list entry) : Prop :=
  match I with
  | O => True
  | S I' => length t = 512%nat /\ forall i t', t !! i = Some (Table t') -> full_tables I' t'
  end.

(** ** Arithmetic of entries *)

Lemma entry_size_eq I : entry_size I = 2 ^ (Z.of_nat I * 9 + 3).
Proof. unfold entry_size. rewrite Z.shiftl_mul_pow2 by lia. lia. Qed.
Lemma entry_size_pos I : 0 < entry_size I.
Proof. rewrite entry_size_eq. apply Z.pow_pos_nonneg; lia. Qed.
Lemma entry_size_S I : entry_size (S I) = 512 * entry_size I.
Proof. rewrite !entry_size_eq. replace (Z.of_nat (S I) * 9 + 3) with (9 + (Z.of_nat I * 9 + 3)) by lia. by rewrite Z.pow_add_r by lia. Qed.
Lemma table_index_eq I a : table_index I a = (a / entry_size I) mod 512.
Proof. unfold table_index. rewrite Z.shiftr_div_pow2, <- entry_size_eq by lia. change 511 with (2 ^ 9 - 1). by rewrite land_low. Qed.
Lemma table_index_bound I a : 0 <= table_index I a < 512.
Proof. rewrite table_index_eq. by apply Z.mod_pos_bound. Qed.
Lemma entry_size_le I : (I <= 4)%nat -> entry_size I <= 2 ^ 39.
Proof. intros. rewrite entry_size_eq. apply Z.pow_le_mono_r; lia. Qed.
(** Rounding down. *)
Definition floor (I : nat) (a : Z) : Z := a - a mod entry_size I.
Lemma mask_floor I a : (I <= 4)%nat -> is_u64 a -> Z.land a (not64 (entry_size I - 1)) = floor I a.
Proof. intros H U. unfold floor. rewrite entry_size_eq. apply land_mask_down; [done|lia]. Qed.

Lemma next_end_eq I vs ve :
  (I <= 4)%nat -> 0 <= vs -> vs < ve -> ve < 2 ^ 64 -> next_end I vs ve = Z.min (floor I vs + entry_size I) ve.
Proof.
  intros HI Hs H He. unfold next_end. pose proof (entry_size_pos I). pose proof (entry_size_le I HI).
  pose proof (Z.mod_pos_bound vs (entry_size I) ltac:(lia)) as Hm.
  destruct (Z.lt_ge_cases (vs + entry_size I) (2 ^ 64)) as [L|G].
  - rewrite (u64_id (vs + entry_size I)) by (unfold is_u64; lia). rewrite mask_floor by (done || (unfold is_u64; lia)).
    assert (floor I (vs + entry_size I) = floor I vs + entry_size I) as ->.
    { unfold floor. rewrite <- (Z.mul_1_l (entry_size I)) at 2. rewrite Z_mod_plus_full. lia. }
    unfold floor. rewrite u64_id by (unfold is_u64; lia).
    destruct (Z.ltb_spec (vs - vs mod entry_size I + entry_size I - 1) ve), (Z.eqb_spec (vs - vs mod entry_size I + entry_size I) 0); cbn; lia.
  - assert (u64 (vs + entry_size I) = vs + entry_size I - 2 ^ 64) as ->.
    { unfold u64, wrapu. rewrite <- (Z_mod_plus_full _ (-1)). rewrite Z.mod_small; lia. }
    rewrite mask_floor by (done || (unfold is_u64; lia)).
    assert (floor I (vs + entry_size I - 2 ^ 64) = 0) as ->.
    { unfold floor. rewrite Z.mod_small; lia. }
    rewrite andb_false_r. symmetry. apply Z.min_r.
    assert (exists k, 2 ^ 64 = k * entry_size I) as [k Ek].
    { exists (2 ^ (64 - (Z.of_nat I * 9 + 3))). rewrite entry_size_eq, <- Z.pow_add_r by lia. f_equal. lia. }
    unfold floor. pose proof (Z.div_mod vs (entry_size I) ltac:(lia)).
    assert (k - 1 <= vs / entry_size I) by (apply Z.div_le_lower_bound; lia). nia.
Qed.

(** The entry of level [I] an address belongs to. *)
Definition slot (I : nat) (a : Z) : Z := a / entry_size I.
Lemma slot_spec I a : slot I a * entry_size I <= a < (slot I a + 1) * entry_size I.
Proof. unfold slot. pose proof (entry_size_pos I). pose proof (Z.div_mod a (entry_size I) ltac:(lia)). pose proof (Z.mod_pos_bound a (entry_size I) ltac:(lia)). lia. Qed.
Lemma slot_unique I a q : q * entry_size I <= a < (q + 1) * entry_size I -> slot I a = q.
Proof. intros H. unfold slot. pose proof (entry_size_pos I). symmetry. apply (Z.div_unique a (entry_size I) q (a - q * entry_size I)); lia. Qed.
Lemma floor_slot I a : floor I a = slot I a * entry_size I.
Proof. unfold floor, slot. pose proof (entry_size_pos I). pose proof (Z.div_mod a (entry_size I) ltac:(lia)). lia. Qed.
Lemma slot_S I a : slot (S I) a = slot I a / 512.
Proof. unfold slot. rewrite entry_size_S, Z.mul_comm. pose proof (entry_size_pos I). by rewrite Z.div_div by lia. Qed.
Lemma slot_mono I a b : a <= b -> slot I a <= slot I b.
Proof. intros. unfold slot. apply Z.div_le_mono; [apply entry_size_pos|done]. Qed.
Lemma index_slot I a : table_index I a = slot I a mod 512.
Proof. apply table_index_eq. Qed.
(** Addresses of one table are told apart by their index. *)
Lemma index_same I a b : slot (S I) a = slot (S I) b -> table_index I a = table_index I b -> slot I a = slot I b.
Proof.
  rewrite !slot_S, !index_slot. intros E F. pose proof (Z.div_mod (slot I a) 512 ltac:(lia)). pose proof (Z.div_mod (slot I b) 512 ltac:(lia)). lia.
Qed.

(** The part of a range in the entry of its first address. *)
Section part.
Context (I : nat) (vs ve : Z) (H : vs < ve) (Hs : slot (S I) vs = slot (S I) (ve - 1)).
Let e := Z.min (floor I vs + entry_size I) ve.

Lemma part_bounds : vs < e <= ve.
Proof. unfold e. rewrite floor_slot. pose proof (slot_spec I vs). lia. Qed.
Lemma part_slot a : vs <= a < e -> slot I a = slot I vs.
Proof. unfold e. rewrite floor_slot. intros Ha. apply slot_unique. pose proof (slot_spec I vs). lia. Qed.
Lemma part_next : e < ve -> e = (slot I vs + 1) * entry_size I /\ slot I e = slot I vs + 1 /\ table_index I e = table_index I vs + 1.
Proof.
  intros L. assert (e = (slot I vs + 1) * entry_size I) as E by (unfold e in *; rewrite floor_slot in *; lia).
  pose proof (entry_size_pos I) as P. assert (slot I e = slot I vs + 1) as S by (apply slot_unique; rewrite E; lia).
  split; [done|]. split; [done|]. rewrite !index_slot, S.
  pose proof (slot_mono I e (ve - 1) ltac:(lia)) as Mo. rewrite !slot_S in Hs.
  pose proof (Z.div_le_mono (slot I vs + 1) (slot I (ve - 1)) 512 ltac:(lia) ltac:(lia)) as Q1.
  pose proof (Z.div_le_mono (slot I vs) (slot I vs + 1) 512 ltac:(lia) ltac:(lia)) as Q2.
  pose proof (Z.div_mod (slot I vs) 512 ltac:(lia)). pose proof (Z.div_mod (slot I vs + 1) 512 ltac:(lia)). lia.
Qed.
End part.

(** ** Empty tables *)

Lemma empty_lookup i : (i < 512)%nat -> empty_table !! i = Some Absent.
Proof. intros. by apply lookup_replicate_2. Qed.
Lemma empty_at I a : empty_table !! Z.to_nat (table_index I a) = Some Absent.
Proof. apply empty_lookup. pose proof (table_index_bound I a). lia. Qed.
Lemma walk_empty I a : walk I empty_table a = None.
Proof. destruct I; [done|]. cbn [walk]. by rewrite empty_at. Qed.
Lemma clear_empty I Lowest a : clear (S I) Lowest empty_table a.
Proof. cbn [clear]. by rewrite empty_at. Qed.
Lemma full_empty I : full_tables I empty_table.
Proof. destruct I; [done|]. split; [apply length_replicate|]. intros i t' E. by apply lookup_replicate_1 in E as [E _]. Qed.

(** ** Mapping a range *)

Lemma entry_size_divide J I : (J <= I)%nat -> (entry_size J | entry_size I).
Proof. intros H. exists (2 ^ (Z.of_nat (I - J) * 9)). rewrite !entry_size_eq, <- Z.pow_add_r by lia. f_equal. lia. Qed.
Lemma page_of_eq phys : 0 <= phys < 2 ^ 52 -> phys mod 4096 = 0 -> page_of phys * 4096 = phys.
Proof.
  intros H A. unfold page_of. rewrite land_low, Z.shiftr_div_pow2 by lia. change (2 ^ 12) with 4096.
  rewrite Z.mod_small; [pose proof (Z.div_mod phys 4096 ltac:(lia)); lia|].
  split; [apply Z.div_pos; lia|apply Z.div_lt_upper_bound; lia].
Qed.

Section mapping.
Context (Lowest : nat) (HL : (1 <= Lowest)%nat).

(** What is asked of a range that is to be mapped to the addresses from [phys] on: it is
    in one table of level [I], nothing is mapped there, and at each level the virtual and
    the physical addresses are at the same place of an entry, or there is but one entry. *)
Record mappable (I : nat) (t : list entry) (vs ve phys : Z) : Prop := mkMappable {
  mp_range : 0 <= vs < ve;
  mp_top : ve < 2 ^ 64;
  mp_slot : slot (S I) vs = slot (S I) (ve - 1);
  mp_vs : vs mod entry_size Lowest = 0;
  mp_ve : ve mod entry_size Lowest = 0;
  mp_aligned : phys mod entry_size Lowest = 0;
  mp_phys : 0 <= phys /\ phys + (ve - vs) <= 2 ^ 52;
  mp_levels : forall J, (Lowest <= J <= I)%nat -> (vs - phys) mod entry_size J = 0 \/ slot J vs = slot J (ve - 1);
  mp_full : full_tables I t;
  mp_clear : forall a, vs <= a < ve -> clear I Lowest t a }.

Definition mapped (I : nat) (t t' : list entry) (vs ve phys : Z) : Prop :=
  full_tables I t' /\
  forall a, slot (S I) a = slot (S I) vs -> walk I t' a = if (vs <=? a) && (a <? ve) then Some (phys + (a - vs)) else walk I t a.

Section step.
Context (I' : nat) (t : list entry) (vs ve phys : Z) (HI : (Lowest <= S I' <= 4)%nat).
Context (Hm : mappable (S I') t vs ve phys).
Let I := S I'.
Let e := Z.min (floor I vs + entry_size I) ve.

Lemma step_bounds : vs < e <= ve.
Proof. destruct Hm. apply part_bounds. lia. Qed.
Lemma step_end_aligned : e mod entry_size Lowest = 0.
Proof.
  destruct Hm as [R T S V W]. unfold e. rewrite floor_slot. destruct (Z.min_spec (slot I vs * entry_size I + entry_size I) ve) as [[_ ->]|[_ ->]]; [|done].
  pose proof (entry_size_pos Lowest). apply Z.mod_divide; [lia|].
  apply Z.divide_add_r; [apply Z.divide_mul_r|]; apply entry_size_divide; unfold I; lia.
Qed.
Lemma step_same_slot : e < ve -> (vs - phys) mod entry_size I = 0.
Proof.
  destruct Hm as [R T S V W A P L]. intros H. destruct (L I) as [E|E]; [unfold I; lia|done|]. exfalso.
  destruct (part_next I vs ve S H) as (_ & E' & _). pose proof (slot_mono I e (ve - 1) ltac:(lia)). fold e in E'. lia.
Qed.
Lemma step_phys : e < ve -> Z.land (u64 (phys + entry_size I)) (not64 (entry_size I - 1)) = phys + (e - vs).
Proof.
  intros H. pose proof (step_same_slot H) as E. destruct Hm as [R T S V W A P L].
  pose proof (entry_size_pos I). pose proof (entry_size_le I ltac:(unfold I; lia)).
  rewrite u64_id by (unfold is_u64; lia). rewrite mask_floor by (first [unfold I; lia | unfold is_u64; lia]).
  destruct (part_next I vs ve S H) as (Ee & _). fold e in Ee. rewrite Ee.
  unfold floor. rewrite <- (Z.mul_1_l (entry_size I)) at 2. rewrite Z_mod_plus_full.
  assert (phys mod entry_size I = vs mod entry_size I) as ->.
  { apply Z.mod_divide in E as [k E]; [|lia]. replace vs with (phys + k * entry_size I) by lia. by rewrite Z_mod_plus_full. }
  pose proof (floor_slot I vs) as F. unfold floor in F. lia.
Qed.

(** The entry of the range's first address, and what becomes of the other entries. *)
Lemma step_index a : vs <= a < e -> table_index I a = table_index I vs.
Proof. intros H. rewrite !index_slot. by rewrite (part_slot I vs ve). Qed.
Lemma step_other a : slot (S I) a = slot (S I) vs -> ~ vs <= a < e -> e <= a -> a < ve -> table_index I a <> table_index I vs.
Proof.
  intros Hs _ H1 H2 E. apply (index_same I a vs Hs) in E. destruct Hm as [R T S V W A P L].
  destruct (part_next I vs ve S) as (_ & E' & _); [fold e; lia|]. pose proof (slot_mono I e a ltac:(lia)). fold e in E'. lia.
Qed.
Lemma slot_between a : vs <= a < ve -> slot (S I) a = slot (S I) vs.
Proof. destruct Hm. intros. pose proof (slot_mono (S I) vs a). pose proof (slot_mono (S I) a (ve - 1)). unfold I in *. lia. Qed.

Lemma step_next x :
  (forall t', x = Table t' -> full_tables I' t') -> e < ve ->
  mappable I (<[Z.to_nat (table_index I vs) := x]> t) e ve (phys + (e - vs)).
Proof.
  intros Hx H. pose proof step_bounds as B. pose proof (step_same_slot H) as SS. pose proof step_end_aligned as EA. destruct Hm as [R T S V W A P L F C].
  pose proof (entry_size_pos Lowest). split; try done; try lia.
  - etrans; [apply slot_between; lia|exact S].
  - apply Z.mod_divide in EA, A, V; [|lia..]. apply Z.mod_divide; [lia|]. apply Z.divide_add_r; [done|]. by apply Z.divide_sub_r.
  - intros J HJ. replace (e - (phys + (e - vs))) with (vs - phys) by lia.
    left. apply Z.mod_divide; [pose proof (entry_size_pos J); lia|]. apply Z.mod_divide in SS; [|pose proof (entry_size_pos I); lia].
    etrans; [|exact SS]. apply entry_size_divide. lia.
  - destruct F as [F1 F2]. split; [by rewrite length_insert|]. intros i t' E.
    destruct (decide (i = Z.to_nat (table_index I vs))) as [->|N].
    + rewrite list_lookup_insert_eq in E by (pose proof (table_index_bound I vs); lia). naive_solver.
    + rewrite list_lookup_insert_ne in E by done. by eapply F2.
  - intros a Ha. specialize (C a ltac:(lia)). cbn [clear] in C. fold I in C. change (clear (Datatypes.S I') Lowest (<[Z.to_nat (table_index I vs) := x]> t) a). cbn [clear]. fold I.
    rewrite list_lookup_insert_ne; [done|]. intros E. pose proof (table_index_bound I vs). pose proof (table_index_bound I a).
    apply (step_other a); [by apply slot_between; lia|lia|lia|lia|lia].
Qed.

(** The part of the range in one entry, for the table below. *)
Lemma step_down t1 :
  (Lowest < I)%nat -> t !! Z.to_nat (table_index I vs) = Some (Table t1) \/ t !! Z.to_nat (table_index I vs) = Some Absent /\ t1 = empty_table ->
  mappable I' t1 vs e phys.
Proof.
  intros HI' Ht. pose proof step_bounds as B. pose proof step_end_aligned as EA. pose proof step_index as SI. destruct Hm as [R T S V W A P L F C].
  split; try done; try lia.
  - symmetry. apply (part_slot I vs ve). fold e. lia.
  - intros J HJ. destruct (L J) as [E|E]; [lia|by left|right]. pose proof (slot_mono J vs (e - 1) ltac:(lia)). pose proof (slot_mono J (e - 1) (ve - 1) ltac:(lia)). lia.
  - destruct F as [F1 F2]. destruct Ht as [Ht|[_ ->]]; [by eapply F2|apply full_empty].
  - intros a Ha. specialize (C a ltac:(lia)). cbn [clear] in C. fold I in C. rewrite SI in C by lia.
    destruct Ht as [Ht|[Ht ->]]; rewrite Ht in C; [by destruct C|].
    destruct I' as [|k]; [unfold I in HI'; lia|apply clear_empty].
Qed.
(** An entry at the lowest level maps its whole range. *)
Lemma step_page a : Lowest = I -> slot I a = slot I vs -> vs <= a < e /\ page_of phys * 4096 + a mod entry_size I = phys + (a - vs).
Proof.
  intros EL Sa. pose proof step_bounds as B. pose proof step_end_aligned as EA. destruct Hm as [R T S V W A P L F C].
  pose proof (entry_size_pos I) as Pos. rewrite EL in *.
  assert (vs = slot I vs * entry_size I) as Ev by (rewrite <- floor_slot; unfold floor; lia).
  pose proof (slot_spec I a) as Sp. rewrite Sa in Sp.
  assert (e = vs + entry_size I) as Ee.
  { unfold e. rewrite floor_slot, <- Ev. apply Z.min_l. apply Z.mod_divide in W as [k W]; [|lia].
    rewrite W, Ev in *. assert (slot I vs < k) by nia. nia. }
  split; [lia|]. rewrite page_of_eq; [|lia|].
  - pose proof (floor_slot I a) as Fa. unfold floor in Fa. rewrite Sa in Fa. lia.
  - apply Z.mod_divide in A; [|lia]. apply Z.mod_divide; [lia|]. etrans; [|exact A].
    change 4096 with (2 ^ (Z.of_nat 1 * 9 + 3)). rewrite <- entry_size_eq. apply entry_size_divide. unfold I. lia.
Qed.

(** What an entry leads to. *)
Definition through (x : entry) (a : Z) : option Z :=
  match x with Absent => None | Page p => Some (p * 4096 + a mod entry_size I) | Table t' => walk I' t' a end.
Lemma walk_entry u x a : u !! Z.to_nat (table_index I a) = Some x -> walk I u a = through x a.
Proof. intros E. change (walk (S I') u a = through x a). cbn [walk]. fold I. rewrite E. by destruct x. Qed.
Lemma step_insert x y :
  t !! Z.to_nat (table_index I vs) = Some x ->
  (forall a, slot I a = slot I vs -> through y a = if (vs <=? a) && (a <? e) then Some (phys + (a - vs)) else through x a) ->
  forall a, slot (S I) a = slot (S I) vs ->
  walk I (<[Z.to_nat (table_index I vs) := y]> t) a = if (vs <=? a) && (a <? e) then Some (phys + (a - vs)) else walk I t a.
Proof.
  intros Hx Hy a Ha. pose proof (table_index_bound I vs). pose proof (table_index_bound I a). pose proof (mp_full _ _ _ _ _ Hm) as [Len _].
  destruct (Z.eq_dec (table_index I a) (table_index I vs)) as [E|N].
  - rewrite (walk_entry _ y), (walk_entry t x), Hy; [done|by apply index_same|by rewrite E|].
    rewrite E. apply list_lookup_insert_eq. lia.
  - destruct (t !! Z.to_nat (table_index I a)) as [z|] eqn:Ez; [|apply lookup_ge_None in Ez; lia].
    rewrite (walk_entry _ z), (walk_entry t z); [|done|rewrite list_lookup_insert_ne; [done|lia]].
    destruct (Z.leb_spec vs a), (Z.ltb_spec a e); cbn; try done. destruct N. apply step_index. lia.
Qed.
End step.

Section loop.
Context (I' : nat) (ve : Z) (down : list entry -> Z -> Z -> Z -> res (list entry)).
Context (HI : (Lowest <= S I' <= 4)%nat).
Context (Hdown : (Lowest < S I')%nat -> forall t vs e phys, mappable I' t vs e phys -> exists t', down t vs e phys = Ok t' /\ mapped I' t t' vs e phys).

(** One round of the loop: the entry of the first address is filled. *)
Lemma entry_loop_step t vs phys fuel (idx := Z.to_nat (table_index (S I') vs)) (e := Z.min (floor (S I') vs + entry_size (S I')) ve) :
  mappable (S I') t vs ve phys ->
  exists y, (forall t', y = Table t' -> full_tables I' t')
    /\ entry_loop (S I') (S I' =? Lowest)%nat down (S fuel) idx t vs ve phys
       = entry_loop (S I') (S I' =? Lowest)%nat down fuel (S idx) (<[idx := y]> t) e ve
           (Z.land (u64 (phys + entry_size (S I'))) (not64 (entry_size (S I') - 1)))
    /\ forall a, slot (S (S I')) a = slot (S (S I')) vs ->
       walk (S I') (<[idx := y]> t) a = if (vs <=? a) && (a <? e) then Some (phys + (a - vs)) else walk (S I') t a.
Proof.
  intros Hm. pose proof (table_index_bound (S I') vs) as Bi. pose proof (mp_full _ _ _ _ _ Hm) as [Len _].
  pose proof (step_bounds I' t vs ve phys HI Hm) as B. fold e in B. pose proof Hm as [R T _ _ _ _ _ _ _ C].
  specialize (C vs ltac:(lia)). cbn [clear] in C. fold idx in C.
  destruct (t !! idx) as [x|] eqn:Ex; [|done].
  cbn [entry_loop]. rewrite (proj2 (Z.ltb_lt vs ve)) by lia. rewrite Ex, next_end_eq by lia. fold e.
  destruct (Nat.eqb_spec (S I') Lowest) as [EL|NL].
  - destruct x as [| |t1]; [|done|lia]. exists (Page (page_of phys)). split; [done|]. split; [done|].
    apply (step_insert I' t vs ve phys HI Hm Absent); [done|]. intros a Sa. cbn [through].
    destruct (step_page I' t vs ve phys HI Hm a) as [Ba E]; [done|done|]. rewrite E. fold e in Ba |- *.
    by rewrite (proj2 (Z.leb_le vs a)), (proj2 (Z.ltb_lt a e)) by lia.
  - set (t1 := match x with Table t1 => t1 | _ => empty_table end).
    assert (t !! idx = Some (Table t1) \/ t !! idx = Some Absent /\ t1 = empty_table) as Ht by (destruct x; [by right|done|by left]).
    destruct (Hdown ltac:(lia) t1 vs e phys) as (t2 & Ed & F2 & W2); [by apply (step_down I' t vs ve phys HI Hm); [lia|]|].
    exists (Table t2). split; [by intros ? [= <-]|]. split.
    { destruct x; [|done|]; unfold t1 in Ed; by rewrite Ed. }
    apply (step_insert I' t vs ve phys HI Hm x); [done|]. intros a Sa. cbn [through]. rewrite W2 by done. fold e.
    destruct (_ && _); [done|]. unfold t1 in *. destruct x; [apply walk_empty|done|done].
Qed.

Lemma entry_loop_maps fuel : forall t vs phys,
  full_tables (S I') t -> (0 < fuel)%nat -> vs <= ve ->
  (vs < ve -> mappable (S I') t vs ve phys /\ 512 - table_index (S I') vs < Z.of_nat fuel) ->
  forall idx, (vs < ve -> idx = Z.to_nat (table_index (S I') vs)) ->
  exists t', entry_loop (S I') (S I' =? Lowest)%nat down fuel idx t vs ve phys = Ok t' /\ full_tables (S I') t'
    /\ forall a, slot (S (S I')) a = slot (S (S I')) (ve - 1) ->
       walk (S I') t' a = if (vs <=? a) && (a <? ve) then Some (phys + (a - vs)) else walk (S I') t a.
Proof.
  induction fuel as [|fuel IH]; intros t vs phys F Hf Hv Hm idx Hi; [lia|].
  destruct (Z.eq_dec vs ve) as [->|N].
  { exists t. cbn [entry_loop]. rewrite Z.ltb_irrefl. split; [done|]. split; [done|]. intros a _.
    destruct (Z.leb_spec ve a), (Z.ltb_spec a ve); cbn; done || lia. }
  destruct Hm as [Hm Hfuel]; [lia|]. rewrite Hi by lia. clear Hi idx.
  destruct (entry_loop_step t vs phys fuel Hm) as (y & Fy & -> & W).
  pose proof (step_bounds I' t vs ve phys HI Hm) as B. set (e := Z.min _ ve) in *. pose proof (table_index_bound (S I') vs) as Bi.
  set (t1 := <[_ := y]> t) in *. set (phys' := Z.land _ _).
  assert (e < ve -> mappable (S I') t1 e ve (phys + (e - vs)) /\ phys' = phys + (e - vs) /\ table_index (S I') e = table_index (S I') vs + 1) as Nx.
  { intros L. split; [by apply step_next|]. split; [by eapply step_phys|].
    by destruct (part_next (S I') vs ve (mp_slot _ _ _ _ _ Hm) L) as (_ & _ & E). }
  destruct (IH t1 e phys') with (idx := S (Z.to_nat (table_index (S I') vs))) as (t' & -> & F' & W'); [| |lia| | |].
  - destruct F as [F1 F2]. split; [by unfold t1; rewrite length_insert|]. intros i t2 E.
    destruct (decide (i = Z.to_nat (table_index (S I') vs))) as [->|Ni]; unfold t1 in E.
    + rewrite list_lookup_insert_eq in E by lia. naive_solver.
    + rewrite list_lookup_insert_ne in E by done. by eapply F2.
  - pose proof (table_index_bound (S I') vs). lia.
  - intros L. destruct (Nx L) as (Mx & -> & Ei). split; [done|]. lia.
  - intros L. destruct (Nx L) as (_ & _ & Ei). lia.
  - exists t'. split; [done|]. split; [done|]. intros a Sa. rewrite W' by done.
    rewrite W by (by rewrite Sa, (mp_slot _ _ _ _ _ Hm)).
    destruct (Z.ltb_spec e ve) as [L|G]; [destruct (Nx L) as (_ & -> & _)|];
    destruct (Z.leb_spec vs a), (Z.ltb_spec a ve), (Z.leb_spec e a), (Z.ltb_spec a e); cbn; try done; try lia. f_equal. lia.
Qed.
End loop.

Lemma vm_map_maps I : (Lowest <= I <= 4)%nat -> forall t vs ve phys,
  mappable I t vs ve phys -> exists t', _vm_map I Lowest t vs ve phys = Ok t' /\ mapped I t t' vs ve phys.
Proof.
  induction I as [|I' IH]; intros HI t vs ve phys Hm; [lia|]. cbn [_vm_map].
  pose proof (table_index_bound (S I') vs). pose proof Hm as [R T S _ _ _ _ _ F _].
  destruct (entry_loop_maps I' ve (_vm_map I' Lowest) HI) with (fuel := 513%nat) (t := t) (vs := vs) (phys := phys)
    (idx := Z.to_nat (table_index (Datatypes.S I') vs)) as (t' & E & F' & W); try done; try lia.
  - intros HL'. apply IH. lia.
  - intros _. split; [done|lia].
  - exists t'. split; [done|]. split; [done|]. intros a Sa. apply W. by rewrite Sa.
Qed.
End mapping.

(** ** The loader's mappings *)

(** The pages of a request. *)
Definition first_page (L : nat) (virt : Z) : Z := floor L virt.
Definition last_page (L : nat) (virt size : Z) : Z := floor L (floor L virt + size + entry_size L - 1).

Lemma map_range_eq L t phys size virt :
  (L <= 4)%nat -> is_u64 virt -> is_u64 phys -> 0 < size -> virt + size + entry_size L <= 2 ^ 64 ->
  map_range L t phys size virt = _vm_map 4 L t (first_page L virt) (last_page L virt size) (floor L phys).
Proof.
  intros HL Uv Up Hs Hb. unfold map_range, first_page, last_page. rewrite (proj2 (Z.eqb_neq size 0)) by lia.
  rewrite (mask_floor L virt), (mask_floor L phys) by done. pose proof (entry_size_pos L). unfold is_u64 in *.
  pose proof (Z.mod_pos_bound virt (entry_size L) ltac:(lia)). assert (0 <= floor L virt <= virt) as B.
  { split; [|unfold floor; lia]. unfold floor. pose proof (Z.mod_le virt (entry_size L)). lia. }
  rewrite u64_id by (unfold is_u64; lia). rewrite mask_floor by first [exact HL | unfold is_u64; lia]. reflexivity.
Qed.

(** Mapping at the addresses themselves, as the loader does for its code and its stack, or
    where both sides are aligned to the entries of the top level, as for the physical memory. *)
Lemma same_place_mappable L t vs ve phys :
  (L <= 4)%nat -> 0 <= vs < ve -> ve < 2 ^ 64 -> slot 5 vs = slot 5 (ve - 1) -> phys + (ve - vs) <= 2 ^ 52 -> 0 <= phys ->
  vs mod entry_size L = 0 -> ve mod entry_size L = 0 -> (vs - phys) mod entry_size 4 = 0 ->
  full_tables 4 t -> (forall a, vs <= a < ve -> clear 4 L t a) -> mappable L 4 t vs ve phys.
Proof.
  intros HL R T S5 P P0 V W D F C. pose proof (entry_size_pos L). pose proof (entry_size_pos 4).
  assert (forall J, (J <= 4)%nat -> (vs - phys) mod entry_size J = 0) as D'.
  { intros J HJ. apply Z.mod_divide in D; [|lia]. apply Z.mod_divide; [pose proof (entry_size_pos J); lia|]. etrans; [|exact D]. by apply entry_size_divide. }
  split; try done; try lia.
  - pose proof (D' L HL) as E. apply Z.mod_divide in E, V; [|lia..]. apply Z.mod_divide; [lia|].
    replace phys with (vs - (vs - phys)) by lia. by apply Z.divide_sub_r.
  - intros J HJ. left. apply D'. lia.
Qed.

(** C24: The loader's page tables.  A request to map [size] bytes from [phys] on at [virt], on
    pages of level [L], where nothing is in the way and at each level the two sides are at the same
    place of an entry or only one entry is concerned: the call returns, each address of the pages of
    the request leads to the matching physical address, and every other address of the half of the
    address space to what it led to before. *)
Theorem range_mapped L pml4 phys size virt :
  (1 <= L <= 4)%nat -> is_u64 virt -> is_u64 phys -> 0 < size -> virt + size + entry_size L <= 2 ^ 64 ->
  mappable L 4 pml4 (first_page L virt) (last_page L virt size) (floor L phys) ->
  exists pml4', map_range L pml4 phys size virt = Ok pml4' /\ full_tables 4 pml4'
    /\ forall a, slot 5 a = slot 5 virt ->
       walk 4 pml4' a
       = if (first_page L virt <=? a) && (a <? last_page L virt size)
         then Some (floor L phys + (a - first_page L virt)) else walk 4 pml4 a.
Proof.
  intros [HL HL4] Uv Up Hs Hb Hm. rewrite map_range_eq by done.
  destruct (vm_map_maps L HL 4 (conj HL4 (le_n 4)) _ _ _ _ Hm) as (t' & E & F & W).
  exists t'. split; [done|]. split; [done|]. intros a Sa. apply W. rewrite Sa.
  unfold first_page. pose proof (entry_size_pos L). symmetry. apply slot_unique.
  pose proof (slot_spec 5 virt). pose proof (Z.mod_pos_bound virt (entry_size L) ltac:(lia)).
  split; [|unfold floor; lia]. rewrite (floor_slot L virt). destruct (entry_size_divide L 5 ltac:(lia)) as [k Ek].
  pose proof (slot_spec L virt). rewrite Ek in *. assert (slot 5 virt * k < slot L virt + 1) by nia. nia.
Qed.
Lemma range_mapped_witness :
  exists pml4', vm_map prepare_paging 0x123000 5000 0x400000 = Ok pml4' /\ full_tables 4 pml4' /\ walk 4 pml4' 0x401234 = Some 0x124234.
Proof.
  assert (mappable 1 4 prepare_paging (first_page 1 0x400000) (last_page 1 0x400000 5000) (floor 1 0x123000)) as Hm.
  { change (first_page 1 0x400000) with 0x400000. change (last_page 1 0x400000 5000) with 0x402000. change (floor 1 0x123000) with 0x123000.
    split; [lia|lia|reflexivity..|lia| | |].
    - intros J HJ. destruct J as [|[|[|[|[|J]]]]]; [lia|left; reflexivity|right; reflexivity..|lia].
    - apply full_empty.
    - intros a _. apply clear_empty. }
  destruct (range_mapped 1 prepare_paging 0x123000 5000 0x400000) as (t & E & F & W); [lia|unfold is_u64; lia..|reflexivity|vm_compute; discriminate|exact Hm|].
  exists t. split; [exact E|]. split; [exact F|]. rewrite W by reflexivity. reflexivity.
Defined.

(** An image that is not at the same place of a two megabyte entry as its physical memory
    is mapped to the wrong pages from the second entry on. *)
Example misplaced_pages :
  match vm_map prepare_paging 0x101000 0x201000 0xffffffff80000000 with
  | Ok t => walk 4 t 0xffffffff801ff000 = Some 0x300000 /\ walk 4 t 0xffffffff80200000 = Some 0x200000
  | Err _ => False
  end.
Proof. vm_compute. done. Qed.
