(* ===== verification/Mp.v ===== *)
(** * Calls across cores: kernel/util/mp.cpp

    A core asks others to run a function by linking an item of its own into the queue of
    each, sends an interrupt and waits until a counter on its stack is zero; a core drains
    its queue in the interrupt, or while it waits.  The cores interleave: an operation
    below is one access to memory that the cores share, or one section under the lock of
    a queue.  A core may drain its queue at any time, and several activations of the
    drain, an interrupt within another, may be under way.  An access through a dangling
    pointer is a fault: the counter and the function are gone when the call returns. *)
From S2P Require Import Prelude.

(** ** State *)

Record ipi_queue_state : Type := mkState { fptr : Z; context : Z; unfinished_cores : nat }.
(** Pointers: to an item its index in [outgoing_ipi_items], to a state the activation of
    [erased_parallel_execute] it belongs to. *)
Record ipi_queue_item : Type := mkItem { next : option nat; state : option nat }.
Record ipi_queue : Type := mkQueue { _head : option nat; _tail : option nat }.
Inductive policy : Type := all | specific.

(** Where a caller is: counting, filling and linking the item for core [i], about to send
    the interrupt, or in the last loop. *)
Inductive progress_at : Type := Count (i : nat) | Fill (i : nat) | Link (i : nat) | Send | Wait.
Record call : Type := mkCall { pol : policy; target : nat; frame : nat; at_ : progress_at }.
(** A drain between two accesses: the item it took, and whether the function has run. *)
Record activation : Type := mkActivation { on_core : nat; taken : nat; ran : bool }.

Record machine : Type := mkMachine {
  items : list ipi_queue_item;
  queues : list ipi_queue;
  states : gmap nat ipi_queue_state;
  calls : gmap nat call;
  drains : list activation;
  next_frame : nat;
  runs : list (nat * nat * Z * Z)
}.
Abbreviation MM := (M machine).

#[global] Instance policy_eq_dec : EqDecision policy. Proof. solve_decision. Defined.
#[global] Instance place_eq_dec : EqDecision progress_at. Proof. solve_decision. Defined.
#[global] Instance call_eq_dec : EqDecision call. Proof. solve_decision. Defined.
#[global] Instance activation_eq_dec : EqDecision activation. Proof. solve_decision. Defined.

(** [initialize_parallel] *)
Definition initialize_parallel (core_count : nat) : machine :=
  mkMachine (replicate (core_count * core_count) (mkItem None None)) (replicate core_count (mkQueue None None)) ∅ ∅ [] 0 [].

Section cores.
Context (core_count : nat).

(** ** Memory *)

Definition item_of (self core : nat) : nat := self * core_count + core.
Definition get_item (i : nat) : MM ipi_queue_item := fun m => match items m !! i with Some x => Ok (x, m) | None => Err Fault end.
Definition put_item (i : nat) (x : ipi_queue_item) : MM unit := fun m =>
  if (i <? length (items m))%nat
  then Ok (tt, mkMachine (<[i := x]> (items m)) (queues m) (states m) (calls m) (drains m) (next_frame m) (runs m)) else Err Fault.
Definition get_queue (c : nat) : MM ipi_queue := fun m => match queues m !! c with Some q => Ok (q, m) | None => Err Fault end.
Definition put_queue (c : nat) (q : ipi_queue) : MM unit :=
  modify (fun m => mkMachine (items m) (<[c := q]> (queues m)) (states m) (calls m) (drains m) (next_frame m) (runs m)).
Definition get_state (p : option nat) : MM ipi_queue_state := fun m =>
  match p with
  | Some a => match states m !! a with Some s => Ok (s, m) | None => Err Fault end
  | None => Err Fault
  end.
Definition put_states (s : gmap nat ipi_queue_state) : MM unit :=
  modify (fun m => mkMachine (items m) (queues m) s (calls m) (drains m) (next_frame m) (runs m)).
Definition put_state (a : nat) (s : ipi_queue_state) : MM unit := let* l := gets states in put_states (<[a := s]> l).
Definition put_calls (cs : gmap nat call) : MM unit :=
  modify (fun m => mkMachine (items m) (queues m) (states m) cs (drains m) (next_frame m) (runs m)).
Definition put_drains (ds : list activation) : MM unit :=
  modify (fun m => mkMachine (items m) (queues m) (states m) (calls m) ds (next_frame m) (runs m)).
Definition add_run (r : nat * nat * Z * Z) : MM unit :=
  modify (fun m => mkMachine (items m) (queues m) (states m) (calls m) (drains m) (next_frame m) (r :: runs m)).
Definition fresh_frame : MM nat := fun m =>
  Ok (next_frame m, mkMachine (items m) (queues m) (states m) (calls m) (drains m) (S (next_frame m)) (runs m)).

(** ** [ipi_queue] *)

Definition push (core item : nat) : MM unit :=
  let* q := get_queue core in
  match _head q with
  | None => put_queue core (mkQueue (Some item) (Some item))
  | Some _ =>
      match _tail q with
      | None => fail Fault
      | Some t =>
          let* x := get_item t in
          put_item t (mkItem (Some item) (state x)) ;;
          put_queue core (mkQueue (_head q) (Some item))
      end
  end.
(** The section of [drain] under the lock; [None] ends the loop. *)
Definition take_head (core : nat) : MM (option nat) :=
  let* q := get_queue core in
  match _head q with
  | None => ret None
  | Some i =>
      let* x := get_item i in
      put_queue core (mkQueue (next x) (_tail q)) ;;
      ret (Some i)
  end.

(** ** Steps *)

Definition matches (p : policy) (tgt core : nat) : bool := match p with all => true | specific => bool_decide (tgt = core) end.

(** The head of [erased_parallel_execute]; a core is in one call at a time. *)
Definition enter (self : nat) (p : policy) (f ctx : Z) (tgt : nat) : MM unit :=
  let* a := fresh_frame in
  put_state a (mkState f ctx 0) ;;
  let* cs := gets calls in
  put_calls (<[self := mkCall p tgt a (Count (match p with all => 0 | specific => tgt end))]> cs).
Definition move (self : nat) (c : call) (l : progress_at) : MM unit :=
  let* cs := gets calls in put_calls (<[self := mkCall (pol c) (target c) (frame c) l]> cs).
(** One access of the caller. *)
Definition advance (self : nat) (c : call) : MM unit :=
  match at_ c with
  | Count i =>
      match pol c with
      | specific =>
          let* s := get_state (Some (frame c)) in
          put_state (frame c) (mkState (fptr s) (context s) 1) ;;
          move self c (Fill i)
      | all =>
          if (i <? core_count)%nat then
            if matches (pol c) (target c) i then
              let* s := get_state (Some (frame c)) in
              put_state (frame c) (mkState (fptr s) (context s) (S (unfinished_cores s))) ;;
              move self c (Fill i)
            else move self c (Count (S i))
          else move self c Send
      end
  | Fill i =>
      let* x := get_item (item_of self i) in
      put_item (item_of self i) (mkItem (next x) (Some (frame c))) ;;
      move self c (Link i)
  | Link i =>
      if (i <? core_count)%nat then
        push i (item_of self i) ;;
        move self c (match pol c with all => Count (S i) | specific => Send end)
      else panic "Requested a core for an unknown core ID"
  | Send => move self c Wait
  | Wait =>
      let* s := get_state (Some (frame c)) in
      if (unfinished_cores s =? 0)%nat then
        let* l := gets states in
        put_states (delete (frame c) l) ;;
        let* cs := gets calls in put_calls (delete self cs)
      else ret tt
  end.
(** A round of [drain] on [core]: taking an item, ... *)
Definition drain_take (core : nat) : MM unit :=
  let* i := take_head core in
  match i with
  | None => ret tt
  | Some i => let* ds := gets drains in put_drains (mkActivation core i false :: ds)
  end.
(** ... running its function, and counting down, by the drain at [k] of the list. *)
Definition drain_run (k : nat) (d : activation) : MM unit :=
  let* x := get_item (taken d) in
  let* s := get_state (state x) in
  add_run (on_core d, match state x with Some a => a | None => 0%nat end, fptr s, context s) ;;
  let* ds := gets drains in
  put_drains (<[k := mkActivation (on_core d) (taken d) true]> ds).
(** The counter is unsigned: below zero it wraps around. *)
Definition decremented (n : nat) : nat := match n with O => Z.to_nat (u64 (Z.of_nat n - 1)) | S n => n end.
Definition drain_count (k : nat) (d : activation) : MM unit :=
  let* x := get_item (taken d) in
  let* s := get_state (state x) in
  put_state (match state x with Some a => a | None => 0%nat end) (mkState (fptr s) (context s) (decremented (unfinished_cores s))) ;;
  let* ds := gets drains in
  put_drains (delete k ds).

(** What can happen next; an event that is not possible changes nothing. *)
Inductive event : Type :=
| Enter (self : nat) (p : policy) (f ctx : Z) (tgt : nat)
| Advance (self : nat)
| DrainTake (core : nat)
| DrainGo (k : nat).
Definition happens (e : event) : MM unit := fun m =>
  match e with
  | Enter self p f ctx tgt => match calls m !! self with None => enter self p f ctx tgt m | Some _ => Ok (tt, m) end
  | Advance self => match calls m !! self with Some c => advance self c m | None => Ok (tt, m) end
  | DrainTake core => drain_take core m
  | DrainGo k =>
      match drains m !! k with
      | Some d => if ran d then drain_count k d m else drain_run k d m
      | None => Ok (tt, m)
      end
  end.
Fixpoint happen (es : list event) : MM unit :=
  match es with [] => ret tt | e :: es' => happens e ;; happen es' end.
End cores.

(** ** One call at a time *)

Section exclusive.
Context (N : nat).

(** Events of cores that exist; a call begins when no other is under way. *)
Definition polite (e : event) (m : machine) : Prop :=
  match e with
  | Enter self _ _ _ tgt => calls m = ∅ /\ (self < N)%nat /\ (tgt < N)%nat
  | DrainTake core => (core < N)%nat
  | _ => True
  end.
Inductive reachable : machine -> Prop :=
| reachable_init : reachable (initialize_parallel N)
| reachable_step m e m' : reachable m -> polite e m -> happens N e m = Ok (tt, m') -> reachable m'.

(** The cores a call is for, and those whose item has been linked. *)
Definition targets (c : call) : list nat := match pol c with all => seq 0 N | specific => [target c] end.
Definition linked (c : call) : list nat :=
  match at_ c with
  | Count i | Fill i | Link i => match pol c with all => seq 0 i | specific => [] end
  | Send | Wait => targets c
  end.
Definition counted (c : call) : nat := match at_ c with Fill _ | Link _ => 1 | _ => 0 end.
Definition place_ok (c : call) : Prop :=
  (target c < N)%nat /\
  match at_ c with
  | Count i => match pol c with all => (i <= N)%nat | specific => i = target c end
  | Fill i | Link i => match pol c with all => (i < N)%nat | specific => i = target c end
  | _ => True
  end.
Definition of_frame (a : nat) (r : nat * nat * Z * Z) : Prop := r.1.1.2 = a.
#[global] Instance of_frame_dec a r : Decision (of_frame a r).
Proof. unfold of_frame. apply _. Defined.
(** The runs of a call. *)
Definition runs_of (a : nat) (m : machine) : list (nat * nat * Z * Z) := filter (of_frame a) (runs m).

(** What holds whether or not a call is under way: no item has a successor. *)
Record sound (m : machine) : Prop := mkSound {
  sd_items : length (items m) = (N * N)%nat;
  sd_queues : length (queues m) = N;
  sd_next : forall i x, items m !! i = Some x -> next x = None;
  sd_frames : Forall (fun r => (r.1.1.2 < next_frame m)%nat) (runs m)
}.
(** Nothing is under way. *)
Record idle (m : machine) : Prop := mkIdle {
  id_calls : calls m = ∅;
  id_states : states m = ∅;
  id_drains : drains m = [];
  id_heads : forall t q, queues m !! t = Some q -> _head q = None
}.
(** A call of [s]: each core it has linked its item for has the item in its queue, has
    taken it, or is done. *)
Record busy (m : machine) (s : nat) (c : call) (f ctx : Z) (waiting finished : list nat) : Prop := mkBusy {
  bs_calls : calls m = {[s := c]};
  bs_self : (s < N)%nat;
  bs_place : place_ok c;
  bs_linked : linked c ≡ₚ waiting ++ (on_core <$> drains m) ++ finished;
  bs_taken : Forall (fun d => taken d = item_of N s (on_core d)) (drains m);
  bs_heads : forall t q, queues m !! t = Some q -> _head q = if bool_decide (t ∈ waiting) then Some (item_of N s t) else None;
  bs_state : states m = {[frame c := mkState f ctx (length waiting + length (drains m) + counted c)]};
  bs_items : forall t, t ∈ linked c \/ at_ c = Link t -> exists x, items m !! item_of N s t = Some x /\ state x = Some (frame c);
  bs_runs : runs_of (frame c) m ≡ₚ (fun t => (t, frame c, f, ctx)) <$> (on_core <$> filter (fun d => ran d = true) (drains m)) ++ finished;
  bs_frame : (frame c < next_frame m)%nat
}.
Definition inv (m : machine) : Prop := sound m /\ (idle m \/ exists s c f ctx waiting finished, busy m s c f ctx waiting finished).

Lemma inv_init : inv (initialize_parallel N).
Proof.
  split; [split; cbn|left; split; cbn]; try done.
  - by rewrite length_replicate.
  - by rewrite length_replicate.
  - intros i x E. by apply lookup_replicate_1 in E as [-> _].
  - intros t q E. by apply lookup_replicate_1 in E as [-> _].
Qed.
Lemma item_of_lt s t : (s < N)%nat -> (t < N)%nat -> (item_of N s t < N * N)%nat.
Proof. intros. unfold item_of. nia. Qed.
Lemma item_of_inj s t t' : (t < N)%nat -> (t' < N)%nat -> item_of N s t = item_of N s t' -> t = t'.
Proof. unfold item_of. lia. Qed.
Lemma linked_lt c t : place_ok c -> t ∈ linked c -> (t < N)%nat.
Proof.
  unfold linked, targets, place_ok. intros [T P] H.
  destruct (at_ c), (pol c); rewrite ?elem_of_seq, ?list_elem_of_singleton, ?elem_of_nil in H; lia.
Qed.
Lemma linked_nodup c : NoDup (linked c).
Proof. unfold linked, targets. destruct (at_ c), (pol c); apply NoDup_seq || apply NoDup_singleton || apply NoDup_nil_2. Qed.

(** *** Each event keeps the invariant *)

Lemma runs_fresh m : sound m -> runs_of (next_frame m) m = [].
Proof.
  intros [_ _ _ F]. unfold runs_of. induction F as [|r l Hr _ IH]; [done|]. rewrite filter_cons_False; [done|]. unfold of_frame. lia.
Qed.
Lemma enter_keeps m s p f ctx tgt :
  sound m -> idle m -> (s < N)%nat -> (tgt < N)%nat -> exists m', enter s p f ctx tgt m = Ok (tt, m') /\ inv m'.
Proof.
  intros Sd [C S D H] Hs Ht. pose proof (runs_fresh m Sd) as R. destruct Sd as [S1 S2 S3 S4]. eexists. split; [reflexivity|]. split.
  - split; cbn; try done. eapply Forall_impl; [exact S4|]. cbn. lia.
  - right. exists s, (mkCall p tgt (next_frame m) (Count (match p with all => 0 | specific => tgt end))), f, ctx, [], [].
    split; cbn; try done.
    + by rewrite C, insert_empty.
    + unfold place_ok. cbn. destruct p; [split; lia|done].
    + rewrite D. cbn. unfold linked. cbn. by destruct p.
    + by rewrite D.
    + by rewrite S, D, insert_empty.
    + unfold linked. cbn. intros t [E|E]; [|done]. destruct p; cbn in E; by apply not_elem_of_nil in E.
    + unfold runs_of in *. cbn. by rewrite R, D.
    + lia.
Qed.

Section during.
Context (m : machine) (s : nat) (c : call) (f ctx : Z) (waiting finished : list nat).
Context (Sd : sound m) (B : busy m s c f ctx waiting finished).

Definition with_place (l : progress_at) : call := mkCall (pol c) (target c) (frame c) l.
Lemma lookup_frame : states m !! frame c = Some (mkState f ctx (length waiting + length (drains m) + counted c)).
Proof. rewrite (bs_state _ _ _ _ _ _ _ B). apply lookup_singleton_eq. Qed.
Lemma item_exists t : (t < N)%nat -> exists x, items m !! item_of N s t = Some x.
Proof. intros. apply lookup_lt_is_Some. rewrite (sd_items _ Sd). apply item_of_lt; [apply B|done]. Qed.

(** The machine when the caller has moved on. *)
Definition moved (its : list ipi_queue_item) (l : progress_at) : machine :=
  mkMachine its (queues m) {[frame c := mkState f ctx (length waiting + length (drains m) + counted (with_place l))]}
    {[s := with_place l]} (drains m) (next_frame m) (runs m).
Lemma moved_busy its l :
  place_ok (with_place l) -> linked (with_place l) = linked c ->
  (forall t, t ∈ linked (with_place l) \/ l = Link t -> exists x, its !! item_of N s t = Some x /\ state x = Some (frame c)) ->
  busy (moved its l) s (with_place l) f ctx waiting finished.
Proof.
  intros P' L' I'. destruct B as [C Hs P K T H St It R F].
  split; [reflexivity|exact Hs|exact P'|rewrite L'; exact K|exact T|exact H|reflexivity|exact I'|exact R|exact F].
Qed.
Lemma moved_sound its l : length its = length (items m) -> (forall i x, its !! i = Some x -> next x = None) -> sound (moved its l).
Proof. intros E H. destruct Sd as [S1 S2 S3 S4]. split; cbn; [by rewrite E|done..]. Qed.
Lemma moved_inv l :
  place_ok (with_place l) -> linked (with_place l) = linked c -> (forall t, l = Link t -> at_ c = Link t) -> inv (moved (items m) l).
Proof.
  intros P' L' I'. split; [apply moved_sound; [done|apply Sd]|]. right. do 6 eexists. apply moved_busy; [done|done|].
  intros t Ht. apply (bs_items _ _ _ _ _ _ _ B). rewrite L' in Ht. naive_solver.
Qed.
(** Moving without and with a new count. *)
Lemma move_eq l : counted c = counted (with_place l) -> move s c l m = Ok (tt, moved (items m) l).
Proof.
  intros E. unfold move, moved. cbn. rewrite (bs_calls _ _ _ _ _ _ _ B), insert_singleton_eq. destruct m as [a b st d e g h]. cbn.
  pose proof (bs_state _ _ _ _ _ _ _ B) as St. cbn in St. rewrite St, E. reflexivity.
Qed.
Lemma count_move_eq l n :
  n = (length waiting + length (drains m) + counted (with_place l))%nat ->
  bind (put_state (frame c) (mkState f ctx n)) (fun _ => move s c l) m = Ok (tt, moved (items m) l).
Proof.
  intros ->. unfold move, moved, put_state, put_states. cbn.
  rewrite (bs_calls _ _ _ _ _ _ _ B), insert_singleton_eq, (bs_state _ _ _ _ _ _ _ B), insert_singleton_eq. reflexivity.
Qed.
Lemma get_frame : get_state (Some (frame c)) m = Ok (mkState f ctx (length waiting + length (drains m) + counted c), m).
Proof. unfold get_state. by rewrite lookup_frame. Qed.

Lemma count_keeps i : at_ c = Count i -> exists m', advance N s c m = Ok (tt, m') /\ inv m'.
Proof.
  intros E. destruct B as [C Hs P K T H St It R F] eqn:EB. clear EB. unfold advance. rewrite E. unfold place_ok in P. rewrite E in P. destruct P as [P1 P2].
  assert (counted c = 0%nat) as C0 by (unfold counted; by rewrite E).
  assert (linked c = match pol c with all => seq 0 i | specific => [] end) as Lc by (unfold linked; by rewrite E).
  destruct (pol c) eqn:Ep; [destruct (Nat.ltb_spec i N) as [Hi|Hi]; cbn [matches]|].
  - erewrite bind_Ok; [|exact get_frame]. cbv beta. cbn [fptr context unfinished_cores].
    erewrite (count_move_eq (Fill i)) by (rewrite C0; cbn; lia). eexists. split; [reflexivity|].
    apply moved_inv; [split; [done|cbn; by rewrite Ep]|rewrite Lc; unfold linked; cbn; by rewrite Ep|done].
  - rewrite move_eq by done. eexists. split; [reflexivity|]. assert (i = N) as -> by lia.
    apply moved_inv; [done|rewrite Lc; unfold linked, targets; cbn; by rewrite Ep|done].
  - erewrite bind_Ok; [|exact get_frame]. cbv beta. cbn [fptr context unfinished_cores].
    assert (waiting = [] /\ drains m = []) as [Ew Ed].
    { rewrite Lc in K. symmetry in K. apply Permutation_nil_r in K. apply app_eq_nil in K as [-> [K _]%app_eq_nil]. split; [done|]. by apply fmap_nil_inv in K. }
    erewrite (count_move_eq (Fill i)) by (rewrite Ew, Ed; done). eexists. split; [reflexivity|].
    apply moved_inv; [split; [done|cbn; by rewrite Ep]|rewrite Lc; unfold linked; cbn; by rewrite Ep|done].
Qed.
Lemma fill_keeps i : at_ c = Fill i -> exists m', advance N s c m = Ok (tt, m') /\ inv m'.
Proof.
  intros E. pose proof (bs_place _ _ _ _ _ _ _ B) as P. pose proof (bs_items _ _ _ _ _ _ _ B) as It.
  unfold place_ok in P. rewrite E in P. destruct P as [P1 P2].
  assert (i < N)%nat as Hi by (destruct (pol c); lia). destruct (item_exists i Hi) as [x Ex].
  unfold advance. rewrite E. unfold get_item, put_item, bind at 1. rewrite Ex. unfold bind at 1.
  rewrite (proj2 (Nat.ltb_lt _ _)) by (by eapply lookup_lt_Some).
  set (its := <[item_of N s i := mkItem (next x) (Some (frame c))]> (items m)).
  exists (moved its (Link i)). split.
  { unfold move, moved. cbn. rewrite (bs_calls _ _ _ _ _ _ _ B), insert_singleton_eq, (bs_state _ _ _ _ _ _ _ B).
    assert (counted c = 1%nat) as -> by (unfold counted; by rewrite E). reflexivity. }
  split.
  - apply moved_sound; [apply length_insert|]. intros k y Ey. apply list_lookup_insert_Some in Ey as [(<- & <- & _)|[_ Ey]]; cbn; by eapply (sd_next _ Sd).
  - right. do 6 eexists. apply moved_busy; [split; [done|exact P2]|unfold linked; by rewrite E|].
    intros t Ht. destruct (decide (t = i)) as [->|N'].
    + eexists. split; [apply list_lookup_insert_eq; by eapply lookup_lt_Some|done].
    + destruct Ht as [Ht|[= ->]]; [|done]. assert (t ∈ linked c) as Ht' by (revert Ht; unfold linked; by rewrite E).
      pose proof (linked_lt c t (bs_place _ _ _ _ _ _ _ B) Ht'). unfold its. rewrite list_lookup_insert_ne; [by apply It; left|].
      intros Q. apply item_of_inj in Q; [done|lia|lia].
Qed.
Lemma send_keeps : at_ c = Send -> exists m', advance N s c m = Ok (tt, m') /\ inv m'.
Proof.
  intros E. pose proof (bs_place _ _ _ _ _ _ _ B) as [P1 _]. unfold advance. rewrite E.
  rewrite move_eq by (unfold counted; by rewrite E). eexists. split; [reflexivity|].
  apply moved_inv; [done|unfold linked; by rewrite E|done].
Qed.

Lemma parts_nodup : NoDup (waiting ++ (on_core <$> drains m) ++ finished).
Proof. rewrite <- (bs_linked _ _ _ _ _ _ _ B). apply linked_nodup. Qed.
Lemma part_linked t : t ∈ waiting ++ (on_core <$> drains m) ++ finished -> t ∈ linked c /\ (t < N)%nat.
Proof. rewrite <- (bs_linked _ _ _ _ _ _ _ B). intros H. split; [done|]. eapply linked_lt; [apply B|done]. Qed.
Lemma queue_exists t : (t < N)%nat -> exists q, queues m !! t = Some q /\ _head q = if bool_decide (t ∈ waiting) then Some (item_of N s t) else None.
Proof.
  intros H. destruct (lookup_lt_is_Some_2 (queues m) t) as [q E]; [by rewrite (sd_queues _ Sd)|]. exists q. split; [done|]. by eapply (bs_heads _ _ _ _ _ _ _ B).
Qed.

(** The item for core [i] is linked. *)
Lemma link_keeps i : at_ c = Link i -> exists m', advance N s c m = Ok (tt, m') /\ inv m'.
Proof.
  intros E. pose proof (bs_place _ _ _ _ _ _ _ B) as P. unfold place_ok in P. rewrite E in P. destruct P as [P1 P2].
  assert (i < N)%nat as Hi by (destruct (pol c); lia). destruct (queue_exists i Hi) as (q & Eq & Hq).
  assert (linked c = match pol c with all => seq 0 i | specific => [] end) as Lc by (unfold linked; by rewrite E).
  assert (i ∉ waiting) as Nw.
  { intros Hw. destruct (part_linked i) as [L _]; [set_solver|]. rewrite Lc in L. destruct (pol c); [apply elem_of_seq in L; lia|by apply not_elem_of_nil in L]. }
  rewrite bool_decide_false in Hq by done.
  unfold advance. rewrite E, (proj2 (Nat.ltb_lt _ _)) by done. unfold push, get_queue, put_queue, move, put_calls, bind, gets, modify.
  rewrite Eq, Hq. cbn. eexists. split; [reflexivity|]. destruct B as [C Hs P K T H St It R F]. destruct Sd as [S1 S2 S3 S4].
  set (l' := match pol c with all => Count (S i) | specific => Send end).
  assert (linked (with_place l') = linked c ++ [i]) as Ll.
  { rewrite Lc. unfold linked, targets, with_place, l'. cbn [at_ pol target frame]. destruct (pol c); [by rewrite seq_S|by rewrite P2]. }
  split; [split; cbn; [done|by rewrite length_insert|done|done]|]. right. exists s, (with_place l'), f, ctx, (i :: waiting), finished.
  split; cbn.
  - by rewrite C, insert_singleton_eq.
  - done.
  - unfold place_ok, l'. cbn. by destruct (pol c).
  - rewrite Ll, K. by rewrite Permutation_app_comm.
  - done.
  - intros t q' Eq'. apply list_lookup_insert_Some in Eq' as [(<- & <- & _)|[Nt Eq']]; cbn.
    + by rewrite bool_decide_true by left.
    + rewrite (H t q' Eq'). by rewrite (bool_decide_ext (t ∈ i :: waiting) (t ∈ waiting)) by set_solver.
  - rewrite St. assert (counted (with_place l') = 0%nat) as -> by (unfold l'; by destruct (pol c)). unfold counted. rewrite E. rewrite insert_empty. do 2 f_equal. lia.
  - intros t Ht. apply It. rewrite Ll in Ht. rewrite elem_of_app, list_elem_of_singleton in Ht. unfold l' in Ht.
    destruct Ht as [[Ht| ->]|Ht]; [by left|by right|by destruct (pol c)].
  - done.
  - done.
Qed.
Lemma wait_keeps : at_ c = Wait -> exists m', advance N s c m = Ok (tt, m') /\ inv m'.
Proof.
  intros E. unfold advance. rewrite E. erewrite bind_Ok; [|exact get_frame]. cbv beta. cbn [unfinished_cores].
  destruct (Nat.eqb_spec (length waiting + length (drains m) + counted c) 0) as [Z|Nz].
  - assert (waiting = [] /\ drains m = []) as [Ew Ed] by (split; apply nil_length_inv; lia).
    destruct B as [C Hs P K T H St It R F]. eexists. split; [reflexivity|]. split; [destruct Sd; by split|]. left. split; cbn.
    + by rewrite C, delete_singleton_eq.
    + by rewrite St, delete_singleton_eq.
    + done.
    + intros t q Eq. rewrite (H t q Eq). rewrite Ew. by rewrite bool_decide_false by apply not_elem_of_nil.
  - exists m. split; [done|]. split; [done|]. right. eauto 10.
Qed.
(** A core takes the item in its queue. *)
Lemma take_keeps t : (t < N)%nat -> exists m', drain_take t m = Ok (tt, m') /\ inv m'.
Proof.
  intros Ht. destruct (queue_exists t Ht) as (q & Eq & Hq). destruct (item_exists t Ht) as [x Ex].
  unfold drain_take, take_head, get_queue, get_item, put_queue, put_drains, ret, bind, gets, modify. rewrite Eq, Hq.
  case_bool_decide as Hw; [|exists m; split; [done|]; split; [done|]; right; eauto 10].
  rewrite Ex. cbn. eexists. split; [reflexivity|]. pose proof parts_nodup as ND. destruct B as [C Hs P K T H St It R F]. destruct Sd as [S1 S2 S3 S4].
  split; [split; cbn; [done|by rewrite length_insert|done|done]|]. right.
  apply elem_of_Permutation in Hw as [w' Ew]. exists s, c, f, ctx, w', finished.
  rewrite Ew in ND. cbn in ND. apply NoDup_cons in ND as [Nt ND]. split; cbn; try done.
  - rewrite K, Ew. cbn. by rewrite <- Permutation_middle.
  - by constructor.
  - intros t' q' Eq'. apply list_lookup_insert_Some in Eq' as [(<- & <- & _)|[Nt' Eq']]; cbn.
    + rewrite (S3 _ _ Ex). rewrite bool_decide_false; [done|]. set_solver.
    + rewrite (H t' q' Eq'). by rewrite (bool_decide_ext (t' ∈ waiting) (t' ∈ w')) by (rewrite Ew; set_solver).
  - rewrite St, Ew. cbn. do 3 f_equal. lia.
Qed.
Section drain.
Context (k : nat) (d : activation) (Hk : drains m !! k = Some d).

Lemma drain_parts : exists l1 l2, drains m = l1 ++ d :: l2 /\ k = length l1.
Proof. exists (take k (drains m)), (drop (S k) (drains m)). rewrite take_drop_middle by done. split; [done|]. rewrite length_take. apply lookup_lt_Some in Hk. lia. Qed.
Lemma drain_item : exists x, items m !! taken d = Some x /\ state x = Some (frame c).
Proof.
  pose proof (bs_taken _ _ _ _ _ _ _ B) as T. rewrite Forall_lookup in T. rewrite (T k d Hk). apply (bs_items _ _ _ _ _ _ _ B). left.
  apply part_linked. apply elem_of_app. right. apply elem_of_app. left. apply list_elem_of_fmap. exists d. split; [done|]. by eapply list_elem_of_lookup_2.
Qed.
(** The function runs, and then the count goes down. *)
Lemma run_keeps : ran d = false -> exists m', drain_run k d m = Ok (tt, m') /\ inv m'.
Proof.
  intros Hr. destruct drain_item as (x & Ex & Es). destruct drain_parts as (l1 & l2 & Ed & El). pose proof lookup_frame as L.
  unfold drain_run, get_item, get_state, add_run, put_drains, bind, gets, modify. rewrite Ex, Es, L. cbn.
  eexists. split; [reflexivity|]. destruct B as [C Hs P K T H St It R F]. destruct Sd as [S1 S2 S3 S4].
  split; [split; cbn; [done|done|done|by constructor]|]. right. exists s, c, f, ctx, waiting, finished.
  assert (<[k := mkActivation (on_core d) (taken d) true]> (drains m) = l1 ++ mkActivation (on_core d) (taken d) true :: l2) as Ei.
  { rewrite Ed, El. rewrite insert_app_r_alt, Nat.sub_diag by done. done. }
  split; cbn [items queues states calls drains next_frame runs]; rewrite ?Ei; try done.
  - rewrite K, Ed. by rewrite !fmap_app.
  - rewrite Ed in T. apply Forall_app in T as [T1 [T2 T3]%Forall_cons]. apply Forall_app. split; [done|]. by constructor.
  - rewrite St, Ed, !length_app. done.
  - unfold runs_of in *. cbn [runs]. rewrite filter_cons_True by done. rewrite R, Ed, !filter_app, filter_cons_False, filter_cons_True by (done || (by rewrite Hr)).
    rewrite !fmap_app. cbn. rewrite <- Permutation_middle. cbn. by rewrite <- app_assoc.
Qed.
Lemma count_down_keeps : ran d = true -> exists m', drain_count k d m = Ok (tt, m') /\ inv m'.
Proof.
  intros Hr. destruct drain_item as (x & Ex & Es). destruct drain_parts as (l1 & l2 & Ed & El). pose proof lookup_frame as L.
  unfold drain_count, get_item, get_state, put_state, put_states, put_drains, bind, gets, modify. rewrite Ex, Es, L. cbn.
  eexists. split; [reflexivity|]. destruct B as [C Hs P K T H St It R F]. destruct Sd as [S1 S2 S3 S4].
  split; [by split|]. right. exists s, c, f, ctx, waiting, (on_core d :: finished).
  assert (delete k (drains m) = l1 ++ l2) as Ei by (rewrite Ed, El; apply delete_middle).
  split; cbn [items queues states calls drains next_frame runs]; rewrite ?Ei; try done.
  - rewrite K, Ed, !fmap_app. cbn. apply Permutation_app_head. rewrite <- !app_assoc. cbn. rewrite <- !Permutation_middle. done.
  - rewrite Ed in T. apply Forall_app in T as [T1 [T2 T3]%Forall_cons]. by apply Forall_app.
  - rewrite St, insert_singleton_eq, Ed, !length_app. cbn [length]. do 2 f_equal.
    replace (length waiting + (length l1 + S (length l2)) + counted c)%nat with (S (length waiting + (length l1 + length l2) + counted c)) by lia. done.
  - rewrite R, Ed, !filter_app, filter_cons_True by done. rewrite !fmap_app. cbn. rewrite <- !app_assoc. cbn. rewrite <- !Permutation_middle. done.
Qed.
End drain.
End during.

Lemma event_keeps e m : inv m -> polite e m -> exists m', happens N e m = Ok (tt, m') /\ inv m'.
Proof.
  intros I P. pose proof I as [Sd [Id|(s & c & f & ctx & w & d & B)]].
  - pose proof Id as [C St D H]. destruct e as [self p f ctx tgt|self|core|k]; cbn [happens polite] in *.
    + rewrite C, lookup_empty. destruct P as (_ & P1 & P2). by apply enter_keeps.
    + rewrite C, lookup_empty. eauto.
    + destruct (lookup_lt_is_Some_2 (queues m) core) as [q Eq]; [by rewrite (sd_queues _ Sd)|].
      unfold drain_take, take_head, get_queue, bind. rewrite Eq, (H core q Eq). eauto.
    + rewrite D. eauto.
  - destruct e as [self p f' ctx' tgt|self|core|k]; cbn [happens polite] in *.
    + destruct P as (P & _). rewrite (bs_calls _ _ _ _ _ _ _ B) in P. by apply map_non_empty_singleton in P.
    + rewrite (bs_calls _ _ _ _ _ _ _ B). destruct (decide (self = s)) as [->|Ns]; [|rewrite lookup_singleton_ne by done; eauto].
      rewrite lookup_singleton_eq. destruct (at_ c) as [i|i|i| |] eqn:E.
      * by eapply count_keeps.
      * by eapply fill_keeps.
      * by eapply link_keeps.
      * by eapply send_keeps.
      * by eapply wait_keeps.
    + by eapply take_keeps.
    + destruct (drains m !! k) as [a|] eqn:Ek; [|by eauto]. destruct (ran a) eqn:Er; [by eapply count_down_keeps|by eapply run_keeps].
Qed.
Lemma reachable_inv m : reachable m -> inv m.
Proof.
  induction 1 as [|m e m' _ I P E]; [apply inv_init|]. destruct (event_keeps e m I P) as (m2 & E2 & I2). rewrite E in E2. by injection E2 as <-.
Qed.

(** C14: Calls across cores, one at a time.  However the accesses of the cores interleave, as long as
    a call begins only when no other is under way: no access goes wrong, and when the loop of the caller
    ends, each core the call is for has run its function on its argument, once, and no other core has. *)
Theorem exclusive_calls_run_once m :
  reachable m ->
  (forall e, polite e m -> exists m', happens N e m = Ok (tt, m'))
  /\ forall s c st, calls m !! s = Some c -> at_ c = Wait -> states m !! frame c = Some st -> unfinished_cores st = 0%nat ->
     runs_of (frame c) m ≡ₚ (fun t => (t, frame c, fptr st, context st)) <$> targets c.
Proof.
  intros R%reachable_inv. split.
  - intros e P. destruct (event_keeps e m R P) as (m' & E & _). eauto.
  - intros s c st Ec Ew Es Eu. destruct R as [Sd [Id|(s' & c' & f & ctx & w & d & B)]].
    { rewrite (id_calls _ Id), lookup_empty in Ec. done. }
    pose proof B as [C _ _ K _ _ St _ Rn _]. rewrite C in Ec. apply lookup_singleton_Some in Ec as [-> ->].
    rewrite St, lookup_singleton_eq in Es. injection Es as <-. cbn in Eu |- *.
    assert (w = [] /\ drains m = []) as [-> Ed] by (split; apply nil_length_inv; lia).
    rewrite Rn, Ed in *. cbn in *. unfold linked in K. rewrite Ew in K. by rewrite K.
Qed.
End exclusive.

(** ** Runs *)

(** Core 0 asks both cores; core 1 drains its queue, core 0 its own. *)
Definition broadcast_events : list event :=
  [Enter 0 all 7 9 0] ++ replicate 9 (Advance 0) ++ [DrainTake 1; DrainTake 0; DrainGo 1; DrainGo 0; DrainGo 1; DrainGo 0].
Definition polite_b (N : nat) (e : event) (m : machine) : bool :=
  match e with
  | Enter self _ _ _ tgt => bool_decide (map_to_list (calls m) = []) && (self <? N)%nat && (tgt <? N)%nat
  | DrainTake core => (core <? N)%nat
  | _ => true
  end.
Lemma polite_b_spec N e m : polite_b N e m = true -> polite N e m.
Proof.
  destruct e; cbn; try done; [|by intros ?%Nat.ltb_lt]. intros [[H%bool_decide_eq_true ?%Nat.ltb_lt]%andb_true_iff ?%Nat.ltb_lt]%andb_true_iff.
  split; [by apply map_to_list_empty_iff|done].
Qed.
Fixpoint polite_all (N : nat) (es : list event) (m : machine) : bool :=
  match es with
  | [] => true
  | e :: es' => polite_b N e m && match happens N e m with Ok (_, m') => polite_all N es' m' | Err _ => false end
  end.
Lemma reachable_run N es : forall m m', reachable N m -> polite_all N es m = true -> happen N es m = Ok (tt, m') -> reachable N m'.
Proof.
  induction es as [|e es IH]; intros m m' R P E; cbn in *; [unfold ret in E; by simplify_eq|]. apply andb_true_iff in P as [P1%polite_b_spec P2].
  destruct (happens N e m) as [[[] m1]|] eqn:Ee; [|done]. rewrite (bind_Ok _ _ _ _ _ Ee) in E. apply (IH m1); [by eapply reachable_step|done|done].
Qed.
Definition after_broadcast : machine := match happen 2 broadcast_events (initialize_parallel 2) with Ok (_, m) => m | Err _ => initialize_parallel 2 end.
Lemma exclusive_calls_run_once_witness :
  (forall e, polite 2 e after_broadcast -> exists m', happens 2 e after_broadcast = Ok (tt, m'))
  /\ runs_of 0 after_broadcast ≡ₚ [(0%nat, 0%nat, 7, 9); (1%nat, 0%nat, 7, 9)].
Proof.
  assert (reachable 2 after_broadcast) as R.
  { apply (reachable_run 2 broadcast_events (initialize_parallel 2)); [constructor|vm_compute; reflexivity|vm_compute; reflexivity]. }
  destruct (exclusive_calls_run_once 2 after_broadcast R) as [H1 H2]. split; [exact H1|].
  apply (H2 0%nat (mkCall all 0 0 Wait) (mkState 7 9 0)); reflexivity.
Defined.

(** Two calls that overlap on the queue of core 1 leave a link from the item of the first to that of the
    second; the next call of core 0 makes core 1 follow it, to the stack of a call that has returned. *)
Example stale_link_followed :
  happen 2 ([Enter 0 specific 7 9 1; Advance 0; Advance 0; Advance 0; Enter 1 specific 8 9 1; Advance 1; Advance 1; Advance 1]
         ++ [DrainTake 1; DrainGo 0; DrainGo 0; DrainTake 1; DrainGo 0; DrainGo 0; Advance 0; Advance 0; Advance 1; Advance 1]
         ++ [Enter 0 specific 7 9 1; Advance 0; Advance 0; Advance 0; DrainTake 1; DrainGo 0; DrainGo 0; DrainTake 1; DrainGo 0])
    (initialize_parallel 2) = Err Fault.
Proof. vm_compute. reflexivity. Qed.
