(* ===== verification/ChainedAllocator.v ===== *)
(** * The allocator of kernel objects: kernel/util/chained_allocator.h

    Objects of one type come from frames cut into as many slots as fit; the free slots
    are chained through the first two words of each.  [sizeof] is the size of the type
    and [junk] what a frame holds before it is used.  The frames come from any
    [FrameAllocator]. *)
From S2P Require Import Prelude Pmm.

(** [chained_head] and the links in the slots, [prev] and [next]. *)
Record pool (F : Type) : Type := mkPool { frames : F; links : gmap Z (Z * Z); chained_head : Z }.
Arguments mkPool {F} _ _ _.
Arguments frames {F} _.
Arguments links {F} _.
Arguments chained_head {F} _.

Section ops.
Context {F : Type} {FA : FrameAllocator F} (sizeof : Z) (junk : Z -> Z * Z).
Abbreviation CM := (M (pool F)).

Definition link (m : gmap Z (Z * Z)) (p : Z) : Z * Z := default (junk p) (m !! p).
Definition put_link (p : Z) (l : Z * Z) (m : gmap Z (Z * Z)) : gmap Z (Z * Z) := <[p := l]> m.
Definition set_prev (p v : Z) (m : gmap Z (Z * Z)) : gmap Z (Z * Z) := put_link p (v, (link m p).2) m.
Definition set_next (p v : Z) (m : gmap Z (Z * Z)) : gmap Z (Z * Z) := put_link p ((link m p).1, v) m.
Definition on_frames {A} (m : M F A) : CM A := fun s =>
  match m (frames s) with Ok (a, f) => Ok (a, mkPool f (links s) (chained_head s)) | Err e => Err e end.
Definition on_links (f : gmap Z (Z * Z) -> gmap Z (Z * Z)) : CM unit := modify (fun s => mkPool (frames s) (f (links s)) (chained_head s)).
Definition set_chained_head (p : Z) : CM unit := modify (fun s => mkPool (frames s) (links s) p).

(** [first + i] *)
Definition element (first i : Z) : Z := u64 (first + i * sizeof).
(** The loop that chains a new frame. *)
Fixpoint chain_loop (fuel : nat) (first i : Z) (m : gmap Z (Z * Z)) : res (gmap Z (Z * Z)) :=
  match fuel with
  | O => Err NoFuel
  | S n =>
      if (i + 1) * sizeof <=? 4096 then
        let m := set_next (element first (i - 1)) (element first i) m in
        let m := set_prev (element first i) (element first (i - 1)) m in
        chain_loop n first (i + 1) (set_next (element first i) 0 m)
      else Ok m
  end.
Definition add_frame : CM unit :=
  let* frame_address := on_frames fa_pop in
  let first := u64 (frame_address + physmem_base) in
  on_links (set_prev first 0) ;;
  (fun s => match chain_loop 4097 first 1 (links s) with Ok m => Ok (tt, mkPool (frames s) m (chained_head s)) | Err e => Err e end) ;;
  set_chained_head first.
Definition allocate_chained : CM Z :=
  let* h := gets chained_head in
  (if h =? 0 then add_frame else ret tt) ;;
  let* r := gets chained_head in
  let* m := gets links in
  set_chained_head (link m r).2 ;;
  ret r.
Definition deallocate_chained (ptr : Z) : CM unit :=
  let* h := gets chained_head in
  on_links (set_prev ptr 0) ;;
  on_links (set_next ptr h) ;;
  (if negb (h =? 0) then on_links (set_prev h ptr) else ret tt) ;;
  set_chained_head ptr.
(** The operators of [chained_allocatable]. *)
Definition operator_new (size : Z) : CM Z :=
  if negb (size =? sizeof) then panic "Tried to allocate more than one chained object." else allocate_chained.
Definition operator_delete (p : Z) : CM unit := deallocate_chained p.

(** ** Slots *)

Definition slot_count : nat := Z.to_nat (4096 / sizeof).
Definition slots_from (first : Z) (n : nat) : list Z := (fun i => first + Z.of_nat i * sizeof) <$> seq 0 n.
Definition slots (f : Z) : list Z := slots_from (f + physmem_base) slot_count.
(** A frame whose memory the kernel can reach. *)
Definition reachable_frame (f : Z) : Prop := 0 <= f < 2 ^ 46 /\ f mod 4096 = 0.

(** The free slots from [p] on. *)
Fixpoint chained (m : gmap Z (Z * Z)) (p : Z) (l : list Z) : Prop :=
  match l with
  | [] => p = 0
  | x :: l' => p = x /\ x <> 0 /\ chained m (link m x).2 l'
  end.
Lemma chained_frame m m' p l : (forall x, x ∈ l -> (link m' x).2 = (link m x).2) -> chained m p l -> chained m' p l.
Proof.
  revert p. induction l as [|x l IH]; intros p H; cbn; [done|]. intros (-> & N & C). split; [done|]. split; [done|].
  rewrite H by left. apply IH; [|done]. intros y Hy. apply H. by right.
Qed.
Lemma link_put m p l q : link (put_link p l m) q = if bool_decide (q = p) then l else link m q.
Proof.
  unfold link, put_link. case_bool_decide as E; [by subst; rewrite lookup_insert_eq|by rewrite lookup_insert_ne].
Qed.
Lemma next_set_next m p v q : (link (set_next p v m) q).2 = if bool_decide (q = p) then v else (link m q).2.
Proof. unfold set_next. rewrite link_put. by case_bool_decide. Qed.
Lemma next_set_prev m p v q : (link (set_prev p v m) q).2 = (link m q).2.
Proof. unfold set_prev. rewrite link_put. by case_bool_decide as E; [subst|]. Qed.

(** A slot after the last one. *)
Lemma chained_snoc m m' p l x y :
  chained m p (l ++ [x]) -> y <> 0 -> y ∉ l ++ [x] -> x ∉ l ->
  (forall q, q ∈ l -> (link m' q).2 = (link m q).2) -> (link m' x).2 = y -> (link m' y).2 = 0 ->
  chained m' p (l ++ [x; y]).
Proof.
  intros C Ny Hy Hx Hl Ex Ey. revert p C. induction l as [|z l IH]; intros p; cbn.
  - intros (-> & N & _). by rewrite Ex, Ey.
  - intros (-> & N & C). split; [done|]. split; [done|]. rewrite Hl by left.
    apply IH; [set_solver|set_solver| |done]. intros q Hq. apply Hl. by right.
Qed.

Section laws.
Context (Hsize : 16 <= sizeof <= 2048).

Lemma count_bounds : Z.of_nat slot_count * sizeof <= 4096 < (Z.of_nat slot_count + 1) * sizeof /\ (2 <= slot_count)%nat.
Proof.
  unfold slot_count. pose proof (Z.div_pos 4096 sizeof). pose proof (Z.mul_div_le 4096 sizeof). pose proof (Z.mul_succ_div_gt 4096 sizeof).
  pose proof (Z.div_le_lower_bound 4096 sizeof 2). lia.
Qed.
Lemma element_eq f i : reachable_frame f -> 0 <= i <= 256 -> i * sizeof <= 4096 -> element (f + physmem_base) i = f + physmem_base + i * sizeof.
Proof. unfold reachable_frame, element. intros [H _] Hi Hs. apply u64_id. unfold is_u64, physmem_base. nia. Qed.
Lemma slots_from_S first n : slots_from first (S n) = slots_from first n ++ [first + Z.of_nat n * sizeof].
Proof. unfold slots_from. by rewrite seq_S, fmap_app. Qed.
Lemma slots_from_elem first n x : x ∈ slots_from first n <-> exists i, (i < n)%nat /\ x = first + Z.of_nat i * sizeof.
Proof. unfold slots_from. rewrite list_elem_of_fmap. setoid_rewrite elem_of_seq. split; intros (i & H); exists i; naive_solver lia. Qed.
Lemma slots_from_nodup first n : NoDup (slots_from first n).
Proof. unfold slots_from. apply NoDup_fmap_2; [|apply NoDup_seq]. intros i j E. nia. Qed.
Lemma slots_bounds f x : reachable_frame f -> x ∈ slots f -> f + physmem_base <= x /\ x + sizeof <= f + physmem_base + 4096 /\ x <> 0.
Proof.
  intros [H _] (i & Hi & ->)%slots_from_elem. pose proof count_bounds. unfold physmem_base in *. nia.
Qed.

Lemma chain_loop_chains f k : forall n m fuel,
  reachable_frame f -> (n + k = slot_count)%nat -> (0 < n)%nat -> (k < fuel)%nat ->
  chained m (f + physmem_base) (slots_from (f + physmem_base) n) ->
  exists m', chain_loop fuel (f + physmem_base) (Z.of_nat n) m = Ok m' /\ chained m' (f + physmem_base) (slots f)
    /\ forall x, x ∉ slots f -> link m' x = link m x.
Proof.
  pose proof count_bounds as [[C1 C2] _].
  induction k as [|k IH]; intros n m [|fuel] Hf Hn Hp Hk C; [lia| |lia|]; cbn [chain_loop].
  - rewrite (proj2 (Z.leb_gt _ _)) by nia. exists m. split; [done|]. split; [|done]. unfold slots. by replace slot_count with n by lia.
  - rewrite (proj2 (Z.leb_le _ _)) by nia. rewrite !element_eq by (done || nia).
    set (a := f + physmem_base + (Z.of_nat n - 1) * sizeof). set (b := f + physmem_base + Z.of_nat n * sizeof).
    set (m1 := set_next b 0 (set_prev b a (set_next a b m))).
    assert (a <> b) as Nab by (unfold a, b; nia).
    assert (a ∈ slots f /\ b ∈ slots f) as [Sa Sb].
    { split; apply slots_from_elem; [exists (n - 1)%nat|exists n]; (split; [lia|]); unfold a, b; f_equal; f_equal; lia. }
    assert (forall q, q <> a -> q <> b -> link m1 q = link m q) as Hq.
    { intros q Na Nb. unfold m1, set_next, set_prev. rewrite !link_put, !bool_decide_false by done. done. }
    destruct (IH (S n) m1 fuel) as (m' & E & C' & H'); [done|lia|lia|lia| |].
    + destruct n as [|n']; [lia|]. rewrite !slots_from_S, <- (assoc_L (++)). rewrite slots_from_S in C.
      assert (f + physmem_base + Z.of_nat n' * sizeof = a) as Ea by (unfold a; lia).
      assert (f + physmem_base + Z.of_nat (S n') * sizeof = b) as Eb by (unfold b; lia). rewrite Ea, Eb in *. cbn [app].
      assert (forall q, q ∈ slots_from (f + physmem_base) n' -> q <> a /\ q <> b) as Hl.
      { intros q (i & Hi & ->)%slots_from_elem. unfold a, b. nia. }
      apply (chained_snoc m); [done| | | |intros q Hin; by rewrite Hq by apply Hl, Hin| |].
      * apply (slots_bounds f b Hf Sb).
      * rewrite elem_of_app, list_elem_of_singleton. intros [Hb|Hb]; [by apply Hl in Hb as [_ []]|done].
      * intros Ha. by apply Hl in Ha as [[] _].
      * unfold m1. rewrite next_set_next, next_set_prev, next_set_next. by rewrite bool_decide_false, bool_decide_true by done.
      * unfold m1. rewrite next_set_next. by rewrite bool_decide_true.
    + exists m'. replace (Z.of_nat n + 1) with (Z.of_nat (S n)) by lia. split; [done|]. split; [done|].
      intros x Hx. rewrite H' by done. apply Hq; set_solver.
Qed.

(** ** The pool *)

(** [owned] frames are cut into [free] and [live] slots; [avail] are the frames that can be had. *)
Record is_pool (s : pool F) (owned avail big free live : list Z) : Prop := mkIsPool {
  pl_chain : chained (links s) (chained_head s) free;
  pl_slots : free ++ live ≡ₚ mbind (M := list) slots owned;
  pl_frames : fa_free (frames s) avail big;
  pl_reach : Forall reachable_frame (owned ++ avail);
  pl_nodup : NoDup (owned ++ avail)
}.
(** [n] more objects can be had. *)
Definition pool_ok (s : pool F) (live : list Z) (n : nat) : Prop :=
  exists owned avail big free, is_pool s owned avail big free live /\ n = (length free + slot_count * length avail)%nat.
(** No two objects overlap. *)
Definition apart (live : list Z) : Prop :=
  NoDup live /\ forall p q, p ∈ live -> q ∈ live -> p <> q -> p + sizeof <= q \/ q + sizeof <= p.

Lemma slots_apart f g p q :
  reachable_frame f -> reachable_frame g -> p ∈ slots f -> q ∈ slots g -> p = q /\ f = g \/ p + sizeof <= q \/ q + sizeof <= p.
Proof.
  intros Hf Hg Hp Hq. pose proof (slots_bounds f p Hf Hp). pose proof (slots_bounds g q Hg Hq).
  destruct (Z.eq_dec f g) as [->|N].
  - apply slots_from_elem in Hp as (i & _ & ->). apply slots_from_elem in Hq as (j & _ & ->).
    destruct (Nat.lt_trichotomy i j) as [|[->|]]; [right; left; nia|by left|right; right; nia].
  - destruct Hf as [_ Hf], Hg as [_ Hg]. apply Z.mod_divide in Hf as [a Hf], Hg as [b Hg]; [|lia..]. right. assert (a <> b) by lia. lia.
Qed.
Lemma all_slots_nodup owned : Forall reachable_frame owned -> NoDup owned -> NoDup (mbind (M := list) slots owned).
Proof.
  induction owned as [|f owned IH]; intros R N; [by apply NoDup_nil_2|]. rewrite bind_cons. apply Forall_cons in R as [Rf R]. apply NoDup_cons in N as [Nf N].
  apply NoDup_app. split; [apply slots_from_nodup|]. split; [|by apply IH].
  intros x Hx (g & Hg & Hin)%list_elem_of_bind. assert (reachable_frame g) as Rg by (rewrite Forall_forall in R; by apply R).
  destruct (slots_apart f g x x Rf Rg Hx Hg) as [[_ ->]|H]; [done|lia].
Qed.
Lemma pool_apart s live n : pool_ok s live n -> apart live.
Proof.
  intros (owned & avail & big & free & [C S _ R N] & _). apply Forall_app in R as [R _]. apply NoDup_app in N as (N & _ & _).
  pose proof (all_slots_nodup owned R N) as ND. rewrite <- S in ND. apply NoDup_app in ND as (_ & _ & ND). split; [done|].
  assert (forall p, p ∈ live -> exists f, reachable_frame f /\ p ∈ slots f) as W.
  { intros p Hp. assert (p ∈ mbind (M := list) slots owned) as (f & Hf & Hin)%list_elem_of_bind by (rewrite <- S; set_solver).
    exists f. split; [|done]. rewrite Forall_forall in R. by apply R. }
  intros p q Hp Hq Npq. destruct (W p Hp) as (f & Rf & Hf), (W q Hq) as (g & Rg & Hg).
  destruct (slots_apart f g p q Rf Rg Hf Hg) as [[? _]|H]; done.
Qed.

(** The first slot's link is written before it is read. *)
Lemma chain_loop_first f fuel m :
  reachable_frame f -> chain_loop (S fuel) (f + physmem_base) 1 (set_next (f + physmem_base) 0 m) = chain_loop (S fuel) (f + physmem_base) 1 m.
Proof.
  intros Hf. cbn [chain_loop]. rewrite (proj2 (Z.leb_le _ _)) by lia.
  rewrite (element_eq f (1 - 1)) by (done || lia). replace (f + physmem_base + (1 - 1) * sizeof) with (f + physmem_base) by lia.
  do 3 f_equal. unfold set_next, put_link, link. by rewrite lookup_insert_eq, insert_insert_eq.
Qed.
Lemma frame_chained f m fuel :
  reachable_frame f -> (slot_count <= fuel)%nat ->
  exists m', chain_loop (S fuel) (f + physmem_base) 1 m = Ok m' /\ chained m' (f + physmem_base) (slots f).
Proof.
  intros Hf Hn. pose proof count_bounds as [_ Hc]. rewrite <- chain_loop_first by done.
  destruct (chain_loop_chains f (slot_count - 1) 1 (set_next (f + physmem_base) 0 m) (S fuel)) as (m' & E & C & _); [done|lia|lia|lia| |by exists m'].
  cbn. rewrite Z.add_0_r. split; [done|]. split; [destruct Hf; unfold physmem_base; lia|]. by rewrite next_set_next, bool_decide_true.
Qed.

(** A new frame, when no slot is free. *)
Lemma add_frame_ok s owned f avail big live :
  is_pool s owned (f :: avail) big [] live ->
  exists s', add_frame s = Ok (tt, s') /\ is_pool s' (f :: owned) avail big (slots f) live.
Proof.
  intros [C Sl Fr R N]. destruct (fa_pop_ok _ _ _ _ Fr) as (fr & Ep & Fr').
  assert (reachable_frame f) as Rf by (apply Forall_app in R as [_ [? _]%Forall_cons]; done).
  assert (u64 (f + physmem_base) = f + physmem_base) as Eu by (apply u64_id; destruct Rf; unfold is_u64, physmem_base; lia).
  assert (slot_count <= Z.to_nat 4096)%nat as Hn by (pose proof count_bounds; nia).
  destruct (frame_chained f (set_prev (f + physmem_base) 0 (links s)) _ Rf Hn) as (m1 & El & Cl).
  exists (mkPool fr m1 (f + physmem_base)). split.
  - unfold add_frame, on_frames, on_links, set_chained_head, bind, modify. rewrite Ep, Eu. cbn [frames links chained_head].
    change 4097%nat with (S (Z.to_nat 4096)). by rewrite El.
  - split; cbn [frames links chained_head]; [done| |done| |].
    + rewrite bind_cons. cbn in Sl. by rewrite Sl.
    + apply Forall_app in R as [R1 [R2 R3]%Forall_cons]. apply Forall_app. by split; [constructor|].
    + eapply NoDup_Permutation_proper; [|exact N]. cbn. by rewrite Permutation_middle.
Qed.
Lemma take_slot s owned avail big p free live :
  is_pool s owned avail big (p :: free) live ->
  is_pool (mkPool (frames s) (links s) (link (links s) p).2) owned avail big free (p :: live) /\ chained_head s = p /\ p <> 0.
Proof.
  intros [C Sl Fr R N]. cbn in C. destruct C as (E & Np & C). split; [|done]. split; cbn; try done. rewrite <- Sl. by rewrite <- Permutation_middle.
Qed.

Lemma new_ok s live n :
  pool_ok s live (S n) -> exists p s', operator_new sizeof s = Ok (p, s') /\ pool_ok s' (p :: live) n.
Proof.
  intros (owned & avail & big & free & P & En). unfold operator_new. rewrite Z.eqb_refl. cbn [negb].
  assert (exists s1 owned1 avail1 p free1, (if chained_head s =? 0 then add_frame else ret tt) s = Ok (tt, s1)
    /\ is_pool s1 owned1 avail1 big (p :: free1) live /\ n = (length free1 + slot_count * length avail1)%nat) as (s1 & owned1 & avail1 & p & free1 & E1 & P1 & En1).
  { destruct free as [|p free].
    - pose proof (pl_chain _ _ _ _ _ _ P) as C. cbn in C. rewrite C, Z.eqb_refl. destruct avail as [|f avail]; [cbn in En; lia|].
      destruct (add_frame_ok s owned f avail big live P) as (s1 & E1 & P1).
      assert (length (slots f) = slot_count) as Ls by (unfold slots, slots_from; by rewrite length_fmap, length_seq).
      destruct (slots f) as [|p free1] eqn:Es; [pose proof count_bounds; cbn in Ls; lia|].
      exists s1, (f :: owned), avail, p, free1. split; [done|]. split; [done|]. cbn in En, Ls. lia.
    - destruct (take_slot _ _ _ _ _ _ _ P) as (_ & Eh & Np). rewrite (proj2 (Z.eqb_neq _ _)) by (by rewrite Eh).
      exists s, owned, avail, p, free. split; [done|]. split; [done|]. cbn in En. lia. }
  destruct (take_slot _ _ _ _ _ _ _ P1) as (P2 & Eh & _).
  unfold allocate_chained. erewrite bind_Ok by reflexivity. erewrite bind_Ok; [|exact E1]. cbv beta.
  unfold bind, gets, set_chained_head, modify, ret. rewrite Eh. eexists p, _. split; [reflexivity|]. by exists owned1, avail1, big, free1.
Qed.
Lemma delete_ok s live p live' n :
  pool_ok s live n -> live ≡ₚ p :: live' -> exists s', operator_delete p s = Ok (tt, s') /\ pool_ok s' live' (S n).
Proof.
  intros (owned & avail & big & free & P & En) El. pose proof P as [C Sl Fr R N].
  assert (NoDup (free ++ live)) as ND by (rewrite Sl; apply all_slots_nodup; [by apply Forall_app in R as [? _]|by apply NoDup_app in N as (? & _ & _)]).
  assert (p ∉ free /\ p <> 0) as [Hp Np].
  { rewrite El in ND. apply NoDup_app in ND as (_ & D & _). split; [intros H; apply (D p H); left|].
    assert (p ∈ mbind (M := list) slots owned) as (f & Hf & Hin)%list_elem_of_bind by (rewrite <- Sl, El; set_solver).
    apply Forall_app in R as [R _]. rewrite Forall_forall in R. apply (slots_bounds f p); auto. }
  assert (exists m, operator_delete p s = Ok (tt, mkPool (frames s) m p) /\ (forall q, (link m q).2 = if bool_decide (q = p) then chained_head s else (link (links s) q).2)) as (m & E & Hm).
  { unfold operator_delete, deallocate_chained, on_links, set_chained_head, bind, gets, modify, ret.
    destruct (chained_head s =? 0); cbn; eexists; (split; [reflexivity|]); intros q; rewrite ?next_set_prev, next_set_next, next_set_prev; done. }
  eexists. split; [exact E|]. exists owned, avail, big, (p :: free). split; [|cbn; lia]. split; cbn [frames links chained_head]; try done.
  - cbn. split; [done|]. split; [done|]. rewrite Hm, bool_decide_true by done. eapply chained_frame; [|exact C].
    intros x Hx. rewrite Hm, bool_decide_false; [done|]. by intros ->.
  - rewrite <- Sl, El. cbn. by rewrite <- Permutation_middle.
Qed.
(** What the owner of an object writes into it. *)
Lemma write_ok s live n p l :
  pool_ok s live n -> p ∈ live -> pool_ok (mkPool (frames s) (put_link p l (links s)) (chained_head s)) live n.
Proof.
  intros (owned & avail & big & free & P & En) Hp. pose proof P as [C Sl Fr R N].
  assert (NoDup (free ++ live)) as ND by (rewrite Sl; apply all_slots_nodup; [by apply Forall_app in R as [? _]|by apply NoDup_app in N as (? & _ & _)]).
  apply NoDup_app in ND as (_ & D & _). exists owned, avail, big, free. split; [|done]. split; cbn [frames links chained_head]; try done.
  eapply chained_frame; [|exact C]. intros x Hx. rewrite link_put, bool_decide_false; [done|]. intros ->. by apply (D p).
Qed.
End laws.

(** ** Sequences of requests *)

(** Objects are named by their place in the list of those in use. *)
Inductive request : Type := New | Delete (i : nat) | Write (i : nat) (l : Z * Z).
Fixpoint serve (rs : list request) (live : list Z) (s : pool F) : res (list Z * pool F) :=
  match rs with
  | [] => Ok (live, s)
  | New :: rs' => match operator_new sizeof s with Ok (p, s') => serve rs' (p :: live) s' | Err e => Err e end
  | Delete i :: rs' =>
      match live !! i with
      | Some p => match operator_delete p s with Ok (_, s') => serve rs' (delete i live) s' | Err e => Err e end
      | None => serve rs' live s
      end
  | Write i l :: rs' =>
      match live !! i with
      | Some p => serve rs' live (mkPool (frames s) (put_link p l (links s)) (chained_head s))
      | None => serve rs' live s
      end
  end.
Fixpoint news (rs : list request) : nat := match rs with [] => 0 | New :: rs' => S (news rs') | _ :: rs' => news rs' end.

(** C31: The allocator of kernel objects, for types of which a frame holds at least two.  Any sequence of
    allocations, deletions and writes into the objects, with as many allocations as there is room for
    without the deletions, is served; the objects in use never overlap. *)
Theorem objects_stay_apart rs : forall s live n,
  16 <= sizeof <= 2048 -> pool_ok s live n -> (news rs <= n)%nat ->
  exists live' s' n', serve rs live s = Ok (live', s') /\ pool_ok s' live' n' /\ apart live'.
Proof.
  induction rs as [|r rs IH]; intros s live n Hs P Hn; cbn [serve].
  { exists live, s, n. split; [done|]. split; [done|]. by eapply pool_apart. }
  destruct r as [|i|i l]; cbn [news] in Hn.
  - destruct n as [|n]; [lia|]. destruct (new_ok Hs s live n P) as (p & s' & -> & P'). apply (IH s' (p :: live) n); [done|done|lia].
  - destruct (live !! i) as [p|] eqn:E; [|by apply (IH s live n)].
    destruct (delete_ok Hs s live p (delete i live) n P) as (s' & -> & P'); [by apply delete_Permutation|].
    apply (IH s' (delete i live) (S n)); [done|done|lia].
  - destruct (live !! i) as [p|] eqn:E; [|by apply (IH s live n)].
    apply (IH _ live n); [done| |done]. apply write_ok; [done|done|by eapply list_elem_of_lookup_2].
Qed.
End ops.

(** Objects of 1000 bytes on the frames of [few]: four to a frame. *)
Definition empty_pool : pool pmm := mkPool few ∅ 0.
Definition no_junk (_ : Z) : Z * Z := (0, 0).
Lemma empty_pool_ok : pool_ok 1000 no_junk empty_pool [] 12.
Proof.
  exists [], [0x3000; 0x2000; 0x1000], [0x200000], []. split; [|reflexivity]. split; cbn [frames links chained_head empty_pool app]; try done.
  - exists [0x200000], []. split; [exact few_rep|done].
  - repeat constructor; cbn; lia.
  - apply (bool_decide_unpack _). vm_compute. exact I.
Qed.
Definition example_requests : list request := [New; New; Write 0 (5, 6); New; New; New; Delete 3; Delete 0; New].
Lemma objects_stay_apart_witness :
  exists live' s' n', serve 1000 no_junk example_requests [] empty_pool = Ok (live', s') /\ pool_ok 1000 no_junk s' live' n' /\ apart 1000 live'.
Proof. apply (objects_stay_apart 1000 no_junk example_requests empty_pool [] 12); [lia|exact empty_pool_ok|cbn; lia]. Defined.
Example objects_served :
  match serve 1000 no_junk example_requests [] empty_pool with
  | Ok (live, _) => live = (fun x => x + physmem_base) <$> [0x2000; 0x3000 + 3000; 0x3000 + 2000; 0x3000]
  | Err _ => False
  end.
Proof. vm_compute. reflexivity. Qed.

(** A type of which a frame holds one: the link of the only slot is never written, and the allocator
    goes on with what the frame held. *)
Example single_slot_junk :
  match serve 3000 (fun _ => (1, 2)) [New; New] [] empty_pool with Ok (live, _) => live = [2; 0x3000 + physmem_base] | Err _ => False end.
Proof. vm_compute. reflexivity. Qed.
