(* ===== verification/RefCount.v ===== *)
(** * Counted references: kernel/util/intrusive_ptr.h

    The pointers of a program are numbered variables, which hold the address of an object
    or 0; an object counts the references to it and is deleted with the last one.  The
    destructors of the objects are not looked into.  A reference that was released with
    its count kept belongs to the code that got the raw pointer; these are the [kept]
    ones, of which the code has no record. *)
From S2P Require Import Prelude.

(** [counts] has the objects that exist, with their [intrusive_count]. *)
Record refs : Type := mkRefs { vars : list Z; counts : gmap Z Z }.
Abbreviation RM := (M refs).

Definition get_var (i : nat) : RM Z := fun s => match vars s !! i with Some p => Ok (p, s) | None => Err Fault end.
Definition set_var (i : nat) (p : Z) : RM unit := modify (fun s => mkRefs (<[i := p]> (vars s)) (counts s)).
Definition get_count (p : Z) : RM Z := fun s => match counts s !! p with Some n => Ok (n, s) | None => Err Fault end.
Definition set_count (p n : Z) : RM unit := modify (fun s => mkRefs (vars s) (<[p := n]> (counts s))).
Definition delete_object (p : Z) : RM unit := modify (fun s => mkRefs (vars s) (delete p (counts s))).

(** [_claim] and [_disown], on the pointer of a variable. *)
Definition _claim (i : nat) : RM unit :=
  let* p := get_var i in
  if p =? 0 then ret tt else let* n := get_count p in set_count p (u64 (n + 1)).
Definition _disown (i : nat) : RM unit :=
  let* p := get_var i in
  if p =? 0 then ret tt
  else
    let* n := get_count p in
    set_count p (u64 (n - 1)) ;;
    if n =? 1 then delete_object p else ret tt.

(** Constructors, of a variable that is not yet in use. *)
Definition construct (i : nat) (ptr : Z) : RM unit := set_var i ptr ;; _claim i.
Definition construct_adopt (i : nat) (ptr : Z) : RM unit := set_var i ptr.
Definition construct_copy (i other : nat) : RM unit := let* p := get_var other in set_var i p ;; _claim i.
Definition construct_move (i other : nat) : RM unit := let* p := get_var other in set_var other 0 ;; set_var i p.
(** [make_intrusive]: [o] is the address of the new object. *)
Definition make_intrusive (i : nat) (o : Z) : RM unit := set_count o 0 ;; construct i o.
(** Assignments; [std::exchange] is done before the pointer is stored. *)
Definition assign_copy (i other : nat) : RM unit :=
  _disown i ;; let* p := get_var other in set_var i p ;; _claim i.
Definition assign_move (i other : nat) : RM unit :=
  _disown i ;; let* p := get_var other in set_var other 0 ;; set_var i p.
(** The destructor; a variable that is gone is null. *)
Definition destroy (i : nat) : RM unit := _disown i ;; set_var i 0.
Definition release_keep (i : nat) : RM Z := let* p := get_var i in set_var i 0 ;; ret p.
Definition release_drop (i : nat) : RM Z :=
  let* p := get_var i in
  let* n := get_count p in
  set_count p (u64 (n - 1)) ;;
  set_var i 0 ;;
  ret p.

(** ** What the counts mean *)

Definition occ (p : Z) (l : list Z) : Z := Z.of_nat (count_occ Z.eq_dec l p).
(** [extra] references exist besides the variables. *)
Record exact (s : refs) (extra : list Z) : Prop := mkExact {
  ex_count : forall o n, counts s !! o = Some n -> n = occ o (vars s) + occ o extra;
  ex_live : forall p, p ∈ vars s ++ extra -> p = 0 \/ is_Some (counts s !! p);
  ex_null : counts s !! 0 = None
}.
(** There are fewer references than a count can count. *)
Definition few_refs (s : refs) (extra : list Z) : Prop := Z.of_nat (length (vars s)) + Z.of_nat (length extra) < 2 ^ 63.

Lemma occ_cons p x l : occ p (x :: l) = (if bool_decide (x = p) then 1 else 0) + occ p l.
Proof. unfold occ. cbn. destruct (Z.eq_dec x p); [rewrite bool_decide_true by done|rewrite bool_decide_false by done]; lia. Qed.
Lemma occ_app p l1 l2 : occ p (l1 ++ l2) = occ p l1 + occ p l2.
Proof. unfold occ. rewrite count_occ_app. lia. Qed.
Lemma occ_nonneg p l : 0 <= occ p l.
Proof. unfold occ. lia. Qed.
Lemma occ_le p l : occ p l <= Z.of_nat (length l).
Proof. unfold occ. apply inj_le, count_occ_bound. Qed.
Lemma occ_in p l : p ∈ l -> 1 <= occ p l.
Proof. intros H. apply list_elem_of_In in H. apply (count_occ_In Z.eq_dec) in H. unfold occ. lia. Qed.
Lemma occ_perm p l1 l2 : l1 ≡ₚ l2 -> occ p l1 = occ p l2.
Proof. intros H. unfold occ. f_equal. by apply Permutation_count_occ. Qed.
(** Writing a variable. *)
Lemma occ_insert q i p x l : l !! i = Some x -> occ q (<[i := p]> l) = occ q l - (if bool_decide (x = q) then 1 else 0) + (if bool_decide (p = q) then 1 else 0).
Proof.
  intros E. assert (l ≡ₚ x :: delete i l) as P by (by apply delete_Permutation).
  assert (<[i := p]> l ≡ₚ p :: delete i l) as P'.
  { rewrite insert_take_drop by (by eapply lookup_lt_Some). rewrite delete_take_drop. by rewrite Permutation_middle. }
  rewrite (occ_perm q _ _ P), (occ_perm q _ _ P'), !occ_cons. lia.
Qed.

(** A variable gives its reference away, and gets one. *)
Lemma exact_give s extra i p x :
  exact s (p :: extra) -> vars s !! i = Some x -> exact (mkRefs (<[i := p]> (vars s)) (counts s)) (x :: extra).
Proof.
  intros [C L N] E. split; cbn [vars counts]; [|..|done].
  - intros o n Ho. rewrite (C o n Ho), (occ_insert o i p x) by done. rewrite !occ_cons. lia.
  - intros q Hq. apply L. rewrite elem_of_app, elem_of_cons in Hq |- *. destruct Hq as [Hq|[-> |Hq]].
    + apply list_elem_of_lookup in Hq as [j Hj]. apply list_lookup_insert_Some in Hj as [(_ & -> & _)|[_ Hj]]; [by right; left|left; by eapply list_elem_of_lookup_2].
    + left. by eapply list_elem_of_lookup_2.
    + by right; right.
Qed.
Lemma exact_null s extra : exact s (0 :: extra) <-> exact s extra.
Proof.
  assert (forall o n, counts s !! 0 = None -> counts s !! o = Some n -> occ o (0 :: extra) = occ o extra) as O.
  { intros o n N Ho. rewrite occ_cons, bool_decide_false; [lia|]. intros <-. by rewrite N in Ho. }
  split; intros [C L N]; (split; [|..|done]).
  - intros o n Ho. by rewrite (C o n Ho), (O o n).
  - intros p Hp. apply L. set_solver.
  - intros o n Ho. by rewrite (C o n Ho), (O o n).
  - intros p Hp. rewrite elem_of_app, elem_of_cons in Hp. destruct Hp as [?|[->|?]]; [apply L; set_solver|by left|apply L; set_solver].
Qed.
Lemma exact_perm s e1 e2 : e1 ≡ₚ e2 -> exact s e1 -> exact s e2.
Proof. intros P [C L N]. split; [|..|done]; [intros o n Ho; by rewrite (C o n Ho), (occ_perm o e1 e2)|]. intros p Hp. apply L. by rewrite P. Qed.

(** One reference more, one less. *)
Lemma ref_up s extra p n :
  exact s extra -> few_refs s extra -> counts s !! p = Some n -> exact (mkRefs (vars s) (<[p := u64 (n + 1)]> (counts s))) (p :: extra).
Proof.
  intros [C L N] B Hp. unfold few_refs in B. pose proof (occ_le p (vars s)). pose proof (occ_le p extra). pose proof (occ_nonneg p (vars s)). pose proof (occ_nonneg p extra).
  assert (u64 (n + 1) = n + 1) as -> by (apply u64_id; unfold is_u64; rewrite (C p n Hp); lia).
  split; cbn [vars counts].
  - intros o k Ho. rewrite occ_cons. destruct (decide (p = o)) as [->|Np].
    + rewrite lookup_insert_eq in Ho. simplify_eq. rewrite bool_decide_true by done. rewrite (C o n Hp). lia.
    + rewrite lookup_insert_ne in Ho by done. rewrite bool_decide_false by done. rewrite (C o k Ho). lia.
  - intros q Hq. rewrite elem_of_app, elem_of_cons in Hq. destruct (decide (p = q)) as [->|Np]; [right; rewrite lookup_insert_eq; eauto|].
    rewrite lookup_insert_ne by done. apply L. set_solver.
  - destruct (decide (p = 0)) as [->|]; [congruence|by rewrite lookup_insert_ne].
Qed.
Lemma ref_less s extra p n :
  exact s (p :: extra) -> few_refs s extra -> counts s !! p = Some n -> exact (mkRefs (vars s) (<[p := u64 (n - 1)]> (counts s))) extra.
Proof.
  intros [C L N] B Hp. unfold few_refs in B. pose proof (C p n Hp) as En. rewrite occ_cons, bool_decide_true in En by done.
  pose proof (occ_le p (vars s)). pose proof (occ_le p extra). pose proof (occ_nonneg p (vars s)). pose proof (occ_nonneg p extra).
  rewrite u64_id by (unfold is_u64; lia). split; cbn [vars counts].
  - intros o k Ho. destruct (decide (p = o)) as [->|Np].
    + rewrite lookup_insert_eq in Ho. simplify_eq. lia.
    + rewrite lookup_insert_ne in Ho by done. rewrite (C o k Ho), occ_cons, bool_decide_false by done. lia.
  - intros q Hq. destruct (decide (p = q)) as [->|Np]; [right; rewrite lookup_insert_eq; eauto|]. rewrite lookup_insert_ne by done. apply L. set_solver.
  - destruct (decide (p = 0)) as [->|]; [congruence|by rewrite lookup_insert_ne].
Qed.
(** An object nobody refers to. *)
Lemma delete_unused s extra p : exact s extra -> counts s !! p = Some 0 -> exact (mkRefs (vars s) (delete p (counts s))) extra.
Proof.
  intros [C L N] Hp. pose proof (C p 0 Hp) as E. pose proof (occ_nonneg p (vars s)). pose proof (occ_nonneg p extra). split; cbn [vars counts].
  - intros o k Ho. apply lookup_delete_Some in Ho as [_ Ho]. by apply C.
  - intros q Hq. destruct (L q Hq) as [?|Lq]; [by left|right]. rewrite lookup_delete_ne; [done|]. intros ->.
    apply elem_of_app in Hq as [Hq%occ_in|Hq%occ_in]; lia.
  - rewrite lookup_delete_None. by right.
Qed.
Definition down (p n : Z) (m : gmap Z Z) : gmap Z Z := if n =? 1 then delete p m else <[p := u64 (n - 1)]> m.
Lemma ref_down s extra p n :
  exact s (p :: extra) -> few_refs s extra -> counts s !! p = Some n -> exact (mkRefs (vars s) (down p n (counts s))) extra.
Proof.
  intros E B Hp. pose proof (ref_less s extra p n E B Hp) as E'. unfold down. destruct (Z.eqb_spec n 1) as [->|_]; [|done].
  apply (delete_unused _ _ p) in E'; [|cbn [counts]; by rewrite lookup_insert_eq]. cbn [vars counts] in E'. by rewrite delete_insert_eq in E'.
Qed.

Lemma few_insert s extra i p m : few_refs s extra -> few_refs (mkRefs (<[i := p]> (vars s)) m) extra.
Proof. unfold few_refs. intros B. replace (length (vars (mkRefs (<[i := p]> (vars s)) m))) with (length (vars s)); [done|]. symmetry. apply length_insert. Qed.

(** *** The steps of the operations *)

Section steps.
Context (s : refs) (extra : list Z) (i : nat) (x : Z) (Hi : vars s !! i = Some x).

Lemma get_var_ok : get_var i s = Ok (x, s).
Proof. unfold get_var. by rewrite Hi. Qed.
Lemma disown_ok :
  exact s extra -> few_refs s extra -> exists m, _disown i s = Ok (tt, mkRefs (vars s) m) /\ exact (mkRefs (<[i := 0]> (vars s)) m) extra.
Proof.
  intros E B. assert (exact (mkRefs (<[i := 0]> (vars s)) (counts s)) (x :: extra)) as E' by (by apply exact_give, Hi; apply exact_null).
  unfold _disown. erewrite bind_Ok; [|exact get_var_ok]. cbv beta. destruct (Z.eqb_spec x 0) as [->|Nx].
  - exists (counts s). split; [by destruct s|]. by apply exact_null.
  - destruct (ex_live _ _ E x) as [?|[n Hn]]; [apply elem_of_app; left; by eapply list_elem_of_lookup_2|done|].
    exists (down x n (counts s)). split.
    + unfold get_count, bind. rewrite Hn. unfold set_count, delete_object, modify, down, ret. cbn [vars counts].
      destruct (n =? 1); cbn [vars counts]; [by rewrite delete_insert_eq|done].
    + apply (ref_down (mkRefs (<[i := 0]> (vars s)) (counts s))); [exact E'|by apply few_insert|exact Hn].
Qed.
(** A variable that is null, or whose pointer was disowned, gets a new reference to [p]. *)
Lemma claim_ok p m :
  exact (mkRefs (<[i := 0]> (vars s)) m) extra -> few_refs s extra -> p = 0 \/ is_Some (m !! p) ->
  exists m', bind (set_var i p) (fun _ => _claim i) (mkRefs (vars s) m) = Ok (tt, mkRefs (<[i := p]> (vars s)) m') /\ exact (mkRefs (<[i := p]> (vars s)) m') extra.
Proof.
  intros E B Hp. assert (i < length (vars s))%nat as Li by (by eapply lookup_lt_Some).
  unfold bind at 1, set_var, modify, _claim. cbn [vars counts].
  erewrite bind_Ok; [|unfold get_var; cbn [vars]; by rewrite list_lookup_insert_eq]. cbv beta.
  destruct (Z.eqb_spec p 0) as [->|Np]; [by exists m|]. destruct Hp as [?|[n Hn]]; [done|].
  exists (<[p := u64 (n + 1)]> m). split; [unfold get_count, bind, set_count, modify; cbn [vars counts]; by rewrite Hn|].
  assert (few_refs (mkRefs (<[i := 0]> (vars s)) m) extra) as B' by (by apply few_insert).
  pose proof (ref_up _ _ p n E B' Hn) as E'. apply exact_null.
  pose proof (exact_give _ _ i p 0 E') as E2. cbn [vars counts] in E2. rewrite list_insert_insert_eq in E2. apply E2.
  by apply list_lookup_insert_eq.
Qed.
End steps.

(** ** Programs *)

Inductive operation : Type :=
| Make (i : nat) (o : Z) | Construct (i : nat) (ptr : Z) | Adopt (i : nat) (ptr : Z) | Copy (i other : nat) | Move (i other : nat)
| AssignCopy (i other : nat) | AssignMove (i other : nat) | Destroy (i : nat) | Keep (i : nat) | Drop (i : nat).
Definition perform (op : operation) : RM unit :=
  match op with
  | Make i o => make_intrusive i o
  | Construct i ptr => construct i ptr
  | Adopt i ptr => construct_adopt i ptr
  | Copy i other => construct_copy i other
  | Move i other => construct_move i other
  | AssignCopy i other => assign_copy i other
  | AssignMove i other => assign_move i other
  | Destroy i => destroy i
  | Keep i => release_keep i ;; ret tt
  | Drop i => release_drop i ;; ret tt
  end.

(** What the code that uses the pointers sees to: a variable is constructed once, a raw pointer is to
    an object that exists, a reference is adopted that was kept, nothing is assigned to itself.
    [kept'] are the kept references after the operation. *)
Definition allowed (op : operation) (s : refs) (kept kept' : list Z) : Prop :=
  match op with
  | Make i o => vars s !! i = Some 0 /\ o <> 0 /\ counts s !! o = None /\ kept' = kept
  | Construct i ptr => vars s !! i = Some 0 /\ (ptr = 0 \/ is_Some (counts s !! ptr)) /\ kept' = kept
  | Adopt i ptr => vars s !! i = Some 0 /\ kept ≡ₚ ptr :: kept'
  | Copy i other | Move i other => vars s !! i = Some 0 /\ is_Some (vars s !! other) /\ kept' = kept
  | AssignCopy i other | AssignMove i other => i <> other /\ is_Some (vars s !! i) /\ is_Some (vars s !! other) /\ kept' = kept
  | Destroy i => is_Some (vars s !! i) /\ kept' = kept
  | Keep i => exists p, vars s !! i = Some p /\ kept' = p :: kept
  | Drop i => exists p, vars s !! i = Some p /\ p <> 0 /\ kept' = kept
  end.
Inductive reached : refs -> list Z -> Prop :=
| reached_start n : reached (mkRefs (replicate n 0) ∅) []
| reached_step s kept op s' kept' :
    reached s kept -> few_refs s kept -> allowed op s kept kept' -> perform op s = Ok (tt, s') -> reached s' kept'.

Lemma insert_null s i x : vars s !! i = Some x -> x = 0 -> mkRefs (<[i := 0]> (vars s)) (counts s) = s.
Proof. intros H ->. rewrite list_insert_id by done. by destruct s. Qed.
Lemma exact_new s extra o : exact s extra -> o <> 0 -> counts s !! o = None -> exact (mkRefs (vars s) (<[o := 0]> (counts s))) extra.
Proof.
  intros [C L N] No Ho. split; cbn [vars counts].
  - intros p n Hp. destruct (decide (o = p)) as [->|Np]; [|rewrite lookup_insert_ne in Hp by done; by apply C].
    rewrite lookup_insert_eq in Hp. simplify_eq. assert (p ∉ vars s ++ extra) as Nin.
    { intros H. destruct (L p H) as [?|[? H']]; [done|congruence]. }
    rewrite elem_of_app in Nin. unfold occ. rewrite !(proj1 (count_occ_not_In Z.eq_dec _ _)); [done|..]; rewrite <- list_elem_of_In; tauto.
  - intros p Hp. destruct (L p Hp) as [?|Lp]; [by left|right]. rewrite lookup_insert_ne; [done|]. intros ->. rewrite Ho in Lp. by destruct Lp.
  - by rewrite lookup_insert_ne.
Qed.
Lemma live_var s extra j y : exact s extra -> vars s !! j = Some y -> y = 0 \/ is_Some (counts s !! y).
Proof. intros E H. apply (ex_live _ _ E). apply elem_of_app. left. by eapply list_elem_of_lookup_2. Qed.

Lemma var_other l m i j p y : i <> j -> l !! j = Some y -> vars (mkRefs (<[i := p]> l) m) !! j = Some y.
Proof. intros N H. etrans; [by apply (list_lookup_insert_ne l i j p)|done]. Qed.
Lemma var_same l m i p x : l !! i = Some x -> vars (mkRefs (<[i := p]> l) m) !! i = Some p.
Proof. intros H. apply (list_lookup_insert_eq l i p). by eapply lookup_lt_Some. Qed.

Section operations.
Context (s : refs) (kept : list Z) (E : exact s kept) (B : few_refs s kept).

Lemma as_is : mkRefs (vars s) (counts s) = s. Proof. by destruct s. Qed.
Lemma construct_ok i ptr :
  vars s !! i = Some 0 -> ptr = 0 \/ is_Some (counts s !! ptr) -> exists s', construct i ptr s = Ok (tt, s') /\ exact s' kept.
Proof.
  intros Hi Hp. destruct (claim_ok s kept i 0 Hi ptr (counts s)) as (m & Em & X); [by rewrite (insert_null s i 0)|done|done|].
  rewrite as_is in Em. eexists. split; [exact Em|done].
Qed.
Lemma copy_ok i j : vars s !! i = Some 0 -> is_Some (vars s !! j) -> exists s', construct_copy i j s = Ok (tt, s') /\ exact s' kept.
Proof.
  intros Hi [y Hj]. unfold construct_copy. erewrite bind_Ok; [|by apply get_var_ok]. cbv beta. apply construct_ok; [done|by eapply live_var].
Qed.
Lemma move_ok i j : vars s !! i = Some 0 -> is_Some (vars s !! j) -> exists s', construct_move i j s = Ok (tt, s') /\ exact s' kept.
Proof.
  intros Hi [y Hj]. unfold construct_move. erewrite bind_Ok; [|by apply get_var_ok]. cbv beta. unfold bind, set_var, modify. cbn [vars counts].
  eexists. split; [reflexivity|]. apply exact_null.
  apply (exact_give (mkRefs (<[j := 0]> (vars s)) (counts s))); [apply exact_give; [by apply exact_null|done]|].
  destruct (decide (i = j)) as [->|N]; [by eapply var_same|by apply var_other].
Qed.
Lemma assign_copy_ok i j :
  i <> j -> is_Some (vars s !! i) -> is_Some (vars s !! j) -> exists s', assign_copy i j s = Ok (tt, s') /\ exact s' kept.
Proof.
  intros N [x Hi] [y Hj]. destruct (disown_ok s kept i x Hi E B) as (m & Ed & Em). unfold assign_copy.
  erewrite bind_Ok; [|exact Ed]. cbv beta. erewrite bind_Ok; [|by apply get_var_ok]. cbv beta.
  destruct (claim_ok s kept i x Hi y m) as (m' & Ec & X); [done|done| |eexists; split; [exact Ec|done]].
  apply (live_var _ _ j y Em). by apply var_other.
Qed.
Lemma assign_move_ok i j :
  i <> j -> is_Some (vars s !! i) -> is_Some (vars s !! j) -> exists s', assign_move i j s = Ok (tt, s') /\ exact s' kept.
Proof.
  intros N [x Hi] [y Hj]. destruct (disown_ok s kept i x Hi E B) as (m & Ed & Em). unfold assign_move.
  erewrite bind_Ok; [|exact Ed]. cbv beta. erewrite bind_Ok; [|by apply get_var_ok]. cbv beta. unfold bind, set_var, modify. cbn [vars counts].
  eexists. split; [reflexivity|]. apply (exact_null _ kept) in Em.
  pose proof (exact_give _ _ j 0 y Em (var_other (vars s) m i j 0 y N Hj)) as E2.
  assert (vars (mkRefs (<[j := 0]> (<[i := 0]> (vars s))) m) !! i = Some 0) as Hi2.
  { apply var_other; [done|]. exact (var_same (vars s) m i 0 x Hi). }
  pose proof (exact_give _ _ i y 0 E2 Hi2) as E3. apply (proj1 (exact_null _ _)) in E3.
  assert (<[i := y]> (<[j := 0]> (<[i := 0]> (vars s))) = <[i := y]> (<[j := 0]> (vars s))) as <-; [|exact E3].
  rewrite (list_insert_insert_ne (vars s) j i) by done. apply list_insert_insert_eq.
Qed.
Lemma destroy_ok i : is_Some (vars s !! i) -> exists s', destroy i s = Ok (tt, s') /\ exact s' kept.
Proof.
  intros [x Hi]. destruct (disown_ok s kept i x Hi E B) as (m & Ed & Em). unfold destroy. erewrite bind_Ok; [|exact Ed]. eexists. by split.
Qed.
Lemma keep_ok i p : vars s !! i = Some p -> exists s', release_keep i s = Ok (p, s') /\ exact s' (p :: kept).
Proof.
  intros Hi. unfold release_keep. erewrite bind_Ok; [|by apply get_var_ok]. cbv beta. eexists. split; [reflexivity|].
  apply exact_give; [by apply exact_null|done].
Qed.
Lemma drop_ok i p : vars s !! i = Some p -> p <> 0 -> exists s', release_drop i s = Ok (p, s') /\ exact s' kept.
Proof.
  intros Hi Np. unfold release_drop. erewrite bind_Ok; [|by apply get_var_ok]. cbv beta.
  destruct (live_var s kept i p E Hi) as [?|[n Hn]]; [done|]. unfold get_count, bind, set_count, set_var, modify, ret. rewrite Hn. cbn [vars counts].
  eexists. split; [reflexivity|]. apply (ref_less (mkRefs (<[i := 0]> (vars s)) (counts s))); [|by apply few_insert|done].
  apply exact_give; [by apply exact_null|done].
Qed.
End operations.

Lemma perform_ok op s kept kept' :
  exact s kept -> few_refs s kept -> allowed op s kept kept' -> exists s', perform op s = Ok (tt, s') /\ exact s' kept'.
Proof.
  intros E B A. destruct op as [i o|i p|i p|i j|i j|i j|i j|i|i|i]; cbn [perform allowed] in *.
  - destruct A as (Hi & No & Ho & ->). unfold make_intrusive, bind at 1, set_count, modify.
    apply construct_ok; [by apply exact_new|done|done|right; cbn [counts]; rewrite lookup_insert_eq; eauto].
  - destruct A as (Hi & Hp & ->). by apply construct_ok.
  - destruct A as (Hi & P). eexists. split; [reflexivity|]. apply exact_null. apply exact_give; [by eapply exact_perm|done].
  - destruct A as (Hi & Hj & ->). by apply copy_ok.
  - destruct A as (Hi & Hj & ->). by apply move_ok.
  - destruct A as (N & Hi & Hj & ->). by apply assign_copy_ok.
  - destruct A as (N & Hi & Hj & ->). by apply assign_move_ok.
  - destruct A as (Hi & ->). by apply destroy_ok.
  - destruct A as (p & Hi & ->). destruct (keep_ok s kept E i p Hi) as (s' & H & X). exists s'. by rewrite (bind_Ok _ _ _ _ _ H).
  - destruct A as (p & Hi & Np & ->). destruct (drop_ok s kept E B i p Hi Np) as (s' & H & X). exists s'. by rewrite (bind_Ok _ _ _ _ _ H).
Qed.

(** C36: Counted references.  In a program that constructs, copies, moves, assigns, releases and adopts
    pointers as [allowed] says, at every time: the count of each object is the number of pointers to it and
    of kept references, no pointer is to an object that was deleted, and the next operation does not fail. *)
Theorem references_counted s kept :
  reached s kept ->
  exact s kept /\ (few_refs s kept -> forall op kept', allowed op s kept kept' -> exists s', perform op s = Ok (tt, s')).
Proof.
  intros R. assert (exact s kept) as E.
  { induction R as [n|s kept op s' kept' _ IH B A E]; [|destruct (perform_ok op s kept kept' IH B A) as (s2 & E2 & X); rewrite E in E2; by injection E2 as <-].
    split; [done| |done]. cbn. intros p Hp. rewrite app_nil_r in Hp. apply elem_of_replicate_inv in Hp. by left. }
  split; [done|]. intros B op kept' A. destruct (perform_ok op s kept kept' E B A) as (s' & H & _). eauto.
Qed.

(** Two pointers to one object, of which the first is moved over the second and released. *)
Lemma references_counted_witness :
  exact (mkRefs [0; 0; 0] {[64 := 1]}) [64]
  /\ (few_refs (mkRefs [0; 0; 0] {[64 := 1]}) [64] -> forall op kept', allowed op (mkRefs [0; 0; 0] {[64 := 1]}) [64] kept' ->
      exists s', perform op (mkRefs [0; 0; 0] {[64 := 1]}) = Ok (tt, s')).
Proof.
  apply references_counted.
  assert (reached (mkRefs [64; 0; 0] {[64 := 1]}) []) as R1.
  { eapply (reached_step _ _ (Make 0 64)); [apply (reached_start 3)|done|done|reflexivity]. }
  assert (reached (mkRefs [64; 64; 0] {[64 := 2]}) []) as R2.
  { eapply (reached_step _ _ (Copy 1 0)); [exact R1|done|by split_and!|reflexivity]. }
  assert (reached (mkRefs [0; 64; 0] {[64 := 1]}) []) as R3.
  { eapply (reached_step _ _ (AssignMove 1 0)); [exact R2|done|by split_and!|reflexivity]. }
  eapply (reached_step _ _ (Keep 1)); [exact R3|done|by exists 64|reflexivity].
Defined.

(** A pointer assigned to itself deletes its object and then counts a reference in it. *)
Example self_assignment_faults : assign_copy 0 0 (mkRefs [64] {[64 := 1]}) = Err Fault.
Proof. vm_compute. reflexivity. Qed.
Example self_move_dangles : assign_move 0 0 (mkRefs [64] {[64 := 1]}) = Ok (tt, mkRefs [64] ∅).
Proof. vm_compute. reflexivity. Qed.
