(* ===== verification/Lapic.v ===== *)
(** * Local interrupt controllers: kernel/arch/amd64/cpu/lapic.cpp

    The controller of a core is driven through registers in memory (xAPIC) or
    through model specific registers (x2APIC).  The hardware is what the accesses
    so far make it: a read returns a value that may depend on all of them, and the
    state of the driver keeps the trace of its accesses. *)
From S2P Require Import Prelude.

(** ** Registers *)

Module xapic.
Inductive xapic_registers_rw : Type :=
| local_apic_id | task_priority | logical_destination | destination_format | spurious_interrupt_vector
| lvt_cmci | interrupt_command_low | interrupt_command_high | lvt_timer | lvt_thermal_sensor | lvt_pmc
| lvt_lint0 | lvt_lint1 | lvt_error | timer_initial_count | timer_divide_configuration.
Definition xapic_registers_rw_value (r : xapic_registers_rw) : Z :=
  match r with
  | local_apic_id => 0x20 | task_priority => 0x80 | logical_destination => 0xd0 | destination_format => 0xe0
  | spurious_interrupt_vector => 0xf0 | lvt_cmci => 0x2f0 | interrupt_command_low => 0x300
  | interrupt_command_high => 0x310 | lvt_timer => 0x320 | lvt_thermal_sensor => 0x330 | lvt_pmc => 0x340
  | lvt_lint0 => 0x350 | lvt_lint1 => 0x360 | lvt_error => 0x370 | timer_initial_count => 0x380
  | timer_divide_configuration => 0x3e0
  end.
Inductive xapic_registers_r : Type :=
| local_apic_version | arbitration_priority_register | processor_priority_register | remote_read_register
| in_service_31_0 | in_service_63_32 | in_service_95_64 | in_service_127_96 | in_service_159_128
| in_service_191_160 | in_service_223_192 | in_service_255_224 | trigger_mode_31_0 | trigger_mode_63_32
| trigger_mode_95_64 | trigger_mode_127_96 | trigger_mode_159_128 | trigger_mode_191_160 | trigger_mode_223_192
| trigger_mode_255_224 | interrupt_request_31_0 | interrupt_request_63_32 | interrupt_request_95_64
| interrupt_request_127_96 | interrupt_request_159_128 | interrupt_request_191_160 | interrupt_request_223_192
| interrupt_request_255_224 | error_status | timer_current_count.
Definition xapic_registers_r_value (r : xapic_registers_r) : Z :=
  match r with
  | local_apic_version => 0x30 | arbitration_priority_register => 0x90 | processor_priority_register => 0xa0
  | remote_read_register => 0xc0 | in_service_31_0 => 0x100 | in_service_63_32 => 0x110 | in_service_95_64 => 0x120
  | in_service_127_96 => 0x130 | in_service_159_128 => 0x140 | in_service_191_160 => 0x150
  | in_service_223_192 => 0x160 | in_service_255_224 => 0x170 | trigger_mode_31_0 => 0x180
  | trigger_mode_63_32 => 0x190 | trigger_mode_95_64 => 0x1a0 | trigger_mode_127_96 => 0x1b0
  | trigger_mode_159_128 => 0x1c0 | trigger_mode_191_160 => 0x1d0 | trigger_mode_223_192 => 0x1e0
  | trigger_mode_255_224 => 0x1f0 | interrupt_request_31_0 => 0x200 | interrupt_request_63_32 => 0x210
  | interrupt_request_95_64 => 0x220 | interrupt_request_127_96 => 0x230 | interrupt_request_159_128 => 0x240
  | interrupt_request_191_160 => 0x250 | interrupt_request_223_192 => 0x260 | interrupt_request_255_224 => 0x270
  | error_status => 0x280 | timer_current_count => 0x390
  end.
Inductive xapic_registers_w : Type :=
| eoi.
Definition xapic_registers_w_value (r : xapic_registers_w) : Z :=
  match r with
  | eoi => 0xb0
  end.
End xapic.

Module x2apic.
Inductive x2apic_registers_rw : Type :=
| apic_base | task_priority | spurious_interrupt_vector | error_status | lvt_cmci | interrupt_command
| lvt_timer | lvt_thermal_sensor | lvt_pmc | lvt_lint0 | lvt_lint1 | lvt_error | timer_initial_count
| timer_divide_configuration.
Definition x2apic_registers_rw_value (r : x2apic_registers_rw) : Z :=
  match r with
  | apic_base => 0x01b | task_priority => 0x808 | spurious_interrupt_vector => 0x80f | error_status => 0x828
  | lvt_cmci => 0x82f | interrupt_command => 0x830 | lvt_timer => 0x832 | lvt_thermal_sensor => 0x833
  | lvt_pmc => 0x834 | lvt_lint0 => 0x835 | lvt_lint1 => 0x836 | lvt_error => 0x837 | timer_initial_count => 0x838
  | timer_divide_configuration => 0x83e
  end.
Inductive x2apic_registers_r : Type :=
| local_apic_id | local_apic_version | processor_priority_register | logical_destination | in_service_31_0
| in_service_63_32 | in_service_95_64 | in_service_127_96 | in_service_159_128 | in_service_191_160
| in_service_223_192 | in_service_255_224 | trigger_mode_31_0 | trigger_mode_63_32 | trigger_mode_95_64
| trigger_mode_127_96 | trigger_mode_159_128 | trigger_mode_191_160 | trigger_mode_223_192
| trigger_mode_255_224 | interrupt_request_31_0 | interrupt_request_63_32 | interrupt_request_95_64
| interrupt_request_127_96 | interrupt_request_159_128 | interrupt_request_191_160 | interrupt_request_223_192
| interrupt_request_255_224 | timer_current_count.
Definition x2apic_registers_r_value (r : x2apic_registers_r) : Z :=
  match r with
  | local_apic_id => 0x802 | local_apic_version => 0x803 | processor_priority_register => 0x80a
  | logical_destination => 0x80d | in_service_31_0 => 0x810 | in_service_63_32 => 0x811 | in_service_95_64 => 0x812
  | in_service_127_96 => 0x813 | in_service_159_128 => 0x814 | in_service_191_160 => 0x815
  | in_service_223_192 => 0x816 | in_service_255_224 => 0x817 | trigger_mode_31_0 => 0x818
  | trigger_mode_63_32 => 0x819 | trigger_mode_95_64 => 0x81a | trigger_mode_127_96 => 0x81b
  | trigger_mode_159_128 => 0x81c | trigger_mode_191_160 => 0x81d | trigger_mode_223_192 => 0x81e
  | trigger_mode_255_224 => 0x81f | interrupt_request_31_0 => 0x820 | interrupt_request_63_32 => 0x821
  | interrupt_request_95_64 => 0x822 | interrupt_request_127_96 => 0x823 | interrupt_request_159_128 => 0x824
  | interrupt_request_191_160 => 0x825 | interrupt_request_223_192 => 0x826 | interrupt_request_255_224 => 0x827
  | timer_current_count => 0x839
  end.
Inductive x2apic_registers_w : Type :=
| eoi | self_ipi.
Definition x2apic_registers_w_value (r : x2apic_registers_w) : Z :=
  match r with
  | eoi => 0x80b | self_ipi => 0x83f
  end.
End x2apic.

(** Vectors: kernel/arch/amd64/cpu/irqs.h *)
Definition irq_lapic_timer : Z := 0xf0.
Definition irq_hpet_timer : Z := 0xf1.
Definition irq_scheduling_trigger : Z := 0xf2.
Definition irq_ipi_trigger : Z := 0xf3.
Definition irq_lapic_spurious : Z := 0xff.

Inductive ipi_type : Type := ipi_init | ipi_sipi | ipi_generic | ipi_nmi.
Inductive broadcast_target : Type := target_self | target_all | target_others.
Definition broadcast_target_value (t : broadcast_target) : Z :=
  match t with target_self => 1 | target_all => 2 | target_others => 3 end.

(** ** State *)

(** A register is 32 bits of physical memory or a model specific register. *)
Inductive location : Type := Phys (address : Z) | Msr (number : Z).
Inductive access : Type := Read (l : location) (value : Z) | Write (l : location) (value : Z).

(** [lapic_storage] and [x2apic_enabled]; the union is static, so that [_register]
    is zero until an [xapic_t] is constructed. *)
Record lapic : Type := mkLapic { _register : Z; x2apic_enabled : bool; trace : list access }.
Definition lapic_reset : lapic := mkLapic 0 false [].

Section ops.
(** What a read returns after these accesses, and the features [cpuid] reports. *)
Context (hardware : list access -> location -> Z) (cpuid_1_ecx : Z).
Abbreviation LM := (M lapic).

Definition log_access (a : access) : LM unit := modify (fun s => mkLapic (_register s) (x2apic_enabled s) (trace s ++ [a])).
Definition read_location (l : location) : LM Z :=
  let* v := gets (fun s => hardware (trace s) l) in
  log_access (Read l v) ;; ret v.
Definition write_location (l : location) (v : Z) : LM unit := log_access (Write l v).

(** [xapic_t::read] and [write] *)
Definition xapic_address (reg : Z) : LM Z := gets (fun s => u64 (_register s + reg)).
Definition xapic_read (reg : Z) : LM Z :=
  let* a := xapic_address reg in
  let* v := read_location (Phys a) in ret (u32 v).
Definition xapic_write (reg value : Z) : LM unit :=
  let* a := xapic_address reg in write_location (Phys a) (u32 value).
(** [x2apic_t::read] and [write] *)
Definition x2apic_read (reg : Z) : LM Z :=
  let* v := read_location (Msr reg) in ret (u64 v).
Definition x2apic_write (reg value : Z) : LM unit := write_location (Msr reg) (u64 value).

(** ** Timer and interrupts *)

(** An operation of the controller the core has. *)
Definition in_mode {A} (x2 x : LM A) : LM A :=
  let* e := gets x2apic_enabled in if e then x2 else x.

Definition id : LM Z :=
  in_mode (let* v := x2apic_read (x2apic.x2apic_registers_r_value x2apic.local_apic_id) in ret (u32 v))
          (let* v := xapic_read (xapic.xapic_registers_rw_value xapic.local_apic_id) in ret (Z.shiftr v 24)).

Definition eoi (number : Z) : LM unit :=
  when (negb (number =? irq_lapic_spurious))
    (in_mode (x2apic_write (x2apic.x2apic_registers_w_value x2apic.eoi) 0)
             (xapic_write (xapic.xapic_registers_w_value xapic.eoi) 0)).

Definition divisor_pattern (val : Z) : option Z :=
  if val =? 1 then Some 0xb else if val =? 2 then Some 0x0 else if val =? 4 then Some 0x1
  else if val =? 8 then Some 0x2 else if val =? 16 then Some 0x3 else if val =? 32 then Some 0x8
  else if val =? 64 then Some 0x9 else if val =? 128 then Some 0xa else None.
Definition write_timer_divisor (val : Z) : LM unit :=
  match divisor_pattern val with
  | None => panic "Invalid LAPIC timer divisor requested: {}!"
  | Some bit_pattern =>
      in_mode (x2apic_write (x2apic.x2apic_registers_rw_value x2apic.timer_divide_configuration) bit_pattern)
              (xapic_write (xapic.xapic_registers_rw_value xapic.timer_divide_configuration) bit_pattern)
  end.
Definition write_timer_counter (val : Z) : LM unit :=
  in_mode (x2apic_write (x2apic.x2apic_registers_rw_value x2apic.timer_initial_count) val)
          (xapic_write (xapic.xapic_registers_rw_value xapic.timer_initial_count) val).
Definition read_timer_counter : LM Z :=
  in_mode (let* v := x2apic_read (x2apic.x2apic_registers_r_value x2apic.timer_current_count) in ret (u32 v))
          (xapic_read (xapic.xapic_registers_r_value xapic.timer_current_count)).
Definition enable_timer_irq : LM unit :=
  in_mode (x2apic_write (x2apic.x2apic_registers_rw_value x2apic.lvt_timer) irq_lapic_timer)
          (xapic_write (xapic.xapic_registers_rw_value xapic.lvt_timer) irq_lapic_timer).
Definition disable_timer_irq : LM unit :=
  in_mode (x2apic_write (x2apic.x2apic_registers_rw_value x2apic.lvt_timer) (Z.shiftl 1 16))
          (xapic_write (xapic.xapic_registers_rw_value xapic.lvt_timer) (Z.shiftl 1 16)).

Definition ipi_command (type : ipi_type) (data : Z) : LM Z :=
  match type with
  | ipi_init => ret (Z.shiftl 5 8)
  | ipi_sipi => ret (Z.lor (Z.shiftl 6 8) data)
  | ipi_generic => ret (Z.lor (Z.shiftl 1 14) data)
  | ipi_nmi => panic "Unsupported IPI type selected."
  end.
Definition ipi (target_apic_id : Z) (type : ipi_type) (data : Z) : LM unit :=
  let* cmd_low := ipi_command type data in
  in_mode (x2apic_write (x2apic.x2apic_registers_rw_value x2apic.interrupt_command) (Z.lor (u64 (Z.shiftl target_apic_id 32)) cmd_low))
          (xapic_write (xapic.xapic_registers_rw_value xapic.interrupt_command_high) (u32 (Z.shiftl target_apic_id 24)) ;;
           xapic_write (xapic.xapic_registers_rw_value xapic.interrupt_command_low) cmd_low).

Definition broadcast_command (target : broadcast_target) (type : ipi_type) (data : Z) : LM Z :=
  match type with
  | ipi_generic => ret (u32 (Z.lor (Z.lor (Z.shiftl (broadcast_target_value target) 18) (Z.shiftl 1 14)) data))
  | _ => panic "Unsupported broadcast type selected."
  end.
Definition broadcast (target : broadcast_target) (type : ipi_type) (data : Z) : LM unit :=
  let* cmd_low := broadcast_command target type data in
  in_mode (x2apic_write (x2apic.x2apic_registers_rw_value x2apic.interrupt_command) cmd_low)
          (xapic_write (xapic.xapic_registers_rw_value xapic.interrupt_command_low) cmd_low).

(** ** Initialisation *)

Definition masked : Z := 0x10000.
(** [(version >> 16) & 0xFF] *)
Definition max_lvt (version : Z) : Z := Z.land (Z.shiftr version 16) 0xFF.

Definition xapic_ap_initialize : LM unit :=
  let* format := xapic_read (xapic.xapic_registers_rw_value xapic.destination_format) in
  xapic_write (xapic.xapic_registers_rw_value xapic.destination_format) (Z.land format 0xF0000000) ;;
  xapic_write (xapic.xapic_registers_rw_value xapic.logical_destination) 0xFF000000 ;;
  let* version := xapic_read (xapic.xapic_registers_r_value xapic.local_apic_version) in
  when (max_lvt version =? 6) (xapic_write (xapic.xapic_registers_rw_value xapic.lvt_cmci) masked) ;;
  xapic_write (xapic.xapic_registers_rw_value xapic.lvt_error) masked ;;
  xapic_write (xapic.xapic_registers_rw_value xapic.lvt_lint0) masked ;;
  xapic_write (xapic.xapic_registers_rw_value xapic.lvt_lint1) masked ;;
  xapic_write (xapic.xapic_registers_rw_value xapic.lvt_pmc) masked ;;
  xapic_write (xapic.xapic_registers_rw_value xapic.lvt_thermal_sensor) masked ;;
  disable_timer_irq ;;
  xapic_write (xapic.xapic_registers_rw_value xapic.spurious_interrupt_vector) (Z.lor irq_lapic_spurious 0x100).

Definition x2apic_ap_initialize : LM unit :=
  let* base := x2apic_read (x2apic.x2apic_registers_rw_value x2apic.apic_base) in
  x2apic_write (x2apic.x2apic_registers_rw_value x2apic.apic_base) (Z.lor base (Z.shiftl 1 10)) ;;
  let* version := x2apic_read (x2apic.x2apic_registers_r_value x2apic.local_apic_version) in
  when (max_lvt version =? 6) (x2apic_write (x2apic.x2apic_registers_rw_value x2apic.lvt_cmci) masked) ;;
  x2apic_write (x2apic.x2apic_registers_rw_value x2apic.lvt_error) masked ;;
  x2apic_write (x2apic.x2apic_registers_rw_value x2apic.lvt_lint0) masked ;;
  x2apic_write (x2apic.x2apic_registers_rw_value x2apic.lvt_lint1) masked ;;
  x2apic_write (x2apic.x2apic_registers_rw_value x2apic.lvt_pmc) masked ;;
  x2apic_write (x2apic.x2apic_registers_rw_value x2apic.lvt_thermal_sensor) masked ;;
  disable_timer_irq ;;
  x2apic_write (x2apic.x2apic_registers_rw_value x2apic.spurious_interrupt_vector) (Z.lor irq_lapic_spurious 0x100).

(** The constructors also read what their message says of the controller. *)
Definition xapic_construct (base : Z) : LM unit :=
  modify (fun s => mkLapic base (x2apic_enabled s) (trace s)) ;;
  xapic_ap_initialize ;;
  let* _ := xapic_read (xapic.xapic_registers_rw_value xapic.local_apic_id) in
  let* _ := xapic_read (xapic.xapic_registers_r_value xapic.local_apic_version) in
  let* _ := xapic_read (xapic.xapic_registers_r_value xapic.local_apic_version) in
  ret tt.
Definition x2apic_construct : LM unit :=
  x2apic_ap_initialize ;;
  let* _ := x2apic_read (x2apic.x2apic_registers_r_value x2apic.local_apic_id) in
  let* _ := x2apic_read (x2apic.x2apic_registers_r_value x2apic.local_apic_version) in
  let* _ := x2apic_read (x2apic.x2apic_registers_r_value x2apic.local_apic_version) in
  ret tt.

Definition initialize (lapic_base : Z) : LM unit :=
  if Z.testbit cpuid_1_ecx 21
  then x2apic_construct ;; modify (fun s => mkLapic (_register s) true (trace s))
  else xapic_construct lapic_base.
Definition ap_initialize : LM unit := in_mode x2apic_ap_initialize xapic_ap_initialize.
End ops.

(** ** What the controller is told *)

(** The effects of writes, in terms of neither register layout.  An interrupt goes
    to a core by its identifier or, with a shorthand, to a group of cores. *)
Inductive effect : Type :=
| Interrupt (destination : option Z) (shorthand mode vector : Z) (assert : bool)
| EndOfInterrupt
| Divide (pattern : Z)
| Count (n : Z)
| TimerVector (v : Z).

(** The interrupt command register: Intel SDM volume 3, 11.6.1 and 11.12.9. *)
Definition command_effect (low destination : Z) : effect :=
  let shorthand := Z.land (Z.shiftr low 18) 3 in
  Interrupt (if shorthand =? 0 then Some destination else None) shorthand
    (Z.land (Z.shiftr low 8) 7) (Z.land low 0xFF) (Z.testbit low 14).

(** A controller in memory at [base]; [high] is what its command register holds of a
    destination. *)
Fixpoint xapic_effects (base high : Z) (t : list access) : list effect :=
  match t with
  | [] => []
  | Write (Phys a) v :: t' =>
      let reg := a - base in
      if reg =? 0x310 then xapic_effects base v t' else
      (if reg =? 0x300 then [command_effect v (Z.shiftr high 24)]
       else if reg =? 0xb0 then [EndOfInterrupt]
       else if reg =? 0x3e0 then [Divide v]
       else if reg =? 0x380 then [Count v]
       else if reg =? 0x320 then [TimerVector v] else []) ++ xapic_effects base high t'
  | _ :: t' => xapic_effects base high t'
  end.
Definition x2apic_effect (a : access) : list effect :=
  match a with
  | Write (Msr r) v =>
      if r =? 0x830 then [command_effect (Z.land v 0xFFFFFFFF) (Z.shiftr v 32)]
      else if r =? 0x80b then [EndOfInterrupt]
      else if r =? 0x83e then [Divide v]
      else if r =? 0x838 then [Count v]
      else if r =? 0x832 then [TimerVector v] else []
  | _ => []
  end.
Definition x2apic_effects (t : list access) : list effect := flat_map x2apic_effect t.

(** The calls of the kernel that drive the controller. *)
Inductive request : Type :=
| RIpi (target : Z) (type : ipi_type) (data : Z)
| RBroadcast (target : broadcast_target) (type : ipi_type) (data : Z)
| REoi (number : Z)
| RDivisor (val : Z)
| RCounter (val : Z)
| REnable
| RDisable.
Definition issue (r : request) : M lapic unit :=
  match r with
  | RIpi t ty d => ipi t ty d
  | RBroadcast t ty d => broadcast t ty d
  | REoi n => eoi n
  | RDivisor v => write_timer_divisor v
  | RCounter v => write_timer_counter v
  | REnable => enable_timer_irq
  | RDisable => disable_timer_irq
  end.
Fixpoint issue_all (l : list request) : M lapic unit :=
  match l with [] => ret tt | r :: l' => issue r ;; issue_all l' end.

(** What a call is for, or the panic it ends in. *)
Definition intended (r : request) : res (list effect) :=
  match r with
  | RIpi t ipi_init d => Ok [Interrupt (Some t) 0 5 0 false]
  | RIpi t ipi_sipi d => Ok [Interrupt (Some t) 0 6 d false]
  | RIpi t ipi_generic d => Ok [Interrupt (Some t) 0 0 d true]
  | RIpi _ ipi_nmi _ => Err (Panic "Unsupported IPI type selected.")
  | RBroadcast t ipi_generic d => Ok [Interrupt None (broadcast_target_value t) 0 d true]
  | RBroadcast _ _ _ => Err (Panic "Unsupported broadcast type selected.")
  | REoi n => Ok (if n =? irq_lapic_spurious then [] else [EndOfInterrupt])
  | RDivisor v => match divisor_pattern v with Some p => Ok [Divide p] | None => Err (Panic "Invalid LAPIC timer divisor requested: {}!") end
  | RCounter v => Ok [Count v]
  | REnable => Ok [TimerVector irq_lapic_timer]
  | RDisable => Ok [TimerVector masked]
  end.
Fixpoint intended_all (l : list request) : res (list effect) :=
  match l with
  | [] => Ok []
  | r :: l' => match intended r with
               | Err e => Err e
               | Ok es => match intended_all l' with Ok es' => Ok (es ++ es') | Err e => Err e end
               end
  end.
(** Arguments of the types of the source; core identifiers of 8 bits are those an
    xAPIC can address. *)
Definition request_ok (r : request) : Prop :=
  match r with
  | RIpi t _ d => 0 <= t < 2 ^ 8 /\ 0 <= d < 2 ^ 8
  | RBroadcast _ _ d => 0 <= d < 2 ^ 8
  | RCounter v => 0 <= v < 2 ^ 32
  | _ => True
  end.

Example ipi_effect : (xapic_effects 0xfee00000 0) <$> (match issue_all [RIpi 3 ipi_sipi 8; REoi 0xf0] (mkLapic 0xfee00000 false []) with Ok (_, s) => Some (trace s) | _ => None end) =
  Some [Interrupt (Some 3) 0 6 8 false; EndOfInterrupt].
Proof. reflexivity. Qed.

(** ** Lemmas *)

(** A byte is one of 256. *)
Lemma byte_cases (P : Z -> Prop) `{forall d, Decision (P d)} : forallb (fun d => bool_decide (P d)) (seqZ 0 256) = true -> forall d, 0 <= d < 2 ^ 8 -> P d.
Proof. rewrite forallb_forall. intros Hl d Hd. eapply bool_decide_eq_true_1, Hl. apply list_elem_of_In, elem_of_seqZ. lia. Qed.

Definition command_fields (low : Z) : Z * Z * Z * bool * Z :=
  (Z.land (Z.shiftr low 18) 3, Z.land (Z.shiftr low 8) 7, Z.land low 0xFF, Z.testbit low 14, u32 low).
Lemma command_effect_fields low dest sh mode vec a l :
  command_fields low = (sh, mode, vec, a, l) -> command_effect low dest = Interrupt (if sh =? 0 then Some dest else None) sh mode vec a /\ u32 low = l.
Proof. unfold command_fields, command_effect. by intros [= <- <- <- <- <-]. Qed.

Lemma sipi_fields d : 0 <= d < 2 ^ 8 -> command_fields (Z.lor (Z.shiftl 6 8) d) = (0, 6, d, false, Z.lor (Z.shiftl 6 8) d).
Proof. revert d. refine (byte_cases _ _). by vm_compute. Qed.
Lemma generic_fields d : 0 <= d < 2 ^ 8 -> command_fields (Z.lor (Z.shiftl 1 14) d) = (0, 0, d, true, Z.lor (Z.shiftl 1 14) d).
Proof. revert d. refine (byte_cases _ _). by vm_compute. Qed.
Lemma broadcast_fields t d : 0 <= d < 2 ^ 8 ->
  let low := u32 (Z.lor (Z.lor (Z.shiftl (broadcast_target_value t) 18) (Z.shiftl 1 14)) d) in
  command_fields low = (broadcast_target_value t, 0, d, true, low).
Proof. revert d. refine (byte_cases _ _). by destruct t; vm_compute. Qed.

(** A destination above a command of 32 bits. *)
Lemma wide_command t low : 0 <= t < 2 ^ 32 -> 0 <= low < 2 ^ 32 ->
  let v := u64 (Z.lor (u64 (Z.shiftl t 32)) low) in
  Z.land v 0xFFFFFFFF = low /\ Z.shiftr v 32 = t.
Proof.
  intros Ht Hl v. assert (v = t * 2 ^ 32 + low) as ->.
  { unfold v. rewrite Z.shiftl_mul_pow2 by lia. rewrite (u64_id (t * 2 ^ 32)) by (unfold is_u64; lia).
    rewrite (lor_aligned _ _ 32) by (try apply Z.mod_mul; lia). apply u64_id. unfold is_u64. lia. }
  change 0xFFFFFFFF with (2 ^ 32 - 1). rewrite land_low, Z.shiftr_div_pow2 by lia.
  split; [rewrite Z.add_comm, Z.mod_add by lia; by apply Z.mod_small|].
  rewrite Z.add_comm, Z.div_add by lia. rewrite (Z.div_small low) by lia. lia.
Qed.
Lemma xapic_destination t : 0 <= t < 2 ^ 8 -> Z.shiftr (u32 (u32 (Z.shiftl t 24))) 24 = t.
Proof. revert t. refine (byte_cases _ _). by vm_compute. Qed.
Lemma u32_range z : 0 <= u32 z < 2 ^ 32.
Proof. apply Z.mod_pos_bound. lia. Qed.
Lemma u32_id z : 0 <= z < 2 ^ 32 -> u32 z = z.
Proof. apply Z.mod_small. Qed.

(** A register of a controller in memory. *)
Definition base_ok (b : Z) : Prop := 0 <= b /\ b + 0x1000 <= 2 ^ 64.
Lemma xapic_write_eq b t reg v : base_ok b -> 0 <= reg < 0x1000 ->
  xapic_write reg v (mkLapic b false t) = Ok (tt, mkLapic b false (t ++ [Write (Phys (b + reg)) (u32 v)])).
Proof. intros [? ?] ?. unfold xapic_write, xapic_address, bind, gets. cbn. rewrite u64_id by (unfold is_u64; lia). done. Qed.
Lemma xapic_effects_cons b high reg v rest :
  xapic_effects b high (Write (Phys (b + reg)) v :: rest) =
    if reg =? 0x310 then xapic_effects b v rest else
    (if reg =? 0x300 then [command_effect v (Z.shiftr high 24)] else if reg =? 0xb0 then [EndOfInterrupt]
     else if reg =? 0x3e0 then [Divide v] else if reg =? 0x380 then [Count v] else if reg =? 0x320 then [TimerVector v] else []) ++ xapic_effects b high rest.
Proof. cbn [xapic_effects]. by replace (b + reg - b) with reg by lia. Qed.

Definition carries_x (b : Z) (w : list access) (es : list effect) : Prop :=
  forall high, exists high', forall rest, xapic_effects b high (w ++ rest) = es ++ xapic_effects b high' rest.
Lemma carries_x_nil b : carries_x b [] [].
Proof. intros high. by exists high. Qed.
Lemma carries_x_app b w1 w2 es1 es2 : carries_x b w1 es1 -> carries_x b w2 es2 -> carries_x b (w1 ++ w2) (es1 ++ es2).
Proof.
  intros H1 H2 high. destruct (H1 high) as [h1 E1]. destruct (H2 h1) as [h2 E2]. exists h2. intros rest.
  by rewrite <- app_assoc, E1, E2, app_assoc.
Qed.
Lemma carries_x_all b w es : carries_x b w es -> forall high, xapic_effects b high w = es.
Proof. intros H high. destruct (H high) as [h' E]. specialize (E []). rewrite app_nil_r in E. by rewrite E, app_nil_r. Qed.

(** The writes of a mode carry the effects of a call. *)
Definition issues (mode : bool) (b : Z) (carries : list access -> list effect -> Prop) (r : request) : Prop :=
  forall t, match intended r with
            | Err e => issue r (mkLapic b mode t) = Err e
            | Ok es => exists w, issue r (mkLapic b mode t) = Ok (tt, mkLapic b mode (t ++ w)) /\ carries w es
            end.

Definition register_effect (reg v : Z) : list effect :=
  if reg =? 0xb0 then [EndOfInterrupt] else if reg =? 0x3e0 then [Divide v] else if reg =? 0x380 then [Count v]
  else if reg =? 0x320 then [TimerVector v] else [].
Lemma one_write_x b tr reg v (m : M lapic unit) :
  base_ok b -> reg ∈ [0xb0; 0x3e0; 0x380; 0x320] -> m (mkLapic b false tr) = xapic_write reg v (mkLapic b false tr) ->
  exists w, m (mkLapic b false tr) = Ok (tt, mkLapic b false (tr ++ w)) /\ carries_x b w (register_effect reg (u32 v)).
Proof.
  intros Hb Hr ->. exists [Write (Phys (b + reg)) (u32 v)]. split.
  - apply xapic_write_eq; [done|]. set_unfold. lia.
  - intros high. exists high. intros rest. cbn [app]. rewrite xapic_effects_cons. set_unfold. by destruct Hr as [->|[->|[->|[->|[]]]]].
Qed.
Lemma pattern_u32 v p : divisor_pattern v = Some p -> u32 p = p.
Proof. unfold divisor_pattern. intros E. apply u32_id. repeat case_match; simplify_eq; lia. Qed.

Lemma issue_ipi_x b t type data :
  base_ok b -> 0 <= t < 2 ^ 8 -> 0 <= data < 2 ^ 8 -> issues false b (carries_x b) (RIpi t type data).
Proof.
  intros Hb Ht Hd tr.
  assert (forall low mode vec a, command_fields low = (0, mode, vec, a, low) ->
    exists w, (xapic_write 0x310 (u32 (Z.shiftl t 24)) ;; xapic_write 0x300 low) (mkLapic b false tr) = Ok (tt, mkLapic b false (tr ++ w)) /\
      carries_x b w [Interrupt (Some t) 0 mode vec a]) as Hcmd.
  { intros low mode vec a Hf. apply command_effect_fields with (dest := t) in Hf as [He Hu].
    exists [Write (Phys (b + 0x310)) (u32 (u32 (Z.shiftl t 24))); Write (Phys (b + 0x300)) low]. split.
    - erewrite bind_Ok by by apply xapic_write_eq. rewrite xapic_write_eq by done. rewrite Hu. by rewrite <- app_assoc.
    - intros high. exists (u32 (u32 (Z.shiftl t 24))). intros rest. cbn [app]. rewrite xapic_effects_cons. cbn iota beta.
      change (0x310 =? 0x310) with true. cbn iota. rewrite xapic_effects_cons. rewrite xapic_destination by done. by rewrite He. }
  destruct type; cbn [intended]; [apply Hcmd; reflexivity|apply Hcmd, sipi_fields; done|apply Hcmd, generic_fields; done|done].
Qed.

Lemma issue_x b r : base_ok b -> request_ok r -> issues false b (carries_x b) r.
Proof.
  intros Hb Hr. destruct r as [t type data|t type data|n|v|v| |]; cbn [request_ok] in Hr.
  - destruct Hr. by apply issue_ipi_x.
  - intros tr. destruct type; cbn [intended]; try done.
    pose proof (broadcast_fields t data Hr) as Hf. cbn zeta in Hf.
    set (low := u32 _) in Hf. exists [Write (Phys (b + 0x300)) low]. split.
    + unfold issue, broadcast, broadcast_command. erewrite bind_Ok by reflexivity. fold low. unfold in_mode. erewrite bind_Ok by reflexivity.
      cbn [x2apic_enabled]. rewrite xapic_write_eq by done. by destruct (command_effect_fields low 0 _ _ _ _ _ Hf) as [_ ->].
    + intros high. exists high. intros rest. cbn [app]. rewrite xapic_effects_cons.
      change (0x300 =? 0x310) with false. change (0x300 =? 0x300) with true. cbn iota.
      destruct (command_effect_fields low (Z.shiftr high 24) _ _ _ _ _ Hf) as [-> _]. by destruct t.
  - intros tr. cbn [intended issue]. unfold eoi. destruct (n =? irq_lapic_spurious); cbn [negb when].
    + exists []. rewrite app_nil_r. split; [done|apply carries_x_nil].
    + apply (one_write_x b tr 0xb0 0); [done|set_solver|reflexivity].
  - intros tr. cbn [intended issue]. unfold write_timer_divisor. destruct (divisor_pattern v) as [p|] eqn:E; [|done].
    assert (Divide p = Divide (u32 p)) as -> by by rewrite (pattern_u32 v p E). by apply (one_write_x b tr 0x3e0 p); [|set_solver|].
  - intros tr. cbn [intended issue]. assert (Count v = Count (u32 v)) as -> by by rewrite u32_id. by apply (one_write_x b tr 0x380 v); [|set_solver|].
  - intros tr. by apply (one_write_x b tr 0x320 irq_lapic_timer); [|set_solver|].
  - intros tr. by apply (one_write_x b tr 0x320 (Z.shiftl 1 16)); [|set_solver|].
Qed.

Lemma one_write_x2 b tr reg v (m : M lapic unit) :
  m (mkLapic b true tr) = x2apic_write reg v (mkLapic b true tr) ->
  exists w, m (mkLapic b true tr) = Ok (tt, mkLapic b true (tr ++ w)) /\ x2apic_effects w = x2apic_effect (Write (Msr reg) (u64 v)).
Proof. intros ->. exists [Write (Msr reg) (u64 v)]. split; [done|]. unfold x2apic_effects. cbn [flat_map]. apply app_nil_r. Qed.

Lemma command_x2 low t sh mode vec a e :
  0 <= t < 2 ^ 32 -> command_fields low = (sh, mode, vec, a, low) -> e = Interrupt (if sh =? 0 then Some t else None) sh mode vec a ->
  x2apic_effect (Write (Msr 0x830) (u64 (Z.lor (u64 (Z.shiftl t 32)) low))) = [e].
Proof.
  intros Ht Hf ->. destruct (command_effect_fields low t _ _ _ _ _ Hf) as [He Hu].
  assert (0 <= low < 2 ^ 32) as Hl by (rewrite <- Hu; apply u32_range).
  unfold x2apic_effect. change (0x830 =? 0x830) with true. cbn iota.
  destruct (wide_command t low Ht Hl) as [-> ->]. by rewrite He.
Qed.

Lemma issue_x2 b r : request_ok r -> issues true b (fun w es => x2apic_effects w = es) r.
Proof.
  intros Hr tr. destruct r as [t type data|t type data|n|v|v| |]; cbn [request_ok] in Hr.
  - destruct Hr as [Ht Hd]. destruct type; cbn [intended]; [..|done].
    + erewrite <- (command_x2 (Z.shiftl 5 8) t 0 5 0 false) by (done || lia). by apply one_write_x2.
    + erewrite <- (command_x2 _ t 0 6 data false) by (solve [by apply sipi_fields] || done || lia). by apply one_write_x2.
    + erewrite <- (command_x2 _ t 0 0 data true) by (solve [by apply generic_fields] || done || lia). by apply one_write_x2.
  - destruct type; cbn [intended]; try done. pose proof (broadcast_fields t data Hr) as Hf. cbn zeta in Hf. set (low := u32 _) in Hf.
    erewrite <- (command_x2 low 0) by (exact Hf || (by destruct t) || lia). by apply one_write_x2.
  - cbn [intended issue]. unfold eoi. destruct (n =? irq_lapic_spurious); cbn [negb when].
    + exists []. by rewrite app_nil_r.
    + by apply (one_write_x2 b tr 0x80b 0).
  - cbn [intended issue]. unfold write_timer_divisor. destruct (divisor_pattern v) as [p|] eqn:E; [|done].
    destruct (one_write_x2 b tr 0x83e p (in_mode (x2apic_write 0x83e p) (xapic_write 0x3e0 p)) eq_refl) as (w & Ew & Hw).
    exists w. split; [exact Ew|]. rewrite Hw. unfold x2apic_effect. cbn. f_equal. f_equal. apply u64_id.
    pose proof (pattern_u32 v p E). pose proof (u32_range p). unfold is_u64. lia.
  - cbn [intended issue]. destruct (one_write_x2 b tr 0x838 v (write_timer_counter v) eq_refl) as (w & Ew & Hw).
    exists w. split; [exact Ew|]. rewrite Hw. unfold x2apic_effect. cbn. f_equal. f_equal. apply u64_id. unfold is_u64. lia.
  - by apply (one_write_x2 b tr 0x832 irq_lapic_timer).
  - by apply (one_write_x2 b tr 0x832 (Z.shiftl 1 16)).
Qed.

Section sequences.
Context (mode : bool) (b : Z) (carries : list access -> list effect -> Prop).
Hypothesis carries_nil : carries [] [].
Hypothesis carries_app : forall w1 w2 es1 es2, carries w1 es1 -> carries w2 es2 -> carries (w1 ++ w2) (es1 ++ es2).

Lemma issue_all_carries l : Forall (issues mode b carries) l -> forall t,
  match intended_all l with
  | Err e => issue_all l (mkLapic b mode t) = Err e
  | Ok es => exists w, issue_all l (mkLapic b mode t) = Ok (tt, mkLapic b mode (t ++ w)) /\ carries w es
  end.
Proof using carries_nil carries_app.
  induction 1 as [|r l Hr _ IH]; intros t; cbn [intended_all issue_all].
  - exists []. by rewrite app_nil_r.
  - specialize (Hr t). destruct (intended r) as [es|e]; [|by apply bind_Err].
    destruct Hr as (w & E & Hw). erewrite bind_Ok by exact E. specialize (IH (t ++ w)).
    destruct (intended_all l) as [es'|e]; [|done]. destruct IH as (w' & E' & Hw'). exists (w ++ w'). rewrite app_assoc. auto.
Qed.
End sequences.

(** ** Theorems *)

(** C19: the two ways of driving the controller of a core are equivalent.  For every
    sequence of calls (sending and broadcasting interrupts, ending them, and setting
    the timer), the writes to the registers in memory and the writes to the model
    specific registers tell the controller the same things in the same order, which
    are what the calls are for; a call that panics does so in both.  Cores must have
    identifiers of 8 bits. *)
Theorem modes_equivalent l b1 b2 t1 t2 high :
  Forall request_ok l -> base_ok b1 ->
  match intended_all l with
  | Err e => issue_all l (mkLapic b1 false t1) = Err e /\ issue_all l (mkLapic b2 true t2) = Err e
  | Ok es => exists w1 w2,
      issue_all l (mkLapic b1 false t1) = Ok (tt, mkLapic b1 false (t1 ++ w1)) /\
      issue_all l (mkLapic b2 true t2) = Ok (tt, mkLapic b2 true (t2 ++ w2)) /\
      xapic_effects b1 high w1 = es /\ x2apic_effects w2 = es
  end.
Proof.
  intros Hl Hb.
  pose proof (issue_all_carries false b1 (carries_x b1) (carries_x_nil b1) (carries_x_app b1) l) as H1.
  pose proof (issue_all_carries true b2 (fun w es => x2apic_effects w = es) eq_refl) as H2.
  specialize (H1 ltac:(eapply Forall_impl; [exact Hl|]; intros; by apply issue_x) t1).
  specialize (H2 ltac:(intros ???? <- <-; unfold x2apic_effects; apply flat_map_app) l ltac:(eapply Forall_impl; [exact Hl|]; intros; by apply issue_x2) t2).
  destruct (intended_all l) as [es|e]; [|done]. destruct H1 as (w1 & E1 & C1), H2 as (w2 & E2 & C2).
  exists w1, w2. split; [done|]. split; [done|]. split; [by apply carries_x_all|done].
Qed.

Lemma modes_equivalent_witness :
  exists w1 w2,
    issue_all [RIpi 7 ipi_init 0; RDivisor 16; RCounter 100; RBroadcast target_others ipi_generic 0xf3; REoi 0xff] (mkLapic 0xfee00000 false []) = Ok (tt, mkLapic 0xfee00000 false ([] ++ w1)) /\
    issue_all [RIpi 7 ipi_init 0; RDivisor 16; RCounter 100; RBroadcast target_others ipi_generic 0xf3; REoi 0xff] (mkLapic 0 true []) = Ok (tt, mkLapic 0 true ([] ++ w2)) /\
    xapic_effects 0xfee00000 0 w1 = [Interrupt (Some 7) 0 5 0 false; Divide 3; Count 100; Interrupt None 3 0 0xf3 true] /\
    x2apic_effects w2 = [Interrupt (Some 7) 0 5 0 false; Divide 3; Count 100; Interrupt None 3 0 0xf3 true].
Proof.
  apply (modes_equivalent [RIpi 7 ipi_init 0; RDivisor 16; RCounter 100; RBroadcast target_others ipi_generic 0xf3; REoi 0xff] 0xfee00000 0 [] [] 0).
  - repeat constructor; cbn; lia.
  - split; lia.
Defined.

(** An identifier of more than 8 bits reaches another core from an xAPIC. *)
Example long_identifier_truncated :
  match issue (RIpi 0x103 ipi_init 0) (mkLapic 0xfee00000 false []) with
  | Ok (_, s) => xapic_effects 0xfee00000 0 (trace s)
  | Err _ => [] end = [Interrupt (Some 3) 0 5 0 false].
Proof. reflexivity. Qed.

(** ** Start-up *)

(** The last value written to a register. *)
Definition last_written (l : location) (t : list access) : option Z :=
  foldl (fun acc a => match a with
                      | Write (Phys x) v => match l with Phys y => if x =? y then Some v else acc | _ => acc end
                      | Write (Msr x) v => match l with Msr y => if x =? y then Some v else acc | _ => acc end
                      | _ => acc
                      end) None t.

Ltac run_reads := repeat match goal with |- context [Z.eqb (max_lvt ?v) 6] => destruct (Z.eqb (max_lvt v) 6) end.

(** A core that starts after the first leaves every local source masked, its timer
    too, and the controller enabled, whatever the hardware answers. *)
Theorem ap_initialize_masks hw b t :
  exists w, ap_initialize hw (mkLapic b true t) = Ok (tt, mkLapic b true (t ++ w)) /\
    (forall r, r ∈ [x2apic.lvt_timer; x2apic.lvt_thermal_sensor; x2apic.lvt_pmc; x2apic.lvt_lint0; x2apic.lvt_lint1; x2apic.lvt_error] ->
       last_written (Msr (x2apic.x2apic_registers_rw_value r)) w = Some masked) /\
    last_written (Msr 0x80f) w = Some 0x1ff.
Proof.
  unfold ap_initialize, in_mode. erewrite bind_Ok by reflexivity. cbn [x2apic_enabled].
  unfold x2apic_ap_initialize, disable_timer_irq, in_mode, x2apic_read, x2apic_write, read_location, write_location, log_access, when, bind, gets, modify, ret.
  run_reads; cbv beta iota delta [trace x2apic_enabled _register];
    (eexists; split; [do 2 f_equal; rewrite <- !app_assoc; reflexivity|]);
    (split; [intros r Hr; set_unfold; repeat (destruct Hr as [->|Hr]; [reflexivity|]); done|reflexivity]).
Qed.

(** On the first core the constructor masks the timer while [x2apic_enabled] is still
    false: the write goes to the memory at 0x320, and the register of the timer is not
    written at all. *)
Theorem x2apic_startup_writes_memory hw ecx base :
  Z.testbit ecx 21 = true ->
  exists w, initialize hw ecx base lapic_reset = Ok (tt, mkLapic 0 true w) /\
    last_written (Phys 0x320) w = Some masked /\ last_written (Msr (x2apic.x2apic_registers_rw_value x2apic.lvt_timer)) w = None.
Proof.
  intros H. unfold initialize. rewrite H.
  unfold x2apic_construct, x2apic_ap_initialize, disable_timer_irq, in_mode, xapic_write, xapic_address, x2apic_read, x2apic_write, read_location, write_location,
    lapic_reset, log_access, when, bind, gets, modify, ret.
  run_reads; cbv beta iota delta [trace x2apic_enabled _register];
    (eexists; split; [reflexivity|]; rewrite <- !app_assoc; split; reflexivity).
Qed.
