(* ===== verification/Contexts.v ===== *)
(** * Contexts of threads: kernel/arch/amd64/cpu/irqs.cpp, syscalls.cpp, thread.cpp, cpu.asm

    How a core enters and leaves the kernel and how it goes from one thread to
    another: the frames the entry stubs build, the handlers that save one thread and
    load another, and the instructions that return.  What an interrupt or a system
    call does in between is a parameter. *)
From S2P Require Import Prelude Lapic.

(** ** Registers and frames *)

(** What a thread sees of a core. *)
Module cpu.
Record registers : Type := mkRegisters {
  rax : Z; rbx : Z; rcx : Z; rdx : Z; rsi : Z; rdi : Z; rbp : Z; r8 : Z; r9 : Z; r10 : Z; r11 : Z; r12 : Z;
  r13 : Z; r14 : Z; r15 : Z; rip : Z; cs : Z; rflags : Z; rsp : Z; ss : Z
}.
End cpu.

(** [amd64::thread::context] *)
Module thread.
Record thread_context : Type := mkThread {
  rax : Z; rbx : Z; rcx : Z; rdx : Z; rsi : Z; rdi : Z; rsp : Z; rbp : Z; r8 : Z; r9 : Z; r10 : Z; r11 : Z;
  r12 : Z; r13 : Z; r14 : Z; r15 : Z; cs : Z; ss : Z; rip : Z; rflags : Z; can_sysret : bool
}.
Definition new_thread_context : thread_context :=
  mkThread 0 0 0 0 0 0 0 0 0 0 0 0 0 0 0 0 0x8 0x10 0 (Z.shiftl 1 9) false.
Definition set_userspace (c : thread_context) : thread_context :=
  mkThread (rax c) (rbx c) (rcx c) (rdx c) (rsi c) (rdi c) (rsp c) (rbp c) (r8 c) (r9 c) (r10 c) (r11 c) (r12 c)
      (r13 c) (r14 c) (r15 c) 0x1b 0x23 (rip c) (rflags c) (can_sysret c).
Definition set_instruction_pointer (address : Z) (c : thread_context) : thread_context :=
  mkThread (rax c) (rbx c) (rcx c) (rdx c) (rsi c) (rdi c) (rsp c) (rbp c) (r8 c) (r9 c) (r10 c) (r11 c) (r12 c)
      (r13 c) (r14 c) (r15 c) (cs c) (ss c) address (rflags c) (can_sysret c).
Definition set_stack_pointer (address : Z) (c : thread_context) : thread_context :=
  mkThread (rax c) (rbx c) (rcx c) (rdx c) (rsi c) (rdi c) address (rbp c) (r8 c) (r9 c) (r10 c) (r11 c) (r12 c)
      (r13 c) (r14 c) (r15 c) (cs c) (ss c) (rip c) (rflags c) (can_sysret c).
Definition with_rdi (v : Z) (c : thread_context) : thread_context :=
  mkThread (rax c) (rbx c) (rcx c) (rdx c) (rsi c) v (rsp c) (rbp c) (r8 c) (r9 c) (r10 c) (r11 c) (r12 c) (r13 c)
      (r14 c) (r15 c) (cs c) (ss c) (rip c) (rflags c) (can_sysret c).
Definition with_rsi (v : Z) (c : thread_context) : thread_context :=
  mkThread (rax c) (rbx c) (rcx c) (rdx c) v (rdi c) (rsp c) (rbp c) (r8 c) (r9 c) (r10 c) (r11 c) (r12 c) (r13 c)
      (r14 c) (r15 c) (cs c) (ss c) (rip c) (rflags c) (can_sysret c).
Definition with_rdx (v : Z) (c : thread_context) : thread_context :=
  mkThread (rax c) (rbx c) (rcx c) v (rsi c) (rdi c) (rsp c) (rbp c) (r8 c) (r9 c) (r10 c) (r11 c) (r12 c) (r13 c)
      (r14 c) (r15 c) (cs c) (ss c) (rip c) (rflags c) (can_sysret c).
Definition with_rcx (v : Z) (c : thread_context) : thread_context :=
  mkThread (rax c) (rbx c) v (rdx c) (rsi c) (rdi c) (rsp c) (rbp c) (r8 c) (r9 c) (r10 c) (r11 c) (r12 c) (r13 c)
      (r14 c) (r15 c) (cs c) (ss c) (rip c) (rflags c) (can_sysret c).
Definition with_r8 (v : Z) (c : thread_context) : thread_context :=
  mkThread (rax c) (rbx c) (rcx c) (rdx c) (rsi c) (rdi c) (rsp c) (rbp c) v (r9 c) (r10 c) (r11 c) (r12 c) (r13 c)
      (r14 c) (r15 c) (cs c) (ss c) (rip c) (rflags c) (can_sysret c).
Definition set_argument (idx value : Z) (c : thread_context) : res thread_context :=
  if idx =? 0 then Ok (with_rdi value c) else if idx =? 1 then Ok (with_rsi value c) else if idx =? 2 then Ok (with_rdx value c)
  else if idx =? 3 then Ok (with_rcx value c) else if idx =? 4 then Ok (with_r8 value c)
  else Err (Panic "Unsupported thread context argument index: #{} = {}!").
End thread.

(** [amd64::irq::context] *)
Module irq.
Record irq_context : Type := mkIrq {
  r15 : Z; r14 : Z; r13 : Z; r12 : Z; r11 : Z; r10 : Z; r9 : Z; r8 : Z; rbp : Z; rdi : Z; rsi : Z; rdx : Z;
  rcx : Z; rbx : Z; rax : Z; number : Z; error : Z; rip : Z; cs : Z; rflags : Z; rsp : Z; ss : Z
}.
Definition with_ss (v : Z) (c : irq_context) : irq_context :=
  mkIrq (r15 c) (r14 c) (r13 c) (r12 c) (r11 c) (r10 c) (r9 c) (r8 c) (rbp c) (rdi c) (rsi c) (rdx c) (rcx c) (rbx c)
      (rax c) (number c) (error c) (rip c) (cs c) (rflags c) (rsp c) v.
Definition with_rax (v : Z) (c : irq_context) : irq_context :=
  mkIrq (r15 c) (r14 c) (r13 c) (r12 c) (r11 c) (r10 c) (r9 c) (r8 c) (rbp c) (rdi c) (rsi c) (rdx c) (rcx c) (rbx c)
      v (number c) (error c) (rip c) (cs c) (rflags c) (rsp c) (ss c).
End irq.

(** [amd64::syscalls::context] *)
Module syscalls.
Record syscall_context : Type := mkSyscall {
  r15 : Z; r14 : Z; r13 : Z; r12 : Z; rflags : Z; r10 : Z; r9 : Z; r8 : Z; rbp : Z; rdi : Z; rsi : Z;
  user_rsp : Z; user_rip : Z; rbx : Z; rax : Z; iret_rip : Z; iret_cs : Z; iret_rflags : Z; iret_rsp : Z;
  iret_ss : Z
}.
Definition with_return (v : Z) (c : syscall_context) : syscall_context :=
  mkSyscall (r15 c) (r14 c) (r13 c) (r12 c) (rflags c) (r10 c) (r9 c) (r8 c) (rbp c) (rdi c) (rsi c) (user_rsp c)
      (user_rip c) (rbx c) v (iret_rip c) (iret_cs c) (iret_rflags c) (iret_rsp c) (iret_ss c).
End syscalls.

Definition upper_half : Z := 0x8000000000000000.

(** [irq::context::save_to] *)
Definition irq_save_to (c : irq.irq_context) : thread.thread_context :=
  let user := irq.rip c <? upper_half in
  thread.mkThread (irq.rax c) (irq.rbx c) (irq.rcx c) (irq.rdx c) (irq.rsi c) (irq.rdi c) (irq.rsp c) (irq.rbp c)
      (irq.r8 c) (irq.r9 c) (irq.r10 c) (irq.r11 c) (irq.r12 c) (irq.r13 c) (irq.r14 c) (irq.r15 c)
      (if user then 0x1b else 0x8) (if user then 0x23 else 0x10) (irq.rip c) (irq.rflags c) false.
(** [irq::context::load_from] *)
Definition irq_load_from (t : thread.thread_context) (c : irq.irq_context) : irq.irq_context :=
  irq.mkIrq (thread.r15 t) (thread.r14 t) (thread.r13 t) (thread.r12 t) (thread.r11 t) (thread.r10 t) (thread.r9 t)
      (thread.r8 t) (thread.rbp t) (thread.rdi t) (thread.rsi t) (thread.rdx t) (thread.rcx t) (thread.rbx t)
      (thread.rax t) (irq.number c) (irq.error c) (thread.rip t) (thread.cs t) (thread.rflags t) (thread.rsp t)
      (thread.ss t).
(** [syscalls::context::save_to]: three registers of the thread stay what they were. *)
Definition syscall_save_to (c : syscalls.syscall_context) (t : thread.thread_context) : thread.thread_context :=
  let user := syscalls.user_rip c <? upper_half in
  thread.mkThread (syscalls.rax c) (syscalls.rbx c) (thread.rcx t) (thread.rdx t) (syscalls.rsi c) (syscalls.rdi c)
      (syscalls.user_rsp c) (syscalls.rbp c) (syscalls.r8 c) (syscalls.r9 c) (syscalls.r10 c) (thread.r11 t)
      (syscalls.r12 c) (syscalls.r13 c) (syscalls.r14 c) (syscalls.r15 c) (if user then 0x1b else 0x8)
      (if user then 0x23 else 0x10) (syscalls.user_rip c) (syscalls.rflags c) user.
(** [syscalls::context::load_from] *)
Definition syscall_load_from (t : thread.thread_context) (c : syscalls.syscall_context) : syscalls.syscall_context :=
  let sysret := thread.can_sysret t in
  syscalls.mkSyscall (thread.r15 t) (thread.r14 t) (thread.r13 t) (thread.r12 t)
      (if sysret then thread.rflags t else thread.r11 t) (thread.r10 t) (thread.r9 t) (thread.r8 t) (thread.rbp t)
      (thread.rdi t) (thread.rsi t) (if sysret then thread.rsp t else thread.rdx t)
      (if sysret then thread.rip t else thread.rcx t) (thread.rbx t) (thread.rax t)
      (if sysret then syscalls.iret_rip c else thread.rip t) (if sysret then syscalls.iret_cs c else thread.cs t)
      (if sysret then syscalls.iret_rflags c else thread.rflags t)
      (if sysret then syscalls.iret_rsp c else thread.rsp t) (if sysret then syscalls.iret_ss c else thread.ss t).
(** [syscalls::context::check_kernel_space] *)
Definition check_kernel_space (c : syscalls.syscall_context) : syscalls.syscall_context :=
  if (syscalls.iret_rip c =? 0) && (upper_half <=? syscalls.user_rip c)
  then syscalls.mkSyscall (syscalls.r15 c) (syscalls.r14 c) (syscalls.r13 c) (syscalls.r12 c) (syscalls.rflags c)
      (syscalls.r10 c) (syscalls.r9 c) (syscalls.r8 c) (syscalls.rbp c) (syscalls.rdi c) (syscalls.rsi c)
      (syscalls.user_rsp c) (syscalls.user_rip c) (syscalls.rbx c) (syscalls.rax c) (syscalls.user_rip c) 0x8
      (syscalls.rflags c) (syscalls.user_rsp c) 0x10
  else c.

(** ** Entry and return: the stubs of cpu.asm with the instructions around them *)

(** An interrupt: the processor pushes the last five, the stub the rest. *)
Definition interrupt_entry (number error : Z) (r : cpu.registers) : irq.irq_context :=
  irq.mkIrq (cpu.r15 r) (cpu.r14 r) (cpu.r13 r) (cpu.r12 r) (cpu.r11 r) (cpu.r10 r) (cpu.r9 r) (cpu.r8 r) (cpu.rbp r)
      (cpu.rdi r) (cpu.rsi r) (cpu.rdx r) (cpu.rcx r) (cpu.rbx r) (cpu.rax r) number error (cpu.rip r) (cpu.cs r)
      (cpu.rflags r) (cpu.rsp r) (cpu.ss r).
(** The stub pops the registers and returns with [iretq]. *)
Definition interrupt_return (c : irq.irq_context) : cpu.registers :=
  cpu.mkRegisters (irq.rax c) (irq.rbx c) (irq.rcx c) (irq.rdx c) (irq.rsi c) (irq.rdi c) (irq.rbp c) (irq.r8 c)
      (irq.r9 c) (irq.r10 c) (irq.r11 c) (irq.r12 c) (irq.r13 c) (irq.r14 c) (irq.r15 c) (irq.rip c) (irq.cs c)
      (irq.rflags c) (irq.rsp c) (irq.ss c).
(** [syscall] moves the return address to rcx and the flags to r11, the stub the stack
    pointer to rdx; room for a frame of [iretq] is below the registers. *)
Definition syscall_entry (r : cpu.registers) : syscalls.syscall_context :=
  syscalls.mkSyscall (cpu.r15 r) (cpu.r14 r) (cpu.r13 r) (cpu.r12 r) (cpu.rflags r) (cpu.r10 r) (cpu.r9 r) (cpu.r8 r)
      (cpu.rbp r) (cpu.rdi r) (cpu.rsi r) (cpu.rsp r) (cpu.rip r) (cpu.rbx r) (cpu.rax r) 0 0x1b 0 0 0x23.
(** [sysretq] loads the flags from r11 (some of them are fixed) and makes the selectors
    from the upper half of the STAR register, which [syscalls::initialize] sets to 8. *)
Definition star_base : Z := 0x8.
Definition sysret_flags (v : Z) : Z := Z.lor (Z.land v 0x3C7FD7) 2.
Definition syscall_return (c : syscalls.syscall_context) : cpu.registers :=
  let iret := negb (syscalls.iret_rip c =? 0) in
  cpu.mkRegisters (syscalls.rax c) (syscalls.rbx c) (syscalls.user_rip c) (syscalls.user_rsp c) (syscalls.rsi c)
      (syscalls.rdi c) (syscalls.rbp c) (syscalls.r8 c) (syscalls.r9 c) (syscalls.r10 c) (syscalls.rflags c)
      (syscalls.r12 c) (syscalls.r13 c) (syscalls.r14 c) (syscalls.r15 c)
      (if iret then syscalls.iret_rip c else syscalls.user_rip c)
      (if iret then syscalls.iret_cs c else Z.lor (star_base + 16) 3)
      (if iret then syscalls.iret_rflags c else sysret_flags (syscalls.rflags c))
      (if iret then syscalls.iret_rsp c else syscalls.user_rsp c)
      (if iret then syscalls.iret_ss c else Z.lor (star_base + 8) 3).

(** ** State of a core *)

(** [irq_handler] *)
Record irq_handler : Type := mkHandlerSlot { h_lock : bool; h_valid : bool; h_fptr : Z; h_erased_fptr : Z; h_context : Z }.
Definition no_handler : irq_handler := mkHandlerSlot false false 0 0 0.

(** [scheduler::thread], as far as a switch uses it: the continuation is the code and
    the state it was set with; [_state_live] is whether that state is yet to be
    destroyed. *)
Record thread_object : Type := mkObject {
  _context : thread.thread_context;
  _continuation : option (Z * Z);
  _continuation_lock : bool;
  _state_live : bool
}.
Definition with_context (c : thread.thread_context) (t : thread_object) : thread_object :=
  mkObject c (_continuation t) (_continuation_lock t) (_state_live t).
Definition with_lock (b : bool) (t : thread_object) : thread_object :=
  mkObject (_context t) (_continuation t) b (_state_live t).

(** [current_thread] of the core's local storage, the threads by their addresses, the
    table of handlers, the interrupt controller, and the rest of the kernel. *)
Record core_state (K : Type) : Type := mkCoreState {
  current_thread : Z;
  threads : gmap Z thread_object;
  irq_handlers : list irq_handler;
  controller : lapic;
  rest : K
}.
Arguments mkCoreState {K} _ _ _ _ _.
Arguments current_thread {K} _.
Arguments threads {K} _.
Arguments irq_handlers {K} _.
Arguments controller {K} _.
Arguments rest {K} _.

Section core.
(** The code of interrupt handlers, of continuations and of system calls, by the
    addresses of functions. *)
Context {K : Type}.
Abbreviation CM := (M (core_state K)).
Context (call_handler : Z -> Z -> Z -> irq.irq_context -> CM irq.irq_context)
  (call_continuation : Z -> Z -> Z -> CM (bool * Z))
  (call_syscall : Z -> syscalls.syscall_context -> CM syscalls.syscall_context)
  (syscall_table : list Z).

Definition set_threads (m : gmap Z thread_object) (s : core_state K) : core_state K :=
  mkCoreState (current_thread s) m (irq_handlers s) (controller s) (rest s).
Definition set_handlers (l : list irq_handler) (s : core_state K) : core_state K :=
  mkCoreState (current_thread s) (threads s) l (controller s) (rest s).
Definition get_thread (t : Z) : CM thread_object := fun s =>
  match threads s !! t with Some x => Ok (x, s) | None => Err Fault end.
Definition put_thread (t : Z) (x : thread_object) : CM unit := modify (fun s => set_threads (<[t := x]> (threads s)) s).
Definition get_handler (n : Z) : CM irq_handler := fun s =>
  match irq_handlers s !! Z.to_nat n with Some h => Ok (h, s) | None => Err Fault end.
Definition put_handler (n : Z) (h : irq_handler) : CM unit := modify (fun s => set_handlers (<[Z.to_nat n := h]> (irq_handlers s)) s).
Definition on_controller {A} (m : M lapic A) : CM A := fun s =>
  match m (controller s) with
  | Ok (a, l) => Ok (a, mkCoreState (current_thread s) (threads s) (irq_handlers s) l (rest s))
  | Err e => Err e
  end.

(** ** Handlers of interrupts *)

Definition lock_handler (n : Z) : CM irq_handler :=
  let* h := get_handler n in
  if h_lock h then fail Deadlock
  else put_handler n (mkHandlerSlot true (h_valid h) (h_fptr h) (h_erased_fptr h) (h_context h)) ;; ret h.
Definition unlock_handler (n : Z) : CM unit :=
  let* h := get_handler n in
  put_handler n (mkHandlerSlot false (h_valid h) (h_fptr h) (h_erased_fptr h) (h_context h)).

Definition register_erased_handler (irqn fptr erased_fptr ctx : Z) : CM unit :=
  let* h := lock_handler irqn in
  if h_valid h then panic "Overriding an already registered IRQ: {:x}!" else
  put_handler irqn (mkHandlerSlot true true fptr erased_fptr ctx) ;;
  unlock_handler irqn.
(** The overload for a plain function: the trampoline is function 0. *)
Definition register_handler (irqn fptr : Z) : CM unit := register_erased_handler irqn 0 fptr 0.

(** ** Continuations: kernel/scheduler/thread.h *)

Definition lock_continuation (t : Z) : CM thread_object :=
  let* x := get_thread t in
  if _continuation_lock x then fail Deadlock else put_thread t (with_lock true x) ;; ret x.
Definition set_continuation (t c state : Z) : CM unit :=
  let* x := lock_continuation t in
  match _continuation x with
  | Some _ => panic "tried to set a continuation for a thread with an active continuation"
  | None => put_thread t (mkObject (_context x) (Some (c, state)) false true)
  end.
Definition invoke_continuation (t return_register : Z) : CM (bool * Z) :=
  let* x := lock_continuation t in
  match _continuation x with
  | Some (c, state) =>
      let* (r, reg) := call_continuation c state return_register in
      let* x := get_thread t in
      put_thread t (mkObject (_context x) None false (if r then false else _state_live x)) ;;
      ret (r, reg)
  | None => put_thread t (with_lock false x) ;; ret (true, return_register)
  end.

(** ** The two entries of the kernel *)

(** The loop at the end of [interrupt_handler] *)
Fixpoint irq_resume (fuel : nat) (new_thread : Z) (ctx : irq.irq_context) : CM irq.irq_context :=
  match fuel with
  | O => fail NoFuel
  | S n =>
      let* x := get_thread new_thread in
      let ctx := irq_load_from (_context x) ctx in
      let* (finished, rax) := invoke_continuation new_thread (irq.rax ctx) in
      let ctx := irq.with_rax rax ctx in
      if finished then ret ctx
      else let* next := gets current_thread in irq_resume n next ctx
  end.
Definition interrupt_handler (fuel : nat) (ctx : irq.irq_context) : CM irq.irq_context :=
  let ctx := if irq.ss ctx =? 0x13 then irq.with_ss 0x23 ctx else ctx in
  let number := irq.number ctx in
  let* h := lock_handler number in
  if negb (h_valid h) then panic "Unexpected IRQ: {:#04x}, {:b}, @ {:#018x}" else
  let* previous_thread := gets current_thread in
  let* ctx := call_handler (h_fptr h) (h_erased_fptr h) (h_context h) ctx in
  let* new_thread := gets current_thread in
  unlock_handler number ;;
  let* ctx :=
    if negb (new_thread =? previous_thread) then
      let* x := get_thread previous_thread in
      put_thread previous_thread (with_context (irq_save_to ctx) x) ;;
      irq_resume fuel new_thread ctx
    else ret ctx in
  when (32 <=? irq.number ctx) (on_controller (eoi (u8 number))) ;;
  ret ctx.

Fixpoint syscall_resume (fuel : nat) (new_thread : Z) (ctx : syscalls.syscall_context) : CM syscalls.syscall_context :=
  match fuel with
  | O => fail NoFuel
  | S n =>
      let* x := get_thread new_thread in
      let ctx := syscall_load_from (_context x) ctx in
      let* (finished, rax) := invoke_continuation new_thread (syscalls.rax ctx) in
      let ctx := syscalls.with_return rax ctx in
      if finished then ret ctx
      else let* next := gets current_thread in syscall_resume n next ctx
  end.
(** [syscall_count] is the number of entries of the table; the guard lets one more
    through. *)
Definition syscall_handler (fuel : nat) (ctx : syscalls.syscall_context) : CM syscalls.syscall_context :=
  if Z.of_nat (length syscall_table) <? syscalls.rax ctx then panic "TODO: handle a process invoking an invalid syscall" else
  let* previous_thread := gets current_thread in
  match syscall_table !! Z.to_nat (syscalls.rax ctx) with
  | None => fail Fault
  | Some f =>
      let* ctx := call_syscall f ctx in
      let* new_thread := gets current_thread in
      let* ctx :=
        if negb (new_thread =? previous_thread) then
          let* x := get_thread previous_thread in
          put_thread previous_thread (with_context (syscall_save_to ctx (_context x)) x) ;;
          syscall_resume fuel new_thread ctx
        else ret ctx in
      ret (check_kernel_space ctx)
  end.

(** A core that runs with registers [r] enters the kernel and returns. *)
Inductive entry : Type := Interrupted (number error : Z) | Called.
Definition enter (fuel : nat) (e : entry) (r : cpu.registers) : CM cpu.registers :=
  match e with
  | Interrupted number error => let* c := interrupt_handler fuel (interrupt_entry number error r) in ret (interrupt_return c)
  | Called => let* c := syscall_handler fuel (syscall_entry r) in ret (syscall_return c)
  end.
End core.

(** ** Switching *)

(** Registers a thread can run with: in the lower half it is a user thread, with flags
    that [sysretq] can restore.  Returning with [sysretq] leaves another selector for
    the same stack segment, which the interrupt handler puts right. *)
Definition mode_ok (r : cpu.registers) : Prop :=
  0 < cpu.rip r < 2 ^ 64 /\
  ((cpu.rip r < upper_half /\ cpu.cs r = 0x1b /\ (cpu.ss r = 0x23 \/ cpu.ss r = 0x13) /\ sysret_flags (cpu.rflags r) = cpu.rflags r) \/
   (upper_half <= cpu.rip r /\ cpu.cs r = 0x8 /\ cpu.ss r = 0x10)).
Definition normal_ss (v : Z) : Z := if v =? 0x13 then 0x23 else v.
(** All registers, and those a system call leaves alone: it returns a result in rax
    and uses rcx, rdx and r11 for the return. *)
Definition all_registers (r : cpu.registers) : list Z :=
  [cpu.rax r; cpu.rcx r; cpu.rdx r; cpu.r11 r;
   cpu.rbx r; cpu.rsi r; cpu.rdi r; cpu.rbp r; cpu.r8 r; cpu.r9 r; cpu.r10 r; cpu.r12 r; cpu.r13 r; cpu.r14 r; cpu.r15 r;
   cpu.rip r; cpu.cs r; cpu.rflags r; cpu.rsp r; normal_ss (cpu.ss r)].
Definition preserved (e : entry) (r r' : cpu.registers) : Prop :=
  match e with
  | Interrupted _ _ => all_registers r' = all_registers r
  | Called => drop 4 (all_registers r') = drop 4 (all_registers r)
  end.

Section switching.
Context {K : Type}
  (call_handler : Z -> Z -> Z -> irq.irq_context -> M (core_state K) irq.irq_context)
  (call_continuation : Z -> Z -> Z -> M (core_state K) (bool * Z))
  (call_syscall : Z -> syscalls.syscall_context -> M (core_state K) syscalls.syscall_context)
  (syscall_table : list Z).
Implicit Types (s : core_state K) (r : cpu.registers).
Abbreviation enter := (enter call_handler call_continuation call_syscall syscall_table).

(** The frame as the interrupt handler sees it. *)
Definition irq_frame (number error : Z) r : irq.irq_context :=
  let c := interrupt_entry number error r in if irq.ss c =? 0x13 then irq.with_ss 0x23 c else c.
Definition locked (number : Z) (h : irq_handler) s : core_state K :=
  set_handlers (<[Z.to_nat number := mkHandlerSlot true (h_valid h) (h_fptr h) (h_erased_fptr h) (h_context h)]> (irq_handlers s)) s.

(** The code an entry runs takes [s] to [s1]; a handler leaves the frame alone, a
    system call may change the result register. *)
Definition runs_to (e : entry) r s s1 : Prop :=
  match e with
  | Interrupted number error => exists h,
      irq_handlers s !! Z.to_nat number = Some h /\ h_lock h = false /\ h_valid h = true /\
      call_handler (h_fptr h) (h_erased_fptr h) (h_context h) (irq_frame number error r) (locked number h s) = Ok (irq_frame number error r, s1) /\
      is_Some (irq_handlers s1 !! Z.to_nat number)
  | Called => exists f v,
      syscall_table !! Z.to_nat (cpu.rax r) = Some f /\ 0 <= cpu.rax r /\
      call_syscall f (syscall_entry r) s = Ok (syscalls.with_return v (syscall_entry r), s1)
  end.
(** In a kernel [k], the continuation of the current thread [B] comes to its end: it
    writes [reg'] to the result register, and neither makes the core go on with another
    thread nor changes other threads. *)
Definition finishes (c st reg reg' B : Z) (k : K) : Prop :=
  forall s, current_thread s = B -> is_Some (threads s !! B) -> rest s = k ->
  exists s', call_continuation c st reg s = Ok ((true, reg'), s') /\ current_thread s' = B /\
    is_Some (threads s' !! B) /\ forall u, u <> B -> threads s' !! u = threads s !! u.
(** A thread that waits for nothing, or whose system call its continuation can finish;
    [reg] is what it gets in the result register. *)
Definition ready (x : thread_object) (t reg : Z) s : Prop :=
  match _continuation x with
  | None => reg = thread.rax (_context x)
  | Some (c, st) => finishes c st (thread.rax (_context x)) reg t (rest s)
  end.
(** The code of an entry makes the core go from [A] to [B], which is ready. *)
Record switches (e : entry) r s s1 (A B : Z) (xA xB : thread_object) (reg : Z) : Prop := mkSwitches {
  sw_runs : runs_to e r s s1;
  sw_from : current_thread s = A;
  sw_to : current_thread s1 = B;
  sw_distinct : A <> B;
  sw_old : threads s1 !! A = Some xA;
  sw_new : threads s1 !! B = Some xB;
  sw_ready : ready xB B reg s1;
  sw_free : _continuation_lock xB = false
}.

(** What is stored for a thread that stops, and what one that starts gets. *)
Definition stored (e : entry) r (v : Z) (t : thread.thread_context) : thread.thread_context :=
  match e with
  | Interrupted number error => irq_save_to (irq_frame number error r)
  | Called => syscall_save_to (syscalls.with_return v (syscall_entry r)) t
  end.
Definition loaded (e : entry) r (t : thread.thread_context) (reg : Z) : cpu.registers :=
  match e with
  | Interrupted number error => interrupt_return (irq.with_rax reg (irq_load_from t (irq_frame number error r)))
  | Called => syscall_return (check_kernel_space (syscalls.with_return reg (syscall_load_from t (syscall_entry r))))
  end.

Lemma invoke_ready t x s reg :
  current_thread s = t -> threads s !! t = Some x -> _continuation_lock x = false ->
  ready x t reg s ->
  exists s', invoke_continuation call_continuation t (thread.rax (_context x)) s = Ok ((true, reg), s') /\
    current_thread s' = t /\ forall u, u <> t -> threads s' !! u = threads s !! u.
Proof using Type.
  unfold ready. intros Hcur Hx Hl Hc. unfold invoke_continuation, lock_continuation.
  erewrite bind_Ok by (unfold bind, get_thread; rewrite Hx, Hl; reflexivity).
  destruct (_continuation x) as [[c st]|].
  - destruct (Hc (set_threads (<[t := with_lock true x]> (threads s)) s)) as (s2 & E & Hcur2 & [y Hy] & Hoth);
      [done|cbn; rewrite lookup_insert_eq; by eexists|done|].
    erewrite bind_Ok by exact E. cbn beta iota. erewrite bind_Ok by (unfold get_thread; by rewrite Hy).
    eexists. split; [reflexivity|]. split; [done|]. intros u Hu. cbn. rewrite lookup_insert_ne by done.
    rewrite Hoth by done. cbn. by rewrite lookup_insert_ne.
  - subst reg. eexists. split; [reflexivity|]. split; [done|]. intros u Hu. cbn. by rewrite !lookup_insert_ne by done.
Qed.

Lemma eoi_ok n l : exists l', eoi n l = Ok (tt, l').
Proof using Type. unfold eoi, when. destruct (negb _); [|by eexists]. unfold in_mode, bind, gets. destruct (x2apic_enabled l); by eexists. Qed.

(** The end of a handler once the code has run: the old thread is stored, the new one
    loaded. *)
Lemma irq_tail n number error r s1 A B xA xB reg :
  current_thread s1 = B -> A <> B -> threads s1 !! A = Some xA -> threads s1 !! B = Some xB -> ready xB B reg s1 -> _continuation_lock xB = false ->
  exists s2, (let* x := get_thread A in
              put_thread A (with_context (irq_save_to (irq_frame number error r)) x) ;;
              irq_resume call_continuation (S n) B (irq_frame number error r)) s1
      = Ok (irq.with_rax reg (irq_load_from (_context xB) (irq_frame number error r)), s2) /\
    threads s2 !! A = Some (with_context (irq_save_to (irq_frame number error r)) xA) /\ current_thread s2 = B.
Proof using Type.
  intros Hcur Hne HA HB Hc Hl. erewrite bind_Ok by (unfold get_thread; by rewrite HA). erewrite bind_Ok by reflexivity.
  set (s2 := set_threads _ s1). assert (threads s2 !! B = Some xB) as HB2 by (cbn; by rewrite lookup_insert_ne).
  cbn [irq_resume]. erewrite bind_Ok by (unfold get_thread; by rewrite HB2).
  destruct (invoke_ready B xB s2 reg Hcur HB2 Hl Hc) as (s3 & E & Hcur3 & Hother).
  erewrite bind_Ok by exact E. exists s3. split; [done|]. split; [|done].
  rewrite Hother by done. cbn. by rewrite lookup_insert_eq.
Qed.
Lemma syscall_tail n c s1 A B xA xB reg :
  current_thread s1 = B -> A <> B -> threads s1 !! A = Some xA -> threads s1 !! B = Some xB -> ready xB B reg s1 -> _continuation_lock xB = false ->
  exists s2, (let* x := get_thread A in
              put_thread A (with_context (syscall_save_to c (_context x)) x) ;;
              syscall_resume call_continuation (S n) B c) s1
      = Ok (syscalls.with_return reg (syscall_load_from (_context xB) c), s2) /\
    threads s2 !! A = Some (with_context (syscall_save_to c (_context xA)) xA) /\ current_thread s2 = B.
Proof using Type.
  intros Hcur Hne HA HB Hc Hl. erewrite bind_Ok by (unfold get_thread; by rewrite HA). erewrite bind_Ok by reflexivity.
  set (s2 := set_threads _ s1). assert (threads s2 !! B = Some xB) as HB2 by (cbn; by rewrite lookup_insert_ne).
  cbn [syscall_resume]. erewrite bind_Ok by (unfold get_thread; by rewrite HB2).
  destruct (invoke_ready B xB s2 reg Hcur HB2 Hl Hc) as (s3 & E & Hcur3 & Hother).
  erewrite bind_Ok by exact E. exists s3. split; [done|]. split; [|done].
  rewrite Hother by done. cbn. by rewrite lookup_insert_eq.
Qed.

Lemma enter_switches n e r s s1 A B xA xB reg :
  switches e r s s1 A B xA xB reg ->
  exists s2 v, enter (S n) e r s = Ok (loaded e r (_context xB) reg, s2) /\
    threads s2 !! A = Some (with_context (stored e r v (_context xA)) xA) /\ current_thread s2 = B.
Proof using Type.
  intros [Hr Hf Ht Hne HA HB Hc Hl]. destruct e as [number error|]; cbn in Hr.
  - destruct Hr as (h & Eh & Hlk & Hv & Ecall & [h1 Eh1]).
    destruct (irq_tail n number error r (set_handlers (<[Z.to_nat number := mkHandlerSlot false (h_valid h1) (h_fptr h1) (h_erased_fptr h1) (h_context h1)]> (irq_handlers s1)) s1)
      A B xA xB reg Ht Hne HA HB Hc Hl) as (s2 & E2 & HA2 & Hcur2).
    assert (irq.number (irq_frame number error r) = number) as Hnum by (unfold irq_frame; by destruct (_ =? 0x13)).
    assert (exists s3, interrupt_handler call_handler call_continuation (S n) (interrupt_entry number error r) s = Ok (irq.with_rax reg (irq_load_from (_context xB) (irq_frame number error r)), s3) /\
      threads s3 = threads s2 /\ current_thread s3 = current_thread s2) as (s3 & E3 & Hth & Hcu).
    { unfold interrupt_handler. fold (irq_frame number error r). rewrite Hnum.
      assert (lock_handler number s = Ok (h, locked number h s)) as Elock by (unfold lock_handler, get_handler, bind; rewrite Eh, Hlk; reflexivity).
      erewrite bind_Ok by exact Elock. replace (negb (h_valid h)) with false by by rewrite Hv. cbn iota.
      erewrite bind_Ok by reflexivity. erewrite bind_Ok by exact Ecall. erewrite bind_Ok by reflexivity.
      erewrite bind_Ok by (unfold unlock_handler, get_handler, bind; rewrite Eh1; reflexivity). cbn [current_thread set_handlers locked].
      rewrite Hf, Ht. rewrite (proj2 (Z.eqb_neq B A)) by congruence. cbn [negb].
      erewrite bind_Ok by exact E2. cbn [irq_load_from irq.with_rax irq.number]. rewrite Hnum. destruct (32 <=? number); cbn [when].
      - destruct (eoi_ok (u8 number) (controller s2)) as [l' El]. exists (mkCoreState (current_thread s2) (threads s2) (irq_handlers s2) l' (rest s2)).
        erewrite bind_Ok by (unfold on_controller; rewrite El; reflexivity). done.
      - erewrite bind_Ok by reflexivity. by eexists. }
    exists s3, 0. unfold Contexts.enter. erewrite bind_Ok by exact E3. rewrite Hth, Hcu. done.
  - destruct Hr as (f & v & Ef & Hpos & Ecall). apply lookup_lt_Some in Ef as Hlen.
    destruct (syscall_tail n (syscalls.with_return v (syscall_entry r)) s1 A B xA xB reg Ht Hne HA HB Hc Hl) as (s2 & E2 & HA2 & Hcur2).
    exists s2, v. split; [|done]. unfold Contexts.enter, syscall_handler. change (syscalls.rax (syscall_entry r)) with (cpu.rax r).
    rewrite (proj2 (Z.ltb_ge _ _)) by lia. rewrite bind_assoc. erewrite bind_Ok by reflexivity. rewrite Ef.
    rewrite bind_assoc. erewrite bind_Ok by exact Ecall. rewrite bind_assoc. erewrite bind_Ok by reflexivity.
    rewrite Hf, Ht. rewrite (proj2 (Z.eqb_neq B A)) by congruence. cbn [negb]. rewrite bind_assoc. erewrite bind_Ok by exact E2.
    by erewrite bind_Ok by reflexivity.
Qed.

(** ** Theorems *)

Ltac frame_cbn := cbn -[Z.ltb Z.leb Z.eqb sysret_flags upper_half Z.lor Z.land normal_ss].
(** Loading what was stored. *)
Lemma irq_frame_eq n er r : irq_frame n er r = irq.with_ss (normal_ss (cpu.ss r)) (interrupt_entry n er r).
Proof using Type. unfold irq_frame, normal_ss. cbn. by destruct (cpu.ss r =? 0x13). Qed.
Definition result_of (e : entry) (t : thread.thread_context) (reg : Z) : Prop :=
  match e with Interrupted _ _ => reg = thread.rax t | Called => True end.
Lemma loaded_stored_user e1 e2 r r2 v t reg :
  mode_ok r -> cpu.rip r < upper_half -> result_of e1 (stored e1 r v t) reg ->
  preserved e1 r (loaded e2 r2 (stored e1 r v t) reg).
Proof using Type.
  destruct r as [rax rbx rcx rdx rsi rdi rbp r8 r9 r10 r11 r12 r13 r14 r15 rip cs rflags rsp ss]. intros [Hrip Hm] Hlow Hres. cbn in Hrip, Hm, Hlow.
  destruct Hm as [(_ & -> & Hss & Hfl)|(Hhigh & _)]; [|lia].
  assert (rip <? upper_half = true) as Hu by by apply Z.ltb_lt.
  assert (upper_half <=? rip = false) as Hk by by apply Z.leb_gt.
  assert (normal_ss ss = 0x23) as Hn by (by destruct Hss as [->| ->]).
  assert (rip =? 0 = false) as H0 by (apply Z.eqb_neq; lia).
  destruct e1 as [n1 er1|], e2 as [n2 er2|]; unfold loaded, stored in *; cbn [result_of] in Hres; subst; rewrite ?irq_frame_eq; unfold preserved, all_registers, check_kernel_space;
    repeat (frame_cbn; rewrite ?Hu, ?Hk, ?Hn, ?H0, ?Z.eqb_refl, ?Hfl); done.
Qed.
Lemma loaded_stored_kernel e1 e2 r r2 v t reg :
  mode_ok r -> upper_half <= cpu.rip r -> result_of e1 (stored e1 r v t) reg ->
  preserved e1 r (loaded e2 r2 (stored e1 r v t) reg).
Proof using Type.
  destruct r as [rax rbx rcx rdx rsi rdi rbp r8 r9 r10 r11 r12 r13 r14 r15 rip cs rflags rsp ss]. intros [Hrip Hm] Hhigh Hres. cbn in Hrip, Hm, Hhigh.
  destruct Hm as [(Hlow & _)|(_ & -> & ->)]; [lia|].
  assert (rip <? upper_half = false) as Hu by by apply Z.ltb_ge.
  assert (upper_half <=? rip = true) as Hk by by apply Z.leb_le.
  assert (rip =? 0 = false) as H0 by (apply Z.eqb_neq; lia).
  destruct e1 as [n1 er1|], e2 as [n2 er2|]; unfold loaded, stored in *; cbn [result_of] in Hres; subst; rewrite ?irq_frame_eq; unfold preserved, all_registers, check_kernel_space;
    repeat (frame_cbn; rewrite ?Hu, ?Hk, ?H0, ?Z.eqb_refl); done.
Qed.

Lemma loaded_rax e r t reg : cpu.rax (loaded e r t reg) = reg.
Proof using Type.
  destruct e; [done|]. unfold loaded, check_kernel_space. by destruct (_ && _).
Qed.

(** C5: a thread that is taken off a core gets its registers back.  When an interrupt
    or a system call of thread [A] makes the core go on with another thread, the
    handler returns; and whenever later an interrupt or a system call of any thread
    makes a core go back to [A], whose context nobody wrote in between, the core runs
    with the registers [A] stopped with: all of them after an interrupt, all but the
    result and the three that a system call uses for its return after one.  The thread
    gone to may have a continuation, as one that blocks in a system call has, when it
    comes to its end then; the result register holds what it wrote.  A thread that was
    interrupted has none. *)
Theorem thread_resumes_unchanged n e1 r s s1 A B xA xB regB :
  mode_ok r -> switches e1 r s s1 A B xA xB regB ->
  exists rB s', enter (S n) e1 r s = Ok (rB, s') /\ current_thread s' = B /\
    forall n2 e2 r2 s2 s3 C xC x reg,
      switches e2 r2 s2 s3 C A xC x reg -> Some (_context x) = _context <$> (threads s' !! A) ->
      (e1 <> Called -> _continuation x = None) ->
      exists r' s4, enter (S n2) e2 r2 s2 = Ok (r', s4) /\ current_thread s4 = A /\ preserved e1 r r' /\ cpu.rax r' = reg.
Proof using Type.
  intros Hm Hsw. destruct (enter_switches n e1 r s s1 A B xA xB regB Hsw) as (s' & v & E & HA & Hcur).
  exists (loaded e1 r (_context xB) regB), s'. split; [done|]. split; [done|]. intros n2 e2 r2 s2 s3 C xC x reg Hsw2 Hx Hi.
  rewrite HA in Hx. cbn in Hx. injection Hx as Hx.
  destruct (enter_switches n2 e2 r2 s2 s3 C A xC x reg Hsw2) as (s4 & v2 & E2 & _ & Hcur2).
  exists (loaded e2 r2 (_context x) reg), s4. split; [done|]. split; [done|]. split; [|apply loaded_rax].
  assert (result_of e1 (_context x) reg) as Hres.
  { destruct e1; [|done]. pose proof (sw_ready _ _ _ _ _ _ _ _ _ Hsw2) as Hr. unfold ready in Hr. by rewrite Hi in Hr. }
  rewrite Hx in *. destruct (Z.lt_ge_cases (cpu.rip r) upper_half); [by apply loaded_stored_user|by apply loaded_stored_kernel].
Qed.

(** A system call that does not block returns to its caller, a kernel thread through
    [iretq], with the registers it did not use for the return as the call left them. *)
Theorem syscall_returns_to_caller n r s s1 :
  mode_ok r -> runs_to Called r s s1 -> current_thread s1 = current_thread s ->
  exists r', enter n Called r s = Ok (r', s1) /\ drop 4 (all_registers r') = drop 4 (all_registers r).
Proof using Type.
  intros [Hrip Hm] (f & v & Ef & Hpos & Ecall) Hsame. apply lookup_lt_Some in Ef as Hlen.
  eexists. split.
  - unfold Contexts.enter, syscall_handler. change (syscalls.rax (syscall_entry r)) with (cpu.rax r).
    rewrite (proj2 (Z.ltb_ge _ _)) by lia. rewrite bind_assoc. erewrite bind_Ok by reflexivity. rewrite Ef.
    rewrite bind_assoc. erewrite bind_Ok by exact Ecall. rewrite bind_assoc. erewrite bind_Ok by reflexivity.
    rewrite Hsame, Z.eqb_refl. cbn [negb]. rewrite bind_assoc. by erewrite bind_Ok by reflexivity.
  - destruct r as [rax rbx rcx rdx rsi rdi rbp r8 r9 r10 r11 r12 r13 r14 r15 rip cs rflags rsp ss]. cbn in Hrip, Hm.
    assert (rip =? 0 = false) as H0 by (apply Z.eqb_neq; lia). unfold all_registers, check_kernel_space.
    destruct Hm as [(Hlow & -> & Hss & Hfl)|(Hhigh & -> & ->)].
    + assert (upper_half <=? rip = false) as Hk by by apply Z.leb_gt.
      assert (normal_ss ss = 0x23) as Hn by (by destruct Hss as [->| ->]).
      repeat (frame_cbn; rewrite ?Hk, ?Hn, ?Z.eqb_refl, ?Hfl). done.
    + assert (upper_half <=? rip = true) as Hk by by apply Z.leb_le.
      repeat (frame_cbn; rewrite ?Hk, ?H0, ?Z.eqb_refl). done.
Qed.

(** The number just past the last system call passes the guard. *)
Theorem syscall_guard_lets_one_more n r s :
  cpu.rax r = Z.of_nat (length syscall_table) -> enter n Called r s = Err Fault.
Proof using Type.
  intros E. unfold Contexts.enter, syscall_handler. change (syscalls.rax (syscall_entry r)) with (cpu.rax r). rewrite E, Z.ltb_irrefl, Nat2Z.id.
  rewrite bind_assoc. erewrite bind_Ok by reflexivity. by rewrite lookup_ge_None_2 by done.
Qed.

(** A continuation that has to wait again is forgotten: the thread is resumed the next
    time as if its call were over. *)
Theorem unfinished_continuation_lost t x c st reg reg' s s1 y :
  threads s !! t = Some x -> _continuation x = Some (c, st) -> _continuation_lock x = false ->
  call_continuation c st reg (set_threads (<[t := with_lock true x]> (threads s)) s) = Ok ((false, reg'), s1) -> threads s1 !! t = Some y ->
  exists s2, invoke_continuation call_continuation t reg s = Ok ((false, reg'), s2) /\ _continuation <$> (threads s2 !! t) = Some None.
Proof using Type.
  intros Hx Hc Hl Ec Hy. unfold invoke_continuation, lock_continuation, get_thread, bind. rewrite Hx, Hl. cbn. rewrite Hc, Ec, Hy. cbn.
  eexists. split; [done|]. cbn. by rewrite lookup_insert_eq.
Qed.
End switching.

(** ** Witnesses and runs *)

(** Two threads; handler and system call 0 go to thread 2, 1 to thread 1.  System call 0
    leaves its thread waiting for continuation 5, which ends with result 77.
    Continuation 7 waits again, which makes the core go to thread 3. *)
Module example.
Definition go (t : Z) : M (core_state unit) unit := modify (fun s => mkCoreState t (threads s) (irq_handlers s) (controller s) (rest s)).
Definition handler (f e c : Z) (ctx : irq.irq_context) : M (core_state unit) irq.irq_context := go e ;; ret ctx.
Definition continuation (c st reg : Z) : M (core_state unit) (bool * Z) := if c =? 7 then go 3 ;; ret (false, reg) else ret (true, 77).
Definition call (f : Z) (ctx : syscalls.syscall_context) : M (core_state unit) syscalls.syscall_context :=
  (if f =? 2 then let* t := gets current_thread in set_continuation t 5 0 else ret tt) ;;
  go f ;; ret ctx.
Definition user_thread (ip : Z) (sysret : bool) : thread.thread_context :=
  thread.mkThread 1 2 3 4 5 6 0x7000 8 9 10 11 12 13 14 15 16 0x1b 0x23 ip 0x202 sysret.
Definition kernel_thread (ip : Z) : thread.thread_context :=
  thread.mkThread 1 2 3 4 5 6 0x7000 8 9 10 11 12 13 14 15 16 0x8 0x10 ip 0x202 false.
Definition idle (c : thread.thread_context) : thread_object := mkObject c None false false.
Definition slots : list irq_handler := replicate 33 (mkHandlerSlot false true 0 2 0).
Definition start (t2 : thread_object) : core_state unit :=
  mkCoreState 1 {[1 := idle (user_thread 0x5000 false); 2 := t2; 3 := idle (user_thread 0x6000 true)]} slots (mkLapic 0xfee00000 false []) tt.
Definition running : cpu.registers := cpu.mkRegisters 0 21 22 23 24 25 26 27 28 29 30 31 32 33 34 0x4000 0x1b 0x246 0x8000 0x23.
Definition run := enter handler continuation call [2; 1].
End example.

(** Thread 1 waits in system call 0; thread 2 makes system call 1, which goes back. *)
Lemma thread_resumes_unchanged_witness :
  exists rB s', example.run 1 Called example.running (example.start (example.idle (example.user_thread 0x5000 true))) = Ok (rB, s') /\ current_thread s' = 2 /\
    _continuation <$> threads s' !! 1 = Some (Some (5, 0)) /\
    exists r' s4, example.run 1 Called rB s' = Ok (r', s4) /\ current_thread s4 = 1 /\ preserved Called example.running r' /\ cpu.rax r' = 77.
Proof.
  edestruct (thread_resumes_unchanged example.handler example.continuation example.call [2; 1] 0 Called example.running
    (example.start (example.idle (example.user_thread 0x5000 true)))) as (rB & s' & E & Hc & H).
  - split; [cbn; lia|]. left. unfold upper_half. cbn. split; [lia|]. split; [done|]. split; [by left|done].
  - constructor; [eexists 2, 0; split; [reflexivity|]; split; [cbn; lia|reflexivity]|reflexivity|reflexivity|vm_compute; congruence|reflexivity..].
  - exists rB, s'. split; [exact E|]. split; [exact Hc|].
    vm_compute in E. injection E as <- <-. split; [reflexivity|].
    eapply H; [|reflexivity|done].
    constructor; [eexists 1, 1; split; [reflexivity|]; split; [cbn; lia|reflexivity]|reflexivity|reflexivity|cbn; lia|reflexivity|reflexivity| |reflexivity].
    intros s Hcur HB _. exists s. split; [reflexivity|]. done.
Defined.

(** There and back: thread 1 is interrupted, thread 2 makes a call that goes to it. *)
Example there_and_back :
  match example.run 1 (Interrupted 32 0) example.running (example.start (example.idle (example.user_thread 0x5000 true))) with
  | Ok (r2, s2) => match example.run 1 Called r2 s2 with Ok (r1, _) => bool_decide (all_registers r1 = all_registers example.running) | _ => false end
  | _ => false
  end = true.
Proof. vm_compute. reflexivity. Qed.

(** A kernel thread that has to wait again leaves its return frame behind: the user
    thread that is loaded next returns to the kernel's address in kernel mode. *)
Example stale_frame_used :
  match example.run 2 Called example.running (example.start (mkObject (example.kernel_thread 0xffff800000001000) (Some (7, 0)) false true)) with
  | Ok (r, s) => (current_thread s, cpu.rip r, cpu.cs r)
  | Err _ => (0, 0, 0) end = (3, 0xffff800000001000, 0x8).
Proof. vm_compute. reflexivity. Qed.

(** A new thread that is to start at address 0 loses its stack and its flags when a
    system call switches to it: it runs in user mode with interrupts off. *)
Example zero_entry_point :
  match example.run 1 Called example.running
    (example.start (example.idle (thread.set_stack_pointer 0x9000 (thread.set_instruction_pointer 0 (thread.set_userspace thread.new_thread_context))))) with
  | Ok (r, s) => (current_thread s, cpu.rip r, cpu.rsp r, Z.testbit (cpu.rflags r) 9, cpu.cs r)
  | Err _ => (0, 0, 0, true, 0) end = (2, 0, 0, false, 0x1b).
Proof. vm_compute. reflexivity. Qed.
