(* ===== verification/Stacks.v ===== *)
(** * Kernel stacks

    A stack of the kernel is a range of 32 pages whose lowest page stays unmapped and
    whose other pages get a frame each: the loop that kernel/arch/amd64/cpu/gdt.cpp,
    syscalls.cpp, cpu.cpp and mp/mp.cpp all have. *)
From S2P Require Import Prelude Pmm PageTable PageTableLaws PageMap PageTheorems Vas VasTheorems.

(** ** Operations *)

Definition stack_pages : nat := 32.
Definition stack_size : Z := 32 * 4096.

(** [pmm::pop(0)] *)
Definition pop_frame : M memory Z := on_pages (fun v =>
  match Pmm.pop 0 (frames v) with Ok (a, f) => Ok (a, set_frames f v) | Err e => Err e end).
(** [for (j = ...; j < 32; ++j) map_physical(stack + j * 4096, stack + (j + 1) * 4096, pmm::pop(0))] *)
Fixpoint map_stack_pages (k : nat) (j stack : Z) : M memory unit :=
  match k with
  | O => ret tt
  | S k' =>
      let* f := pop_frame in
      on_pages (map_physical None (u64 (stack + j * 4096)) (u64 (stack + (j + 1) * 4096)) f flags_none) ;;
      map_stack_pages k' (j + 1) stack
  end.
Definition make_stack : M memory Z :=
  let* stack := allocate_address_range stack_size in
  map_stack_pages 31 1 stack ;;
  ret stack.

(** ** Lemmas *)

Section lemmas.
Implicit Types (w : memory).

Lemma pop_frame_ok w o f fr big asid :
  address_space (pages w) o (f :: fr) big asid ->
  exists s', pop_frame w = Ok (f, set_pages s' w) /\ address_space s' o fr big asid /\ tables s' = tables (pages w) /\ rest_same (pages w) s' /\ frame_ok f.
Proof.
  intros [[Hs Hf Hd] Hu Hr]. destruct (fa_frames _ _ _ Hf) as [_ Hfr]. apply Forall_cons in Hfr as [Hfok _].
  destruct (fa_pop_ok _ _ _ _ Hf) as (f' & E & Hf'). exists (set_frames f' (pages w)). split.
  { unfold pop_frame, on_pages. change (Pmm.pop 0) with (fa_pop (F := pmm)). by rewrite E. }
  split; [split; [split|..]|]; try done. intros q Hq Hin. apply (Hd q Hq). set_solver.
Qed.

(** Frames that were taken: from the free ones, different, and free no more. *)
Definition taken (fs fr fr' : list Z) : Prop :=
  fr' `suffix_of` fr /\ NoDup fs /\ forall f, f ∈ fs -> f ∈ fr /\ f ∉ fr'.
Lemma taken_nil fr : taken [] fr fr.
Proof. split; [done|]. split; [by apply NoDup_nil|]. set_solver. Qed.
Lemma taken_cons f fs fr l fr' : NoDup (f :: fr) -> l `suffix_of` fr -> taken fs l fr' -> taken (f :: fs) (f :: fr) fr'.
Proof.
  intros [Hf Hnd]%NoDup_cons Hl (Hs & Hfs & Hin).
  assert (forall x, x ∈ l -> x ∈ fr) as Hlf by (destruct Hl as [k ->]; set_solver).
  assert (forall x, x ∈ fr' -> x ∈ l) as Hfl by (destruct Hs as [k ->]; set_solver).
  split; [etrans; [exact Hs|]; by apply suffix_cons_r|]. split.
  - apply NoDup_cons. split; [|done]. intros Hx. apply Hf. naive_solver.
  - intros x [->|Hx]%elem_of_cons; [set_solver|]. specialize (Hin x Hx). set_solver.
Qed.
Lemma taken_trans fs1 fs2 fr fr1 fr2 : taken fs1 fr fr1 -> taken fs2 fr1 fr2 -> taken (fs1 ++ fs2) fr fr2.
Proof.
  intros (H1 & N1 & I1) (H2 & N2 & I2).
  assert (forall x, x ∈ fr1 -> x ∈ fr) as Hlf by (destruct H1 as [k ->]; set_solver).
  assert (forall x, x ∈ fr2 -> x ∈ fr1) as Hfl by (destruct H2 as [k ->]; set_solver).
  split; [by etrans|]. split; [apply NoDup_app; naive_solver|]. intros f [Hf|Hf]%elem_of_app; naive_solver.
Qed.

(** What maps the pages from [start] on to these frames, for the kernel alone. *)
Definition pages_at (root B start : Z) (fs : list Z) (t t' : gmap Z (list pmle)) : Prop :=
  forall v, in_block 4 B v -> translate t' 4 root v =
    if (start <=? v) && (v <? start + 4096 * Z.of_nat (length fs))
    then (fun f => (f, false)) <$> (fs !! Z.to_nat ((v - start) / 4096))
    else translate t 4 root v.

(** The pages of a range, mapped one after the other to the frames that are taken. *)
Lemma map_stack_pages_ok k j stack w o fr big B :
  let root := cr3 (pages w) in let start := stack + j * 4096 in
  address_space (pages w) o fr big root -> block_base 4 B -> 0 <= j ->
  B <= start -> start + 4096 * Z.of_nat k <= B + 2 ^ 48 -> start + 4096 * Z.of_nat k < 2 ^ 64 -> 0 <= stack -> stack mod 4096 = 0 ->
  (forall v, start <= v < start + 4096 * Z.of_nat k -> translate (tables (pages w)) 4 root v = None) ->
  4 * Z.of_nat k <= Z.of_nat (length fr) ->
  exists fs s' o' fr', map_stack_pages k j stack w = Ok (tt, set_pages s' w) /\ length fs = k /\ taken fs fr fr' /\
    address_space s' o' fr' big root /\ rest_same (pages w) s' /\
    Z.of_nat (length fr) <= Z.of_nat (length fr') + 4 * Z.of_nat k /\ pages_at root B start fs (tables (pages w)) (tables s').
Proof.
  revert j w o fr. induction k as [|k IH]; intros j w o fr root start A HB Hj Hlo Hhi H64 Hst Ha Hnone Hfr.
  { exists [], (pages w), o, fr. split; [by destruct w|]. split; [done|]. split; [apply taken_nil|]. split; [done|]. split; [by repeat split|]. split; [lia|].
    intros v Hv. cbn [length]. rewrite Z.mul_0_r, Z.add_0_r. by destruct (Z.leb_spec start v), (Z.ltb_spec v start); try lia. }
  rewrite Nat2Z.inj_succ in *. destruct fr as [|f fr]; [cbn in Hfr; lia|].
  destruct (fa_frames _ _ _ (ok_free _ _ _ _ (as_ok _ _ _ _ _ A))) as [[Hnd _]%NoDup_app _].
  destruct (pop_frame_ok w o f fr big root A) as (s1 & E1 & A1 & T1 & R1 & [[Hf0 Hf52] Hfa]).
  assert (cr3 s1 = root) as Hroot by apply R1.
  assert (start mod 4096 = 0) as Has by (unfold start; by rewrite Z_mod_plus_full).
  destruct (map_physical_frames None s1 o fr big root B start (start + 4096) f flags_none)
    as (s2 & o2 & l2 & E2 & S2 & A2 & R2 & C2 & T2); try done; try lia.
  { unfold root_of, gets. by rewrite Hroot. }
  { rewrite <- (Z.mul_1_l 4096) at 1. by rewrite Z_mod_plus_full. }
  { apply Z.div_exact in Hfa; [|lia]. change (2 ^ 52) with (4096 * 2 ^ 40) in *. lia. }
  { by apply one_page_in_step. }
  { intros v Hv. rewrite T1. apply Hnone. lia. }
  { replace (start + 4096 - start) with 4096 by lia. change (4096 / 4096) with 1. cbn [length] in Hfr. lia. }
  replace (start + 4096 - start) with 4096 in C2 by lia. change (4096 / 4096) with 1 in C2.
  assert (cr3 s2 = root) as Hroot2 by (destruct R2 as [-> _]; exact Hroot).
  assert (start + 4096 = stack + (j + 1) * 4096) as Hnext by (unfold start; lia).
  destruct (IH (j + 1) (set_pages s2 w) o2 l2) as (fs & s3 & o3 & l3 & E3 & L3 & K3 & A3 & R3 & C3 & T3);
    cbn [pages set_pages]; rewrite ?Hroot2, <- ?Hnext; try done; try lia.
  { intros v Hv. rewrite T2 by (unfold in_block; change (es 5) with (2 ^ 48); lia). rewrite (proj2 (Z.ltb_ge v _)), andb_false_r by lia. rewrite T1. apply Hnone. lia. }
  { cbn [length] in Hfr. lia. }
  exists (f :: fs), s3, o3, l3. split; [|split; [cbn; lia|split; [by eapply taken_cons|]]].
  - cbn [map_stack_pages]. erewrite bind_Ok by exact E1.
    rewrite (u64_id (stack + j * 4096)), (u64_id (stack + (j + 1) * 4096)) by (unfold is_u64; lia). fold start. rewrite <- Hnext.
    erewrite bind_Ok by (unfold on_pages; cbn [pages set_pages]; rewrite E2; reflexivity).
    assert (set_pages s2 (set_pages s1 w) = set_pages s2 w) as -> by done. exact E3.
  - cbn [pages set_pages] in *. rewrite Hroot2 in *. split; [done|].
    split. { destruct R1 as (?&?&?&?), R2 as (?&?&?&?), R3 as (?&?&?&?). repeat split; congruence. }
    split; [cbn [length] in *; lia|]. intros v Hv. rewrite T3 by done. rewrite <- Hnext. cbn [length]. rewrite Nat2Z.inj_succ.
    destruct (decide (v < start + 4096)) as [Hlt|Hge].
    + rewrite (proj2 (Z.leb_gt (start + 4096) v)) by lia. cbn [andb]. rewrite T2, T1 by done.
      rewrite (proj2 (Z.ltb_lt v (start + 4096))) by lia. rewrite andb_true_r.
      destruct (Z.leb_spec start v); [|done]. rewrite (proj2 (Z.ltb_lt v _)) by lia. cbn [andb].
      rewrite Z.div_small by lia. change (Z.to_nat 0) with 0%nat. cbn [lookup list_lookup fmap option_fmap option_map].
      assert (v mod 4096 = v - start) as ->.
      { apply Z.div_exact in Has; [|lia]. rewrite <- (Z.mod_small (v - start) 4096) by lia. replace (v - start) with (v + (- (start / 4096)) * 4096) by lia. by rewrite Z_mod_plus_full. }
      change (has_flag flags_none flags_user) with false. do 2 f_equal. lia.
    + rewrite (proj2 (Z.leb_le (start + 4096) v)), (proj2 (Z.leb_le start v)) by lia. cbn [andb].
      replace (start + 4096 + 4096 * Z.of_nat (length fs)) with (start + 4096 * Z.succ (Z.of_nat (length fs))) by lia.
      destruct (Z.ltb_spec v (start + 4096 * Z.succ (Z.of_nat (length fs)))).
      * f_equal. replace (v - start) with ((v - (start + 4096)) + 1 * 4096) by lia. rewrite Z.div_add by lia.
        rewrite Z2Nat.inj_add by (try apply Z.div_pos; lia). rewrite Nat.add_comm. done.
      * rewrite T2, T1 by done. by rewrite (proj2 (Z.ltb_ge v (start + 4096))), andb_false_r by lia.
Qed.
End lemmas.

(** ** Several stacks *)

Fixpoint make_stacks (n : nat) : M memory (list Z) :=
  match n with
  | O => ret []
  | S n' => let* stack := make_stack in let* l := make_stacks n' in ret (stack :: l)
  end.

Definition lower_top (d : Z) (s : vm_state pmm) (w : memory) : memory :=
  mkMemory s (vmos w) (vases w) (mapping_home w) (next_object w) (vdso_vmo w) (vm_space_top w - d).

Section stacks.
Implicit Types (w : memory).

(** Room for [n] stacks below the addresses that are in use, and frames for their
    pages and tables. *)
Record room (n : nat) w (o : owners) (fr big : list Z) (B : Z) : Prop := {
  room_space : address_space (pages w) o fr big (cr3 (pages w));
  room_block : block_base 4 B;
  room_top : vm_space_top w mod 4096 = 0 /\ B <= vm_space_top w - Z.of_nat n * stack_size /\ vm_space_top w <= B + 2 ^ 48 /\ vm_space_top w < 2 ^ 64;
  room_free v : vm_space_top w - Z.of_nat n * stack_size <= v < vm_space_top w -> translate (tables (pages w)) 4 (cr3 (pages w)) v = None;
  room_frames : 124 * Z.of_nat n <= Z.of_nat (length fr)
}.

Lemma make_stack_ok n w o fr big B :
  room (S n) w o fr big B -> let stack := vm_space_top w - stack_size in
  exists fs s' o' fr', make_stack w = Ok (stack, lower_top stack_size s' w) /\ length fs = 31%nat /\ taken fs fr fr' /\
    cr3 s' = cr3 (pages w) /\ pages_at (cr3 (pages w)) B (stack + 4096) fs (tables (pages w)) (tables s') /\
    room n (lower_top stack_size s' w) o' fr' big B.
Proof.
  intros [A HB (Ha & Hlo & Hhi & H64) Hnone Hfr] stack. rewrite Nat2Z.inj_succ in *. unfold stack_size in *.
  assert (0 <= B) by (destruct HB; lia).
  set (w1 := lower_top (32 * 4096) (pages w) w).
  assert (allocate_address_range stack_size w = Ok (stack, w1)) as E1.
  { unfold allocate_address_range. change (Z.land (u64 (stack_size + 4095)) (not64 4095)) with (32 * 4096).
    unfold bind, gets, modify, ret. by rewrite u64_id by (unfold is_u64; lia). }
  assert (stack mod 4096 = 0) as Hsa by (unfold stack; by rewrite Zminus_mod, Ha).
  destruct (map_stack_pages_ok 31 1 stack w1 o fr big B) as (fs & s' & o' & fr' & E2 & L & K & A' & R & C & T);
    cbn [pages w1 lower_top]; try done; try (unfold stack; lia).
  { intros v Hv. apply Hnone. unfold stack in Hv. lia. }
  change (pages w1) with (pages w) in *.
  exists fs, s', o', fr'. split; [|split; [done|split; [done|split; [apply R|split; [by replace (stack + 4096) with (stack + 1 * 4096) by lia|]]]]].
  - unfold make_stack. erewrite bind_Ok by exact E1. by erewrite bind_Ok by exact E2.
  - assert (cr3 s' = cr3 (pages w)) as Hr by apply R. split; cbn [pages lower_top vm_space_top]; rewrite ?Hr; try done; unfold stack_size in *.
    + split; [done|]. lia.
    + intros v Hv. rewrite (T v) by (unfold in_block; change (es 5) with (2 ^ 48); lia). rewrite (proj2 (Z.leb_gt _ v)) by (unfold stack; lia). cbn [andb].
      apply Hnone. lia.
    + change (Z.of_nat 31) with 31 in C. lia.
Qed.

(** The stacks below [top]: the pages of each but the lowest are mapped to frames of
    their own, and nothing else changes. *)
Record stacks_ready (root B top : Z) (fss : list (list Z)) (fr fr' : list Z) (t t' : gmap Z (list pmle)) : Prop := {
  ready_taken : taken (concat fss) fr fr';
  ready_page i fs v : fss !! i = Some fs -> let base := top - (Z.of_nat i + 1) * stack_size in base + 4096 <= v < base + stack_size ->
    exists f, fs !! Z.to_nat ((v - base) / 4096 - 1) = Some f /\ translate t' 4 root v = Some (f, false);
  ready_guard i fs v : fss !! i = Some fs -> let base := top - (Z.of_nat i + 1) * stack_size in base <= v < base + 4096 -> translate t' 4 root v = None;
  ready_rest v : in_block 4 B v -> v < top - Z.of_nat (length fss) * stack_size \/ top <= v -> translate t' 4 root v = translate t 4 root v
}.

Lemma make_stacks_ok n w o fr big B :
  room n w o fr big B ->
  exists fss s' o' fr', make_stacks n w = Ok ((fun i => vm_space_top w - (Z.of_nat i + 1) * stack_size) <$> seq 0 n, lower_top (Z.of_nat n * stack_size) s' w) /\
    length fss = n /\ stacks_ready (cr3 (pages w)) B (vm_space_top w) fss fr fr' (tables (pages w)) (tables s') /\
    cr3 s' = cr3 (pages w) /\ room 0 (lower_top (Z.of_nat n * stack_size) s' w) o' fr' big B.
Proof.
  revert w o fr. induction n as [|n IH]; intros w o fr R.
  { exists [], (pages w), o, fr. assert (lower_top (Z.of_nat 0 * stack_size) (pages w) w = w) as -> by (unfold lower_top; destruct w; cbn; f_equal; lia).
    split; [done|]. split; [done|]. split; [|done]. split; [apply taken_nil|done..]. }
  destruct (make_stack_ok n w o fr big B R) as (fs & s1 & o1 & fr1 & E1 & L1 & K1 & Hr1 & T1 & R1).
  destruct (IH _ _ _ R1) as (fss & s' & o' & fr' & E2 & L2 & Y & Hr2 & R2). cbn [pages lower_top vm_space_top] in *. rewrite Hr1 in *.
  set (top := vm_space_top w) in *.
  assert (forall i, top - stack_size - (Z.of_nat i + 1) * stack_size = top - (Z.of_nat (S i) + 1) * stack_size) as Hsh by (intros; lia).
  assert (lower_top (Z.of_nat n * stack_size) s' (lower_top stack_size s1 w) = lower_top (Z.of_nat (S n) * stack_size) s' w) as Hw.
  { unfold lower_top. cbn. f_equal. lia. }
  rewrite Hw in *. exists (fs :: fss), s', o', fr'. split; [|split; [cbn; lia|split; [|done]]].
  - cbn [make_stacks]. erewrite bind_Ok by exact E1. erewrite bind_Ok by exact E2. unfold ret. f_equal. f_equal. cbn [seq fmap list_fmap]. f_equal.
    rewrite <- (fmap_S_seq 0 n), <- list_fmap_compose. apply list_fmap_ext. intros i x _. cbn. apply Hsh.
  - destruct Y as [Yt Yp Yg Yr]. destruct R as [_ HB (Ha & Hlo & Hhi & H64) Hnone _]. rewrite Nat2Z.inj_succ in *. fold top in Hlo, Hhi, H64, Hnone, Ha.
    assert (es 5 = 2 ^ 48) as H48 by done. assert (0 <= B) by (destruct HB; lia). unfold stack_size in *.
    split.
    + cbn [concat]. by eapply taken_trans.
    + intros [|i] fs' v Hi base Hv; unfold stack_size in *; [injection Hi as <-|].
      * assert (base = top - 32 * 4096) as Hb by (unfold base; lia). rewrite Yr by (unfold in_block; lia). rewrite (T1 v) by (unfold in_block; lia).
        rewrite L1. change (4096 * Z.of_nat 31) with (31 * 4096). rewrite (proj2 (Z.leb_le _ v)), (proj2 (Z.ltb_lt v _)) by lia. cbn [andb].
        assert ((v - (top - 32 * 4096 + 4096)) / 4096 = (v - base) / 4096 - 1) as ->.
        { replace (v - base) with (v - (top - 32 * 4096 + 4096) + 1 * 4096) by lia. rewrite Z.div_add by lia. lia. }
        destruct (lookup_lt_is_Some_2 fs (Z.to_nat ((v - base) / 4096 - 1))) as [f Hf].
        { assert ((v - base) / 4096 < 32) by (apply Z.div_lt_upper_bound; lia). lia. }
        exists f. by rewrite Hf.
      * unfold base in *. rewrite <- Hsh in *. by apply (Yp i fs').
    + intros [|i] fs' v Hi base Hv; unfold stack_size in *; [injection Hi as <-|].
      * rewrite Yr by (unfold in_block; lia). rewrite (T1 v) by (unfold in_block; lia). rewrite (proj2 (Z.leb_gt _ v)) by lia. cbn [andb]. apply Hnone. lia.
      * unfold base in *. rewrite <- Hsh in *. by apply (Yg i fs').
    + intros v Hv Hout. unfold stack_size in *. cbn [length] in Hout. rewrite Nat2Z.inj_succ in Hout. rewrite Yr by (done || lia). rewrite (T1 v) by done. rewrite L1.
      change (4096 * Z.of_nat 31) with (31 * 4096). destruct (Z.leb_spec (top - 32 * 4096 + 4096) v), (Z.ltb_spec v (top - 32 * 4096 + 4096 + 31 * 4096)); cbn [andb]; try done; lia.
Qed.
End stacks.
