(* ===== verification/HwTimers.v ===== *)
(** * Hardware timers: kernel/arch/amd64/timers/lapic.cpp, hpet.cpp and timers.cpp

    The two timers behind kernel/time: the counter of a local interrupt controller,
    which counts down from a value at a divided rate, and the comparators of the high
    precision event timer, which compare a register to a counter that only rises.
    Durations are 64-bit counts of nanoseconds or femtoseconds; a signed operation
    that overflows is a fault. *)
From S2P Require Import Prelude Lapic Contexts.
From S2P Require Timer.

(** ** State *)

(** [lapic_timer::timer]; [_fine_now] is in femtoseconds of 128 bits. *)
Record lapic_timer : Type := mkLapicTimer {
  _fine_now : Z;
  _period : Z;
  _last_written : Z;
  _last_divisor : Z;
  lt_now : Z
}.
Definition new_lapic_timer : lapic_timer := mkLapicTimer 0 0 0 0 0.

(** [hpet_comparator]: valid while its parent is not null. *)
Record hpet_comparator : Type := mkComparator { c_valid : bool; c_timer : Z; c_raw_now : Z; c_now : Z }.
Definition new_comparator : hpet_comparator := mkComparator false (2 ^ 64 - 1) 0 0.

(** [hpet_timer] *)
Record hpet_timer : Type := mkHpetTimer {
  _base : Z;
  _comparator_count : Z;
  h_period : Z;
  _min_tick : Z;
  _max_tick : Z;
  _multicore_rebalanced : bool;
  _comparators : list hpet_comparator
}.
Definition new_hpet : hpet_timer := mkHpetTimer 0 0 0 0 0 false (replicate 32 new_comparator).

(** What a core's code finds besides its own state: the timer of each core, the event
    timer, the registry of kernel/time, the accesses to the registers of the event
    timer, and the number of cores with the identifier of this one. *)
Record hw : Type := mkHw {
  preempt : lapic_timer;
  hpet : hpet_timer;
  time : Timer.time_state;
  h_trace : list access;
  core_count : Z;
  core_id : Z
}.

Section ops.
Context (hardware : list access -> location -> Z).
Abbreviation HM := (M (core_state hw)).

Definition put_hw (f : hw -> hw) : HM unit :=
  modify (fun s => mkCoreState (current_thread s) (threads s) (irq_handlers s) (controller s) (f (rest s))).
Definition get_hw {A} (f : hw -> A) : HM A := gets (fun s => f (rest s)).
Definition set_preempt (t : lapic_timer) : HM unit :=
  put_hw (fun h => mkHw t (hpet h) (time h) (h_trace h) (core_count h) (core_id h)).
Definition set_hpet (t : hpet_timer) : HM unit :=
  put_hw (fun h => mkHw (preempt h) t (time h) (h_trace h) (core_count h) (core_id h)).
Definition on_time {A} (m : M Timer.time_state A) : HM A := fun s =>
  match m (time (rest s)) with
  | Ok (a, t) => Ok (a, mkCoreState (current_thread s) (threads s) (irq_handlers s) (controller s)
                          (mkHw (preempt (rest s)) (hpet (rest s)) t (h_trace (rest s)) (core_count (rest s)) (core_id (rest s))))
  | Err e => Err e
  end.

(** ** Arithmetic of durations *)

Definition checked (z : Z) : HM Z := if (- 2 ^ 63 <=? z) && (z <? 2 ^ 63) then ret z else fail Fault.
(** A duration in nanoseconds converted to femtoseconds. *)
Definition femto (d : Z) : HM Z := checked (d * 1000000).
(** [/] on durations *)
Definition quotient (a b : Z) : HM Z := if b =? 0 then fail Fault else checked (Z.quot a b).
Definition max32 : Z := 2 ^ 32 - 1.
Definition max64 : Z := 2 ^ 64 - 1.

(** ** The timer of a local interrupt controller *)

(** The loop of [_one_shot_after]: eight rounds at most. *)
Fixpoint choose_divisor (fuel : nat) (d divisor : Z) : HM Z :=
  let* p := get_hw (fun h => _period (preempt h)) in
  let* tick := checked (divisor * p) in
  let* fs := femto d in
  let* q := quotient fs tick in
  match fuel with
  | O => fail NoFuel
  | S n => if (max32 <? q) && negb (divisor =? 128) then choose_divisor n d (u8 (divisor * 2)) else ret divisor
  end.
Definition lapic_one_shot_after (d : Z) : HM unit :=
  let* divisor := choose_divisor 8 d 1 in
  let* t := get_hw preempt in
  let* tick := checked (divisor * _period t) in
  let* fs := femto d in
  let* q := quotient fs tick in
  let* count := checked (q + 1) in
  let count := if max32 <? count then max32 else count in
  on_controller (write_timer_divisor divisor) ;;
  on_controller (write_timer_counter (u32 count)) ;;
  set_preempt (mkLapicTimer (_fine_now t) (_period t) (u32 count) divisor (lt_now t)).

Definition lapic_update_now : HM unit :=
  let* current := on_controller (read_timer_counter hardware) in
  let* t := get_hw preempt in
  let* ticks := checked (u32 (_last_written t - current) * _last_divisor t) in
  let* elapsed := checked (ticks * _period t) in
  let fine := _fine_now t + elapsed in
  set_preempt (mkLapicTimer fine (_period t) current (_last_divisor t) (s64 (Z.quot fine 1000000))).

(** [one_shot(50ms, ...)] on the high precision timer and halting until it fired. *)
Context (wait_for_timer : Z -> HM unit).

Definition lapic_bsp_initialize : HM unit :=
  on_controller (write_timer_divisor 1) ;;
  on_controller (write_timer_counter max32) ;;
  wait_for_timer 50000000 ;;
  let* v := on_controller (read_timer_counter hardware) in
  let ticks := u32 (max32 - v) in
  on_controller (write_timer_counter 0) ;;
  let* period := quotient 50000000000000 ticks in
  let* _ := quotient 1000000000000000 period in
  let* t := get_hw preempt in
  set_preempt (mkLapicTimer (_fine_now t) period (_last_written t) (_last_divisor t) (lt_now t)).

(** The handlers are functions 1 and 2. *)
Definition handler_lapic_timer : Z := 1.
Definition handler_hpet_timer : Z := 2.
Definition lapic_timer_initialize : HM unit :=
  lapic_bsp_initialize ;;
  register_handler irq_lapic_timer handler_lapic_timer ;;
  on_controller enable_timer_irq.
(** [timer::initialize(bsp)] and the enabling of its interrupt *)
Definition lapic_timer_ap_initialize (bsp : lapic_timer) : HM unit :=
  let* t := get_hw preempt in
  set_preempt (mkLapicTimer (_fine_now t) (_period bsp) (_last_written t) (_last_divisor t) (lt_now t)) ;;
  on_controller enable_timer_irq.

(** ** The high precision event timer *)

Definition reg_capabilities : Z := 0x0.
Definition reg_configuration : Z := 0x10.
Definition reg_main_counter : Z := 0xf0.
Definition tr_configuration : Z := 0x100.
Definition tr_comparator : Z := 0x108.
Definition tr_fsb_route : Z := 0x110.

Definition log_hpet (a : access) : HM unit :=
  put_hw (fun h => mkHw (preempt h) (hpet h) (time h) (h_trace h ++ [a]) (core_count h) (core_id h)).
Definition hpet_read (reg : Z) : HM Z :=
  let* h := gets rest in
  let l := Phys (u64 (_base (hpet h) + reg)) in
  let v := u64 (hardware (h_trace h) l) in
  log_hpet (Read l v) ;; ret v.
Definition hpet_write (reg value : Z) : HM unit :=
  let* h := gets rest in
  log_hpet (Write (Phys (u64 (_base (hpet h) + reg))) (u64 value)).
(** [_timer_register] *)
Definition timer_register (timer reg : Z) : Z := timer * 0x20 + reg.

Definition get_comparator (i : nat) : HM hpet_comparator := fun s =>
  match _comparators (hpet (rest s)) !! i with Some c => Ok (c, s) | None => Err Fault end.
Definition put_comparator (i : nat) (c : hpet_comparator) : HM unit :=
  let* h := get_hw hpet in
  set_hpet (mkHpetTimer (_base h) (_comparator_count h) (h_period h) (_min_tick h) (_max_tick h) (_multicore_rebalanced h) (<[i := c]> (_comparators h))).

(** [(0xfee << 20) | (lapic::id() << 12)], of 32 bits *)
Definition fsb_route (id : Z) : Z :=
  let fsb_address := Z.lor 0xfee00000 (u32 (Z.shiftl id 12)) in
  Z.lor (u64 (Z.shiftl fsb_address 32)) irq_hpet_timer.

(** A bit of the configuration that is on is turned off. *)
Definition clear_bit (timer conf bit : Z) : HM Z :=
  if Z.testbit conf bit then
    hpet_write (timer_register timer tr_configuration) (Z.lxor conf (Z.shiftl 1 bit)) ;;
    hpet_read (timer_register timer tr_configuration)
  else ret conf.

(** [hpet_comparator::initialize] on the object [i] *)
Definition comparator_initialize (i : nat) (timer : Z) : HM bool :=
  let* c := get_comparator i in
  put_comparator i (mkComparator true timer (c_raw_now c) (c_now c)) ;;
  let* conf := hpet_read (timer_register timer tr_configuration) in
  if negb (Z.testbit conf 15) then put_comparator i (mkComparator false timer (c_raw_now c) (c_now c)) ;; ret false else
  if negb (Z.testbit conf 5) then put_comparator i (mkComparator false timer (c_raw_now c) (c_now c)) ;; ret false else
  hpet_write (timer_register timer tr_configuration) (Z.lor conf (Z.shiftl 1 14)) ;;
  let* conf := hpet_read (timer_register timer tr_configuration) in
  let* conf := clear_bit timer conf 1 in
  let* conf := clear_bit timer conf 8 in
  let* conf := clear_bit timer conf 2 in
  let* id := on_controller (id hardware) in
  hpet_write (timer_register timer tr_fsb_route) (fsb_route id) ;;
  ret true.

Definition move_to_core (i : nat) : HM unit :=
  let* c := get_comparator i in
  let* id := on_controller (id hardware) in
  hpet_write (timer_register (c_timer c) tr_fsb_route) (fsb_route id).

(** [hpet_comparator::_update_now] and [_one_shot_after] *)
Definition hpet_update_now (i : nat) : HM unit :=
  let* c := get_comparator i in
  let* raw := hpet_read reg_main_counter in
  let* p := get_hw (fun h => h_period (hpet h)) in
  put_comparator i (mkComparator (c_valid c) (c_timer c) raw (s64 (Z.quot (raw * p) 1000000))).
Definition hpet_one_shot_after (i : nat) (d : Z) : HM unit :=
  let* c := get_comparator i in
  let* p := get_hw (fun h => h_period (hpet h)) in
  let* fs := femto d in
  let* q := quotient fs p in
  let q := if max64 <? u64 q then max64 else q in
  let count := u64 q in
  let* conf := hpet_read (timer_register (c_timer c) tr_configuration) in
  hpet_write (timer_register (c_timer c) tr_configuration) (Z.lor conf (Z.shiftl 1 2)) ;;
  hpet_write (timer_register (c_timer c) tr_comparator) (u64 (c_raw_now c + count)).

Definition comparator_for (id : Z) : HM nat :=
  let* h := get_hw hpet in
  if _multicore_rebalanced h then ret 0%nat
  else if _comparator_count h =? 0 then fail Fault else ret (Z.to_nat (id mod _comparator_count h)).

(** The loop of [initialize] over the comparators: the objects are filled in order. *)
Fixpoint comparator_loop (fuel : nat) (comparator : Z) (object_idx : nat) : HM nat :=
  match fuel with
  | O => ret object_idx
  | S n =>
      let* h := gets rest in
      if (comparator <? _comparator_count (hpet h)) && (Z.of_nat object_idx <? core_count h) then
        let* b := comparator_initialize object_idx comparator in
        comparator_loop n (comparator + 1) (if b then S object_idx else object_idx)
      else ret object_idx
  end.

Definition hpet_initialize (base min_tick : Z) : HM unit :=
  let* h := get_hw hpet in
  set_hpet (mkHpetTimer base (_comparator_count h) (h_period h) min_tick (_max_tick h) (_multicore_rebalanced h) (_comparators h)) ;;
  hpet_write reg_configuration 1 ;;
  let* caps := hpet_read reg_capabilities in
  let count := Z.shiftr (Z.land caps 0xF80) 8 + 1 in
  let period := Z.shiftr caps 32 in
  let* _ := (if period =? 0 then fail Fault else ret (1000000000000000 / period)) in
  let max_tick :=
    if Z.testbit caps 13 then u64 ((max64 / 1000000) * period)
    else let t := (max32 / 1000000) * period in if t =? 0 then max64 else t in
  let* h := get_hw hpet in
  set_hpet (mkHpetTimer base count period min_tick max_tick (_multicore_rebalanced h) (_comparators h)) ;;
  let* objects := comparator_loop (Z.to_nat count) 0 0 in
  let* h := get_hw hpet in
  set_hpet (mkHpetTimer base (Z.of_nat objects) period min_tick max_tick (_multicore_rebalanced h) (_comparators h)) ;;
  if (objects =? 0)%nat then panic "Failed to initialize any of the HPET comparators!" else
  let* me := get_hw core_id in
  let* c := comparator_for me in
  on_time (Timer.register_high_precision_timer (Z.of_nat c)) ;;
  register_handler irq_hpet_timer handler_hpet_timer.

Fixpoint move_loop (k : nat) (i : nat) : HM unit :=
  match k with O => ret tt | S k' => move_to_core i ;; move_loop k' (S i) end.
Definition rebalance : HM unit :=
  let* h := gets rest in
  let count := if _comparator_count (hpet h) <? core_count h then _comparator_count (hpet h) else core_count h in
  let t := hpet h in
  set_hpet (mkHpetTimer (_base t) count (h_period t) (_min_tick t) (_max_tick t) (_multicore_rebalanced t) (_comparators t)) ;;
  move_loop (Z.to_nat count) 0 ;;
  let* t := get_hw hpet in
  set_hpet (mkHpetTimer (_base t) (_comparator_count t) (h_period t) (_min_tick t) (_max_tick t) true (_comparators t)).

(** ** timers.cpp, and what kernel/time/time.cpp does with it *)

Definition timers_initialize (base min_tick : Z) : HM unit := hpet_initialize base min_tick ;; lapic_timer_initialize.
Definition multicore_initialize : HM unit := rebalance.
Definition time_initialize_multicore : HM unit := multicore_initialize ;; on_time Timer.initialize_multicore.
Definition get_high_precision_timer_for (id : Z) : HM nat := comparator_for id.
End ops.

(** ** Theorems *)

Section theorems.
Implicit Types (s : core_state hw).

(** The rates the controller can count at. *)
Definition divisors : list Z := [1; 2; 4; 8; 16; 32; 64; 128].
Definition with_preempt (t : lapic_timer) (l : lapic) s : core_state hw :=
  mkCoreState (current_thread s) (threads s) (irq_handlers s) l
    (mkHw t (hpet (rest s)) (time (rest s)) (h_trace (rest s)) (core_count (rest s)) (core_id (rest s))).

Lemma checked_ok z s : - 2 ^ 63 <= z < 2 ^ 63 -> checked z s = Ok (z, s).
Proof using Type. intros H. unfold checked. rewrite (proj2 (Z.leb_le _ _)), (proj2 (Z.ltb_lt _ _)) by lia. done. Qed.
Lemma quotient_ok a b s : 0 <= a < 2 ^ 63 -> 0 < b -> quotient a b s = Ok (a / b, s).
Proof using Type.
  intros Ha Hb. unfold quotient. rewrite (proj2 (Z.eqb_neq b 0)) by lia. rewrite Z.quot_div_nonneg by lia. apply checked_ok.
  pose proof (Z.div_pos a b ltac:(lia) Hb). assert (a / b <= a) by (apply Z.div_le_upper_bound; nia). lia.
Qed.

(** The divisor is the smallest with which the count fits, or the largest there is. *)
Lemma choose_divisor_ok n i d s :
  let p := _period (preempt (rest s)) in
  0 < p -> 128 * p < 2 ^ 63 -> 0 < d -> d * 1000000 < 2 ^ 63 -> (i + n = 8)%nat -> (i < 8)%nat ->
  exists j v, choose_divisor n d (2 ^ Z.of_nat i) s = Ok (v, s) /\ (i <= j < 8)%nat /\ v = 2 ^ Z.of_nat j /\
    (j = 7%nat \/ d * 1000000 / (v * p) <= max32) /\ (forall m, (i <= m < j)%nat -> max32 < d * 1000000 / (2 ^ Z.of_nat m * p)).
Proof using Type.
  intros p Hp Hp2 Hd Hd2. revert i. induction n as [|n IH]; intros i Hi Hi8; [lia|].
  assert (2 ^ Z.of_nat i <= 2 ^ 7) by (apply Z.pow_le_mono_r; lia). assert (0 < 2 ^ Z.of_nat i) by (apply Z.pow_pos_nonneg; lia). change (2 ^ 7) with 128 in *.
  cbn [choose_divisor]. erewrite bind_Ok by reflexivity. fold p. erewrite bind_Ok by (apply checked_ok; nia).
  erewrite bind_Ok by (apply checked_ok; lia). erewrite bind_Ok by (apply quotient_ok; nia).
  destruct (Z.ltb_spec max32 (d * 1000000 / (2 ^ Z.of_nat i * p))) as [Hbig|Hfit].
  - destruct (Z.eqb_spec (2 ^ Z.of_nat i) 128) as [E|E]; cbn [andb negb].
    + exists i, (2 ^ Z.of_nat i). split; [done|]. split; [lia|]. split; [done|]. split; [left|lia].
      change 128 with (2 ^ 7) in E. apply Z.pow_inj_r in E; lia.
    + assert (i <> 7)%nat by (intros ->; by apply E).
      assert (u8 (2 ^ Z.of_nat i * 2) = 2 ^ Z.of_nat (S i)) as ->.
      { rewrite Nat2Z.inj_succ, Z.pow_succ_r, Z.mul_comm by lia. unfold u8, wrapu. apply Z.mod_small.
        assert (2 ^ Z.of_nat i <= 2 ^ 6) by (apply Z.pow_le_mono_r; lia). change (2 ^ 6) with 64 in *. lia. }
      destruct (IH (S i)) as (j & v & E1 & Hj & Hv & Hq & Hm); [lia|lia|]. exists j, v. split; [done|]. split; [lia|]. split; [done|]. split; [done|].
      intros m Hm2. destruct (decide (m = i)) as [->|]; [done|apply Hm; lia].
  - cbn [andb]. exists i, (2 ^ Z.of_nat i). split; [done|]. split; [lia|]. split; [done|]. split; [by right|]. lia.
Qed.

Lemma power_divisor j : (j < 8)%nat -> 2 ^ Z.of_nat j ∈ divisors /\ is_Some (divisor_pattern (2 ^ Z.of_nat j)).
Proof using Type. intros Hj. do 8 (destruct j as [|j]; [split; [by repeat constructor|by eexists]|]). lia. Qed.
(** Programming the counter. *)
Lemma program_counter v c l :
  v ∈ divisors -> 0 <= c < 2 ^ 32 -> exists l1 l2, write_timer_divisor v l = Ok (tt, l1) /\ write_timer_counter c l1 = Ok (tt, l2) /\
    issue_all [RDivisor v; RCounter c] l = Ok (tt, l2).
Proof using Type.
  intros Hv Hc. assert (exists l1, write_timer_divisor v l = Ok (tt, l1)) as [l1 E1].
  { unfold write_timer_divisor, in_mode, bind, gets. set_unfold. 
    destruct Hv as [->|[->|[->|[->|[->|[->|[->|[->|[]]]]]]]]]; cbn; destruct (x2apic_enabled l); by eexists. }
  assert (exists l2, write_timer_counter c l1 = Ok (tt, l2)) as [l2 E2].
  { unfold write_timer_counter, in_mode, bind, gets. destruct (x2apic_enabled l1); by eexists. }
  exists l1, l2. split; [done|]. split; [done|]. cbn [issue_all issue]. erewrite bind_Ok by exact E1. by erewrite bind_Ok by exact E2.
Qed.

(** C29: arming the timer of a core.  For a duration of less than about two and a half
    hours, the divisor is one the controller has, the smallest with which the whole
    ticks of the duration can be counted in 32 bits, or 128 when there is none; the
    count is one more than these ticks, so that the timer fires at most one of its
    ticks after the duration and not before it, but is kept to 32 bits: the timer
    fires early exactly when the ticks do not fit even with 128, or are the largest
    number that fits.  The timer remembers what it wrote. *)
Theorem lapic_one_shot_bounds s d :
  let t := preempt (rest s) in let p := _period t in let target := d * 1000000 in
  0 < p -> 128 * p < 2 ^ 63 -> 0 < d -> target < 2 ^ 63 ->
  exists v c l, lapic_one_shot_after d s = Ok (tt, with_preempt (mkLapicTimer (_fine_now t) p c v (lt_now t)) l s) /\
    issue_all [RDivisor v; RCounter c] (controller s) = Ok (tt, l) /\
    v ∈ divisors /\ 1 <= c <= max32 /\
    (c - 1) * (v * p) <= target /\ c = Z.min max32 (target / (v * p) + 1) /\
    (target < c * (v * p) \/ c = max32 /\ (v = 128 \/ target / (v * p) = max32)) /\
    (v = 128 \/ target / (v * p) <= max32) /\ (v = 1 \/ max32 < target / (v / 2 * p)).
Proof using Type.
  intros t p target Hp Hp2 Hd Ht.
  destruct (choose_divisor_ok 8 0 d s) as (j & v & Ed & Hj & Hv & Hq & Hm); [done..|lia|lia|]. fold t p target in Hq, Hm.
  destruct (power_divisor j) as [Hin _]; [lia|]. rewrite <- Hv in Hin.
  assert (1 <= v <= 128) as Hvb by (set_unfold; lia).
  set (q := target / (v * p)) in *. assert (0 <= q) by (apply Z.div_pos; nia).
  pose proof (Z.mul_div_le target (v * p) ltac:(nia)) as Hlo. pose proof (Z.mul_succ_div_gt target (v * p) ltac:(nia)) as Hup. fold q in Hlo, Hup.
  assert (q <= target) by (apply Z.div_le_upper_bound; nia).
  assert (target <> 2 ^ 63 - 1) as Hodd by (unfold target; lia).
  set (c := if max32 <? q + 1 then max32 else q + 1).
  assert (1 <= c <= max32 /\ c <= q + 1 /\ (c = q + 1 \/ c = max32)) as (Hc & Hcq & Hcc) by (unfold c, max32 in *; destruct (Z.ltb_spec (2 ^ 32 - 1) (q + 1)); lia).
  destruct (program_counter v c (controller s) Hin) as (l1 & l2 & E1 & E2 & E3); [unfold max32 in *; lia|].
  exists v, c, l2. split; [|split; [exact E3|split; [done|split; [done|split; [nia|split; [unfold c; destruct (Z.ltb_spec max32 (q + 1)); lia|split; [|split]]]]]]].
  - unfold lapic_one_shot_after. erewrite bind_Ok by exact Ed. erewrite bind_Ok by reflexivity. fold t p.
    erewrite bind_Ok by (apply checked_ok; nia). erewrite bind_Ok by (apply checked_ok; fold target; lia). fold target.
    erewrite bind_Ok by (apply quotient_ok; nia). fold q. erewrite bind_Ok by (apply checked_ok; lia). fold c. cbv zeta. fold c.
    assert (u32 c = c) as Hu by (apply u32_id; unfold max32 in *; lia). rewrite !Hu.
    erewrite bind_Ok by (unfold on_controller; rewrite E1; reflexivity). erewrite bind_Ok by (unfold on_controller; cbn [controller]; rewrite E2; reflexivity). done.
  - destruct Hcc as [-> | Hcc]; [left; lia|]. destruct (decide (c = q + 1)) as [->|Hne]; [left; lia|right]. split; [done|].
    destruct Hq as [->|Hq]; [left; by rewrite Hv|right]. fold q in Hq |- *. unfold c in Hne, Hcc. destruct (Z.ltb_spec max32 (q + 1)); lia.
  - destruct Hq as [->|Hq]; [left; by rewrite Hv|by right].
  - destruct j as [|j]; [left; by rewrite Hv|right]. specialize (Hm j ltac:(lia)).
    assert (v / 2 = 2 ^ Z.of_nat j) as ->; [|done]. rewrite Hv, Nat2Z.inj_succ, Z.pow_succ_r, Z.mul_comm by lia. by apply Z.div_mul.
Qed.

(** The clock of the timer: when [k] ticks passed since the counter was last written or
    read, reading it adds the time of [k] ticks, exactly. *)
Theorem lapic_clock_advances hardware s k l :
  let t := preempt (rest s) in
  0 <= k <= _last_written t -> _last_written t <= max32 -> 0 <= _last_divisor t <= 128 -> 0 < _period t -> k * 128 * _period t < 2 ^ 63 ->
  read_timer_counter hardware (controller s) = Ok (_last_written t - k, l) ->
  let fine := _fine_now t + k * _last_divisor t * _period t in
  lapic_update_now hardware s = Ok (tt, with_preempt (mkLapicTimer fine (_period t) (_last_written t - k) (_last_divisor t) (s64 (Z.quot fine 1000000))) l s).
Proof using Type.
  intros t Hk Hw Hv Hp Hb Er fine. unfold lapic_update_now. erewrite bind_Ok by (unfold on_controller; rewrite Er; reflexivity).
  erewrite bind_Ok by reflexivity. cbn [rest]. fold t.
  replace (_last_written t - (_last_written t - k)) with k by lia. rewrite u32_id by (unfold max32 in *; lia).
  erewrite bind_Ok by (apply checked_ok; nia). erewrite bind_Ok by (apply checked_ok; nia). done.
Qed.

(** Arming a comparator: the value it is compared to is that of the last tick that is
    not after the duration, so that it fires less than a tick before it. *)
Theorem hpet_one_shot_bounds hardware s i c d :
  let h := hpet (rest s) in let p := h_period h in let target := d * 1000000 in
  _comparators h !! i = Some c -> 0 < p -> 0 <= d -> target < 2 ^ 63 -> 0 <= c_raw_now c -> c_raw_now c + target / p < 2 ^ 64 ->
  exists s' q w, hpet_one_shot_after hardware i d s = Ok (tt, s') /\ q * p <= target < (q + 1) * p /\
    h_trace (rest s') = h_trace (rest s) ++ w ++ [Write (Phys (u64 (_base h + timer_register (c_timer c) tr_comparator))) (c_raw_now c + q)].
Proof using Type.
  intros h p target Hc Hp Hd Ht Hr Hb. set (q := target / p) in *.
  assert (0 <= q) by (apply Z.div_pos; lia). pose proof (Z.mul_div_le target p Hp) as Hlo. pose proof (Z.mul_succ_div_gt target p Hp) as Hup. fold q in Hlo, Hup.
  eexists. exists q. eexists [_; _]. split; [|split; [lia|]].
  - unfold hpet_one_shot_after. erewrite bind_Ok by (unfold get_comparator; fold h; by rewrite Hc). erewrite bind_Ok by reflexivity. fold h p.
    erewrite bind_Ok by (apply checked_ok; fold target; lia). fold target. erewrite bind_Ok by (apply quotient_ok; lia). fold q.
    rewrite !(u64_id q) by (unfold is_u64; lia). rewrite (proj2 (Z.ltb_ge max64 q)) by (unfold max64; lia). rewrite !(u64_id q) by (unfold is_u64; lia).
    rewrite (u64_id (c_raw_now c + q)) by (unfold is_u64; lia). reflexivity.
  - cbn. rewrite (u64_id (c_raw_now c + q)) by (unfold is_u64; lia). rewrite <- !app_assoc. reflexivity.
Qed.

(** The message of a comparator: Intel SDM volume 3, 11.11. *)
Definition message_destination (route : Z) : Z := Z.land (Z.shiftr route 44) 0xFF.
Definition message_vector (route : Z) : Z := Z.land route 0xFF.
Lemma fsb_route_target id : 0 <= id < 2 ^ 8 -> message_destination (fsb_route id) = id /\ message_vector (fsb_route id) = irq_hpet_timer.
Proof using Type. revert id. refine (byte_cases _ _). by vm_compute. Qed.

(** A comparator that can be used is routed to the core that sets it up. *)
Theorem comparator_routed hardware s i timer s' :
  comparator_initialize hardware i timer s = Ok (true, s') ->
  exists id w, h_trace (rest s') = w ++ [Write (Phys (u64 (_base (hpet (rest s')) + timer_register timer tr_fsb_route))) (u64 (fsb_route id))].
Proof using Type.
  unfold comparator_initialize. intros E.
  repeat first [ apply bind_Ok_inv in E as (? & ? & ? & E) | case_match ]; try discriminate.
  unfold ret in E. injection E as <-.
  match goal with H : hpet_write _ (fsb_route ?id) ?s0 = Ok _ |- _ => exists id, (h_trace (rest s0)); unfold hpet_write, bind, gets, log_hpet, put_hw, modify in H; injection H as <- <- end.
  done.
Qed.

(** Once the comparators were spread over the cores, every core is given the first;
    before, they are given out in turn. *)
Theorem comparator_for_after_rebalance id s :
  _multicore_rebalanced (hpet (rest s)) = true -> comparator_for id s = Ok (0%nat, s).
Proof using Type. intros H. unfold comparator_for, bind, get_hw, gets. by rewrite H. Qed.
Theorem comparator_for_before id s :
  _multicore_rebalanced (hpet (rest s)) = false -> 0 < _comparator_count (hpet (rest s)) ->
  comparator_for id s = Ok (Z.to_nat (id mod _comparator_count (hpet (rest s))), s).
Proof using Type. intros H Hc. unfold comparator_for, bind, get_hw, gets. rewrite H. by rewrite (proj2 (Z.eqb_neq _ 0)) by lia. Qed.
End theorems.

(** ** Witnesses and runs *)

Definition idle_core (t : lapic_timer) (h : hpet_timer) : core_state hw :=
  mkCoreState 0 ∅ (replicate 256 no_handler) (mkLapic 0xfee00000 false []) (mkHw t h (Timer.mkTime None false) [] 4 (2 ^ 32 - 1)).

Lemma lapic_one_shot_bounds_witness :
  exists v c l, lapic_one_shot_after 60000000000 (idle_core (mkLapicTimer 0 1000000 0 1 0) new_hpet) =
      Ok (tt, with_preempt (mkLapicTimer 0 1000000 c v 0) l (idle_core (mkLapicTimer 0 1000000 0 1 0) new_hpet)) /\
    issue_all [RDivisor v; RCounter c] (mkLapic 0xfee00000 false []) = Ok (tt, l) /\
    v ∈ divisors /\ 1 <= c <= max32 /\
    (c - 1) * (v * 1000000) <= 60000000000 * 1000000 /\ c = Z.min max32 (60000000000 * 1000000 / (v * 1000000) + 1) /\
    (60000000000 * 1000000 < c * (v * 1000000) \/ c = max32 /\ (v = 128 \/ 60000000000 * 1000000 / (v * 1000000) = max32)) /\
    (v = 128 \/ 60000000000 * 1000000 / (v * 1000000) <= max32) /\ (v = 1 \/ max32 < 60000000000 * 1000000 / (v / 2 * 1000000)).
Proof. apply (lapic_one_shot_bounds (idle_core (mkLapicTimer 0 1000000 0 1 0) new_hpet) 60000000000); cbn; lia. Defined.

(** A minute at a tick of a nanosecond: the divisor is 16. *)
Example minute : match lapic_one_shot_after 60000000000 (idle_core (mkLapicTimer 0 1000000 0 1 0) new_hpet) with
  | Ok (_, s) => (_last_divisor (preempt (rest s)), _last_written (preempt (rest s))) | Err _ => (0, 0) end = (16, 3750000001).
Proof. reflexivity. Qed.
(** Three hours overflow the conversion to femtoseconds. *)
Example three_hours : lapic_one_shot_after (3 * 3600 * 1000000000) (idle_core (mkLapicTimer 0 1000000 0 1 0) new_hpet) = Err Fault.
Proof. reflexivity. Qed.
(** A duration of less than a tick of the event timer: the comparator gets the value the
    counter had, which it has passed already. *)
Example short_one_shot_missed :
  match hpet_one_shot_after (fun _ _ => 0) 0 50 (idle_core new_lapic_timer (mkHpetTimer 0xfed00000 1 69841279 0 0 false [mkComparator true 0 1000 0])) with
  | Ok (_, s) => last (h_trace (rest s)) | Err _ => None end = Some (Write (Phys 0xfed00108) 1000).
Proof. reflexivity. Qed.
(** A timer with 32 comparators that reports them all: 16 are seen. *)
Definition full_caps : Z := 69841279 * 2 ^ 32 + 31 * 2 ^ 8 + 2 ^ 13.
Definition full_hardware (t : list access) (l : location) : Z :=
  match l with Phys 0xfed00000 => full_caps | _ => Z.shiftl 1 15 + Z.shiftl 1 5 end.
Example comparators_missed :
  match hpet_initialize full_hardware 0xfed00000 0 (mkCoreState 0 ∅ (replicate 256 no_handler) (mkLapic 0xfee00000 false [])
    (mkHw new_lapic_timer new_hpet (Timer.mkTime None false) [] 64 (2 ^ 32 - 1))) with
  | Ok (_, s) => (_comparator_count (hpet (rest s)), Timer.hpt (time (rest s))) | Err _ => (0, None) end = (16, Some 15).
Proof. vm_compute. reflexivity. Qed.
