(* ===== verification/CpuSetup.v ===== *)
(** * Setting up a core: kernel/arch/amd64/cpu/gdt.cpp, idt.cpp, core.cpp, cpu.cpp and syscalls.cpp

    The descriptor tables the processor reads (segments, the task state with its
    stacks, the gates of the interrupts), the registers for system calls, and the
    order in which the first core and the others are initialised. *)
From S2P Require Import Prelude Text Bytes Lapic Pmm PageTable PageTableLaws PageMap PageTheorems Vas VasTheorems Stacks.
From S2P Require Acpi HwTimers.

(** ** Packed structures *)

(** Fields of given widths from the lowest bit on, as the packed structures lay them
    out; a value that is too wide is cut. *)
Fixpoint pack (l : list (Z * Z)) : Z :=
  match l with
  | [] => 0
  | (width, v) :: l' => v mod 2 ^ width + 2 ^ width * pack l'
  end.
(** What the processor reads: [n] bits from bit [lo] on. *)
Definition bits (z lo n : Z) : Z := Z.shiftr z lo mod 2 ^ n.

(** ** Segments: gdt.h and gdt.cpp *)

(** [gdt::entry] *)
Record gdt_entry : Type := mkGdt {
  limit_low : Z; base_low : Z; accessed : Z; read_write : Z; conforming : Z; code : Z; normal : Z; g_dpl : Z;
  g_present : Z; limit_high : Z; available : Z; long_mode : Z; big : Z; granularity : Z; base_high : Z
}.
Definition gdt_zero : gdt_entry := mkGdt 0 0 0 0 0 0 0 0 0 0 0 0 0 0 0.
Definition gdt_word (e : gdt_entry) : Z :=
  pack [(16, limit_low e); (24, base_low e); (1, accessed e); (1, read_write e); (1, conforming e); (1, code e); (1, normal e); (2, g_dpl e);
        (1, g_present e); (4, limit_high e); (1, available e); (1, long_mode e); (1, big e); (1, granularity e); (8, base_high e)].

(** [tss_t], without the reserved fields *)
Record tss_t : Type := mkTss { rsp0 : Z; rsp1 : Z; rsp2 : Z; ist1 : Z; ist2 : Z; ist3 : Z; ist4 : Z; ist5 : Z; ist6 : Z; ist7 : Z; iomap : Z }.
Definition tss_zero : tss_t := mkTss 0 0 0 0 0 0 0 0 0 0 0.
Definition sizeof_tss : Z := 104.

Definition setup_gdte (is_code user : bool) (e : gdt_entry) : gdt_entry :=
  mkGdt (limit_low e) (base_low e) (accessed e) 1 (conforming e) (Z.b2z is_code) 1 (Z.b2z user * 3)
        1 (limit_high e) (available e) 1 (big e) (granularity e) (base_high e).
(** A 32-bit write at the start of an entry. *)
Definition write_low32 (v : Z) (e : gdt_entry) : gdt_entry :=
  mkGdt (v mod 2 ^ 16) (base_low e - base_low e mod 2 ^ 16 + Z.shiftr v 16) (accessed e) (read_write e) (conforming e) (code e) (normal e) (g_dpl e)
        (g_present e) (limit_high e) (available e) (long_mode e) (big e) (granularity e) (base_high e).
(** [setup_tss] on the two entries, for a task state at [tss]; the stacks come after. *)
Definition setup_tss_entry (tss : Z) (e : gdt_entry) : gdt_entry :=
  mkGdt (Z.land sizeof_tss 0xffff - 1) (Z.land tss 0xffffff) 1 (read_write e) (conforming e) 1 (normal e) 3
        1 (Z.shiftr sizeof_tss 16) (available e) (long_mode e) (big e) (granularity e) (Z.land (Z.shiftr tss 24) 0xff).
Definition setup_tss_high (tss : Z) (e : gdt_entry) : gdt_entry := write_low32 (Z.land (Z.shiftr tss 32) 0xffffffff) e.
Definition setup_tss_stacks (t : tss_t) : M memory tss_t :=
  let* l := make_stacks 3 in
  let top i := u64 (nth i l 0 + 32 * 4096) in
  ret (mkTss (rsp0 t) (rsp1 t) (rsp2 t) (top 0%nat) (top 1%nat) (top 2%nat) (ist4 t) (ist5 t) (ist6 t) (ist7 t) sizeof_tss).

(** [gdt::initialize]: the seven entries and the task state; the limit of the table is
    its size less one. *)
Definition gdt_entries (tss : Z) : list gdt_entry :=
  [gdt_zero; setup_gdte true false gdt_zero; setup_gdte false false gdt_zero; setup_gdte true true gdt_zero; setup_gdte false true gdt_zero;
   setup_tss_entry tss gdt_zero; setup_tss_high tss gdt_zero].
Definition gdt_initialize (tss : Z) (t : tss_t) : M memory (list gdt_entry * Z * tss_t) :=
  let* t' := setup_tss_stacks t in
  ret (gdt_entries tss, 7 * 8 - 1, t').

(** ** Gates: idt.cpp *)

Record idt_entry : Type := mkIdt {
  offset_low : Z; selector : Z; ist : Z; zero : Z; type : Z; zero1 : Z; dpl : Z; i_present : Z; offset_middle : Z; offset_high : Z; zero2 : Z
}.
Definition idt_zero : idt_entry := mkIdt 0 0 0 0 0 0 0 0 0 0 0.
Definition idt_word (e : idt_entry) : Z :=
  pack [(16, offset_low e); (16, selector e); (3, ist e); (5, zero e); (4, type e); (1, zero1 e); (2, dpl e); (1, i_present e);
        (16, offset_middle e); (32, offset_high e); (32, zero2 e)].
Definition setup_idte (id address sel : Z) (pr : bool) (d t : Z) (table : list idt_entry) (i : Z) : list idt_entry :=
  <[Z.to_nat id := mkIdt (Z.land address 0xffff) sel i 0 t 0 d (Z.b2z pr) (Z.land (Z.shiftr address 16) 0xffff) (Z.land (Z.shiftr address 32) 0xffffffff) 0]> table.
(** [setup_isr<I>] with its specialisations; [isr] are the addresses of the stubs. *)
Definition setup_isr (isr : Z -> Z) (i : Z) (table : list idt_entry) : list idt_entry :=
  if i =? 2 then setup_idte 2 (isr 2) 0x8 true 0 0xf table 1
  else if i =? 8 then setup_idte 8 (isr 8) 0x8 true 0 0xf table 2
  else if i =? 14 then setup_idte 14 (isr 14) 0x8 true 0 0xf table 3
  else setup_idte i (isr i) 0x8 true 0 (Z.lor 0xe (Z.b2z (i <? 32))) table 0.
(** [setup_isrs] *)
Definition setup_isrs (isr : Z -> Z) (l : list Z) (table : list idt_entry) : list idt_entry :=
  foldl (fun t i => setup_isr isr i t) table l.
(** [idt::initialize] *)
Definition idt_initialize (isr : Z -> Z) (table : list idt_entry) : list idt_entry * Z :=
  (setup_isrs isr (seqZ 0 256) table, 256 * 16 - 1).

(** ** What the processor makes of the tables: Intel SDM volume 3, 3.4.5, 6.14.1 and 7.7 *)

Lemma pack_skip w v l lo n : 0 <= w -> 0 <= lo -> bits (pack ((w, v) :: l)) (w + lo) n = bits (pack l) lo n.
Proof.
  intros Hw Hlo. unfold bits. cbn [pack]. pose proof (Z.mod_pos_bound v (2 ^ w) ltac:(apply Z.pow_pos_nonneg; lia)) as Hv.
  rewrite <- Z.shiftr_shiftr by lia. do 2 f_equal. rewrite Z.shiftr_div_pow2 by lia. rewrite Z.mul_comm, Z.div_add by lia. rewrite Z.div_small by lia. lia.
Qed.
Lemma pack_head w v l : 0 <= w -> bits (pack ((w, v) :: l)) 0 w = v mod 2 ^ w.
Proof.
  intros Hw. unfold bits. cbn [pack]. rewrite Z.shiftr_0_r. assert (0 < 2 ^ w) by (apply Z.pow_pos_nonneg; lia).
  rewrite Z.mul_comm, Z.mod_add by lia. by rewrite Z.mod_mod by lia.
Qed.
(** Several fields at once. *)
Definition total (l : list (Z * Z)) : Z := foldr (fun p a => p.1 + a) 0 l.
Lemma pack_prefix l1 l2 : Forall (fun p => 0 <= p.1) l1 -> 0 <= total l1 /\ 0 <= pack l1 < 2 ^ total l1 /\ pack (l1 ++ l2) = pack l1 + 2 ^ total l1 * pack l2.
Proof.
  induction 1 as [|[w v] l1 Hw _ (H0 & H1 & IH)]; [cbn; lia|]. cbn [app pack total foldr fst] in *. fold (total l1). cbn in Hw.
  assert (0 < 2 ^ w) by (apply Z.pow_pos_nonneg; lia). pose proof (Z.mod_pos_bound v (2 ^ w) ltac:(lia)).
  rewrite Z.pow_add_r, IH by lia. split; [lia|]. split; [nia|]. ring.
Qed.
Lemma read_prefix l1 l2 n : Forall (fun p => 0 <= p.1) l1 -> n = total l1 -> bits (pack (l1 ++ l2)) 0 n = pack l1.
Proof.
  intros Hl ->. destruct (pack_prefix l1 l2 Hl) as (H0 & H1 & ->). unfold bits. rewrite Z.shiftr_0_r. 
  rewrite Z.mul_comm, Z.mod_add by (apply Z.pow_nonzero; lia). by apply Z.mod_small.
Qed.
(** Reads the field at a position that is the sum of the widths before it. *)
Ltac read_field :=
  repeat match goal with
  | |- context [bits (pack ((?w, ?v) :: ?l)) 0 ?w] => rewrite (pack_head w v l) by lia
  | |- context [bits (pack ((?w, ?v) :: ?l)) ?lo ?n] =>
      let d := eval compute in (lo - w) in change (bits (pack ((w, v) :: l)) lo n) with (bits (pack ((w, v) :: l)) (w + d) n); rewrite (pack_skip w v l d n) by lia
  end.

Record gate : Type := mkGate { gate_offset : Z; gate_selector : Z; gate_stack : Z; gate_type : Z; gate_dpl : Z; gate_present : Z }.
Definition gate_of (z : Z) : gate :=
  mkGate (bits z 0 16 + bits z 48 16 * 2 ^ 16 + bits z 64 32 * 2 ^ 32) (bits z 16 16) (bits z 32 3) (bits z 40 4) (bits z 45 2) (bits z 47 1).
Record task : Type := mkTask { task_base : Z; task_limit : Z; task_type : Z; task_dpl : Z; task_present : Z }.
Definition task_of (low high : Z) : task :=
  mkTask (bits low 16 24 + bits low 56 8 * 2 ^ 24 + bits high 0 32 * 2 ^ 32) (bits low 0 16 + bits low 48 4 * 2 ^ 16) (bits low 40 5) (bits low 45 2) (bits low 47 1).
Record segment : Type := mkSegment { seg_code : Z; seg_normal : Z; seg_dpl : Z; seg_present : Z; seg_long : Z }.
Definition segment_of (w : Z) : segment := mkSegment (bits w 43 1) (bits w 44 1) (bits w 45 2) (bits w 47 1) (bits w 53 1).

Lemma split16 a : is_u64 a ->
  Z.land a 0xffff mod 2 ^ 16 + Z.land (Z.shiftr a 16) 0xffff mod 2 ^ 16 * 2 ^ 16 + Z.land (Z.shiftr a 32) 0xffffffff mod 2 ^ 32 * 2 ^ 32 = a.
Proof.
  intros [H0 H1]. change 0xffff with (2 ^ 16 - 1). change 0xffffffff with (2 ^ 32 - 1). rewrite !land_low, !Z.mod_mod, !Z.shiftr_div_pow2 by lia.
  change (2 ^ 64) with (2 ^ 32 * 2 ^ 32) in H1. rewrite (Z.mod_small (a / 2 ^ 32)) by (split; [apply Z.div_pos; lia|apply Z.div_lt_upper_bound; lia]).
  change (2 ^ 32) with (2 ^ 16 * 2 ^ 16). rewrite <- Z.div_div by lia.
  pose proof (Z.div_mod a (2 ^ 16) ltac:(lia)). pose proof (Z.div_mod (a / 2 ^ 16) (2 ^ 16) ltac:(lia)). lia.
Qed.
Lemma split24 a : is_u64 a ->
  Z.land a 0xffffff mod 2 ^ 24 + Z.land (Z.shiftr a 24) 0xff mod 2 ^ 8 * 2 ^ 24 + Z.land (Z.shiftr a 32) 0xffffffff * 2 ^ 32 = a.
Proof.
  intros [H0 H1]. change 0xffffff with (2 ^ 24 - 1). change 0xff with (2 ^ 8 - 1). change 0xffffffff with (2 ^ 32 - 1). rewrite !land_low, !Z.mod_mod, !Z.shiftr_div_pow2 by lia.
  change (2 ^ 64) with (2 ^ 32 * 2 ^ 32) in H1. rewrite (Z.mod_small (a / 2 ^ 32)) by (split; [apply Z.div_pos; lia|apply Z.div_lt_upper_bound; lia]).
  change (2 ^ 32) with (2 ^ 24 * 2 ^ 8). rewrite <- Z.div_div by lia.
  pose proof (Z.div_mod a (2 ^ 24) ltac:(lia)). pose proof (Z.div_mod (a / 2 ^ 24) (2 ^ 8) ltac:(lia)). lia.
Qed.

(** The stack a vector runs on: those of the non-maskable interrupt, of a double fault
    and of a page fault; and the type of its gate. *)
Definition stack_of_vector (i : Z) : Z := if i =? 2 then 1 else if i =? 8 then 2 else if i =? 14 then 3 else 0.
Definition type_of_vector (i : Z) : Z := if i <? 32 then 0xf else 0xe.
Definition isr_entry (isr : Z -> Z) (i : Z) : idt_entry :=
  mkIdt (Z.land (isr i) 0xffff) 0x8 (stack_of_vector i) 0 (type_of_vector i) 0 0 1 (Z.land (Z.shiftr (isr i) 16) 0xffff) (Z.land (Z.shiftr (isr i) 32) 0xffffffff) 0.
Lemma setup_isr_eq isr i t : setup_isr isr i t = <[Z.to_nat i := isr_entry isr i]> t.
Proof.
  unfold setup_isr, setup_idte, isr_entry, stack_of_vector, type_of_vector.
  destruct (Z.eqb_spec i 2) as [->|]; [done|]. destruct (Z.eqb_spec i 8) as [->|]; [done|]. destruct (Z.eqb_spec i 14) as [->|]; [done|]. by destruct (i <? 32).
Qed.
Lemma setup_isrs_lookup isr l t j :
  0 <= j < 256 -> length t = 256%nat -> NoDup l -> Forall (fun i => 0 <= i < 256) l ->
  setup_isrs isr l t !! Z.to_nat j = if bool_decide (j ∈ l) then Some (isr_entry isr j) else t !! Z.to_nat j.
Proof.
  intros Hj Ht Hl. revert t Ht. induction Hl as [|i l Hi Hl IH]; intros t Ht Hf; [done|]. apply Forall_cons in Hf as [Hi0 Hf].
  unfold setup_isrs. cbn [foldl]. fold (setup_isrs isr l (setup_isr isr i t)). rewrite setup_isr_eq, IH by (rewrite ?length_insert; done).
  destruct (decide (j = i)) as [->|Hne].
  - rewrite (bool_decide_false (i ∈ l)) by done. rewrite bool_decide_true by set_solver. apply list_lookup_insert_eq. lia.
  - rewrite list_lookup_insert_ne by lia. by rewrite (bool_decide_ext (j ∈ i :: l) (j ∈ l)) by set_solver.
Qed.

(** The table of interrupts.  After the initialisation the processor finds for each
    of the 256 vectors a gate that is present, to the stub of that vector in the code
    segment of the kernel; the non-maskable interrupt, double faults and page faults
    run on a stack of their own, exceptions leave interrupts on and others turn them
    off; the limit covers the table. *)
Theorem vectors_dispatched isr table i :
  (forall j, is_u64 (isr j)) -> length table = 256%nat -> 0 <= i < 256 ->
  exists e, (idt_initialize isr table).1 !! Z.to_nat i = Some e /\
    gate_of (idt_word e) = mkGate (isr i) 0x8 (stack_of_vector i) (type_of_vector i) 0 1 /\
    i * 16 + 15 <= (idt_initialize isr table).2.
Proof.
  intros Hisr Ht Hi. exists (isr_entry isr i). split; [|split; [|cbn; lia]].
  - cbn [idt_initialize fst]. rewrite setup_isrs_lookup; [|done|done|apply NoDup_seqZ|apply Forall_forall; intros j; rewrite elem_of_seqZ; lia].
    by rewrite bool_decide_true by (apply elem_of_seqZ; lia).
  - unfold gate_of, idt_word, isr_entry. cbn [offset_low selector ist zero type zero1 dpl i_present offset_middle offset_high zero2].
    read_field. rewrite split16 by done. f_equal; try done; unfold stack_of_vector, type_of_vector; by repeat case_match.
Qed.

(** The segments: the code and data of the kernel and of user threads. *)
Theorem segments_described tss :
  (fun e => segment_of (gdt_word e)) <$> (gdt_entries tss !! 1%nat) = Some (mkSegment 1 1 0 1 1) /\
  (fun e => segment_of (gdt_word e)) <$> (gdt_entries tss !! 2%nat) = Some (mkSegment 0 1 0 1 1) /\
  (fun e => segment_of (gdt_word e)) <$> (gdt_entries tss !! 3%nat) = Some (mkSegment 1 1 3 1 1) /\
  (fun e => segment_of (gdt_word e)) <$> (gdt_entries tss !! 4%nat) = Some (mkSegment 0 1 3 1 1).
Proof. done. Qed.

(** The task state is found at its address. *)
Lemma task_described tss : is_u64 tss ->
  task_of (gdt_word (setup_tss_entry tss gdt_zero)) (gdt_word (setup_tss_high tss gdt_zero)) = mkTask tss (sizeof_tss - 1) 9 3 1.
Proof.
  intros Ht. set (v := Z.land (Z.shiftr tss 32) 0xffffffff).
  assert (0 <= v < 2 ^ 32) as Hv by (unfold v; change 0xffffffff with (2 ^ 32 - 1); rewrite land_low by lia; apply Z.mod_pos_bound; lia).
  assert (gdt_word (setup_tss_high tss gdt_zero) = v) as ->.
  { unfold gdt_word, setup_tss_high, write_low32. fold v. cbn -[Z.pow Z.modulo Z.shiftr].
    rewrite Z.shiftr_div_pow2 by lia. change (2 ^ 32) with (2 ^ 16 * 2 ^ 16) in Hv.
    assert (0 <= v / 2 ^ 16 < 2 ^ 16) by (split; [apply Z.div_pos; lia|apply Z.div_lt_upper_bound; lia]).
    rewrite !Z.mod_0_l, !Z.mod_mod by lia. rewrite (Z.mod_small (_ + v / 2 ^ 16)) by lia. pose proof (Z.div_mod v (2 ^ 16) ltac:(lia)). lia. }
  unfold task_of, gdt_word, setup_tss_entry.
  cbn [limit_low base_low accessed read_write conforming code normal g_dpl g_present limit_high available long_mode big granularity base_high gdt_zero].
  f_equal; read_field; try done; cycle 1.
  { apply (read_prefix [(1, 1); (1, 0); (1, 0); (1, 1); (1, 0)]); [by repeat constructor|done]. }
  rewrite <- (split24 tss Ht) at 3. fold v. unfold bits. rewrite Z.shiftr_0_r, (Z.mod_small v) by done. lia.
Qed.

(** ** The stacks of the task state *)

(** The segment table and the task state of a core.  With room for three stacks,
    the initialisation gives the task state three interrupt stacks, one below the
    other; the pages of each are mapped to frames of their own, for the kernel alone,
    except for the lowest one, which catches an overflow, and no other address changes;
    the processor finds the task state at its address through the table. *)
Theorem task_state_ready tss t w o fr big B :
  room 3 w o fr big B -> is_u64 tss -> let top := vm_space_top w in
  exists fss s' o' fr' t', gdt_initialize tss t w = Ok ((gdt_entries tss, 55, t'), lower_top (3 * stack_size) s' w) /\
    length fss = 3%nat /\ stacks_ready (cr3 (pages w)) B top fss fr fr' (tables (pages w)) (tables s') /\
    ist1 t' = top /\ ist2 t' = top - stack_size /\ ist3 t' = top - 2 * stack_size /\ rsp0 t' = rsp0 t /\
    room 0 (lower_top (3 * stack_size) s' w) o' fr' big B /\
    task_of (gdt_word (setup_tss_entry tss gdt_zero)) (gdt_word (setup_tss_high tss gdt_zero)) = mkTask tss (sizeof_tss - 1) 9 3 1.
Proof.
  intros R Ht top. destruct (make_stacks_ok 3 w o fr big B R) as (fss & s' & o' & fr' & E & L & Y & _ & R').
  destruct R as [_ HB (Ha & Hlo & Hhi & H64) _ _]. fold top in Ha, Hlo, Hhi, H64. assert (0 <= B) by (destruct HB; lia).
  change (Z.of_nat 3) with 3 in *. unfold stack_size in *.
  eexists fss, s', o', fr', _. split.
  - unfold gdt_initialize, setup_tss_stacks. rewrite bind_assoc. erewrite bind_Ok by exact E. reflexivity.
  - split; [done|]. split; [done|]. cbn [ist1 ist2 ist3 rsp0 fmap list_fmap seq nth]. rewrite !u64_id by (unfold is_u64; lia).
    split; [lia|]. split; [lia|]. split; [lia|]. split; [done|]. split; [done|]. by apply task_described.
Qed.

(** ** Cores and their initialisation *)

(** [core], besides what the tables of the firmware say of it. *)
Record core_rest : Type := mkCoreRest {
  _id : Z;
  _boot_flag : option Z;
  _gdt : list gdt_entry;
  _gdtr_limit : Z;
  _tss : tss_t;
  _accessed : bool;
  _preempt_timer : HwTimers.lapic_timer;
  kernel_syscall_stack : Z
}.
Definition new_core_rest : core_rest := mkCoreRest (2 ^ 32 - 1) None [] 0 tss_zero false HwTimers.new_lapic_timer 0.

(** The memory, the cores (the list in [m_acpi] has what the tables fill in), the
    controller and registers of the running core, the table of gates, and which core's
    tables and local storage the running core has loaded. *)
Record machine : Type := mkMachine {
  m_memory : memory;
  m_acpi : Acpi.acpi_state;
  m_rest : list core_rest;
  core_count : Z;
  m_lapic : lapic;
  m_idt : list idt_entry;
  m_idt_limit : Z;
  loaded_gdt : option nat;
  loaded_idt : bool;
  current_core : option nat;
  bsp_timer : option nat
}.

Section setup.
(** The image of physical memory, the hardware, and addresses of code and objects. *)
Context (mem : bytes) (hardware : list access -> location -> Z) (cpuid_1_ecx : Z)
  (isr : Z -> Z) (syscall_handler_stub : Z) (tss_address cls_address : nat -> Z).
Abbreviation CM := (M machine).

Definition on_memory {A} (m : M memory A) : CM A := fun s =>
  match m (m_memory s) with
  | Ok (a, w) => Ok (a, mkMachine w (m_acpi s) (m_rest s) (core_count s) (m_lapic s) (m_idt s) (m_idt_limit s) (loaded_gdt s) (loaded_idt s) (current_core s) (bsp_timer s))
  | Err e => Err e end.
Definition on_acpi {A} (m : M Acpi.acpi_state A) : CM A := fun s =>
  match m (m_acpi s) with
  | Ok (a, x) => Ok (a, mkMachine (m_memory s) x (m_rest s) (core_count s) (m_lapic s) (m_idt s) (m_idt_limit s) (loaded_gdt s) (loaded_idt s) (current_core s) (bsp_timer s))
  | Err e => Err e end.
Definition on_lapic {A} (m : M lapic A) : CM A := fun s =>
  match m (m_lapic s) with
  | Ok (a, x) => Ok (a, mkMachine (m_memory s) (m_acpi s) (m_rest s) (core_count s) x (m_idt s) (m_idt_limit s) (loaded_gdt s) (loaded_idt s) (current_core s) (bsp_timer s))
  | Err e => Err e end.
Definition set_rest (l : list core_rest) : CM unit := modify (fun s =>
  mkMachine (m_memory s) (m_acpi s) l (core_count s) (m_lapic s) (m_idt s) (m_idt_limit s) (loaded_gdt s) (loaded_idt s) (current_core s) (bsp_timer s)).
Definition set_core_count (n : Z) : CM unit := modify (fun s =>
  mkMachine (m_memory s) (m_acpi s) (m_rest s) n (m_lapic s) (m_idt s) (m_idt_limit s) (loaded_gdt s) (loaded_idt s) (current_core s) (bsp_timer s)).
Definition set_idt (t : list idt_entry) (limit : Z) : CM unit := modify (fun s =>
  mkMachine (m_memory s) (m_acpi s) (m_rest s) (core_count s) (m_lapic s) t limit (loaded_gdt s) (loaded_idt s) (current_core s) (bsp_timer s)).
Definition get_rest (i : nat) : CM core_rest := fun s => match m_rest s !! i with Some c => Ok (c, s) | None => Err Fault end.
Definition put_rest (i : nat) (c : core_rest) : CM unit := let* l := gets m_rest in set_rest (<[i := c]> l).
Definition wrmsr (r v : Z) : CM unit := on_lapic (write_location (Msr r) v).
Definition rdmsr (r : Z) : CM Z := on_lapic (read_location hardware (Msr r)).

(** [get_current_core()], as an index *)
Definition get_current_core : CM nat := fun s => match current_core s with Some i => Ok (i, s) | None => Err Fault end.

Definition initialize_gdt (i : nat) : CM unit :=
  let* c := get_rest i in
  let* (g, t) := on_memory (gdt_initialize (tss_address i) (_tss c)) in
  put_rest i (mkCoreRest (_id c) (_boot_flag c) (fst g) (snd g) t (_accessed c) (_preempt_timer c) (kernel_syscall_stack c)).
Definition load_gdt (i : nat) : CM unit := modify (fun s =>
  mkMachine (m_memory s) (m_acpi s) (m_rest s) (core_count s) (m_lapic s) (m_idt s) (m_idt_limit s) (Some i) (loaded_idt s) (current_core s) (bsp_timer s)).
Definition idt_load : CM unit := modify (fun s =>
  mkMachine (m_memory s) (m_acpi s) (m_rest s) (core_count s) (m_lapic s) (m_idt s) (m_idt_limit s) (loaded_gdt s) true (current_core s) (bsp_timer s)).
Definition set_kernel_stack (i : nat) (stack : Z) : CM unit :=
  let* c := get_rest i in
  let t := _tss c in
  put_rest i (mkCoreRest (_id c) (_boot_flag c) (_gdt c) (_gdtr_limit c)
    (mkTss stack (rsp1 t) (rsp2 t) (ist1 t) (ist2 t) (ist3 t) (ist4 t) (ist5 t) (ist6 t) (ist7 t) (iomap t)) (_accessed c) (_preempt_timer c) (kernel_syscall_stack c)).

(** [core::reinit_as] *)
Definition reinit_as (i other : nat) : CM unit :=
  let* c := get_rest i in
  let* d := get_rest other in
  if _accessed c then panic "tried to reinit an already accessed core object!" else
  let* x := on_acpi (Acpi.read_core other) in
  on_acpi (Acpi.update_core i (fun _ => x)) ;;
  put_rest i (mkCoreRest (_id d) (_boot_flag d) (_gdt c) (_gdtr_limit c) (_tss c) (_accessed c) (_preempt_timer c) (kernel_syscall_stack c)).

Definition ia32_gs_base : Z := 0xc0000101.
Definition ia32_kernel_gs_base : Z := 0xc0000102.
Definition ia32_efer : Z := 0xc0000080.
Definition ia32_star : Z := 0xc0000081.
Definition ia32_lstar : Z := 0xc0000082.

(** [initialize_local_storage], with [get_core_local_storage_ptr] *)
Definition mark_accessed (i : nat) : CM unit :=
  let* c := get_rest i in
  put_rest i (mkCoreRest (_id c) (_boot_flag c) (_gdt c) (_gdtr_limit c) (_tss c) true (_preempt_timer c) (kernel_syscall_stack c)).
Definition initialize_local_storage (i : nat) : CM unit :=
  mark_accessed i ;;
  wrmsr ia32_gs_base (cls_address i) ;;
  mark_accessed i ;;
  wrmsr ia32_kernel_gs_base (cls_address i) ;;
  modify (fun s => mkMachine (m_memory s) (m_acpi s) (m_rest s) (core_count s) (m_lapic s) (m_idt s) (m_idt_limit s) (loaded_gdt s) (loaded_idt s) (Some i) (bsp_timer s)).

(** [syscalls::initialize] *)
Definition syscalls_initialize : CM unit :=
  let* stack := on_memory make_stack in
  let* i := get_current_core in
  let* c := get_rest i in
  put_rest i (mkCoreRest (_id c) (_boot_flag c) (_gdt c) (_gdtr_limit c) (_tss c) (_accessed c) (_preempt_timer c) (u64 (stack + 32 * 4096))) ;;
  let* efer := rdmsr ia32_efer in
  wrmsr ia32_efer (Z.lor efer 1) ;;
  wrmsr ia32_star (Z.lor (Z.shiftl 0x8 32) (Z.shiftl 0x8 48)) ;;
  wrmsr ia32_lstar syscall_handler_stub.

(** [cpu::initialize] *)
Definition cpu_initialize : CM unit :=
  let* n := gets core_count in
  let* r := on_acpi (Acpi.parse_madt mem n) in
  set_core_count (Acpi.core_count r) ;;
  on_lapic (Lapic.initialize hardware cpuid_1_ecx (Acpi.lapic_base r)) ;;
  let* me := on_lapic (Lapic.id hardware) in
  let* i := on_acpi (Acpi.get_core_by_apic_id (Z.to_nat (Acpi.core_count r)) me) in
  initialize_gdt i ;;
  load_gdt i ;;
  let* t := gets m_idt in
  set_idt (fst (idt_initialize isr t)) (snd (idt_initialize isr t)) ;;
  idt_load ;;
  initialize_local_storage i ;;
  syscalls_initialize.

(** [lapic_timer::ap_initialize] *)
Definition lapic_timer_ap_initialize : CM unit :=
  let* b := gets bsp_timer in
  match b with
  | None => fail Fault
  | Some b =>
      let* bc := get_rest b in
      let* i := get_current_core in
      let* c := get_rest i in
      let t := _preempt_timer c in
      put_rest i (mkCoreRest (_id c) (_boot_flag c) (_gdt c) (_gdtr_limit c) (_tss c) (_accessed c)
        (HwTimers.mkLapicTimer (HwTimers._fine_now t) (HwTimers._period (_preempt_timer bc)) (HwTimers._last_written t) (HwTimers._last_divisor t) (HwTimers.lt_now t)) (kernel_syscall_stack c)) ;;
      on_lapic enable_timer_irq
  end.

(** [cpu::ap_initialize], up to the halt *)
Definition cpu_ap_initialize : CM unit :=
  on_lapic (Lapic.ap_initialize hardware) ;;
  let* me := on_lapic (Lapic.id hardware) in
  let* n := gets core_count in
  let* i := on_acpi (Acpi.get_core_by_apic_id (Z.to_nat n) me) in
  initialize_gdt i ;;
  load_gdt i ;;
  idt_load ;;
  initialize_local_storage i ;;
  syscalls_initialize ;;
  lapic_timer_ap_initialize.

(** [switch_to_clean_state]: the new stack pointer, with the two words at it: a frame
    pointer and the address to return to. *)
Definition switch_to_clean_state (ret_address : Z) : CM (Z * Z * Z) :=
  let* stack := on_memory make_stack in
  let top := u64 (stack + 32 * 4096) in
  let* i := get_current_core in
  set_kernel_stack i top ;;
  on_memory (on_pages unmap_lower_half) ;;
  ret (u64 (top - 2 * 8), top, ret_address).
End setup.

(** ** Witnesses *)

(** What a run gives, seen through [f]. *)
Definition outcome {St A B} (f : A -> St -> B) (r : res (A * St)) : option B :=
  match r with Ok (a, s) => Some (f a s) | Err _ => None end.

(** A manager with four hundred free frames, and an empty address space over it. *)
Definition many_frames : list Z := (fun i => 0x100000 + 4096 * i) <$> seqZ 0 400.
Definition many : pmm :=
  mkPmm (list_to_map (zip many_frames (drop 1 many_frames ++ [null_repr])))
    [mkStack false 0x100000 400; mkStack false null_repr 0; mkStack false null_repr 0] 0 0 [400; 0; 0] [0; 0; 0].
Fixpoint chainb (m : gmap Z Z) (p : Z) (l : list Z) : bool :=
  match l with
  | [] => true
  | f :: l' => (p =? f) && match m !! f with Some n => chainb m n l' | None => false end
  end.
Lemma chainb_ok m p l : chainb m p l = true -> chain m p l.
Proof.
  revert p. induction l as [|f l IH]; intros p H; [done|]. cbn in H. apply andb_true_iff in H as [E H]. split; [by apply Z.eqb_eq|].
  destruct (m !! f) as [n|]; [|done]. eauto.
Qed.
Lemma many_rep : pmm_rep many [many_frames; []; []].
Proof.
  split; [done| | |].
  - intros [|[|[|i]]] l Hl; [injection Hl as <-|injection Hl as <-; by eexists|injection Hl as <-; by eexists|done].
    exists 0x100000. split; [by vm_compute|]. apply chainb_ok. by vm_compute.
  - apply (bool_decide_unpack _). by vm_compute.
  - apply (bool_decide_unpack _). by vm_compute.
Qed.
Definition space_many : vm_state pmm := mkVm {[0x8000 := pmlt_init]} many 0x8000 [] [] false.
Definition memory_many : memory := mkMemory space_many ∅ ∅ ∅ 0x1000 None 0xffffffff7ffff000.
Definition upper : Z := 0xffff000000000000.
Lemma space_many_ok : address_space space_many owners0 many_frames [] 0x8000.
Proof.
  destruct space0_ok as [[Hs _ _] Hu Hr Hus]. split; [split| |done|done].
  - exact Hs.
  - exists [], []. split; [apply many_rep|done].
  - intros q [y Hy]. unfold owners0 in Hy. apply lookup_singleton_Some in Hy as [<- _]. apply (bool_decide_unpack _). by vm_compute.
  - exact Hu.
Qed.
Lemma many_room n : (n <= 3)%nat -> room n memory_many owners0 many_frames [] upper.
Proof.
  intros Hn. assert (Z.of_nat n * stack_size <= 3 * stack_size) as Hs by (unfold stack_size; lia). unfold stack_size in Hs. split.
  - exact space_many_ok.
  - unfold block_base, upper. change (es 5) with (2 ^ 48). repeat split; lia.
  - cbn [vm_space_top memory_many]. unfold upper, stack_size in *. split; [done|]. lia.
  - intros v Hv. apply walk_new_empty; [reflexivity|]. lia.
  - change (Z.of_nat (length many_frames)) with 400. lia.
Qed.

Lemma task_state_ready_witness :
  exists fss s' o' fr' t', gdt_initialize 0xffffffff80123450 tss_zero memory_many = Ok ((gdt_entries 0xffffffff80123450, 55, t'), lower_top (3 * stack_size) s' memory_many) /\
    length fss = 3%nat /\ stacks_ready 0x8000 upper 0xffffffff7ffff000 fss many_frames fr' {[0x8000 := pmlt_init]} (tables s') /\
    ist1 t' = 0xffffffff7ffff000 /\ ist2 t' = 0xffffffff7ffff000 - stack_size /\ ist3 t' = 0xffffffff7ffff000 - 2 * stack_size /\ rsp0 t' = 0 /\
    room 0 (lower_top (3 * stack_size) s' memory_many) o' fr' [] upper /\
    task_of (gdt_word (setup_tss_entry 0xffffffff80123450 gdt_zero)) (gdt_word (setup_tss_high 0xffffffff80123450 gdt_zero)) = mkTask 0xffffffff80123450 (sizeof_tss - 1) 9 3 1.
Proof. apply (task_state_ready 0xffffffff80123450 tss_zero memory_many owners0 many_frames [] upper); [apply many_room; lia|split; lia]. Defined.

Lemma vectors_dispatched_witness :
  exists e, (idt_initialize (fun i => 0xffffffff80000000 + 16 * (i mod 256)) (replicate 256 idt_zero)).1 !! Z.to_nat 14 = Some e /\
    gate_of (idt_word e) = mkGate 0xffffffff800000e0 0x8 3 0xf 0 1 /\ 14 * 16 + 15 <= 4095.
Proof.
  apply (vectors_dispatched (fun i => 0xffffffff80000000 + 16 * (i mod 256)) (replicate 256 idt_zero) 14).
  - intros j. pose proof (Z.mod_pos_bound j 256 ltac:(lia)). unfold is_u64. lia.
  - reflexivity.
  - lia.
Defined.
