(* ===== verification/ApBoot.v ===== *)
(** * Starting the other cores: kernel/arch/amd64/mp/mp.cpp

    The first core sends the others through their start-up: a copy of the trampoline
    for each, a stack, two start-up interrupts, and then it looks at a flag the
    trampoline sets to see who has come up; a core that has not is taken out of the
    list.  What the flags say is up to the other cores: the value of the flag at an
    address is a function of how many flags were read before. *)
From S2P Require Import Prelude Lapic Pmm PageTable Vas Stacks CpuSetup.
From S2P Require Acpi HwTimers.

(** ** State *)

(** What is written into the copy of the trampoline. *)
Inductive slot_write : Type :=
| CopyTrampoline (address size : Z)
| AsidSlot (address asid : Z)
| StackSlot (address top : Z).

Record booting : Type := mkBooting { b_machine : machine; b_slots : list slot_write; b_reads : nat }.

Section boot.
(** The trampoline's size and the offsets of its slots; what the flags say. *)
Context (trampoline_bytes asid_slot_offset stack_slot_offset flag_slot_offset : Z) (flag : nat -> Z -> Z).
Abbreviation BM := (M booting).

Definition on_machine {A} (m : M machine A) : BM A := fun s =>
  match m (b_machine s) with Ok (a, x) => Ok (a, mkBooting x (b_slots s) (b_reads s)) | Err e => Err e end.
Definition write_slot (w : slot_write) : BM unit := modify (fun s => mkBooting (b_machine s) (b_slots s ++ [w]) (b_reads s)).
Definition read_flag (a : Z) : BM Z := fun s => Ok (flag (b_reads s) a, mkBooting (b_machine s) (b_slots s) (S (b_reads s))).

Definition trampoline_size : Z := Z.land (u64 (trampoline_bytes + 4095)) (not64 4095).

Definition core_apic_id (i : Z) : BM Z :=
  let* c := on_machine (on_acpi (Acpi.read_core (Z.to_nat i))) in ret (Acpi._apic_id c).
Definition my_apic_id : BM Z :=
  let* i := on_machine get_current_core in core_apic_id (Z.of_nat i).
Definition count : BM Z := on_machine (gets core_count).
Definition update_rest (i : Z) (f : core_rest -> core_rest) : BM unit :=
  on_machine (let* c := get_rest (Z.to_nat i) in put_rest (Z.to_nat i) (f c)).
Definition with_id (id : Z) (c : core_rest) : core_rest :=
  mkCoreRest id (_boot_flag c) (_gdt c) (_gdtr_limit c) (_tss c) (_accessed c) (_preempt_timer c) (kernel_syscall_stack c).
Definition with_flag (a : Z) (c : core_rest) : core_rest :=
  mkCoreRest (_id c) (Some a) (_gdt c) (_gdtr_limit c) (_tss c) (_accessed c) (_preempt_timer c) (kernel_syscall_stack c).
Definition flag_of (i : Z) : BM Z :=
  let* c := on_machine (get_rest (Z.to_nat i)) in
  match _boot_flag c with Some a => ret a | None => fail Fault end.

(** ** The loops *)

(** [for (i = 0; i < core_count; ++i)] over the other cores, and the loops of a round,
    [for (i = booted; i < booted + boot_at_once && i < core_count; ++i)]; [stop] is
    the end of the round. *)
Fixpoint for_others (fuel : nat) (i : Z) (stop : option Z) (body : Z -> Z -> BM unit) : BM unit :=
  match fuel with
  | O => fail NoFuel
  | S n =>
      let* c := count in
      if (match stop with Some e => i <? e | None => true end) && (i <? c) then
        let* a := core_apic_id i in
        let* me := my_apic_id in
        (if a =? me then ret tt else body i a) ;;
        for_others n (i + 1) stop body
      else ret tt
  end.

Definition send (type : ipi_type) (data : Z -> Z) (i apic_id : Z) : BM unit := on_machine (on_lapic (ipi apic_id type (data i))).

(** Preparing a core: its copy of the trampoline, its flag and its stack. *)
Definition prepare (base booted i _ : Z) : BM unit :=
  let at_ := u64 (base + u64 (trampoline_size * u64 (i - booted))) in
  write_slot (CopyTrampoline at_ trampoline_size) ;;
  let* asid := on_machine (on_memory (on_pages (gets cr3))) in
  write_slot (AsidSlot (u64 (at_ + asid_slot_offset)) asid) ;;
  update_rest i (with_flag (u64 (at_ + flag_slot_offset))) ;;
  let* stack := on_machine (on_memory make_stack) in
  write_slot (StackSlot (u64 (at_ + stack_slot_offset)) (u64 (stack + 32 * 4096))) ;;
  on_machine (set_kernel_stack (Z.to_nat i) stack).

(** [(0x1000 + trampoline_size * (i - booted)) >> 12], as the byte it is passed as *)
Definition sipi_vector (booted i : Z) : Z := u8 (Z.shiftr (u64 (0x1000 + u64 (trampoline_size * u64 (i - booted)))) 12).
Definition second_sipi (booted i apic_id : Z) : BM unit :=
  let* a := flag_of i in
  let* v := read_flag a in
  if v =? 0 then send ipi_sipi (sipi_vector booted) i apic_id else ret tt.

(** [while ( *flag != 2) pause] *)
Fixpoint wait_booted (fuel : nat) (a : Z) : BM unit :=
  match fuel with
  | O => fail NoFuel
  | S n => let* v := read_flag a in if v =? 2 then ret tt else wait_booted n a
  end.
(** The cores after a failed one move down. *)
Fixpoint move_down (k : nat) (j : Z) : BM unit :=
  match k with
  | O => ret tt
  | S k' => on_machine (reinit_as (Z.to_nat j) (Z.to_nat (j + 1))) ;; move_down k' (j + 1)
  end.

(** The last loop of a round; its end, [booted + boot_at_once], and the number of cores
    go down when a core failed. *)
Fixpoint check_round (fuel patience : nat) (i booted boot_at_once : Z) : BM Z :=
  match fuel with
  | O => fail NoFuel
  | S n =>
      let* c := count in
      if (i <? u64 (booted + boot_at_once)) && (i <? c) then
        let* a := core_apic_id i in
        let* me := my_apic_id in
        if a =? me then check_round n patience (i + 1) booted boot_at_once else
        let* fl := flag_of i in
        let* v := read_flag fl in
        if negb (v =? 0) then
          wait_booted patience fl ;;
          update_rest i (with_id i) ;;
          check_round n patience (i + 1) booted boot_at_once
        else
          move_down (Z.to_nat (c - 1 - i)) i ;;
          on_machine (set_core_count (c - 1)) ;;
          check_round n patience i (u64 (booted - 1)) boot_at_once
      else ret booted
  end.

Fixpoint rounds (fuel patience : nat) (base booted boot_at_once : Z) : BM unit :=
  match fuel with
  | O => fail NoFuel
  | S n =>
      let* c := count in
      if booted <? c then
        let stop := Some (u64 (booted + boot_at_once)) in
        let f := S (Z.to_nat c) in
        for_others f booted stop (prepare base booted) ;;
        for_others f booted stop (send ipi_sipi (sipi_vector booted)) ;;
        for_others f booted stop (second_sipi booted) ;;
        let* booted := check_round (S (Z.to_nat (2 * c))) patience booted booted boot_at_once in
        rounds n patience base (u64 (booted + boot_at_once)) boot_at_once
      else ret tt
  end.

(** The first core finds itself in the list. *)
Fixpoint set_own_id (fuel : nat) (i : Z) : BM unit :=
  match fuel with
  | O => ret tt
  | S n =>
      let* a := core_apic_id i in
      let* me := my_apic_id in
      if a =? me then update_rest i (with_id i) else set_own_id n (i + 1)
  end.

(** [mp::boot]; the waits of 10 ms and 500 us are between its loops. *)
Definition mp_boot (fuel patience : nat) : BM unit :=
  let* c := count in
  for_others (S (Z.to_nat c)) 0 None (send ipi_init (fun _ => 0)) ;;
  let* base_raw := on_machine (on_memory (on_pages (gets (fun v => sub_1M_bottom (frames v))))) in
  let base := if base_raw =? 0 then 0x1000 else base_raw in
  let* top := on_machine (on_memory (on_pages (gets (fun v => sub_1M_top (frames v))))) in
  on_machine (on_memory (on_pages (map_physical None base top base flags_none))) ;;
  rounds fuel patience base 0 (u64 (top - base) / trampoline_size) ;;
  let* c := count in
  set_own_id (Z.to_nat c) 0 ;;
  on_machine (on_memory (on_pages (unmap None base top false))).

(** ** Who is left after a round *)

Definition cores_of (s : booting) : list Acpi.core := Acpi.cores_storage (m_acpi (b_machine s)).
Definition rests_of (s : booting) : list core_rest := m_rest (b_machine s).

(** The running core, a core that has come up, and one that has not. *)
Definition runs_on (s : booting) (c : nat) (me : Z) : Prop :=
  current_core (b_machine s) = Some c /\ exists x, cores_of s !! c = Some x /\ Acpi._apic_id x = me.
Definition core_says (v : Z) (accessed : bool) (s : booting) (me : Z) (j : nat) : Prop :=
  exists x d a, cores_of s !! j = Some x /\ rests_of s !! j = Some d /\ Acpi._apic_id x <> me /\
    _boot_flag d = Some a /\ (_accessed d = accessed) /\ forall r, flag r a = v.
Definition core_up (s : booting) (c : nat) (me : Z) (j : nat) : Prop := j = c /\ is_Some (rests_of s !! j) \/ core_says 2 true s me j.
Abbreviation core_down := (core_says 0 false).

Definition numbered (c lo hi : nat) (l l' : list core_rest) : Prop := forall j,
  l' !! j = if bool_decide ((lo <= j < hi)%nat /\ j <> c) then with_id (Z.of_nat j) <$> l !! j else l !! j.

Definition upd (l : list core_rest) (r : nat) (s : booting) : booting :=
  let m := b_machine s in
  mkBooting (mkMachine (m_memory m) (m_acpi m) l (core_count m) (m_lapic m) (m_idt m) (m_idt_limit m)
    (loaded_gdt m) (loaded_idt m) (current_core m) (bsp_timer m)) (b_slots s) r.

Lemma count_ok s : count s = Ok (core_count (b_machine s), s).
Proof. by destruct s. Qed.
Lemma core_apic_id_ok s j x : cores_of s !! j = Some x -> core_apic_id (Z.of_nat j) s = Ok (Acpi._apic_id x, s).
Proof.
  destruct s as [[] ? ?]. unfold core_apic_id, bind, on_machine, on_acpi, Acpi.read_core, cores_of. cbn. rewrite Nat2Z.id.
  intros Hx. rewrite Hx. cbn. by destruct m_acpi.
Qed.
Lemma my_apic_id_ok s c me : runs_on s c me -> my_apic_id s = Ok (me, s).
Proof.
  intros [Hc (x & Hx & <-)]. unfold my_apic_id. erewrite bind_Ok.
  - by apply core_apic_id_ok.
  - unfold on_machine, get_current_core. rewrite Hc. by destruct s.
Qed.
Lemma flag_of_ok s j d a : rests_of s !! j = Some d -> _boot_flag d = Some a -> flag_of (Z.of_nat j) s = Ok (a, s).
Proof.
  destruct s as [[] ? ?]. unfold flag_of, bind, on_machine, get_rest, rests_of. cbn. rewrite Nat2Z.id. intros Hd Ha. rewrite Hd. cbn. by rewrite Ha.
Qed.
Lemma update_rest_ok s j d f : rests_of s !! j = Some d -> update_rest (Z.of_nat j) f s = Ok (tt, upd (<[j := f d]> (rests_of s)) (b_reads s) s).
Proof.
  destruct s as [[] ? ?]. unfold update_rest, on_machine, bind, get_rest, put_rest, rests_of. cbn. rewrite Nat2Z.id. intros Hd. by rewrite Hd.
Qed.

Lemma numbered_step c i hi l d l' : (i < hi)%nat -> i <> c -> l !! i = Some d ->
  numbered c (S i) hi (<[i := with_id (Z.of_nat i) d]> l) l' -> numbered c i hi l l'.
Proof.
  intros Hi Hc Hd Hn j. rewrite Hn. destruct (decide (j = i)) as [->|Hj].
  - rewrite bool_decide_eq_false_2 by lia. rewrite bool_decide_eq_true_2 by lia.
    rewrite list_lookup_insert_eq by eauto using lookup_lt_Some. by rewrite Hd.
  - rewrite list_lookup_insert_ne by done. by destruct (decide ((i <= j < hi)%nat /\ j <> c)); [rewrite !bool_decide_eq_true_2 by lia|rewrite !bool_decide_eq_false_2 by lia].
Qed.

(** The cores that have come up get their positions as numbers. *)
Lemma started_numbered (f c : nat) me booted k p : forall (i n : nat) s,
  (i <= f)%nat -> Z.of_nat f <= core_count (b_machine s) -> Z.of_nat f <= u64 (booted + k) ->
  runs_on s c me -> (forall j, (i <= j < f)%nat -> core_up s c me j) ->
  exists l r, check_round (f - i + n) (S p) (Z.of_nat i) booted k s = check_round n (S p) (Z.of_nat f) booted k (upd l r s) /\
    numbered c i f (rests_of s) l.
Proof.
  intros i n s Hif. remember (f - i)%nat as w eqn:Ew. revert i s Hif Ew. induction w as [|w IH]; intros i s Hif Ew Hf Hk Hc Hup.
  { assert (i = f) as -> by lia. exists (rests_of s), (b_reads s). split; [by destruct s as [[] ? ?]|].
    intros j. by rewrite bool_decide_eq_false_2 by lia. }
  destruct (Hup i ltac:(lia)) as [[-> Hd]|(x & d & a & Hx & Hd & Hne & Ha & Hacc & Hfl)]; cbn [check_round Nat.add].
  - pose proof Hc as [_ (x & Hx & Hme)]. erewrite bind_Ok by apply count_ok.
    rewrite (proj2 (Z.ltb_lt _ (u64 (booted + k)))), (proj2 (Z.ltb_lt _ (core_count (b_machine s)))) by lia. cbn [andb].
    erewrite bind_Ok by (by apply core_apic_id_ok). erewrite bind_Ok by (by apply (my_apic_id_ok _ c me)). rewrite Hme, Z.eqb_refl.
    replace (Z.of_nat c + 1) with (Z.of_nat (S c)) by lia.
    destruct (IH (S c) s ltac:(lia) ltac:(lia) Hf Hk Hc) as (l & r & E & Hn); [intros; apply Hup; lia|].
    exists l, r. split; [exact E|]. intros j. rewrite Hn. by destruct (decide ((S c <= j < f)%nat /\ j <> c)); [rewrite !bool_decide_eq_true_2 by lia|rewrite !bool_decide_eq_false_2 by lia].
  - erewrite bind_Ok by apply count_ok.
    rewrite (proj2 (Z.ltb_lt _ (u64 (booted + k)))), (proj2 (Z.ltb_lt _ (core_count (b_machine s)))) by lia. cbn [andb].
    erewrite bind_Ok by (by apply core_apic_id_ok). erewrite bind_Ok by (by apply (my_apic_id_ok _ c me)).
    rewrite (proj2 (Z.eqb_neq _ _) Hne). erewrite bind_Ok by (by eapply flag_of_ok). erewrite bind_Ok by reflexivity. rewrite Hfl. cbn [negb Z.eqb].
    erewrite bind_Ok; [|cbn [wait_booted]; erewrite bind_Ok by reflexivity; rewrite Hfl; reflexivity].
    erewrite bind_Ok by (apply update_rest_ok; exact Hd).
    match goal with |- context [check_round (w + n) _ _ _ _ ?s1] => set (s1' := s1) end.
    assert (i <> c) as Hic by (intros ->; destruct Hc as [_ (y & Hy & Hme)]; simplify_eq).
    replace (Z.of_nat i + 1) with (Z.of_nat (S i)) by lia.
    destruct (IH (S i) s1' ltac:(lia) ltac:(lia) Hf Hk Hc) as (l & r & E & Hn).
    + intros j Hj. destruct (Hup j ltac:(lia)) as [[-> Hd']|(x' & d' & a' & ?)]; [left|right].
      * split; [done|]. unfold s1', rests_of, upd. cbn. by rewrite list_lookup_insert_ne by lia.
      * exists x', d', a'. unfold s1', rests_of, upd. cbn. by rewrite list_lookup_insert_ne by lia.
    + exists l, r. split; [exact E|]. apply (numbered_step c i f _ d); [lia|done|exact Hd|exact Hn].
Qed.

(** The state but for the places from [f] on. *)
Definition agree (f : nat) (s s' : booting) : Prop :=
  (forall j, (j < f)%nat -> rests_of s' !! j = rests_of s !! j /\ cores_of s' !! j = cores_of s !! j) /\
  current_core (b_machine s') = current_core (b_machine s) /\ m_memory (b_machine s') = m_memory (b_machine s) /\
  m_lapic (b_machine s') = m_lapic (b_machine s) /\ b_slots s' = b_slots s.
Lemma agree_le f g s s' : (f <= g)%nat -> agree g s s' -> agree f s s'.
Proof. intros Hfg (H & ?). split; [|done]. intros j Hj. apply H. lia. Qed.
Lemma agree_trans f s1 s2 s3 : agree f s1 s2 -> agree f s2 s3 -> agree f s1 s3.
Proof.
  intros (H & Hc & Hm & Hl & Hs) (H' & Hc' & Hm' & Hl' & Hs'). split; [|repeat split; congruence].
  intros j Hj. destruct (H j Hj), (H' j Hj). split; congruence.
Qed.
Lemma runs_on_agree f s s' c me : (c < f)%nat -> agree f s s' -> runs_on s c me -> runs_on s' c me.
Proof. intros Hcf (H & Hc & _) (H1 & x & Hx & Hme). destruct (H c Hcf) as [_ E]. split; [congruence|]. exists x. by rewrite E. Qed.

(** A core whose object nobody has used yet. *)
Definition core_waits (s : booting) (i : nat) : Prop :=
  exists x d, cores_of s !! i = Some x /\ rests_of s !! i = Some d /\ _accessed d = false.
(** The core at [i] of [s] is at [j] of [s']. *)
Definition taken (s : booting) (i : nat) (s' : booting) (j : nat) : Prop :=
  exists x d d', cores_of s !! i = Some x /\ cores_of s' !! j = Some x /\ rests_of s !! i = Some d /\ rests_of s' !! j = Some d' /\
    _id d' = _id d /\ _boot_flag d' = _boot_flag d /\ _accessed d' = false.
Lemma down_waits s me i : core_down s me i -> core_waits s i.
Proof. intros (x & d & a & ? & ? & ? & ? & ? & ?). by exists x, d. Qed.
Lemma taken_waits s i s' j : taken s i s' j -> core_waits s' j.
Proof. intros (x & d & d' & ? & ? & ? & ? & ? & ? & ?). by exists x, d'. Qed.
Lemma taken_down s me i s' j : taken s i s' j -> core_down s me i -> core_down s' me j.
Proof.
  intros (x & d & d' & Hx & Hx' & Hd & Hd' & _ & Hb & Ha) (y & e & a & Hy & He & Hne & Hf & _ & Hfl). simplify_eq.
  eexists _, d', a. split; [exact Hx'|]. split; [exact Hd'|]. by rewrite Hb.
Qed.
Lemma moved_core_trans s1 i s2 j s3 k : taken s1 i s2 j -> taken s2 j s3 k -> taken s1 i s3 k.
Proof.
  intros (x & d & d' & Hx & Hx' & Hd & Hd' & Hi & Hb & Ha) (y & e & e' & Hy & Hy' & He & He' & Hi' & Hb' & Ha'). simplify_eq.
  eexists _, _, _. split; [exact Hx|]. split; [exact Hy'|]. split; [exact Hd|]. split; [exact He'|]. repeat split; congruence.
Qed.
Lemma taken_before s0 s i s' j :
  cores_of s0 !! i = cores_of s !! i -> rests_of s0 !! i = rests_of s !! i -> taken s i s' j -> taken s0 i s' j.
Proof. intros Ec Er H. unfold taken in *. by rewrite Ec, Er. Qed.
Lemma taken_after s i s' s0 j :
  cores_of s0 !! j = cores_of s' !! j -> rests_of s0 !! j = rests_of s' !! j -> taken s i s' j -> taken s i s0 j.
Proof. intros Ec Er H. unfold taken in *. by rewrite Ec, Er. Qed.

Lemma reinit_ok s j : core_waits s j -> core_waits s (S j) ->
  exists s', on_machine (reinit_as (Z.to_nat (Z.of_nat j)) (Z.to_nat (Z.of_nat j + 1))) s = Ok (tt, s') /\
    agree j s s' /\ core_count (b_machine s') = core_count (b_machine s) /\ taken s (S j) s' j /\
    (forall i, i <> j -> cores_of s' !! i = cores_of s !! i /\ rests_of s' !! i = rests_of s !! i).
Proof.
  intros (x & d & Hx & Hr & Hacc) (x' & d' & Hx' & Hr' & Hacc').
  rewrite Nat2Z.id. replace (Z.to_nat (Z.of_nat j + 1)) with (S j) by lia.
  destruct s as [[] ? ?]. unfold rests_of, cores_of in *. cbn in *.
  unfold on_machine, reinit_as, bind, get_rest, on_acpi, Acpi.read_core, Acpi.update_core, put_rest, set_rest, gets, modify, ret. cbn.
  rewrite Hr. cbn. rewrite Hr'. cbn. rewrite Hacc. cbn. rewrite Hx'. cbn. rewrite Hx. cbn. eexists. split; [reflexivity|].
  split; [|split; [done|split]].
  - split; [|done]. intros i Hi. unfold rests_of, cores_of. cbn. by rewrite !list_lookup_insert_ne by lia.
  - eexists x', d', _. unfold rests_of, cores_of. cbn. rewrite !list_lookup_insert_eq by eauto using lookup_lt_Some. done.
  - intros i Hi. cbn. by rewrite !list_lookup_insert_ne by done.
Qed.
(** The cores from [j + 1] on move down by one place. *)
Lemma move_down_ok k : forall j s, (forall i, (j <= i <= j + k)%nat -> core_waits s i) ->
  exists s', move_down k (Z.of_nat j) s = Ok (tt, s') /\ agree j s s' /\ core_count (b_machine s') = core_count (b_machine s) /\
    (forall i, (j <= i < j + k)%nat -> taken s (S i) s' i).
Proof.
  induction k as [|k IH]; intros j s Hd; [exists s; split; [done|]; split; [by repeat split|]; split; [done|lia]|].
  destruct (reinit_ok s j) as (s1 & E1 & A1 & C1 & T1 & O1); [apply Hd; lia..|].
  destruct (IH (S j) s1) as (s2 & E2 & A2 & C2 & D2).
  { intros i Hi. destruct (O1 i ltac:(lia)) as [Ec Er]. destruct (Hd i ltac:(lia)) as (x & d & ?). exists x, d. by rewrite Ec, Er. }
  exists s2. cbn [move_down]. erewrite bind_Ok by exact E1. replace (Z.of_nat j + 1) with (Z.of_nat (S j)) by lia. split; [exact E2|].
  split; [|split; [congruence|]].
  - eapply agree_trans; [exact A1|]. eapply agree_le; [|exact A2]. lia.
  - intros i Hi. destruct (decide (i = j)) as [->|].
    + destruct A2 as (A2 & _). destruct (A2 j ltac:(lia)) as [R X]. by apply (taken_after _ _ s1).
    + destruct (O1 (S i) ltac:(lia)) as [Ec Er]. apply (taken_before _ s1); [done|done|]. apply D2. lia.
Qed.

(** [t] cores from [f] on stayed down, the [u] ones after them are not started yet, and
    the round ends with the last that stayed down or with the list. *)
Lemma failed_dropped me c f p k u : (c < f)%nat -> 0 <= k -> forall (t m : nat) b s,
  core_count (b_machine s) = Z.of_nat (f + t + u) -> runs_on s c me -> (forall i, (f <= i < f + t)%nat -> core_down s me i) ->
  (forall i, (f + t <= i < f + t + u)%nat -> core_waits s i) ->
  Z.of_nat (f + t) <= b + k < 2 ^ 64 -> u = 0%nat \/ b + k = Z.of_nat (f + t) ->
  exists s', check_round (S (t + m)) p (Z.of_nat f) (u64 b) k s = Ok (u64 (b - Z.of_nat t), s') /\
    agree f s s' /\ core_count (b_machine s') = Z.of_nat (f + u) /\
    forall i, (i < u)%nat -> taken s (f + t + i) s' (f + i).
Proof.
  intros Hcf Hk t. induction t as [|t IH]; intros m b s Hn Hc Hd Hw Hb Hend.
  { assert (u64 (u64 b + k) = b + k) as Eb by (unfold u64, wrapu; rewrite Zplus_mod_idemp_l; apply Z.mod_small; lia).
    cbn [check_round Nat.add]. erewrite bind_Ok by apply count_ok. rewrite Nat.add_0_r in *. rewrite Eb, Hn.
    assert ((Z.of_nat f <? b + k) && (Z.of_nat f <? Z.of_nat (f + u)) = false) as ->.
    { destruct Hend as [-> | ->]; [rewrite Nat.add_0_r, Z.ltb_irrefl; apply andb_false_r|by rewrite Z.ltb_irrefl]. }
    exists s. split; [unfold ret; do 2 f_equal; f_equal; lia|]. split; [by repeat split|]. split; [done|].
    intros i Hi. destruct (Hw (f + i)%nat ltac:(lia)) as (x & d & Hx & Hr & Ha). by exists x, d, d. }
  destruct (Hd f ltac:(lia)) as (x & d & a & Hx & Hr & Hne & Ha & Hacc & Hfl).
  set (g := (S t + m)%nat). cbn [check_round].
  assert (u64 (u64 b + k) = b + k) as Eb by (unfold u64, wrapu; rewrite Zplus_mod_idemp_l; apply Z.mod_small; lia).
  erewrite bind_Ok by apply count_ok. rewrite Eb, Hn. rewrite (proj2 (Z.ltb_lt (Z.of_nat f) (b + k))), (proj2 (Z.ltb_lt (Z.of_nat f) (Z.of_nat _))) by lia. cbn [andb].
  erewrite bind_Ok by (by apply core_apic_id_ok). erewrite bind_Ok by (by apply (my_apic_id_ok _ c me)).
  rewrite (proj2 (Z.eqb_neq _ _) Hne). erewrite bind_Ok by (by eapply flag_of_ok). erewrite bind_Ok by reflexivity. rewrite Hfl. cbn [negb Z.eqb].
  match goal with |- context [bind (move_down _ _) _ ?s1] => set (s0 := s1) end.
  replace (Z.to_nat (Z.of_nat (f + S t + u) - 1 - Z.of_nat f)) with (t + u)%nat by lia.
  destruct (move_down_ok (t + u) f s0) as (s1 & E1 & A1 & C1 & T1).
  { intros i Hi. destruct (decide (i < f + S t)%nat); [apply (down_waits s me), Hd; lia|apply Hw; lia]. }
  erewrite bind_Ok by exact E1. erewrite bind_Ok by reflexivity.
  match goal with |- context [check_round g _ _ _ _ ?s3] => set (s2 := s3) end.
  assert (u64 (u64 b - 1) = u64 (b - 1)) as -> by (unfold u64, wrapu; rewrite Zminus_mod_idemp_l; done).
  destruct (IH m (b - 1) s2) as (s3 & E3 & A3 & C3 & T3).
  - unfold s2. cbn. lia.
  - apply (runs_on_agree f s); [done| |done]. exact A1.
  - intros i Hi. apply (taken_down s me (S i)); [apply (T1 i); lia|apply Hd; lia].
  - intros i Hi. apply (taken_waits s (S i)). apply (T1 i). lia.
  - lia.
  - destruct Hend; [by left|right; lia].
  - exists s3. unfold g. cbn [Nat.add]. rewrite E3. split; [do 2 f_equal; f_equal; lia|].
    split; [eapply agree_trans; [exact A1|exact A3]|]. split; [done|]. intros i Hi.
    apply (moved_core_trans _ _ s2 (f + t + i)); [|by apply T3].
    replace (f + S t + i)%nat with (S (f + t + i)) by lia. apply (T1 (f + t + i)%nat). lia.
Qed.

(** C25: the end of a round.  The cores before [f] have come up, the [t] from [f] on have
    not, and are the last ones of the round; the [u] after them are for later rounds.
    The last loop of the round ends with [f + u] cores: the running core and those that
    came up keep their places and what the first core knows of them, each started core
    has its position as its number; the cores that stayed down are gone from the list,
    and the later ones have moved down to their places in order, with their identity and
    their flags; the counter of the rounds has gone down by the number of failures, so
    that the next round begins with them; the memory and the interrupt controller are
    left alone.  (A core that came up behind one that did not is not covered: the first
    core then stops, see [started_after_failed].) *)
Theorem round_keeps_started s (lo f t u c fuel p : nat) me booted k :
  (lo <= f)%nat -> (c < f)%nat -> core_count (b_machine s) = Z.of_nat (f + t + u) ->
  0 <= booted -> 0 <= k -> Z.of_nat (f + t) <= booted + k < 2 ^ 64 -> u = 0%nat \/ booted + k = Z.of_nat (f + t) ->
  (f + t - lo < fuel)%nat ->
  runs_on s c me -> (forall j, (lo <= j < f)%nat -> core_up s c me j) -> (forall j, (f <= j < f + t)%nat -> core_down s me j) ->
  (forall j, (f + t <= j < f + t + u)%nat -> core_waits s j) ->
  exists s', check_round fuel (S p) (Z.of_nat lo) booted k s = Ok (u64 (booted - Z.of_nat t), s') /\
    core_count (b_machine s') = Z.of_nat (f + u) /\ numbered c lo f (take f (rests_of s)) (take f (rests_of s')) /\
    take f (cores_of s') = take f (cores_of s) /\ (forall i, (i < u)%nat -> taken s (f + t + i) s' (f + i)) /\
    m_memory (b_machine s') = m_memory (b_machine s) /\ m_lapic (b_machine s') = m_lapic (b_machine s).
Proof.
  intros Hlf Hcf Hn Hb Hk Hw Hend Hfuel Hc Hup Hdown Hwait. assert (u64 booted = booted) as Eb by (apply u64_id; split; lia).
  assert (u64 (booted + k) = booted + k) as Ek by (apply u64_id; split; lia).
  set (m := (fuel - (f - lo) - S t)%nat). replace fuel with (f - lo + S (t + m))%nat by lia.
  destruct (started_numbered f c me booted k p lo (S (t + m)) s) as (l & r & E & Hnum); [done|lia|lia|done|done|].
  assert (forall i, (f <= i)%nat -> rests_of (upd l r s) !! i = rests_of s !! i) as Hlater.
  { intros i Hi. unfold rests_of, upd. cbn. by rewrite Hnum, bool_decide_eq_false_2 by lia. }
  rewrite E, <- Eb. destruct (failed_dropped me c f (S p) k u Hcf Hk t m booted (upd l r s)) as (s' & E' & (A & _ & Hm & Hl & _) & C' & T').
  - exact Hn.
  - exact Hc.
  - intros i Hi. destruct (Hdown i Hi) as (x & d & a & Hx & Hd & ?). exists x, d, a. split; [exact Hx|]. split; [|done].
    rewrite Hlater by lia. exact Hd.
  - intros i Hi. destruct (Hwait i Hi) as (x & d & Hx & Hd & ?). exists x, d. split; [exact Hx|]. split; [|done].
    rewrite Hlater by lia. exact Hd.
  - done.
  - done.
  - exists s'. rewrite E', Eb. split; [done|]. split; [done|]. split; [|split; [|split; [|done]]].
    + intros j. destruct (decide (j < f)%nat) as [Hj|Hj].
      * rewrite !lookup_take_lt by done. destruct (A j Hj) as [-> _]. apply Hnum.
      * rewrite !lookup_take_ge by lia. by destruct (bool_decide _).
    + apply list_eq. intros j. destruct (decide (j < f)%nat) as [Hj|Hj].
      * rewrite !lookup_take_lt by done. apply (A j Hj).
      * by rewrite !lookup_take_ge by lia.
    + intros i Hi. apply (taken_before _ (upd l r s)); [done|by rewrite Hlater by lia|by apply T'].
Qed.

(** The start-up vector is the page of the core's copy of the trampoline when the range
    starts at its default. *)
Theorem vector_finds_copy booted i : 0 <= booted <= i -> 0 < trampoline_bytes -> 0x1000 + trampoline_size * (i - booted) < 2 ^ 20 ->
  trampoline_bytes < 2 ^ 20 ->
  sipi_vector booted i * 4096 = u64 (0x1000 + u64 (trampoline_size * u64 (i - booted))).
Proof.
  intros Hi Ht Hlt Hb. assert (exists q, trampoline_size = 4096 * q /\ 0 < q) as (q & Eq & Hq).
  { exists ((trampoline_bytes + 4095) / 4096). unfold trampoline_size. rewrite u64_id by (split; lia).
    change 4095 with (2 ^ 12 - 1) at 2. rewrite land_mask_down by (try split; lia). change (2 ^ 12) with 4096.
    pose proof (Z.div_mod (trampoline_bytes + 4095) 4096 ltac:(lia)). split; [lia|]. apply Z.div_str_pos. lia. }
  rewrite (u64_id (i - booted)) by (split; nia). rewrite (u64_id (trampoline_size * _)) by (split; nia). rewrite u64_id by (split; nia).
  unfold sipi_vector. rewrite (u64_id (i - booted)) by (split; nia). rewrite (u64_id (trampoline_size * _)) by (split; nia). rewrite u64_id by (split; nia).
  rewrite Z.shiftr_div_pow2, Eq by lia. change (2 ^ 12) with 4096. replace (0x1000 + 4096 * q * (i - booted)) with ((1 + q * (i - booted)) * 4096) by lia.
  rewrite Z.div_mul by lia. unfold u8, wrapu. rewrite Z.mod_small by nia. lia.
Qed.

(** With no room for a trampoline below the first megabyte the rounds never end. *)
Lemma no_room_never_ends n p base s : 0 < core_count (b_machine s) -> rounds n p base 0 0 s = Err NoFuel.
Proof.
  intros Hc. induction n as [|n IH]; [done|]. cbn [rounds]. erewrite bind_Ok by apply count_ok. rewrite (proj2 (Z.ltb_lt _ _)) by lia.
  assert (forall g b, for_others (S g) 0 (Some (u64 (0 + 0))) b s = Ok (tt, s)) as Hf.
  { intros g b. cbn [for_others]. erewrite bind_Ok by apply count_ok. done. }
  do 3 erewrite bind_Ok by apply Hf. cbn [check_round]. rewrite bind_assoc. erewrite bind_Ok by apply count_ok. exact IH.
Qed.
End boot.

(** ** Witnesses and limits *)

(** Cores with their flags at these addresses; the last byte of an address is what the
    flag there says. *)
Definition core_at (apic : Z) : Acpi.core := Acpi.mkCore true false apic apic 0 0.
Definition rest_at (a : Z) (accessed : bool) : core_rest := mkCoreRest (2 ^ 32 - 1) (Some a) [] 0 tss_zero accessed HwTimers.new_lapic_timer 0.
Definition says (_ : nat) (a : Z) : Z := a mod 16.
Definition boot_with (l : list (Z * bool)) : booting :=
  mkBooting (mkMachine memory_many (Acpi.mkAcpi None None (imap (fun i _ => core_at (Z.of_nat i)) l)) ((fun x => rest_at x.1 x.2) <$> l)
    (Z.of_nat (length l)) (mkLapic 0xfee00000 false []) [] 0 (Some 0%nat) true (Some 0%nat) (Some 0%nat)) [] 0.
(** A round of the first three places: one core comes up, one does not, two wait. *)
Definition one_down : booting := boot_with [(0x1000, true); (0x2002, true); (0x3000, false); (0x4001, false); (0x5001, false)].

Ltac core_case := eexists _, _, _; repeat split; try reflexivity; done.
Lemma round_keeps_started_witness :
  exists s', check_round says 9 1 0 0 3 one_down = Ok (u64 (-1), s') /\
    core_count (b_machine s') = 4 /\ numbered 0 0 2 (take 2 (rests_of one_down)) (take 2 (rests_of s')) /\
    take 2 (cores_of s') = take 2 (cores_of one_down) /\ (forall i, (i < 2)%nat -> taken one_down (2 + 1 + i) s' (2 + i)) /\
    m_memory (b_machine s') = memory_many /\ m_lapic (b_machine s') = mkLapic 0xfee00000 false [].
Proof.
  apply (round_keeps_started says one_down 0 2 1 2 0 9 0 0 0 3); [lia|lia|reflexivity|lia|lia|cbn; lia|by right|lia| | | |].
  - split; [done|]. by eexists.
  - intros [|[|j]] Hj; [left; by split|right; core_case|lia].
  - intros [|[|[|j]]] Hj; [lia|lia|core_case|lia].
  - intros [|[|[|[|[|j]]]]] Hj; [lia|lia|lia| | |lia]; eexists _, _; by repeat split.
Defined.
(** The numbers of the controllers of the cores that are left. *)
Example one_down_run : outcome (fun b s' => (b, take 4 (Acpi._apic_id <$> cores_of s'), take 4 (_boot_flag <$> rests_of s')))
    (check_round says 9 1 0 0 3 one_down)
  = Some (2 ^ 64 - 1, [0; 1; 3; 4], [Some 0x1000; Some 0x2002; Some 0x4001; Some 0x5001]).
Proof. by vm_compute. Qed.

(** A core that came up after one that did not: with another one behind it the first
    core stops; as the last one it is counted at a place whose object it does not use. *)
Example started_after_failed :
  check_round says 9 1 0 0 159 (boot_with [(0x1000, true); (0x2000, false); (0x3002, true); (0x4002, true)])
    = Err (Panic "tried to reinit an already accessed core object!").
Proof. by vm_compute. Qed.
Example started_last : outcome (fun b s' => (b, core_count (b_machine s'), _id <$> rests_of s', _accessed <$> rests_of s'))
    (check_round says 9 1 0 0 159 (boot_with [(0x1000, true); (0x2000, false); (0x3002, true)]))
  = Some (2 ^ 64 - 1, 2, [2 ^ 32 - 1; 1; 2 ^ 32 - 1], [true; false; true]).
Proof. by vm_compute. Qed.

(** With the range starting elsewhere the vector is not the page of the copy. *)
Example vector_elsewhere : sipi_vector 200 0 1 = 2 /\ u64 (0x8000 + u64 (trampoline_size 200 * u64 (1 - 0))) = 0x9000.
Proof. by vm_compute. Qed.

(** The kernel stack of a prepared core starts at the bottom of its stack, the guard
    page; the stack it is started on is at the top. *)
Example prepared_stack : outcome (fun _ s' => (b_slots s' !! 2%nat, rsp0 ∘ _tss <$> rests_of s' !! 1%nat)) (prepare 200 8 16 24 0x1000 0 1 0 one_down)
  = Some (Some (StackSlot 0x2010 0xffffffff7ffff000), Some 0xffffffff7ffdf000).
Proof. by vm_compute. Qed.
