(* ===== verification/KernelMain.v ===== *)
(** * The first process: kernel/main.cpp

    The end of [kernel_main] makes the address space of the first process, its
    mailboxes and the messages it starts with, and a kernel thread that takes over the
    logs of the first processes.  Text the kernel prints on the way is left out. *)
From S2P Require Import Prelude AvlTree AvlSpec AvlRep AvlTheorems Pmm PageTable PageTheorems Vmo Vas VasTheorems Syscalls.
From S2P Require Ipc IpcTheorems.
From S2P Require Import Contexts.
Import Ipc (T_kernel_caps, T_process, T_vas, T_vmo, T_mailbox, QHandle, QUser, mkHandle, mkMailbox, mkProcess, mkKernel).

(** bootinit/addresses.h *)
Module addresses.
Definition ip : Z := 0x1000000.
Definition vdso : Z := 0xa000000.
Definition initrd : Z := 0x10000000.
Definition top_of_stack : Z := 0x80000000.
End addresses.

(** Where the parts of the kernel's image are, and the archive the loader left. *)
Record image : Type := mkImage {
  begin_vdso : Z; end_vdso : Z; begin_bootinit : Z; end_bootinit : Z;
  initrd_base : Z; initrd_size : Z; kernel_caps : Z; log_acceptor_entry : Z; log_handler_entry : Z
}.

(** The state with the register contexts of the threads that have not run yet. *)
Record starting (S : Type) : Type := mkStarting { s_whole : whole S; contexts : gmap Z thread.thread_context }.
Arguments mkStarting {S} _ _.
Arguments s_whole {S} _.
Arguments contexts {S} _.

Section main.
Context {ET : ElementTree} {S : Type} {SO : Ipc.SchedulerOps S} {PM : Ipc.Permissions} (clock : nat -> Z) (perm_create_mapping : Z) (I : image).
Abbreviation KM := (M (Ipc.kernel S)).
Abbreviation SM := (M (starting S)).

Definition on_whole {A} (m : M (whole S) A) : SM A := fun s =>
  match m (s_whole s) with Ok (a, w) => Ok (a, mkStarting w (contexts s)) | Err e => Err e end.
Definition in_memory {A} (m : M memory A) : SM A := on_whole (on_memory m).
Definition in_kernel {A} (m : KM A) : SM A := on_whole (on_kernel m).

(** [scheduler::create_process] *)
Definition create_process (vas : Z) : SM Z :=
  let* c := in_memory (claim_vas vas) in
  if negb c then ret 0 else
  in_kernel (let* p := Ipc.allocate in Ipc.put_process p (mkProcess false vas ∅) ;; ret p).
(** A thread with its new context. *)
Definition create_thread (process : Z) : SM Z :=
  let* t := in_kernel (Ipc.create_thread clock process) in
  modify (fun s => mkStarting (s_whole s) (<[t := thread.new_thread_context]> (contexts s))) ;;
  ret t.
Definition on_context (t : Z) (f : thread.thread_context -> res thread.thread_context) : SM unit := fun s =>
  match contexts s !! t with
  | None => Err Fault
  | Some c => match f c with Ok c' => Ok (tt, mkStarting (s_whole s) (<[t := c']> (contexts s))) | Err e => Err e end
  end.
Definition set_argument (t idx value : Z) : SM unit := on_context t (thread.set_argument idx value).

(** ** The address space of the first process *)

Definition stack_pages : Z := 31 * 4096.
(** [create_sparse_vmo] with [commit_all], mapped. *)
Definition map_new_stack (vas base fl : Z) : M memory Z :=
  let* v := make_vmo (create_sparse_vmo stack_pages 0) in
  commit_object v ;;
  map_vmo vas v base fl.

(** The address space, the process, its first thread, and what the variable
    [initrd_vmo] holds in the end: it was moved from. *)
Definition prepare_process : SM (Z * Z * Z * Z) :=
  let* vdso_phys := in_memory (on_pages (virt_to_phys None (begin_vdso I))) in
  let* vdso_vmo := in_memory (make_vmo (create_physical_vmo vdso_phys (end_vdso I - begin_vdso I) 0)) in
  in_memory (set_vdso_vmo vdso_vmo) ;;
  let* bootinit_vas := in_memory (create_vas false) in
  let* bootinit_process := create_process bootinit_vas in
  let* bootinit_thread := create_thread bootinit_process in
  let* code_phys := in_memory (on_pages (virt_to_phys None (begin_bootinit I))) in
  let* bootinit_code_vmo := in_memory (make_vmo (create_physical_vmo code_phys (end_bootinit I - begin_bootinit I) 0)) in
  let* _ := in_memory (map_vmo bootinit_vas bootinit_code_vmo addresses.ip flags_user) in
  let* _ := in_memory (map_vmo bootinit_vas vdso_vmo addresses.vdso flags_user) in
  let* initrd_vmo := in_memory (make_vmo (create_physical_vmo (initrd_base I) (initrd_size I) 0)) in
  let* _ := in_memory (map_vmo bootinit_vas initrd_vmo addresses.initrd flags_user) in
  let initrd_vmo := 0 in
  let* _ := in_memory (map_new_stack bootinit_vas (addresses.top_of_stack - stack_pages) flags_user) in
  ret (bootinit_vas, bootinit_process, bootinit_thread, initrd_vmo).

(** ** The messages *)

(** The first mailbox of the process and the mailbox of the log acceptor. *)
Definition prepare_mailboxes (vas process initrd_vmo : Z) : KM (Z * Z) :=
  let* bootinit_mailbox := Ipc.create_mailbox in
  let* log_accept_mailbox := Ipc.create_mailbox in
  let* lab_handle := Ipc.create_handle T_mailbox log_accept_mailbox (Z.lor Ipc.perm_write Ipc.perm_transfer) in
  Ipc.send_handle bootinit_mailbox lab_handle ;;
  let* h := Ipc.create_handle T_process process Ipc.perm_all in
  Ipc.send_handle log_accept_mailbox h ;;
  let* h := Ipc.create_handle T_kernel_caps (kernel_caps I) Ipc.perm_all in
  Ipc.send_handle bootinit_mailbox h ;;
  let* h := Ipc.create_handle T_vmo initrd_vmo Ipc.perm_all in
  Ipc.send_handle bootinit_mailbox h ;;
  Ipc.send_user bootinit_mailbox (initrd_size I) (end_vdso I - begin_vdso I) ;;
  let* h := Ipc.create_handle T_vas vas perm_create_mapping in
  Ipc.send_handle bootinit_mailbox h ;;
  ret (bootinit_mailbox, log_accept_mailbox).

(** A mailbox under a token of a process. *)
Definition give_mailbox (process mailbox perms : Z) : KM Z :=
  let* h := Ipc.create_handle T_mailbox mailbox perms in
  Ipc.register_for_token clock process h.

(** ** The threads *)

Definition prepare_bootinit_context (process bootinit_thread bootinit_mailbox : Z) : SM unit :=
  let* bm_handle := in_kernel (Ipc.create_handle T_mailbox bootinit_mailbox Ipc.perm_read) in
  on_context bootinit_thread (fun c => Ok (thread.set_userspace c)) ;;
  on_context bootinit_thread (fun c => Ok (thread.set_instruction_pointer addresses.ip c)) ;;
  on_context bootinit_thread (fun c => Ok (thread.set_stack_pointer addresses.top_of_stack c)) ;;
  let* token := in_kernel (Ipc.register_for_token clock process bm_handle) in
  set_argument bootinit_thread 0 token.

(** A kernel thread on a stack of its own: the thread, and the mapping of the stack. *)
Definition kernel_thread (process vas entry : Z) : SM (Z * Z) :=
  let* stack_addr := in_memory (allocate_address_range (32 * 4096)) in
  let* mapping := in_memory (map_new_stack vas (u64 (stack_addr + 4096)) flags_none) in
  let* t := create_thread process in
  on_context t (fun c => Ok (thread.set_instruction_pointer entry c)) ;;
  on_context t (fun c => Ok (thread.set_stack_pointer (u64 (stack_addr + 32 * 4096 - 8)) c)) ;;
  ret (t, mapping).

Definition prepare_log_acceptor (kernel_process kernel_vas log_accept_mailbox : Z) : SM Z :=
  let* (t, mapping) := kernel_thread kernel_process kernel_vas (log_acceptor_entry I) in
  let* token := in_kernel (give_mailbox kernel_process log_accept_mailbox Ipc.perm_read) in
  set_argument t 0 token ;;
  set_argument t 1 mapping ;;
  ret t.

(** The body of the function [kernel_main] ends with. *)
Definition start_bootinit (kernel_process kernel_vas : Z) : SM unit :=
  let* r := prepare_process in
  let '(vas, process, bootinit_thread, initrd_vmo) := r in
  let* (bootinit_mailbox, log_accept_mailbox) := in_kernel (prepare_mailboxes vas process initrd_vmo) in
  prepare_bootinit_context process bootinit_thread bootinit_mailbox ;;
  let* log_acceptor_thread := prepare_log_acceptor kernel_process kernel_vas log_accept_mailbox in
  in_kernel (Ipc.on_sched (Ipc.so_schedule log_acceptor_thread)) ;;
  in_kernel (Ipc.on_sched (Ipc.so_schedule bootinit_thread)).

(** ** The log acceptor *)

(** A system call with a token: the checks of the generated code, of the token, of the
    type of its handle and of the permission, before the handler. *)
Definition with_token {A} (token : Z) (type : Ipc.handle_type) (perm : Z) (refuse : Ipc.result -> A) (f : Z -> KM A) : KM A :=
  let* c := Ipc.container in
  let* h := Ipc.get_handle c token in
  match h with
  | None => ret (refuse Ipc.invalid_token)
  | Some h =>
      if negb (Ipc.is_a type h) then ret (refuse Ipc.wrong_handle_type) else
      if negb (Ipc.has_permissions h perm) then ret (refuse Ipc.not_allowed) else f (Ipc._payload h)
  end.
(** The threads of the kernel read into a message of zeroes ([msg{}]). *)
Definition rose_mailbox_read (token timeout : Z) : KM (option (Ipc.result * option Ipc.mailbox_message)) :=
  with_token token T_mailbox Ipc.perm_read (fun r => Some (r, None)) (fun b => Ipc.syscall_rose_mailbox_read_handler clock b timeout (Ipc.mkMessage 0 0 0)).
Definition rose_mailbox_write (token : Z) (m : Ipc.mailbox_message) : KM Ipc.result :=
  with_token token T_mailbox Ipc.perm_write id (fun b => Ipc.syscall_rose_mailbox_write_handler b m).

(** [read_valid_token]; a read that blocks ends the step and runs again later. *)
Definition read_valid_token (accept_mailbox kernel_process : Z) : KM (option Ipc.handle) :=
  let* r := rose_mailbox_read accept_mailbox 0 in
  match r with
  | None => ret None
  | Some (Ipc.ok, Some msg) =>
      if negb (Ipc.m_type msg =? Ipc.type_handle_token) then panic "wrong message type in the log acceptor mailbox" else
      let* h := Ipc.get_handle kernel_process (Ipc.data0 msg) in
      match h with
      | None => panic "invalid handle token received from the log acceptor mailbox"
      | Some h => ret (Some h)
      end
  | Some _ => panic "failed to read a message from the log acceptor mailbox: {}"
  end.

(** What the acceptor has of the next process so far. *)
Inductive accepting : Type := WantProcess | WantLog (process : Z) | WantAck (process log : Z).
Inductive accepted : Type := Blocked | Got (next : accepting) | Ready (process log ack : Z).

(** One turn of the loop of [log_acceptor] up to the next message. *)
Definition accept_step (accept_mailbox kernel_process : Z) (a : accepting) : KM accepted :=
  let* h := read_valid_token accept_mailbox kernel_process in
  match h with
  | None => ret Blocked
  | Some h =>
      if negb (Ipc.is_a (match a with WantProcess => T_process | _ => T_mailbox end) h)
      then panic "wrong handle type received from the log acceptor mailbox" else
      ret (match a with
           | WantProcess => Got (WantLog (Ipc._payload h))
           | WantLog p => Got (WantAck p (Ipc._payload h))
           | WantAck p l => Ready p l (Ipc._payload h)
           end)
  end.

(** The thread that prints the log of a process. *)
Definition start_log_handler (process log ack process_tag : Z) : SM unit :=
  let* x := in_kernel (Ipc.get_process process) in
  let* (t, mapping) := kernel_thread process (Ipc._address_space x) (log_handler_entry I) in
  let* log_token := in_kernel (give_mailbox process log Ipc.perm_read) in
  set_argument t 0 log_token ;;
  let* ack_token := in_kernel (give_mailbox process ack Ipc.perm_write) in
  set_argument t 1 ack_token ;;
  set_argument t 2 process_tag ;;
  set_argument t 3 process ;;
  set_argument t 4 mapping ;;
  in_kernel (Ipc.on_sched (Ipc.so_schedule t)).

(** [log_acceptor] until it blocks: the tags of the processes it has not served yet,
    and what it has of the next one.  A turn of the loop takes at most three messages
    and a read that blocks, so [fuel] bounds the messages it takes. *)
Fixpoint log_acceptor (fuel : nat) (accept_mailbox kernel_process : Z) (process_tags : list Z) (a : accepting) : SM (list Z * accepting) :=
  match process_tags with
  | [] =>
      let* _ := in_kernel (Ipc.syscall_rose_token_release_handler accept_mailbox) in
      panic "implement thread termination"
  | process_tag :: tags =>
      match fuel with
      | O => fail NoFuel
      | Datatypes.S n =>
          let* r := in_kernel (accept_step accept_mailbox kernel_process a) in
          match r with
          | Blocked => ret (process_tags, a)
          | Got a' => log_acceptor n accept_mailbox kernel_process process_tags a'
          | Ready process log ack =>
              start_log_handler process log ack process_tag ;;
              log_acceptor n accept_mailbox kernel_process tags WantProcess
          end
      end
  end.
End main.

(** ** What the first process finds *)

Section theorems.
Context {S : Type} {SO : Ipc.SchedulerOps S} {PM : Ipc.Permissions} (perm_create_mapping : Z) (I : image).
Implicit Types (k : Ipc.kernel S) (x : Ipc.process).

(** The messages of the first mailbox, with the addresses of their handles. *)
Definition first_messages (a vas process initrd_vmo : Z) : list Ipc.queued :=
  [QHandle (mkHandle (a + 128) T_mailbox (a + 64) (Z.lor Ipc.perm_write Ipc.perm_transfer));
   QHandle (mkHandle (a + 256) T_kernel_caps (kernel_caps I) Ipc.perm_all);
   QHandle (mkHandle (a + 320) T_vmo initrd_vmo Ipc.perm_all);
   QUser (initrd_size I) (end_vdso I - begin_vdso I);
   QHandle (mkHandle (a + 384) T_vas vas perm_create_mapping)].

Lemma prepare_mailboxes_ok k vas process initrd_vmo : let a := Ipc.next_address k in
  prepare_mailboxes perm_create_mapping I vas process initrd_vmo k =
    Ok ((a, a + 64), mkKernel (Ipc.procs k)
      (<[a := mkMailbox (first_messages a vas process initrd_vmo) []]>
         (<[a + 64 := mkMailbox [QHandle (mkHandle (a + 192) T_process process Ipc.perm_all)] []]> (Ipc.boxes k)))
      (Ipc.vases k) (Ipc.sched k) (Ipc.ticks k) (a + 448) (Ipc.started k)).
Proof using Type.
  intros a. destruct k as [procs boxes vases sched ticks next st]. cbn in a. subst a.
  assert (next <> next + 64) as Hne by lia.
  unfold prepare_mailboxes, Ipc.create_mailbox, Ipc.create_handle, Ipc.send_handle, Ipc.send_user, Ipc._push, Ipc.push_message, Ipc.wake_one,
    Ipc.get_mailbox, Ipc.put_mailbox, Ipc.allocate, bind, modify, ret, Ipc.set_boxes.
  cbn. rewrite ?lookup_insert_eq. cbn.
  repeat (first [rewrite lookup_insert_eq | rewrite lookup_insert_ne by lia]; cbn).
  unfold first_messages. do 3 f_equal.
  all: rewrite <- ?Z.add_assoc; cbn; try done.
  apply map_eq. intros i. destruct (decide (i = next)) as [->|]; [by rewrite !lookup_insert_eq|].
  destruct (decide (i = next + 64)) as [->|].
  all: repeat (first [rewrite lookup_insert_eq | rewrite lookup_insert_ne by lia]); try done.
Qed.
End theorems.
