(* ===== verification/Bootinit.v ===== *)
(** * The first process: kernel/bootinit/main.cpp and print.cpp

    The first program reads what the kernel has sent it, opens the archive it was
    given and starts the first service from it with [Loader]; it prints through a
    buffer whose address it sends to the kernel.  System calls are those of
    [Loader.Syscalls]; the kernel's side of them is the instance [kernel_calls]. *)
From S2P Require Import Prelude AvlTree AvlSpec Vas Vmo Syscalls.
From S2P Require Ipc IpcTheorems.
From S2P Require Import Text Bytes Cpio Loader KernelMain.
Import Ipc (ok, mkMessage, type_handle_token, type_user, m_type, data0, data1, mkHandle, T_kernel_caps, T_process, T_vas, T_vmo, T_vmo_mapping, T_mailbox, QHandle, QUser, mkMailbox).

(** ** The printer *)

(** The tokens and the cursor of print.cpp, and the memory of the process. *)
Record printer (W : Type) : Type := mkPrinter {
  p_world : W;
  logging_send_mailbox_token : Z;
  logging_ack_mailbox_token : Z;
  log_buffer : bytes;
  log_cursor : option nat
}.
Arguments mkPrinter {W} _ _ _ _ _.
Arguments p_world {W} _.
Arguments logging_send_mailbox_token {W} _.
Arguments logging_ack_mailbox_token {W} _.
Arguments log_buffer {W} _.
Arguments log_cursor {W} _.

(** A system call that looks at the memory of the process takes the buffer. *)
Class LogCalls (W : Type) : Type := {
  log_write : Z -> Ipc.mailbox_message -> bytes -> M W Ipc.result;
  log_read : Z -> Z -> bytes -> M W Ipc.result
}.

Section print.
Context {W : Type} {LC : LogCalls W} (buffer_address : Z).
Abbreviation PM := (M (printer W)).

Definition buffer_size : nat := 4096.
Definition on_world {A} (m : M W A) : PM A := fun s =>
  match m (p_world s) with
  | Ok (a, w) => Ok (a, mkPrinter w (logging_send_mailbox_token s) (logging_ack_mailbox_token s) (log_buffer s) (log_cursor s))
  | Err e => Err e
  end.
Definition set_cursor (c : option nat) : PM unit := modify (fun s =>
  mkPrinter (p_world s) (logging_send_mailbox_token s) (logging_ack_mailbox_token s) (log_buffer s) c).

(** [flush]; a pointer that was not set is null. *)
Definition flush : PM unit :=
  let* s := gets id in
  let length := match log_cursor s with Some c => Z.of_nat c | None => u64 (- buffer_address) end in
  let* r := on_world (log_write (logging_send_mailbox_token s) (mkMessage type_user buffer_address length) (log_buffer s)) in
  if negb (bool_decide (r = ok)) then fail Fault else
  let* r := on_world (log_read (logging_ack_mailbox_token s) 0 (log_buffer s)) in
  if negb (bool_decide (r = ok)) then fail Fault else
  set_cursor (Some 0%nat).

(** [proxy::operator=]; a write past the buffer does not happen in a run that stays
    in bounds. *)
Definition put_char (ch : Z) : PM unit :=
  let* s := gets id in
  let c := default 0%nat (log_cursor s) in
  if (buffer_size <=? c)%nat then fail Fault else
  modify (fun s => mkPrinter (p_world s) (logging_send_mailbox_token s) (logging_ack_mailbox_token s) (<[c := ch]> (log_buffer s)) (Some (S c))) ;;
  if (S c =? buffer_size)%nat then flush else ret tt.
Fixpoint put_text (l : bytes) : PM unit :=
  match l with [] => ret tt | ch :: l' => put_char ch ;; put_text l' end.

(** [println] of the text its format gives *)
Definition println (l : bytes) : PM unit :=
  let* s := gets id in
  if logging_send_mailbox_token s =? 0 then fail Fault else
  put_text l ;;
  put_char 10 ;;
  flush.
End print.

(** ** The program *)

Section main.
Context {W : Type} {SC : Syscalls W} (print : string -> list Z -> M W unit).
Abbreviation WM := (M W).

Definition expect (r : Ipc.result) (m : WM unit) : WM unit := if decide (r = ok) then ret tt else m.

(** [kernel_print::initialize]: the tokens of the log mailbox and of the mailbox for
    its acknowledgements. *)
Definition print_initialize (acceptor_mailbox_token : Z) : WM (Z * Z) :=
  let* (res, send_token) := rose_mailbox_create in
  let (r, log_read_token) := (res : Ipc.result * Z) in
  expect r (fail Fault) ;;
  let* (res, ack_write_token) := rose_mailbox_create in
  let (r, ack_token) := (res : Ipc.result * Z) in
  expect r (fail Fault) ;;
  let* r := Loader.rose_mailbox_write acceptor_mailbox_token (handle_message log_read_token) in
  expect r (fail Fault) ;;
  let* r := Loader.rose_mailbox_write acceptor_mailbox_token (handle_message ack_write_token) in
  expect r (fail Fault) ;;
  ret (send_token, ack_token).

(** [bootinit::facts], with the size of the archive *)
Record received : Type := mkReceived {
  acceptor_mailbox_token : Z;
  kernel_caps_token : Z;
  initrd_vmo : Z;
  initrd_size : Z;
  vdso_size : Z;
  self_vas_token : Z
}.

(** Reading one of the messages. *)
Definition read_message (mailbox timeout type : Z) (failed wrong : WM unit) : WM Ipc.mailbox_message :=
  let* (r, m) := Loader.rose_mailbox_read mailbox timeout in
  expect r failed ;;
  (if m_type m =? type then ret tt else wrong) ;;
  ret m.
Definition no_wait : Z := u64 (-1).

(** The first part of [bootinit_main], up to the archive. *)
Definition receive (mailbox_token : Z) : WM (received * (Z * Z)) :=
  let* m := read_message mailbox_token 0 type_handle_token (fail Fault) (fail Fault) in
  let acceptor := data0 m in
  let* log := print_initialize acceptor in
  print "Receiving initial handle tokens..." [] ;;
  let* m := read_message mailbox_token no_wait type_handle_token
    (panic "Failed to read kernel caps token!") (panic "Received wrong mailbox message type for kernel caps token!") in
  let caps := data0 m in
  print " > Kernel caps token received." [] ;;
  let* m := read_message mailbox_token no_wait type_handle_token
    (panic "Failed to read initrd VMO token!") (panic "Received wrong mailbox message type for initrd VMO token!") in
  let vmo := data0 m in
  print " > Initrd VMO token received." [] ;;
  let* m := read_message mailbox_token no_wait type_user
    (panic "Failed to read file sizes!") (panic "Received wrong mailbox message type for file sizes!") in
  let initrd_size := data0 m in
  let vdso_size := data1 m in
  print " > Initrd size: {} bytes." [initrd_size] ;;
  let* m := read_message mailbox_token no_wait type_handle_token
    (panic "Failed to read bootinit VAS token!") (panic "Received wrong mailbox message type for bootinit VAS token!") in
  ret (mkReceived acceptor caps vmo initrd_size vdso_size (data0 m), log).

(** [bootinit_main], up to its last loop.  The bytes of the archive and of the vdso
    are the memory at their addresses. *)
Definition bootinit_main (mailbox_token : Z) (archive_bytes vdso_bytes : bytes) (fuel : nat) (root : Z)
    (uninitialised : Z -> Z) (sizeof_segment sizeof_dependency : Z) : M (boot W) unit :=
  let* (facts, _) := sys (receive mailbox_token) in
  sys (print "Parsing initrd image..." []) ;;
  let* result := lift (try_cpio archive_bytes 0 (initrd_size facts)) in
  match archive result with
  | None => panic "The initrd image is not a valid cpio archive! Reason: {}, header offset: {}."
  | Some a =>
      sys (print " > Number of regular files in initrd: {}." [cpio_size a]) ;;
      sys (print "Creating logger process..." []) ;;
      let F := mkFacts (kernel_caps_token facts) (self_vas_token facts) vdso_bytes archive_bytes a uninitialised sizeof_segment sizeof_dependency in
      let* logger := Loader.create_process F fuel root (text "system/logger.srv") in
      let* r := sys (Loader.rose_mailbox_write (acceptor_mailbox_token facts) (handle_message (process_token logger))) in
      expect_ok r "failed to send the logger process token to the log acceptor!" ;;
      let* r := sys (Loader.rose_mailbox_write (protocol_mailbox_token logger) (handle_message (acceptor_mailbox_token facts))) in
      expect_ok r "failed to send the log acceptor token! {}"
  end.
End main.

(** ** The system calls of the kernel *)

Section calls.
Context {ET : ElementTree} {S : Type} {SO : Ipc.SchedulerOps S} {PM : Ipc.Permissions} (clock : nat -> Z)
  (perm_create_vas perm_create_process perm_map perm_create_mapping : Z).
Abbreviation KM := (M (Ipc.kernel S)).

(** A call with two tokens, and one that goes on in the rest of the kernel: the
    payloads of the tokens, or why they are refused. *)
Definition check_token (token : Z) (type : Ipc.handle_type) (perm : Z) : KM (Ipc.result + Z) :=
  with_token token type perm inl (fun p => ret (inr p)).

(** The handlers in the whole kernel; a call that blocks does not come back as long as
    no other thread runs. *)
Definition kernel_process_create (vas : Z) : M (whole S) (Ipc.result * Z) :=
  let* c := on_memory (claim_vas vas) in
  if negb c then ret (Ipc.invalid_arguments, 0) else
  on_kernel (let* p := Ipc.allocate in
    Ipc.put_process p (Ipc.mkProcess false vas ∅) ;;
    let* h := Ipc.create_handle T_process p (Z.lor (Z.lor (Z.lor Ipc.perm_read Ipc.perm_write) Ipc.perm_transfer) Ipc.perm_clone) in
    let* c := Ipc.container in
    let* token := Ipc.register_for_token clock c h in
    ret (ok, token)).
Definition kernel_mailbox_read (token timeout : Z) : KM (Ipc.result * Ipc.mailbox_message) :=
  let* r := KernelMain.rose_mailbox_read clock token timeout in
  match r with
  | None => fail Deadlock
  | Some (r, m) => ret (r, default (mkMessage 0 0 0) m)
  end.

#[export] Instance kernel_calls : Syscalls (whole S) := {
  Loader.rose_vmo_create size flags := syscall_rose_vmo_create_handler clock size flags;
  Loader.rose_mapping_create vas vmo address flags :=
    let* v := on_kernel (check_token vas T_vas perm_create_mapping) in
    match v with
    | inl r => ret (r, 0)
    | inr v =>
        let* o := on_kernel (check_token vmo T_vmo perm_map) in
        match o with inl r => ret (r, 0) | inr o => syscall_rose_mapping_create_handler clock v o address flags end
    end;
  Loader.rose_token_release token := on_kernel (Ipc.syscall_rose_token_release_handler token);
  Loader.rose_vas_create caps :=
    let* c := on_kernel (check_token caps T_kernel_caps perm_create_vas) in
    match c with
    | inl r => ret (r, 0, (0, 0))
    | inr _ => let* (r, info) := syscall_rose_vas_create_handler clock perm_create_mapping true in ret (r, default (0, 0) info)
    end;
  Loader.rose_process_create caps vas :=
    let* c := on_kernel (check_token caps T_kernel_caps perm_create_process) in
    match c with
    | inl r => ret (r, 0)
    | inr _ =>
        let* v := on_kernel (check_token vas T_vas Ipc.perm_write) in
        match v with inl r => ret (r, 0) | inr v => kernel_process_create v end
    end;
  Loader.rose_process_start process entrypoint top token :=
    on_kernel (with_token process T_process Ipc.perm_write id (fun p => Ipc.syscall_rose_process_start_handler clock p entrypoint top token));
  Loader.rose_mailbox_create := on_kernel (Ipc.syscall_rose_mailbox_create_handler clock);
  Loader.rose_mailbox_write token m := on_kernel (KernelMain.rose_mailbox_write token m);
  Loader.rose_mailbox_read token timeout := on_kernel (kernel_mailbox_read token timeout)
}.
End calls.
