(* ===== verification/BootTheorems.v ===== *)
(** * What the first process and the kernel agree on

    The messages [KernelMain] sends, the first program of [Bootinit] that reads them,
    and the log acceptor of the kernel: the three put together. *)
From S2P Require Import Prelude AvlTree AvlSpec Vas Vmo Syscalls.
From S2P Require Import Ipc IpcTheorems.
From S2P Require Import Text Bytes Cpio Loader KernelMain Bootinit CpuSetup.

Section handshake.
Context {ET : ElementTree} {S : Type} {SO : SchedulerOps S} {PM : Permissions} (clock : nat -> Z)
  (perm_create_vas perm_create_process perm_map perm_create_mapping : Z).
Implicit Types (k : kernel S) (h : handle) (hs : gmap Z handle).

(** ** The view of one process *)

(** The process [P] runs and holds [hs], of which there are at most [c]; two mailboxes
    hold [qb] and [ql]; the other processes are [R]; objects are made above [lam]. *)
Record view (P bm lam : Z) (started : bool) (space : Z) (R : gmap Z process) k hs (c : nat) (qb ql : list queued) (ws : list Z) : Prop := {
  v_runs : so_container (sched k) = P;
  v_process : procs k !! P = Some (mkProcess started space hs);
  v_size : (size hs <= c)%nat;
  v_box : exists wb, boxes k !! bm = Some (mkMailbox qb wb);
  v_log : boxes k !! lam = Some (mkMailbox ql ws);
  v_order : bm < lam < next_address k;
  v_others : delete P (procs k) = R
}.

(** Waking a thread lets the current one run on. *)
Definition wakes : Prop := forall t (w : S), exists w', so_schedule t w = Ok (tt, w') /\ so_container w' = so_container w.
(** The clock does not show the same time twice in a short while. *)
Definition clock_runs : Prop := forall t, clock_moves clock t 32.

Context (Hwakes : wakes) (Hclock : clock_runs) (P bm lam : Z) (st : bool) (space : Z) (R : gmap Z process).
Abbreviation at_ := (view P bm lam st space R).

Lemma woken_some ws (w : S) : exists w', woken ws w w' /\ so_container w' = so_container w.
Proof using Hwakes. destruct ws as [|t ws]; [by exists w|]. destruct (Hwakes t w) as (w' & E & ?). by exists w'. Qed.
Lemma clock_enough t n : (n <= 32)%nat -> clock_moves clock t n.
Proof using Hclock. intros Hn i j Hij. apply Hclock. lia. Qed.

(** Registering a handle for the process. *)
Lemma view_register k hs c qb ql ws h : (c < 31)%nat -> at_ k hs c qb ql ws ->
  exists t k', register_for_token clock P h k = Ok (t, k') /\ hs !! t = None /\ next_address k' = next_address k /\
    boxes k' = boxes k /\ at_ k' (<[t := h]> hs) (Datatypes.S c) qb ql ws.
Proof using Hclock.
  intros Hc [Hr Hp Hs Hb Hl Ho HR].
  destruct (register_ok clock P h k _ Hp) as (t & n & E & Ht); [apply clock_enough; cbn; lia|].
  eexists t, _. split; [exact E|]. split; [done|]. do 2 (split; [done|]). split; cbn; try done.
  - by rewrite lookup_insert_eq.
  - rewrite map_size_insert_None by done. lia.
  - by rewrite delete_insert_eq.
Qed.

Lemma get_handle_ok k x token : procs k !! P = Some x -> get_handle P token k = Ok (_handles x !! token, k).
Proof using Type. intros Hx. unfold get_handle. by erewrite bind_Ok by (by apply get_process_ok). Qed.
Lemma with_token_ok {A} (refuse : result -> A) (f : Z -> M (kernel S) A) k hs c qb ql ws token h type perm :
  at_ k hs c qb ql ws -> hs !! token = Some h -> _type h = type -> has_permissions h perm = true ->
  with_token token type perm refuse f k = f (_payload h) k.
Proof using Type.
  intros V Hh Ht Hp. unfold with_token. erewrite bind_Ok by reflexivity. rewrite (v_runs _ _ _ _ _ _ _ _ _ _ _ _ V).
  erewrite bind_Ok by (apply get_handle_ok; exact (v_process _ _ _ _ _ _ _ _ _ _ _ _ V)). cbn [_handles]. rewrite Hh.
  unfold is_a. rewrite bool_decide_eq_true_2 by done. by rewrite Hp.
Qed.

(** Reading the first mailbox. *)
Lemma view_read k hs c q ql ws tb hb h timeout : (c < 31)%nat -> at_ k hs c (QHandle h :: q) ql ws ->
  hs !! tb = Some hb -> _type hb = T_mailbox -> _payload hb = bm -> has_permissions hb perm_read = true -> timeout = 0 \/ timeout = Ipc.no_wait ->
  exists t k', KernelMain.rose_mailbox_read clock tb timeout k = Ok (Some (ok, Some (mkMessage type_handle_token t 0)), k') /\ hs !! t = None /\
    at_ k' (<[t := h]> hs) (Datatypes.S c) q ql ws.
Proof using Hclock.
  intros Hc V Hh Ht Hpay Hp Hto. unfold KernelMain.rose_mailbox_read. erewrite with_token_ok by done. rewrite Hpay.
  destruct V as [Hr Hproc Hs [wb Hb] Hl Ho HR]. unfold syscall_rose_mailbox_read_handler. erewrite bind_Ok by (by apply get_mailbox_ok).
  replace (negb (timeout =? Ipc.no_wait) && negb (timeout =? 0)) with false by (by destruct Hto as [-> | ->]). cbn [_message_queue _waiting_threads].
  erewrite bind_Ok by reflexivity. erewrite bind_Ok by reflexivity. cbn [sched set_boxes]. rewrite Hr.
  destruct (view_register (set_boxes (<[bm := mkMailbox q wb]> (boxes k)) k) hs c q ql ws h Hc) as (t & k' & E & Hn & _ & _ & V').
  - split; cbn; try done; [exists wb; by rewrite lookup_insert_eq|rewrite lookup_insert_ne by lia; done].
  - exists t, k'. erewrite bind_Ok by exact E. done.
Qed.
Lemma view_read_handle k hs c q ql ws tb hb h timeout : (c < 31)%nat -> at_ k hs c (QHandle h :: q) ql ws ->
  hs !! tb = Some hb -> _type hb = T_mailbox -> _payload hb = bm -> has_permissions hb perm_read = true -> timeout = 0 \/ timeout = Ipc.no_wait ->
  exists t k', kernel_mailbox_read clock tb timeout k = Ok ((ok, mkMessage type_handle_token t 0), k') /\ hs !! t = None /\
    at_ k' (<[t := h]> hs) (Datatypes.S c) q ql ws.
Proof using Hclock.
  intros Hc V Hh Ht Hpay Hp Hto. destruct (view_read k hs c q ql ws tb hb h timeout) as (t & k' & E & Hn & V'); [done..|].
  exists t, k'. unfold kernel_mailbox_read. by erewrite bind_Ok by exact E.
Qed.
Lemma view_read_user k hs c q ql ws tb hb d0 d1 timeout : at_ k hs c (QUser d0 d1 :: q) ql ws ->
  hs !! tb = Some hb -> _type hb = T_mailbox -> _payload hb = bm -> has_permissions hb perm_read = true -> timeout = 0 \/ timeout = Ipc.no_wait ->
  exists k', kernel_mailbox_read clock tb timeout k = Ok ((ok, mkMessage type_user d0 d1), k') /\ at_ k' hs c q ql ws.
Proof using Type.
  intros V Hh Ht Hpay Hp Hto. unfold kernel_mailbox_read, KernelMain.rose_mailbox_read.
  pose proof V as [Hr Hproc Hs [wb Hb] Hl Ho HR]. exists (set_boxes (<[bm := mkMailbox q wb]> (boxes k)) k). split.
  - assert (syscall_rose_mailbox_read_handler clock bm timeout (mkMessage 0 0 0) k =
      Ok (Some (ok, Some (mkMessage type_user d0 d1)), set_boxes (<[bm := mkMailbox q wb]> (boxes k)) k)) as E.
    { unfold syscall_rose_mailbox_read_handler. erewrite bind_Ok by (by apply get_mailbox_ok).
      by replace (negb (timeout =? Ipc.no_wait) && negb (timeout =? 0)) with false by (by destruct Hto as [-> | ->]). }
    by erewrite bind_Ok by (erewrite with_token_ok by done; rewrite Hpay; exact E).
  - split; cbn; try done; [exists wb; by rewrite lookup_insert_eq|rewrite lookup_insert_ne by lia; done].
Qed.

(** A new mailbox: its two tokens. *)
Lemma view_create k hs c qb ql ws : (c < 30)%nat -> at_ k hs c qb ql ws -> let a := next_address k in
  exists rt wt k', syscall_rose_mailbox_create_handler clock k = Ok ((ok, rt, wt), k') /\ hs !! rt = None /\ hs !! wt = None /\ rt <> wt /\
    a < next_address k' /\ boxes k' = <[a := mkMailbox [] []]> (boxes k) /\
    at_ k' (<[wt := mkHandle (a + 128) T_mailbox a (Z.lor (Z.lor perm_write perm_transfer) perm_clone)]>
           (<[rt := mkHandle (a + 64) T_mailbox a (Z.lor (Z.lor perm_read perm_transfer) perm_clone)]> hs)) (Datatypes.S (Datatypes.S c)) qb ql ws.
Proof using Hclock.
  intros Hc V a. pose proof V as [Hr Hproc Hs [wb Hb] Hl Ho HR]. unfold syscall_rose_mailbox_create_handler, create_mailbox, create_handle.
  do 3 (rewrite ?bind_assoc; erewrite bind_Ok by reflexivity). erewrite bind_Ok by reflexivity. rewrite bind_assoc. erewrite bind_Ok by reflexivity. erewrite bind_Ok by reflexivity.
  cbn [next_address set_boxes]. fold a. rewrite Hr.
  match goal with |- context [bind (register_for_token _ _ ?h0) _ ?k0] =>
    destruct (view_register k0 hs c qb ql ws h0) as (rt & k1 & E1 & Hrt & Ha1 & Hb1 & V1); [lia| |] end.
  { split; cbn; try done; [exists wb; by rewrite lookup_insert_ne by lia|by rewrite lookup_insert_ne by lia|lia]. }
  erewrite bind_Ok by exact E1. rewrite bind_assoc. erewrite bind_Ok by reflexivity. erewrite bind_Ok by reflexivity.
  match goal with |- context [bind (register_for_token _ _ ?h0) _ ?k0] =>
    destruct (view_register k0 (<[rt := mkHandle (a + 64) T_mailbox a (Z.lor (Z.lor perm_read perm_transfer) perm_clone)]> hs) (Datatypes.S c) qb ql ws h0) as (wt & k2 & E2 & Hwt & Ha2 & Hb2 & V2); [lia| |] end.
  { destruct V1 as [? ? ? ? ? ? ?]. split; cbn; try done. lia. }
  apply lookup_insert_None in Hwt as [Hwt Hne]. exists rt, wt, k2. erewrite bind_Ok by exact E2. split; [done|].
  do 3 (split; [done|]). rewrite Ha2. cbn in Ha1, Ha2, Hb2 |- *. rewrite Ha1 in *. split; [cbn; lia|]. split.
  - by rewrite Hb2, Hb1.
  - cbn in V2. replace (a + 64 + 64) with (a + 128) in V2 by lia. exact V2.
Qed.

Lemma permits p a b : has_permissions (mkHandle a T_mailbox b (Z.lor (Z.lor p perm_transfer) perm_clone)) p = true /\
  has_permissions (mkHandle a T_mailbox b (Z.lor (Z.lor p perm_transfer) perm_clone)) perm_transfer = true.
Proof using Type.
  unfold has_permissions. cbn. split; apply Z.eqb_eq, Z.bits_inj'; intros i _; rewrite Z.land_spec, !Z.lor_spec;
    [destruct (Z.testbit p i)|destruct (Z.testbit perm_transfer i)]; rewrite ?orb_true_r; done.
Qed.

(** Sending a handle to the log acceptor. *)
Lemma view_write k hs c qb ql ws ta ha token h : at_ k hs c qb ql ws ->
  hs !! ta = Some ha -> _type ha = T_mailbox -> _payload ha = lam -> has_permissions ha perm_write = true ->
  hs !! token = Some h -> has_permissions h perm_transfer = true ->
  exists k', KernelMain.rose_mailbox_write ta (handle_message token) k = Ok (ok, k') /\ next_address k' = next_address k /\
    (forall b, b <> lam -> boxes k' !! b = boxes k !! b) /\
    at_ k' (delete token hs) c qb (ql ++ [QHandle h]) (tl ws).
Proof using Hwakes.
  intros V Ha Ht Hpay Hw Hh Hp. pose proof V as [Hr Hproc Hs [wb Hb] Hl Ho HR]. destruct (woken_some ws (sched k)) as (w' & Hwk & Hc').
  eexists. split; [|split; [|split]].
  - unfold KernelMain.rose_mailbox_write. erewrite with_token_ok by done. rewrite Hpay.
    eapply (write_handle_ok lam k ql ws w' _ h token 0); [exact Hl|exact Hwk|rewrite Hr; exact Hproc|exact Hh|exact Hp].
  - done.
  - intros b Hb'. cbn. by rewrite lookup_insert_ne.
  - split; cbn.
    + congruence.
    + rewrite Hr. by rewrite lookup_insert_eq.
    + rewrite map_size_delete, Hh. lia.
    + exists wb. rewrite lookup_insert_ne by lia. done.
    + by rewrite lookup_insert_eq.
    + lia.
    + rewrite Hr. by rewrite delete_insert_eq.
Qed.

(** ** The printer's mailboxes *)

#[local] Existing Instance kernel_calls.
Abbreviation calls := (kernel_calls clock perm_create_vas perm_create_process perm_map perm_create_mapping).
Lemma on_kernel_ok {A} (m : M (kernel S) A) (v : memory) k a k' : m k = Ok (a, k') -> on_kernel m (mkWhole v k) = Ok (a, mkWhole v k').
Proof using Type. unfold on_kernel. cbn. by intros ->. Qed.

(** The two ends of a mailbox. *)
Definition read_end (a : Z) : handle := mkHandle (a + 64) T_mailbox a (Z.lor (Z.lor perm_read perm_transfer) perm_clone).
Definition write_end (a : Z) : handle := mkHandle (a + 128) T_mailbox a (Z.lor (Z.lor perm_write perm_transfer) perm_clone).

(** What the printer has and what the acceptor was sent after its initialisation. *)
Record logging k hs hs' qb ql ws (c : nat) (send_token ack_token log ack : Z) : Prop := {
  lo_kept : hs ⊆ hs';
  lo_send : hs' !! send_token = Some (write_end log);
  lo_ack : hs' !! ack_token = Some (read_end ack);
  lo_apart : lam < log < ack /\ ack < next_address k;
  lo_empty : boxes k !! log = Some (mkMailbox [] []) /\ boxes k !! ack = Some (mkMailbox [] []);
  lo_view : at_ k hs' c qb (ql ++ [QHandle (read_end log); QHandle (write_end ack)]) (tl (tl ws))
}.

Lemma expect_done {W B} (m : M W unit) (f : unit -> M W B) w : bind (expect ok m) f w = f tt w.
Proof using Type. reflexivity. Qed.

Lemma print_initialize_ok k v hs c qb ql ws ta ha : (c <= 20)%nat -> at_ k hs c qb ql ws ->
  hs !! ta = Some ha -> _type ha = T_mailbox -> _payload ha = lam -> has_permissions ha perm_write = true ->
  exists send_token ack_token log ack k' hs', print_initialize (SC := calls) ta (mkWhole v k) = Ok ((send_token, ack_token), mkWhole v k') /\
    logging k' hs hs' qb ql ws (c + 4) send_token ack_token log ack.
Proof using Hwakes Hclock.
  intros Hc V Ha Ht Hpay Hw. unfold print_initialize. set (a1 := next_address k).
  destruct (view_create k hs c qb ql ws ltac:(lia) V) as (lr & sd & k1 & E1 & Hlr & Hsd & Hne1 & Hlt1 & Hb1 & V1). fold a1 in V1, Hlt1, Hb1.
  erewrite bind_Ok by (by apply on_kernel_ok, E1). cbv beta iota zeta. rewrite expect_done.
  change (mkHandle (a1 + 128) _ _ _) with (write_end a1) in V1. change (mkHandle (a1 + 64) _ _ _) with (read_end a1) in V1.
  destruct (view_create k1 _ (Datatypes.S (Datatypes.S c)) qb ql ws ltac:(lia) V1) as (ack & aw & k2 & E2 & Hack & Haw & Hne2 & Hlt2 & Hb2 & V2). set (a2 := next_address k1) in *.
  change (mkHandle (a2 + 128) _ _ _) with (write_end a2) in V2. change (mkHandle (a2 + 64) _ _ _) with (read_end a2) in V2.
  apply lookup_insert_None in Hack as [Hack Hack1]. apply lookup_insert_None in Hack as [Hack Hack2].
  apply lookup_insert_None in Haw as [Haw Haw1]. apply lookup_insert_None in Haw as [Haw Haw2].
  assert (ta <> lr /\ ta <> sd /\ ta <> ack /\ ta <> aw) as (? & ? & ? & ?) by (repeat split; intros ->; congruence).
  erewrite bind_Ok by (by apply on_kernel_ok, E2). cbv beta iota zeta. rewrite expect_done.
  destruct (view_write k2 _ _ qb ql ws ta ha lr (read_end a1) V2) as (k3 & E3 & N3 & B3 & V3); [by simplify_map_eq|done|done|done|by simplify_map_eq|apply permits|].
  erewrite bind_Ok by (by apply on_kernel_ok, E3). cbv beta iota zeta. rewrite expect_done.
  destruct (view_write k3 _ _ qb _ _ ta ha aw (write_end a2) V3) as (k4 & E4 & N4 & B4 & V4); [by simplify_map_eq|done|done|done|by simplify_map_eq|apply permits|].
  erewrite bind_Ok by (by apply on_kernel_ok, E4). cbv beta iota zeta. rewrite expect_done.
  eexists sd, ack, a1, a2, k4, _. split; [reflexivity|].
  pose proof (v_order _ _ _ _ _ _ _ _ _ _ _ _ V). pose proof (v_order _ _ _ _ _ _ _ _ _ _ _ _ V1).
  rewrite <- N3, <- N4 in Hlt2.
  assert (a1 < a2) as Ha12. { unfold a2. exact Hlt1. }
  split; [| | | | |rewrite <- (assoc_L (++)) in V4; replace (c + 4)%nat with (Datatypes.S (Datatypes.S (Datatypes.S (Datatypes.S c)))) by lia; exact V4].
  - apply map_subseteq_spec. intros t h Hth. assert (t <> lr /\ t <> sd /\ t <> ack /\ t <> aw) as (? & ? & ? & ?) by (repeat split; intros ->; congruence).
    by simplify_map_eq.
  - by simplify_map_eq.
  - by simplify_map_eq.
  - lia.
  - rewrite !B4, !B3 by lia. rewrite Hb2, Hb1. by rewrite !lookup_insert_eq, lookup_insert_ne, lookup_insert_eq by lia.
Qed.

(** ** What the first process is told *)

Section receive.
Context (print : string -> list Z -> M (whole S) unit).
(** Printing comes back; meanwhile the acceptor takes its messages, and the thread that
    prints for the process may get tokens of its own in it. *)
Definition prints : Prop := forall f l v k hs c qb ql ws, at_ k hs c qb ql ws ->
  exists v' k' hs' ql' ws', print f l (mkWhole v k) = Ok (tt, mkWhole v' k') /\ hs ⊆ hs' /\ at_ k' hs' (c + 2) qb ql' ws'.
Context (Hprint : prints) (tb : Z) (hb : handle)
  (Htype : _type hb = T_mailbox) (Hpay : _payload hb = bm) (Hread : has_permissions hb perm_read = true).

Lemma message_handle v k hs c q ql ws h timeout f g : (c < 31)%nat -> at_ k hs c (QHandle h :: q) ql ws -> hs !! tb = Some hb -> timeout = 0 \/ timeout = Ipc.no_wait ->
  exists t k', read_message (SC := calls) tb timeout type_handle_token f g (mkWhole v k) = Ok (mkMessage type_handle_token t 0, mkWhole v k') /\
    hs ⊆ <[t := h]> hs /\ at_ k' (<[t := h]> hs) (Datatypes.S c) q ql ws.
Proof using Hclock Htype Hpay Hread.
  intros Hc V Hh Hto. destruct (view_read_handle k hs c q ql ws tb hb h timeout Hc V Hh Htype Hpay Hread Hto) as (t & k' & E & Hn & V').
  exists t, k'. unfold read_message. erewrite bind_Ok by (by apply on_kernel_ok, E). cbv beta iota zeta. rewrite expect_done. split; [done|]. split; [by apply insert_subseteq|done].
Qed.
Lemma message_user v k hs c q ql ws d0 d1 timeout f g : at_ k hs c (QUser d0 d1 :: q) ql ws -> hs !! tb = Some hb -> timeout = 0 \/ timeout = Ipc.no_wait ->
  exists k', read_message (SC := calls) tb timeout type_user f g (mkWhole v k) = Ok (mkMessage type_user d0 d1, mkWhole v k') /\ at_ k' hs c q ql ws.
Proof using Htype Hpay Hread.
  intros V Hh Hto. destruct (view_read_user k hs c q ql ws tb hb d0 d1 timeout V Hh Htype Hpay Hread Hto) as (k' & E & V').
  exists k'. unfold read_message. erewrite bind_Ok by (by apply on_kernel_ok, E). cbv beta iota zeta. by rewrite expect_done.
Qed.

(** What is found in the end under the tokens the program remembers. *)
Record informed (I : image) (vas vmo : Z) (hs hs' : gmap Z handle) (r : received) : Prop := {
  in_kept : hs ⊆ hs';
  in_acceptor : hs' !! acceptor_mailbox_token r = Some (mkHandle (bm + 128) T_mailbox lam (Z.lor perm_write perm_transfer));
  in_caps : hs' !! Bootinit.kernel_caps_token r = Some (mkHandle (bm + 256) T_kernel_caps (kernel_caps I) perm_all);
  in_vmo : hs' !! initrd_vmo r = Some (mkHandle (bm + 320) T_vmo vmo perm_all);
  in_vas : hs' !! Bootinit.self_vas_token r = Some (mkHandle (bm + 384) T_vas vas perm_create_mapping);
  in_sizes : Bootinit.initrd_size r = KernelMain.initrd_size I /\ vdso_size r = end_vdso I - begin_vdso I
}.

Ltac printed V := match type of V with view _ _ _ _ _ _ ?k ?hs ?c ?qb ?ql ?ws =>
  match goal with |- context [bind (print ?f ?l) _ (mkWhole ?v _)] =>
    let E := fresh "E" in let H := fresh "Hsub" in let V' := fresh "V" in
    let v' := fresh "v" in let k' := fresh "k" in let hs' := fresh "hs" in
    destruct (Hprint f l v k hs c qb ql ws V) as (v' & k' & hs' & ? & ? & E & H & V'); erewrite bind_Ok by exact E end end.

(** Reading the next message of the mailbox, a token or two words. *)
Ltac received V Hh := match type of V with view _ _ _ _ _ _ ?k ?hs ?c (?m :: ?q) ?ql ?ws =>
  match goal with |- context [bind (read_message _ ?timeout _ ?f ?g) _ (mkWhole ?v _)] =>
    let E := fresh "E" in let H := fresh "Hsub" in let V' := fresh "V" in let t := fresh "t" in let k' := fresh "k" in
    match m with
    | QHandle ?h => destruct (message_handle v k hs c q ql ws h timeout f g ltac:(lia) V Hh ltac:(first [by left|by right])) as (t & k' & E & H & V')
    | QUser ?d0 ?d1 => destruct (message_user v k hs c q ql ws d0 d1 timeout f g V Hh ltac:(first [by left|by right])) as (k' & E & V')
    end; erewrite bind_Ok by exact E; cbn [data0 data1] end end.
Ltac kept := repeat first [eassumption | apply lookup_insert_eq | (eapply lookup_weaken; [|eassumption])].

Lemma receive_ok I vas vmo v k hs c ql ws process : lam = bm + 64 -> (c <= 4)%nat ->
  at_ k hs c (first_messages perm_create_mapping I bm vas process vmo) ql ws -> hs !! tb = Some hb ->
  exists r log w' hs' c' ql' ws', receive (SC := calls) print tb (mkWhole v k) = Ok ((r, log), w') /\
    informed I vas vmo hs hs' r /\ at_ (w_kernel w') hs' c' [] ql' ws'.
Proof using Hwakes Hclock Hprint Htype Hpay Hread.
  intros El Hc V Hh. unfold first_messages in V. rewrite <- El in V. unfold receive.
  received V Hh.
  destruct (print_initialize_ok k0 v _ (Datatypes.S c) _ ql ws t _ ltac:(lia) V0 (lookup_insert_eq _ _ _)) as (sd & ak & a1 & a2 & k2 & hs2 & E2 & [S2 _ _ _ _ V2]); [done|done|apply Z.eqb_eq|].
  { cbn. apply Z.bits_inj'. intros i _. rewrite Z.land_spec, Z.lor_spec. by destruct (Z.testbit perm_write i). }
  erewrite bind_Ok by exact E2. printed V2.
  assert (hs0 !! tb = Some hb) as Hh0 by kept. received V1 Hh0. printed V3.
  assert (hs1 !! tb = Some hb) as Hh1 by kept. received V4 Hh1. printed V5.
  assert (hs3 !! tb = Some hb) as Hh3 by kept. received V6 Hh3. printed V7.
  assert (hs4 !! tb = Some hb) as Hh4 by kept. received V8 Hh4.
  eexists _, _, _, _, _, _, _. split; [reflexivity|]. split; [|exact V9]. split; cbn [acceptor_mailbox_token Bootinit.kernel_caps_token initrd_vmo Bootinit.self_vas_token Bootinit.initrd_size vdso_size].
  - repeat first [eassumption | etrans; [eassumption|]].
  - kept.
  - kept.
  - kept.
  - kept.
  - done.
Qed.
End receive.

(** ** The log acceptor *)

(** The step of the acceptor for the next handle; the kernel's process runs, the first
    mailbox of the view is the acceptor's. *)
Lemma accept_step_ok k hs c q ql ws ta ha h a : (c < 31)%nat -> at_ k hs c (QHandle h :: q) ql ws ->
  hs !! ta = Some ha -> _type ha = T_mailbox -> _payload ha = bm -> has_permissions ha perm_read = true ->
  _type h = (match a with WantProcess => T_process | _ => T_mailbox end) ->
  exists t k', accept_step clock ta P a k =
      Ok (match a with WantProcess => Got (WantLog (_payload h)) | WantLog p => Got (WantAck p (_payload h)) | WantAck p l => Ready p l (_payload h) end, k') /\
    hs !! t = None /\ at_ k' (<[t := h]> hs) (Datatypes.S c) q ql ws.
Proof using Hclock.
  intros Hc V Hh Ht Hpay Hp Hty. destruct (view_read k hs c q ql ws ta ha h 0) as (t & k' & E & Hn & V'); [done..|by left|].
  exists t, k'. split; [|done]. unfold accept_step, read_valid_token. rewrite bind_assoc. erewrite bind_Ok by exact E. cbv beta iota. cbn [m_type data0].
  change (negb (type_handle_token =? type_handle_token)) with false. cbv iota. rewrite bind_assoc.
  erewrite bind_Ok by (apply get_handle_ok; exact (v_process _ _ _ _ _ _ _ _ _ _ _ _ V')). cbn [_handles]. rewrite lookup_insert_eq.
  erewrite bind_Ok by reflexivity. unfold is_a. rewrite Hty, bool_decide_eq_true_2 by done. by destruct a.
Qed.
End handshake.

(** ** The handshake *)

Section agreement.
Context {ET : ElementTree} {S : Type} {SO : SchedulerOps S} {PM : Permissions} (clock : nat -> Z)
  (perm_create_vas perm_create_process perm_map perm_create_mapping : Z) (I : image).
Implicit Types (k : kernel S) (h : handle) (hs : gmap Z handle).
Abbreviation calls := (kernel_calls clock perm_create_vas perm_create_process perm_map perm_create_mapping).
Abbreviation sent vas process vmo := (prepare_mailboxes perm_create_mapping I vas process vmo).

(** A process with a few handles. *)
Definition small_process k (P : Z) (st : bool) (space : Z) hs : Prop :=
  procs k !! P = Some (mkProcess st space hs) /\ (size hs <= 3)%nat.

Lemma give_mailbox_ok k P b perms st space hs : clock_runs clock -> small_process k P st space hs ->
  exists t k', give_mailbox clock P b perms k = Ok (t, k') /\ hs !! t = None /\
    procs k' = <[P := mkProcess st space (<[t := mkHandle (next_address k) T_mailbox b perms]> hs)]> (procs k) /\
    boxes k' = boxes k /\ next_address k' = next_address k + 64.
Proof using Type.
  intros Hc [Hp Hs]. unfold give_mailbox, create_handle. rewrite bind_assoc. erewrite bind_Ok by reflexivity. erewrite bind_Ok by reflexivity.
  match goal with |- context [register_for_token _ _ ?h ?k0] =>
    destruct (register_ok clock P h k0 (mkProcess st space hs)) as (t & n & E & Ht); [exact Hp|apply clock_enough; [done|cbn; lia]|] end.
  eexists t, _. by split; [exact E|].
Qed.

Lemma permits_one p a b : has_permissions (mkHandle a T_mailbox b p) p = true.
Proof using Type. unfold has_permissions. cbn. apply Z.eqb_eq, Z.land_diag. Qed.

(** The mailboxes of a new process and the token it starts with: the view it has. *)
Lemma first_view k P vas vmo st space hs (w : S) : clock_runs clock -> small_process k P st space hs -> so_container w = P ->
  let a := next_address k in
  exists tb k1 k2, sent vas P vmo k = Ok ((a, a + 64), k1) /\ give_mailbox clock P a perm_read k1 = Ok (tb, k2) /\
    procs k2 = <[P := mkProcess st space (<[tb := mkHandle (a + 448) T_mailbox a perm_read]> hs)]> (procs k) /\ next_address k2 = a + 512 /\
    hs !! tb = None /\
    view P a (a + 64) st space (delete P (procs k)) (with_sched w k2) (<[tb := mkHandle (a + 448) T_mailbox a perm_read]> hs) 4
      (first_messages perm_create_mapping I a vas P vmo) [QHandle (mkHandle (a + 192) T_process P perm_all)] [].
Proof using Type.
  intros Hc [Hp Hs] Hw a. pose proof (prepare_mailboxes_ok perm_create_mapping I k vas P vmo) as E1. cbv zeta in E1. fold a in E1.
  match type of E1 with _ = Ok (_, ?k0) => set (k1 := k0) in E1 end.
  destruct (give_mailbox_ok k1 P a perm_read st space hs Hc) as (tb & k2 & E & Ht & Hpr & Hb & Hn); [done|].
  cbn in Hpr, Hb, Hn. replace (a + 448 + 64) with (a + 512) in Hn by lia.
  exists tb, k1, k2. split; [exact E1|]. split; [exact E|]. split; [done|]. split; [done|]. split; [done|]. split; cbn.
  - done.
  - by rewrite Hpr, lookup_insert_eq.
  - rewrite map_size_insert_None by done. lia.
  - exists []. by rewrite Hb, lookup_insert_eq.
  - by rewrite Hb, lookup_insert_ne, lookup_insert_eq by lia.
  - lia.
  - by rewrite Hpr, delete_insert_eq.
Qed.

(** C8: what the kernel sends is what the first process gets.  The kernel makes the
    first mailbox, sends its messages and gives the process a token for it; when the
    process then runs, its start-up reads all of them, none in the wrong place, and
    remembers a token under which it holds the log acceptor's mailbox, which it may
    write to and pass on, the kernel capabilities, the object that was sent for the
    archive, its own address space, in which it may make mappings, and the two sizes;
    it keeps what it held. *)
Theorem first_process_informed print k (v : memory) P vas vmo st space hs (w : S) :
  wakes -> clock_runs clock -> small_process k P st space hs -> so_container w = P ->
  prints P (next_address k) (next_address k + 64) st space (delete P (procs k)) print ->
  exists tb k1 k2 r log w' hs', sent vas P vmo k = Ok ((next_address k, next_address k + 64), k1) /\
    give_mailbox clock P (next_address k) perm_read k1 = Ok (tb, k2) /\
    receive (SC := calls) print tb (mkWhole v (with_sched w k2)) = Ok ((r, log), w') /\
    procs (w_kernel w') !! P = Some (mkProcess st space hs') /\
    informed perm_create_mapping (next_address k) (next_address k + 64) I vas vmo hs hs' r.
Proof using Type.
  intros Hwk Hc Hp Hw Hpr. destruct (first_view k P vas vmo st space hs w Hc Hp Hw) as (tb & k1 & k2 & E1 & E2 & _ & _ & Hn & V).
  destruct (receive_ok clock perm_create_vas perm_create_process perm_map perm_create_mapping Hwk Hc P _ _ st space _ print Hpr tb (mkHandle (next_address k + 448) T_mailbox (next_address k) perm_read) eq_refl eq_refl
    (permits_one _ _ _) I vas vmo v (with_sched w k2) _ 4%nat _ _ P eq_refl ltac:(lia) V (lookup_insert_eq _ _ _)) as (r & log & w' & hs' & c' & ql' & ws' & E & [Hk ? ? ? ? ?] & V').
  exists tb, k1, k2, r, log, w', hs'. do 3 (split; [done|]). split; [exact (v_process _ _ _ _ _ _ _ _ _ _ _ _ V')|].
  split; try done. etrans; [|exact Hk]. by apply insert_subseteq.
Qed.

(** How a process comes to be logged.  After the first process has read its first
    message and set its printer up, the log acceptor of the kernel, reading from its
    own end of that mailbox, gets in three steps the process, the mailbox the printer
    writes to and the mailbox the printer waits on, in that order; the printer holds
    the writing end of the first and the reading end of the second, and both are
    empty. *)
Theorem log_mailboxes_accepted k (v : memory) P KP vas vmo st space hs st' space' hk (w w2 : S) :
  wakes -> clock_runs clock -> small_process k P st space hs -> small_process k KP st' space' hk -> KP <> P ->
  so_container w = P -> so_container w2 = KP ->
  exists tb ta k1 k2 k3 send_token ack_token log ack k4 hs' k5 k6 k7,
    sent vas P vmo k = Ok ((next_address k, next_address k + 64), k1) /\ give_mailbox clock P (next_address k) perm_read k1 = Ok (tb, k2) /\
    give_mailbox clock KP (next_address k + 64) perm_read k2 = Ok (ta, k3) /\
    (let* m := read_message (SC := calls) tb 0 type_handle_token (fail Fault) (fail Fault) in print_initialize (SC := calls) (data0 m))
      (mkWhole v (with_sched w k3)) = Ok ((send_token, ack_token), mkWhole v k4) /\
    procs k4 !! P = Some (mkProcess st space hs') /\ hs' !! send_token = Some (write_end log) /\ hs' !! ack_token = Some (read_end ack) /\
    boxes k4 !! log = Some (mkMailbox [] []) /\ boxes k4 !! ack = Some (mkMailbox [] []) /\
    accept_step clock ta KP WantProcess (with_sched w2 k4) = Ok (Got (WantLog P), k5) /\
    accept_step clock ta KP (WantLog P) k5 = Ok (Got (WantAck P log), k6) /\
    accept_step clock ta KP (WantAck P log) k6 = Ok (Ready P log ack, k7).
Proof using Type.
  intros Hwk Hc Hp Hkp Hne Hw Hw2. set (a := next_address k).
  destruct (first_view k P vas vmo st space hs w Hc Hp Hw) as (tb & k1 & k2 & E1 & E2 & Hpr2 & Hn2 & Hn & V). fold a in E1, E2, Hpr2, Hn2, V.
  destruct (give_mailbox_ok k2 KP (a + 64) perm_read st' space' hk Hc) as (ta & k3 & E3 & Hta & Hpr3 & Hb3 & Hn3).
  { destruct Hkp. split; [|done]. by rewrite Hpr2, lookup_insert_ne by done. }
  assert (view P a (a + 64) st space (delete P (procs k3)) (with_sched w k3) (<[tb := mkHandle (a + 448) T_mailbox a perm_read]> hs) 4
      (first_messages perm_create_mapping I a vas P vmo) [QHandle (mkHandle (a + 192) T_process P perm_all)] []) as V3.
  { destruct V as [? Hpv ? Hbv Hlv Hov _]. split; cbn in *; try done.
    - by rewrite Hpr3, lookup_insert_ne by done.
    - by rewrite Hb3.
    - by rewrite Hb3.
    - lia. }
  destruct (message_handle clock perm_create_vas perm_create_process perm_map perm_create_mapping Hc P a (a + 64) st space _ tb (mkHandle (a + 448) T_mailbox a perm_read) eq_refl eq_refl
    (permits_one _ _ _) v (with_sched w k3) _ 4 _ _ _ _ 0 (fail Fault) (fail Fault) ltac:(lia) V3 (lookup_insert_eq _ _ _) ltac:(by left)) as (t & k4 & E4 & S4 & V4).
  destruct (print_initialize_ok clock perm_create_vas perm_create_process perm_map perm_create_mapping Hwk Hc P a (a + 64) st space _ k4 v _ 5 _ _ _ t _ ltac:(lia) V4 (lookup_insert_eq _ _ _) eq_refl eq_refl)
    as (sd & ak & log & ack & k5 & hs5 & E5 & [_ Hsd Hak Hap [Hlog Hack] V5]).
  { apply Z.eqb_eq, Z.bits_inj'. intros i _. cbn. rewrite Z.land_spec, Z.lor_spec. by destruct (Z.testbit perm_write i). }
  set (ha := mkHandle (next_address k2) T_mailbox (a + 64) perm_read) in *.
  assert (view KP (a + 64) log st' space' (delete KP (procs k5)) (with_sched w2 k5) (<[ta := ha]> hk) 4
    [QHandle (mkHandle (a + 192) T_process P perm_all); QHandle (read_end log); QHandle (write_end ack)] [] []) as VK.
  { destruct V5 as [? Hpv ? Hbv Hlv Hov HR]. destruct Hkp as [_ Hsk]. split; cbn in *; try done.
    - assert (delete P (procs k5) !! KP = delete P (procs k3) !! KP) as HK by congruence. rewrite !lookup_delete_ne in HK by done.
      by rewrite HK, Hpr3, lookup_insert_eq.
    - rewrite map_size_insert_None by done. lia.
    - by exists [].
    - lia. }
  destruct (accept_step_ok clock Hc KP _ _ _ _ _ (with_sched w2 k5) _ 4 _ _ _ ta ha _ WantProcess ltac:(lia) VK (lookup_insert_eq _ _ _) eq_refl eq_refl (permits_one _ _ _) eq_refl)
    as (t1 & k6 & E6 & Ht1 & V6).
  assert (ta <> t1) as N1 by (intros <-; by rewrite lookup_insert_eq in Ht1).
  destruct (accept_step_ok clock Hc KP _ _ _ _ _ k6 _ 5 _ _ _ ta ha _ (WantLog P) ltac:(lia) V6) as (t2 & k7 & E7 & Ht2 & V7);
    [by simplify_map_eq|done|done|apply permits_one|done|].
  assert (ta <> t2) as N2 by (intros <-; by simplify_map_eq).
  destruct (accept_step_ok clock Hc KP _ _ _ _ _ k7 _ 6 _ _ _ ta ha _ (WantAck P log) ltac:(lia) V7) as (t3 & k8 & E8 & _ & _);
    [by simplify_map_eq|done|done|apply permits_one|done|].
  exists tb, ta, k1, k2, k3, sd, ak, log, ack, k5, hs5, k6, k7, k8. do 3 (split; [done|]).
  split; [erewrite bind_Ok by exact E4; exact E5|]. split; [exact (v_process _ _ _ _ _ _ _ _ _ _ _ _ V5)|]. done.
Qed.
End agreement.

(** ** Witnesses *)

(** A kernel with its own process and the first one; waking a thread changes nothing,
    and nothing is printed. *)
#[local] Instance plain_scheduler : SchedulerOps Z := { so_schedule _ := ret tt; so_deschedule := ret 0; so_container c := c }.
#[local] Instance plain_permissions : Permissions := { perm_read := 1; perm_write := 2; perm_transfer := 4; perm_clone := 8; perm_all := 2 ^ 32 - 1 }.
Definition plain_clock (n : nat) : Z := Z.of_nat (n mod 64).
Definition sample_image : image := mkImage 0xffffffff80200000 0xffffffff80204000 0xffffffff80300000 0xffffffff80340000 0x700000 0x3000 0xffffffff80400000 0xffffffff80001000 0xffffffff80002000.
Definition two_processes : kernel Z :=
  mkKernel {[0x100 := mkProcess true 0x40 ∅; 0x200 := mkProcess false 0x80 ∅]} ∅ ∅ 0x100 0 0x1000 [].
Definition no_memory : memory := mkMemory (PageTable.mkVm ∅ (Pmm.mkPmm ∅ [] 0 0 [] []) 0 [] [] false) ∅ ∅ ∅ 0x1000 None 0.

Lemma plain_wakes : wakes (S := Z).
Proof. intros t w. by exists w. Qed.
Lemma plain_clock_runs : clock_runs plain_clock.
Proof.
  intros t i j Hij. unfold plain_clock, u64, wrapu. rewrite !Nat2Z.inj_mod. pose proof (Z.mod_pos_bound (Z.of_nat (t + i)) 64). pose proof (Z.mod_pos_bound (Z.of_nat (t + j)) 64).
  change (Z.of_nat 64) with 64. rewrite !(Z.mod_small (_ mod 64)) by lia. intros E.
  apply (f_equal (fun z => (z - Z.of_nat (t + i) mod 64))) in E. pose proof (Z.div_mod (Z.of_nat (t + i)) 64). pose proof (Z.div_mod (Z.of_nat (t + j)) 64). lia.
Qed.
Lemma plain_prints P bm lam st space R : prints (S := Z) P bm lam st space R (fun _ _ => ret tt).
Proof.
  intros f l v k hs c qb ql ws V. exists v, k, hs, ql, ws. split; [done|]. split; [done|]. destruct V as [? ? ? ? ? ? ?]. split; try done. lia.
Qed.
Lemma sample_process P st space : procs two_processes !! P = Some (mkProcess st space ∅) -> small_process two_processes P st space ∅.
Proof. intros Hp. split; [done|]. rewrite map_size_empty. lia. Qed.

#[local] Existing Instance exact_tree.
Lemma first_process_informed_witness :
  exists tb k1 k2 r log w' hs', prepare_mailboxes 16 sample_image 0x80 0x200 0x500 two_processes = Ok ((0x1000, 0x1040), k1) /\
    give_mailbox plain_clock 0x200 0x1000 1 k1 = Ok (tb, k2) /\
    receive (SC := kernel_calls plain_clock 32 64 128 16) (fun _ _ => ret tt) tb (mkWhole no_memory (with_sched 0x200 k2)) = Ok ((r, log), w') /\
    procs (w_kernel w') !! 0x200 = Some (mkProcess false 0x80 hs') /\ informed 16 0x1000 0x1040 sample_image 0x80 0x500 ∅ hs' r.
Proof.
  exact (first_process_informed plain_clock 32 64 128 16 sample_image (fun _ _ => ret tt) two_processes no_memory 0x200 0x80 0x500 false 0x80 ∅ 0x200
    plain_wakes plain_clock_runs (sample_process 0x200 false 0x80 eq_refl) eq_refl (plain_prints _ _ _ _ _ _)).
Defined.

Lemma log_mailboxes_accepted_witness :
  exists tb ta k1 k2 k3 send_token ack_token log ack k4 hs' k5 k6 k7,
    prepare_mailboxes 16 sample_image 0x80 0x200 0x500 two_processes = Ok ((0x1000, 0x1040), k1) /\ give_mailbox plain_clock 0x200 0x1000 1 k1 = Ok (tb, k2) /\
    give_mailbox plain_clock 0x100 0x1040 1 k2 = Ok (ta, k3) /\
    (let* m := read_message (SC := kernel_calls plain_clock 32 64 128 16) tb 0 type_handle_token (fail Fault) (fail Fault) in
     print_initialize (SC := kernel_calls plain_clock 32 64 128 16) (data0 m)) (mkWhole no_memory (with_sched 0x200 k3)) = Ok ((send_token, ack_token), mkWhole no_memory k4) /\
    procs k4 !! 0x200 = Some (mkProcess false 0x80 hs') /\ hs' !! send_token = Some (write_end log) /\ hs' !! ack_token = Some (read_end ack) /\
    boxes k4 !! log = Some (mkMailbox [] []) /\ boxes k4 !! ack = Some (mkMailbox [] []) /\
    accept_step plain_clock ta 0x100 WantProcess (with_sched 0x100 k4) = Ok (Got (WantLog 0x200), k5) /\
    accept_step plain_clock ta 0x100 (WantLog 0x200) k5 = Ok (Got (WantAck 0x200 log), k6) /\
    accept_step plain_clock ta 0x100 (WantAck 0x200 log) k6 = Ok (Ready 0x200 log ack, k7).
Proof.
  exact (log_mailboxes_accepted plain_clock 32 64 128 16 sample_image two_processes no_memory 0x200 0x100 0x80 0x500 false 0x80 ∅ true 0x40 ∅ 0x200 0x100
    plain_wakes plain_clock_runs (sample_process 0x200 false 0x80 eq_refl) (sample_process 0x100 true 0x40 eq_refl) ltac:(done) eq_refl eq_refl).
Defined.

(** ** A start of the first process *)

(** The image of the kernel mapped, and an address space for its process. *)
Definition kernel_memory : res (unit * memory) :=
  (on_pages (PageTable.map_physical None 0xffffffff80200000 0xffffffff80400000 0x200000 PageTable.flags_none) ;;
   let* _ := adopt_existing_asid 0x8000 in ret tt) memory_many.
Definition started_in (m : memory) : starting Z :=
  mkStarting (mkWhole m (mkKernel {[0x100 := mkProcess true 0x1000 ∅]} ∅ (claims m) 0x100 0 0x10000 [])) ∅.
Definition after_boot {A} (f : starting Z -> A) : option A :=
  s ← outcome (fun _ m => started_in m) kernel_memory;
  outcome (fun _ s => f s) (start_bootinit plain_clock 16 sample_image 0x100 0x1000 s).

(** The new address space shows the program, the archive and the top of the stack where
    the program expects them, and not the page below the stack. *)
Example first_space : after_boot (fun s => let m := w_memory (s_whole s) in
    match Vas.vases m !! 0x1080 with
    | Some x => (fun a => PageTableLaws.translate (PageTable.tables (pages m)) 4 (_asid x) a) <$>
        [addresses.ip; addresses.initrd + 0x2000; addresses.top_of_stack - 31 * 4096; addresses.top_of_stack - 32 * 4096]
    | None => []
    end) = Some [Some (0x300000, true); Some (0x702000, true); Some (0x208000, true); None].
Proof. by vm_compute. Qed.

(** The variable that held the object of the archive was moved from when the object was
    mapped: the handle the first process gets for it holds the null pointer. *)
Example archive_handle_null : after_boot (fun s => x ← boxes (w_kernel (s_whole s)) !! 0x10080; _message_queue x !! 2%nat)
  = Some (Some (QHandle (mkHandle 0x101c0 T_vmo 0 perm_all))).
Proof. by vm_compute. Qed.

(** The first process reads its first message and sets its printer up, and the log
    acceptor runs until it waits for the next process. *)
Definition running_as (container : Z) (s : starting Z) : starting Z :=
  mkStarting (mkWhole (w_memory (s_whole s)) (with_sched container (w_kernel (s_whole s)))) (contexts s).
Definition printer_then_acceptor (process bootinit_thread acceptor_thread : Z) : M (starting Z) (list Z * accepting) := fun s =>
  match contexts s !! bootinit_thread, contexts s !! acceptor_thread with
  | Some b, Some a =>
      (on_whole (let* m := read_message (SC := kernel_calls plain_clock 32 64 128 16) (Contexts.thread.rdi b) 0 type_handle_token (fail Fault) (fail Fault) in
                 print_initialize (SC := kernel_calls plain_clock 32 64 128 16) (data0 m)) ;;
       modify (running_as 0x100) ;;
       log_acceptor plain_clock sample_image 10 (Contexts.thread.rdi a) 0x100 [0xb0; 0xb1; 0xb2] WantProcess) (running_as process s)
  | _, _ => Err Fault
  end.

(** The acceptor serves the process, made a thread that runs the log handler with the
    tag and the process as arguments, and waits for the second process. *)
Example first_log_served : after_boot (fun s =>
    match printer_then_acceptor 0x10000 0x10040 66176 s with
    | Ok (waiting, s') =>
        match contexts s' !! 66688 with
        | Some c => Some (waiting, Contexts.thread.rip c, Contexts.thread.rdx c, Contexts.thread.rcx c)
        | None => None
        end
    | Err _ => None
    end) = Some (Some (([0xb1; 0xb2], WantProcess), log_handler_entry sample_image, 0xb0, 0x10000)).
Proof. by vm_compute. Qed.
