(* ===== verification/LogService.v ===== *)
(** * The log of a process: kernel/main.cpp and kernel/bootinit/print.cpp together

    A process prints into a buffer of its own, sends the address to the kernel and
    waits; a kernel thread in the process reads the buffer, prints it with the name of
    the process in front, and answers.  The two threads of the process are run one
    after the other as they block. *)
From S2P Require Import Prelude AvlTree AvlSpec AvlRep AvlTheorems Vas VasTheorems Vmo Syscalls.
From S2P Require Import Ipc IpcTheorems.
From S2P Require Import Text Bytes Loader KernelMain Bootinit.

(** The kernel and what is on the screen. *)
Record log_world (S : Type) : Type := mkLog { l_whole : whole S; screen : bytes }.
Arguments mkLog {S} _ _.
Arguments l_whole {S} _.
Arguments screen {S} _.

(** The end of a shared lock. *)
Definition unshare (m : vmo_mapping) : vmo_mapping :=
  mkMapping (_range m) (_object m) (Vas._address_space m) (_mapping_flags m) (_valid m) (Nat.pred (_readers m)).

Section service.
Context {S : Type} {SO : SchedulerOps S} {PM : Permissions} (clock : nat -> Z).
Abbreviation LM := (M (log_world S)).

Definition in_whole {A} (m : M (whole S) A) : LM A := fun s =>
  match m (l_whole s) with Ok (a, w) => Ok (a, mkLog w (screen s)) | Err e => Err e end.
Definition log_kernel {A} (m : M (kernel S) A) : LM A := in_whole (on_kernel m).
Definition log_memory {A} (m : M memory A) : LM A := in_whole (on_memory m).
Definition show (l : bytes) : LM unit := modify (fun s => mkLog (l_whole s) (screen s ++ l)).

(** The bytes from [start] up to [end_], in the memory of the process *)
Definition text_at (contents : Z -> Z) (start end_ : Z) : bytes :=
  (fun i => contents (u64 (start + Z.of_nat i))) <$> seq 0 (Z.to_nat (u64 (end_ - start))).

(** One turn of the loop of [log_handler]: whether it printed, or has to wait. *)
Definition log_handler (log_mailbox ack_mailbox : Z) (process_tag : bytes) (vas : Z) (contents : Z -> Z) : LM bool :=
  let* r := log_kernel (KernelMain.rose_mailbox_read clock log_mailbox 0) in
  match r with
  | None => ret false
  | Some (ok, Some msg) =>
      if negb (m_type msg =? type_user) then panic "{} logging mailbox contained a message of a wrong type!" else
      if data0 msg =? 0 then panic "TODO: implement thread termination" else
      let start := data0 msg in
      let end_ := u64 (start + data1 msg) in
      let* lock := log_memory (lock_address_range vas start end_ false) in
      match lock with
      | None => panic "{} logging mailbox contained a message pointing to an unmapped address!"
      | Some mapping =>
          show (91 :: process_tag ++ [93; 32] ++ text_at contents start end_) ;;
          log_memory (on_mappings vas (update_mapping mapping unshare)) ;;
          let* r := log_kernel (KernelMain.rose_mailbox_write ack_mailbox (mkMessage type_user 0 0)) in
          if bool_decide (r = ok) then ret true else panic "failed to send an ack message to the {} logging mailbox!"
      end
  | Some _ => panic "failed to receive a message from the {} logging mailbox: {}"
  end.

(** ** The two threads *)

(** When the printer blocks, the thread that prints runs until it waits again; then the
    printer's call is taken up again. *)
Definition blocking_read (token timeout : Z) (serve : LM unit) : LM result :=
  let* r := log_kernel (KernelMain.rose_mailbox_read clock token timeout) in
  match r with
  | Some (r, _) => ret r
  | None =>
      serve ;;
      let* r := log_kernel (KernelMain.rose_mailbox_read clock token timeout) in
      match r with Some (r, _) => ret r | None => fail Deadlock end
  end.
Definition serve (step : LM bool) : LM unit :=
  let* printed := step in
  if negb printed then fail Deadlock else
  let* again := step in
  if negb again then ret tt else fail Deadlock.

Definition in_buffer (buffer_address : Z) (buffer : bytes) (a : Z) : Z := default 0 (buffer !! Z.to_nat (a - buffer_address)).
Definition log_calls (buffer_address log_token ack_token : Z) (process_tag : bytes) (vas : Z) : LogCalls (log_world S) := {|
  log_write token m _ := log_kernel (KernelMain.rose_mailbox_write token m);
  log_read token timeout buffer :=
    blocking_read token timeout (serve (log_handler log_token ack_token process_tag vas (in_buffer buffer_address buffer)))
|}.
End service.

(** ** What a flush does *)

Section laws.
Context {S : Type} {SO : SchedulerOps S} {PM : Permissions} (clock : nat -> Z).
Implicit Types (k : kernel S).

(** Threads of one process come and go; the process goes on. *)
Definition same_process : Prop :=
  (forall t (w : S), exists w', so_schedule t w = Ok (tt, w') /\ so_container w' = so_container w) /\
  (forall w : S, exists t w', so_deschedule w = Ok (t, w') /\ so_container w' = so_container w).

(** A kernel with other mailboxes, schedulers and claims. *)
Definition having k (w : S) (b : gmap Z mailbox) (c : gmap Z bool) : kernel S :=
  mkKernel (procs k) b c w (ticks k) (next_address k) (started k).

Lemma token_ok {A} (refuse : result -> A) (f : Z -> M (kernel S) A) k x token h type perm :
  procs k !! so_container (sched k) = Some x -> _handles x !! token = Some h -> _type h = type -> has_permissions h perm = true ->
  with_token token type perm refuse f k = f (_payload h) k.
Proof using Type.
  intros Hx Hh Ht Hp. unfold with_token. erewrite bind_Ok by reflexivity. unfold get_handle. rewrite bind_assoc.
  erewrite bind_Ok by (by apply get_process_ok). erewrite bind_Ok by reflexivity. rewrite Hh. unfold is_a. by rewrite bool_decide_eq_true_2, Hp by done.
Qed.

Lemma read_waits b k ws t w' : boxes k !! b = Some (mkMailbox [] ws) -> so_deschedule (sched k) = Ok (t, w') ->
  syscall_rose_mailbox_read_handler clock b 0 (mkMessage 0 0 0) k = Ok (None, having k w' (<[b := mkMailbox [] (ws ++ [t])]> (boxes k)) (vases k)).
Proof using Type.
  intros Hb Hd. unfold syscall_rose_mailbox_read_handler. erewrite bind_Ok by (by apply get_mailbox_ok).
  change (negb (0 =? Ipc.no_wait) && negb (0 =? 0)) with false. cbn [_message_queue _waiting_threads]. change (0 =? Ipc.no_wait) with false. cbv iota.
  erewrite bind_Ok by (unfold on_sched; by rewrite Hd). done.
Qed.
Lemma read_takes b k d0 d1 q ws : boxes k !! b = Some (mkMailbox (QUser d0 d1 :: q) ws) ->
  syscall_rose_mailbox_read_handler clock b 0 (mkMessage 0 0 0) k =
    Ok (Some (ok, Some (mkMessage type_user d0 d1)), having k (sched k) (<[b := mkMailbox q ws]> (boxes k)) (vases k)).
Proof using Type. intros Hb. unfold syscall_rose_mailbox_read_handler. by erewrite bind_Ok by (by apply get_mailbox_ok). Qed.

Lemma lift_kernel {A} (m : M (kernel S) A) v k sc a k' : m k = Ok (a, k') -> log_kernel m (mkLog (mkWhole v k) sc) = Ok (a, mkLog (mkWhole v k') sc).
Proof using Type. unfold log_kernel, in_whole, on_kernel. cbn. by intros ->. Qed.
Lemma lift_memory {A} (m : M memory A) v k sc a v' : m v = Ok (a, v') ->
  log_memory m (mkLog (mkWhole v k) sc) = Ok (a, mkLog (mkWhole v' (with_claims (claims v') k)) sc).
Proof using Type. unfold log_memory, in_whole, on_memory. cbn. by intros ->. Qed.

Lemma text_at_buffer address buffer (n : nat) : 0 <= address -> address + Z.of_nat (length buffer) < 2 ^ 64 -> (n <= length buffer)%nat ->
  text_at (in_buffer address buffer) address (u64 (address + Z.of_nat n)) = take n buffer.
Proof using Type.
  clear clock. intros Ha H64 Hn. unfold text_at. rewrite (u64_id (address + Z.of_nat n)), u64_id by (split; lia).
  replace (Z.to_nat (address + Z.of_nat n - address)) with n by lia. apply list_eq. intros i. rewrite list_lookup_fmap.
  destruct (decide (i < n)%nat) as [Hi|Hi].
  - rewrite lookup_seq_lt by done. cbn. rewrite lookup_take_lt by done. unfold in_buffer. rewrite u64_id by (split; lia).
    replace (Z.to_nat (address + Z.of_nat i - address)) with i by lia. by destruct (lookup_lt_is_Some_2 buffer i ltac:(lia)) as [b ->].
  - rewrite lookup_seq_ge, lookup_take_ge by lia. done.
Qed.

(** The process [P] of the printer: its tokens and those of the thread that prints,
    the two mailboxes, and an address space in which the buffer is mapped. *)
Context (P vas log ack send_token ack_token log_token ack_write_token address : Z) (tag : bytes).
Definition holds_end (x : process) (token mailbox perm : Z) : Prop :=
  exists h, _handles x !! token = Some h /\ _type h = T_mailbox /\ _payload h = mailbox /\ has_permissions h perm = true.
Definition buffer_mapped (v : memory) : Prop := exists x l a m, Vas.vases v !! vas = Some x /\ vas_rep x l /\ (a, m) ∈ l /\
  range_start (_range m) <= address /\ address + 4096 <= range_end (_range m).
Record tokens_held (x : process) : Prop := {
  th_send : holds_end x send_token log perm_write;
  th_ack : holds_end x ack_token ack perm_read;
  th_log : holds_end x log_token log perm_read;
  th_ack_write : holds_end x ack_write_token ack perm_write
}.
(** The thread that prints waits for the next message. *)
Record idle (x : process) (w : log_world S) : Prop := {
  id_runs : so_container (sched (w_kernel (l_whole w))) = P;
  id_process : procs (w_kernel (l_whole w)) !! P = Some x;
  id_log : exists t, boxes (w_kernel (l_whole w)) !! log = Some (mkMailbox [] [t]);
  id_ack : boxes (w_kernel (l_whole w)) !! ack = Some (mkMailbox [] []);
  id_mapped : buffer_mapped (w_memory (l_whole w))
}.
Definition line (l : bytes) : bytes := 91 :: tag ++ [93; 32] ++ l.

(** Locking the buffer and letting it go again. *)
Lemma lock_unlock v n : 0 < address -> address + 4096 < 2 ^ 64 -> buffer_mapped v -> 0 < n <= 4096 ->
  exists p v1 v2, lock_address_range vas address (u64 (address + n)) false v = Ok (Some p, v1) /\
    on_mappings vas (update_mapping p unshare) v1 = Ok (tt, v2) /\ buffer_mapped v2.
Proof using Type.
  clear clock. intros Ha H64 (x & l & a & m & Hx & R & Hin & Hlo & Hhi) Hn. rewrite u64_id by (split; lia).
  destruct (lock_address_range_overlap vas x l v address (address + n) false Hx R ltac:(lia)) as (r & v1 & E & Hr).
  destruct r as [p|]; [|destruct Hr as [_ [Hno|[? _]]]; [|done]; exfalso; apply (Hno a m Hin); split; cbn; lia].
  destruct Hr as (m1 & l1 & l2 & x1 & -> & Ho & _ & Hv1 & R1).
  destruct (vas_rep_split x1 _ p (share m1) R1) as (l3 & l4 & El & _ & _ & Hu); [set_solver|].
  destruct (Hu unshare) as (t & Et & R2); [done|].
  eexists p, v1, _. split; [exact E|]. split; [apply (on_mappings_ok vas _ v1 x1 _ t); [by rewrite Hv1, lookup_insert_eq|exact Et]|].
  assert (unshare (share m1) = m1) as Em by (by destruct m1). rewrite Em in R2.
  assert (exists m', (a, m') ∈ l3 ++ (p, m1) :: l4 /\ _range m' = _range m) as (m' & Hin' & Er).
  { assert (exists m', (a, m') ∈ l1 ++ (p, share m1) :: l2 /\ _range m' = _range m) as (m' & Hm' & Er).
    { rewrite elem_of_app, elem_of_cons in Hin. destruct Hin as [Hin|[Hin|Hin]].
      - exists m. split; [set_solver|done].
      - injection Hin as -> ->. exists (share m1). split; [set_solver|done].
      - exists m. split; [set_solver|done]. }
    rewrite El in Hm'. rewrite elem_of_app, elem_of_cons in Hm'. destruct Hm' as [Hm'|[Hm'|Hm']].
    - exists m'. split; [set_solver|done].
    - injection Hm' as -> ->. exists m1. split; [set_solver|done].
    - exists m'. split; [set_solver|done]. }
  exists (with_mappings t x1), (l3 ++ (p, m1) :: l4), a, m'. rewrite Er. split; [cbn; by rewrite lookup_insert_eq|done].
Qed.

Context (Hsame : same_process) (Hlog : log <> ack) (Haddress : 0 < address) (H64 : address + 4096 < 2 ^ 64).

Lemma wake_any ws (w : S) : exists w', woken ws w w' /\ so_container w' = so_container w.
Proof using Hsame. destruct Hsame as [Hs _]. destruct ws as [|t ws]; [by exists w|]. destruct (Hs t w) as (w' & E & ?). by exists w'. Qed.

Definition kernel_in (x : process) k (qs : list queued * list Z) (qa : list queued * list Z) : Prop :=
  so_container (sched k) = P /\ procs k !! P = Some x /\
  boxes k !! log = Some (mkMailbox qs.1 qs.2) /\ boxes k !! ack = Some (mkMailbox qa.1 qa.2).

(** The calls of the two threads. *)
Lemma call_write x k qs qa token (d0 d1 : Z) (to_log : bool) :
  kernel_in x k qs qa -> holds_end x token (if to_log then log else ack) perm_write ->
  exists k', KernelMain.rose_mailbox_write token (mkMessage type_user d0 d1) k = Ok (ok, k') /\
    if to_log then kernel_in x k' (qs.1 ++ [QUser d0 d1], tl qs.2) qa else kernel_in x k' qs (qa.1 ++ [QUser d0 d1], tl qa.2).
Proof using Hsame Hlog.
  intros (Hr & Hp & Hl & Ha) (h & Hh & Ht & Hpay & Hperm). rewrite <- Hr in Hp.
  destruct to_log.
  - destruct (wake_any qs.2 (sched k)) as (w' & Hw & Hc). eexists. split.
    + unfold KernelMain.rose_mailbox_write. erewrite token_ok by done. rewrite Hpay. by eapply write_user_ok.
    + split; [cbn; congruence|]. cbn. split; [congruence|]. by rewrite lookup_insert_eq, lookup_insert_ne.
  - destruct (wake_any qa.2 (sched k)) as (w' & Hw & Hc). eexists. split.
    + unfold KernelMain.rose_mailbox_write. erewrite token_ok by done. rewrite Hpay. by eapply write_user_ok.
    + split; [cbn; congruence|]. cbn. split; [congruence|]. by rewrite lookup_insert_eq, lookup_insert_ne by done.
Qed.
Lemma call_wait x k qs qa token (from_log : bool) :
  kernel_in x k qs qa -> holds_end x token (if from_log then log else ack) perm_read -> (if from_log then qs.1 else qa.1) = [] ->
  exists t k', KernelMain.rose_mailbox_read clock token 0 k = Ok (None, k') /\
    if from_log then kernel_in x k' ([], qs.2 ++ [t]) qa else kernel_in x k' qs ([], qa.2 ++ [t]).
Proof using Hsame Hlog.
  intros (Hr & Hp & Hl & Ha) (h & Hh & Ht & Hpay & Hperm) Hq. rewrite <- Hr in Hp. destruct Hsame as [_ Hd]. destruct (Hd (sched k)) as (t & w' & E & Hc). exists t.
  destruct from_log; rewrite Hq in *; eexists; (split; [unfold KernelMain.rose_mailbox_read; erewrite token_ok by done; rewrite Hpay; by eapply read_waits|]);
    (split; [cbn; congruence|]); cbn; (split; [congruence|]); by rewrite lookup_insert_eq, lookup_insert_ne by done.
Qed.
Lemma call_take x k qs qa token d0 d1 q (from_log : bool) :
  kernel_in x k qs qa -> holds_end x token (if from_log then log else ack) perm_read -> (if from_log then qs.1 else qa.1) = QUser d0 d1 :: q ->
  exists k', KernelMain.rose_mailbox_read clock token 0 k = Ok (Some (ok, Some (mkMessage type_user d0 d1)), k') /\
    if from_log then kernel_in x k' (q, qs.2) qa else kernel_in x k' qs (q, qa.2).
Proof using Hlog.
  intros (Hr & Hp & Hl & Ha) (h & Hh & Ht & Hpay & Hperm) Hq. pose proof Hp as Hp'. rewrite <- Hr in Hp'.
  destruct from_log; rewrite Hq in *; eexists; (split; [unfold KernelMain.rose_mailbox_read; erewrite token_ok by done; rewrite Hpay; by eapply read_takes|]);
    (split; [cbn; congruence|]); cbn; (split; [congruence|]); by rewrite lookup_insert_eq, lookup_insert_ne by done.
Qed.

(** The thread that prints takes a message, prints and answers. *)
Lemma handler_prints x v k sc (n : nat) buffer t : tokens_held x -> buffer_mapped v -> (0 < n <= 4096)%nat -> length buffer = 4096%nat ->
  kernel_in x k ([QUser address (Z.of_nat n)], []) ([], [t]) ->
  exists v' k' t', serve (log_handler clock log_token ack_write_token tag vas (in_buffer address buffer)) (mkLog (mkWhole v k) sc) =
      Ok (tt, mkLog (mkWhole v' k') (sc ++ line (take n buffer))) /\ buffer_mapped v' /\ kernel_in x k' ([], [t']) ([QUser 0 0], []).
Proof using Hsame Hlog Haddress H64.
  intros [_ _ Tl Ta] Hm Hn Hlen K.
  destruct (call_take x k _ _ log_token address (Z.of_nat n) [] true K Tl eq_refl) as (k1 & E1 & K1). cbn [snd] in K1.
  destruct (lock_unlock v (Z.of_nat n) Haddress H64 Hm ltac:(lia)) as (p & v1 & v2 & El & Eu & Hm2).
  set (k2 := with_claims (claims v2) (with_claims (claims v1) k1)).
  assert (kernel_in x k2 ([], []) ([], [t])) as K2 by exact K1.
  destruct (call_write x k2 _ _ ack_write_token 0 0 false K2 Ta) as (k3 & E3 & K3). cbn in K3.
  destruct (call_wait x k3 _ _ log_token true K3 Tl eq_refl) as (t' & k4 & E4 & K4). cbn in K4.
  exists v2, k4, t'. split; [|done]. unfold serve.
  assert (log_handler clock log_token ack_write_token tag vas (in_buffer address buffer) (mkLog (mkWhole v k) sc) =
    Ok (true, mkLog (mkWhole v2 k3) (sc ++ line (take n buffer)))) as Estep.
  { unfold log_handler at 1. erewrite bind_Ok by (by apply lift_kernel, E1). cbv beta iota. cbn [m_type data0 data1].
    change (negb (type_user =? type_user)) with false. cbv iota. rewrite (proj2 (Z.eqb_neq address 0)) by lia.
    erewrite bind_Ok by (by apply lift_memory, El). cbv beta iota.
    erewrite bind_Ok by reflexivity. rewrite text_at_buffer by lia.
    erewrite bind_Ok by (by apply lift_memory, Eu). erewrite bind_Ok by (by apply lift_kernel, E3). done. }
  erewrite bind_Ok by exact Estep. cbn [negb].
  unfold log_handler. rewrite bind_assoc. erewrite bind_Ok by (by apply lift_kernel, E4). done.
Qed.

Lemma on_world_ok {W A} (m : M W A) w w' a st at_ b c : m w = Ok (a, w') -> on_world m (mkPrinter w st at_ b c) = Ok (a, mkPrinter w' st at_ b c).
Proof using Type. unfold on_world. cbn. by intros ->. Qed.

(** A flush: the text in the buffer is on the screen, behind the name. *)
Abbreviation calls := (log_calls clock address log_token ack_write_token tag vas).
Lemma flush_shows x (s : printer (log_world S)) (c : nat) : tokens_held x -> idle x (p_world s) ->
  logging_send_mailbox_token s = send_token -> logging_ack_mailbox_token s = ack_token -> length (log_buffer s) = 4096%nat ->
  log_cursor s = Some c -> (0 < c <= 4096)%nat ->
  exists w', flush (LC := calls) address s = Ok (tt, mkPrinter w' send_token ack_token (log_buffer s) (Some 0%nat)) /\ idle x w' /\
    screen w' = screen (p_world s) ++ line (take c (log_buffer s)).
Proof using Hsame Hlog Haddress H64.
  intros T [Hr Hp [t Hl] Ha Hm] Es Ea Hlen Ec Hc. destruct s as [[[v k] sc] st at_ buffer cur].
  cbn [p_world l_whole w_kernel w_memory screen logging_send_mailbox_token logging_ack_mailbox_token log_buffer log_cursor] in *. subst st at_ cur.
  assert (kernel_in x k ([], [t]) ([], [])) as K by done.
  destruct (call_write x k _ _ send_token address (Z.of_nat c) true K (th_send _ T)) as (k1 & E1 & K1). cbn in K1.
  destruct (call_wait x k1 _ _ ack_token false K1 (th_ack _ T) eq_refl) as (t1 & k2 & E2 & K2). cbn in K2.
  destruct (handler_prints x v k2 sc c buffer t1 T Hm Hc Hlen K2) as (v3 & k3 & t3 & E3 & Hm3 & K3).
  destruct (call_take x k3 _ _ ack_token 0 0 [] false K3 (th_ack _ T) eq_refl) as (k4 & E4 & K4). cbn in K4.
  exists (mkLog (mkWhole v3 k4) (sc ++ line (take c buffer))). split.
  - unfold flush. erewrite (bind_Ok (gets id)) by reflexivity. cbn [id log_cursor logging_send_mailbox_token logging_ack_mailbox_token log_buffer].
    erewrite bind_Ok by (apply on_world_ok; by apply lift_kernel, E1). cbv beta. rewrite bool_decide_eq_true_2 by done. cbn [negb].
    erewrite bind_Ok; [|apply on_world_ok; cbn [log_read log_calls]; unfold blocking_read; erewrite bind_Ok by (by apply lift_kernel, E2); cbv beta iota;
      erewrite bind_Ok by exact E3; erewrite bind_Ok by (by apply lift_kernel, E4); reflexivity].
    cbv beta. by rewrite bool_decide_eq_true_2.
  - destruct K4 as (? & ? & ? & ?). split; [|done]. split; try done. by exists t3.
Qed.

(** ** Printing *)

(** The printer with [p] in its buffer. *)
Record ready (x : process) (s : printer (log_world S)) (p : bytes) : Prop := {
  re_idle : idle x (p_world s);
  re_send : logging_send_mailbox_token s = send_token;
  re_ack : logging_ack_mailbox_token s = ack_token;
  re_buffer : length (log_buffer s) = 4096%nat;
  re_cursor : log_cursor s = Some (length p) \/ (p = [] /\ log_cursor s = None);
  re_text : take (length p) (log_buffer s) = p;
  re_room : (length p < 4096)%nat
}.

(** The buffers that are sent when they are full, and what is left. *)
Fixpoint feed (p l : bytes) : list bytes * bytes :=
  match l with
  | [] => ([], p)
  | ch :: l' =>
      if (length (p ++ [ch]) =? 4096)%nat then let r := feed [] l' in ((p ++ [ch]) :: r.1, r.2) else feed (p ++ [ch]) l'
  end.
Lemma feed_text p l : concat (feed p l).1 ++ (feed p l).2 = p ++ l.
Proof using Type.
  revert p. induction l as [|ch l IH]; intros p; cbn -[Nat.eqb]; [by rewrite app_nil_r|]. destruct (Nat.eqb _ _); cbn.
  - rewrite <- !(assoc_L (++)), IH. done.
  - by rewrite IH, <- (assoc_L (++)).
Qed.
Lemma feed_sizes p l : (length p < 4096)%nat -> Forall (fun c => length c = 4096%nat) (feed p l).1 /\ (length (feed p l).2 < 4096)%nat.
Proof using Type.
  clear clock. revert p. induction l as [|ch l IH]; intros p Hp; cbn -[Nat.eqb]; [by split|]. destruct (Nat.eqb_spec (length (p ++ [ch])) 4096) as [E|E].
  - destruct (IH []) as [H1 H2]; [cbn; lia|]. split; [by constructor|done].
  - apply IH. rewrite length_app in *. cbn in *. lia.
Qed.
Lemma sizes_total (cs : list bytes) : Forall (fun c => length c = 4096%nat) cs -> length (concat cs) = (4096 * length cs)%nat.
Proof using Type. clear clock. induction 1 as [|c cs E _ IH]; [done|]. cbn [concat length]. rewrite length_app. lia. Qed.

Lemma put_char_ok x s p ch : tokens_held x -> ready x s p -> exists s', put_char (LC := calls) address ch s = Ok (tt, s') /\
  if (length (p ++ [ch]) =? 4096)%nat then ready x s' [] /\ screen (p_world s') = screen (p_world s) ++ line (p ++ [ch])
  else ready x s' (p ++ [ch]) /\ screen (p_world s') = screen (p_world s).
Proof using Hsame Hlog Haddress H64.
  intros T [Hi Hs Ha Hb Hc Ht Hr]. unfold put_char. erewrite (bind_Ok (gets id)) by reflexivity.
  change (id s) with s. assert (default 0%nat (log_cursor s) = length p) as -> by (by destruct Hc as [-> | [-> ->]]).
  rewrite (proj2 (Nat.leb_gt _ _)) by (unfold buffer_size; lia). erewrite bind_Ok by reflexivity.
  set (s1 := mkPrinter _ _ _ _ _). assert (take (Datatypes.S (length p)) (log_buffer s1) = p ++ [ch]) as Htext.
  { unfold s1. cbn [log_buffer]. rewrite (take_S_r _ _ ch) by (apply list_lookup_insert_eq; lia).
    rewrite take_insert_ge by lia. by rewrite Ht. }
  rewrite length_app. cbn [length]. replace (length p + 1)%nat with (Datatypes.S (length p)) by lia. unfold buffer_size.
  destruct (Nat.eqb_spec (Datatypes.S (length p)) 4096) as [E|E].
  - destruct (flush_shows x s1 (Datatypes.S (length p)) T Hi Hs Ha) as (w' & Ef & Hi' & Hsc); [unfold s1; cbn; by rewrite length_insert|done|lia|].
    eexists. split; [exact Ef|]. split.
    + split; try done; [unfold s1; cbn; by rewrite length_insert|by left|cbn; lia].
    + cbn [p_world]. rewrite Hsc, Htext. done.
  - eexists. split; [reflexivity|]. split; [|done]. split; try done.
    + unfold s1. cbn. by rewrite length_insert.
    + left. rewrite length_app. cbn. f_equal. lia.
    + rewrite length_app. cbn [length]. replace (length p + 1)%nat with (Datatypes.S (length p)) by lia. exact Htext.
    + rewrite length_app. cbn. lia.
Qed.
Lemma put_text_ok x l : tokens_held x -> forall s p, ready x s p -> exists s', put_text (LC := calls) address l s = Ok (tt, s') /\
  ready x s' (feed p l).2 /\ screen (p_world s') = screen (p_world s) ++ concat (line <$> (feed p l).1).
Proof using Hsame Hlog Haddress H64.
  intros T. induction l as [|ch l IH]; intros s p R; cbn -[Nat.eqb]; [exists s; by rewrite app_nil_r|].
  destruct (put_char_ok x s p ch T R) as (s1 & E1 & H1). erewrite bind_Ok by exact E1. destruct (Nat.eqb _ _); destruct H1 as [R1 S1].
  - destruct (IH s1 [] R1) as (s2 & E2 & R2 & S2). exists s2. split; [done|]. split; [done|]. cbn. by rewrite S2, S1, <- (assoc_L (++)).
  - destruct (IH s1 (p ++ [ch]) R1) as (s2 & E2 & R2 & S2). exists s2. split; [done|]. split; [done|]. by rewrite S2, S1.
Qed.
End laws.

(** C11: what a process prints is what is shown.  The text and its newline reach the
    screen whole and in order, in pieces of the size of the buffer and a last, shorter
    one, each behind the name of the process; afterwards the printer's buffer is empty
    and the thread that prints waits again.  A text that fills its last buffer to the
    end is left out. *)
Theorem println_shown {S : Type} {SO : SchedulerOps S} {PM : Permissions} clock
    P vas log ack send_token ack_token log_token ack_write_token address tag x (s : printer (log_world S)) l :
  same_process -> log <> ack -> 0 < address -> address + 4096 < 2 ^ 64 -> send_token <> 0 ->
  tokens_held log ack send_token ack_token log_token ack_write_token x ->
  ready P vas log ack send_token ack_token address x s [] -> (Datatypes.S (length l) mod 4096 <> 0)%nat ->
  exists s' cs r, println (LC := log_calls clock address log_token ack_write_token tag vas) address l s = Ok (tt, s') /\
    concat cs ++ r = l ++ [10] /\ Forall (fun c => length c = 4096%nat) cs /\ (0 < length r < 4096)%nat /\
    screen (p_world s') = screen (p_world s) ++ concat (line tag <$> cs ++ [r]) /\
    ready P vas log ack send_token ack_token address x s' [].
Proof.
  intros Hsame Hlog Ha H64 Hst T R Hmod. unfold println. erewrite (bind_Ok (gets id)) by reflexivity. unfold id at 1.
  rewrite (re_send _ _ _ _ _ _ _ _ _ _ R), (proj2 (Z.eqb_neq _ _) Hst).
  assert (put_text (LC := log_calls clock address log_token ack_write_token tag vas) address (l ++ [10]) s =
    (put_text (LC := log_calls clock address log_token ack_write_token tag vas) address l ;;
     put_char (LC := log_calls clock address log_token ack_write_token tag vas) address 10) s) as Happ.
  { generalize s. clear. induction l as [|ch l IH]; intros s.
    - cbn [app put_text]. unfold bind, ret. by destruct (put_char _ _ _) as [[[] ?]|].
    - cbn [app put_text]. unfold bind in *. destruct (put_char _ ch s) as [[[] s1]|]; [apply IH|done]. }
  destruct (put_text_ok clock P vas log ack send_token ack_token log_token ack_write_token address tag Hsame Hlog Ha H64 x (l ++ [10]) T s [] R) as (s1 & E1 & R1 & S1).
  rewrite Happ in E1. rewrite <- bind_assoc. erewrite bind_Ok by exact E1.
  pose proof (feed_text [] (l ++ [10])) as Ht. destruct (feed_sizes [] (l ++ [10])) as [Hcs Hr]; [cbn; lia|].
  destruct (feed [] (l ++ [10])) as [cs r]. cbn [fst snd] in *.
  assert (0 < length r)%nat as Hr0.
  { destruct r; [|cbn; lia]. exfalso. apply Hmod. apply (f_equal length) in Ht. rewrite !length_app, (sizes_total cs Hcs) in Ht. cbn [length] in Ht.
    replace (Datatypes.S (length l)) with (length cs * 4096)%nat by lia. apply Nat.Div0.mod_mul. }
  destruct R1 as [Hi Hs Hk Hb Hc Htx Hrm]. destruct Hc as [Hc|[-> _]]; [|cbn in Hr0; lia].
  destruct (flush_shows clock P vas log ack send_token ack_token log_token ack_write_token address tag Hsame Hlog Ha H64 x s1 (length r) T Hi Hs Hk Hb Hc ltac:(lia)) as (w' & Ef & Hi' & Sf).
  eexists _, cs, r. split; [exact Ef|]. split; [done|]. split; [done|]. split; [lia|]. split.
  - cbn [p_world]. rewrite Sf, S1, Htx, fmap_app, concat_app. cbn. by rewrite app_nil_r, <- (assoc_L (++)).
  - split; try done; [by left|cbn; lia].
Qed.

(** ** Witnesses *)

(** A process with the printer's tokens, a buffer that is a page of its own, and a
    thread that waits to print. *)
#[local] Instance one_process : SchedulerOps Z := { so_schedule _ := ret tt; so_deschedule := ret 7; so_container c := c }.
#[local] Instance few_permissions : Permissions := { perm_read := 1; perm_write := 2; perm_transfer := 4; perm_clone := 8; perm_all := 15 }.
Definition printing_process : process :=
  mkProcess true 0x40 {[1 := mkHandle 0x700 T_mailbox 0x500 14; 2 := mkHandle 0x740 T_mailbox 0x600 13;
                        3 := mkHandle 0x780 T_mailbox 0x500 1; 4 := mkHandle 0x7c0 T_mailbox 0x600 2]}.
Definition printing_kernel : kernel Z :=
  mkKernel {[0x200 := printing_process]} {[0x500 := mkMailbox [] [9]; 0x600 := mkMailbox [] []]} ∅ 0x200 0 0x1000 [].
Definition fresh_printer : printer (log_world Z) := mkPrinter (mkLog (mkWhole memory1 printing_kernel) []) 1 2 (replicate 4096 0) None.
Definition plain_calls : LogCalls (log_world Z) := log_calls (fun n => Z.of_nat n) 0x400000 3 4 (text "bootinit") 0x40.

Lemma fresh_ready : ready 0x200 0x40 0x500 0x600 1 2 0x400000 printing_process fresh_printer [].
Proof.
  split; [|done|done| |by right|done|cbn; lia].
  - split; try done; [by exists 9|]. exists one_mapped, [(0x1000, page_mapping)], 0x1000, page_mapping.
    split; [done|]. split; [exact one_rep|]. split; [set_solver|cbn; lia].
  - apply length_replicate.
Qed.
Lemma println_shown_witness : exists s' cs r, println (LC := plain_calls) 0x400000 (text "Parsing initrd image...") fresh_printer = Ok (tt, s') /\
  concat cs ++ r = text "Parsing initrd image..." ++ [10] /\ Forall (fun c => length c = 4096%nat) cs /\ (0 < length r < 4096)%nat /\
  screen (p_world s') = [] ++ concat (line (text "bootinit") <$> cs ++ [r]) /\ ready 0x200 0x40 0x500 0x600 1 2 0x400000 printing_process s' [].
Proof.
  apply (println_shown (fun n => Z.of_nat n) 0x200 0x40 0x500 0x600 1 2 3 4 0x400000 (text "bootinit") printing_process fresh_printer (text "Parsing initrd image..."));
    [|lia|lia|lia|lia| |apply fresh_ready|vm_compute; lia].
  - split; [intros t w; by exists w|intros w; by exists 7, w].
  - split; eexists; repeat split; reflexivity.
Defined.
Example printed : match println (LC := plain_calls) 0x400000 (text "Hello") fresh_printer with
  | Ok (_, s) => screen (p_world s) = text "[bootinit] Hello" ++ [10] | Err _ => False end.
Proof. by vm_compute. Qed.

(** A text that fills the buffer is sent when its newline comes and then once more, with
    nothing in the buffer.  An empty range at the start of a mapping overlaps nothing,
    so that the kernel stops there. *)
Example full_buffer : match println (LC := plain_calls) 0x400000 (replicate 4095 65) fresh_printer with
  | Ok _ => False | Err e => e = Panic "{} logging mailbox contained a message pointing to an unmapped address!" end.
Proof. by vm_compute. Qed.
