(* ===== verification/Screen.v ===== *)
(** * The screen of the kernel: kernel/boot/screen.cpp

    Characters are drawn into a buffer in memory and into the frame buffer of the
    graphics card; both hold one 32-bit word per pixel.  The buffers are functions from
    the index of a word, with the number of words the mode gives; the bitmap of the
    font is data and a parameter. *)
From S2P Require Import Prelude.

(** ** State *)

Inductive pixel_format : Type := rgb | bgr | mask.
(** boot-video.h *)
Record video_mode : Type := mkMode {
  framebuffer_size : Z; mode_x : Z; mode_y : Z; ppl : Z; format : pixel_format; red : Z; green : Z; blue : Z
}.
Record screen : Type := mkScreen {
  valid : bool; mode : video_mode; frame : Z -> Z; back : Z -> Z; x : Z; y : Z; maxx : Z; maxy : Z
}.

Section ops.
(** The bytes of the font, sixteen for each character. *)
Context (bitmap_font : Z -> Z).
Abbreviation SM := (M screen).

Definition words (m : video_mode) : Z := framebuffer_size m / 4.
Definition set_buffers (f b : Z -> Z) (s : screen) : screen := mkScreen (valid s) (mode s) f b (x s) (y s) (maxx s) (maxy s).
Definition set_cursor (cx cy : Z) (s : screen) : screen := mkScreen (valid s) (mode s) (frame s) (back s) (u16 cx) (u16 cy) (maxx s) (maxy s).
Definition cursor_to (cx cy : Z) : SM unit := modify (set_cursor cx cy).

Definition clear : SM unit :=
  let* s := gets id in
  if negb (valid s) then ret tt else
  let zero p := fun i => if (0 <=? i) && (i <? words (mode s)) then 0 else p i in
  modify (fun s => set_buffers (zero (frame s)) (zero (back s)) s) ;;
  cursor_to 0 0.

Definition initialize (m : video_mode) : SM unit :=
  modify (fun s => mkScreen true m (frame s) (back s) (x s) (y s) (u16 (mode_x m / 8)) (u16 (mode_y m / 16))) ;;
  clear.

(** [scroll]: the sizes are computed in 32 bits; a copy past the buffer is a fault. *)
Definition scroll : SM unit :=
  let* s := gets id in
  if negb (valid s) then ret tt else
  let line := u32 (ppl (mode s) * 16) in
  let kept := u32 (u32 (u32 (maxy s - 1) * ppl (mode s)) * 16) in
  if words (mode s) <? line + kept then fail Fault else
  let b := fun i => if (0 <=? i) && (i <? kept) then back s (i + line)
                    else if (kept <=? i) && (i <? kept + line) then 0 else back s i in
  let f := fun i => if (0 <=? i) && (i <? words (mode s)) then b i else frame s i in
  modify (set_buffers f b) ;;
  cursor_to (x s) (y s - 1).

Definition color (m : video_mode) : Z :=
  match format m with
  | rgb | bgr => 0x00ffffff
  | mask => Z.land 0xffffffff (Z.lor (Z.lor (red m) (green m)) (blue m))
  end.
(** [(row_data >> (7 - column)) & 1 ? color : 0] *)
Definition pixel (m : video_mode) (row_data : Z) (column : nat) : Z :=
  if negb (Z.land (Z.shiftr row_data (7 - Z.of_nat column)) 1 =? 0) then color m else 0.
Definition write_pixel (i v : Z) : SM unit :=
  let* s := gets id in
  if (0 <=? i) && (i <? words (mode s)) then
    modify (fun s => set_buffers (fun j => if j =? i then v else frame s j) (fun j => if j =? i then v else back s j) s)
  else fail Fault.
Fixpoint draw_columns (k column : nat) (dest row_data : Z) : SM unit :=
  match k with
  | O => ret tt
  | S k' =>
      let* m := gets mode in
      write_pixel (dest + Z.of_nat column) (pixel m row_data column) ;;
      draw_columns k' (S column) dest row_data
  end.
Definition font_byte (i : Z) : SM Z := if (0 <=? i) && (i <? 4096) then ret (bitmap_font i) else fail Fault.
Fixpoint draw_rows (k : nat) (row : Z) (char_data dest : Z) : SM unit :=
  match k with
  | O => ret tt
  | S k' =>
      let* row_data := font_byte (char_data + row) in
      draw_columns 8 0 dest row_data ;;
      let* m := gets mode in
      draw_rows k' (row + 1) char_data (dest + ppl m)
  end.

(** A [char] is signed. *)
Definition draw (c : Z) : SM unit :=
  let* s := gets id in
  let dest := u32 (u32 (y s * ppl (mode s)) * 16) + x s * 8 in
  draw_rows 16 0 (c * 16) dest ;;
  cursor_to (x s + 1) (y s).

(** [while (y >= maxy) scroll()] *)
Fixpoint scroll_down (fuel : nat) : SM unit :=
  match fuel with
  | O => fail NoFuel
  | S n => let* s := gets id in if maxy s <=? y s then scroll ;; scroll_down n else ret tt
  end.

Definition put_char (c : Z) : SM unit :=
  let* s := gets id in
  if negb (valid s) then ret tt else
  (if c =? 10 then cursor_to 0 (y s + 1)
   else if c =? 9 then cursor_to (x s + (8 - x s mod 8)) (y s)
   else draw c) ;;
  let* s := gets id in
  (if x s =? maxx s then cursor_to 0 (y s + 1) else ret tt) ;;
  let* s := gets id in
  scroll_down (S (Z.to_nat (y s))).
Fixpoint put_text (l : list Z) : SM unit :=
  match l with [] => ret tt | c :: l' => put_char c ;; put_text l' end.

(** ** A terminal *)

(** What a screen is meant to be: characters in rows and columns. *)
Record terminal : Type := mkTerminal { grid : Z -> Z -> option Z; tx : Z; ty : Z }.
Definition empty_terminal : terminal := mkTerminal (fun _ _ => None) 0 0.
Section terminal.
Context (columns rows : Z).
Definition typed (c : Z) (t : terminal) : terminal :=
  if c =? 10 then mkTerminal (grid t) 0 (ty t + 1)
  else if c =? 9 then mkTerminal (grid t) (8 * (tx t / 8 + 1)) (ty t)
  else mkTerminal (fun row col => if (row =? ty t) && (col =? tx t) then Some c else grid t row col) (tx t + 1) (ty t).
Definition wrapped (t : terminal) : terminal := if tx t =? columns then mkTerminal (grid t) 0 (ty t + 1) else t.
Definition scrolled (t : terminal) : terminal :=
  if ty t =? rows then mkTerminal (fun row col => if row =? rows - 1 then None else grid t (row + 1) col) (tx t) (ty t - 1) else t.
Definition show (c : Z) (t : terminal) : terminal := scrolled (wrapped (typed c t)).
End terminal.

(** ** The pixels of a terminal *)

Definition cell_pixel (m : video_mode) (c : option Z) (r k : Z) : Z :=
  match c with Some c => pixel m (bitmap_font (c * 16 + r)) (Z.to_nat k) | None => 0 end.
(** A mode whose columns fit into its lines and whose lines fit into the buffers; tabs
    do not step over the last column. *)
Record mode_ok (m : video_mode) (columns rows : Z) : Prop := {
  mo_columns : 0 < columns < 2 ^ 13 /\ columns mod 8 = 0;
  mo_rows : 0 < rows < 2 ^ 12;
  mo_line : 8 * columns <= ppl m;
  mo_size : rows * 16 * ppl m <= words m;
  mo_32 : rows * 16 * ppl m < 2 ^ 32
}.
Definition rows_words (m : video_mode) : Z := mode_y m / 16 * 16 * ppl m.
Definition place (m : video_mode) (row r col k : Z) : Z := (row * 16 + r) * ppl m + (col * 8 + k).
Definition cells (m : video_mode) (columns rows : Z) (p : Z -> Z) (g : Z -> Z -> option Z) : Prop :=
  forall row r col k, 0 <= row < rows -> 0 <= r < 16 -> 0 <= col < columns -> 0 <= k < 8 ->
    p (place m row r col k) = cell_pixel m (g row col) r k.
Record displays (m : video_mode) (columns rows : Z) (s : screen) (t : terminal) : Prop := {
  di_valid : valid s = true /\ mode s = m /\ maxx s = columns /\ maxy s = rows;
  di_cursor : x s = tx t /\ y s = ty t;
  di_inside : 0 <= tx t < columns /\ 0 <= ty t < rows;
  di_back : cells m columns rows (back s) (grid t);
  di_frame : cells m columns rows (frame s) (grid t)
}.

(** ** Drawing *)

Lemma buffers_again f b g c s : set_buffers g c (set_buffers f b s) = set_buffers g c s.
Proof using Type. done. Qed.

Lemma draw_columns_ok k : forall column dest rd s, 0 <= dest + Z.of_nat column -> dest + Z.of_nat (column + k) <= words (mode s) ->
  exists f b, draw_columns k column dest rd s = Ok (tt, set_buffers f b s) /\
    forall i, f i = (if (dest + Z.of_nat column <=? i) && (i <? dest + Z.of_nat (column + k)) then pixel (mode s) rd (Z.to_nat (i - dest)) else frame s i) /\
              b i = (if (dest + Z.of_nat column <=? i) && (i <? dest + Z.of_nat (column + k)) then pixel (mode s) rd (Z.to_nat (i - dest)) else back s i).
Proof using Type.
  induction k as [|k IH]; intros column dest rd s Hlo Hhi; cbn [draw_columns].
  - exists (frame s), (back s). split; [by destruct s|]. intros i. rewrite Nat.add_0_r.
    assert ((dest + Z.of_nat column <=? i) && (i <? dest + Z.of_nat column) = false) as -> by (apply andb_false_iff; rewrite Z.leb_gt, Z.ltb_ge; lia). done.
  - erewrite bind_Ok by reflexivity. unfold write_pixel at 1. rewrite bind_assoc. erewrite bind_Ok by reflexivity. unfold id at 1.
    rewrite (proj2 (Z.leb_le 0 _)), (proj2 (Z.ltb_lt _ (words _))) by (try exact Hlo; lia). cbn [andb]. erewrite bind_Ok by reflexivity.
    match goal with |- context [draw_columns k _ _ _ ?s1] => set (s1' := s1) end.
    destruct (IH (S column) dest rd s1') as (f & b & E & Hp); [lia|unfold s1'; cbn; lia|].
    exists f, b. split; [exact E|]. intros i. destruct (Hp i) as [-> ->]. unfold s1'. cbn [frame back mode set_buffers].
    replace (column + S k)%nat with (S column + k)%nat by lia.
    destruct (Z.eqb_spec i (dest + Z.of_nat column)) as [->|Hne].
    + rewrite (proj2 (Z.leb_gt _ _)) by lia. rewrite (proj2 (Z.leb_le _ _)), (proj2 (Z.ltb_lt _ _)) by lia. cbn [andb].
      by replace (Z.to_nat (dest + Z.of_nat column - dest)) with column by lia.
    + replace (dest + Z.of_nat (S column) <=? i) with (dest + Z.of_nat column <=? i); [done|].
      destruct (Z.leb_spec (dest + Z.of_nat column) i), (Z.leb_spec (dest + Z.of_nat (S column)) i); try done; lia.
Qed.

(** What the rows of a character leave in a buffer. *)
Definition drawn (m : video_mode) (k : nat) (row cd dest : Z) (p p' : Z -> Z) : Prop :=
  (forall r j, 0 <= r < Z.of_nat k -> 0 <= j < 8 -> p' (dest + r * ppl m + j) = pixel m (bitmap_font (cd + row + r)) (Z.to_nat j)) /\
  (forall i, (forall r j, 0 <= r < Z.of_nat k -> 0 <= j < 8 -> i <> dest + r * ppl m + j) -> p' i = p i).

Lemma drawn_step m k row cd dest p p1 p' : 8 <= ppl m ->
  (forall i, p1 i = if (dest <=? i) && (i <? dest + 8) then pixel m (bitmap_font (cd + row)) (Z.to_nat (i - dest)) else p i) ->
  drawn m k (row + 1) cd (dest + ppl m) p1 p' -> drawn m (S k) row cd dest p p'.
Proof using Type.
  intros Hp H1 [Hin Hout]. split.
  - intros r j Hr Hj. destruct (decide (r = 0)) as [->|].
    + rewrite Hout by (intros r' j' ? ?; nia). rewrite H1. rewrite (proj2 (Z.leb_le _ _)), (proj2 (Z.ltb_lt _ _)) by lia. cbn [andb].
      f_equal; [f_equal; lia|]. f_equal. lia.
    + replace (dest + r * ppl m + j) with (dest + ppl m + (r - 1) * ppl m + j) by lia. rewrite Hin by lia. do 2 f_equal. lia.
  - intros i Hi. rewrite Hout.
    + rewrite H1. destruct ((dest <=? i) && (i <? dest + 8)) eqn:E; [|done].
      apply andb_true_iff in E as [E1%Z.leb_le E2%Z.ltb_lt]. exfalso. apply (Hi 0 (i - dest)); lia.
    + intros r j Hr Hj ->. apply (Hi (r + 1) j); lia.
Qed.
Lemma draw_rows_ok k : forall row cd dest s, 8 <= ppl (mode s) -> 0 <= dest -> 0 <= cd + row -> cd + row + Z.of_nat k <= 4096 ->
  dest + (Z.of_nat k - 1) * ppl (mode s) + 8 <= words (mode s) ->
  exists f b, draw_rows k row cd dest s = Ok (tt, set_buffers f b s) /\ drawn (mode s) k row cd dest (frame s) f /\ drawn (mode s) k row cd dest (back s) b.
Proof using Type.
  induction k as [|k IH]; intros row cd dest s Hppl Hd Hc Hc' Hw; cbn [draw_rows].
  - exists (frame s), (back s). split; [by destruct s|]. split; (split; [intros; lia|done]).
  - unfold font_byte at 1. rewrite (proj2 (Z.leb_le 0 _)), (proj2 (Z.ltb_lt _ 4096)) by lia. cbn [andb]. erewrite bind_Ok by reflexivity.
    destruct (draw_columns_ok 8 0 dest (bitmap_font (cd + row)) s) as (f & b & E & Hp); [lia|nia|]. erewrite bind_Ok by exact E. erewrite bind_Ok by reflexivity.
    destruct (IH (row + 1) cd (dest + ppl (mode s)) (set_buffers f b s)) as (f' & b' & E' & Df & Db); [done|cbn; lia|lia|lia|cbn; nia|].
    exists f', b'. split; [exact E'|]. cbn [mode set_buffers frame back] in Df, Db.
    split; [apply (drawn_step _ _ _ _ _ _ f)|apply (drawn_step _ _ _ _ _ _ b)]; try done; intros i; destruct (Hp i) as [Hf Hb].
    + rewrite Hf. cbn [Z.of_nat]. by rewrite !Z.add_0_r.
    + rewrite Hb. cbn [Z.of_nat]. by rewrite !Z.add_0_r.
Qed.

Lemma same_line n u v a b : 0 <= u < n -> 0 <= v < n -> a * n + u = b * n + v -> a = b.
Proof using Type. intros. destruct (Z.lt_trichotomy a b) as [|[|]]; [nia|done|nia]. Qed.

(** A character drawn in its cell. *)
Lemma drawn_cells m columns rows p p' g cx cy c : mode_ok m columns rows -> 0 <= cx < columns -> 0 <= cy < rows ->
  cells m columns rows p g -> drawn m 16 0 (c * 16) (cy * ppl m * 16 + cx * 8) p p' ->
  cells m columns rows p' (fun row col => if (row =? cy) && (col =? cx) then Some c else g row col).
Proof using Type.
  intros [[Hcol _] Hrow Hline _ _] Hx Hy Hg [Hin Hout] row r col k Hr0 Hr1 Hc0 Hk.
  destruct ((row =? cy) && (col =? cx)) eqn:E.
  - apply andb_true_iff in E as [->%Z.eqb_eq ->%Z.eqb_eq]. unfold place.
    replace ((cy * 16 + r) * ppl m + (cx * 8 + k)) with (cy * ppl m * 16 + cx * 8 + r * ppl m + k) by lia.
    rewrite Hin by lia. cbn [cell_pixel]. do 2 f_equal. lia.
  - rewrite Hout; [by apply Hg|]. intros r' j Hr' Hj Heq. unfold place in Heq.
    assert (row * 16 + r = cy * 16 + r') as Hrow' by (apply (same_line (ppl m) (col * 8 + k) (cx * 8 + j)); lia).
    assert (col * 8 + k = cx * 8 + j) by nia. apply andb_false_iff in E as [E%Z.eqb_neq|E%Z.eqb_neq]; lia.
Qed.

(** ** Scrolling *)

Lemma scroll_ok m columns rows s t : mode_ok m columns rows -> valid s = true /\ mode s = m /\ maxx s = columns /\ maxy s = rows ->
  x s = tx t /\ y s = ty t -> 0 <= tx t < columns -> ty t = rows ->
  cells m columns rows (back s) (grid t) -> cells m columns rows (frame s) (grid t) ->
  exists s', scroll s = Ok (tt, s') /\ displays m columns rows s' (scrolled rows t).
Proof using Type.
  intros [[Hcol _] Hrow Hline Hsize H32] (Hv & Hm & Hmx & Hmy) (Ex & Ey) Hx Hy Hb Hf. unfold scroll. erewrite (bind_Ok (gets id)) by reflexivity. change (id s) with s.
  rewrite Hv, Hm, Hmy. cbn [negb].
  assert (u32 (ppl m * 16) = ppl m * 16) as E1 by (apply Z.mod_small; nia).
  assert (u32 (u32 (u32 (rows - 1) * ppl m) * 16) = (rows - 1) * ppl m * 16) as E2.
  { unfold u32, wrapu. rewrite (Z.mod_small (rows - 1)) by lia. rewrite (Z.mod_small ((rows - 1) * ppl m)) by nia. apply Z.mod_small. nia. }
  rewrite E1, E2, (proj2 (Z.ltb_ge _ _)) by nia. erewrite bind_Ok by reflexivity. eexists. split; [reflexivity|].
  unfold scrolled. rewrite (proj2 (Z.eqb_eq _ _)) by done.
  assert (forall p, cells m columns rows (back s) (grid t) ->
    (forall i, 0 <= i < rows * 16 * ppl m -> p i = if (0 <=? i) && (i <? (rows - 1) * ppl m * 16) then back s (i + ppl m * 16)
                    else if ((rows - 1) * ppl m * 16 <=? i) && (i <? (rows - 1) * ppl m * 16 + ppl m * 16) then 0 else back s i) ->
    cells m columns rows p (fun row col => if row =? rows - 1 then None else grid t (row + 1) col)) as Hcells.
  { intros p Hp Hpi row r col k Hr0 Hr1 Hc0 Hk. assert (0 <= place m row r col k < rows * 16 * ppl m) as Hpl by (unfold place; nia).
    rewrite Hpi by done. unfold place in *. destruct (Z.eqb_spec row (rows - 1)) as [->|Hne].
    - rewrite (proj2 (Z.ltb_ge _ _)) by nia. rewrite andb_false_r, (proj2 (Z.leb_le _ _)), (proj2 (Z.ltb_lt _ _)) by nia. done.
    - rewrite (proj2 (Z.leb_le _ _)), (proj2 (Z.ltb_lt _ _)) by nia. cbn [andb].
      rewrite <- (Hp (row + 1) r col k) by lia. unfold place. f_equal. lia. }
  split; cbn [valid mode maxx maxy x y tx ty grid back frame set_cursor set_buffers].
  - done.
  - rewrite Ex, Ey. split; apply Z.mod_small; lia.
  - lia.
  - apply Hcells; [done|]. done.
  - apply Hcells; [done|]. intros i Hi. rewrite (proj2 (Z.leb_le 0 i)), (proj2 (Z.ltb_lt i (words m))) by lia. cbn [andb]. done.
Qed.

(** ** Characters *)

(** On the way: the cursor may be behind the last column or below the last row. *)
Record lies (m : video_mode) (columns rows : Z) (s : screen) (t : terminal) : Prop := {
  li_valid : valid s = true /\ mode s = m /\ maxx s = columns /\ maxy s = rows;
  li_cursor : x s = tx t /\ y s = ty t;
  li_inside : 0 <= tx t <= columns /\ 0 <= ty t <= rows /\ (tx t = columns -> ty t < rows);
  li_back : cells m columns rows (back s) (grid t);
  li_frame : cells m columns rows (frame s) (grid t)
}.

Lemma type_ok m columns rows s t c : mode_ok m columns rows -> displays m columns rows s t -> 0 <= c < 128 ->
  exists s', (if c =? 10 then cursor_to 0 (y s + 1) else if c =? 9 then cursor_to (x s + (8 - x s mod 8)) (y s) else draw c) s = Ok (tt, s') /\
    lies m columns rows s' (typed c t).
Proof using Type.
  intros MO [Hv [Ex Ey] [Hx Hy] Hb Hf] Hc. pose proof MO as [[Hcol H8] Hrow Hline Hsize H32]. unfold typed. rewrite Ex, Ey.
  destruct (c =? 10); [|destruct (c =? 9)].
  - eexists. split; [reflexivity|]. split; cbn; try done; [split; apply Z.mod_small; lia|lia].
  - eexists. split; [reflexivity|]. pose proof (Z.div_mod (tx t) 8 ltac:(lia)). pose proof (Z.mod_pos_bound (tx t) 8 ltac:(lia)).
    pose proof (Z.div_mod columns 8 ltac:(lia)). split; cbn -[Z.mul Z.div Z.modulo]; try done; [|nia].
    split; [|apply Z.mod_small; lia]. unfold u16, wrapu. rewrite Z.mod_small by lia. lia.
  - unfold draw. erewrite (bind_Ok (gets id)) by reflexivity. change (id s) with s. destruct Hv as (Hv & Hm & Hmx & Hmy). rewrite Ex, Ey, Hm.
    assert (u32 (u32 (ty t * ppl m) * 16) = ty t * ppl m * 16) as -> by (unfold u32, wrapu; rewrite (Z.mod_small (ty t * ppl m)) by nia; apply Z.mod_small; nia).
    destruct (draw_rows_ok 16 0 (c * 16) (ty t * ppl m * 16 + tx t * 8) s) as (f & b & E & Df & Db); [rewrite Hm; lia|nia|lia|lia|rewrite Hm; nia|].
    erewrite bind_Ok by exact E. eexists. split; [reflexivity|]. rewrite Hm in Df, Db. split; cbn [valid mode maxx maxy x y tx ty grid back frame set_cursor set_buffers].
    + done.
    + split; apply Z.mod_small; lia.
    + lia.
    + by apply (drawn_cells m columns rows (back s)).
    + by apply (drawn_cells m columns rows (frame s)).
Qed.

Lemma screen_char_ok m columns rows s t c : mode_ok m columns rows -> displays m columns rows s t -> 0 <= c < 128 ->
  exists s', put_char c s = Ok (tt, s') /\ displays m columns rows s' (show columns rows c t).
Proof using Type.
  intros MO D Hc. pose proof MO as [[Hcol _] Hrow _ _ _]. unfold put_char. erewrite (bind_Ok (gets id)) by reflexivity. change (id s) with s.
  pose proof (di_valid _ _ _ _ _ D) as (Hv & _). rewrite Hv. cbn [negb].
  destruct (type_ok m columns rows s t c MO D Hc) as (s1 & E1 & L1). erewrite bind_Ok by exact E1. clear E1. set (t1 := typed c t) in *. unfold show. fold t1.
  erewrite (bind_Ok (gets id)) by reflexivity. change (id s1) with s1.
  assert (exists s2, (if x s1 =? maxx s1 then cursor_to 0 (y s1 + 1) else ret tt) s1 = Ok (tt, s2) /\ lies m columns rows s2 (wrapped columns t1) /\
    tx (wrapped columns t1) < columns) as (s2 & E2 & L2 & Hx2).
  { destruct L1 as [(Hv1 & Hm1 & Hmx1 & Hmy1) [Ex Ey] (Hx & Hy & Hxy) Hb Hf]. unfold wrapped. rewrite Ex, Hmx1. destruct (Z.eqb_spec (tx t1) columns) as [He|He].
    - eexists. split; [reflexivity|]. split; [|cbn; lia]. split; cbn; try done; [rewrite Ey; split; apply Z.mod_small; lia|lia].
    - exists s1. split; [done|]. split; [|lia]. by split. }
  erewrite bind_Ok by exact E2. erewrite (bind_Ok (gets id)) by reflexivity. change (id s2) with s2. set (t2 := wrapped columns t1) in *.
  destruct L2 as [Hv2 [Ex Ey] (Hx & Hy & _) Hb Hf]. cbn [scroll_down]. erewrite (bind_Ok (gets id)) by reflexivity. change (id s2) with s2.
  destruct Hv2 as (Hv2 & Hm2 & Hmx2 & Hmy2). rewrite Hmy2, Ey. destruct (Z.leb_spec rows (ty t2)) as [Hle|Hlt].
  - destruct (scroll_ok m columns rows s2 t2 MO) as (s3 & E3 & D3); [done|done|lia|lia|done|done|]. erewrite bind_Ok by exact E3. exists s3. split; [|done].
    replace (Z.to_nat (ty t2)) with (S (Z.to_nat (ty t2 - 1))) by lia. cbn [scroll_down]. erewrite (bind_Ok (gets id)) by reflexivity. change (id s3) with s3.
    destruct D3 as [(_ & _ & _ & Hmy3) [_ Ey3] [_ Hy3] _ _]. by rewrite Hmy3, Ey3, (proj2 (Z.leb_gt _ _)) by lia.
  - exists s2. split; [done|]. unfold scrolled. rewrite (proj2 (Z.eqb_neq _ _)) by lia. split; try done; lia.
Qed.

Lemma screen_text_ok m columns rows l : mode_ok m columns rows -> Forall (fun c => 0 <= c < 128) l -> forall s t, displays m columns rows s t ->
  exists s', put_text l s = Ok (tt, s') /\ displays m columns rows s' (fold_left (fun t c => show columns rows c t) l t).
Proof using Type.
  intros MO. induction 1 as [|c l Hc Hl IH]; intros s t D; [by exists s|]. cbn [put_text fold_left].
  destruct (screen_char_ok m columns rows s t c MO D Hc) as (s1 & E1 & D1). erewrite bind_Ok by exact E1. by apply IH.
Qed.
End ops.

(** C12: the screen shows what is printed.  In a mode whose lines fit into the buffers
    and have a multiple of eight columns,
    after the initialisation and any text of ASCII characters, every pixel of every
    cell, in the frame buffer and in the buffer behind it, is the pixel of the
    character a terminal of as many columns and rows would have there: newlines, tabs,
    the end of a line and the scrolling of full screens included. *)
Theorem screen_is_terminal bitmap_font m s l :
  mode_ok m (mode_x m / 8) (mode_y m / 16) -> Forall (fun c => 0 <= c < 128) l ->
  exists s', (initialize m ;; put_text bitmap_font l) s = Ok (tt, s') /\
    displays bitmap_font m (mode_x m / 8) (mode_y m / 16) s' (fold_left (fun t c => show (mode_x m / 8) (mode_y m / 16) c t) l empty_terminal).
Proof.
  intros MO Hl. pose proof MO as [[Hcol _] Hrow Hline Hsize H32]. unfold initialize, clear. rewrite bind_assoc. erewrite bind_Ok by reflexivity. rewrite bind_assoc.
  erewrite (bind_Ok (gets id)) by reflexivity. change (negb (valid _)) with false. cbv iota. rewrite bind_assoc. erewrite bind_Ok by reflexivity. erewrite bind_Ok by reflexivity.
  apply screen_text_ok; [done|done|]. split; cbn [valid mode maxx maxy x y tx ty grid back frame set_cursor set_buffers empty_terminal id].
  - repeat split; apply Z.mod_small; lia.
  - done.
  - lia.
  - intros row r col k Hr0 Hr1 Hc0 Hk. assert (0 <= place m row r col k < rows_words m) as Hp by (unfold place, rows_words; nia).
    unfold rows_words in Hp. by rewrite (proj2 (Z.leb_le 0 _)), (proj2 (Z.ltb_lt _ (words m))) by lia.
  - intros row r col k Hr0 Hr1 Hc0 Hk. assert (0 <= place m row r col k < rows_words m) as Hp by (unfold place, rows_words; nia).
    unfold rows_words in Hp. by rewrite (proj2 (Z.leb_le 0 _)), (proj2 (Z.ltb_lt _ (words m))) by lia.
Qed.

(** ** Witness and limits *)

(** A small screen of eight columns and two rows, and a font whose rows of pixels are
    the codes of the characters. *)
Definition sample_font (i : Z) : Z := i / 16.
Definition sample_mode : video_mode := mkMode 8192 64 32 64 rgb 0 0 0.
Definition dark : screen := mkScreen false sample_mode (fun _ => 7) (fun _ => 7) 3 4 0 0.
Lemma screen_is_terminal_witness :
  exists s', (initialize sample_mode ;; put_text sample_font [72; 105; 10; 9; 33]) dark = Ok (tt, s') /\
    displays sample_font sample_mode 8 2 s' (fold_left (fun t c => show 8 2 c t) [72; 105; 10; 9; 33] empty_terminal).
Proof.
  apply (screen_is_terminal sample_font sample_mode dark [72; 105; 10; 9; 33]); [|repeat constructor; lia].
  split; repeat split; by vm_compute.
Defined.

Definition after (mx my : Z) (l : list Z) : option (Z * Z * Z) :=
  let m := mkMode (mx * my * 4) mx my mx rgb 0 0 0 in
  match (initialize m ;; put_text sample_font l) dark with Ok (_, s) => Some (x s, y s, maxx s) | Err _ => None end.
(** On a screen whose columns are not a multiple of eight a tab steps over the last
    column, where the line is not ended: characters go on behind it. *)
Example tab_over_the_edge : after 80 32 [9; 9; 65; 66] = Some (18, 0, 10).
Proof. by vm_compute. Qed.
(** A character beyond ASCII is a negative index into the font. *)
Example not_ascii : put_text sample_font [-61] (mkScreen true sample_mode (fun _ => 0) (fun _ => 0) 0 0 8 2) = Err Fault.
Proof. by vm_compute. Qed.
