(* ===== verification/BootLog.v ===== *)
(** * The log of the kernel: kernel/util/log.cpp

    What the kernel prints goes into chunks of two megabytes, each of which points to
    the one before it, to the screen and to the serial port.  The first chunk is left
    by the loader; others are frames of the memory manager. *)
From S2P Require Import Prelude Pmm Screen.

(** ** State *)

(** A chunk: the one before it, and its buffer up to the cursor. *)
Record buffer_chunk : Type := mkChunk { previous : Z; buffer : list Z }.
Record boot_log : Type := mkLog {
  log_frames : pmm;
  chunks : gmap Z buffer_chunk;
  latest_chunk : Z;
  serial : list Z;
  log_screen : screen;
  log_lock : bool
}.

Section ops.
Context (bitmap_font : Z -> Z).
Abbreviation LM := (M boot_log).

Definition chunk_buffer : Z := page_size 1 - 8.

(** [initialize]; [left] is what the memory held for the pointer of the first chunk. *)
Definition log_initialize (left : Z) (memmap : list memory_map_entry) : LM unit :=
  match find_entry memmap log_buffer ≫= (memmap !!.) with
  | None => fail Fault
  | Some e =>
      let a := u64 (physical_start e + physmem_base) in
      modify (fun s => mkLog (log_frames s) (<[a := mkChunk left []]> (chunks s)) a (serial s) (log_screen s) (log_lock s))
  end.

Definition pop_frame : LM Z := fun s =>
  match pop 1 (log_frames s) with
  | Ok (f, p) => Ok (f, mkLog p (chunks s) (latest_chunk s) (serial s) (log_screen s) (log_lock s))
  | Err e => Err e
  end.
Definition set_chunk (a : Z) (c : buffer_chunk) (latest : Z) : LM unit := modify (fun s =>
  mkLog (log_frames s) (<[a := c]> (chunks s)) latest (serial s) (log_screen s) (log_lock s)).
Definition on_screen (m : M screen unit) : LM unit := fun s =>
  match m (log_screen s) with
  | Ok (_, x) => Ok (tt, mkLog (log_frames s) (chunks s) (latest_chunk s) (serial s) x (log_lock s))
  | Err e => Err e
  end.

(** [proxy::operator=] *)
Definition log_char (ch : Z) : LM unit :=
  let* s := gets id in
  match chunks s !! latest_chunk s with
  | None => fail Fault
  | Some c =>
      let written := buffer c ++ [ch] in
      set_chunk (latest_chunk s) (mkChunk (previous c) written) (latest_chunk s) ;;
      (if Z.of_nat (length written) =? chunk_buffer then
         let* new_buffer := pop_frame in
         let a := u64 (new_buffer + physmem_base) in
         set_chunk a (mkChunk (latest_chunk s) []) a
       else ret tt) ;;
      on_screen (put_char bitmap_font ch) ;;
      modify (fun s => mkLog (log_frames s) (chunks s) (latest_chunk s) (serial s ++ [ch]) (log_screen s) (log_lock s))
  end.
Fixpoint log_text (l : list Z) : LM unit :=
  match l with [] => ret tt | c :: l' => log_char c ;; log_text l' end.

(** [println] of the text its format gives: a lock that is taken is waited for. *)
Definition set_lock (b : bool) : LM unit := modify (fun s => mkLog (log_frames s) (chunks s) (latest_chunk s) (serial s) (log_screen s) b).
Definition println (l : list Z) : LM unit :=
  let* s := gets id in
  if log_lock s then fail Deadlock else
  set_lock true ;;
  log_text l ;;
  log_char 10 ;;
  set_lock false.

(** ** What the log holds *)

(** The chunks from the newest to the oldest. *)
Fixpoint linked (m : gmap Z buffer_chunk) (p : Z) (l : list (Z * list Z)) : Prop :=
  match l with
  | [] => True
  | (a, b) :: l' => p = a /\ exists q, m !! a = Some (mkChunk q b) /\ linked m q l'
  end.
Definition contents (l : list (Z * list Z)) : list Z := concat (reverse l.*2).

(** A log with room: free large frames that are not chunks yet. *)
Record logs (columns rows : Z) (m : video_mode) (s : boot_log) (l : list (Z * list Z)) (small fs huge : list Z) (t : terminal) : Prop := {
  lg_frames : pmm_rep (log_frames s) [small; fs; huge];
  lg_linked : linked (chunks s) (latest_chunk s) l;
  lg_apart : NoDup l.*1 /\ (forall f, f ∈ fs -> u64 (f + physmem_base) ∉ l.*1);
  lg_newest : match l with [] => False | (_, b) :: _ => Z.of_nat (length b) < chunk_buffer end;
  lg_screen : displays bitmap_font m columns rows (log_screen s) t
}.

Lemma linked_insert m a c : forall l p, a ∉ l.*1 -> linked m p l -> linked (<[a := c]> m) p l.
Proof using Type.
  induction l as [|[b x] l IH]; intros p Ha Hl; [done|]. cbn in *. apply not_elem_of_cons in Ha as [Hne Ha]. destruct Hl as (-> & q & Hq & Hl).
  split; [done|]. exists q. split; [by rewrite lookup_insert_ne|]. by apply IH.
Qed.
Lemma contents_cons a b l : contents ((a, b) :: l) = contents l ++ b.
Proof using Type. unfold contents. rewrite fmap_cons, reverse_cons, concat_app. cbn. by rewrite app_nil_r. Qed.

(** Writing into the newest chunk. *)
Lemma linked_newest m p a b b' l : a ∉ l.*1 -> linked m p ((a, b) :: l) ->
  exists q, m !! a = Some (mkChunk q b) /\ linked (<[a := mkChunk q b']> m) p ((a, b') :: l).
Proof using Type.
  intros Ha (-> & q & Hq & Hl). exists q. split; [done|]. split; [done|]. exists q. split; [by rewrite lookup_insert_eq|]. by apply linked_insert.
Qed.

Lemma log_frame_ok s f p : pop 1 (log_frames s) = Ok (f, p) ->
  pop_frame s = Ok (f, mkLog p (chunks s) (latest_chunk s) (serial s) (log_screen s) (log_lock s)).
Proof using Type. unfold pop_frame. by intros ->. Qed.
Lemma on_screen_ok s (d : M screen unit) z : d (log_screen s) = Ok (tt, z) ->
  on_screen d s = Ok (tt, mkLog (log_frames s) (chunks s) (latest_chunk s) (serial s) z (log_lock s)).
Proof using Type. unfold on_screen. by intros ->. Qed.

Lemma log_char_ok columns rows m s l small fs huge t ch : mode_ok m columns rows -> 0 <= ch < 128 -> logs columns rows m s l small fs huge t ->
  (fs <> [] \/ match l with [] => False | (_, b) :: _ => Z.of_nat (length b) + 1 < chunk_buffer end) ->
  exists s' l' fs', log_char ch s = Ok (tt, s') /\ logs columns rows m s' l' small fs' huge (show columns rows ch t) /\
    contents l' = contents l ++ [ch] /\ serial s' = serial s ++ [ch] /\ log_lock s' = log_lock s /\
    match l, l' with
    | (_, b) :: _, (_, b') :: _ => (length b' = S (length b) /\ fs' = fs) \/ (length b' = 0%nat /\ length fs = S (length fs') /\ Z.of_nat (S (length b)) = chunk_buffer)
    | _, _ => False
    end.
Proof using Type.
  intros MO Hch [Hf Hl [Hnd Hap] Hb Hd] Hroom. destruct l as [|[a b] l]; [done|].
  cbn in Hnd. apply NoDup_cons in Hnd as [Ha Hnd]. destruct (linked_newest _ _ a b (b ++ [ch]) l Ha Hl) as (q & Hq & Hl'). destruct Hl as [Ea _].
  destruct (screen_char_ok bitmap_font m columns rows (log_screen s) t ch MO Hd Hch) as (x & Ex & Dx).
  unfold log_char. erewrite (bind_Ok (gets id)) by reflexivity. change (id s) with s. rewrite Ea, Hq. cbn [buffer previous]. erewrite bind_Ok by reflexivity.
  destruct (Z.eqb_spec (Z.of_nat (length (b ++ [ch]))) chunk_buffer) as [Efull|Efull]; rewrite length_app in Efull; cbn [length] in Efull.
  - destruct fs as [|f fs]; [destruct Hroom as [|Hroom]; [done|lia]|].
    destruct (pop_spec (log_frames s) [small; f :: fs; huge] 1 f fs Hf eq_refl) as (p' & Ep & Rp & _).
    rewrite bind_assoc. erewrite bind_Ok by (apply log_frame_ok; exact Ep). erewrite bind_Ok by reflexivity.
    erewrite bind_Ok by (apply on_screen_ok; exact Ex). set (g := u64 (f + physmem_base)) in *.
    assert (g ∉ a :: l.*1) as Hg by (apply Hap; set_solver).
    eexists _, ((g, []) :: (a, b ++ [ch]) :: l), fs. split; [reflexivity|]. split; [split|]; cbn [log_frames chunks latest_chunk serial log_screen log_lock].
    + exact Rp.
    + split; [done|]. exists a. split; [by rewrite lookup_insert_eq|]. apply linked_insert; [exact Hg|]. rewrite <- Ea at 2. exact Hl'.
    + cbn. split; [apply NoDup_cons; split; [exact Hg|by apply NoDup_cons]|]. intros f' Hf'. apply not_elem_of_cons. split; [|apply Hap; set_solver].
      intros E. assert (f' = f) as ->.
      { pose proof (rep_frames _ _ Hf) as HF. cbn in HF. rewrite Forall_forall in HF.
        assert (frame_ok f' /\ frame_ok f) as [[[? ?] _] [[? ?] _]] by (split; apply HF; set_solver).
        unfold g, u64, wrapu in E. unfold physmem_base in E. pose proof (Z.div_mod (f + 0xffff800000000000) (2 ^ 64)). pose proof (Z.div_mod (f' + 0xffff800000000000) (2 ^ 64)).
        pose proof (Z.mod_pos_bound (f + 0xffff800000000000) (2 ^ 64)). lia. }
      pose proof (rep_nodup _ _ Hf) as HN. cbn in HN. apply NoDup_app in HN as (_ & _ & HN). apply NoDup_cons in HN as [HN _]. set_solver.
    + cbn. unfold chunk_buffer. by vm_compute.
    + exact Dx.
    + split; [by rewrite !contents_cons, app_nil_r, (assoc_L (++))|]. do 2 (split; [done|]). right. split; [done|]. split; [done|]. lia.
  - erewrite bind_Ok by reflexivity. erewrite bind_Ok by (apply on_screen_ok; exact Ex).
    eexists _, ((a, b ++ [ch]) :: l), fs. split; [reflexivity|]. split; [split|]; cbn [log_frames chunks latest_chunk serial log_screen log_lock].
    + exact Hf.
    + rewrite <- Ea at 2. exact Hl'.
    + cbn. split; [by apply NoDup_cons|done].
    + rewrite length_app. cbn [length]. lia.
    + exact Dx.
    + split; [by rewrite !contents_cons, (assoc_L (++))|]. do 2 (split; [done|]). left. split; [|done]. rewrite length_app. cbn. lia.
Qed.

(** Characters that still fit: in the newest chunk and in the free frames. *)
Definition space (l : list (Z * list Z)) (fs : list Z) : Z :=
  match l with [] => 0 | (_, b) :: _ => chunk_buffer * (1 + Z.of_nat (length fs)) - Z.of_nat (length b) end.

Lemma log_text_ok columns rows m small huge txt : mode_ok m columns rows -> Forall (fun c => 0 <= c < 128) txt -> forall s l fs t,
  logs columns rows m s l small fs huge t -> Z.of_nat (length txt) < space l fs ->
  exists s' l' fs', log_text txt s = Ok (tt, s') /\
    logs columns rows m s' l' small fs' huge (fold_left (fun t c => show columns rows c t) txt t) /\
    contents l' = contents l ++ txt /\ serial s' = serial s ++ txt /\ log_lock s' = log_lock s /\ space l' fs' = space l fs - Z.of_nat (length txt).
Proof using Type.
  intros MO. induction 1 as [|c txt Hc Htxt IH]; intros s l fs t L Hsp.
  { exists s, l, fs. rewrite !app_nil_r. cbn. repeat split; try apply L. lia. }
  cbn [log_text fold_left length] in *.
  destruct (log_char_ok columns rows m s l small fs huge t c MO Hc L) as (s1 & l1 & fs1 & E1 & L1 & C1 & S1 & K1 & N1).
  { destruct fs; [right|by left]. destruct l as [|[a b] l]; cbn in *; lia. }
  erewrite bind_Ok by exact E1.
  assert (space l1 fs1 = space l fs - 1) as Hs1.
  { destruct l as [|[a b] l], l1 as [|[a1 b1] l1]; try done. unfold space. destruct N1 as [[-> ->]|(-> & -> & Hfull)]; lia. }
  destruct (IH s1 l1 fs1 (show columns rows c t) L1) as (s2 & l2 & fs2 & E2 & L2 & C2 & S2 & K2 & N2); [lia|].
  exists s2, l2, fs2. split; [exact E2|]. split; [exact L2|]. rewrite C2, C1, S2, S1, <- !(assoc_L (++)). split; [done|]. split; [done|]. split; [congruence|]. lia.
Qed.
End ops.

(** C34: nothing that is printed is lost.  As long as there is room in the newest chunk
    and in large frames, a line of ASCII text ends up whole, with its newline, behind
    what the chunks already held, read from the oldest to the newest; the serial port
    is sent the same characters, the screen is the terminal that was shown them, and
    the lock is free again. *)
Theorem log_keeps_text bitmap_font columns rows m s l small fs huge t txt :
  mode_ok m columns rows -> logs bitmap_font columns rows m s l small fs huge t -> log_lock s = false ->
  Forall (fun c => 0 <= c < 128) txt -> Z.of_nat (length txt) + 1 < space l fs ->
  exists s' l' fs', println bitmap_font txt s = Ok (tt, s') /\
    logs bitmap_font columns rows m s' l' small fs' huge (fold_left (fun t c => show columns rows c t) (txt ++ [10]) t) /\
    contents l' = contents l ++ txt ++ [10] /\ serial s' = serial s ++ txt ++ [10] /\ log_lock s' = false.
Proof.
  intros MO L Hk Htxt Hsp. unfold println. erewrite (bind_Ok (gets id)) by reflexivity. change (id s) with s. rewrite Hk. erewrite bind_Ok by reflexivity.
  match goal with |- context [log_text _ txt] => idtac end. set (s0 := mkLog (log_frames s) (chunks s) (latest_chunk s) (serial s) (log_screen s) true).
  destruct (log_text_ok bitmap_font columns rows m small huge (txt ++ [10]) MO) with (s := s0) (l := l) (fs := fs) (t := t) as (s1 & l1 & fs1 & E1 & L1 & C1 & S1 & K1 & _).
  - apply Forall_app. split; [done|]. by repeat constructor.
  - by destruct L; split.
  - rewrite length_app. cbn [length]. lia.
  - assert ((log_text bitmap_font txt ;; log_char bitmap_font 10) s0 = Ok (tt, s1)) as E1'.
    { rewrite <- E1. generalize s0. clear. induction txt as [|c txt IH]; intros s.
      - cbn [app log_text]. unfold bind, ret. by destruct (log_char _ _ _) as [[[] ?]|].
      - cbn [app log_text]. unfold bind in *. by destruct (log_char _ c s) as [[[] s1]|]. }
    rewrite <- bind_assoc. erewrite bind_Ok by exact E1'. eexists _, l1, fs1. split; [reflexivity|]. split; [by destruct L1; split|]. done.
Qed.

(** A line while one is being printed waits for ever: a panic in the middle of printing
    (the manager has no large frame left) does not come through. *)
Lemma panic_while_printing bitmap_font txt s : log_lock s = true -> println bitmap_font txt s = Err Deadlock.
Proof. intros Hk. unfold println. erewrite (bind_Ok (gets id)) by reflexivity. change (id s) with s. by rewrite Hk. Qed.

(** ** Witness *)

Definition sample_log : boot_log :=
  mkLog none_small {[0xffff800000400000 := mkChunk 0 [72]]} 0xffff800000400000 [72] (mkScreen true sample_mode (fun _ => 0) (fun _ => 0) 0 0 8 2) false.
Lemma sample_logs : logs sample_font 8 2 sample_mode sample_log [(0xffff800000400000, [72])] [] [0x200000] [] empty_terminal.
Proof.
  split.
  - exact none_small_rep.
  - split; [done|]. exists 0. by split.
  - split; [repeat constructor; set_solver|]. intros f ->%list_elem_of_singleton. vm_compute. set_solver.
  - cbn. unfold chunk_buffer. by vm_compute.
  - split; [done|done|cbn; lia|by intros row r col k _ _ _ _|by intros row r col k _ _ _ _].
Qed.
Lemma log_keeps_text_witness : exists s' l' fs', println sample_font [105; 9; 33] sample_log = Ok (tt, s') /\
  logs sample_font 8 2 sample_mode s' l' [] fs' [] (fold_left (fun t c => show 8 2 c t) ([105; 9; 33] ++ [10]) empty_terminal) /\
  contents l' = contents [(0xffff800000400000, [72])] ++ [105; 9; 33] ++ [10] /\ serial s' = [72] ++ [105; 9; 33] ++ [10] /\ log_lock s' = false.
Proof.
  apply (log_keeps_text sample_font 8 2 sample_mode sample_log [(0xffff800000400000, [72])] [] [0x200000] [] empty_terminal [105; 9; 33]);
    [split; repeat split; by vm_compute|exact sample_logs|reflexivity|repeat constructor; lia|by vm_compute].
Defined.
