(* ===== verification/UefiLoader.v ===== *)
(** * The loader's files and processor: loaders/uefi

    efi/path.cpp, efi/filesystem.cpp, efi/console.cpp, cpu/amd64/cpuid.cpp, and the part
    of main.cpp that fills the page tables of [UefiPaging].  The services of the
    firmware and the answers of the processor are parameters. *)
From S2P Require Import Prelude Text UefiPaging.

(** ** The processor *)

Inductive cpu_manufacturer : Type := intel | amd | unknown_manufacturer.
Record cpu_capabilities : Type := mkCaps {
  manufacturer : cpu_manufacturer;
  brand_string : bytes;
  huge_pages_supported : bool;
  physical_address_bits : Z
}.
Record registers : Type := mkRegisters { eax : Z; ebx : Z; ecx : Z; edx : Z }.

Definition le32 (v : Z) : bytes := [v mod 256; v / 2 ^ 8 mod 256; v / 2 ^ 16 mod 256; v / 2 ^ 24 mod 256].
(** The characters of a name. *)
Definition genuine_intel : bytes := [71; 101; 110; 117; 105; 110; 101; 73; 110; 116; 101; 108].
Definition authentic_amd : bytes := [65; 117; 116; 104; 101; 110; 116; 105; 99; 65; 77; 68].
Definition unknown_brand : bytes := [85; 110; 107; 110; 111; 119; 110; 32; 67; 80; 85; 32; 98; 114; 97; 110; 100] ++ replicate 31 0.

Section processor.
Context (cpuid : Z -> registers).

Definition detect_brand : bytes :=
  concat ((fun i => let r := cpuid i in le32 (eax r) ++ le32 (ebx r) ++ le32 (ecx r) ++ le32 (edx r)) <$> [0x80000002; 0x80000003; 0x80000004]).
Definition detect_cpu : cpu_capabilities :=
  let r := cpuid 0 in
  let vendor := le32 (ebx r) ++ le32 (edx r) ++ le32 (ecx r) in
  let manufacturer := if bool_decide (vendor = genuine_intel) then intel
                      else if bool_decide (vendor = authentic_amd) then amd else unknown_manufacturer in
  let max_supported := eax (cpuid 0x80000000) in
  mkCaps manufacturer
    (if 0x80000004 <=? max_supported then detect_brand else unknown_brand)
    (if 0x80000001 <=? max_supported then negb (Z.land (edx (cpuid 0x80000001)) (Z.shiftl 1 26) =? 0) else false)
    (if 0x80000008 <=? max_supported then Z.land (eax (cpuid 0x80000008)) 0xff else 36).
End processor.

(** ** The page tables *)

Definition kernel_base : Z := 0xffffffff80000000.
Definition physmem_base : Z := 0xffff800000000000.
Definition then_map (r : res (list entry)) (f : list entry -> res (list entry)) : res (list entry) :=
  match r with Ok t => f t | Err e => Err e end.

Definition map_physical_memory (caps : cpu_capabilities) (t : list entry) : res (list entry) :=
  let size := u64 (Z.shiftl 1 (physical_address_bits caps)) in
  if huge_pages_supported caps then vm_map_huge t 0 size physmem_base else vm_map_large t 0 size physmem_base.
(** The loader's code and stack at their addresses, the kernel, and all of the physical
    memory. *)
Definition map_everything (caps : cpu_capabilities) (image_base image_size stack kernel_region kernel_size : Z) : res (list entry) :=
  then_map (vm_map prepare_paging image_base image_size image_base) (fun t =>
  then_map (vm_map t (u64 (stack - 2 * 4096)) (3 * 4096) (u64 (stack - 2 * 4096))) (fun t =>
  then_map (vm_map t kernel_region kernel_size kernel_base) (map_physical_memory caps))).

(** ** The console *)

(** [print(std::string_view)]: the characters put in the buffer, or a halt; a [char] is
    signed. *)
Definition wide (c : Z) : Z := u16 (s8 c).
Definition print_view (l : bytes) : res (list Z) :=
  if 8191 <? Z.of_nat (length l) then Err (Panic "console::print: tried to print a too long string view") else Ok (wide <$> l).
(** [print(void * )] *)
Definition hex_digit (v : Z) : Z := if v <? 10 then 48 + v else 87 + v.
Definition print_pointer (p : Z) : list Z :=
  [48; 120] ++ ((fun idx => hex_digit (Z.land (Z.shiftr p ((15 - Z.of_nat idx) * 4)) 0xF)) <$> seq 0 16).

(** ** Paths and files *)

Section firmware.
(** Device paths and their texts; the files of the volume the loader was started from:
    opening one, its size, and reading up to a number of bytes from its start. *)
Context {device_path file : Type} (to_text : device_path -> list Z) (from_text : list Z -> device_path)
  (open : list Z -> option file) (get_info : file -> option Z) (read : file -> Z -> option bytes).

(** [path(std::string_view)] *)
Definition path_of_view (l : bytes) : list Z := wide <$> l.
(** [operator/]: the text is put together in a buffer of 16384 characters on the
    stack; a longer one runs over its end. *)
Definition path_append (p append : list Z) : res (list Z) :=
  let text := p ++ [92] ++ append in
  if 16 * 1024 <? Z.of_nat (length text) + 1 then Err Fault else Ok (to_text (from_text text)).

Definition load_file (p : list Z) : res (Z * bytes) :=
  match open p with
  | None => Err (Panic "Failed to open")
  | Some f =>
      match get_info f with
      | None => Err (Panic "Getting file info failed")
      | Some size =>
          match read f size with
          | None => Err (Panic "Loading file failed")
          | Some data => Ok (Z.of_nat (length data), data ++ replicate (Z.to_nat size - length data) 0)
          end
      end
  end.
Definition locate_source_directory (loaded_image : device_path) : res (list Z) := path_append (to_text loaded_image) [46; 46].
End firmware.

(** ** Theorems *)

(** A buffer of the file's size gets the whole file. *)
Lemma load_file_whole {file : Type} (open : list Z -> option file) get_info read p f (contents : bytes) :
  open p = Some f -> get_info f = Some (Z.of_nat (length contents)) ->
  (forall n, read f n = Some (take (Z.to_nat n) contents)) ->
  load_file open get_info read p = Ok (Z.of_nat (length contents), contents).
Proof.
  intros Ho Hi Hr. unfold load_file. rewrite Ho, Hi, Hr, Nat2Z.id, firstn_all, Nat.sub_diag. cbn. by rewrite app_nil_r.
Qed.

(** A pointer is printed with all of its digits. *)
Fixpoint hex_value (l : list Z) (acc : Z) : Z :=
  match l with [] => acc | d :: l' => hex_value l' (acc * 16 + (if d <? 58 then d - 48 else d - 87)) end.
Lemma hex_digit_value v : 0 <= v < 16 -> (if hex_digit v <? 58 then hex_digit v - 48 else hex_digit v - 87) = v.
Proof. intros Hv. unfold hex_digit. destruct (Z.ltb_spec v 10); [rewrite (proj2 (Z.ltb_lt _ _)) by lia|rewrite (proj2 (Z.ltb_ge _ _)) by lia]; lia. Qed.
Lemma print_pointer_value p : is_u64 p -> hex_value (drop 2 (print_pointer p)) 0 = p.
Proof.
  intros Hp. unfold print_pointer. cbn [app drop].
  assert (forall k a, (k <= 16)%nat -> hex_value ((fun idx => hex_digit (Z.land (Z.shiftr p ((15 - Z.of_nat idx) * 4)) 0xF)) <$> seq (16 - k) k) a =
    a * 16 ^ Z.of_nat k + p mod 16 ^ Z.of_nat k) as H.
  { induction k as [|k IH]; intros a Hk; [cbn; rewrite Z.mod_1_r; lia|].
    replace (16 - S k)%nat with (15 - k)%nat by lia. cbn [seq fmap list_fmap hex_value]. replace (S (15 - k)) with (16 - k)%nat by lia.
    assert (Z.land (Z.shiftr p ((15 - Z.of_nat (15 - k)) * 4)) 0xF = p / 16 ^ Z.of_nat k mod 16) as ->.
    { change 0xF with (2 ^ 4 - 1). rewrite land_low, Z.shiftr_div_pow2 by lia.
      replace (16 ^ Z.of_nat k) with (2 ^ ((15 - Z.of_nat (15 - k)) * 4)); [done|]. change 16 with (2 ^ 4). rewrite <- Z.pow_mul_r by lia. f_equal. lia. }
    rewrite IH, hex_digit_value by (try lia; apply Z.mod_pos_bound; lia).
    rewrite Nat2Z.inj_succ, Z.pow_succ_r by lia. rewrite (Z.mul_comm 16), (Z.rem_mul_r p) by lia. lia. }
  pose proof (H 16%nat 0 ltac:(lia)) as H16. rewrite Nat.sub_diag in H16. etrans; [exact H16|]. change (16 ^ Z.of_nat 16) with (2 ^ 64). rewrite Z.mod_small by exact Hp. lia.
Qed.

(** The kernel finds the physical memory.  On a processor with between 30 and 46 bits
    of physical addresses, over page tables with nothing in the way, the loader maps
    all of the physical memory: each address of it is found at the same distance from
    the base the kernel uses, with pages of a gigabyte or of two megabytes, and every
    other address of that half is found where it was. *)
Theorem physical_memory_mapped caps t :
  30 <= physical_address_bits caps <= 46 -> full_tables 4 t ->
  (forall a, physmem_base <= a < physmem_base + 2 ^ physical_address_bits caps -> clear 4 (if huge_pages_supported caps then 3 else 2)%nat t a) ->
  exists t', map_physical_memory caps t = Ok t' /\ full_tables 4 t' /\
    (forall p, 0 <= p < 2 ^ physical_address_bits caps -> walk 4 t' (physmem_base + p) = Some p) /\
    (forall a, physmem_base + 2 ^ physical_address_bits caps <= a < 2 ^ 64 -> walk 4 t' a = walk 4 t a).
Proof.
  intros Hb F C. set (b := physical_address_bits caps) in *. unfold map_physical_memory. fold b.
  assert (2 ^ 30 <= 2 ^ b <= 2 ^ 46) as Hs by (split; apply Z.pow_le_mono_r; lia).
  rewrite Z.shiftl_mul_pow2, Z.mul_1_l by lia. rewrite (u64_id (2 ^ b)) by (split; lia).
  set (L := (if huge_pages_supported caps then 3 else 2)%nat) in *.
  assert ((if huge_pages_supported caps then vm_map_huge t 0 (2 ^ b) physmem_base else vm_map_large t 0 (2 ^ b) physmem_base) =
    map_range L t 0 (2 ^ b) physmem_base) as -> by (unfold L; by destruct (huge_pages_supported caps)).
  assert (L = 3 \/ L = 2)%nat as HL by (unfold L; destruct (huge_pages_supported caps); auto).
  assert (2 ^ b mod entry_size L = 0) as Hmod.
  { rewrite entry_size_eq. replace b with ((b - (Z.of_nat L * 9 + 3)) + (Z.of_nat L * 9 + 3)) by lia.
    rewrite Z.pow_add_r by (destruct HL; lia). apply Z.mod_mul. apply Z.pow_nonzero; destruct HL; lia. }
  assert (entry_size L <= 2 ^ 30) as HE by (destruct HL as [-> | ->]; vm_compute; discriminate).
  assert (physmem_base mod entry_size L = 0) as Hbase by (by destruct HL as [-> | ->]). pose proof (entry_size_pos L).
  assert (first_page L physmem_base = physmem_base) as Ef by (unfold first_page, floor; lia).
  assert (last_page L physmem_base (2 ^ b) = physmem_base + 2 ^ b) as El.
  { unfold last_page. fold (first_page L physmem_base). rewrite Ef. rewrite floor_slot. unfold slot.
    apply Z.div_exact in Hmod, Hbase; [|lia..]. set (u := 2 ^ b / entry_size L) in *. set (v := physmem_base / entry_size L) in *.
    assert ((physmem_base + 2 ^ b + entry_size L - 1) / entry_size L = v + u) as -> by (symmetry; apply (Z.div_unique _ _ _ (entry_size L - 1)); lia). lia. }
  assert (floor L 0 = 0) as E0 by (unfold floor; by rewrite Z.mod_0_l by lia).
  rewrite map_range_eq; [|destruct HL; lia|split; unfold physmem_base; lia|split; lia|lia|unfold physmem_base; lia]. rewrite Ef, El, E0.
  destruct (vm_map_maps L ltac:(lia) 4 ltac:(lia) t physmem_base (physmem_base + 2 ^ b) 0) as (t' & E & F' & W).
  - apply same_place_mappable; try done; unfold physmem_base in *; try lia.
    + rewrite (slot_unique 5 _ 65535), (slot_unique 5 _ 65535); [done|..]; change (entry_size 5) with (2 ^ 48); lia.
    + replace (0xffff800000000000 + 2 ^ b) with (2 ^ b + 0xffff800000000000) by lia. rewrite Z.add_mod, Hmod, Hbase by lia. done.
  - exists t'. split; [exact E|]. split; [exact F'|]. split.
    + intros p Hp. rewrite W by (rewrite (slot_unique 5 _ 65535), (slot_unique 5 _ 65535); [done|..]; change (entry_size 5) with (2 ^ 48); unfold physmem_base; lia).
      rewrite (proj2 (Z.leb_le _ _)), (proj2 (Z.ltb_lt _ _)) by lia. cbn [andb]. f_equal. lia.
    + intros a Ha. rewrite W by (rewrite (slot_unique 5 _ 65535), (slot_unique 5 _ 65535); [done|..]; change (entry_size 5) with (2 ^ 48); unfold physmem_base in *; lia).
      rewrite (proj2 (Z.ltb_ge a _)) by lia. by rewrite andb_false_r.
Qed.

Lemma physical_memory_mapped_witness : let caps := mkCaps intel unknown_brand true 39 in
  exists t', map_physical_memory caps prepare_paging = Ok t' /\ full_tables 4 t' /\
    (forall p, 0 <= p < 2 ^ 39 -> walk 4 t' (physmem_base + p) = Some p) /\
    (forall a, physmem_base + 2 ^ 39 <= a < 2 ^ 64 -> walk 4 t' a = walk 4 prepare_paging a).
Proof.
  apply (physical_memory_mapped (mkCaps intel unknown_brand true 39) prepare_paging); [cbn; lia|apply full_empty|]. intros a _. apply clear_empty.
Defined.

(** With more bits the end of the range is past the last address: nothing is mapped. *)
Example wide_processor : map_physical_memory (mkCaps amd unknown_brand true 48) prepare_paging = Ok prepare_paging /\
  map_physical_memory (mkCaps intel unknown_brand true 47) prepare_paging = Ok prepare_paging.
Proof. by vm_compute. Qed.

(** The tables of a loader at 8 MiB with its kernel at 64 MiB. *)
Example everything_mapped :
  match map_everything (mkCaps intel unknown_brand true 36) 0x800000 0x30000 0x7fe0123 0x4000000 0x180000 with
  | Ok t => walk 4 t 0x801234 = Some 0x801234 /\ walk 4 t 0x7fdf000 = Some 0x7fdf000 /\ walk 4 t (kernel_base + 0x12345) = Some 0x4012345 /\
      walk 4 t (physmem_base + 0xf12345678) = Some 0xf12345678
  | Err _ => False
  end.
Proof. by vm_compute. Qed.

(** Two paths that are long enough run over the buffer. *)
Example long_path : path_append (fun l => l) (fun l => l) (replicate (Z.to_nat 16000) 65) (replicate (Z.to_nat 400) 66) = Err Fault.
Proof. by vm_compute. Qed.
