(* ===== verification/GlobalScheduler.v ===== *)
(** * The schedulers of all cores: kernel/scheduler/scheduler.cpp

    One aggregate over the instances of the cores: their initialisation, and how a
    thread that becomes runnable gets to one of them. *)
From S2P Require Import Prelude TreeHeap HeapLaws HeapOps HeapOrder HeapQueue HeapTheorems Scheduler SchedulerTheorems.

(** The instances by the number of their core, the children of the aggregate, and
    whether the schedulers were initialised. *)
Record schedulers : Type := mkSchedulers {
  instances : list instance;
  global_scheduler : list interface;
  initialized : bool
}.
Abbreviation GM := (M schedulers).

(** ** Initialisation *)

(** [instance::initialize] with an idle thread at [idle], a thread of the kernel's
    process; the threads known to a core at first are its idle thread. *)
Definition instance_initialize (kernel_process idle : Z) (s : instance) : instance :=
  mkInstance (mkHeap (<[idle := mkNode 0 0 0 (mkThread 0 kernel_process)]> (mem (_threads s))) (_top (_threads s)) (_size (_threads s)))
    idle idle (_preemption_token s) (cls_current_thread s) (ticks s) (armed s) (events s).

(** The loop of [initialize] over the cores; idle threads are made one after the
    other from [next] on. *)
Fixpoint initialize_cores (kernel_process next : Z) (i : nat) (l : list instance) : list instance * list interface :=
  match l with
  | [] => ([], [])
  | s :: l' =>
      let r := initialize_cores kernel_process (next + 64) (S i) l' in
      let s' := instance_initialize kernel_process next s in
      (set_cls (_idle_thread s') s' :: r.1, Instance_ i :: r.2)
  end.
Definition initialize (kernel_process next : Z) : GM unit := modify (fun s =>
  let r := initialize_cores kernel_process next 0 (instances s) in
  mkSchedulers r.1 (global_scheduler s ++ r.2) true).
Definition is_initialized : GM bool := gets initialized.

(** ** Scheduling *)

Definition load_of (s : schedulers) (i : nat) : Z :=
  match instances s !! i with Some x => u64 (_size (_threads x) * 100) | None => 0 end.
(** [scheduler::schedule] on the core [me]: the number of the core that got the
    thread. *)
Definition schedule_thread (me : nat) (interrupts_disabled : bool) (t : Z) : GM nat := fun s =>
  match interface_schedule 2 (load_of s) (Aggregate (global_scheduler s)) with
  | Err e => Err e
  | Ok i =>
      match instances s !! i with
      | None => Err Fault
      | Some x =>
          match schedule (bool_decide (i = me)) interrupts_disabled t x with
          | Ok (_, x') => Ok (i, mkSchedulers (<[i := x']> (instances s)) (global_scheduler s) (initialized s))
          | Err e => Err e
          end
      end
  end.
(** [post_schedule]: the thread is handed over in an interrupt of the same core. *)
Definition post_schedule (me : nat) (interrupts_disabled : bool) (t : Z) : GM unit :=
  if interrupts_disabled
  then panic "scheduler::post_schedule called with interrupts disabled (it's meant to only be called outside of interrupt handlers)!"
  else let* _ := schedule_thread me true t in ret tt.

(** ** Theorems *)

Section laws.
Context {holds : tree_heap thread -> list Z -> Prop} `{!PriorityQueue thread_timestamp_compare holds}.

(** Handing a thread to the instance of any core: another core is told. *)
Lemma schedule_anywhere (here : bool) x l c t nd : running (holds := holds) x l c -> t <> c -> t <> 0 -> t ∉ l ->
  mem (_threads x) !! t = Some nd -> (l = [] -> nd = mkNode 0 0 0 (value nd)) ->
  exists x', schedule here true t x = Ok (tt, x') /\ holds (_threads x') (t :: l) /\ _current_thread x' = c /\
    (here = false -> Ipi ∈ events x').
Proof using PriorityQueue0.
  intros [Hq Hc _ _ _ Hs _ _] Htc Ht0 Htl Hx Hxl. unfold schedule. cbn [negb]. erewrite bind_Ok by reflexivity. rewrite Hc, (proj2 (Z.eqb_neq _ _)) by done.
  destruct (pq_push (_threads x) l t nd) as (h & Eh & Hh & So); try done. erewrite bind_Ok by (by apply on_heap_ok).
  destruct here.
  - destruct (setup_preemption_ok (set_threads h x)) as (x' & E & T1 & _ & T3 & _). exists x'. split; [done|]. split; [by rewrite T1|]. split; [by rewrite T3|done].
  - destruct (setup_preemption_ok (emit Ipi (set_threads h x))) as (x' & E & T1 & _ & T3 & _ & T5 & _). exists x'. split; [exact E|].
    split; [by rewrite T1|]. split; [by rewrite T3|]. intros _. rewrite T5. cbn. set_solver.
Qed.

(** A core that can take the thread [t] besides its waiting threads [l]. *)
Definition takes (t : Z) (x : instance) (l : list Z) : Prop :=
  exists c nd, running (holds := holds) x l c /\ t <> c /\ t ∉ l /\ mem (_threads x) !! t = Some nd /\ (l = [] -> nd = mkNode 0 0 0 (value nd)) /\
    Z.of_nat (length l) * 100 < 2 ^ 64 - 1.

Lemma loads_known s ls t : Forall2 (takes t) (instances s) ls ->
  Forall2 (fun c z => interface_load (load_of s) c = Ok z) (Instance_ <$> seq 0 (length (instances s))) ((fun l : list Z => Z.of_nat (length l) * 100) <$> ls).
Proof using PriorityQueue0.
  intros F. apply Forall2_lookup. intros i. rewrite !list_lookup_fmap. destruct (decide (i < length (instances s))%nat) as [Hi|Hi].
  - rewrite lookup_seq_lt by done. cbn. destruct (lookup_lt_is_Some_2 _ _ Hi) as [x Hx]. destruct (Forall2_lookup_l _ _ _ _ _ F Hx) as (l & Hl & c & nd & R & _ & _ & _ & _ & Hb).
    rewrite Hl. cbn. constructor. cbn. unfold load_of. rewrite Hx, (pq_size _ _ (rn_queue _ _ _ R)). f_equal. apply u64_id. split; lia.
  - rewrite lookup_seq_ge by lia. cbn. pose proof (Forall2_length _ _ _ F). rewrite (lookup_ge_None_2 ls) by lia. constructor.
Qed.

(** A thread that becomes runnable goes to the first of the cores with the fewest
    waiting threads and waits there with the others; the thread that runs there runs
    on, a core other than the one that runs the code is sent an interrupt, and the
    other cores are left alone. *)
Theorem idlest_core_gets_thread s ls me t :
  global_scheduler s = Instance_ <$> seq 0 (length (instances s)) -> (0 < length (instances s))%nat -> t <> 0 ->
  Forall2 (takes t) (instances s) ls ->
  exists i x x' l s', schedule_thread me true t s = Ok (i, s') /\ instances s !! i = Some x /\ ls !! i = Some l /\
    (forall l', l' ∈ ls -> (length l <= length l')%nat) /\ (forall j l', (j < i)%nat -> ls !! j = Some l' -> (length l < length l')%nat) /\
    instances s' = <[i := x']> (instances s) /\ holds (_threads x') (t :: l) /\ _current_thread x' = _current_thread x /\ (i <> me -> Ipi ∈ events x').
Proof using PriorityQueue0.
  intros Hg Hn Ht F. pose proof (loads_known s ls t F) as FL. pose proof (Forall2_length _ _ _ F) as Hlen.
  destruct (aggregate_picks_lowest (load_of s) _ _ 1 FL) as [_ Hpick].
  destruct Hpick as (i & c & z & Hci & Hzi & Hmin & Hfirst & Es).
  { intros Hall. destruct ls as [|l ls]; [cbn in *; lia|]. inversion Hall as [|? ? Hz _]; subst. destruct (Forall2_cons_inv_r _ _ _ _ F) as (x & xs & (? & ? & ? & ? & ? & ? & ? & Hb) & _). lia. }
  apply list_lookup_fmap_Some in Hci as (j & -> & Hj). apply lookup_seq in Hj as [-> Hi].
  change (interface_schedule 1 (load_of s) (Instance_ (0 + i))) with (Ok i) in Es.
  apply list_lookup_fmap_Some in Hzi as (l & -> & Hl). destruct (Forall2_lookup_r _ _ _ _ _ F Hl) as (x & Hx & c & nd & R & Htc & Htl & Hnd & Hfresh & _).
  destruct (schedule_anywhere (bool_decide (i = me)) x l c t nd R Htc Ht Htl Hnd Hfresh) as (x' & Ex & Hh & Hc & Hipi).
  eexists i, x, x', l, _. split; [unfold schedule_thread; rewrite Hg, Es, Hx, Ex; reflexivity|]. split; [done|]. split; [done|]. split.
  { intros l' Hl'. rewrite Forall_forall in Hmin. specialize (Hmin (Z.of_nat (length l') * 100)). apply Nat2Z.inj_le.
    assert (Z.of_nat (length l) * 100 <= Z.of_nat (length l') * 100) by (apply Hmin; apply list_elem_of_fmap; by exists l'). lia. }
  split.
  { intros j l' Hji Hl'. specialize (Hfirst j (Z.of_nat (length l') * 100) Hji). rewrite list_lookup_fmap, Hl' in Hfirst. specialize (Hfirst eq_refl). lia. }
  split; [done|]. split; [done|]. split; [rewrite Hc; symmetry; exact (rn_current _ _ _ R)|]. intros Hme. apply Hipi. by rewrite bool_decide_eq_false_2.
Qed.
End laws.

(** After the initialisation every core runs its idle thread and is a child of the
    aggregate, in the order of the numbers. *)
Lemma initialize_cores_ok kp l : forall next i,
  (forall s, s ∈ l -> _threads s = mkHeap ∅ 0 0) -> 0 < next ->
  (initialize_cores kp next i l).2 = Instance_ <$> seq i (length l) /\
  Forall (fun s => running (holds := heap_holds thread_timestamp_compare) s [] (_idle_thread s)) (initialize_cores kp next i l).1.
Proof.
  induction l as [|s l IH]; intros next i Hl Hn; [by split|]. cbn [initialize_cores fst snd length seq fmap list_fmap].
  destruct (IH (next + 64) (S i)) as [I1 I2]; [set_solver|lia|]. split; [by rewrite I1|]. constructor; [|done].
  assert (mem (_threads (set_cls next (instance_initialize kp next s))) = {[next := mkNode 0 0 0 (mkThread 0 kp)]}) as Em.
  { rewrite <- insert_empty. cbn. by rewrite (Hl s) by set_solver. }
  set (s' := set_cls next (instance_initialize kp next s)) in *.
  assert (mem (_threads s') !! 0 = None) as H0 by (rewrite Em; apply lookup_singleton_ne; lia).
  assert (is_Some (thread_at s' next)) as Ht by (unfold thread_at; rewrite Em, lookup_singleton_eq; by eexists).
  change (running (holds := heap_holds thread_timestamp_compare) s' [] next).
  split; [|done|done|apply not_elem_of_nil|exact H0|cbn; lia|exact Ht|split; [exact Ht|apply not_elem_of_nil]].
  apply empty_holds; [exact H0|by cbn; rewrite (Hl s) by set_solver..|]. constructor. exact (mkThread 0 0).
Qed.

(** ** Witnesses *)

(** Three cores; on the first one 32 runs and 48 waits, the other two are idle. *)
Definition busy_core : instance := mkInstance (heap_of (push thread_timestamp_compare 48)) 16 32 None 32 0 0 [].
Definition idle_core : instance := mkInstance (mkHeap sample_store 0 0) 16 16 None 16 0 0 [].
Definition three_cores : schedulers := mkSchedulers [busy_core; idle_core; idle_core] [Instance_ 0; Instance_ 1; Instance_ 2] true.

Definition waiting : list (list Z) := [[48]; []; []].

Lemma three_cores_take : Forall2 (takes (holds := heap_holds thread_timestamp_compare) 64) (instances three_cores) waiting.
Proof.
  assert (heap_holds thread_timestamp_compare (mkHeap sample_store 0 0) []) as H0 by (apply empty_holds; try done; constructor; exact (mkThread 0 0)).
  assert (forall p : Z, p ∉ (@nil Z)) as Hn by (intros p; apply not_elem_of_nil).
  assert (takes (holds := heap_holds thread_timestamp_compare) 64 idle_core []) as Hi.
  { exists 16. eexists. split; [split; [exact H0|done|done|apply Hn|by vm_compute|cbn; lia|by eexists; vm_compute|split; [by eexists; vm_compute|apply Hn]]|].
    split; [lia|]. split; [apply Hn|]. split; [by vm_compute|]. split; [done|cbn; lia]. }
  constructor; [|by repeat constructor].
  exists 32. eexists. split; [split; [|done|done|apply (bool_decide_unpack _); by vm_compute|by vm_compute|cbn; lia|by eexists; vm_compute|split; [by eexists; vm_compute|apply (bool_decide_unpack _); by vm_compute]]|].
  { eapply (push_holds _ (mkHeap sample_store 0 0) _ [] 48); [exact H0|apply Hn|lia|cbn; lia|by vm_compute|done|by vm_compute]. }
  split; [lia|]. split; [apply (bool_decide_unpack _); by vm_compute|]. split; [by vm_compute|]. split; [done|cbn; lia].
Qed.

Lemma idlest_core_gets_thread_witness :
  exists (i : nat) (x x' : instance) (l : list Z) s', schedule_thread 0 true 64 three_cores = Ok (i, s') /\ instances three_cores !! i = Some x /\ waiting !! i = Some l /\
    (forall l', l' ∈ waiting -> (length l <= length l')%nat) /\ (forall j l', (j < i)%nat -> waiting !! j = Some l' -> (length l < length l')%nat) /\
    instances s' = <[i := x']> (instances three_cores) /\ heap_holds thread_timestamp_compare (_threads x') (64 :: l) /\
    _current_thread x' = _current_thread x /\ (i <> 0%nat -> Ipi ∈ events x').
Proof. apply (idlest_core_gets_thread three_cores waiting 0 64); [done|cbn; lia|lia|exact three_cores_take]. Defined.

Example second_core : match schedule_thread 0 true 64 three_cores with Ok (i, _) => i = 1%nat | Err _ => False end.
Proof. by vm_compute. Qed.
