(* ===== verification/Locks.v ===== *)
(** * Locks: libraries/rosestd/include/mutex and shared_mutex

    The locks everything else in the kernel relies on, as the atomic operations on
    their word.  The threads interleave: a step is one atomic operation of one thread,
    in a memory that all of them see alike.  The lock objects that own a lock for a
    scope are at the end. *)
From S2P Require Import Prelude.

(** ** Atomic operations *)

(** A weak exchange may fail for no reason: [spurious]. *)
Definition compare_exchange_weak (spurious : bool) (expected desired : Z) : M Z bool := fun w =>
  if negb spurious && (w =? expected) then Ok (true, desired) else Ok (false, w).
Definition compare_exchange_strong (expected desired : Z) : M Z bool := compare_exchange_weak false expected desired.
Definition fetch_add (v : Z) : M Z Z := fun w => Ok (w, u64 (w + v)).
Definition fetch_sub (v : Z) : M Z Z := fun w => Ok (w, u64 (w - v)).
Definition fetch_xor (v : Z) : M Z Z := fun w => Ok (w, Z.lxor w v).
Definition load_word : M Z Z := gets id.

(** ** [shared_mutex] *)

Definition __unique_mask : Z := Z.shiftl 1 (8 * 8 - 1).

(** A round of the loop of [lock]: whether it ends. *)
Definition lock_round (spurious : bool) : M Z bool := compare_exchange_weak spurious 0 __unique_mask.
Definition try_lock : M Z bool := compare_exchange_strong 0 __unique_mask.
Definition unlock : M Z unit := let* _ := fetch_xor __unique_mask in ret tt.
(** [lock_shared] up to its loop, and a round of the loop: whether it is over. *)
Definition lock_shared_first : M Z bool := let* v := fetch_add 1 in ret (Z.land v __unique_mask =? 0).
Definition lock_shared_round : M Z bool := let* v := load_word in ret (Z.land v __unique_mask =? 0).
(** [try_lock_shared] in two operations: the second takes the first one back. *)
Definition try_lock_shared_first : M Z bool := let* v := fetch_add 1 in ret (Z.land v __unique_mask =? 0).
Definition try_lock_shared_second : M Z unit := let* _ := fetch_sub 1 in ret tt.
Definition unlock_shared : M Z unit := let* _ := fetch_sub 1 in ret tt.

(** Where a thread is: outside, in the loop of [lock], owning the lock alone, in the
    loop of [lock_shared], between the operations of a failed [try_lock_shared], or
    owning the lock with others. *)
Inductive position : Type := Outside | Locking | Unique | SharedWaiting | Undoing | Shared.
#[global] Instance position_eq_dec : EqDecision position. Proof. solve_decision. Defined.

(** What a thread does next: a call, or the next operation of the call it is in. *)
Inductive lock_choice : Type :=
| CallLock | CallTryLock | CallUnlock | CallLockShared | CallTryLockShared | CallUnlockShared
| Continue (spurious : bool).

(** One step of a thread; only an owner unlocks. *)
Definition lock_advance (c : lock_choice) (p : position) : option (M Z position) :=
  match p, c with
  | Outside, CallLock => Some (ret Locking)
  | Outside, CallTryLock => Some (let* b := try_lock in ret (if b then Unique else Outside))
  | Outside, CallLockShared => Some (let* b := lock_shared_first in ret (if b then Shared else SharedWaiting))
  | Outside, CallTryLockShared => Some (let* b := try_lock_shared_first in ret (if b then Shared else Undoing))
  | Locking, Continue spurious => Some (let* b := lock_round spurious in ret (if b then Unique else Locking))
  | SharedWaiting, Continue _ => Some (let* b := lock_shared_round in ret (if b then Shared else SharedWaiting))
  | Undoing, Continue _ => Some (try_lock_shared_second ;; ret Outside)
  | Unique, CallUnlock => Some (unlock ;; ret Outside)
  | Shared, CallUnlockShared => Some (unlock_shared ;; ret Outside)
  | _, _ => None
  end.

Record lock_system : Type := mkLocks { lock_word : Z; positions : list position }.
Definition lock_step (i : nat) (c : lock_choice) (s : lock_system) : option lock_system :=
  p ← positions s !! i;
  m ← lock_advance c p;
  match m (lock_word s) with Ok (q, w) => Some (mkLocks w (<[i := q]> (positions s))) | Err _ => None end.
Fixpoint run_locks (l : list (nat * lock_choice)) (s : lock_system) : option lock_system :=
  match l with [] => Some s | (i, c) :: l' => s' ← lock_step i c s; run_locks l' s' end.

(** ** The word *)

(** Threads in a given kind of position. *)
Definition tally (f : position -> bool) (p : position) : Z := if f p then 1 else 0.
Fixpoint holders (f : position -> bool) (l : list position) : Z :=
  match l with [] => 0 | p :: l' => tally f p + holders f l' end.
Definition is_unique (p : position) : bool := match p with Unique => true | _ => false end.
Definition is_shared (p : position) : bool := match p with Shared => true | _ => false end.
(** The threads that are counted in the low bits. *)
Definition is_counted (p : position) : bool := match p with SharedWaiting | Undoing | Shared => true | _ => false end.

Lemma tally_bounds f p : 0 <= tally f p <= 1.
Proof. unfold tally. destruct (f p); lia. Qed.
Lemma holders_bounds f l : 0 <= holders f l <= Z.of_nat (length l).
Proof. induction l as [|p l IH]; cbn [holders length]; [lia|]. pose proof (tally_bounds f p). lia. Qed.
Lemma holders_insert f l : forall i p q, l !! i = Some p -> holders f (<[i := q]> l) = holders f l - tally f p + tally f q.
Proof.
  induction l as [|r l IH]; intros [|i] p q; cbn; try done.
  - intros [= ->]. lia.
  - intros Hi. change (tally f r + holders f (<[i := q]> l) = tally f r + holders f l - tally f p + tally f q). rewrite (IH i p q Hi). lia.
Qed.
Lemma holders_zero f l : holders f l = 0 -> forall i p, l !! i = Some p -> f p = false.
Proof.
  induction l as [|r l IH]; intros Hc [|i] p; cbn in *; try done; pose proof (holders_bounds f l); pose proof (tally_bounds f r).
  - intros [= ->]. unfold tally in *. destruct (f p); [lia|done].
  - apply IH. lia.
Qed.
Lemma holders_some f l i p : l !! i = Some p -> tally f p <= holders f l.
Proof.
  revert i. induction l as [|r l IH]; intros [|i]; cbn; try done; pose proof (holders_bounds f l); pose proof (tally_bounds f r).
  - intros [= ->]. lia.
  - intros Hi. specialize (IH i Hi). lia.
Qed.
Lemma holders_two f l i j p q : i <> j -> l !! i = Some p -> l !! j = Some q -> tally f p + tally f q <= holders f l.
Proof.
  revert i j. induction l as [|r l IH]; intros [|i] [|j] Hij; cbn; try done; pose proof (tally_bounds f r).
  - intros [= ->] Hj. pose proof (holders_some f l j q Hj). lia.
  - intros Hi [= ->]. pose proof (holders_some f l i p Hi). lia.
  - intros Hi Hj. specialize (IH i j ltac:(lia) Hi Hj). lia.
Qed.
Lemma holders_outside f n : f Outside = false -> holders f (replicate n Outside) = 0.
Proof. intros Hf. induction n as [|n IH]; cbn; [done|]. unfold tally. rewrite Hf. lia. Qed.

Lemma holders_none f l : (forall i p, l !! i = Some p -> f p = false) -> holders f l = 0.
Proof.
  induction l as [|r l IH]; intros H; [done|]. cbn. unfold tally. rewrite (H 0%nat r eq_refl), IH; [done|]. intros i p Hi. exact (H (S i) p Hi).
Qed.

Lemma low_mask c : 0 <= c < 2 ^ 63 -> Z.land c __unique_mask = 0.
Proof.
  intros Hc. apply Z.bits_inj'. intros n Hn. unfold __unique_mask. rewrite Z.land_spec, Z.bits_0, Z.shiftl_1_l, Z.pow2_bits_eqb by lia.
  destruct (Z.eqb_spec (8 * 8 - 1) n) as [<-|]; [|by rewrite andb_false_r]. rewrite andb_true_r. rewrite <- (Z.mod_small c (2 ^ 63)) by done. by apply Z.mod_pow2_bits_high.
Qed.
Lemma mask_value : __unique_mask = 2 ^ 63.
Proof. done. Qed.
Lemma mask_add c : 0 <= c < 2 ^ 63 -> 2 ^ 63 + c = Z.lxor c __unique_mask.
Proof. intros Hc. rewrite <- Z.add_nocarry_lxor by by apply low_mask. rewrite mask_value. lia. Qed.
Lemma high_mask c : 0 <= c < 2 ^ 63 -> Z.land (2 ^ 63 + c) __unique_mask = 2 ^ 63.
Proof.
  intros Hc. rewrite mask_add by done. apply Z.bits_inj'. intros n Hn. pose proof (f_equal (fun z => Z.testbit z n) (low_mask c Hc)) as Hl. cbn beta in Hl.
  rewrite <- mask_value, Z.land_spec, Z.lxor_spec. rewrite Z.land_spec, Z.bits_0 in Hl. by destruct (Z.testbit c n), (Z.testbit __unique_mask n).
Qed.
Lemma unmask c : 0 <= c < 2 ^ 63 -> Z.lxor (2 ^ 63 + c) __unique_mask = c.
Proof. intros Hc. rewrite mask_add by done. by rewrite Z.lxor_assoc, Z.lxor_nilpotent, Z.lxor_0_r. Qed.

(** ** The invariant *)

(** The word says who is in: its highest bit whether a thread owns the lock alone, the
    other bits how many threads have asked to share it. *)
Record locks_ok (s : lock_system) : Prop := {
  lk_small : Z.of_nat (length (positions s)) < 2 ^ 63 - 1;
  lk_unique : holders is_unique (positions s) <= 1;
  lk_apart : holders is_unique (positions s) = 1 -> holders is_shared (positions s) = 0;
  lk_word : lock_word s = 2 ^ 63 * holders is_unique (positions s) + holders is_counted (positions s)
}.

Lemma word_free c : 0 <= c < 2 ^ 63 -> forall u, 0 <= u <= 1 -> (Z.land (2 ^ 63 * u + c) __unique_mask =? 0) = (u =? 0).
Proof.
  intros Hc u Hu. assert (u = 0 \/ u = 1) as [-> | ->] by lia.
  - replace (2 ^ 63 * 0 + c) with c by lia. by rewrite low_mask.
  - rewrite Z.mul_1_r. by rewrite high_mask.
Qed.

(** What a step of the thread at [p] does to the word, and where it goes. *)
Lemma advance_effect ch p m u c q w' : 0 <= u <= 1 -> 0 <= c < 2 ^ 63 - 1 -> (tally is_unique p <= u) -> (tally is_counted p <= c) ->
  lock_advance ch p = Some m -> m (2 ^ 63 * u + c) = Ok (q, w') ->
  let u' := u - tally is_unique p + tally is_unique q in
  w' = 2 ^ 63 * u' + (c - tally is_counted p + tally is_counted q) /\ u' <= 1 /\
  (tally is_unique q = 1 -> tally is_unique p = 0 -> c = 0) /\
  (tally is_shared q = 1 -> tally is_shared p = 0 -> u' = 0).
Proof.
  intros Hu Hc Hpu Hpc Ea Em.
  assert (forall v, 0 <= v < 2 ^ 64 -> u64 v = v) as H64 by (intros v Hv; by apply u64_id).
  destruct p, ch; cbn in Ea; try discriminate; injection Ea as <-; cbn in Hpu, Hpc;
    unfold try_lock, lock_round, compare_exchange_strong, compare_exchange_weak, lock_shared_first, try_lock_shared_first, lock_shared_round, load_word,
      unlock, unlock_shared, try_lock_shared_second, fetch_add, fetch_sub, fetch_xor, gets, id, bind, ret in Em;
    rewrite ?word_free in Em by lia.
  all: repeat match type of Em with context [if ?b then _ else _] => destruct b eqn:? end; try (injection Em as <- <-); cbn [tally is_unique is_counted is_shared].
  all: rewrite ?H64, ?mask_value by lia; repeat match goal with H : _ && _ = _ |- _ => apply andb_true_iff in H as [_ H] || clear H
    | H : (_ =? _) = true |- _ => apply Z.eqb_eq in H | H : (_ =? _) = false |- _ => apply Z.eqb_neq in H end; try lia.
  assert (u = 1) as -> by lia. rewrite Z.mul_1_r, unmask by lia. lia.
Qed.

Lemma shared_counted l : holders is_shared l <= holders is_counted l.
Proof. induction l as [|p l IH]; cbn [holders]; [done|]. destruct p; cbn [tally is_shared is_counted]; unfold tally in *; cbn; lia. Qed.

Lemma lock_step_ok i ch s s' : locks_ok s -> lock_step i ch s = Some s' -> locks_ok s'.
Proof.
  intros [Hn Hu Ha Hw] E. unfold lock_step in E. destruct (positions s !! i) as [p|] eqn:Hp; [|done]. cbn in E.
  destruct (lock_advance ch p) as [m|] eqn:Em; [|done]. cbn in E. rewrite Hw in E.
  destruct (m _) as [[q w']|] eqn:Er; [|done]. injection E as <-.
  pose proof (holders_bounds is_unique (positions s)). pose proof (holders_bounds is_counted (positions s)). pose proof (holders_bounds is_shared (positions s)).
  pose proof (holders_some is_unique _ _ _ Hp). pose proof (holders_some is_counted _ _ _ Hp). pose proof (holders_some is_shared _ _ _ Hp). pose proof (shared_counted (positions s)).
  destruct (advance_effect ch p m (holders is_unique (positions s)) (holders is_counted (positions s)) q w') as (Ew & Hu1 & Hq & Hs); [lia..|done|done|].
  split; cbn; rewrite ?length_insert, ?(holders_insert _ _ _ _ _ Hp); try lia.
  pose proof (tally_bounds is_unique p). pose proof (tally_bounds is_unique q). pose proof (tally_bounds is_shared p). pose proof (tally_bounds is_shared q).
  destruct q; cbn in *; destruct p; cbn in *; lia.
Qed.
Lemma run_locks_ok l : forall s s', locks_ok s -> run_locks l s = Some s' -> locks_ok s'.
Proof.
  induction l as [|[i c] l IH]; intros s s' Hs E; cbn in E; [by injection E as <-|].
  destruct (lock_step i c s) as [s1|] eqn:E1; [|done]. cbn in E. eapply IH; [|exact E]. by eapply lock_step_ok.
Qed.
Lemma start_ok n : Z.of_nat n < 2 ^ 63 - 1 -> locks_ok (mkLocks 0 (replicate n Outside)).
Proof. intros Hn. split; cbn; rewrite ?length_replicate, ?holders_outside; done. Qed.

(** C10: the shared mutex.  However the operations of the threads interleave, spurious
    failures included, a thread that owns the lock alone is the only owner.  Nobody is
    kept out for good: when the lock has no owner, every thread that waits to share it
    gets it with its next operation, and when no thread has asked to share it, a
    thread that waits to own it alone does; with all threads outside the word is zero
    again. *)
Theorem shared_mutex_excludes n schedule s :
  Z.of_nat n < 2 ^ 63 - 1 -> run_locks schedule (mkLocks 0 (replicate n Outside)) = Some s ->
  (forall i j p, positions s !! i = Some Unique -> positions s !! j = Some p -> i <> j -> p <> Unique /\ p <> Shared) /\
  ((forall i p, positions s !! i = Some p -> p <> Unique /\ p <> Shared) ->
     (forall i b, positions s !! i = Some SharedWaiting -> exists w, lock_step i (Continue b) s = Some (mkLocks w (<[i := Shared]> (positions s)))) /\
     ((forall i p, positions s !! i = Some p -> is_counted p = false) -> forall i, positions s !! i = Some Locking ->
        exists w, lock_step i (Continue false) s = Some (mkLocks w (<[i := Unique]> (positions s))))) /\
  ((forall i p, positions s !! i = Some p -> p = Outside) -> lock_word s = 0).
Proof.
  intros Hn E. destruct (run_locks_ok _ _ _ (start_ok n Hn) E) as [Hl Hu Ha Hw]. pose proof (holders_bounds is_counted (positions s)). split; [|split].
  - intros i j p Hi Hj Hij. pose proof (holders_two is_unique _ i j Unique p Hij Hi Hj) as H2. pose proof (holders_some is_unique _ _ _ Hi) as H1.
    pose proof (holders_some is_shared _ _ _ Hj) as H3. cbn in H1, H2. specialize (Ha ltac:(lia)). destruct p; cbn in H2, H3; split; (done || lia).
  - intros Hno. assert (holders is_unique (positions s) = 0) as Hu0.
    { apply holders_none. intros i p Hi. destruct (Hno i p Hi). by destruct p. }
    rewrite Hu0, Z.mul_0_r, Z.add_0_l in Hw. split.
    + intros i b Hi. eexists. unfold lock_step. rewrite Hi. cbn. unfold lock_shared_round, load_word, gets, bind, ret, id. rewrite Hw, low_mask by lia. done.
    + intros Hc i Hi. eexists. unfold lock_step. rewrite Hi. cbn. unfold lock_round, compare_exchange_weak, bind, ret. rewrite Hw, (holders_none is_counted) by done. done.
  - intros Ho. rewrite Hw, !holders_none; [done|..]; intros i p Hi; by rewrite (Ho i p Hi).
Qed.

(** Three threads: one owns the lock alone while another waits to share it and a third
    one tries in vain; then it lets go and the second one gets in. *)
Definition meeting : list (nat * lock_choice) :=
  [(0, CallLock); (0, Continue true); (0, Continue false); (1, CallLockShared); (2, CallTryLockShared); (1, Continue false); (2, Continue false);
   (0, CallUnlock); (2, CallLock); (2, Continue false); (1, Continue false)]%nat.
Lemma shared_mutex_excludes_witness : let s := mkLocks 1 [Outside; Shared; Locking] in
  (forall i j p, positions s !! i = Some Unique -> positions s !! j = Some p -> i <> j -> p <> Unique /\ p <> Shared) /\
  ((forall i p, positions s !! i = Some p -> p <> Unique /\ p <> Shared) ->
     (forall i b, positions s !! i = Some SharedWaiting -> exists w, lock_step i (Continue b) s = Some (mkLocks w (<[i := Shared]> (positions s)))) /\
     ((forall i p, positions s !! i = Some p -> is_counted p = false) -> forall i, positions s !! i = Some Locking ->
        exists w, lock_step i (Continue false) s = Some (mkLocks w (<[i := Unique]> (positions s))))) /\
  ((forall i p, positions s !! i = Some p -> p = Outside) -> lock_word s = 0).
Proof. apply (shared_mutex_excludes 3 meeting); [lia|by vm_compute]. Defined.

(** ** [mutex] *)

(** The word of a mutex is a boolean. *)
Definition mutex_lock_round (spurious : bool) : M Z bool := compare_exchange_weak spurious 0 1.
Definition mutex_try_lock : M Z bool := compare_exchange_strong 0 1.
Definition mutex_unlock : M Z unit := modify (fun _ => 0).
Definition mutex_advance (c : lock_choice) (p : position) : option (M Z position) :=
  match p, c with
  | Outside, CallLock => Some (ret Locking)
  | Outside, CallTryLock => Some (let* b := mutex_try_lock in ret (if b then Unique else Outside))
  | Locking, Continue spurious => Some (let* b := mutex_lock_round spurious in ret (if b then Unique else Locking))
  | Unique, CallUnlock => Some (mutex_unlock ;; ret Outside)
  | _, _ => None
  end.
Definition mutex_step (i : nat) (c : lock_choice) (s : lock_system) : option lock_system :=
  p ← positions s !! i;
  m ← mutex_advance c p;
  match m (lock_word s) with Ok (q, w) => Some (mkLocks w (<[i := q]> (positions s))) | Err _ => None end.
Fixpoint run_mutex (l : list (nat * lock_choice)) (s : lock_system) : option lock_system :=
  match l with [] => Some s | (i, c) :: l' => s' ← mutex_step i c s; run_mutex l' s' end.

Lemma mutex_step_ok i ch s s' : lock_word s = holders is_unique (positions s) -> lock_word s <= 1 -> mutex_step i ch s = Some s' ->
  lock_word s' = holders is_unique (positions s') /\ lock_word s' <= 1.
Proof.
  intros Hw Hu E. unfold mutex_step in E. destruct (positions s !! i) as [p|] eqn:Hp; [|done]. cbn in E.
  pose proof (holders_bounds is_unique (positions s)). pose proof (holders_some is_unique _ _ _ Hp).
  destruct p, ch; cbn in E; try discriminate;
    unfold mutex_try_lock, mutex_lock_round, mutex_unlock, compare_exchange_strong, compare_exchange_weak, modify, bind, ret in E;
    repeat match type of E with context [if ?b then _ else _] => destruct b eqn:? end; injection E as <-; cbn [lock_word positions];
    rewrite (holders_insert _ _ _ _ _ Hp); cbn [tally is_unique] in *; repeat match goal with H : _ && _ = true |- _ => apply andb_true_iff in H as [_ H%Z.eqb_eq] end; lia.
Qed.
(** A mutex has one owner, and its word says whether it has one. *)
Theorem mutex_excludes n schedule s : run_mutex schedule (mkLocks 0 (replicate n Outside)) = Some s ->
  (forall i j, positions s !! i = Some Unique -> positions s !! j = Some Unique -> i = j) /\
  (lock_word s = 0 <-> forall i p, positions s !! i = Some p -> p <> Unique).
Proof.
  intros E. assert (lock_word s = holders is_unique (positions s) /\ lock_word s <= 1) as [Hw Hu].
  { assert (forall l s0, lock_word s0 = holders is_unique (positions s0) -> lock_word s0 <= 1 -> run_mutex l s0 = Some s ->
      lock_word s = holders is_unique (positions s) /\ lock_word s <= 1) as H.
    { induction l as [|[i c] l IH]; intros s0 H1 H2 E0; cbn in E0; [by injection E0 as <-|].
      destruct (mutex_step i c s0) as [s1|] eqn:E1; [|done]. destruct (mutex_step_ok i c s0 s1 H1 H2 E1). by apply (IH s1). }
    apply (H schedule (mkLocks 0 (replicate n Outside))); [exact (eq_sym (holders_outside is_unique n eq_refl))|cbn; lia|exact E]. }
  split.
  - intros i j Hi Hj. destruct (decide (i = j)) as [|Hij]; [done|]. pose proof (holders_two is_unique _ i j _ _ Hij Hi Hj) as H2. cbn in H2. lia.
  - split.
    + intros H0 i p Hi ->. pose proof (holders_some is_unique _ _ _ Hi) as H1. cbn in H1. lia.
    + intros Hno. rewrite Hw. apply holders_none. intros i p Hi. specialize (Hno i p Hi). by destruct p.
Qed.

(** ** Lock objects *)

(** The words of the mutexes, and a [unique_lock] or [shared_lock]. *)
Record lock_object : Type := mkLock { __pm : option Z; __owns : bool }.
Abbreviation WM := (M (gmap Z Z)).
Definition on_word {A} (a : Z) (m : M Z A) : WM A := fun ws =>
  match ws !! a with
  | None => Err Fault
  | Some w => match m w with Ok (x, w') => Ok (x, <[a := w']> ws) | Err e => Err e end
  end.
Definition through {A} (l : lock_object) (m : M Z A) : WM A := match __pm l with Some a => on_word a m | None => fail Fault end.

(** The end of the scope, and giving the lock away. *)
Definition shared_lock_destroy (l : lock_object) : WM unit := if __owns l then through l unlock_shared else ret tt.
Definition unique_lock_destroy (l : lock_object) : WM unit := if __owns l then through l unlock else ret tt.
Definition lock_move (l : lock_object) : lock_object * lock_object := (l, mkLock None false).
(** Assignment by move: the object assigned to, and the one moved from. *)
Definition shared_lock_assign (l s : lock_object) : WM (lock_object * lock_object) :=
  (if __owns l then through l unlock else ret tt) ;; ret (lock_move s).
Definition unique_lock_assign (l s : lock_object) : WM (lock_object * lock_object) :=
  (if __owns l then through l unlock else ret tt) ;; ret (lock_move s).

(** A lock is let go once: by the object it was moved to. *)
Lemma moved_lock_released a c ws : ws !! a = Some c -> 0 < c < 2 ^ 63 ->
  let r := lock_move (mkLock (Some a) true) in
  (shared_lock_destroy r.1 ;; shared_lock_destroy r.2) ws = Ok (tt, <[a := c - 1]> ws).
Proof.
  intros Ha Hc. cbn. unfold shared_lock_destroy, through, on_word, unlock_shared, fetch_sub, bind, ret. cbn. rewrite Ha. by rewrite u64_id by (split; lia).
Qed.
(** Assigning to an object that shares a lock flips the bit of the unique owner instead
    of leaving: the lock is taken for good. *)
Example shared_assign_locks_up : shared_lock_assign (mkLock (Some 16) true) (mkLock None false) {[16 := 1]}
  = Ok ((mkLock None false, mkLock None false), {[16 := 2 ^ 63 + 1]}).
Proof. by vm_compute. Qed.
