(* ===== verification/Format.v ===== *)
(** * Formatted text: libraries/rosestd/include/format

    What [std::format_to] writes, which everything the kernel and the first process
    print goes through.  A format is a literal: the character after its last one is
    zero.  An iterator into it is the rest of the text with that zero, so the end is
    the text of one character, and reading further is a fault.  A format error is
    an exception while compiling, and an invalid instruction at run time. *)
From S2P Require Import Prelude Text.

Definition at_end (it : bytes) : bool := Nat.eqb (length it) 1.
Definition deref (it : bytes) : res Z := match it with c :: _ => Ok c | [] => Err Fault end.
Definition format_error {A} (msg : string) : res A := Err (Panic msg).
Definition then_ {A B} (r : res A) (f : A -> res B) : res B := match r with Ok a => f a | Err e => Err e end.
Notation "'let!' x := r 'in' k" := (then_ r (fun x => k)) (at level 200, x pattern, right associativity).

(** ** [formatter<string_view>] *)

Inductive alignment : Type := align_left | align_right | align_middle.
#[export] Instance alignment_eq_dec : EqDecision alignment. Proof. solve_decision. Defined.
Record str_formatter : Type := mkStr {
  __fill : Z; __sign : Z; __throw_on_trailing : bool; __parsed_for_numeric : bool; __is_numeric : bool;
  __alt_repr : bool; __zero_fill : bool; __default_align : bool; __align : alignment; __width : Z
}.
Definition new_str : str_formatter := mkStr 32 45 true false false false false true align_left 0.
Definition with_fill (c : Z) (f : str_formatter) : str_formatter :=
  mkStr c (__sign f) (__throw_on_trailing f) (__parsed_for_numeric f) (__is_numeric f) (__alt_repr f) (__zero_fill f) (__default_align f) (__align f) (__width f).
(** An alignment that was asked for. *)
Definition with_align (a : alignment) (f : str_formatter) : str_formatter :=
  mkStr (__fill f) (__sign f) (__throw_on_trailing f) (__parsed_for_numeric f) (__is_numeric f) (__alt_repr f) (__zero_fill f) false a (__width f).
Definition with_sign (c : Z) (f : str_formatter) : str_formatter :=
  mkStr (__fill f) c (__throw_on_trailing f) true (__is_numeric f) (__alt_repr f) (__zero_fill f) (__default_align f) (__align f) (__width f).
Definition with_alt (f : str_formatter) : str_formatter :=
  mkStr (__fill f) (__sign f) (__throw_on_trailing f) true (__is_numeric f) true (__zero_fill f) (__default_align f) (__align f) (__width f).
Definition with_zero (f : str_formatter) : str_formatter :=
  mkStr (__fill f) (__sign f) (__throw_on_trailing f) true (__is_numeric f) (__alt_repr f) true (__default_align f) (__align f) (__width f).
Definition with_width (w : Z) (f : str_formatter) : str_formatter :=
  mkStr (__fill f) (__sign f) (__throw_on_trailing f) (__parsed_for_numeric f) (__is_numeric f) (__alt_repr f) (__zero_fill f) (__default_align f) (__align f) w.
(** What the formatters of numbers start with. *)
Definition for_numbers (f : str_formatter) : str_formatter :=
  mkStr (__fill f) (__sign f) false (__parsed_for_numeric f) true (__alt_repr f) (__zero_fill f) (__default_align f) align_right (__width f).

Definition align_of (c : Z) : option alignment :=
  if c =? 60 then Some align_left else if c =? 62 then Some align_right else if c =? 94 then Some align_middle else None.

(** The parser returns early whenever it is at the end or at the closing brace. *)
Definition stop (it : bytes) : res bool := if at_end it then Ok true else let! c := deref it in Ok (c =? 125).
Definition unless_stopped (f : str_formatter) (it : bytes) (k : str_formatter -> bytes -> res (str_formatter * bytes)) : res (str_formatter * bytes) :=
  let! b := stop it in if b then Ok (f, it) else k f it.

Definition parse_type (f : str_formatter) (it : bytes) : res (str_formatter * bytes) :=
  let! c := deref it in
  let it := if c =? 115 then tl it else it in
  let! c := if at_end it then Ok 125 else deref it in
  if negb (c =? 125) && __throw_on_trailing f then format_error "found unexpected characters at the position of a format type specifier"
  else Ok (f, it).
Fixpoint width_digits (w : Z) (it : bytes) : res (Z * bytes) :=
  if at_end it then Ok (w, it) else
  match it with
  | [] => Err Fault
  | c :: it' => if (48 <=? c) && (c <? 57) then width_digits (u8 (w * 10 + (c - 48))) it' else Ok (w, it)
  end.
Definition parse_width (f : str_formatter) (it : bytes) : res (str_formatter * bytes) :=
  let! c := deref it in
  if (49 <=? c) && (c <=? 57) then
    let! (w, it) := width_digits (c - 48) (tl it) in
    unless_stopped (with_width w f) it parse_type
  else parse_type f it.
Definition parse_zero (f : str_formatter) (it : bytes) : res (str_formatter * bytes) :=
  let! c := deref it in
  if c =? 48 then unless_stopped (with_zero f) (tl it) parse_width else parse_width f it.
Definition parse_alt (f : str_formatter) (it : bytes) : res (str_formatter * bytes) :=
  let! c := deref it in
  if c =? 35 then unless_stopped (with_alt f) (tl it) parse_zero else parse_zero f it.
Definition parse_sign (f : str_formatter) (it : bytes) : res (str_formatter * bytes) :=
  let! c := deref it in
  if (c =? 43) || (c =? 45) || (c =? 32) then unless_stopped (with_sign c f) (tl it) (fun f it => unless_stopped f it parse_alt)
  else unless_stopped f it parse_alt.
Definition parse_str (f : str_formatter) (begin : bytes) : res (str_formatter * bytes) :=
  let! first := deref begin in
  if first =? 125 then Ok (f, begin) else
  let it := tl begin in
  if at_end it then format_error "formatter was provided an empty format range" else
  let! second := deref it in
  match align_of second with
  | Some a => unless_stopped (with_align a (with_fill first f)) (tl it) parse_sign
  | None =>
      match align_of first with
      | Some a => unless_stopped (with_align a f) it parse_sign
      | None => unless_stopped f begin parse_sign
      end
  end.

(** [format] of a view whose first [prefix_length] characters are a prefix. *)
Definition format_str (f : str_formatter) (strv : bytes) (prefix_length : nat) : res bytes :=
  if __parsed_for_numeric f && negb (__is_numeric f) then format_error "internal error: parsed for numeric, but is not numeric" else
  let small := Z.of_nat (length strv) <? __width f in
  let zeros := small && __default_align f && __zero_fill f in
  let align := if zeros then align_right else __align f in
  let fill := if zeros then 48 else __fill f in
  let n := Z.to_nat (__width f - Z.of_nat (length strv)) in
  Ok ((if zeros then take prefix_length strv else []) ++
      (if small && negb (bool_decide (align = align_left)) then replicate (if decide (align = align_middle) then n / 2 else n)%nat fill else []) ++
      (if zeros then drop prefix_length strv else strv) ++
      (if small && negb (__default_align f && __zero_fill f) && negb (bool_decide (align = align_right))
       then replicate (if decide (align = align_middle) then n / 2 + n mod 2 else n)%nat fill else [])).

(** ** Numbers, booleans and pointers *)

Record num_formatter : Type := mkNum { __strfmt : str_formatter; __upper : bool; __binary : bool; __octal : bool; __hex : bool; __char : bool }.
Definition new_num (char : bool) : num_formatter := mkNum new_str false false false false char.
Definition with_strfmt (s : str_formatter) (f : num_formatter) : num_formatter := mkNum s (__upper f) (__binary f) (__octal f) (__hex f) (__char f).

Definition trailing {A} (it : bytes) (a : A) : res A :=
  let! b := stop it in if b then Ok a else format_error "found unexpected characters at the position of a format type specifier".
(** The switch over the type; two cases fall through. *)
Definition set_presentation (c : Z) (f : num_formatter) : option num_formatter :=
  let s := __strfmt f in
  if c =? 66 then Some (mkNum s true true (__octal f) (__hex f) (__char f))
  else if c =? 98 then Some (mkNum s (__upper f) true (__octal f) (__hex f) (__char f))
  else if c =? 99 then Some (mkNum s (__upper f) (__binary f) (__octal f) (__hex f) true)
  else if c =? 100 then Some f
  else if c =? 111 then Some (mkNum s (__upper f) (__binary f) true (__hex f) (__char f))
  else if c =? 88 then Some (mkNum s true (__binary f) (__octal f) true (__char f))
  else if c =? 120 then Some (mkNum s (__upper f) (__binary f) (__octal f) true (__char f))
  else None.
Definition parse_num (f : num_formatter) (begin : bytes) : res (num_formatter * bytes) :=
  let! (s, it) := parse_str (for_numbers (__strfmt f)) begin in
  let f := with_strfmt s f in
  if at_end it then Ok (f, it) else
  let! c := deref it in
  let (f, it) := match set_presentation c f with Some f' => (f', tl it) | None => (f, it) end in
  trailing it (f, it).

Definition base_of (f : num_formatter) : Z := if __binary f then 2 else if __octal f then 8 else if __hex f then 16 else 10.
Definition alt_prefix (base : Z) : bytes :=
  if base =? 2 then [48; 98] else if base =? 8 then [48] else if base =? 16 then [48; 120] else [].
Definition to_upper (c : Z) : Z := if (97 <=? c) && (c <=? 122) then c + (65 - 97) else c.
Definition terminated (l : bytes) : bytes := match l with 0 :: _ => [] | _ => l end.
Definition format_num (t : int_type) (f : num_formatter) (val : Z) : res bytes :=
  let s := __strfmt f in
  if __char f then format_str s (terminated [u8 val]) 0 else
  let! v := if val <? 0 then convert t (- val) else Ok val in
  let base := base_of f in
  let prefix := (if val <? 0 then [45] else if negb (__sign s =? 45) then [__sign s] else []) ++ (if __alt_repr s then alt_prefix base else []) in
  let! r := to_chars t (129 - Z.of_nat (length prefix)) v base in
  let buffer := prefix ++ written r in
  let buffer := if __upper f then to_upper <$> buffer else buffer in
  if negb (bool_decide (to_ec r = no_error)) then format_error "call to to_chars failed" else
  format_str s buffer (length prefix).

Definition unsigned_char : int_type := mkInt 8 false.
(** A boolean as a word or as a number. *)
Definition parse_bool (begin : bytes) : res ((str_formatter * option num_formatter) * bytes) :=
  let s := new_str in
  let! (s, it) := parse_str (mkStr (__fill s) (__sign s) false (__parsed_for_numeric s) (__is_numeric s) (__alt_repr s) (__zero_fill s) (__default_align s) (__align s) (__width s)) begin in
  if at_end it then Ok ((s, None), it) else
  let! c := deref it in
  if c =? 125 then Ok ((s, None), it)
  else if c =? 115 then trailing (tl it) ((s, None), tl it)
  else if bool_decide (c ∈ [98; 66; 99; 100; 111; 120; 88]) then
    let! (n, it) := parse_num (with_strfmt (for_numbers s) (new_num false)) it in
    trailing it ((s, Some n), it)
  else trailing it ((s, None), it).
Definition format_bool (f : str_formatter * option num_formatter) (val : bool) : res bytes :=
  match f.2 with
  | None => format_str f.1 (if val then text "true" else text "false") 0
  | Some n => format_num unsigned_char n (if val then 1 else 0)
  end.

Definition parse_pointer (begin : bytes) : res (num_formatter * bytes) :=
  let! (s, it) := parse_str (mkStr 32 45 false false true true false true align_right 0) begin in
  let f := mkNum s false false false true false in
  let! c := if at_end it then Ok 125 else deref it in
  if (c =? 112) || (c =? 125) then Ok (f, it)
  else format_error "found unexpected characters at the position of a format type specifier".

(** ** Arguments *)

Inductive format_arg : Type :=
| ArgBool (b : bool)
| ArgChar (c : Z)
| ArgInt (t : int_type) (v : Z)
| ArgString (l : bytes)
| ArgPointer (p : Z).
Definition int32 : int_type := mkInt 32 true.

(** What [vformat_to] does with an argument: its text, and the rest of the format. *)
Definition handle_arg (a : option format_arg) (begin : bytes) : res (bytes * bytes) :=
  match a with
  | None => format_error "tried to use an argument beyond the provided arguments"
  | Some (ArgBool b) => let! (f, it) := parse_bool begin in let! l := format_bool f b in Ok (l, it)
  | Some (ArgChar c) => let! (f, it) := parse_num (new_num true) begin in let! l := format_num int32 f c in Ok (l, it)
  | Some (ArgInt t v) => let! (f, it) := parse_num (new_num false) begin in let! l := format_num t f v in Ok (l, it)
  | Some (ArgString s) => let! (f, it) := parse_str new_str begin in let! l := format_str f s 0 in Ok (l, it)
  | Some (ArgPointer p) => let! (f, it) := parse_pointer begin in let! l := format_num uint64_t f p in Ok (l, it)
  end.

(** ** The format *)

Inductive indexing : Type := unknown_indexing | manual | automatic.
(** Parsing contexts are made for 0 arguments. *)
Definition __num_args : Z := 0.
Definition next_arg_id (ix : indexing) (next : Z) : res (indexing * Z * Z) :=
  match ix with
  | manual => format_error "unindexed format specifier found in a format string containing indexed format specifiers"
  | _ => if u64 (next + 1) =? __num_args then format_error "more unindexed format specifiers than arguments provided"
         else Ok (automatic, next, u64 (next + 1))
  end.
Definition check_arg_id (ix : indexing) (id : Z) : res indexing :=
  match ix with
  | automatic => format_error "indexed format specifier found in a format string containing unindexed format specifiers"
  | _ => if __num_args <=? id then format_error "indexed format specifier specifies an index beyond the number of provided arguments" else Ok manual
  end.
Fixpoint index_digits (idx : Z) (it : bytes) : res (Z * bytes) :=
  match it with
  | [] => Err Fault
  | c :: it' => if (48 <=? c) && (c <=? 57) then index_digits (u64 (idx * 10 + (c - 48))) it' else Ok (idx, it)
  end.

(** The number of an argument and where its specifier starts. *)
Definition parse_index (ix : indexing) (next : Z) (it : bytes) : res (Z * indexing * Z * bytes) :=
  let! c := deref it in
  if (48 <=? c) && (c <=? 57) then
    let! (idx, it) := index_digits 0 it in
    let! ix := check_arg_id ix idx in Ok (idx, ix, next, it)
  else let! (ix, idx, next) := next_arg_id ix next in Ok (idx, ix, next, it).

Fixpoint handle_format (fuel : nat) (args : list format_arg) (ix : indexing) (next : Z) (it : bytes) : res bytes :=
  match fuel with
  | O => Err NoFuel
  | S n =>
      if at_end it then Ok [] else
      let! c := deref it in
      if negb (c =? 123) then let! l := handle_format n args ix next (tl it) in Ok (c :: l) else
      let it := tl it in
      let! c := deref it in
      if c =? 123 then let! l := handle_format n args ix next (tl it) in Ok (c :: l) else
      let! (idx, ix, next, it) := parse_index ix next it in
      let! c := deref it in
      let it := if c =? 58 then tl it else it in
      let! (text, it) := handle_arg (args !! Z.to_nat idx) it in
      let! c := deref it in
      if c =? 125 then let! l := handle_format n args ix next (tl it) in Ok (text ++ l)
      else format_error "unterminated format specifier found"
  end.
(** [format_to]: what is written *)
Definition format_to (fmt : bytes) (args : list format_arg) : res bytes :=
  handle_format (S (length fmt)) args unknown_indexing 0 (fmt ++ [0]).

(** ** Formats as they are meant *)

(** A specifier of a number: fill and alignment, sign, [#], [0], the digits of the width
    and the type. *)
Inductive presentation : Type := P_b | P_B | P_o | P_d | P_x | P_X.
Record specifier : Type := mkSpecifier {
  sp_place : option (option Z * alignment);
  sp_sign : option Z;
  sp_alt : bool;
  sp_zero : bool;
  sp_width : bytes;
  sp_type : option presentation
}.
(** Part of a format: a character, a brace, a plain field or one with a specifier. *)
Inductive piece : Type := Literal (c : Z) | Brace | Field (t : int_type) (v : Z) (spec : option specifier) | Word (l : bytes).

Definition optional {A} (o : option A) : list A := match o with Some a => [a] | None => [] end.
Definition align_char (a : alignment) : Z := match a with align_left => 60 | align_right => 62 | align_middle => 94 end.
Definition type_char (p : presentation) : Z := match p with P_b => 98 | P_B => 66 | P_o => 111 | P_d => 100 | P_x => 120 | P_X => 88 end.
Definition print_place (p : option (option Z * alignment)) : bytes :=
  match p with None => [] | Some (fill, a) => optional fill ++ [align_char a] end.
Definition print_type (p : option presentation) : bytes := optional (type_char <$> p).
Definition print_spec (p : specifier) : bytes :=
  print_place (sp_place p) ++ optional (sp_sign p) ++ (if sp_alt p then [35] else []) ++ (if sp_zero p then [48] else []) ++ sp_width p ++ print_type (sp_type p).
Definition print_piece (p : piece) : bytes :=
  match p with
  | Literal c => [c]
  | Brace => [123; 123]
  | Field _ _ None | Word _ => [123; 125]
  | Field _ _ (Some spec) => [123; 58] ++ print_spec spec ++ [125]
  end.
Definition args_of (l : list piece) : list format_arg :=
  omap (fun p => match p with Field t v _ => Some (ArgInt t v) | Word s => Some (ArgString s) | _ => None end) l.

Definition width_value (l : bytes) : Z := fold_left (fun w c => w * 10 + (c - 48)) l 0.
(** The digits of a width; a 9 is only taken as the first one. *)
Definition width_ok (l : bytes) : Prop :=
  match l with [] => True | c :: l' => 49 <= c <= 57 /\ Forall (fun c => 48 <= c < 57) l' end /\ width_value l < 256.
Definition spec_ok (p : specifier) : Prop :=
  (forall c a, sp_place p = Some (Some c, a) -> c <> 125) /\ (forall c, sp_sign p = Some c -> c ∈ [43; 45; 32]) /\ width_ok (sp_width p).

(** What a number looks like: sign, prefix and digits, filled up to the width. *)
Definition base_number (p : option presentation) : Z := match p with Some (P_b | P_B) => 2 | Some P_o => 8 | Some (P_x | P_X) => 16 | _ => 10 end.
Definition upper_case (p : option presentation) : bool := match p with Some (P_B | P_X) => true | _ => false end.
Definition digits (base v : Z) : bytes := if v =? 0 then [48] else match put_digits 128 v base [] with Ok l => l | Err _ => [] end.
Definition sign_and_prefix (p : specifier) (v : Z) : bytes :=
  (if v <? 0 then [45] else match sp_sign p with Some c => if c =? 45 then [] else [c] | None => [] end) ++
  (if sp_alt p then alt_prefix (base_number (sp_type p)) else []).
Definition cased (p : specifier) (l : bytes) : bytes := if upper_case (sp_type p) then to_upper <$> l else l.
Definition render (p : specifier) (v : Z) : bytes :=
  let head := cased p (sign_and_prefix p v) in
  let body := cased p (digits (base_number (sp_type p)) (Z.abs v)) in
  let n := (Z.to_nat (width_value (sp_width p)) - length (head ++ body))%nat in
  match sp_place p with
  | Some (fill, a) =>
      let c := default 32 fill in
      match a with
      | align_left => head ++ body ++ replicate n c
      | align_right => replicate n c ++ head ++ body
      | align_middle => replicate (n / 2) c ++ head ++ body ++ replicate (n - n / 2) c
      end
  | None => if sp_zero p then head ++ replicate n 48 ++ body else replicate n 32 ++ head ++ body
  end.
Definition plain : specifier := mkSpecifier None None false false [] None.
Definition render_piece (p : piece) : bytes :=
  match p with
  | Literal c => [c]
  | Brace => [123]
  | Field _ v spec => render (default plain spec) v
  | Word l => l
  end.
Definition piece_ok (p : piece) : Prop :=
  match p with
  | Literal c => c <> 123
  | Field t v spec => 0 < bits t <= 64 /\ - type_max t <= v <= type_max t /\ (is_signed t = false -> 0 <= v) /\ (forall s, spec = Some s -> spec_ok s)
  | _ => True
  end.

(** ** Reading a specifier *)

(** At the closing brace the parser has nothing to do: returning early makes no
    difference. *)
Definition quiet (k : str_formatter -> bytes -> res (str_formatter * bytes)) : Prop := forall f c l, k f (125 :: c :: l) = Ok (f, 125 :: c :: l).
Lemma unless_quiet k f x y l : quiet k -> unless_stopped f (x :: y :: l) k = k f (x :: y :: l).
Proof. intros Hk. unfold unless_stopped. cbn. destruct (Z.eqb_spec x 125) as [->|]; [by rewrite Hk|done]. Qed.
Lemma type_quiet : quiet parse_type.
Proof. done. Qed.
Lemma width_quiet : quiet parse_width.
Proof. done. Qed.
Lemma zero_quiet : quiet parse_zero.
Proof. done. Qed.
Lemma alt_quiet : quiet parse_alt.
Proof. done. Qed.
Lemma sign_quiet : quiet parse_sign.
Proof. done. Qed.
#[local] Hint Resolve type_quiet width_quiet zero_quiet alt_quiet sign_quiet : core.

(** A rest of the format that starts with a character in [P] and goes on. *)
Definition starts (P : Z -> Prop) (l : bytes) : Prop := exists x y l', l = x :: y :: l' /\ P x.
Ltac start H := destruct H as (?x & ?y & ?l & -> & ?).

Lemma type_parsed f tp c l : __throw_on_trailing f = false -> parse_type f (print_type tp ++ 125 :: c :: l) = Ok (f, print_type tp ++ 125 :: c :: l).
Proof. intros Hf. destruct tp as [p|]; [|done]. destruct p; cbn; by rewrite Hf. Qed.

Lemma width_digits_ok ds : forall w tail, starts (fun x => ~ 48 <= x < 57) tail -> Forall (fun c => 48 <= c < 57) ds ->
  0 <= w -> fold_left (fun w c => w * 10 + (c - 48)) ds w < 256 ->
  width_digits w (ds ++ tail) = Ok (fold_left (fun w c => w * 10 + (c - 48)) ds w, tail).
Proof.
  induction ds as [|d ds IH]; intros w tail Ht Hd Hw Hlt.
  - start Ht. cbn. destruct (Z.leb_spec 48 x); [|done]. destruct (Z.ltb_spec x 57); [lia|done].
  - apply Forall_cons in Hd as [Hd Hds]. cbn [app width_digits fold_left].
    assert (at_end (d :: ds ++ tail) = false) as ->.
    { start Ht. unfold at_end. cbn [length]. rewrite length_app. cbn [length]. apply Nat.eqb_neq. lia. }
    rewrite (proj2 (Z.leb_le _ _)), (proj2 (Z.ltb_lt _ _)) by lia. cbn [andb].
    assert (forall l a, Forall (fun c => 48 <= c < 57) l -> 0 <= a -> a <= fold_left (fun w c => w * 10 + (c - 48)) l a) as Hmono.
    { clear. induction l as [|c l IH]; intros a Hl Ha; cbn [fold_left]; [lia|]. apply Forall_cons in Hl as [? ?]. etrans; [|apply IH; [done|lia]]. lia. }
    cbn [fold_left] in Hlt. specialize (Hmono ds (w * 10 + (d - 48)) Hds ltac:(lia)).
    assert (u8 (w * 10 + (d - 48)) = w * 10 + (d - 48)) as -> by (unfold u8, wrapu; apply Z.mod_small; lia).
    apply IH; try done. lia.
Qed.
Definition set_width (w : bytes) (f : str_formatter) : str_formatter := match w with [] => f | _ => with_width (width_value w) f end.
Lemma width_parsed f w tail : width_ok w -> starts (fun x => ~ 48 <= x <= 57) tail -> parse_width f (w ++ tail) = parse_type (set_width w f) tail.
Proof.
  intros [Hw Hlt] Ht. destruct w as [|c w].
  - start Ht. cbn. destruct (Z.leb_spec 49 x); [|done]. destruct (Z.leb_spec x 57); [lia|done].
  - destruct Hw as [Hc Hw]. unfold parse_width. cbn [app deref then_ tl]. rewrite !(proj2 (Z.leb_le _ _)) by lia. cbn [andb].
    unfold width_value in Hlt. cbn [fold_left] in Hlt.
    rewrite width_digits_ok; [|start Ht; by exists x, y, l; split; [|lia]|done|lia|done]. cbn [then_]. start Ht. by rewrite unless_quiet.
Qed.
Lemma zero_parsed f (z : bool) tail : starts (fun x => x <> 48) tail ->
  parse_zero f ((if z then [48] else []) ++ tail) = parse_width (if z then with_zero f else f) tail.
Proof. intros Ht. start Ht. destruct z; unfold parse_zero; cbn [app deref then_ tl]; [by rewrite unless_quiet|]. by rewrite (proj2 (Z.eqb_neq _ _)). Qed.
Lemma alt_parsed f (a : bool) tail : starts (fun x => x <> 35) tail ->
  parse_alt f ((if a then [35] else []) ++ tail) = parse_zero (if a then with_alt f else f) tail.
Proof. intros Ht. start Ht. destruct a; unfold parse_alt; cbn [app deref then_ tl]; [by rewrite unless_quiet|]. by rewrite (proj2 (Z.eqb_neq _ _)). Qed.
Lemma sign_parsed f sg tail : (forall c, sg = Some c -> c ∈ [43; 45; 32]) -> starts (fun x => x ∉ [43; 45; 32]) tail ->
  parse_sign f (optional sg ++ tail) = parse_alt (match sg with Some c => with_sign c f | None => f end) tail.
Proof.
  intros Hs Ht. start Ht. destruct sg as [c|]; unfold parse_sign; cbn [optional app deref then_ tl].
  - assert ((c =? 43) || (c =? 45) || (c =? 32) = true) as ->.
    { specialize (Hs c eq_refl). rewrite !elem_of_cons in Hs. destruct Hs as [->|[->|[->|Hs]]]; [done..|by apply elem_of_nil in Hs]. }
    rewrite unless_quiet; [by rewrite unless_quiet|]. intros g d m. by rewrite unless_quiet.
  - rewrite !elem_of_cons in H. rewrite !(proj2 (Z.eqb_neq x _)) by naive_solver. cbn [orb]. by rewrite unless_quiet.
Qed.
Definition set_place (p : option (option Z * alignment)) (f : str_formatter) : str_formatter :=
  match p with
  | None => f
  | Some (None, a) => with_align a f
  | Some (Some c, a) => with_align a (with_fill c f)
  end.
Lemma align_char_of a : align_of (align_char a) = Some a.
Proof. by destruct a. Qed.
Lemma at_end_cons x y (l : bytes) : at_end (x :: y :: l) = false.
Proof. done. Qed.
Lemma place_parsed f p w c l : (forall d a, p = Some (Some d, a) -> d <> 125) -> Forall (fun d => align_of d = None /\ d <> 125) w ->
  parse_str f (print_place p ++ w ++ 125 :: c :: l) = parse_sign (set_place p f) (w ++ 125 :: c :: l).
Proof.
  intros Hp Hw. assert (exists x y r, w ++ 125 :: c :: l = x :: y :: r /\ align_of x = None) as (x & y & r & E & Hx).
  { destruct w as [|d [|e w]]; [by exists 125, c, l|..]; apply Forall_cons in Hw as [[Hd _] _]; by eexists _, _, _. }
  destruct p as [[[d|] a]|]; unfold parse_str; cbn [print_place optional app].
  - cbn [deref then_ tl]. rewrite (proj2 (Z.eqb_neq d 125)) by by eapply Hp. rewrite E, at_end_cons. cbn [deref then_ tl]. rewrite align_char_of. by rewrite unless_quiet.
  - rewrite E. cbn [deref then_ tl]. assert (align_char a =? 125 = false) as -> by by destruct a. rewrite at_end_cons. cbn [deref then_]. rewrite Hx, align_char_of. by rewrite unless_quiet.
  - destruct w as [|d w]; [done|]. apply Forall_cons in Hw as [[Hd Hd125] Hw]. cbn [app deref then_ tl]. rewrite (proj2 (Z.eqb_neq d 125)) by done.
    assert (exists x2 r2, w ++ 125 :: c :: l = x2 :: r2 /\ align_of x2 = None /\ r2 <> []) as (x2 & r2 & E2 & Hx2 & Hr2).
    { destruct w as [|e w]; [by eexists _, _|]. apply Forall_cons in Hw as [[He _] _]. eexists _, _. split; [done|]. split; [done|]. by destruct w. }
    rewrite E2. destruct r2 as [|y2 r2]; [done|]. rewrite at_end_cons. cbn [deref then_]. rewrite Hx2, Hd. by rewrite unless_quiet.
Qed.

(** The formatter a specifier makes. *)
Definition read_str (p : specifier) : str_formatter :=
  let f := set_place (sp_place p) (for_numbers new_str) in
  let f := match sp_sign p with Some c => with_sign c f | None => f end in
  let f := if sp_alt p then with_alt f else f in
  set_width (sp_width p) (if sp_zero p then with_zero f else f).
Definition num_of (p : specifier) : num_formatter :=
  mkNum (read_str p) (upper_case (sp_type p)) (base_number (sp_type p) =? 2) (base_number (sp_type p) =? 8) (base_number (sp_type p) =? 16) false.

Lemma starts_weaken (P Q : Z -> Prop) l : starts P l -> (forall x, P x -> Q x) -> starts Q l.
Proof. intros (x & y & l' & -> & Hx) H. exists x, y, l'. auto. Qed.
Lemma type_starts tp c l : starts (fun x => x ∈ [125; 98; 66; 111; 100; 120; 88]) (print_type tp ++ 125 :: c :: l).
Proof. destruct tp as [[]|]; eexists _, _, _; (split; [done|]); apply (bool_decide_unpack _); by vm_compute. Qed.
Lemma width_starts w tail : width_ok w -> starts (fun x => x ∈ [125; 98; 66; 111; 100; 120; 88]) tail ->
  starts (fun x => 49 <= x <= 57 \/ x ∈ [125; 98; 66; 111; 100; 120; 88]) (w ++ tail).
Proof.
  intros [Hw _] Ht. destruct w as [|c w]; [by eapply starts_weaken; [exact Ht|auto]|]. destruct Hw as [Hc _]. start Ht.
  destruct w as [|d w]; eexists _, _, _; (split; [done|]); by left.
Qed.
Lemma flag_starts (P : Z -> Prop) (b : bool) d tail : P d -> starts P tail -> starts P ((if b then [d] else []) ++ tail).
Proof. intros Hd Ht. destruct b; [|done]. start Ht. by exists d, x, (y :: l). Qed.

Lemma num_parsed p c l : spec_ok p -> parse_num (new_num false) (print_spec p ++ 125 :: c :: l) = Ok (num_of p, 125 :: c :: l).
Proof.
  intros (Hpl & Hsg & Hw). unfold parse_num, print_spec. rewrite <- !app_assoc.
  pose proof (type_starts (sp_type p) c l) as T1. pose proof (width_starts _ _ Hw T1) as T2.
  set (ok1 := fun x => 49 <= x <= 57 \/ x ∈ [125; 98; 66; 111; 100; 120; 88]) in *.
  assert (forall x, ok1 x -> x <> 48 /\ x <> 35 /\ x ∉ [43; 45; 32]) as Hok.
  { intros x [Hx|Hx]; [|rewrite !elem_of_cons, elem_of_nil in Hx]; (split; [lia|]; split; [lia|]); rewrite !elem_of_cons, elem_of_nil; lia. }
  set (w := optional (sp_sign p) ++ (if sp_alt p then [35] else []) ++ (if sp_zero p then [48] else []) ++ sp_width p ++ print_type (sp_type p)).
  assert (Forall (fun d => align_of d = None /\ d <> 125) w) as Hcalm.
  { unfold w. repeat apply Forall_app_2.
    - destruct (sp_sign p) as [d|]; [|done]. constructor; [|done]. specialize (Hsg d eq_refl). rewrite !elem_of_cons, elem_of_nil in Hsg. by destruct Hsg as [->|[->|[->|[]]]].
    - destruct (sp_alt p); by repeat constructor.
    - destruct (sp_zero p); by repeat constructor.
    - destruct Hw as [Hw _]. destruct (sp_width p) as [|d ds]; [done|]. destruct Hw as [Hd Hds].
      assert (forall e, 48 <= e <= 57 -> align_of e = None /\ e <> 125) as He by (intros e He; unfold align_of; rewrite !(proj2 (Z.eqb_neq _ _)) by lia; split; [done|lia]).
      constructor; [apply He; lia|]. eapply Forall_impl; [exact Hds|]. intros e Hq. cbn beta in Hq. apply He. lia.
    - destruct (sp_type p) as [[]|]; by repeat constructor. }
  pose proof (place_parsed (for_numbers (__strfmt (new_num false))) (sp_place p) w c l Hpl Hcalm) as E. unfold w in E. rewrite <- !app_assoc in E. cbn [app] in E |- *. rewrite E. clear E.
  rewrite sign_parsed; [|done|]; cycle 1.
  { apply flag_starts; [apply (bool_decide_unpack _); by vm_compute|]. apply flag_starts; [apply (bool_decide_unpack _); by vm_compute|]. eapply starts_weaken; [exact T2|]. naive_solver. }
  rewrite alt_parsed by (apply flag_starts; [done|]; eapply starts_weaken; [exact T2|]; naive_solver).
  rewrite zero_parsed by (eapply starts_weaken; [exact T2|]; naive_solver).
  rewrite width_parsed; [|done|eapply starts_weaken; [exact T1|]; intros x; rewrite !elem_of_cons, elem_of_nil; lia].
  fold (read_str p). change (set_width (sp_width p) _) with (read_str p).
  rewrite type_parsed.
  - cbn [then_]. unfold num_of. destruct (sp_type p) as [[]|]; done.
  - unfold read_str, set_width, set_place, new_num, new_str. destruct (sp_width p), (sp_zero p), (sp_alt p), (sp_sign p), (sp_place p) as [[[] ?]|]; done.
Qed.

(** ** Digits *)

(** The number that digits stand for. *)
Definition number_of (base : Z) (l : bytes) : Z := fold_left (fun a c => a * base + to_value c) l 0.
Lemma put_digits_any base (room : nat) : 2 <= base <= 36 -> forall v acc, 0 <= v < 2 ^ Z.of_nat room ->
  exists l, put_digits room v base acc = Ok (l ++ acc) /\ (length l <= room)%nat /\ number_of base l = v /\ (l = [] -> v = 0) /\ Forall (fun c => to_value c <> -1) l.
Proof.
  intros Hb. induction room as [|room IH]; intros v acc Hv; [exists []; replace v with 0 by lia; by repeat split|].
  cbn [put_digits]. destruct (Z.eqb_spec v 0) as [->|Hv0]; [exists []; repeat split; cbn; (done || lia)|].
  pose proof (Z.mod_pos_bound v base ltac:(lia)). pose proof (Z.div_mod v base ltac:(lia)).
  destruct (digit_value (v mod base) ltac:(lia)) as (c & -> & Hc & _).
  destruct (IH (v / base) (c :: acc)) as (l & E & Hl & Hn & _ & Hf).
  { rewrite Nat2Z.inj_succ, Z.pow_succ_r in Hv by lia. split; [apply Z.div_pos; lia|]. apply Z.div_lt_upper_bound; nia. }
  exists (l ++ [c]). rewrite E, <- app_assoc. split; [done|]. split; [rewrite length_app; cbn; lia|]. split; [|split; [by destruct l|apply Forall_app; split; [done|constructor; [lia|done]]]].
  unfold number_of in *. rewrite fold_left_app, Hn. cbn. lia.
Qed.
Lemma digits_ok base v : 2 <= base <= 36 -> 0 <= v < 2 ^ 64 ->
  (0 < length (digits base v) <= 64)%nat /\ number_of base (digits base v) = v /\
  forall t cap, 64 <= cap -> to_chars t cap v base = Ok (mkTo (Z.of_nat (length (digits base v))) no_error (digits base v)).
Proof.
  intros Hb Hv. unfold digits. destruct (Z.eqb_spec v 0) as [->|Hv0].
  { split; [cbn; lia|]. split; [done|]. intros t cap Hc. unfold to_chars. by rewrite (proj2 (Z.eqb_neq cap 0)) by lia. }
  destruct (put_digits_any base 64 Hb v [] Hv) as (l & E & Hl & Hn & H0 & _).
  assert (forall k r a acc m, put_digits r a base acc = Ok m -> put_digits (k + r) a base acc = Ok m) as Hmore.
  { clear. intros k r. induction r as [|r IH]; intros a acc m.
    - cbn [put_digits]. destruct (a =? 0) eqn:E; [|done]. intros <-. destruct (k + 0)%nat; cbn; by rewrite E.
    - rewrite Nat.add_succ_r. cbn [put_digits]. destruct (a =? 0); [done|]. destruct (digits_table !! _); [apply IH|done]. }
  apply (Hmore 64%nat) in E. change (64 + 64)%nat with 128%nat in E. rewrite app_nil_r in E. rewrite E.
  assert (0 < length l)%nat by (destruct l; [by specialize (H0 eq_refl)|cbn; lia]). split; [lia|]. split; [done|]. intros t cap Hc.
  unfold to_chars. rewrite (proj2 (Z.eqb_neq cap 0)), (proj2 (Z.eqb_neq v 0)), (proj2 (Z.ltb_ge v 0)) by lia. rewrite E. cbn [length]. rewrite (proj2 (Z.ltb_ge _ _)) by lia. done.
Qed.

(** ** Writing a number *)

Lemma read_str_fields p : let s := read_str p in
  __sign s = default 45 (sp_sign p) /\ __alt_repr s = sp_alt p /\ __is_numeric s = true /\ __zero_fill s = sp_zero p /\
  __default_align s = bool_decide (sp_place p = None) /\ __width s = width_value (sp_width p) /\
  __fill s = match sp_place p with Some (Some c, _) => c | _ => 32 end /\
  __align s = match sp_place p with Some (_, a) => a | None => align_right end.
Proof.
  unfold read_str, set_width, set_place, new_str, for_numbers.
  destruct (sp_width p), (sp_zero p), (sp_alt p), (sp_sign p), (sp_place p) as [[[] ?]|]; by repeat split.
Qed.

Lemma cased_app p l k : cased p (l ++ k) = cased p l ++ cased p k.
Proof. unfold cased. destruct (upper_case _); [apply fmap_app|done]. Qed.
Lemma cased_length p l : length (cased p l) = length l.
Proof. unfold cased. destruct (upper_case _); [apply length_fmap|done]. Qed.

(** Filling up to the width. *)
Lemma format_str_ok p head body : 
  format_str (read_str p) (head ++ body) (length head) = Ok (
    let n := (Z.to_nat (width_value (sp_width p)) - length (head ++ body))%nat in
    match sp_place p with
    | Some (fill, a) =>
        let c := default 32 fill in
        match a with
        | align_left => head ++ body ++ replicate n c
        | align_right => replicate n c ++ head ++ body
        | align_middle => replicate (n / 2) c ++ head ++ body ++ replicate (n - n / 2) c
        end
    | None => if sp_zero p then head ++ replicate n 48 ++ body else replicate n 32 ++ head ++ body
    end).
Proof.
  destruct (read_str_fields p) as (_ & _ & Hn & Hz & Hd & Hw & Hf & Ha). unfold format_str. rewrite Hn, andb_false_r. f_equal. rewrite Hw, Hd, Hz, Hf, Ha.
  set (w := width_value (sp_width p)). set (len := length (head ++ body)).
  replace (Z.to_nat (w - Z.of_nat len)) with (Z.to_nat w - len)%nat by lia. set (n := (Z.to_nat w - len)%nat).
  assert (n - n / 2 = n / 2 + n mod 2)%nat as Hhalf by (pose proof (Nat.div_mod_eq n 2); lia).
  assert ((Z.of_nat len <? w) = negb (n =? 0)%nat) as ->.
  { destruct (Z.ltb_spec (Z.of_nat len) w), (Nat.eqb_spec n 0); try done; unfold n in *; lia. }
  destruct (Nat.eqb_spec n 0) as [Hn0|Hn0].
  - rewrite Hn0. cbn. rewrite app_nil_r. destruct (sp_place p) as [[fill []]|]; cbn; rewrite ?app_nil_r; try done. by destruct (sp_zero p).
  - rewrite <- Hhalf. destruct (sp_place p) as [[fill a]|]; cbn.
    + destruct a; cbn; rewrite ?app_nil_r, <- ?app_assoc; by destruct fill.
    + destruct (sp_zero p); cbn; rewrite ?app_nil_r; [|done]. by rewrite take_app_length, drop_app_length.
Qed.

Lemma num_formatted t p v : 0 < bits t <= 64 -> - type_max t <= v <= type_max t -> (is_signed t = false -> 0 <= v) -> spec_ok p ->
  format_num t (num_of p) v = Ok (render p v).
Proof.
  intros Hb Hv Hu (_ & Hsg & _). pose proof (type_max_bound t Hb) as [Hmax _].
  destruct (read_str_fields p) as (Esg & Ealt & _). unfold format_num. cbn [__strfmt __char __upper num_of]. rewrite Esg, Ealt.
  assert ((if v <? 0 then convert t (- v) else Ok v) = Ok (Z.abs v)) as ->.
  { destruct (Z.ltb_spec v 0); [|by rewrite Z.abs_eq by lia]. rewrite Z.abs_neq by lia. apply convert_ok; [done|lia]. }
  assert (base_of (num_of p) = base_number (sp_type p)) as -> by (unfold base_of, num_of; cbn; by destruct (sp_type p) as [[]|]).
  assert (2 <= base_number (sp_type p) <= 36) as Hbase by (destruct (sp_type p) as [[]|]; cbn; lia).
  assert (forall l, ((if v <? 0 then [45] else if negb (default 45 (sp_sign p) =? 45) then [default 45 (sp_sign p)] else []) ++ l) =
    ((if v <? 0 then [45] else match sp_sign p with Some c => if c =? 45 then [] else [c] | None => [] end) ++ l)) as Hpre.
  { intros l. destruct (v <? 0); [done|]. destruct (sp_sign p) as [c|]; [|done]. cbn. by destruct (c =? 45). }
  rewrite Hpre. fold (sign_and_prefix p v). cbn [then_].
  assert (length (sign_and_prefix p v) <= 3)%nat as H3.
  { unfold sign_and_prefix. destruct (v <? 0), (sp_sign p) as [c|], (sp_alt p); cbn; try destruct (c =? 45); destruct (sp_type p) as [[]|]; cbn; lia. }
  destruct (digits_ok (base_number (sp_type p)) (Z.abs v) Hbase ltac:(lia)) as (_ & _ & Et). rewrite Et by lia. cbn [then_ written to_ec].
  rewrite bool_decide_true by done. cbn [negb]. unfold render. rewrite <- format_str_ok, cased_length. f_equal. by rewrite <- cased_app.
Qed.

(** ** Whole formats *)

(** Without a specifier a number is read like one with an empty specifier. *)
Lemma plain_ok : spec_ok plain.
Proof. split; [done|]. split; [done|]. by split. Qed.
Lemma field_handled t v spec c l : piece_ok (Field t v spec) ->
  handle_arg (Some (ArgInt t v)) (match spec with Some p => print_spec p | None => [] end ++ 125 :: c :: l) = Ok (render (default plain spec) v, 125 :: c :: l).
Proof.
  intros (Hb & Hv & Hu & Hs). cbn [handle_arg]. assert (spec_ok (default plain spec)) as Hok by (destruct spec; [by apply Hs|apply plain_ok]).
  replace (match spec with Some p => print_spec p | None => [] end) with (print_spec (default plain spec)) by by destruct spec.
  rewrite num_parsed by done. cbn [then_]. by rewrite num_formatted.
Qed.
Lemma word_handled s c l : handle_arg (Some (ArgString s)) (125 :: c :: l) = Ok (s, 125 :: c :: l).
Proof.
  cbn. unfold format_str. cbn. assert (Z.of_nat (length s) <? 0 = false) as -> by (apply Z.ltb_ge; lia). cbn. by rewrite app_nil_r.
Qed.

Lemma lookup_of_drop {A} (k : nat) (l : list A) x m : drop k l = x :: m -> l !! k = Some x /\ drop (S k) l = m.
Proof.
  intros E. split.
  - rewrite <- (Nat.add_0_r k), <- lookup_drop, E. done.
  - rewrite <- Nat.add_1_r, <- drop_drop, E. done.
Qed.
(** One field: the next argument is handled and the format goes on behind the brace. *)
Lemma handle_field n args ix (k : nat) a (spec : option bytes) text c l : ix <> manual -> Z.of_nat k + 1 < 2 ^ 64 -> args !! k = Some a ->
  handle_arg (Some a) (match spec with Some sp => sp | None => [] end ++ 125 :: c :: l) = Ok (text, 125 :: c :: l) ->
  handle_format (S n) args ix (Z.of_nat k) (123 :: match spec with Some sp => 58 :: sp | None => [] end ++ 125 :: c :: l) =
    let! m := handle_format n args automatic (Z.of_nat (S k)) (c :: l) in Ok (text ++ m).
Proof.
  intros Hix Hk Ha Eh. cbn [handle_format].
  assert (next_arg_id ix (Z.of_nat k) = Ok (automatic, Z.of_nat k, Z.of_nat (S k))) as En.
  { unfold next_arg_id. rewrite u64_id by (split; lia). rewrite (proj2 (Z.eqb_neq _ __num_args)) by (unfold __num_args; lia).
    replace (Z.of_nat k + 1) with (Z.of_nat (S k)) by lia. by destruct ix. }
  destruct spec as [sp|]; cbn [app].
  - rewrite at_end_cons. cbn -[handle_format handle_arg next_arg_id Z.of_nat lookup]. rewrite En. cbn -[handle_format handle_arg Z.of_nat lookup].
    rewrite Nat2Z.id, Ha. rewrite Eh. reflexivity.
  - rewrite at_end_cons. cbn -[handle_format handle_arg next_arg_id Z.of_nat lookup]. rewrite En. cbn -[handle_format handle_arg Z.of_nat lookup].
    rewrite Nat2Z.id, Ha. cbn [app] in Eh. rewrite Eh. reflexivity.
Qed.

Lemma handle_pieces ps : Forall piece_ok ps -> forall fuel args (k : nat) ix, Z.of_nat (k + length ps) + 1 < 2 ^ 64 ->
  (length (concat (print_piece <$> ps)) < fuel)%nat -> ix <> manual -> drop k args = args_of ps ->
  handle_format fuel args ix (Z.of_nat k) (concat (print_piece <$> ps) ++ [0]) = Ok (concat (render_piece <$> ps)).
Proof.
  induction 1 as [|p ps Hp Hps IH]; intros [|fuel] args k ix Hk Hf Hix Hd; [cbn in Hf; lia|done|cbn in Hf; lia|].
  cbn [fmap list_fmap concat] in *. rewrite length_app in Hf. cbn [length] in Hk.
  assert (exists c l, concat (print_piece <$> ps) ++ [0] = c :: l) as (c & l & Ec) by (destruct (concat _); by eexists _, _).
  destruct p as [d| |t v spec|w]; cbn [print_piece render_piece] in *.
  - cbn [app]. rewrite Ec. cbn [handle_format]. rewrite at_end_cons. cbn [deref then_ tl]. rewrite (proj2 (Z.eqb_neq d 123)) by done. cbn [negb].
    rewrite <- Ec, IH by (done || (cbn in *; lia)). done.
  - cbn [app]. rewrite Ec. cbn [handle_format]. rewrite at_end_cons. cbn [deref then_ tl]. change (negb (123 =? 123)) with false. cbv iota. cbn [deref then_ tl]. change (123 =? 123) with true. cbv iota.
    rewrite <- Ec, IH by (done || (cbn in *; lia)). done.
  - destruct (lookup_of_drop k args _ _ Hd) as [Ha Hd'].
    pose proof (handle_field fuel args ix k _ (print_spec <$> spec) (render (default plain spec) v) c l Hix ltac:(lia) Ha) as Es.
    specialize (Es ltac:(pose proof (field_handled t v spec c l Hp) as F; by destruct spec)).
    transitivity (handle_format (S fuel) args ix (Z.of_nat k) (123 :: match print_spec <$> spec with Some sp => 58 :: sp | None => [] end ++ 125 :: c :: l)).
    { f_equal. rewrite <- Ec. destruct spec; cbn; rewrite <- ?app_assoc; done. }
    rewrite Es, <- Ec, IH; [done|lia|destruct spec; cbn in Hf; rewrite ?length_app in Hf; lia|done|done].
  - destruct (lookup_of_drop k args _ _ Hd) as [Ha Hd'].
    pose proof (handle_field fuel args ix k _ None w c l Hix ltac:(lia) Ha (word_handled w c l)) as Es.
    transitivity (handle_format (S fuel) args ix (Z.of_nat k) (123 :: [] ++ 125 :: c :: l)); [by rewrite <- Ec|].
    rewrite Es, <- Ec, IH; [done|lia|cbn in Hf; lia|done|done].
Qed.

(** C23: what is printed is what was meant.  A format put together from characters,
    escaped braces, words, and numbers with or without a specifier writes the
    characters, the words and the numbers in order: each number with its sign, its
    prefix and its digits, filled up to the width at the side that was asked for or,
    behind the prefix, with zeros.  Digits of a width after the first must not be 9,
    and the least value of a signed type is left out. *)
Theorem format_renders ps : Forall piece_ok ps -> Z.of_nat (length ps) + 1 < 2 ^ 64 ->
  format_to (concat (print_piece <$> ps)) (args_of ps) = Ok (concat (render_piece <$> ps)).
Proof. intros Hps Hn. apply (handle_pieces ps Hps _ _ 0); [lia|lia|done|done]. Qed.

(** The digits of a number stand for it. *)
Lemma digits_stand_for base v : 2 <= base <= 36 -> 0 <= v < 2 ^ 64 -> number_of base (digits base v) = v.
Proof. intros Hb Hv. by destruct (digits_ok base v Hb Hv) as (_ & ? & _). Qed.
(** A number takes the room that was asked for. *)
Lemma render_width p v : (Z.to_nat (width_value (sp_width p)) <= length (render p v))%nat.
Proof.
  unfold render. destruct (sp_place p) as [[fill []]|]; [| | |destruct (sp_zero p)]; rewrite ?length_app, ?length_replicate, ?length_app; lia.
Qed.

Definition report_pieces : list piece :=
  [Literal 97; Field uint64_t 17 None; Brace; Field uint64_t 255 (Some (mkSpecifier None None true true [49; 48] (Some P_x)));
   Word [98; 99]; Field int64_t (-42) (Some (mkSpecifier (Some (Some 42, align_middle)) None false false [56] None))].
Lemma report_pieces_ok : Forall piece_ok report_pieces.
Proof.
  assert (forall t v spec, 0 < bits t <= 64 -> - type_max t <= v -> v <= type_max t -> (is_signed t = false -> 0 <= v) -> (forall p, spec = Some p -> spec_ok p) -> piece_ok (Field t v spec)) as HF by done.
  assert (forall w, Forall (fun c => 49 <= c < 57 \/ c = 48) w -> hd 49 w <> 48 -> width_value w < 256 -> width_ok w) as HW.
  { intros w Hw Hh Hv. split; [|done]. destruct w as [|c w]; [done|]. apply Forall_cons in Hw as [Hc Hw]. cbn in Hh. split; [lia|].
    eapply Forall_impl; [exact Hw|]. intros d Hd. cbn beta in Hd. lia. }
  unfold report_pieces. repeat (apply Forall_cons; split); try done; apply HF; try (cbn; lia); try (by vm_compute); intros p [= <-];
    (split; [by intros c a [= <- <-]|]); (split; [done|]); apply HW; try done; repeat constructor; lia.
Qed.
Lemma format_renders_witness :
  format_to (concat (print_piece <$> report_pieces)) (args_of report_pieces) = Ok (concat (render_piece <$> report_pieces)).
Proof. apply (format_renders report_pieces report_pieces_ok). cbn. lia. Defined.
Example reported : format_to (text "a{}{{{:#010x}{}{:*^8}") [ArgInt uint64_t 17; ArgInt uint64_t 255; ArgString (text "bc"); ArgInt int64_t (-42)] = Ok (text "a17{0x000000ffbc**-42***").
Proof. by vm_compute. Qed.

(** ** Formats that are refused *)

(** A pointer with its type, an argument with its number, and a width such as 19. *)
Example pointer_type_refused : format_to (text "{:p}") [ArgPointer 16] = Err (Panic "unterminated format specifier found") /\ format_to (text "{}") [ArgPointer 16] = Ok (text "0x10").
Proof. by vm_compute. Qed.
Example indices_refused : format_to (text "{0}") [ArgInt uint64_t 5] = Err (Panic "indexed format specifier specifies an index beyond the number of provided arguments").
Proof. by vm_compute. Qed.
Example nines_refused : format_to (text "{:19}") [ArgInt uint64_t 5] = Err (Panic "found unexpected characters at the position of a format type specifier").
Proof. by vm_compute. Qed.
(** The least signed value overflows, a width above 255 wraps, and a closing brace that
    is doubled is written twice. *)
Example least_value_faults : format_to (text "{}") [ArgInt int64_t (- 2 ^ 63)] = Err Fault.
Proof. by vm_compute. Qed.
Example wide_field_wraps : format_to (text "{:258}") [ArgInt uint64_t 5] = Ok (text " 5").
Proof. by vm_compute. Qed.
Example closing_braces_doubled : format_to (text "}}") [] = Ok (text "}}").
Proof. by vm_compute. Qed.
